(* ===== verification/_CoqProject ===== *)
-Q . S2P
Prelude.v
RaftTypes.v
RaftNode.v
RaftLog.v
RaftLogSpec.v
RaftMembership.v
RaftServer.v
RaftRun.v
RaftFrame.v
RaftElection.v
RaftQuorum.v
RaftIndex.v
RaftReplication.v
RaftTermination.v
RaftSnapshot.v
RaftSend.v
RaftFindings.v
RaftProtocol.v
RaftProtocolStep.v
RaftApp.v
RaftRefine.v
RaftRefineElection.v
RaftRefineLog.v
RaftRefineAppend.v
SmrTypes.v
SmrServer.v
SmrApp.v
SmrMessages.v
SmrCluster.v
SmrSim.v
SmrInv.v
SmrTheorems.v
SmrFindings.v
SmrClient.v
FixedTable.v
FixedTableSpec.v
FixedTableInv.v
FixedTableMap.v
FixedTableTheorems.v
HugeAlloc.v
HugeAllocSpec.v
HugeAllocTheorems.v
TimingWheel.v
TimingWheelSpec.v
TimingWheelTheorems.v
IoVector.v
IoVectorSpec.v
IoVectorClass.v
IoVectorOps.v
Serializer.v
SerializerSpec.v
SerializerSer.v
SerializerTheorems.v
SerializerPkts.v
SmTypes.v
RpcTypes.v
Rpc.v
RpcState.v
Sm.v
SmInv.v
SmStep.v
SmTheorems.v
SmFindings.v
Heartbeat.v
HeartbeatSpec.v
HeartbeatTheorems.v
RpcTx.v
RpcKick.v
RpcHandlers.v
RpcClientInv.v
RpcServerInv.v
RpcSystem.v
RpcExample.v
RpcTheorems.v
RpcFindings.v
RpcConnect.v
