(* ===== verification/Prelude.v ===== *)
(** * Verification of zRPC

    zRPC is an RPC library derived from eRPC.  Messages are scatter/gather vectors
    ([src/huibuffer]) that the datapath ([src/rpc.h], [src/rpc_impl]) cuts into packets
    under a credit scheme, with a timing wheel for pacing ([src/cc]).  Two applications
    come with their own data structures: a replicated key-value store ([apps/smr]) on a
    modified Raft library ([apps/smr/willemt_raft]), and a key-value store on the MICA hash
    table ([src/mica]).

    ** The program and its parts

    - Raft: the log is a circular array that grows by doubling
      ([raft_log.c]), the peer a record with a flag word ([raft_node.c]), the server
      ([raft_server.c], [raft_server_properties.c]) owns the log and a table of peers and
      calls back into the application; the log calls back into the server
      ([raft_offer_log], [raft_pop_log]).
    - The replication application ([apps/smr]): [init_raft] gives the library callbacks that send
      its messages as RPCs ([requestvote.h], [appendentries.h]) and apply its entries
      to a table ([log_callbacks.h]); a server's main loop ([server.h]) calls the library
      periodically and answers clients whose entry has been committed; a client
      ([client.h]) sends one PUT at a time to the server it takes for the leader.
    - Hash table ([mica/table/fixedtable.h] and [fixedtable_impl]): buckets of seven
      slots, chains of extra buckets from a free list, versions as locks.
    - Timing wheel ([cc/timing_wheel.h], [util/mempool.h]): slots of linked buckets from
      a pool; entries leave in the order of their slots.
    - Vectors and serialization ([huibuffer/iovector.h], [iovector.cpp],
      [serialization.h]): views of byte ranges, a vector with room at both ends, and
      messages as a struct and its fields' buffers.
    - RPC datapath ([rpc.h], [pkthdr.h], [sslot.h], [session.h], [rpc_impl/*.cc], the
      gathering in [ib_transport_datapath.cc]): a client sends the packets of a request
      while it has credits, the server returns a credit per packet but the last, calls
      the handler, and answers with the first packet of the response; the client asks
      for the others one by one.
    - Session management ([sm_types.h], [rpc_sm_api.cc], [rpc_sm_helpers.cc], the connect,
      disconnect and reset handlers): requests and responses over UDP create and destroy
      the sessions that the datapath uses, and give them entries of the receive ring;
      requests wait in [sm_pending_reqs_] and are sent again until a response arrives.
    - The heartbeat manager ([heartbeat_mgr.h]): a queue of timed events that sends
      heartbeats to remote processes and reports remotes as failed.
    - The huge-page allocator ([util/huge_alloc.h], [huge_alloc.cc]) that gives messages,
      receive buffers and wheel buckets their memory.

    ** Files

    - [Prelude]: faults and outcomes, the state-and-fault monad [M], the
      correctness predicate [wq] (total: [wp]; partial: [wlp]) with its rules,
      the class [Preserves] of computations that move the state along a
      preorder, C arrays and integers at their width, tactics and hint databases.
    - [RaftTypes]: the types of [include/raft.h], [raft_types.h], [raft_private.h] and
      the private structs.  [RaftNode], [RaftLog], [RaftMembership], [RaftServer]: one
      definition per C function, under its name; loops are [Fixpoint]s named after their
      function.  [RaftLog] is written against the class [LogHost], what the log needs
      from its owner; [RaftMembership] makes a server an instance of it.  [RaftRun]: the
      entry points as one step type, executions, and three servers with
      recording callbacks.  [RaftLogSpec]: the array implements a base index and a list.
      [RaftFrame]: what the primitives leave alone.  [RaftElection], [RaftQuorum]: terms,
      votes, leadership, majorities.  [RaftIndex]: order of the indexes and stability of
      committed entries.  [RaftReplication]: append entries against a functional
      reference.  [RaftTermination], [RaftSnapshot], [RaftSend]: fuel and
      applying, snapshots, sending.  [RaftFindings]: departures from the protocol.
    - [RaftProtocol]: an abstract Raft protocol, one record per server, with messages as a
      set that only grows, and its invariant.  [RaftProtocolStep]:
      every step keeps it; committed entries agree.  [RaftApp]: the class of
      applications the library relies on, and what the log's owner does under one.
      [RaftRefine], [RaftRefineElection], [RaftRefineLog], [RaftRefineAppend]: each entry
      point of the library, under such an application, is a sequence of protocol moves.
    - [SmrTypes]: the data of the replication application, its pools and its persistent log.
      [SmrServer]: callbacks, serialization, handlers, continuations, start and main
      loop of a server.  [SmrApp]: the callbacks are a [RaftApp].  [SmrMessages]:
      the round trip of requests, pools.  [SmrCluster]: servers, the requests and
      responses between them, clients, stops, and the start.  [SmrSim], [SmrInv]: the start and each
      step of the cluster are the protocol's. [SmrTheorems] has three servers that elect a
      leader and commit, and the theorems.  [SmrFindings].  [SmrClient]: the client.
    - [FixedTable]: the table.  [FixedTableSpec], [FixedTableInv]: chains of buckets and
      their invariant.  [FixedTableMap], [FixedTableTheorems]:
      the operations implement a finite map.
    - [TimingWheel]: wheel, buckets and pool.  [TimingWheelSpec]: the wheel as a list of
      entries per slot.  [TimingWheelTheorems]: a priority queue.
    - [IoVector]: memory, views and the class [iovector].  [IoVectorSpec],
      [IoVectorClass], [IoVectorOps]: what the operations do to the bytes a vector
      denotes, and operations that do something else.
    - [Serializer]: serializer and deserializer over a type of messages.
      [SerializerSpec], [SerializerSer], [SerializerTheorems]: round
      trip.  [SerializerPkts]: the packets of a message.
    - [RpcTypes]: headers, slots, sessions, the transport's constants as a class.
      [Rpc]: the endpoint and one definition per function of the datapath, in the order
      of the code's files.  [RpcState]: the state split at one slot and rules to step
      through it; what only grows.  [RpcTx],
      [RpcKick]: headers in front of a message, the transmit batch, the receive
      ring, credits.  [RpcHandlers]: the handlers on both
      sides.  [RpcClientInv], [RpcServerInv]: the packets of one RPC, and the state
      of each side after a number of packets.  [RpcSystem]: both sides
      and the packets between them.  [RpcExample]: creation and an instance.
      [RpcTheorems], [RpcFindings].
    - [SmTypes]: endpoints and packets of session management.  [Sm]: the endpoint of the
      datapath with the ring entries, the map of tokens and the pending requests, and one
      definition per function.  [SmInv]: a client and a server, what the network
      may do, and the invariant that ties sessions, packets and tokens.  [SmStep]: its
      preservation by every step.  [SmTheorems], [SmFindings].
      [RpcConnect]: an RPC over a session that a handshake has created.
    - [Heartbeat]: URIs and the heartbeat manager.  [HeartbeatSpec]: the invariant of the
      manager and one scan.  [HeartbeatTheorems].
    - [HugeAlloc]: the allocator.  [HugeAllocSpec]: its buffers as address
      ranges and their invariant.  [HugeAllocTheorems].

    ** State and effects

    A function of the code is a computation in [M] over the state of its component.  It
    returns its result or ends in a fault: a failed [assert] ([AssertFailed]), undefined
    behaviour (null, freed or out-of-range access, signed overflow, division by zero),
    an exhausted fuel bound ([OutOfFuel]), or, in the wheel, an exception ([Thrown]).  Memory is a finite map from addresses to
    bytes where contents matter ([heap]), and a map from pointers to objects where
    pointers are shared (peers, wheel buckets, packet headers, message objects).

    A Raft server is a pair of its log and a [host]: the struct, a heap of peers, the
    callback table, the application's state [udata], and the answers of [rand()] and of
    the allocator as sequences.  Callbacks are functions of a view of the server and the
    application's state; they do not write the server itself.  Assertions are enabled.  The
    allocator may fail at any call, and does for [INT_MAX] entries of a log or more.

    A server of the replication application is a Raft server whose [udata] is its context
    ([AppContext]).  A callback that throws leaves a mark in the context, at which the handler
    that called the library ends.  Payloads and tags are numbers from the
    application's pools, and what a pool hands out stays readable after it is freed, as in
    the code.  The RPC layer below appears as the list of requests a server has enqueued: in a
    cluster a request may arrive late, more than once or never, and its continuation runs at most
    once, with one of the responses given to it or with none.  [deployment] says what the
    program relies on: Raft ids of processes, which are hashes, do not collide, and
    the sessions to different servers differ.  The callback that [set_raft_callbacks] leaves
    uninitialised is an argument ([StackGarbage]).

    An endpoint ([Rpc]) keeps the packets it has sent ([wire]) and the calls it has made
    to code outside ([events]).  [asserts] tells builds with assertions from those
    without; the size of a header, the data per packet and the lengths of the
    transport's arrays are the class [Transport], of which [IBTransport] is the
    InfiniBand instance.  The packets a transport delivers are an argument.  Session
    management adds to the endpoint the packets it has sent ([udp]) and the calls of the
    user's handler ([sm_calls]); a delivery names a sent packet, so that packets are lost,
    repeated and reordered.  The wheel takes its memory from the huge-page allocator.  The
    answers of the operating system to the allocator, and
    the readings of the time counter in the heartbeat manager, are arguments.

    ** What the theorems show

    - The log refines a list: every sequence of operations runs inside the array and has
      the effect and the codes of the list operations.
    - Raft elections: terms only grow and a vote stays, as long as the user does not clear
      the server, load a snapshot or set the vote directly; a vote only for an
      up-to-date candidate, leadership and commit only on majorities, which intersect.
    - Raft replication: base <= applied <= commit <= current in every state of a [started] server;
      committed entries never change; a successful append-entries request has exactly
      the effect of the Raft rule; what is sent, applied, acknowledged.  Snapshots: begin
      and cancel, compaction, all-or-nothing installation.  Every entry point
      terminates.  A [started] server was created by [raft_new], given callbacks, and driven by
      operations of [RaftRun] that are [in_order]: entries are polled when they have been
      applied, snapshot metadata is not ahead of what is applied, and [raft_clear] is not called.
    - Replication: in every reachable cluster, for any order of messages, stops and clients'
      requests, the tables of two servers result from the same sequence of entries, one
      perhaps further along; a request that was answered with success is at one place of every log that
      reaches so far; a term has one leader; logs agree up to entries of the
      same term; the servers are a run of the protocol.  The contents of each server
      stay well formed.  Requests are unpacked as they were serialized.  A client asks again
      after any response.
    - Hash table: for one thread and valid keys, any sequence of operations on a new table
      is one on a finite map, full tables included; outcomes and statistics of each operation.
    - Wheel: for a caller that respects what [insert] asserts of its arguments, entries come
      out once, not before their slot, in order; a run ends early only when there is no memory.
    - Messages: what is serialized, with room in the vector, is what the other side
      deserializes; the packets of a message are its bytes in order, each within the packet size.
    - RPC: one RPC on an idle session, with prepared messages whose lengths are not multiples
      of the packet size, over channels that keep order and lose nothing: for any order
      of packet arrivals, event-loop turns and responses, no step faults, credits and packets
      in flight add up, the handler gets the bytes of the request and the continuation those
      of the response, each once; and it completes in any schedule in which all parties keep
      taking steps.
    - Session management: for host names that fit their arrays, tokens that differ, any calls of
      the client's user and any loss, repetition and order of the packets, nothing faults, a
      connected session has its counterpart with the numbers of both sides (what the datapath theorems start from), ring entries are
      conserved, and the user is told about each session once; a request that is sent
      again and its response finish a handshake.  The first RPC over a session that was
      created in this way runs as the datapath theorems say.
    - Heartbeats: a scan ends and reports only remotes that were added longer ago than the
      timeout, whether or not they have been heard since; URIs come
      back as they were written.
    - Allocator, without assertions and below its largest class: an allocation gives memory that
      is not in use, of at least the size asked for, and freeing takes it back.
    - Findings: places where the code does something else than it says.

    ** Bounds and fuel

    Raft: [log_delete_loop] gets the number of entries, [apply_loop] the distance from
    applied to commit index; [RaftTermination] proves both suffice.  Table: the loops
    over a chain get the number of buckets, [log_ceil] the 64 bits of a size.  Wheel:
    [reap_wslot_loop] one more than the buckets in memory, [reap_loop] one per slot.
    Serializer: [split_loop] the length of a buffer over the packet size, plus three.
    Vectors: [push_front_more] and [push_back_more] the bytes over [INT_MAX], plus two;
    [memcpy_iov] and [pkt_loss_scan_st] take their fuel as an argument, since the code's
    loop need not end.  All other loops run over a list or a counter computed before the
    loop.  Allocator: [get_class_loop] has the 64 bits of a size.  Heartbeats: [do_one] is
    given one more than the events of the queue, which suffices when a call takes less
    than the time between heartbeats ([wp_scan]).  [rpc_completes] bounds the schedule by six rounds
    per packet and two.
    Raft's indexes and terms are mathematical integers with the [long] and [int]
    conversions of the code; table, wheel and RPC counters wrap at their width; bit
    fields of headers keep theirs.

    ** Not modelled

    Raft: [raft_free], [log_free], [raft_set_heap_functions] and the printer [__log].
    RPC: the threads of the nexus and the registration of handlers, the queues of
    background threads, the wheel's path (its calls are commented out, so that nothing
    enters it), transmit timestamps and Timely (floating point).  Session management:
    faults that tests inject; tokens of different sessions are assumed to differ.
    Heartbeats: the mutex and the printed messages.  Transports: device I/O, apart from what [tx_burst] gathers.  Vectors:
    extraction into an [iovector*] and the partial copies built on it.  [serialize.h], an
    older copy of [serialization.h].  Replication: what the code prints and measures, the flags
    and threads of [main], mapping the file of the persistent log (there is no recovery: a server that
    stops does not come back).  A handler that ends in a failure sends nothing in the model.
    Benchmarks, generated code, tests.

    ** Plan

    Next: the list of active RPCs for several requests at a time, and later calls on the
    same slot; the queues of background threads. *)

From stdpp Require Export base gmap list strings numbers sorting.
From Stdlib Require Export ZArith Lia.

Declare Scope raft_scope.
Delimit Scope raft_scope with raft.
Open Scope Z_scope.

(** ** Faults and outcomes

    A C call either returns, or leaves the defined behaviour of the program:
    an [assert] that does not hold, an access the C standard leaves undefined
    (a null, freed or out-of-range pointer, signed overflow, division by zero),
    for a loop modelled with fuel, an exhausted bound, or an exception ([Thrown])
    that the caller is to see.  The bound is an artefact of the model and is proved
    unreachable wherever it occurs. *)
Inductive fault : Type :=
| AssertFailed
| UndefinedBehaviour
| OutOfFuel
| Thrown.

Inductive outcome (A : Type) : Type :=
| Ok (a : A)
| Fault (f : fault).
Arguments Ok {A} a.
Arguments Fault {A} f.

#[global] Instance fault_eq_dec : EqDecision fault.
Proof. solve_decision. Defined.

#[global] Instance outcome_ret : MRet outcome := λ A a, Ok a.
#[global] Instance outcome_bind : MBind outcome := λ A B f m,
  match m with Ok a => f a | Fault e => Fault e end.

(** ** The state-and-fault monad the handlers are written in. *)
Definition M (S A : Type) : Type := S → outcome (A * S).

#[global] Instance M_ret {S} : MRet (M S) := λ A a s, Ok (a, s).
#[global] Instance M_bind {S} : MBind (M S) := λ A B f m s,
  match m s with
  | Ok (a, s') => f a s'
  | Fault e => Fault e
  end.

Section monad_ops.
Context {S : Type}.

Definition get : M S S := λ s, Ok (s, s).
Definition gets {A} (f : S → A) : M S A := λ s, Ok (f s, s).
Definition modify (f : S → S) : M S unit := λ s, Ok (tt, f s).
Definition throw {A} (e : fault) : M S A := λ _, Fault e.
Definition lift {A} (o : outcome A) : M S A := λ s,
  match o with Ok a => Ok (a, s) | Fault e => Fault e end.
(** C's [assert], with assertions enabled. *)
Definition assert_ (b : bool) : M S unit := if b then mret tt else throw AssertFailed.

(** [for (x : xs) body(x)], a loop over a fixed list. *)
Fixpoint for_each {A} (xs : list A) (body : A → M S unit) : M S unit :=
  match xs with
  | [] => mret tt
  | x :: xs => body x ≫= λ _, for_each xs body
  end.

(** The same loop counting the elements on which the test holds. *)
Fixpoint count_if {A} (xs : list A) (test : A → M S bool) : M S Z :=
  match xs with
  | [] => mret 0
  | x :: xs => test x ≫= λ b : bool, count_if xs test ≫= λ n : Z, mret (if b then n + 1 else n)
  end.
End monad_ops.

(** ** Correctness of a computation

    [wq F m Q s]: from [s], [m] returns in a state and with a result that
    satisfy [Q], or ends in a fault that [F] allows.  With no fault allowed this
    is total correctness, [wp]; with every fault allowed, partial correctness,
    [wlp]. *)
Definition wq {S A} (F : fault → Prop) (m : M S A) (Q : A → S → Prop) (s : S) : Prop :=
  match m s with Ok (a, s') => Q a s' | Fault f => F f end.

Abbreviation wp := (wq (λ _, False)).
Abbreviation wlp := (wq (λ _, True)).

Section wq_rules.
Context {S : Type}.
Implicit Types (s : S) (F G : fault → Prop).

Lemma wp_iff {A} (m : M S A) Q s :
  wp m Q s ↔ ∃ a s', m s = Ok (a, s') ∧ Q a s'.
Proof. unfold wq. destruct (m s) as [[a s']|e] eqn:E; naive_solver. Qed.
Lemma wlp_iff {A} (m : M S A) Q s :
  wlp m Q s ↔ ∀ a s', m s = Ok (a, s') → Q a s'.
Proof. unfold wq. destruct (m s) as [[a s']|e] eqn:E; naive_solver. Qed.
Lemma wq_run {A} F (m : M S A) Q s a s' : wq F m Q s → m s = Ok (a, s') → Q a s'.
Proof. unfold wq. by intros H E; rewrite E in H. Qed.

Lemma wq_fault {A} e (m : M S A) s : wq (λ e', e' = e) m (λ _ _, False) s → m s = Fault e.
Proof. unfold wq. by destruct (m s) as [[]|]; [|intros ->]. Qed.
Lemma wq_eq {A} F (m m' : M S A) Q s : m s = m' s → wq F m Q s → wq F m' Q s.
Proof. unfold wq. by intros ->. Qed.

Lemma wq_ret {A} F (a : A) Q s : Q a s → wq F (mret a) Q s.
Proof. done. Qed.
Lemma wq_bind {A B} F (m : M S A) (f : A → M S B) Q s :
  wq F m (λ a s', wq F (f a) Q s') s → wq F (m ≫= f) Q s.
Proof. unfold wq, mbind, M_bind. by destruct (m s) as [[]|]. Qed.
Lemma wq_bind_inv {A B} F (m : M S A) (f : A → M S B) Q s :
  wq F (m ≫= f) Q s → wq F m (λ a s', wq F (f a) Q s') s.
Proof. unfold wq, mbind, M_bind. by destruct (m s) as [[]|]. Qed.
Lemma wq_mono {A} F (m : M S A) (P Q : A → S → Prop) s :
  wq F m P s → (∀ a s', P a s' → Q a s') → wq F m Q s.
Proof. unfold wq. destruct (m s) as [[]|]; naive_solver. Qed.
Lemma wq_weaken {A} F G (m : M S A) (P Q : A → S → Prop) s :
  wq F m P s → (∀ a s', P a s' → Q a s') → (∀ f, F f → G f) → wq G m Q s.
Proof. unfold wq. destruct (m s) as [[]|]; naive_solver. Qed.
Lemma wp_wq {A} F (m : M S A) (Q : A → S → Prop) s : wp m Q s → wq F m Q s.
Proof. intros H. by eapply wq_weaken. Qed.
Lemma wq_and {A} F G (m : M S A) (P Q : A → S → Prop) s :
  wq F m P s → wq G m Q s → wq F m (λ a s', P a s' ∧ Q a s') s.
Proof. unfold wq. destruct (m s) as [[]|]; naive_solver. Qed.

Lemma wq_get F Q s : Q s s → wq F get Q s.
Proof. done. Qed.
Lemma wq_gets {A} F (f : S → A) Q s : Q (f s) s → wq F (gets f) Q s.
Proof. done. Qed.
Lemma wq_modify F f Q s : Q tt (f s) → wq F (modify f) Q s.
Proof. done. Qed.
Lemma wq_throw {A} F e (Q : A → S → Prop) s : F e → wq F (throw e) Q s.
Proof. done. Qed.
Lemma wq_assert F (b : bool) (Q : unit → S → Prop) s :
  (b = false → F AssertFailed) → (b = true → Q tt s) → wq F (assert_ b) Q s.
Proof. destruct b; cbn; naive_solver. Qed.
Lemma wp_assert (b : bool) (Q : unit → S → Prop) s :
  b = true → Q tt s → wp (assert_ b) Q s.
Proof. by intros ->. Qed.
Lemma wq_lift {A} F (o : outcome A) (Q : A → S → Prop) s :
  (∀ f, o = Fault f → F f) → (∀ a, o = Ok a → Q a s) → wq F (lift o) Q s.
Proof. unfold wq, lift. destruct o; naive_solver. Qed.
Lemma wp_lift {A} (a : A) (o : outcome A) (Q : A → S → Prop) s :
  o = Ok a → Q a s → wp (lift o) Q s.
Proof. by intros ->. Qed.

(** Loop rule: an invariant indexed by what is left to do. *)
Lemma wq_for_each {A} F (I : list A → S → Prop) (body : A → M S unit) xs Q s :
  I xs s →
  (∀ x xs s, I (x :: xs) s → wq F (body x) (λ _ s', I xs s') s) →
  (∀ s, I [] s → Q tt s) →
  wq F (for_each xs body) Q s.
Proof.
  revert s. induction xs as [|x xs IH]; intros s HI Hbody HQ; cbn.
  - by apply HQ.
  - apply wq_bind. eapply wq_mono; [by apply Hbody|].
    intros [] s' HI'. by apply IH.
Qed.

(** Counting with a test that only reads: the number of elements that pass. *)
Lemma wlp_count_if {A} (f : A → bool) (test : A → M S bool) xs s :
  (∀ x, wlp (test x) (λ b s', s' = s ∧ b = f x) s) →
  wlp (count_if xs test) (λ n s', s' = s ∧ n = Z.of_nat (length (filter (λ x, f x = true) xs))) s.
Proof.
  intros Htest. induction xs as [|x xs IH]; [done|].
  cbn [count_if]. apply wq_bind. eapply wq_mono; [apply Htest|]. intros b s1 [-> ->].
  apply wq_bind. eapply wq_mono; [apply IH|]. intros n s2 [-> ->].
  apply wq_ret. split; [done|]. rewrite filter_cons. destruct (f x); cbn [decide]; simpl; lia.
Qed.
End wq_rules.

(** ** Computations that move the state along a preorder

    [Preserves R m]: every state [m] returns in is [R]-above the state it was
    started in.  With a preorder [R] this is closed under the monad's
    combinators, so that it propagates from the primitives to the handlers by
    type-class search; only the steps that are not [R]-monotone on their own
    need an argument. *)
Class Preserves {S A : Type} (R : relation S) (m : M S A) : Prop :=
  preserves s : wlp m (λ _ s', R s s') s.

Section preserves.
Context {S : Type} (R : relation S) `{!PreOrder R}.

#[global] Instance preserves_ret {A} (a : A) : Preserves R (mret a).
Proof. intros s. cbv. reflexivity. Qed.
#[global] Instance preserves_throw {A} e : Preserves R (@throw S A e).
Proof. by intros s. Qed.
#[global] Instance preserves_get : Preserves R get.
Proof. intros s. cbv. reflexivity. Qed.
#[global] Instance preserves_gets {A} (f : S → A) : Preserves R (gets f).
Proof. intros s. cbv. reflexivity. Qed.
#[global] Instance preserves_lift {A} (o : outcome A) : Preserves R (lift o).
Proof. intros s. apply wq_lift; [done|]. intros. reflexivity. Qed.
#[global] Instance preserves_assert b : Preserves R (assert_ b).
Proof. intros s. apply wq_assert; [done|]. intros. reflexivity. Qed.
#[global] Instance preserves_bind {A B} (m : M S A) (f : A → M S B) :
  Preserves R m → (∀ a, Preserves R (f a)) → Preserves R (m ≫= f).
Proof.
  intros Hm Hf s. apply wq_bind. eapply wq_mono; [apply Hm|].
  intros a s' H. eapply wq_mono; [apply Hf|]. intros b s'' H'. by trans s'.
Qed.
#[global] Instance preserves_for_each {A} (xs : list A) body :
  (∀ x, Preserves R (body x)) → Preserves R (for_each xs body).
Proof. intros Hb. induction xs; cbn; apply _. Qed.
#[global] Instance preserves_count_if {A} (xs : list A) test :
  (∀ x, Preserves R (test x)) → Preserves R (count_if xs test).
Proof. intros Hb. induction xs; cbn; apply _. Qed.

Lemma preserves_modify f : (∀ s, R s (f s)) → Preserves R (modify f).
Proof. intros H s. apply H. Qed.
Lemma preserves_run {A} (m : M S A) `{!Preserves R m} s a s' :
  m s = Ok (a, s') → R s s'.
Proof. apply (wq_run (λ _, True) _ (λ _ s', R s s')), preserves. Qed.
End preserves.

#[global] Instance preserves_if {S A} (R : relation S) (b : bool) (m1 m2 : M S A) :
  Preserves R m1 → Preserves R m2 → Preserves R (if b then m1 else m2).
Proof. by destruct b. Qed.

(** ** C arrays: an access outside the array is undefined behaviour. *)
Definition arr_get {A} (l : list A) (i : Z) : outcome A :=
  if 0 <=? i then
    match l !! Z.to_nat i with Some x => Ok x | None => Fault UndefinedBehaviour end
  else Fault UndefinedBehaviour.

Definition arr_set {A} (l : list A) (i : Z) (x : A) : outcome (list A) :=
  if (0 <=? i) && (i <? Z.of_nat (length l)) then Ok (<[Z.to_nat i := x]> l)
  else Fault UndefinedBehaviour.

Section arrays.
Context {A : Type}.
Implicit Types (l : list A) (x : A) (i j : Z).

Lemma arr_get_Ok l i x : arr_get l i = Ok x ↔ 0 ≤ i ∧ l !! Z.to_nat i = Some x.
Proof.
  unfold arr_get. destruct (Z.leb_spec 0 i); [|naive_solver lia].
  destruct (l !! Z.to_nat i); naive_solver.
Qed.
Lemma arr_get_fault l i f : arr_get l i = Fault f → f = UndefinedBehaviour.
Proof. unfold arr_get. destruct (0 <=? i), (l !! Z.to_nat i); congruence. Qed.
Lemma arr_get_total l i : 0 ≤ i < Z.of_nat (length l) → ∃ x, arr_get l i = Ok x.
Proof.
  intros Hi. destruct (lookup_lt_is_Some_2 l (Z.to_nat i)) as [x Hx]; [lia|].
  exists x. apply arr_get_Ok. naive_solver lia.
Qed.
Lemma arr_set_Ok l i x l' :
  arr_set l i x = Ok l' ↔ 0 ≤ i < Z.of_nat (length l) ∧ l' = <[Z.to_nat i := x]> l.
Proof.
  unfold arr_set. destruct (Z.leb_spec 0 i), (Z.ltb_spec i (Z.of_nat (length l)));
    cbn; naive_solver lia.
Qed.
Lemma arr_set_in_range l i x :
  0 ≤ i < Z.of_nat (length l) → arr_set l i x = Ok (<[Z.to_nat i := x]> l).
Proof. intros. by apply arr_set_Ok. Qed.
End arrays.

(** ** Integers at their width

    [int] is 32 bits and [long] is 64 bits (the LP64 targets the sources are
    built for).  A conversion to [int] keeps the low 32 bits; an addition whose
    mathematical value does not fit is undefined. *)
Definition INT_MAX : Z := 2147483647.
Definition INT_MIN : Z := -2147483648.
Definition LONG_MAX : Z := 9223372036854775807.
Definition LONG_MIN : Z := -9223372036854775808.

Definition to_int (z : Z) : Z := (z + 2147483648) mod 4294967296 - 2147483648.
Definition in_int (z : Z) : bool := (INT_MIN <=? z) && (z <=? INT_MAX).
Definition in_long (z : Z) : bool := (LONG_MIN <=? z) && (z <=? LONG_MAX).

Definition add_int {S} (a b : Z) : M S Z :=
  if in_int (a + b) then mret (a + b) else throw UndefinedBehaviour.
Definition add_long {S} (a b : Z) : M S Z :=
  if in_long (a + b) then mret (a + b) else throw UndefinedBehaviour.

Lemma to_int_small z : INT_MIN ≤ z ≤ INT_MAX → to_int z = z.
Proof. unfold to_int, INT_MIN, INT_MAX. intros. rewrite Z.mod_small; lia. Qed.
Lemma to_int_range z : INT_MIN ≤ to_int z ≤ INT_MAX.
Proof.
  unfold to_int, INT_MIN, INT_MAX.
  pose proof (Z.mod_pos_bound (z + 2147483648) 4294967296). lia.
Qed.
Lemma in_int_true z : in_int z = true ↔ INT_MIN ≤ z ≤ INT_MAX.
Proof. unfold in_int. lia. Qed.
Lemma in_long_true z : in_long z = true ↔ LONG_MIN ≤ z ≤ LONG_MAX.
Proof. unfold in_long. lia. Qed.

Section checked_arithmetic.
Context {S : Type}.
Lemma wq_add_int F a b Q (s : S) :
  (in_int (a + b) = false → F UndefinedBehaviour) →
  (INT_MIN ≤ a + b ≤ INT_MAX → Q (a + b) s) → wq F (add_int a b) Q s.
Proof.
  intros HF HQ. unfold add_int. destruct (in_int (a + b)) eqn:E; [|by apply HF].
  by apply HQ, in_int_true.
Qed.
Lemma wq_add_long F a b Q (s : S) :
  (in_long (a + b) = false → F UndefinedBehaviour) →
  (LONG_MIN ≤ a + b ≤ LONG_MAX → Q (a + b) s) → wq F (add_long a b) Q s.
Proof.
  intros HF HQ. unfold add_long. destruct (in_long (a + b)) eqn:E; [|by apply HF].
  by apply HQ, in_long_true.
Qed.
Lemma wp_add_long a b Q (s : S) :
  LONG_MIN ≤ a + b ≤ LONG_MAX → Q (a + b) s → wp (add_long a b) Q s.
Proof. intros H HQ. unfold add_long. by rewrite (proj2 (in_long_true _) H). Qed.
Lemma wp_add_int a b Q (s : S) :
  INT_MIN ≤ a + b ≤ INT_MAX → Q (a + b) s → wp (add_int a b) Q s.
Proof. intros H HQ. unfold add_int. by rewrite (proj2 (in_int_true _) H). Qed.
#[global] Instance preserves_add_int (R : relation S) `{!PreOrder R} a b : Preserves R (add_int a b).
Proof. unfold add_int. apply _. Qed.
#[global] Instance preserves_add_long (R : relation S) `{!PreOrder R} a b : Preserves R (add_long a b).
Proof. unfold add_long. apply _. Qed.
End checked_arithmetic.

(** ** Field assignment

    [field_update eta p] builds the function that replaces field [p] of a
    record, from the eta-expansion of the record. *)
Ltac field_update eta p :=
  let f := fresh "v" in
  let r := fresh "r" in
  intros f r;
  let e := eval red in (eta r) in
  let pat := eval pattern (p r) in e in
  lazymatch pat with
  | ?g (p r) => let t := eval cbv beta in (g f) in exact t
  end.

(** ** Stepping through handlers

    [wstep] takes one step of the computation in a [wq] goal, leaving the side
    conditions that are not immediate; [wsteps] also splits on the conditionals
    and matches it meets. *)
Ltac wstep :=
  lazymatch goal with
  | |- wq _ (mbind _ _) _ _ => apply wq_bind
  | |- wq _ (mret _) _ _ => apply wq_ret
  | |- wq _ get _ _ => apply wq_get
  | |- wq _ (gets _) _ _ => apply wq_gets
  | |- wq _ (modify _) _ _ => apply wq_modify
  | |- wq _ (throw _) _ _ => apply wq_throw; try done
  | |- wq _ (assert_ _) _ _ => apply wq_assert; [try done|intro]
  | |- wq _ (lift _) _ _ => apply wq_lift; [try done|intros ? ?]
  | |- wq _ (add_long _ _) _ _ => apply wq_add_long; [try done|intro]
  | |- wq _ (add_int _ _) _ _ => apply wq_add_int; [try done|intro]
  end; cbv beta.
Ltac wsplit :=
  lazymatch goal with
  | |- wq _ (if ?b then _ else _) _ _ => destruct b eqn:?
  | |- wq _ (match ?x with _ => _ end) _ _ => destruct x eqn:?
  end.
Ltac wsteps := repeat (wstep || wsplit).

(** Boolean tests of the code as propositions. *)
Ltac bool_prop :=
  repeat match goal with
  | H : negb _ = true |- _ => apply negb_true_iff in H
  | H : negb _ = false |- _ => apply negb_false_iff in H
  | H : _ && _ = true |- _ => apply andb_true_iff in H as [? ?]
  | H : _ || _ = false |- _ => apply orb_false_iff in H as [? ?]
  | H : (_ =? _) = true |- _ => apply Z.eqb_eq in H
  | H : (_ =? _) = false |- _ => apply Z.eqb_neq in H
  | H : (_ <? _) = true |- _ => apply Z.ltb_lt in H
  | H : (_ <? _) = false |- _ => apply Z.ltb_ge in H
  | H : (_ <=? _) = true |- _ => apply Z.leb_le in H
  | H : (_ <=? _) = false |- _ => apply Z.leb_gt in H
  | H : bool_decide _ = true |- _ => apply bool_decide_eq_true in H
  | H : bool_decide _ = false |- _ => apply bool_decide_eq_false in H
  end.

#[global] Typeclasses Opaque get gets modify throw lift assert_ for_each count_if add_int add_long.

(** [pres] proves a [Preserves] goal structurally: through binds, loops,
    conditionals and matches down to primitives with an instance or a lemma in
    the hint database [pres]. *)
Create HintDb pres discriminated.
Ltac pres_step :=
  lazymatch goal with
  | |- Preserves _ (mbind _ _) => notypeclasses refine (preserves_bind _ _ _ _ _); [tc_solve| |intros ?]
  | |- Preserves _ (for_each _ _) => notypeclasses refine (preserves_for_each _ _ _ _); [tc_solve|intros ?]
  | |- Preserves _ (count_if _ _) => notypeclasses refine (preserves_count_if _ _ _ _); [tc_solve|intros ?]
  | |- Preserves _ (if ?b then _ else _) => destruct b eqn:?
  | |- Preserves _ (match ?x with _ => _ end) => destruct x eqn:?
  | |- Preserves _ _ => first [solve [eauto with pres nocore] | tc_solve]
  end.
Ltac pres := repeat pres_step.
