(* ===== verification/RaftTypes.v ===== *)
(** * Data of the Raft library

    The types of [include/raft.h], [include/raft_types.h] and
    [include/raft_private.h] and the private structs of [raft_log.c] and
    [raft_node.c]: error codes, log entry kinds, entries, the five messages,
    the peer, the circular log and the server, the callback table, and the
    environment a server runs in (node heap, [rand], the allocator). *)

From S2P Require Import Prelude.

(** ** [raft_types.h] *)
Abbreviation raft_entry_id_t := Z (only parsing).
Abbreviation raft_term_t := Z (only parsing).
Abbreviation raft_index_t := Z (only parsing).
Abbreviation raft_node_id_t := Z (only parsing).

(** A [raft_node_t *]: the address of a peer in the node heap; the null pointer
    is [None] of [option raft_node_t]. *)
Abbreviation raft_node_t := positive (only parsing).

(** ** Error codes and enumerations of [raft.h] *)
Definition RAFT_ERR_NOT_LEADER : Z := -2.
Definition RAFT_ERR_ONE_VOTING_CHANGE_ONLY : Z := -3.
Definition RAFT_ERR_SHUTDOWN : Z := -4.
Definition RAFT_ERR_NOMEM : Z := -5.
Definition RAFT_ERR_NEEDS_SNAPSHOT : Z := -6.
Definition RAFT_ERR_SNAPSHOT_IN_PROGRESS : Z := -7.
Definition RAFT_ERR_SNAPSHOT_ALREADY_LOADED : Z := -8.

Inductive raft_membership_e : Type :=
| RAFT_MEMBERSHIP_ADD
| RAFT_MEMBERSHIP_REMOVE.

Definition RAFT_REQUESTVOTE_ERR_GRANTED : Z := 1.
Definition RAFT_REQUESTVOTE_ERR_NOT_GRANTED : Z := 0.
Definition RAFT_REQUESTVOTE_ERR_UNKNOWN_NODE : Z := -1.

Inductive raft_state_e : Type :=
| RAFT_STATE_NONE
| RAFT_STATE_FOLLOWER
| RAFT_STATE_CANDIDATE
| RAFT_STATE_LEADER.

#[global] Instance raft_state_e_eq_dec : EqDecision raft_state_e.
Proof. solve_decision. Defined.

Definition RAFT_SNAPSHOT_NONBLOCKING_APPLY : Z := 1.

Definition RAFT_LOGTYPE_NORMAL : Z := 0.
Definition RAFT_LOGTYPE_ADD_NONVOTING_NODE : Z := 1.
Definition RAFT_LOGTYPE_ADD_NODE : Z := 2.
Definition RAFT_LOGTYPE_DEMOTE_NODE : Z := 3.
Definition RAFT_LOGTYPE_REMOVE_NODE : Z := 4.
Definition RAFT_LOGTYPE_NUM : Z := 100.

Definition RAFT_NODE_STATUS_DISCONNECTED : Z := 0.
Definition RAFT_NODE_STATUS_CONNECTED : Z := 1.
Definition RAFT_NODE_STATUS_CONNECTING : Z := 2.
Definition RAFT_NODE_STATUS_DISCONNECTING : Z := 3.

(** ** Entries and messages *)

(** The payload: [buf] is the address of the user's bytes. *)
Record raft_entry_data_t : Type := mk_data {
  buf : Z;
  len : Z
}.

Record raft_entry_t : Type := mk_entry {
  ety_term : raft_term_t;
  ety_id : raft_entry_id_t;
  ety_type : Z;
  ety_data : raft_entry_data_t
}.

Abbreviation msg_entry_t := raft_entry_t (only parsing).

Record msg_entry_response_t : Type := mk_entry_response {
  mer_id : raft_entry_id_t;
  mer_term : raft_term_t;
  mer_idx : raft_index_t
}.

Record msg_requestvote_t : Type := mk_requestvote {
  rv_term : raft_term_t;
  rv_candidate_id : raft_node_id_t;
  rv_last_log_idx : raft_index_t;
  rv_last_log_term : raft_term_t
}.

Record msg_requestvote_response_t : Type := mk_requestvote_response {
  rvr_term : raft_term_t;
  rvr_vote_granted : Z
}.

(** [ae_entries] is what the [entries] pointer addresses; the null pointer addresses nothing. *)
Record msg_appendentries_t : Type := mk_appendentries {
  ae_term : raft_term_t;
  ae_prev_log_idx : raft_index_t;
  ae_prev_log_term : raft_term_t;
  ae_leader_commit : raft_index_t;
  ae_n_entries : Z;
  ae_entries : list raft_entry_t
}.

Record msg_appendentries_response_t : Type := mk_appendentries_response {
  aer_term : raft_term_t;
  aer_success : Z;
  aer_current_idx : raft_index_t;
  aer_first_idx : raft_index_t
}.

(** ** Private structs *)

(** A peer ([raft_node.c]). *)
Record raft_node_private_t : Type := mk_node {
  nd_udata : Z;
  nd_next_idx : raft_index_t;
  nd_match_idx : raft_index_t;
  nd_flags : Z;
  nd_id : raft_node_id_t
}.

(** The log, a circular array ([raft_log.c]).  [lg_cb] says whether the callback
    pointer [cb] is set; it then points at the table of the owning server. *)
Record log_private_t : Type := mk_log {
  lg_size : raft_index_t;
  lg_count : raft_index_t;
  lg_front : raft_index_t;
  lg_back : raft_index_t;
  lg_base : raft_index_t;
  lg_entries : list raft_entry_t;
  lg_cb : bool
}.

(** The server ([raft_private.h]), less its log, callback table and user data,
    which [host] and [raft] below place next to it.  [nodes] is the allocated
    pointer array, of which the first [num_nodes] cells are in use. *)
Record raft_server_private_t : Type := mk_server {
  current_term : raft_term_t;
  voted_for : raft_node_id_t;
  commit_idx : raft_index_t;
  last_applied_idx : raft_index_t;
  state : raft_state_e;
  timeout_elapsed : Z;
  nodes : list raft_node_t;
  num_nodes : Z;
  election_timeout : Z;
  election_timeout_rand : Z;
  request_timeout : Z;
  current_leader : option raft_node_t;
  node : option raft_node_t;
  voting_cfg_change_log_idx : raft_index_t;
  connected : Z;
  snapshot_in_progress : Z;
  snapshot_flags : Z;
  snapshot_last_idx : raft_index_t;
  snapshot_last_term : raft_term_t;
  saved_snapshot_last_idx : raft_index_t;
  saved_snapshot_last_term : raft_term_t
}.

(** ** Callbacks

    What a callback can read of the server: everything.  What it returns: the
    code the library tests and the new user data; the callbacks for offering,
    polling and popping may also re-point the entry's payload.  A callback does
    not write the server itself (it is given the server to query it). *)
Record raft_view : Type := mk_view {
  v_log : log_private_t;
  v_me : raft_server_private_t;
  v_heap : gmap positive raft_node_private_t
}.

Section callbacks.
Context (U : Type).

Definition func_send_requestvote_f : Type :=
  raft_view → U → raft_node_t → msg_requestvote_t → Z * U.
Definition func_send_appendentries_f : Type :=
  raft_view → U → raft_node_t → msg_appendentries_t → Z * U.
Definition func_send_snapshot_f : Type := raft_view → U → raft_node_t → Z * U.
Definition func_node_has_sufficient_logs_f : Type := raft_view → U → raft_node_t → Z * U.
Definition func_persist_vote_f : Type := raft_view → U → raft_node_id_t → Z * U.
Definition func_persist_term_f : Type := raft_view → U → raft_term_t → raft_node_id_t → Z * U.
Definition func_logentry_event_f : Type :=
  raft_view → U → raft_entry_t → raft_index_t → Z * U.
Definition func_logentry_edit_f : Type :=
  raft_view → U → raft_entry_t → raft_index_t → Z * raft_entry_data_t * U.
Definition func_membership_event_f : Type :=
  raft_view → U → raft_node_t → option raft_entry_t → raft_membership_e → U.
End callbacks.

Record raft_cbs_t (U : Type) : Type := mk_cbs {
  cb_send_requestvote : option (func_send_requestvote_f U);
  cb_send_appendentries : option (func_send_appendentries_f U);
  cb_send_snapshot : option (func_send_snapshot_f U);
  cb_applylog : option (func_logentry_event_f U);
  cb_persist_vote : option (func_persist_vote_f U);
  cb_persist_term : option (func_persist_term_f U);
  cb_log_offer : option (func_logentry_edit_f U);
  cb_log_poll : option (func_logentry_edit_f U);
  cb_log_pop : option (func_logentry_edit_f U);
  cb_log_clear : option (func_logentry_event_f U);
  cb_log_get_node_id : option (func_logentry_event_f U);
  cb_node_has_sufficient_logs : option (func_node_has_sufficient_logs_f U);
  cb_notify_membership_event : option (func_membership_event_f U)
}.
Arguments mk_cbs {U}.
Arguments cb_send_requestvote {U} _.
Arguments cb_send_appendentries {U} _.
Arguments cb_send_snapshot {U} _.
Arguments cb_applylog {U} _.
Arguments cb_persist_vote {U} _.
Arguments cb_persist_term {U} _.
Arguments cb_log_offer {U} _.
Arguments cb_log_poll {U} _.
Arguments cb_log_pop {U} _.
Arguments cb_log_clear {U} _.
Arguments cb_log_get_node_id {U} _.
Arguments cb_node_has_sufficient_logs {U} _.
Arguments cb_notify_membership_event {U} _.

(** The zeroed table of a fresh server. *)
Definition no_cbs {U : Type} : raft_cbs_t U :=
  mk_cbs None None None None None None None None None None None None None.

(** [rand()]: the [k]-th value, between 0 and [RAND_MAX], which fits an [int]. *)
Record random : Type := mk_random {
  rand_fn :> nat → Z;
  rand_range : ∀ k, 0 ≤ rand_fn k ≤ INT_MAX
}.

(** The heap functions: does the [k]-th request, for [n] elements, succeed?
    Memory is finite: a request for [INT_MAX] elements or more (of 32 bytes
    each, for log entries) is refused. *)
Record allocator : Type := mk_allocator {
  alloc_fn :> nat → Z → bool;
  alloc_limit : ∀ k n, alloc_fn k n = true → n ≤ INT_MAX
}.

(** A server without its log: the struct, the heap of peers, the callbacks with
    the user data they own, and the two sources of outside choice, [rand()] and
    the allocator, each with the number of calls made so far.
    Addresses are not reused: [heap_next] only grows. *)
Record host (U : Type) : Type := mk_host {
  me : raft_server_private_t;
  heap : gmap positive raft_node_private_t;
  heap_next : positive;
  cb : raft_cbs_t U;
  udata : U;
  rand_src : random;
  rand_n : nat;
  alloc_src : allocator;
  alloc_n : nat
}.

Arguments mk_host {U}.

Arguments me {U} _.

Arguments heap {U} _.

Arguments heap_next {U} _.

Arguments cb {U} _.

Arguments udata {U} _.

Arguments rand_src {U} _.

Arguments rand_n {U} _.

Arguments alloc_src {U} _.

Arguments alloc_n {U} _.

(** The whole state of a server. *)
Abbreviation raft U := (log_private_t * host U)%type.

(** ** Field assignments *)

Definition raft_entry_t_eta (r : raft_entry_t) : raft_entry_t := mk_entry (ety_term r) (ety_id r) (ety_type r) (ety_data r).
Definition set_ety_term : (raft_term_t) → raft_entry_t → raft_entry_t := ltac:(field_update (raft_entry_t_eta) (ety_term)).
Definition set_ety_id : (raft_entry_id_t) → raft_entry_t → raft_entry_t := ltac:(field_update (raft_entry_t_eta) (ety_id)).
Definition set_ety_type : (Z) → raft_entry_t → raft_entry_t := ltac:(field_update (raft_entry_t_eta) (ety_type)).
Definition set_ety_data : (raft_entry_data_t) → raft_entry_t → raft_entry_t := ltac:(field_update (raft_entry_t_eta) (ety_data)).

Definition raft_node_private_t_eta (r : raft_node_private_t) : raft_node_private_t := mk_node (nd_udata r) (nd_next_idx r) (nd_match_idx r) (nd_flags r) (nd_id r).
Definition set_nd_udata : (Z) → raft_node_private_t → raft_node_private_t := ltac:(field_update (raft_node_private_t_eta) (nd_udata)).
Definition set_nd_next_idx : (raft_index_t) → raft_node_private_t → raft_node_private_t := ltac:(field_update (raft_node_private_t_eta) (nd_next_idx)).
Definition set_nd_match_idx : (raft_index_t) → raft_node_private_t → raft_node_private_t := ltac:(field_update (raft_node_private_t_eta) (nd_match_idx)).
Definition set_nd_flags : (Z) → raft_node_private_t → raft_node_private_t := ltac:(field_update (raft_node_private_t_eta) (nd_flags)).
Definition set_nd_id : (raft_node_id_t) → raft_node_private_t → raft_node_private_t := ltac:(field_update (raft_node_private_t_eta) (nd_id)).

Definition log_private_t_eta (r : log_private_t) : log_private_t := mk_log (lg_size r) (lg_count r) (lg_front r) (lg_back r) (lg_base r) (lg_entries r) (lg_cb r).
Definition set_lg_size : (raft_index_t) → log_private_t → log_private_t := ltac:(field_update (log_private_t_eta) (lg_size)).
Definition set_lg_count : (raft_index_t) → log_private_t → log_private_t := ltac:(field_update (log_private_t_eta) (lg_count)).
Definition set_lg_front : (raft_index_t) → log_private_t → log_private_t := ltac:(field_update (log_private_t_eta) (lg_front)).
Definition set_lg_back : (raft_index_t) → log_private_t → log_private_t := ltac:(field_update (log_private_t_eta) (lg_back)).
Definition set_lg_base : (raft_index_t) → log_private_t → log_private_t := ltac:(field_update (log_private_t_eta) (lg_base)).
Definition set_lg_entries : (list raft_entry_t) → log_private_t → log_private_t := ltac:(field_update (log_private_t_eta) (lg_entries)).
Definition set_lg_cb : (bool) → log_private_t → log_private_t := ltac:(field_update (log_private_t_eta) (lg_cb)).

Definition raft_server_private_t_eta (r : raft_server_private_t) : raft_server_private_t := mk_server (current_term r) (voted_for r) (commit_idx r) (last_applied_idx r) (state r) (timeout_elapsed r) (nodes r) (num_nodes r) (election_timeout r) (election_timeout_rand r) (request_timeout r) (current_leader r) (node r) (voting_cfg_change_log_idx r) (connected r) (snapshot_in_progress r) (snapshot_flags r) (snapshot_last_idx r) (snapshot_last_term r) (saved_snapshot_last_idx r) (saved_snapshot_last_term r).
Definition set_current_term : (raft_term_t) → raft_server_private_t → raft_server_private_t := ltac:(field_update (raft_server_private_t_eta) (current_term)).
Definition set_voted_for : (raft_node_id_t) → raft_server_private_t → raft_server_private_t := ltac:(field_update (raft_server_private_t_eta) (voted_for)).
Definition set_commit_idx : (raft_index_t) → raft_server_private_t → raft_server_private_t := ltac:(field_update (raft_server_private_t_eta) (commit_idx)).
Definition set_last_applied_idx : (raft_index_t) → raft_server_private_t → raft_server_private_t := ltac:(field_update (raft_server_private_t_eta) (last_applied_idx)).
Definition set_state : (raft_state_e) → raft_server_private_t → raft_server_private_t := ltac:(field_update (raft_server_private_t_eta) (state)).
Definition set_timeout_elapsed : (Z) → raft_server_private_t → raft_server_private_t := ltac:(field_update (raft_server_private_t_eta) (timeout_elapsed)).
Definition set_nodes : (list raft_node_t) → raft_server_private_t → raft_server_private_t := ltac:(field_update (raft_server_private_t_eta) (nodes)).
Definition set_num_nodes : (Z) → raft_server_private_t → raft_server_private_t := ltac:(field_update (raft_server_private_t_eta) (num_nodes)).
Definition set_election_timeout : (Z) → raft_server_private_t → raft_server_private_t := ltac:(field_update (raft_server_private_t_eta) (election_timeout)).
Definition set_election_timeout_rand : (Z) → raft_server_private_t → raft_server_private_t := ltac:(field_update (raft_server_private_t_eta) (election_timeout_rand)).
Definition set_request_timeout : (Z) → raft_server_private_t → raft_server_private_t := ltac:(field_update (raft_server_private_t_eta) (request_timeout)).
Definition set_current_leader : (option raft_node_t) → raft_server_private_t → raft_server_private_t := ltac:(field_update (raft_server_private_t_eta) (current_leader)).
Definition set_node : (option raft_node_t) → raft_server_private_t → raft_server_private_t := ltac:(field_update (raft_server_private_t_eta) (node)).
Definition set_voting_cfg_change_log_idx : (raft_index_t) → raft_server_private_t → raft_server_private_t := ltac:(field_update (raft_server_private_t_eta) (voting_cfg_change_log_idx)).
Definition set_connected : (Z) → raft_server_private_t → raft_server_private_t := ltac:(field_update (raft_server_private_t_eta) (connected)).
Definition set_snapshot_in_progress : (Z) → raft_server_private_t → raft_server_private_t := ltac:(field_update (raft_server_private_t_eta) (snapshot_in_progress)).
Definition set_snapshot_flags : (Z) → raft_server_private_t → raft_server_private_t := ltac:(field_update (raft_server_private_t_eta) (snapshot_flags)).
Definition set_snapshot_last_idx : (raft_index_t) → raft_server_private_t → raft_server_private_t := ltac:(field_update (raft_server_private_t_eta) (snapshot_last_idx)).
Definition set_snapshot_last_term : (raft_term_t) → raft_server_private_t → raft_server_private_t := ltac:(field_update (raft_server_private_t_eta) (snapshot_last_term)).
Definition set_saved_snapshot_last_idx : (raft_index_t) → raft_server_private_t → raft_server_private_t := ltac:(field_update (raft_server_private_t_eta) (saved_snapshot_last_idx)).
Definition set_saved_snapshot_last_term : (raft_term_t) → raft_server_private_t → raft_server_private_t := ltac:(field_update (raft_server_private_t_eta) (saved_snapshot_last_term)).

Definition host_eta {U} (r : host U) : host U := mk_host (me r) (heap r) (heap_next r) (cb r) (udata r) (rand_src r) (rand_n r) (alloc_src r) (alloc_n r).
Definition set_me {U} : (raft_server_private_t) → host U → host U := ltac:(field_update (@host_eta U) (@me U)).
Definition set_heap {U} : (gmap positive raft_node_private_t) → host U → host U := ltac:(field_update (@host_eta U) (@heap U)).
Definition set_heap_next {U} : (positive) → host U → host U := ltac:(field_update (@host_eta U) (@heap_next U)).
Definition set_cb {U} : (raft_cbs_t U) → host U → host U := ltac:(field_update (@host_eta U) (@cb U)).
Definition set_udata {U} : (U) → host U → host U := ltac:(field_update (@host_eta U) (@udata U)).
Definition set_rand_src {U} : (random) → host U → host U := ltac:(field_update (@host_eta U) (@rand_src U)).
Definition set_rand_n {U} : (nat) → host U → host U := ltac:(field_update (@host_eta U) (@rand_n U)).
Definition set_alloc_src {U} : (allocator) → host U → host U := ltac:(field_update (@host_eta U) (@alloc_src U)).
Definition set_alloc_n {U} : (nat) → host U → host U := ltac:(field_update (@host_eta U) (@alloc_n U)).
