(* ===== verification/RaftNode.v ===== *)
(** * Peers ([raft_node.c])

    A peer is a small record with six one-bit flags in an [int].  The accessors
    are functions on the pointed-to struct; the server dereferences the pointer.
    The theorems say that each setter of a flag changes that flag and no other,
    so that the flag word behaves as six independent booleans, and that a
    peer's next index stays at least 1. *)

From S2P Require Import Prelude RaftTypes.

Definition RAFT_NODE_VOTED_FOR_ME : Z := Z.shiftl 1 0.
Definition RAFT_NODE_VOTING : Z := Z.shiftl 1 1.
Definition RAFT_NODE_HAS_SUFFICIENT_LOG : Z := Z.shiftl 1 2.
Definition RAFT_NODE_INACTIVE : Z := Z.shiftl 1 3.
Definition RAFT_NODE_VOTING_COMMITTED : Z := Z.shiftl 1 4.
Definition RAFT_NODE_ADDITION_COMMITTED : Z := Z.shiftl 1 5.

(** The struct [raft_node_new] fills in; the allocation is the server's. *)
Definition raft_node_new (udata : Z) (id : raft_node_id_t) : raft_node_private_t :=
  mk_node udata 1 0 RAFT_NODE_VOTING id.

Definition raft_node_get_next_idx (n : raft_node_private_t) : raft_index_t := nd_next_idx n.
Definition raft_node_set_next_idx (nextIdx : raft_index_t) (n : raft_node_private_t) : raft_node_private_t :=
  set_nd_next_idx (if nextIdx <? 1 then 1 else nextIdx) n.
Definition raft_node_get_match_idx (n : raft_node_private_t) : raft_index_t := nd_match_idx n.
Definition raft_node_set_match_idx (matchIdx : raft_index_t) (n : raft_node_private_t) : raft_node_private_t :=
  set_nd_match_idx matchIdx n.
Definition raft_node_get_udata (n : raft_node_private_t) : Z := nd_udata n.
Definition raft_node_set_udata (ud : Z) (n : raft_node_private_t) : raft_node_private_t :=
  set_nd_udata ud n.

(** [flags |= bit] and [flags &= ~bit]. *)
Definition or_flag (bit : Z) (n : raft_node_private_t) : raft_node_private_t :=
  set_nd_flags (Z.lor (nd_flags n) bit) n.
Definition and_not_flag (bit : Z) (n : raft_node_private_t) : raft_node_private_t :=
  set_nd_flags (Z.land (nd_flags n) (Z.lnot bit)) n.
Definition has_flag (bit : Z) (n : raft_node_private_t) : bool :=
  negb (Z.land (nd_flags n) bit =? 0).

Definition raft_node_vote_for_me (vote : bool) (n : raft_node_private_t) : raft_node_private_t :=
  if vote then or_flag RAFT_NODE_VOTED_FOR_ME n else and_not_flag RAFT_NODE_VOTED_FOR_ME n.
Definition raft_node_has_vote_for_me (n : raft_node_private_t) : bool :=
  has_flag RAFT_NODE_VOTED_FOR_ME n.

Definition raft_node_is_voting (n : raft_node_private_t) : bool :=
  has_flag RAFT_NODE_VOTING n.

(** Both branches assert that the flag is being changed. *)
Definition raft_node_set_voting (voting : bool) (n : raft_node_private_t) : outcome raft_node_private_t :=
  if voting then
    if negb (raft_node_is_voting n) then Ok (or_flag RAFT_NODE_VOTING n) else Fault AssertFailed
  else
    if raft_node_is_voting n then Ok (and_not_flag RAFT_NODE_VOTING n) else Fault AssertFailed.

Definition raft_node_has_sufficient_logs (n : raft_node_private_t) : bool :=
  has_flag RAFT_NODE_HAS_SUFFICIENT_LOG n.
Definition raft_node_set_has_sufficient_logs (n : raft_node_private_t) : raft_node_private_t :=
  or_flag RAFT_NODE_HAS_SUFFICIENT_LOG n.

Definition raft_node_set_active (active : bool) (n : raft_node_private_t) : raft_node_private_t :=
  if negb active then or_flag RAFT_NODE_INACTIVE n else and_not_flag RAFT_NODE_INACTIVE n.
Definition raft_node_is_active (n : raft_node_private_t) : bool :=
  Z.land (nd_flags n) RAFT_NODE_INACTIVE =? 0.

Definition raft_node_set_voting_committed (voting : bool) (n : raft_node_private_t) : raft_node_private_t :=
  if voting then or_flag RAFT_NODE_VOTING_COMMITTED n else and_not_flag RAFT_NODE_VOTING_COMMITTED n.
Definition raft_node_is_voting_committed (n : raft_node_private_t) : bool :=
  has_flag RAFT_NODE_VOTING_COMMITTED n.

Definition raft_node_get_id (n : raft_node_private_t) : raft_node_id_t := nd_id n.

Definition raft_node_set_addition_committed (committed : bool) (n : raft_node_private_t) : raft_node_private_t :=
  if committed then or_flag RAFT_NODE_ADDITION_COMMITTED n
  else and_not_flag RAFT_NODE_ADDITION_COMMITTED n.
Definition raft_node_is_addition_committed (n : raft_node_private_t) : bool :=
  has_flag RAFT_NODE_ADDITION_COMMITTED n.

(** ** The flag word as six independent booleans *)

(** The six flags, read as the accessors read them. *)
Definition node_flags (n : raft_node_private_t) : list bool :=
  [raft_node_has_vote_for_me n; raft_node_is_voting n; raft_node_has_sufficient_logs n;
   negb (raft_node_is_active n); raft_node_is_voting_committed n;
   raft_node_is_addition_committed n].

(** The operations on the flag word, as one type. *)
Inductive flag_op : Type :=
| VoteForMe (b : bool)
| SetVoting (b : bool)
| SetSufficient
| SetActive (b : bool)
| SetVotingCommitted (b : bool)
| SetAdditionCommitted (b : bool).

Definition run_flag_op (op : flag_op) (n : raft_node_private_t) : outcome raft_node_private_t :=
  match op with
  | VoteForMe b => Ok (raft_node_vote_for_me b n)
  | SetVoting b => raft_node_set_voting b n
  | SetSufficient => Ok (raft_node_set_has_sufficient_logs n)
  | SetActive b => Ok (raft_node_set_active b n)
  | SetVotingCommitted b => Ok (raft_node_set_voting_committed b n)
  | SetAdditionCommitted b => Ok (raft_node_set_addition_committed b n)
  end.

(** Position in [node_flags] and value each operation writes there. *)
Definition flag_effect (op : flag_op) : nat * bool :=
  match op with
  | VoteForMe b => (0%nat, b)
  | SetVoting b => (1%nat, b)
  | SetSufficient => (2%nat, true)
  | SetActive b => (3%nat, negb b)
  | SetVotingCommitted b => (4%nat, b)
  | SetAdditionCommitted b => (5%nat, b)
  end.

Lemma land_pow2_testbit z k :
  0 ≤ k → negb (Z.land z (Z.shiftl 1 k) =? 0) = Z.testbit z k.
Proof.
  intros Hk. rewrite Z.shiftl_1_l.
  destruct (Z.testbit z k) eqn:E.
  - apply negb_true_iff, Z.eqb_neq. intros H0.
    assert (Z.testbit (Z.land z (2 ^ k)) k = false) as Hb by (rewrite H0; apply Z.bits_0).
    rewrite Z.land_spec, E, Z.pow2_bits_true in Hb by lia. done.
  - apply negb_false_iff, Z.eqb_eq. apply Z.bits_inj'. intros i Hi.
    rewrite Z.land_spec, Z.bits_0, Z.pow2_bits_eqb by lia.
    destruct (Z.eqb_spec k i) as [<-|]; [by rewrite E|apply andb_false_r].
Qed.

Lemma has_flag_testbit k n : 0 ≤ k → has_flag (Z.shiftl 1 k) n = Z.testbit (nd_flags n) k.
Proof. apply land_pow2_testbit. Qed.

Lemma has_or_flag j k n :
  0 ≤ j → 0 ≤ k →
  has_flag (Z.shiftl 1 j) (or_flag (Z.shiftl 1 k) n) = has_flag (Z.shiftl 1 j) n || (j =? k).
Proof.
  intros Hj Hk. rewrite !has_flag_testbit by done. cbn.
  rewrite Z.lor_spec, Z.shiftl_1_l, Z.pow2_bits_eqb by lia. f_equal. lia.
Qed.

Lemma has_and_not_flag j k n :
  0 ≤ j → 0 ≤ k →
  has_flag (Z.shiftl 1 j) (and_not_flag (Z.shiftl 1 k) n) = has_flag (Z.shiftl 1 j) n && negb (j =? k).
Proof.
  intros Hj Hk. rewrite !has_flag_testbit by done. cbn.
  rewrite Z.land_spec, Z.lnot_spec, Z.shiftl_1_l, Z.pow2_bits_eqb by lia.
  f_equal. f_equal. lia.
Qed.

Lemma node_flags_bits n :
  node_flags n = (λ k, has_flag (Z.shiftl 1 k) n) <$> [0; 1; 2; 3; 4; 5].
Proof.
  unfold node_flags. cbn [fmap list_fmap].
  unfold raft_node_is_active. fold (has_flag RAFT_NODE_INACTIVE n). done.
Qed.

Create HintDb node_flag.
#[export] Hint Rewrite has_or_flag has_and_not_flag using lia : node_flag.

(** Each operation on a peer's flag word changes exactly the flag it is
    named after, to the value it is given: read through the accessors, the word
    is a vector of six independent booleans and every operation is an update of
    one position ([set_voting] additionally insists that the value changes). *)
Theorem flag_ops_update_one_flag (op : flag_op) (n n' : raft_node_private_t) :
  run_flag_op op n = Ok n' →
  node_flags n' = <[(flag_effect op).1 := (flag_effect op).2]> (node_flags n).
Proof.
  rewrite !node_flags_bits.
  destruct op as [[]|[]| |[]|[]|[]]; cbn -[Z.shiftl has_flag];
    unfold raft_node_vote_for_me, raft_node_set_voting, raft_node_set_active,
      raft_node_set_voting_committed, raft_node_set_addition_committed,
      raft_node_set_has_sufficient_logs, RAFT_NODE_VOTED_FOR_ME, RAFT_NODE_VOTING,
      RAFT_NODE_HAS_SUFFICIENT_LOG, RAFT_NODE_INACTIVE, RAFT_NODE_VOTING_COMMITTED,
      RAFT_NODE_ADDITION_COMMITTED; cbn -[Z.shiftl has_flag];
    repeat case_match; intros ?; simplify_eq;
    autorewrite with node_flag; cbn -[Z.shiftl has_flag];
    rewrite ?orb_false_r, ?orb_true_r, ?andb_true_r, ?andb_false_r; done.
Qed.

Lemma flag_ops_update_one_flag_witness :
  node_flags (raft_node_new 0 7) = [false; true; false; false; false; false] ∧
  node_flags (or_flag RAFT_NODE_VOTED_FOR_ME (raft_node_new 0 7)) =
    <[0%nat := true]> (node_flags (raft_node_new 0 7)).
Proof.
  split; [reflexivity|].
  apply (flag_ops_update_one_flag (VoteForMe true)). reflexivity.
Defined.

(** ** Accessor laws the server proofs rewrite with *)
Section accessors.
Implicit Types n : raft_node_private_t.

Lemma next_idx_set_next_idx i n :
  raft_node_get_next_idx (raft_node_set_next_idx i n) = Z.max 1 i.
Proof. cbn. destruct (Z.ltb_spec i 1); lia. Qed.
Lemma is_active_has_flag n : raft_node_is_active n = negb (has_flag RAFT_NODE_INACTIVE n).
Proof. unfold raft_node_is_active, has_flag. by rewrite negb_involutive. Qed.
Lemma is_voting_vote_for_me b n :
  raft_node_is_voting (raft_node_vote_for_me b n) = raft_node_is_voting n.
Proof.
  unfold raft_node_is_voting, raft_node_vote_for_me, RAFT_NODE_VOTING, RAFT_NODE_VOTED_FOR_ME.
  destruct b; autorewrite with node_flag; cbn -[Z.shiftl has_flag];
    rewrite ?orb_false_r, ?andb_true_r; done.
Qed.
Lemma is_active_vote_for_me b n :
  raft_node_is_active (raft_node_vote_for_me b n) = raft_node_is_active n.
Proof.
  rewrite !is_active_has_flag.
  unfold raft_node_vote_for_me, RAFT_NODE_INACTIVE, RAFT_NODE_VOTED_FOR_ME.
  destruct b; autorewrite with node_flag; cbn -[Z.shiftl has_flag];
    rewrite ?orb_false_r, ?andb_true_r; done.
Qed.
Lemma has_vote_vote_for_me b n :
  raft_node_has_vote_for_me (raft_node_vote_for_me b n) = b.
Proof.
  unfold raft_node_has_vote_for_me, raft_node_vote_for_me, RAFT_NODE_VOTED_FOR_ME.
  destruct b; autorewrite with node_flag; cbn -[Z.shiftl has_flag];
    rewrite ?orb_true_r, ?andb_false_r; done.
Qed.
Lemma id_vote_for_me b n : raft_node_get_id (raft_node_vote_for_me b n) = raft_node_get_id n.
Proof. by destruct b. Qed.
End accessors.
