(* ===== verification/RaftLogSpec.v ===== *)
(** * The log implements a list

    Well-formedness of the circular array, its abstraction to a base index and
    a list of entries, and the refinement theorems of [raft_log.c]. *)

From S2P Require Import Prelude RaftTypes RaftLog.

(** The invariant of the circular array. *)
Record log_wf (l : log_private_t) : Prop := {
  wf_size : 0 < lg_size l ≤ INT_MAX;
  wf_entries : Z.of_nat (length (lg_entries l)) = lg_size l;
  wf_count : 0 ≤ lg_count l ≤ lg_size l;
  wf_front : 0 ≤ lg_front l < lg_size l;
  wf_back : lg_back l = (lg_front l + lg_count l) mod lg_size l;
  wf_base : 0 ≤ lg_base l
}.

(** The slot of the [k]-th entry. *)
Definition slot (l : log_private_t) (k : nat) : nat :=
  Z.to_nat ((lg_front l + Z.of_nat k) mod lg_size l).

(** The entries held, oldest first. *)
Definition log_list (l : log_private_t) : list raft_entry_t :=
  (λ k, default entry_zero (lg_entries l !! slot l k)) <$> seq 0 (Z.to_nat (lg_count l)).

(** ** Facts about the abstraction *)
Lemma length_log_list l : length (log_list l) = Z.to_nat (lg_count l).
Proof. unfold log_list. by rewrite length_fmap, length_seq. Qed.

Lemma log_count_list l : log_wf l → lg_count l = Z.of_nat (length (log_list l)).
Proof. intros Hwf. rewrite length_log_list. pose proof (wf_count _ Hwf). lia. Qed.

Lemma slot_lt l k : log_wf l → (slot l k < length (lg_entries l))%nat.
Proof.
  intros Hwf. unfold slot. pose proof (wf_entries _ Hwf). pose proof (wf_size _ Hwf).
  pose proof (Z.mod_pos_bound (lg_front l + Z.of_nat k) (lg_size l)). lia.
Qed.

Lemma slot_entry l k : log_wf l → ∃ e, lg_entries l !! slot l k = Some e.
Proof. intros Hwf. apply lookup_lt_is_Some, slot_lt, Hwf. Qed.

Lemma lookup_log_list l k :
  log_wf l → (k < Z.to_nat (lg_count l))%nat → log_list l !! k = lg_entries l !! slot l k.
Proof.
  intros Hwf Hk. unfold log_list. rewrite list_lookup_fmap, lookup_seq_lt by done. cbn.
  destruct (slot_entry l k Hwf) as [e ->]. done.
Qed.

(** Two logs hold the same list when they agree slot by slot. *)
Lemma log_list_ext l1 l2 :
  lg_count l1 = lg_count l2 →
  (∀ k, (k < Z.to_nat (lg_count l1))%nat →
     default entry_zero (lg_entries l1 !! slot l1 k) =
     default entry_zero (lg_entries l2 !! slot l2 k)) →
  log_list l1 = log_list l2.
Proof.
  intros Hc Hk. unfold log_list. rewrite <- Hc. apply list_fmap_ext.
  intros i x [-> Hi]%lookup_seq. by apply Hk.
Qed.

(** Distinct positions of the log are distinct slots. *)
Lemma mod_add_inj a b m f :
  0 < m → 0 ≤ a < m → 0 ≤ b < m → (f + a) mod m = (f + b) mod m → a = b.
Proof.
  intros Hm Ha Hb Heq.
  pose proof (Z.div_mod (f + a) m ltac:(lia)) as H1.
  pose proof (Z.div_mod (f + b) m ltac:(lia)) as H2.
  rewrite Heq in H1.
  assert (a - b = m * ((f + a) / m - (f + b) / m)) as H3 by lia.
  assert (-1 < (f + a) / m - (f + b) / m < 1) by nia. nia.
Qed.

Lemma slot_inj l j k :
  log_wf l → (j < Z.to_nat (lg_size l))%nat → (k < Z.to_nat (lg_size l))%nat →
  slot l j = slot l k → j = k.
Proof.
  intros Hwf Hj Hk Heq. unfold slot in Heq. pose proof (wf_size _ Hwf).
  pose proof (Z.mod_pos_bound (lg_front l + Z.of_nat j) (lg_size l)).
  pose proof (Z.mod_pos_bound (lg_front l + Z.of_nat k) (lg_size l)).
  assert (Z.of_nat j = Z.of_nat k); [|lia].
  apply (mod_add_inj _ _ (lg_size l) (lg_front l)); lia.
Qed.

(** The array index the code computes for log index [idx]. *)
Lemma rem_slot l k :
  log_wf l → Z.rem (lg_front l + Z.of_nat k) (lg_size l) = Z.of_nat (slot l k).
Proof.
  intros Hwf. pose proof (wf_size _ Hwf). pose proof (wf_front _ Hwf).
  unfold slot. rewrite Z.rem_mod_nonneg by lia.
  pose proof (Z.mod_pos_bound (lg_front l + Z.of_nat k) (lg_size l)). lia.
Qed.

Lemma back_slot l :
  log_wf l → lg_back l = Z.of_nat (slot l (Z.to_nat (lg_count l))).
Proof.
  intros Hwf. pose proof (wf_count _ Hwf). pose proof (wf_size _ Hwf).
  rewrite (wf_back _ Hwf). unfold slot.
  replace (Z.of_nat (Z.to_nat (lg_count l))) with (lg_count l) by lia.
  pose proof (Z.mod_pos_bound (lg_front l + lg_count l) (lg_size l)). lia.
Qed.

Lemma back_range l : log_wf l → 0 ≤ lg_back l < lg_size l.
Proof.
  intros Hwf. rewrite (wf_back _ Hwf). pose proof (wf_size _ Hwf).
  apply Z.mod_pos_bound. lia.
Qed.

(** ** Reading *)

Lemma log_get_at_idx_spec (l : log_private_t) (idx : raft_index_t) :
  log_wf l →
  log_get_at_idx l idx =
    Ok (if (lg_base l <? idx) then log_list l !! Z.to_nat (idx - lg_base l - 1) else None).
Proof.
  intros Hwf. unfold log_get_at_idx.
  pose proof (wf_base _ Hwf) as Hb. pose proof (wf_count _ Hwf) as Hc.
  destruct (Z.eqb_spec idx 0) as [->|Hidx]; [by rewrite (proj2 (Z.ltb_ge _ _)) by lia|].
  destruct (Z.ltb_spec (lg_base l + lg_count l) idx); cbn.
  { rewrite (proj2 (Z.ltb_lt _ _)) by lia.
    rewrite lookup_ge_None_2; [done|]. rewrite length_log_list. lia. }
  destruct (Z.leb_spec idx (lg_base l)), (Z.ltb_spec (lg_base l) idx); try lia; [done|].
  pose proof (lookup_log_list l (Z.to_nat (idx - lg_base l - 1)) Hwf ltac:(lia)) as ->.
  destruct (slot_entry l (Z.to_nat (idx - lg_base l - 1)) Hwf) as [e He]. rewrite He.
  replace (lg_front l + (idx - 1) - lg_base l)
    with (lg_front l + Z.of_nat (Z.to_nat (idx - lg_base l - 1))) by lia.
  rewrite rem_slot by done. unfold arr_get.
  rewrite (proj2 (Z.leb_le _ _)) by lia. rewrite Nat2Z.id, He. done.
Qed.

(** The slots of consecutive entries are consecutive up to the end of the array. *)
Lemma slot_add l k j :
  log_wf l → Z.of_nat (slot l k) + Z.of_nat j < lg_size l → slot l (k + j) = (slot l k + j)%nat.
Proof.
  intros Hwf Hj. pose proof (wf_size _ Hwf). unfold slot in *.
  pose proof (Z.mod_pos_bound (lg_front l + Z.of_nat k) (lg_size l)).
  replace (lg_front l + Z.of_nat (k + j)) with (lg_front l + Z.of_nat k + Z.of_nat j) by lia.
  rewrite <- Zplus_mod_idemp_l, Z.mod_small by lia. lia.
Qed.

(** From entry [k], the run up to [back] or to the end of the array stays in the log. *)
Lemma run_in_log l k :
  log_wf l → (k < Z.to_nat (lg_count l))%nat →
  let i := Z.of_nat (slot l k) in
  let n := if i <? lg_back l then lg_back l - i else lg_size l - i in
  0 < n ≤ lg_count l - Z.of_nat k ∧ i + n ≤ lg_size l.
Proof.
  intros Hwf Hk i n. pose proof (wf_size _ Hwf) as Hs. pose proof (wf_count _ Hwf) as Hc.
  pose proof (back_range _ Hwf) as Hb.
  pose proof (Z.mod_pos_bound (lg_front l + Z.of_nat k) (lg_size l) ltac:(lia)) as Hm.
  assert (i = (lg_front l + Z.of_nat k) mod lg_size l) as Hi by (unfold i, slot; lia).
  assert ((i + (lg_count l - Z.of_nat k)) mod lg_size l = lg_back l) as Hback.
  { rewrite Hi, Zplus_mod_idemp_l, (wf_back _ Hwf). f_equal. lia. }
  pose proof (Z.div_mod (i + (lg_count l - Z.of_nat k)) (lg_size l) ltac:(lia)) as Hd.
  rewrite Hback in Hd.
  set (q := (i + (lg_count l - Z.of_nat k)) / lg_size l) in *.
  assert (q = 0 ∨ q = 1) as [Hq|Hq] by nia;
    rewrite Hq in Hd; unfold n; destruct (Z.ltb_spec i (lg_back l)); lia.
Qed.

Lemma log_get_from_idx_spec (l : log_private_t) (idx : raft_index_t) :
  log_wf l → 0 < idx →
  if (lg_base l <? idx) && (idx <=? lg_base l + lg_count l) then
    ∃ n, (0 < n)%nat ∧
      log_get_from_idx l idx =
        Ok (Some (take n (drop (Z.to_nat (idx - lg_base l - 1)) (log_list l))), Z.of_nat n) ∧
      (Z.to_nat (idx - lg_base l - 1) + n ≤ length (log_list l))%nat
  else log_get_from_idx l idx = Ok (None, 0).
Proof.
  intros Hwf Hpos. unfold log_get_from_idx.
  rewrite (proj2 (Z.leb_le 0 (idx - 1))) by lia. cbn [negb].
  pose proof (wf_size _ Hwf) as Hs. pose proof (wf_count _ Hwf) as Hc.
  destruct (Z.ltb_spec (lg_base l) idx), (Z.leb_spec idx (lg_base l)); try lia;
    cbn [andb]; [|by rewrite orb_true_r].
  destruct (Z.leb_spec idx (lg_base l + lg_count l)),
    (Z.ltb_spec (lg_base l + lg_count l) idx); try lia; cbn [orb]; [|done].
  set (k := Z.to_nat (idx - lg_base l - 1)).
  replace (lg_front l + (idx - 1) - lg_base l) with (lg_front l + Z.of_nat k) by lia.
  rewrite rem_slot by done.
  destruct (run_in_log l k Hwf ltac:(lia)) as [Hn Hin]. cbv zeta in Hn, Hin.
  set (n := if Z.of_nat (slot l k) <? lg_back l then _ else _) in Hn, Hin.
  assert ((if Z.of_nat (slot l k) <? lg_back l then to_int (lg_back l - Z.of_nat (slot l k))
           else to_int (lg_size l - Z.of_nat (slot l k))) = n) as ->.
  { rewrite <- (to_int_small n) by (unfold INT_MIN, INT_MAX in *; lia).
    unfold n. by destruct (_ <? _). }
  exists (Z.to_nat n). split; [lia|]. split; [|rewrite length_log_list; lia].
  rewrite Z2Nat.id by lia. rewrite Nat2Z.id. do 3 f_equal.
  apply list_eq. intros j.
  destruct (decide (j < Z.to_nat n)%nat) as [Hj|Hj];
    [|rewrite !lookup_take_ge by lia; done].
  rewrite !lookup_take_lt by lia. rewrite !lookup_drop.
  rewrite lookup_log_list by (done || lia). f_equal.
  symmetry. apply slot_add; [done|lia].
Qed.

Lemma log_peektail_spec (l : log_private_t) : log_wf l → log_peektail l = Ok (last (log_list l)).
Proof.
  intros Hwf. unfold log_peektail. pose proof (wf_size _ Hwf). pose proof (wf_count _ Hwf).
  rewrite last_lookup, length_log_list.
  destruct (Z.eqb_spec 0 (lg_count l)) as [E|E].
  { rewrite lookup_ge_None_2; [done|]. rewrite length_log_list. lia. }
  set (k := Nat.pred (Z.to_nat (lg_count l))).
  rewrite lookup_log_list by (done || lia).
  destruct (slot_entry l k Hwf) as [e He]. rewrite He.
  assert (lg_back l = (Z.of_nat (slot l k) + 1) mod lg_size l) as Hback.
  { rewrite (wf_back _ Hwf). unfold slot.
    pose proof (Z.mod_pos_bound (lg_front l + Z.of_nat k) (lg_size l)).
    rewrite Z2Nat.id by lia. rewrite Zplus_mod_idemp_l. f_equal. lia. }
  pose proof (slot_lt l k Hwf) as Hlt. pose proof (wf_entries _ Hwf).
  destruct (decide (Z.of_nat (slot l k) + 1 = lg_size l)) as [Hend|Hend].
  - rewrite Hend, Z_mod_same_full in Hback. rewrite Hback. cbn.
    unfold arr_get. rewrite (proj2 (Z.leb_le _ _)) by lia.
    replace (Z.to_nat (lg_size l - 1)) with (slot l k) by lia. by rewrite He.
  - rewrite Z.mod_small in Hback by lia. rewrite Hback.
    rewrite (proj2 (Z.eqb_neq _ _)) by lia. unfold arr_get.
    rewrite (proj2 (Z.leb_le _ _)) by lia.
    replace (Z.to_nat (Z.of_nat (slot l k) + 1 - 1)) with (slot l k) by lia. by rewrite He.
Qed.

(** ** The elementary updates of the array *)
Definition push (l : log_private_t) : log_private_t :=
  set_lg_back (Z.rem (lg_back l + 1) (lg_size l)) (set_lg_count (lg_count l + 1) l).
Definition pop (back : Z) (l : log_private_t) : log_private_t :=
  set_lg_count (lg_count l - 1) (set_lg_back back l).
Definition poll (l : log_private_t) : log_private_t :=
  set_lg_base (lg_base l + 1) (set_lg_count (lg_count l - 1)
    (set_lg_front (Z.rem (lg_front l + 1) (lg_size l)) l)).
Definition write_slot (i : nat) (e : raft_entry_t) (l : log_private_t) : log_private_t :=
  set_lg_entries (<[i := e]> (lg_entries l)) l.

Section updates.
Implicit Types (l : log_private_t) (e : raft_entry_t) (k : nat).

Lemma wf_write_slot i e l : log_wf l → log_wf (write_slot i e l).
Proof. intros []. split; cbn; rewrite ?length_insert; done. Qed.

Lemma log_list_write_slot k e l :
  log_wf l → (k < Z.to_nat (lg_size l))%nat →
  log_list (write_slot (slot l k) e l) = <[k := e]> (log_list l).
Proof.
  intros Hwf Hk. pose proof (wf_count _ Hwf) as Hc. apply list_eq. intros j.
  destruct (decide (j < Z.to_nat (lg_count l))%nat) as [Hj|Hj]; last first.
  { rewrite !lookup_ge_None_2; [done|..]; rewrite ?length_insert, ?length_log_list; cbn; lia. }
  rewrite lookup_log_list by (cbn; done || by apply wf_write_slot).
  unfold write_slot. cbn [lg_entries set_lg_entries].
  change (slot (set_lg_entries _ l) j) with (slot l j).
  destruct (decide (k = j)) as [<-|Hne].
  - rewrite !list_lookup_insert_eq; rewrite ?length_log_list; [done|done|by apply slot_lt].
  - rewrite !list_lookup_insert_ne; [by rewrite lookup_log_list|done|].
    intros Heq. apply Hne, (slot_inj l); [done|lia|lia|done].
Qed.

Lemma log_list_write_back e l :
  log_wf l → lg_count l < lg_size l →
  log_list (write_slot (slot l (Z.to_nat (lg_count l))) e l) = log_list l.
Proof.
  intros Hwf Hc. pose proof (wf_count _ Hwf). rewrite log_list_write_slot by (done || lia).
  apply list_insert_ge. rewrite length_log_list. lia.
Qed.

Lemma write_slot_twice i e1 e2 l : write_slot i e2 (write_slot i e1 l) = write_slot i e2 l.
Proof. unfold write_slot. cbn. unfold set_lg_entries. cbn. by rewrite list_insert_insert_eq. Qed.

Lemma wf_push l : log_wf l → lg_count l < lg_size l → log_wf (push l).
Proof.
  intros Hwf Hlt. pose proof (back_range _ Hwf). destruct Hwf.
  split; cbn; try done; try lia.
  rewrite Z.rem_mod_nonneg by lia. rewrite wf_back0, Zplus_mod_idemp_l. f_equal. lia.
Qed.

Lemma log_list_push e l :
  log_wf l → lg_count l < lg_size l →
  lg_entries l !! slot l (Z.to_nat (lg_count l)) = Some e →
  log_list (push l) = log_list l ++ [e].
Proof.
  intros Hwf Hlt He. pose proof (wf_count _ Hwf).
  unfold log_list. cbn [push lg_count set_lg_back set_lg_count].
  replace (Z.to_nat (lg_count l + 1)) with (S (Z.to_nat (lg_count l))) by lia.
  rewrite seq_S, fmap_app. f_equal. cbn.
  change (slot (push l)) with (slot l). by rewrite He.
Qed.

Lemma pop_back_slot l :
  log_wf l → 0 < lg_count l →
  log_mod (lg_back l - 1) (lg_size l) = Z.of_nat (slot l (Z.to_nat (lg_count l - 1))) ∧
  log_mod (lg_back l - 1) (lg_size l) = (lg_front l + (lg_count l - 1)) mod lg_size l.
Proof.
  intros Hwf Hpos. pose proof (wf_size _ Hwf). pose proof (back_range _ Hwf).
  set (b := (lg_front l + (lg_count l - 1)) mod lg_size l).
  assert (0 ≤ b < lg_size l) by (apply Z.mod_pos_bound; lia).
  assert (lg_back l = (b + 1) mod lg_size l) as Hb.
  { unfold b. rewrite Zplus_mod_idemp_l, (wf_back _ Hwf). f_equal. lia. }
  assert (log_mod (lg_back l - 1) (lg_size l) = b) as ->.
  { unfold log_mod. destruct (decide (b + 1 = lg_size l)) as [E|E].
    - rewrite E, Z_mod_same_full in Hb. rewrite Hb.
      change (0 - 1) with (-1).
      destruct (decide (lg_size l = 1)) as [E1|E1].
      + rewrite E1. change (to_int (Z.rem (-1) 1)) with 0. cbn. lia.
      + rewrite Z.rem_opp_l' with (a := 1). rewrite Z.rem_small by lia. rewrite to_int_small by (unfold INT_MIN, INT_MAX in *; lia).
        change (- (1) <? 0) with true. cbv iota.
        rewrite to_int_small by (unfold INT_MIN, INT_MAX in *; lia). lia.
    - rewrite Z.mod_small in Hb by lia. rewrite Hb.
      replace (b + 1 - 1) with b by lia. rewrite Z.rem_small by lia.
      rewrite to_int_small by (unfold INT_MIN, INT_MAX in *; lia).
      by rewrite (proj2 (Z.ltb_ge _ _)) by lia. }
  split; [|done]. unfold b, slot.
  rewrite (Z2Nat.id (lg_count l - 1)) by lia.
  rewrite Z2Nat.id; [done|]. apply Z.mod_pos_bound. lia.
Qed.

Lemma wf_pop l :
  log_wf l → 0 < lg_count l → log_wf (pop (log_mod (lg_back l - 1) (lg_size l)) l).
Proof.
  intros Hwf Hpos. destruct (pop_back_slot l Hwf Hpos) as [_ ->].
  destruct Hwf. split; cbn; done || lia.
Qed.

Lemma log_list_pop b l :
  0 < lg_count l → log_list (pop b l) = take (Z.to_nat (lg_count l - 1)) (log_list l).
Proof.
  intros Hpos. unfold log_list. rewrite <- fmap_take, take_seq.
  cbn [pop lg_count set_lg_count]. f_equal. f_equal. lia.
Qed.

Lemma wf_poll l : log_wf l → 0 < lg_count l → log_wf (poll l).
Proof.
  intros Hwf Hpos. pose proof (wf_front _ Hwf). destruct Hwf.
  split; cbn; try done; try lia.
  - rewrite Z.rem_mod_nonneg by lia. apply Z.mod_pos_bound. lia.
  - rewrite Z.rem_mod_nonneg by lia. rewrite Zplus_mod_idemp_l, wf_back0. f_equal. lia.
Qed.

Lemma slot_poll l k : log_wf l → slot (poll l) k = slot l (S k).
Proof.
  intros Hwf. pose proof (wf_front _ Hwf). pose proof (wf_size _ Hwf).
  unfold slot. cbn [poll lg_front lg_size set_lg_base set_lg_count set_lg_front].
  rewrite Z.rem_mod_nonneg by lia. rewrite Zplus_mod_idemp_l. do 2 f_equal. lia.
Qed.

Lemma log_list_poll l : log_wf l → 0 < lg_count l → log_list (poll l) = drop 1 (log_list l).
Proof.
  intros Hwf Hpos. pose proof (wf_poll l Hwf Hpos) as Hwf'.
  apply list_eq. intros j. rewrite lookup_drop.
  destruct (decide (j < Z.to_nat (lg_count l - 1))%nat) as [Hj|Hj]; last first.
  { rewrite !lookup_ge_None_2; [done|..]; rewrite ?length_log_list; cbn; lia. }
  rewrite !lookup_log_list by (done || cbn; lia).
  by rewrite slot_poll.
Qed.
End updates.

(** An entry less its payload, which the user's callbacks may re-point. *)
Definition strip (e : raft_entry_t) : Z * Z * Z := (ety_term e, ety_id e, ety_type e).

Lemma strip_set_data d e : strip (set_ety_data d e) = strip e.
Proof. done. Qed.

Lemma strip_insert_data (es : list raft_entry_t) k d e :
  es !! k = Some e → strip <$> <[k := set_ety_data d e]> es = strip <$> es.
Proof.
  intros Hk. rewrite list_fmap_insert. apply list_insert_id.
  by rewrite list_lookup_fmap, Hk.
Qed.

(** ** The copy loop of [__ensurecapacity] *)
Lemma copy_entries_spec n i j size (src temp : list raft_entry_t) :
  0 < size → Z.of_nat (length src) = size → 0 ≤ j ≤ size →
  (i + n ≤ length temp)%nat →
  ∃ temp', copy_entries n (Z.of_nat i) j size src temp = Ok temp' ∧
    length temp' = length temp ∧
    (∀ m, (m < i)%nat → temp' !! m = temp !! m) ∧
    (∀ k, (k < n)%nat → temp' !! (i + k)%nat = src !! Z.to_nat ((j + Z.of_nat k) mod size)).
Proof.
  intros Hsize Hsrc. revert i j temp.
  induction n as [|n IH]; intros i j temp Hj Hi.
  { exists temp. naive_solver lia. }
  cbn [copy_entries].
  set (j' := if j =? size then 0 else j).
  assert (0 ≤ j' < size ∧ j mod size = j') as [Hj' Hmod].
  { unfold j'. destruct (Z.eqb_spec j size) as [->|].
    - rewrite Z_mod_same_full. lia.
    - rewrite Z.mod_small; lia. }
  destruct (arr_get_total src j' ltac:(lia)) as [e He]. rewrite He. cbn [mbind outcome_bind].
  rewrite arr_set_in_range by lia. cbn [mbind outcome_bind]. rewrite Nat2Z.id.
  destruct (IH (S i) (j' + 1) (<[i := e]> temp)) as (temp' & Hrun & Hlen & Hlow & Hnew);
    [lia|rewrite length_insert; lia|].
  replace (Z.of_nat i + 1) with (Z.of_nat (S i)) by lia.
  exists temp'. rewrite length_insert in Hlen.
  split; [done|]. split; [done|]. split.
  - intros m Hm. rewrite Hlow by lia. by rewrite list_lookup_insert_ne by lia.
  - intros [|k] Hk.
    + rewrite Nat.add_0_r, Hlow by lia. rewrite list_lookup_insert_eq by lia.
      rewrite Z.add_0_r, Hmod. apply arr_get_Ok in He as [_ He]. done.
    + replace (i + S k)%nat with (S i + k)%nat by lia. rewrite Hnew by lia.
      do 2 f_equal. rewrite <- Hmod.
      rewrite <- Z.add_assoc, Zplus_mod_idemp_l. f_equal. lia.
Qed.

(** The array after growing: same list, at the front of twice the room. *)
Definition grown (temp : list raft_entry_t) (l : log_private_t) : log_private_t :=
  set_lg_back (lg_count l) (set_lg_front 0 (set_lg_entries temp (set_lg_size (lg_size l * 2) l))).

Lemma grown_spec l temp :
  log_wf l → lg_size l * 2 ≤ INT_MAX → lg_count l = lg_size l →
  copy_entries (Z.to_nat (lg_count l)) 0 (lg_front l) (lg_size l) (lg_entries l)
    (replicate (Z.to_nat (lg_size l * 2)) entry_zero) = Ok temp →
  log_wf (grown temp l) ∧ log_list (grown temp l) = log_list l.
Proof.
  intros Hwf Hmax Hfull Hcopy.
  pose proof (wf_size _ Hwf). pose proof (wf_front _ Hwf).
  destruct (copy_entries_spec (Z.to_nat (lg_count l)) 0 (lg_front l) (lg_size l) (lg_entries l)
    (replicate (Z.to_nat (lg_size l * 2)) entry_zero)) as (temp' & Hrun & Hlen & _ & Hnew);
    [lia|by apply wf_entries|lia|rewrite length_replicate; lia|].
  change (Z.of_nat 0) with 0 in Hrun. rewrite Hcopy in Hrun. simplify_eq.
  rewrite length_replicate in Hlen.
  assert (log_wf (grown temp' l)) as Hwf'.
  { destruct Hwf. split; cbn; try lia. rewrite Z.mod_small; lia. }
  split; [done|]. apply list_eq. intros k.
  destruct (decide (k < Z.to_nat (lg_count l))%nat) as [Hk|Hk]; last first.
  { rewrite !lookup_ge_None_2; [done|..]; rewrite length_log_list; cbn; lia. }
  rewrite !lookup_log_list by done.
  specialize (Hnew k Hk). cbn in Hnew. unfold slot at 2. rewrite <- Hnew.
  cbn. f_equal. unfold slot. cbn. rewrite Z.mod_small; lia.
Qed.

Section specs.
Context {H : Type} `{!LogHost H}.
Implicit Types (l : log_private_t) (h : H) (F : fault → Prop).

Lemma wq_call_edit F f k idx Q l h e :
  log_wf l → lg_entries l !! slot l k = Some e →
  (∀ r d h', f e idx l h = (r, d, h') →
     Q r (write_slot (slot l k) (set_ety_data d e) l, h')) →
  wq F (call_edit f (Z.of_nat (slot l k)) idx) Q (l, h).
Proof.
  intros Hwf He HQ. unfold call_edit, get_log. do 3 wstep. cbn [fst].
  assert (arr_get (lg_entries l) (Z.of_nat (slot l k)) = Ok e) as ->.
  { apply arr_get_Ok. rewrite Nat2Z.id. split; [lia|done]. }
  wstep. simplify_eq. do 2 wstep. cbn [snd].
  destruct (f _ idx l _) as [[r d] h'] eqn:Ef. cbn [snd fst] in *.
  apply wq_bind. rewrite arr_set_in_range;
    [|pose proof (slot_lt l k Hwf); lia].
  wstep. simplify_eq. rewrite Nat2Z.id. repeat wstep. by apply HQ.
Qed.

Lemma wq_call_host F f k idx Q l h e :
  log_wf l → lg_entries l !! slot l k = Some e →
  (∀ flt, f e idx l h = Fault flt → F flt) →
  (∀ h', f e idx l h = Ok h' → Q tt (l, h')) →
  wq F (call_host f (Z.of_nat (slot l k)) idx) Q (l, h).
Proof.
  intros Hwf He HF HQ. unfold call_host, get_log. do 3 wstep. cbn [fst].
  assert (arr_get (lg_entries l) (Z.of_nat (slot l k)) = Ok e) as ->.
  { apply arr_get_Ok. rewrite Nat2Z.id. split; [lia|done]. }
  wstep. simplify_eq. do 3 wstep. cbn [snd].
  wstep. wstep. by apply HQ.
Qed.

(** Growing never faults; it fails only for lack of memory. *)
Lemma ensurecapacity_spec F l h :
  log_wf l →
  wq F __ensurecapacity (λ e s',
    log_wf s'.1 ∧ log_list s'.1 = log_list l ∧ lg_base s'.1 = lg_base l ∧
    lg_cb s'.1 = lg_cb l ∧ lg_count s'.1 = lg_count l ∧
    ((e = 0 ∧ lg_count s'.1 < lg_size s'.1) ∨ (e = RAFT_ERR_NOMEM ∧ s'.1 = l))) (l, h).
Proof.
  intros Hwf. unfold __ensurecapacity, get_log, modify_log. do 2 wstep. cbn [fst].
  wsplit; bool_prop; [wstep; naive_solver|]. wstep.
  unfold calloc. unfold wq at 1. cbn [snd fst].
  destruct (lh_calloc (lg_size l * 2) h) as [ok h'] eqn:Hcalloc.
  destruct ok; cbn [negb]; [|wstep; naive_solver].
  apply lh_calloc_limit in Hcalloc. pose proof (wf_count _ Hwf).
  assert (lg_count l = lg_size l) as Hfull by lia.
  wstep.
  destruct (copy_entries_spec (Z.to_nat (lg_count l)) 0 (lg_front l) (lg_size l) (lg_entries l)
    (replicate (Z.to_nat (lg_size l * 2)) entry_zero)) as (temp & Hrun & _);
    [pose proof (wf_size _ Hwf); lia|by apply wf_entries|pose proof (wf_front _ Hwf); lia
    |rewrite length_replicate; lia|].
  change (Z.of_nat 0) with 0 in Hrun. rewrite Hrun.
  wstep. simplify_eq. repeat wstep. cbn [fst].
  change (set_lg_back _ _) with (grown a l).
  destruct (grown_spec l a Hwf Hcalloc Hfull Hrun) as [Hwf' Hlist].
  pose proof (wf_size _ Hwf).
  split_and!; [done|done|done|done|done|]. left. cbn. lia.
Qed.

(** What [log_append_entry] establishes, whatever the owner does: the list
    grows by the entry (with the payload the owner chose) exactly when the
    call returns 0. *)
Definition append_post (ety : raft_entry_t) l (e : Z) l' : Prop :=
  log_wf l' ∧ lg_base l' = lg_base l ∧ lg_cb l' = lg_cb l ∧
  ((e = 0 ∧ ∃ d, log_list l' = log_list l ++ [set_ety_data d ety] ∧
      (lg_cb l = false → d = ety_data ety)) ∨
   (e ≠ 0 ∧ log_list l' = log_list l)).

(** The callback part: the new slot holds the entry, up to its payload. *)
Lemma append_offer_spec F ety l h k (idx : Z) :
  log_wf l → k = Z.to_nat (lg_count l) → lg_back l = Z.of_nat (slot l k) →
  (∀ ety idx l h flt, lh_offer_log ety idx l h = Fault flt → F flt) →
  wq F
    match (if lg_cb l then lh_log_offer h else None) with
    | Some offer =>
        e ← call_edit offer (lg_back l) idx;
        if negb (e =? 0) then mret e
        else call_host lh_offer_log (lg_back l) idx ;; mret 0
    | None => mret 0
    end
    (λ _ s', ∃ d, s'.1 = write_slot (slot l k) (set_ety_data d ety) l ∧
                  (lg_cb l = false → d = ety_data ety))
    (write_slot (slot l k) ety l, h).
Proof.
  intros Hwf Hk Hback HF.
  set (l2 := write_slot (slot l k) ety l).
  assert (log_wf l2) as Hwf2 by by apply wf_write_slot.
  assert (∀ e, lg_entries (write_slot (slot l k) e l) !! slot l2 k = Some e) as Hslot.
  { intros e. apply list_lookup_insert_eq, (slot_lt l k Hwf). }
  destruct (lg_cb l) eqn:Hcb; [destruct (lh_log_offer h) as [offer|]|];
    [|wstep; exists (ety_data ety); by destruct ety..].
  wstep. rewrite Hback. change (slot l k) with (slot l2 k).
  eapply wq_call_edit; [done|apply Hslot|]. intros r d h' Hoffer.
  change (slot l2 k) with (slot l k). unfold l2. rewrite write_slot_twice.
  wsplit; [wstep; by exists d|]. wstep.
  set (l3 := write_slot (slot l k) (set_ety_data d ety) l).
  change (slot l k) with (slot l3 k).
  eapply wq_call_host; [by apply wf_write_slot|apply Hslot|eauto|].
  intros h'' _. wstep. by exists d.
Qed.

Lemma log_append_entry_spec F ety l h :
  log_wf l →
  (∀ ety idx l h flt, lh_offer_log ety idx l h = Fault flt → F flt) →
  wq F (log_append_entry ety) (λ e s', append_post ety l e s'.1) (l, h).
Proof.
  intros Hwf HF. unfold log_append_entry, get_log, modify_log. do 2 wstep. cbn [fst]. wstep.
  eapply wq_mono; [by apply ensurecapacity_spec|].
  intros e [l1 h1] (Hwf1 & Hl1 & Hb1 & Hcb1 & Hc1 & He). cbn [fst snd] in *.
  destruct He as [[-> Hroom]|[-> ->]]; cbn [Z.eqb negb RAFT_ERR_NOMEM];
    [|wstep; split_and!; try done; by right].
  do 3 wstep. cbn [fst].
  pose proof (back_slot l1 Hwf1) as Hback. set (k := Z.to_nat (lg_count l1)) in Hback.
  rewrite arr_set_in_range;
    [|pose proof (back_range _ Hwf1); pose proof (wf_entries _ Hwf1); lia].
  wstep. simplify_eq. do 5 wstep. cbn [fst snd].
  replace (set_lg_entries _ l1) with (write_slot (slot l1 k) ety l1)
    by (unfold write_slot; by rewrite Hback, Nat2Z.id).
  eapply wq_mono; [by apply (append_offer_spec F ety l1 h1 k)|].
  intros e [l2 h2] (d & Hl2 & Hd). cbn [fst] in Hl2. subst l2.
  wsplit; bool_prop; wstep; [split_and!; cbn [fst]; try done|].
  - by apply wf_write_slot.
  - right. split; [done|]. cbn [fst]. by rewrite log_list_write_back.
  - wstep. cbn [fst]. change (set_lg_back _ _) with
      (push (write_slot (slot l1 k) (set_ety_data d ety) l1)).
    split_and!; [by apply wf_push; [apply wf_write_slot|]|done|done|left].
    split; [done|]. exists d. split; [|by rewrite <- Hcb1].
    cbn [fst]. rewrite (log_list_push (set_ety_data d ety)); [|by apply wf_write_slot|done|].
    + unfold k. rewrite log_list_write_back by done. by rewrite Hl1.
    + apply list_lookup_insert_eq. by apply slot_lt.
Qed.

(** What [log_delete] establishes: entries are only removed from the young
    end, never below [idx], and all of them when it returns 0.  When a pop
    callback refuses, the entry it refused to pop stays, with the payload the
    callback left in it. *)
Definition delete_post (idx : raft_index_t) l (e : Z) l' : Prop :=
  let target := Z.to_nat (idx - 1 - lg_base l) in
  log_wf l' ∧ lg_base l' = lg_base l ∧ lg_cb l' = lg_cb l ∧
  (∃ m, (target ≤ m)%nat ∧ strip <$> log_list l' = take m (strip <$> log_list l)) ∧
  (e = 0 → log_list l' = take target (log_list l)).

(** One popped slot, edited by its callback or not. *)
Lemma pop_callback_spec F l h k (idx : Z) e :
  log_wf l → lg_entries l !! slot l k = Some e →
  wq F
    match (if lg_cb l then lh_log_pop h else None) with
    | Some pop => call_edit pop (Z.of_nat (slot l k)) idx
    | None => mret 0
    end
    (λ _ s', ∃ d, s'.1 = write_slot (slot l k) (set_ety_data d e) l) (l, h).
Proof.
  intros Hwf He. wsplit.
  - eapply wq_call_edit; [done..|]. intros r d h' _. by exists d.
  - wstep. exists (ety_data e). cbn. unfold write_slot.
    rewrite list_insert_id; [by destruct l|]. by destruct e.
Qed.

Lemma log_delete_loop_spec F fuel idx l h :
  log_wf l → (Z.to_nat (lg_count l) ≤ fuel)%nat →
  (∀ ety idx l h flt, lh_pop_log ety idx l h = Fault flt → F flt) →
  wq F (log_delete_loop fuel idx) (λ e s', delete_post idx l e s'.1) (l, h).
Proof.
  intros Hwf Hfuel HF. revert l h Hwf Hfuel.
  induction fuel as [|fuel IH]; intros l h Hwf Hfuel; pose proof (wf_count _ Hwf) as Hc;
    cbn [log_delete_loop]; unfold get_log, modify_log; do 2 wstep; cbn [fst];
    wsplit; bool_prop; try lia;
    try (wstep; cbn [fst]; split_and!; try done;
      [exists (length (strip <$> log_list l) + Z.to_nat (idx - 1 - lg_base l))%nat;
       split; [lia|by rewrite take_ge by lia]
      |intros _; rewrite take_ge; [done|rewrite length_log_list; bool_prop]];
      match goal with H : _ && _ = false |- _ => apply andb_false_iff in H as [|]; bool_prop; lia end).
  do 3 wstep. cbn [fst snd].
  destruct (pop_back_slot l Hwf ltac:(lia)) as [Hslot _].
  set (k := Z.to_nat (lg_count l - 1)) in Hslot.
  destruct (slot_entry l k Hwf) as [e He].
  rewrite Hslot.
  eapply wq_mono; [by apply pop_callback_spec|].
  intros r [l2 h2] (d & Hl2). cbn [fst] in Hl2.
  assert (log_wf l2) as Hwf2 by (subst l2; by apply wf_write_slot).
  assert (log_list l2 = <[k := set_ety_data d e]> (log_list l)) as Hlist2.
  { subst l2. apply log_list_write_slot; [done|lia]. }
  assert (log_list l !! k = Some e) as Hk by (rewrite lookup_log_list by (done || lia); done).
  wsplit; bool_prop.
  { wstep. cbn [fst]. split_and!; [done|by subst l2|by subst l2| |done].
    exists (length (strip <$> log_list l) + Z.to_nat (idx - 1 - lg_base l))%nat.
    split; [lia|]. rewrite take_ge by lia. rewrite Hlist2. by apply strip_insert_data. }
  wstep.
  assert (slot l k = slot l2 k) as -> by by subst l2.
  eapply wq_call_host; [done|subst l2; apply list_lookup_insert_eq, slot_lt, Hwf|eauto|].
  intros h3 _. do 2 wstep. cbn [fst].
  change (set_lg_count _ _) with (pop (Z.of_nat (slot l2 k)) l2).
  assert (lg_count l2 = lg_count l) as Hc2 by by subst l2.
  assert (lg_base l2 = lg_base l) as Hb2 by by subst l2.
  assert (lg_cb l2 = lg_cb l) as Hcb2 by by subst l2.
  assert (log_list (pop (Z.of_nat (slot l2 k)) l2) = take k (log_list l)) as Hpop.
  { rewrite log_list_pop by lia. rewrite Hc2, Hlist2. by rewrite take_insert_ge by lia. }
  assert (log_wf (pop (Z.of_nat (slot l2 k)) l2)) as Hwfp.
  { destruct (pop_back_slot l2 Hwf2 ltac:(lia)) as [Hs2 _]. rewrite Hc2 in Hs2.
    unfold k. rewrite <- Hs2. apply wf_pop; [done|lia]. }
  eapply wq_mono; [apply IH; [done|cbn; lia]|].
  intros e' [l' h'] (Hwf' & Hb' & Hcb' & (m & Hm & Hstrip) & Hok). cbn [fst] in *.
  assert (lg_base (pop (Z.of_nat (slot l2 k)) l2) = lg_base l2) as Hbp by done.
  rewrite Hbp, Hb2 in *. rewrite Hpop in *.
  split_and!; [done|done|by rewrite Hcb'| |].
  - exists (m `min` k)%nat. split; [lia|]. rewrite Hstrip.
    rewrite fmap_take, take_take. done.
  - intros He'. rewrite Hok by done. rewrite take_take. f_equal. lia.
Qed.

Lemma log_delete_spec F idx l h :
  log_wf l → idx ≠ 0 →
  (∀ ety idx l h flt, lh_pop_log ety idx l h = Fault flt → F flt) →
  wq F (log_delete idx) (λ e s', delete_post idx l e s'.1) (l, h).
Proof.
  intros Hwf Hidx HF. unfold log_delete, get_log. do 2 wstep. cbn [fst].
  rewrite (proj2 (Z.eqb_neq 0 idx)) by lia.
  eapply wq_mono; [apply log_delete_loop_spec; [done|lia|done]|].
  intros e [l' h']. unfold delete_post. destruct (Z.ltb_spec idx (lg_base l)); [|done].
  replace (Z.to_nat (lg_base l - 1 - lg_base l)) with 0%nat by lia.
  replace (Z.to_nat (idx - 1 - lg_base l)) with 0%nat by lia. done.
Qed.

(** What [log_poll] establishes: on success the oldest entry leaves the list
    and the base moves up by one, so that every other entry keeps its index. *)
Definition poll_post l (r : Z * option raft_entry_t) l' : Prop :=
  log_wf l' ∧ lg_cb l' = lg_cb l ∧
  match log_list l with
  | [] => r = (-1, None) ∧ l' = l
  | e :: es =>
      (∃ d, r = (0, Some (set_ety_data d e)) ∧
            log_list l' = es ∧ lg_base l' = lg_base l + 1) ∨
      (∃ d, r.1 ≠ 0 ∧ r.2 = None ∧ log_list l' = set_ety_data d e :: es ∧ lg_base l' = lg_base l)
  end.

Lemma log_poll_spec F l h :
  log_wf l → wq F log_poll (λ r s', poll_post l r s'.1) (l, h).
Proof.
  intros Hwf. pose proof (wf_count _ Hwf) as Hc. unfold log_poll, get_log, modify_log.
  do 2 wstep. cbn [fst].
  pose proof (length_log_list l) as Hlen. unfold poll_post.
  wsplit; bool_prop.
  { wstep. cbn [fst]. destruct (log_list l); [done|cbn in Hlen; lia]. }
  destruct (slot_entry l 0 Hwf) as [e He].
  assert (lg_front l = Z.of_nat (slot l 0)) as Hfront.
  { pose proof (wf_front _ Hwf). pose proof (wf_size _ Hwf).
    unfold slot. rewrite Z.mod_small; lia. }
  assert (log_list l !! 0%nat = Some e) as H0 by (rewrite lookup_log_list by (done || lia); done).
  destruct (log_list l) as [|e0 es] eqn:Hlist; [done|]. cbn in H0. simplify_eq.
  do 3 wstep. cbn [fst snd]. rewrite Hfront.
  eapply (wq_mono _ _ (λ _ s', ∃ d, s'.1 = write_slot (slot l 0) (set_ety_data d e) l)).
  { wsplit.
    - eapply wq_call_edit; [done..|]. intros r d h' _. by exists d.
    - wstep. exists (ety_data e). cbn. unfold write_slot.
      rewrite list_insert_id; [by destruct l|]. by destruct e. }
  intros r [l2' h2] (d & Hl2'). cbn [fst] in Hl2'. subst l2'. set (l2 := write_slot (slot l 0) (set_ety_data d e) l).
  assert (log_wf l2) as Hwf2 by by apply wf_write_slot.
  assert (log_list l2 = set_ety_data d e :: es) as Hl2.
  { unfold l2. rewrite log_list_write_slot by (done || (pose proof (wf_size _ Hwf); lia)).
    by rewrite Hlist. }
  wsplit; bool_prop.
  { wstep. cbn [fst]. split_and!; [done|done|]. right. by exists d. }
  do 3 wstep. cbn [fst].
  assert (arr_get (lg_entries l2) (Z.of_nat (slot l 0)) = Ok (set_ety_data d e)) as ->.
  { apply arr_get_Ok. rewrite Nat2Z.id. split; [lia|].
    apply list_lookup_insert_eq, slot_lt, Hwf. }
  wstep. simplify_eq. do 2 wstep. cbn [fst]. wstep. cbn [fst].
  change (set_lg_base _ _) with (poll l2).
  assert (0 < lg_count l2) by (cbn; lia).
  split_and!; [by apply wf_poll|done|]. left. exists d.
  split; [done|]. split; [|done]. rewrite log_list_poll by done. by rewrite Hl2.
Qed.

(** The user's clear callback is called on a log that is then thrown away. *)
Lemma log_clear_loop_log F n i clear l h :
  log_wf l → lg_base l ≤ i →
  wq F (log_clear_loop n i clear) (λ _ s', s'.1 = l) (l, h).
Proof.
  intros Hwf. revert i h. induction n as [|n IH]; intros i h Hi; cbn [log_clear_loop];
    unfold get_log; [by wstep|]. do 3 wstep. cbn [fst].
  replace (lg_front l + i - lg_base l) with (lg_front l + Z.of_nat (Z.to_nat (i - lg_base l))) by lia.
  rewrite rem_slot by done.
  destruct (arr_get_total (lg_entries l) (Z.of_nat (slot l (Z.to_nat (i - lg_base l))))) as [e ->];
    [pose proof (slot_lt l (Z.to_nat (i - lg_base l)) Hwf); lia|].
  wstep. simplify_eq. do 2 wstep. cbn [fst snd]. apply IH. lia.
Qed.

Lemma log_clear_entries_log F l h :
  log_wf l → wq F log_clear_entries (λ _ s', s'.1 = l) (l, h).
Proof.
  intros Hwf. unfold log_clear_entries, get_log. do 4 wstep. cbn [fst snd].
  wsplit; [by wstep|]. wsplit; [|by wstep]. apply log_clear_loop_log; [done|lia].
Qed.

Lemma log_load_from_snapshot_spec F idx term l h :
  log_wf l → 0 ≤ idx →
  wq F (log_load_from_snapshot idx term) (λ e s',
    e = 0 ∧ log_wf s'.1 ∧ log_list s'.1 = [] ∧ lg_base s'.1 = idx ∧ lg_cb s'.1 = lg_cb l) (l, h).
Proof.
  intros Hwf Hidx. unfold log_load_from_snapshot, modify_log. wstep.
  eapply wq_mono; [by apply log_clear_entries_log|].
  intros _ [l' h']; cbn [fst]; intros ->. repeat wstep. cbn [fst].
  split_and!; try done. destruct Hwf. split; cbn; try done; lia.
Qed.
End specs.

Lemma wf_log_alloc {H} `{!LogHost H} n (h h' : H) l :
  0 < n → log_alloc n h = (Some l, h') →
  log_wf l ∧ log_list l = [] ∧ lg_base l = 0 ∧ lg_cb l = false ∧ lg_size l = n.
Proof.
  intros Hn. unfold log_alloc. destruct (lh_calloc 1 h) as [[] h1]; [|done]. cbn [negb].
  destruct (lh_calloc n h1) as [[] h2] eqn:E; [|done]. apply lh_calloc_limit in E.
  cbn. intros; simplify_eq. split; [|done]. split; cbn; try done; try lia.
  rewrite length_replicate. lia.
Qed.

(** ** The log as an abstract data type

    The state is a base index and a list.  The owner of the log chooses some
    outcomes (whether there is memory, what a callback returns, which payload it
    leaves), so an operation is a relation between states. *)
Definition alog : Type := raft_index_t * list raft_entry_t.
Definition alpha (l : log_private_t) : alog := (lg_base l, log_list l).

Inductive log_op : Type :=
| OpAppend (ety : raft_entry_t)
| OpDelete (idx : raft_index_t)
| OpPoll
| OpEmpty
| OpLoadSnapshot (idx : raft_index_t) (term : raft_term_t).

Inductive alog_step : log_op → alog → Z → alog → Prop :=
| a_append ety d b es : alog_step (OpAppend ety) (b, es) 0 (b, es ++ [set_ety_data d ety])
| a_append_err ety e b es : e ≠ 0 → alog_step (OpAppend ety) (b, es) e (b, es)
| a_delete idx b es : idx ≠ 0 →
    alog_step (OpDelete idx) (b, es) 0 (b, take (Z.to_nat (idx - 1 - b)) es)
| a_delete_zero b es : alog_step (OpDelete 0) (b, es) (-1) (b, es)
| a_delete_err idx e b es es' m : idx ≠ 0 → e ≠ 0 → (Z.to_nat (idx - 1 - b) ≤ m)%nat →
    strip <$> es' = take m (strip <$> es) → alog_step (OpDelete idx) (b, es) e (b, es')
| a_poll b e es : alog_step OpPoll (b, e :: es) 0 (b + 1, es)
| a_poll_empty b : alog_step OpPoll (b, []) (-1) (b, [])
| a_poll_err b r e d es : r ≠ 0 → alog_step OpPoll (b, e :: es) r (b, set_ety_data d e :: es)
| a_empty b es : alog_step OpEmpty (b, es) 0 (b, [])
| a_load idx term b es : 0 ≤ idx → alog_step (OpLoadSnapshot idx term) (b, es) 0 (idx, []).

(** Sequences of operations, with the code each returned. *)
Inductive alog_steps : list log_op → alog → list Z → alog → Prop :=
| as_nil a : alog_steps [] a [] a
| as_cons op ops a r a' rs a'' :
    alog_step op a r a' → alog_steps ops a' rs a'' → alog_steps (op :: ops) a (r :: rs) a''.

Section refinement.
Context {H : Type} `{!LogHost H}.

(** Log indexes are at least 0. *)
Definition op_ok (op : log_op) : Prop :=
  match op with OpLoadSnapshot idx _ => 0 ≤ idx | _ => True end.

Definition run_op (op : log_op) : M (log_private_t * H) Z :=
  match op with
  | OpAppend ety => log_append_entry ety
  | OpDelete idx => log_delete idx
  | OpPoll => r ← log_poll; mret r.1
  | OpEmpty => modify_log log_empty ;; mret 0
  | OpLoadSnapshot idx term => log_load_from_snapshot idx term
  end.

Fixpoint run_ops (ops : list log_op) : M (log_private_t * H) (list Z) :=
  match ops with
  | [] => mret []
  | op :: ops => r ← run_op op; rs ← run_ops ops; mret (r :: rs)
  end.

(** An owner whose membership hooks never fault. *)
Definition host_total : Prop :=
  (∀ ety idx l (h : H) flt, lh_offer_log ety idx l h ≠ Fault flt) ∧
  (∀ ety idx l (h : H) flt, lh_pop_log ety idx l h ≠ Fault flt).

Lemma run_op_refines op l (h : H) :
  host_total → log_wf l → op_ok op →
  wp (run_op op) (λ r s', log_wf s'.1 ∧ alog_step op (alpha l) r (alpha s'.1)) (l, h).
Proof.
  intros [Hoffer Hpop] Hwf Hop. unfold alpha.
  destruct op as [ety|idx| | |idx term]; cbn [run_op].
  - eapply wq_mono; [apply log_append_entry_spec; [done|by intros ????? ?%Hoffer]|].
    intros e [l' h'] (Hwf' & Hb & _ & He); cbn [fst] in *; rewrite Hb.
    destruct He as [[-> (d & -> & _)]|[He ->]]; split; done || by constructor.
  - destruct (decide (idx = 0)) as [->|Hidx].
    { unfold log_delete, get_log. do 2 wstep. cbn [Z.eqb]. wstep. split; [done|constructor]. }
    eapply wq_mono; [apply log_delete_spec; [done|done|by intros ????? ?%Hpop]|].
    intros e [l' h'] (Hwf' & Hb & _ & (m & Hm & Hs) & Hok); cbn [fst] in *; rewrite Hb.
    split; [done|]. destruct (decide (e = 0)) as [->|He].
    + rewrite Hok by done. by constructor.
    + by eapply a_delete_err.
  - wstep. eapply wq_mono; [by apply log_poll_spec|].
    intros r [l' h'] (Hwf' & _ & Hr). wstep. cbn [fst] in *. split; [done|].
    destruct (log_list l) as [|e es] eqn:Hl.
    + destruct Hr as [-> ->]. rewrite Hl. constructor.
    + destruct Hr as [(d & -> & -> & ->)|(d & Hr & _ & -> & ->)]; by constructor.
  - unfold modify_log. do 3 wstep. cbn [fst]. split.
    + pose proof (wf_size _ Hwf). destruct Hwf. split; cbn; done || lia.
    + constructor.
  - eapply wq_mono; [by apply log_load_from_snapshot_spec|].
    intros e [l' h'] (-> & Hwf' & Hl & Hb & _). cbn [fst] in *. rewrite Hl, Hb.
    split; [done|by constructor].
Qed.

(** C19: the circular array of [raft_log.c] implements the list.  Any sequence of
    appends, truncations, polls, clears and snapshot loads on a well-formed log
    runs to completion without leaving the array, keeps it well-formed, and
    returns codes and reaches contents that the abstract list operations allow,
    for every owner whose membership hooks do not fault. *)
Theorem log_refines_list (ops : list log_op) (l : log_private_t) (h : H) :
  host_total → log_wf l → Forall op_ok ops →
  wp (run_ops ops) (λ rs s', log_wf s'.1 ∧ alog_steps ops (alpha l) rs (alpha s'.1)) (l, h).
Proof.
  intros Htot Hwf Hok. revert l h Hwf.
  induction Hok as [|op ops Hop Hok IH]; intros l h Hwf; cbn [run_ops].
  { wstep. split; [done|constructor]. }
  wstep. eapply wq_mono; [by apply run_op_refines|].
  intros r [l1 h1] [Hwf1 Hstep]. wstep. eapply wq_mono; [by apply IH|].
  intros rs [l2 h2] [Hwf2 Hsteps]. wstep. split; [done|]. by econstructor.
Qed.
End refinement.

(** An owner that does nothing, to run the log on its own. *)
Definition idle_calloc (n : Z) (h : unit) : bool * unit := (n <=? INT_MAX, h).
Lemma idle_calloc_limit n h h' : idle_calloc n h = (true, h') → n ≤ INT_MAX.
Proof. unfold idle_calloc. intros [= H]. lia. Qed.
Definition idle_host : LogHost unit := {|
  lh_calloc := idle_calloc;
  lh_log_offer _ := None; lh_log_poll _ := None; lh_log_pop _ := None; lh_log_clear _ := None;
  lh_offer_log _ _ _ h := Ok h; lh_pop_log _ _ _ h := Ok h;
  lh_calloc_limit := idle_calloc_limit |}.

Definition entry_of (term id : Z) : raft_entry_t := mk_entry term id 0 (mk_data 0 0).
Definition small_log : log_private_t := mk_log 2 0 1 1 0 [entry_zero; entry_zero] false.

Lemma small_log_wf : log_wf small_log.
Proof. split; cbn; try lia; done. Qed.

Lemma log_refines_list_witness :
  let ops := [OpAppend (entry_of 1 1); OpAppend (entry_of 1 2); OpPoll; OpAppend (entry_of 2 3);
              OpAppend (entry_of 2 4); OpDelete 4] in
  wp (run_ops (H := unit) (LogHost0 := idle_host) ops)
     (λ rs s', log_wf s'.1 ∧ alog_steps ops (alpha small_log) rs (alpha s'.1)) (small_log, tt).
Proof.
  apply (log_refines_list (LogHost0 := idle_host)).
  - split; discriminate.
  - exact small_log_wf.
  - repeat constructor.
Defined.

(** [log_get_at_idx] is list lookup: on a well-formed log it never leaves the
    array, index [idx] yields the entry at position [idx - base - 1] of the list,
    and every index outside (base, base + count] yields the null pointer. *)
Theorem log_get_at_idx_is_lookup (l : log_private_t) (idx : raft_index_t) :
  log_wf l →
  log_get_at_idx l idx =
    Ok (if (lg_base l <? idx) then log_list l !! Z.to_nat (idx - lg_base l - 1) else None).
Proof. apply log_get_at_idx_spec. Qed.

Lemma log_get_at_idx_is_lookup_witness :
  log_get_at_idx (push small_log) 1 = Ok (Some entry_zero).
Proof.
  rewrite (log_get_at_idx_is_lookup (push small_log) 1).
  - reflexivity.
  - split; cbn; try lia; done.
Defined.

(** [log_get_from_idx], which batches entries for a peer: for every index
    from 1 it returns without faulting; inside the log it returns a non-empty
    run of consecutive entries that starts at that index and stays inside the
    log (it may stop early, at the end of the array), outside it returns the
    null pointer with a count of 0. *)
Theorem log_get_from_idx_is_run (l : log_private_t) (idx : raft_index_t) :
  log_wf l → 0 < idx →
  if (lg_base l <? idx) && (idx <=? lg_base l + lg_count l) then
    ∃ n, (0 < n)%nat ∧
      log_get_from_idx l idx =
        Ok (Some (take n (drop (Z.to_nat (idx - lg_base l - 1)) (log_list l))), Z.of_nat n) ∧
      (Z.to_nat (idx - lg_base l - 1) + n ≤ length (log_list l))%nat
  else log_get_from_idx l idx = Ok (None, 0).
Proof. apply log_get_from_idx_spec. Qed.

Lemma log_get_from_idx_is_run_witness :
  ∃ n, (0 < n)%nat ∧
    log_get_from_idx (push (push small_log)) 1 =
      Ok (Some (take n (log_list (push (push small_log)))), Z.of_nat n) ∧ (n ≤ 2)%nat.
Proof.
  apply (log_get_from_idx_is_run (push (push small_log)) 1).
  - split; cbn; try lia; done.
  - lia.
Defined.

Lemma log_clear_loop_calls {H} `{!LogHost H} l clear n k (h : H) :
  log_wf l →
  log_clear_loop n (lg_base l + Z.of_nat k) clear (l, h) =
    Ok (tt, (l, foldl (λ h k, clear (default entry_zero (lg_entries l !! slot l k))
                                 (lg_base l + Z.of_nat k) l h) h (seq k n))).
Proof.
  intros Hwf. revert k h. induction n as [|n IH]; intros k h; [done|].
  cbn [log_clear_loop seq foldl]. unfold get_log, gets, mbind, M_bind. cbn [fst snd].
  replace (lg_front l + (lg_base l + Z.of_nat k) - lg_base l) with (lg_front l + Z.of_nat k) by lia.
  rewrite rem_slot by done. destruct (slot_entry l k Hwf) as [e He]. rewrite He. cbn [default].
  assert (arr_get (lg_entries l) (Z.of_nat (slot l k)) = Ok e) as ->
    by (apply arr_get_Ok; rewrite Nat2Z.id; split; [lia|done]).
  cbn [lift modify fst snd].
  replace (lg_base l + Z.of_nat k + 1) with (lg_base l + Z.of_nat (S k)) by lia.
  apply IH.
Qed.

(** [log_clear_entries] calls the user's clear callback [count + 1] times, on
    slots [front], [front + 1], ... with indexes [base], [base + 1], ...,
    [base + count]: each entry is announced with the index of the one before it,
    and the last call is about a slot past the youngest entry. *)
Theorem log_clear_entries_calls {H} `{!LogHost H} (l : log_private_t) (h : H)
    (clear : raft_entry_t → raft_index_t → log_private_t → H → H) :
  log_wf l → lg_count l ≠ 0 → lg_cb l = true → lh_log_clear h = Some clear →
  log_clear_entries (l, h) =
    Ok (tt, (l, foldl (λ h k, clear (default entry_zero (lg_entries l !! slot l k))
                                 (lg_base l + Z.of_nat k) l h)
                  h (seq 0 (Z.to_nat (lg_count l + 1))))).
Proof.
  intros Hwf Hc Hcb Hclear. pose proof (wf_count _ Hwf).
  unfold log_clear_entries, get_log, gets, get, mbind, M_bind. cbn [fst snd].
  rewrite Hcb, Hclear, (proj2 (Z.eqb_neq _ _) Hc).
  replace (lg_base l) with (lg_base l + Z.of_nat 0) at 1 by lia.
  by apply log_clear_loop_calls.
Qed.

(** An owner that records the indexes its clear callback is given. *)
Definition recording_host : LogHost (list Z) := {|
  lh_calloc n h := (n <=? INT_MAX, h);
  lh_log_offer _ := None; lh_log_poll _ := None; lh_log_pop _ := None;
  lh_log_clear _ := Some (λ _ idx _ h, h ++ [idx]);
  lh_offer_log _ _ _ h := Ok h; lh_pop_log _ _ _ h := Ok h;
  lh_calloc_limit n h h' H := ltac:(injection H; lia) |}.

(** Two entries, with indexes 1 and 2: the callback hears of 0, 1 and 2. *)
Lemma log_clear_entries_calls_witness :
  @log_clear_entries _ recording_host (log_set_callbacks (push (push small_log)), []) =
    Ok (tt, (log_set_callbacks (push (push small_log)), [0; 1; 2])).
Proof.
  rewrite (@log_clear_entries_calls _ recording_host _ _ (λ _ idx _ h, h ++ [idx])).
  - reflexivity.
  - split; cbn; try lia; done.
  - discriminate.
  - reflexivity.
  - reflexivity.
Defined.

(** ** What a log operation does to its owner

    A preorder on the owner that every hook respects is respected by every
    operation of the log. *)
Class HookRel {H} `{!LogHost H} (RH : relation H) : Prop := {
  hook_preorder :: PreOrder RH;
  hook_calloc n h : RH h (lh_calloc n h).2;
  hook_offer h f : lh_log_offer h = Some f → ∀ e i l h, RH h (f e i l h).2;
  hook_poll h f : lh_log_poll h = Some f → ∀ e i l h, RH h (f e i l h).2;
  hook_pop h f : lh_log_pop h = Some f → ∀ e i l h, RH h (f e i l h).2;
  hook_clear h f : lh_log_clear h = Some f → ∀ e i l h, RH h (f e i l h);
  hook_offer_log e i l h h' : lh_offer_log e i l h = Ok h' → RH h h';
  hook_pop_log e i l h h' : lh_pop_log e i l h = Ok h' → RH h h'
}.

(** The relation on log and owner that only looks at the owner. *)
Definition on_host {H} (RH : relation H) : relation (log_private_t * H) := λ s s', RH s.2 s'.2.

#[global] Instance on_host_preorder {H} (RH : relation H) : PreOrder RH → PreOrder (on_host RH).
Proof.
  intros HR. split; unfold on_host.
  - intros s. reflexivity.
  - intros s1 s2 s3 H1 H2. by trans (s2.2).
Qed.

Section hooks.
Context {H : Type} `{!LogHost H} (RH : relation H) `{!HookRel RH}.
Abbreviation R := (on_host RH).

#[local] Instance hooks_modify_log f : Preserves R (modify_log f).
Proof. intros s. unfold on_host. cbn. reflexivity. Qed.
#[local] Instance hooks_calloc n : Preserves R (calloc n).
Proof.
  intros s. unfold wq, calloc. pose proof (hook_calloc n s.2) as Hc.
  by destruct (lh_calloc n s.2).
Qed.
#[local] Instance hooks_call_edit f i idx :
  (∀ e i l h, RH h (f e i l h).2) → Preserves R (call_edit f i idx).
Proof.
  intros Hf s. unfold call_edit, get_log. repeat (wstep; try done).
  destruct (f a idx s.1 s.2) as [[r d] h'] eqn:Ef.
  repeat (wstep; try done). unfold on_host. cbn. pose proof (Hf a idx s.1 s.2) as Hf'.
  by rewrite Ef in Hf'.
Qed.
#[local] Instance hooks_call_host f i idx :
  (∀ e i l h h', f e i l h = Ok h' → RH h h') → Preserves R (call_host f i idx).
Proof.
  intros Hf s. unfold call_host, get_log. repeat (wstep; try done).
  unfold on_host. cbn. eauto.
Qed.
#[local] Instance hooks_ensurecapacity : Preserves R __ensurecapacity.
Proof. unfold __ensurecapacity. apply _. Qed.

Ltac hook_from_table :=
  repeat case_match; simplify_eq;
  first [eapply hook_offer; eassumption | eapply hook_poll; eassumption
        |eapply hook_pop; eassumption | eapply hook_clear; eassumption].
#[local] Hint Extern 1 (Preserves _ (call_edit _ _ _)) =>
  apply hooks_call_edit; hook_from_table : pres.
#[local] Hint Extern 1 (Preserves _ (call_host _ _ _)) =>
  apply hooks_call_host; first [exact hook_offer_log | exact hook_pop_log] : pres.

#[global] Instance hooks_append ety : Preserves R (log_append_entry ety).
Proof. unfold log_append_entry. pres. Qed.
#[global] Instance hooks_delete idx : Preserves R (log_delete idx).
Proof.
  unfold log_delete. pres.
  all: match goal with |- Preserves _ (log_delete_loop ?n ?i) => generalize n, i end.
  all: intros n; induction n; intros i; cbn [log_delete_loop]; pres.
Qed.
#[global] Instance hooks_log_poll : Preserves R log_poll.
Proof. unfold log_poll. pres. Qed.
#[global] Instance hooks_clear_entries : Preserves R log_clear_entries.
Proof.
  unfold log_clear_entries. pres.
  match goal with |- Preserves _ (log_clear_loop ?n ?i ?f) =>
    assert (∀ e0 i0 l0 h0, RH h0 (f e0 i0 l0 h0)) as Hf by hook_from_table;
    generalize n, i end.
  intros n. induction n as [|n IH]; intros i; cbn [log_clear_loop]; pres.
  apply preserves_modify. intros s. unfold on_host. cbn. eauto.
Qed.
#[global] Instance hooks_load idx term : Preserves R (log_load_from_snapshot idx term).
Proof. unfold log_load_from_snapshot. pres. Qed.
End hooks.
