(* ===== verification/RaftMembership.v ===== *)
(** * The peer table ([raft_server.c], [raft_server_properties.c])

    Access to the server struct and to the heap of peers, looking peers up,
    adding and removing them, and the two functions the log calls back when a
    configuration entry enters ([raft_offer_log]) or leaves ([raft_pop_log]).
    Together with the allocator and the user's callbacks they make a server an
    owner of a log: the [LogHost] instance at the end. *)

From S2P Require Import Prelude RaftTypes RaftNode RaftLog.

Section access.
Context {U : Type}.

Definition get_me : M (raft U) raft_server_private_t := gets (λ s, me s.2).
Definition modify_host (f : host U → host U) : M (raft U) unit := modify (λ s, (s.1, f s.2)).
Definition modify_me (f : raft_server_private_t → raft_server_private_t) : M (raft U) unit :=
  modify_host (λ h, set_me (f (me h)) h).
Definition get_cb : M (raft U) (raft_cbs_t U) := gets (λ s, cb s.2).

(** Dereferencing a peer pointer: freed and null pointers are undefined behaviour. *)
Definition deref (p : raft_node_t) : M (raft U) raft_node_private_t :=
  h ← gets snd;
  match heap h !! p with Some n => mret n | None => throw UndefinedBehaviour end.
Definition deref_ptr (p : option raft_node_t) : M (raft U) raft_node_private_t :=
  match p with Some p => deref p | None => throw UndefinedBehaviour end.
Definition store (p : raft_node_t) (n : raft_node_private_t) : M (raft U) unit :=
  modify_host (λ h, set_heap (<[p := n]> (heap h)) h).
(** An operation of [raft_node.c] on a peer pointer. *)
Definition on_node (p : option raft_node_t) (f : raft_node_private_t → raft_node_private_t) : M (raft U) unit :=
  match p with
  | Some p => n ← deref p; store p (f n)
  | None => throw UndefinedBehaviour
  end.
Definition on_node_o (p : option raft_node_t) (f : raft_node_private_t → outcome raft_node_private_t) : M (raft U) unit :=
  match p with
  | Some p => n ← deref p; n' ← lift (f n); store p n'
  | None => throw UndefinedBehaviour
  end.

(** Calling a user callback: it reads the server and owns the user data. *)
Definition view (s : raft U) : raft_view := mk_view s.1 (me s.2) (heap s.2).
Definition call (f : raft_view → U → Z * U) : M (raft U) Z := λ s,
  let '(e, u) := f (view s) (udata s.2) in Ok (e, (s.1, set_udata u s.2)).
Definition call_void (f : raft_view → U → U) : M (raft U) unit := λ s,
  Ok (tt, (s.1, set_udata (f (view s) (udata s.2)) s.2)).

(** [rand()] and the heap functions. *)
Definition c_rand : M (raft U) Z := λ s,
  Ok (rand_src s.2 (rand_n s.2), (s.1, set_rand_n (S (rand_n s.2)) s.2)).
Definition host_calloc (n : Z) (h : host U) : bool * host U :=
  (alloc_src h (alloc_n h) n, set_alloc_n (S (alloc_n h)) h).
Definition c_alloc (n : Z) : M (raft U) bool := λ s,
  let '(ok, h) := host_calloc n s.2 in Ok (ok, (s.1, h)).

(** The cells of [me->nodes] in use, in order. *)
Definition nodes_in_use : M (raft U) (list raft_node_t) :=
  gets (λ s, take (Z.to_nat (num_nodes (me s.2))) (nodes (me s.2))).
End access.

Definition raft_entry_is_voting_cfg_change (ety : raft_entry_t) : bool :=
  (RAFT_LOGTYPE_ADD_NODE =? ety_type ety) || (RAFT_LOGTYPE_DEMOTE_NODE =? ety_type ety).

Definition raft_entry_is_cfg_change (ety : raft_entry_t) : bool :=
  (RAFT_LOGTYPE_ADD_NODE =? ety_type ety) || (RAFT_LOGTYPE_ADD_NONVOTING_NODE =? ety_type ety) ||
  (RAFT_LOGTYPE_DEMOTE_NODE =? ety_type ety) || (RAFT_LOGTYPE_REMOVE_NODE =? ety_type ety).

Section membership.
Context {U : Type}.

Definition raft_get_nodeid : M (raft U) raft_node_id_t :=
  m ← get_me;
  match node m with
  | None => mret (-1)
  | Some p => n ← deref p; mret (raft_node_get_id n)
  end.

(** The search loop of [raft_get_node]. *)
Fixpoint find_node (ps : list raft_node_t) (nodeid : raft_node_id_t) : M (raft U) (option raft_node_t) :=
  match ps with
  | [] => mret None
  | p :: ps =>
      n ← deref p;
      if nodeid =? raft_node_get_id n then mret (Some p) else find_node ps nodeid
  end.

Definition raft_get_node (nodeid : raft_node_id_t) : M (raft U) (option raft_node_t) :=
  ps ← nodes_in_use; find_node ps nodeid.

(** The search loop of [raft_get_my_node], which reads the own id in every iteration. *)
Fixpoint find_my_node (ps : list raft_node_t) : M (raft U) (option raft_node_t) :=
  match ps with
  | [] => mret None
  | p :: ps =>
      nodeid ← raft_get_nodeid;
      n ← deref p;
      if nodeid =? raft_node_get_id n then mret (Some p) else find_my_node ps
  end.

Definition raft_get_my_node : M (raft U) (option raft_node_t) :=
  ps ← nodes_in_use; find_my_node ps.

Definition raft_get_num_voting_nodes : M (raft U) Z :=
  ps ← nodes_in_use;
  count_if ps (λ p, n ← deref p; mret (raft_node_is_active n && raft_node_is_voting n)).

Definition raft_node_free (p : raft_node_t) : M (raft U) unit :=
  modify_host (λ h, set_heap (delete p (heap h)) h).

Definition raft_add_node_internal (ety : option raft_entry_t) (udata : Z)
    (id : raft_node_id_t) (is_self : bool) : M (raft U) (option raft_node_t) :=
  found ← raft_get_node id;
  match found with
  | Some p =>
      n ← deref p;
      if negb (raft_node_is_voting n) then
        on_node_o (Some p) (raft_node_set_voting true) ;; mret (Some p)
      else mret None
  | None =>
      ok ← c_alloc 1;
      if negb ok then mret None
      else
        p ← gets (λ s, heap_next s.2);
        modify_host (λ h, set_heap_next (Pos.succ p) h) ;;
        store p (raft_node_new udata id) ;;
        m ← get_me;
        ok ← c_alloc (num_nodes m + 1);
        if negb ok then raft_node_free p ;; mret None
        else
          modify_me (λ m, set_nodes (take (Z.to_nat (num_nodes m)) (nodes m) ++ [p])
                            (set_num_nodes (num_nodes m + 1) m)) ;;
          (if is_self then modify_me (set_node (Some p)) else mret tt) ;;
          c ← get_cb;
          match cb_notify_membership_event c with
          | Some notify => call_void (λ v u, notify v u p ety RAFT_MEMBERSHIP_ADD)
          | None => mret tt
          end ;;
          mret (Some p)
  end.

Definition raft_add_node (udata : Z) (id : raft_node_id_t) (is_self : bool) : M (raft U) (option raft_node_t) :=
  raft_add_node_internal None udata id is_self.

Definition raft_add_non_voting_node_internal (ety : option raft_entry_t) (udata : Z)
    (id : raft_node_id_t) (is_self : bool) : M (raft U) (option raft_node_t) :=
  found ← raft_get_node id;
  match found with
  | Some _ => mret None
  | None =>
      added ← raft_add_node_internal ety udata id is_self;
      match added with
      | None => mret None
      | Some p => on_node_o (Some p) (raft_node_set_voting false) ;; mret (Some p)
      end
  end.

Definition raft_add_non_voting_node (udata : Z) (id : raft_node_id_t) (is_self : bool) : M (raft U) (option raft_node_t) :=
  raft_add_non_voting_node_internal None udata id is_self.

(** [memmove(&nodes[i], &nodes[i + 1], ...)] over the cells in use. *)
Definition close_gap (i num : nat) (ps : list raft_node_t) : list raft_node_t :=
  take i ps ++ take (num - i - 1) (drop (i + 1) ps) ++ drop (num - 1) ps.

Definition raft_remove_node (p : option raft_node_t) : M (raft U) unit :=
  match p with
  | None => throw AssertFailed
  | Some p =>
      c ← get_cb;
      match cb_notify_membership_event c with
      | Some notify => call_void (λ v u, notify v u p None RAFT_MEMBERSHIP_REMOVE)
      | None => mret tt
      end ;;
      ps ← nodes_in_use;
      match list_find (p =.) ps with
      | None => throw AssertFailed
      | Some (i, _) =>
          modify_me (λ m, set_num_nodes (num_nodes m - 1)
            (set_nodes (close_gap i (Z.to_nat (num_nodes m)) (nodes m)) m)) ;;
          raft_node_free p
      end
  end.

(** [me->cb.log_get_node_id(...)]: the pointer is not tested. *)
Definition log_get_node_id (ety : raft_entry_t) (idx : raft_index_t) : M (raft U) raft_node_id_t :=
  c ← get_cb;
  match cb_log_get_node_id c with
  | Some f => call (λ v u, f v u ety idx)
  | None => throw UndefinedBehaviour
  end.

Definition raft_offer_log (ety : raft_entry_t) (idx : raft_index_t) : M (raft U) unit :=
  if negb (raft_entry_is_cfg_change ety) then mret tt
  else
    node_id ← log_get_node_id ety idx;
    found ← raft_get_node node_id;
    my_id ← raft_get_nodeid;
    let is_self := node_id =? my_id in
    if ety_type ety =? RAFT_LOGTYPE_ADD_NONVOTING_NODE then
      if negb is_self then
        match found with
        | Some p =>
            n ← deref p;
            if negb (raft_node_is_active n) then on_node (Some p) (raft_node_set_active true)
            else mret tt
        | None =>
            added ← raft_add_non_voting_node_internal (Some ety) 0 node_id is_self;
            assert_ (bool_decide (is_Some added))
        end
      else mret tt
    else if ety_type ety =? RAFT_LOGTYPE_ADD_NODE then
      added ← raft_add_node_internal (Some ety) 0 node_id is_self;
      assert_ (bool_decide (is_Some added)) ;;
      n ← deref_ptr added;
      assert_ (raft_node_is_voting n)
    else if ety_type ety =? RAFT_LOGTYPE_DEMOTE_NODE then
      match found with
      | Some p => on_node_o (Some p) (raft_node_set_voting false)
      | None => mret tt
      end
    else if ety_type ety =? RAFT_LOGTYPE_REMOVE_NODE then
      match found with
      | Some p => on_node (Some p) (raft_node_set_active false)
      | None => mret tt
      end
    else throw AssertFailed.

Definition raft_pop_log (ety : raft_entry_t) (idx : raft_index_t) : M (raft U) unit :=
  if negb (raft_entry_is_cfg_change ety) then mret tt
  else
    node_id ← log_get_node_id ety idx;
    if ety_type ety =? RAFT_LOGTYPE_DEMOTE_NODE then
      found ← raft_get_node node_id;
      on_node_o found (raft_node_set_voting true)
    else if ety_type ety =? RAFT_LOGTYPE_REMOVE_NODE then
      found ← raft_get_node node_id;
      on_node found (raft_node_set_active true)
    else if ety_type ety =? RAFT_LOGTYPE_ADD_NONVOTING_NODE then
      my_id ← raft_get_nodeid;
      let is_self := node_id =? my_id in
      found ← raft_get_node node_id;
      raft_remove_node found ;;
      (if is_self then throw AssertFailed else mret tt)
    else if ety_type ety =? RAFT_LOGTYPE_ADD_NODE then
      found ← raft_get_node node_id;
      on_node_o found (raft_node_set_voting false)
    else throw AssertFailed.
End membership.

(** ** A server as the owner of a log *)
Section log_host.
Context {U : Type}.

Definition as_hook (m : M (raft U) unit) (l : log_private_t) (h : host U) : outcome (host U) :=
  match m (l, h) with Ok (_, (_, h')) => Ok h' | Fault f => Fault f end.

Definition as_edit (f : func_logentry_edit_f U) (ety : raft_entry_t) (idx : raft_index_t)
    (l : log_private_t) (h : host U) : Z * raft_entry_data_t * host U :=
  let '(e, d, u) := f (view (l, h)) (udata h) ety idx in (e, d, set_udata u h).

Definition as_event (f : func_logentry_event_f U) (ety : raft_entry_t) (idx : raft_index_t)
    (l : log_private_t) (h : host U) : host U :=
  set_udata (f (view (l, h)) (udata h) ety idx).2 h.

Lemma host_calloc_limit n (h h' : host U) : host_calloc n h = (true, h') → n ≤ INT_MAX.
Proof. intros [= Ha _]. by apply alloc_limit in Ha. Qed.

#[global] Instance server_log_host : LogHost (host U) := {|
  lh_calloc := host_calloc;
  lh_log_offer h := as_edit <$> cb_log_offer (cb h);
  lh_log_poll h := as_edit <$> cb_log_poll (cb h);
  lh_log_pop h := as_edit <$> cb_log_pop (cb h);
  lh_log_clear h := as_event <$> cb_log_clear (cb h);
  lh_offer_log ety idx := as_hook (raft_offer_log ety idx);
  lh_pop_log ety idx := as_hook (raft_pop_log ety idx);
  lh_calloc_limit := host_calloc_limit
|}.
End log_host.

#[global] Typeclasses Opaque get_log modify_log calloc call_edit call_host __ensurecapacity
  log_append_entry log_delete log_poll log_clear_entries log_load_from_snapshot
  get_me modify_host modify_me get_cb deref deref_ptr store on_node on_node_o call call_void
  c_rand c_alloc nodes_in_use raft_get_nodeid find_node raft_get_node find_my_node raft_get_my_node
  raft_get_num_voting_nodes raft_node_free raft_add_node_internal raft_add_node
  raft_add_non_voting_node_internal raft_add_non_voting_node raft_remove_node log_get_node_id
  raft_offer_log raft_pop_log.
