(* ===== verification/RaftServer.v ===== *)
(** * The Raft server ([raft_server.c], [raft_server_properties.c])

    Every function of the two files as a computation over the state of one
    server: the log and the [host] (struct, peers, callbacks, environment).
    Return codes are results; out-parameters are further results; [goto out] is
    a result passed to the epilogue.  The debug printer [__log] is left out: it
    formats a line for the user and touches no state. *)

From S2P Require Import Prelude RaftTypes RaftNode RaftLog RaftMembership.

Section properties.
Context {U : Type}.
Implicit Types s : raft U.

(** ** Readers ([raft_server_properties.c]) *)
Definition raft_get_election_timeout s : Z := election_timeout (me s.2).
Definition raft_get_request_timeout s : Z := request_timeout (me s.2).
Definition raft_get_num_nodes s : Z := num_nodes (me s.2).
Definition raft_get_timeout_elapsed s : Z := timeout_elapsed (me s.2).
Definition raft_get_log_count s : raft_index_t := log_count s.1.
Definition raft_get_voted_for s : raft_node_id_t := voted_for (me s.2).
Definition raft_get_current_term s : raft_term_t := current_term (me s.2).
Definition raft_get_current_idx s : raft_index_t := log_get_current_idx s.1.
Definition raft_get_last_applied_idx s : raft_index_t := last_applied_idx (me s.2).
Definition raft_get_commit_idx s : raft_index_t := commit_idx (me s.2).
Definition raft_get_state s : raft_state_e := state (me s.2).
Definition raft_is_follower s : bool := bool_decide (raft_get_state s = RAFT_STATE_FOLLOWER).
Definition raft_is_leader s : bool := bool_decide (raft_get_state s = RAFT_STATE_LEADER).
Definition raft_is_candidate s : bool := bool_decide (raft_get_state s = RAFT_STATE_CANDIDATE).
Definition raft_is_connected s : Z := connected (me s.2).
Definition raft_snapshot_is_in_progress s : bool := negb (snapshot_in_progress (me s.2) =? 0).
Definition raft_is_apply_allowed s : bool :=
  negb (raft_snapshot_is_in_progress s) ||
  negb (Z.land (snapshot_flags (me s.2)) RAFT_SNAPSHOT_NONBLOCKING_APPLY =? 0).
Definition raft_get_snapshot_last_idx s : raft_index_t := snapshot_last_idx (me s.2).
Definition raft_get_snapshot_last_term s : raft_term_t := snapshot_last_term (me s.2).
Definition raft_get_udata s : U := udata s.2.
Definition raft_get_current_leader_node s : option raft_node_t := current_leader (me s.2).
Definition raft_voting_change_is_in_progress s : bool :=
  negb (voting_cfg_change_log_idx (me s.2) =? -1).
Definition raft_already_voted s : bool := negb (voted_for (me s.2) =? -1).

Definition raft_get_current_leader : M (raft U) raft_node_id_t :=
  m ← get_me;
  match current_leader m with
  | Some p => n ← deref p; mret (raft_node_get_id n)
  | None => mret (-1)
  end.

Definition raft_get_node_from_idx (idx : raft_index_t) : M (raft U) raft_node_t :=
  m ← get_me; lift (arr_get (nodes m) idx).

Definition raft_get_entry_from_idx (etyidx : raft_index_t) : M (raft U) (option raft_entry_t) :=
  s ← get; lift (log_get_at_idx s.1 etyidx).

Definition raft_get_entries_from_idx (idx : raft_index_t) : M (raft U) (option (list raft_entry_t) * Z) :=
  s ← get; lift (log_get_from_idx s.1 idx).

Definition raft_get_last_log_term : M (raft U) raft_term_t :=
  current_idx ← gets raft_get_current_idx;
  if 0 <? current_idx then
    ety ← raft_get_entry_from_idx current_idx;
    match ety with Some ety => mret (ety_term ety) | None => mret 0 end
  else mret 0.

Definition raft_get_last_applied_entry : M (raft U) (option raft_entry_t) :=
  idx ← gets raft_get_last_applied_idx;
  if idx =? 0 then mret None else raft_get_entry_from_idx idx.

(** ** Writers *)
Definition raft_randomize_election_timeout : M (raft U) unit :=
  m ← get_me;
  r ← c_rand;
  if election_timeout m =? 0 then throw UndefinedBehaviour
  else
    t ← add_int (election_timeout m) (Z.rem r (election_timeout m));
    modify_me (set_election_timeout_rand t).

Definition raft_set_election_timeout (millisec : Z) : M (raft U) unit :=
  modify_me (set_election_timeout millisec) ;;
  raft_randomize_election_timeout.

Definition raft_set_request_timeout (millisec : Z) : M (raft U) unit :=
  modify_me (set_request_timeout millisec).

Definition raft_set_current_term (term : raft_term_t) : M (raft U) Z :=
  m ← get_me;
  if current_term m <? term then
    let voted_for := -1 in
    c ← get_cb;
    e ← match cb_persist_term c with
        | Some persist_term => call (λ v u, persist_term v u term voted_for)
        | None => mret 0
        end;
    if negb (e =? 0) then mret e
    else modify_me (λ m, set_voted_for voted_for (set_current_term term m)) ;; mret 0
  else mret 0.

Definition raft_set_commit_idx (idx : raft_index_t) : M (raft U) unit :=
  s ← get;
  assert_ (commit_idx (me s.2) <=? idx) ;;
  assert_ (idx <=? raft_get_current_idx s) ;;
  modify_me (set_commit_idx idx).

Definition raft_set_last_applied_idx (idx : raft_index_t) : M (raft U) unit :=
  modify_me (set_last_applied_idx idx).

Definition raft_set_state (st : raft_state_e) : M (raft U) unit :=
  (if bool_decide (st = RAFT_STATE_LEADER) then
     modify_me (λ m, set_current_leader (node m) m)
   else mret tt) ;;
  modify_me (set_state st).

Definition raft_set_snapshot_metadata (term : raft_term_t) (idx : raft_index_t) : M (raft U) unit :=
  modify_me (λ m, set_snapshot_last_idx idx (set_snapshot_last_term term
    (set_saved_snapshot_last_idx (snapshot_last_idx m)
      (set_saved_snapshot_last_term (snapshot_last_term m) m)))).

(** ** Life cycle *)
Definition raft_set_callbacks (funcs : raft_cbs_t U) (ud : U) : M (raft U) unit :=
  modify_host (set_cb funcs) ;;
  modify_host (set_udata ud) ;;
  modify_log log_set_callbacks.

Definition raft_clear : M (raft U) unit :=
  modify_me (λ m, set_timeout_elapsed 0 (set_voted_for (-1) (set_current_term 0 m))) ;;
  raft_randomize_election_timeout ;;
  modify_me (set_voting_cfg_change_log_idx (-1)) ;;
  raft_set_state RAFT_STATE_FOLLOWER ;;
  modify_me (λ m, set_node None (set_num_nodes 0 (set_last_applied_idx 0
    (set_commit_idx 0 (set_current_leader None m))))) ;;
  log_clear_entries ;;
  modify_log log_clear.
End properties.

(** The struct after [calloc] and the assignments of [raft_new] up to the call of
    [raft_randomize_election_timeout]. *)
Definition server_zero : raft_server_private_t :=
  mk_server 0 (-1) 0 0 RAFT_STATE_NONE 0 [] 0 1000 0 200 None None 0 0 0 0 0 0 0 0.

(** [raft_new]: the null pointer when an allocation fails. *)
Definition raft_new {U} (r : random) (a : allocator) (u : U) : outcome (option (raft U)) :=
  let h := mk_host server_zero ∅ 1 no_cbs u r 0 a 0 in
  let '(ok, h) := host_calloc 1 h in
  if negb ok then Ok None
  else
    match raft_randomize_election_timeout (mk_log 0 0 0 0 0 [] false, h) with
    | Fault f => Fault f
    | Ok (_, (_, h)) =>
        let '(l, h) := log_new h in
        match l with
        | None => Ok None
        | Some l =>
            match (modify_me (set_voting_cfg_change_log_idx (-1)) ;;
                   raft_set_state RAFT_STATE_FOLLOWER ;;
                   modify_me (set_current_leader None) ;;
                   modify_me (set_snapshot_in_progress 0) ;;
                   raft_set_snapshot_metadata 0 0) (l, h) with
            | Fault f => Fault f
            | Ok (_, s) => Ok (Some s)
            end
        end
    end.

Section server.
Context {U : Type}.

(** ** Voting *)
Definition raft_vote_for_nodeid (nodeid : raft_node_id_t) : M (raft U) Z :=
  c ← get_cb;
  e ← match cb_persist_vote c with
      | Some persist_vote => call (λ v u, persist_vote v u nodeid)
      | None => mret 0
      end;
  if negb (e =? 0) then mret e
  else modify_me (set_voted_for nodeid) ;; mret 0.

Definition raft_vote (p : option raft_node_t) : M (raft U) Z :=
  match p with
  | Some p => n ← deref p; raft_vote_for_nodeid (raft_node_get_id n)
  | None => raft_vote_for_nodeid (-1)
  end.

Definition raft_get_nvotes_for_me : M (raft U) Z :=
  m ← get_me;
  ps ← nodes_in_use;
  votes ← count_if ps (λ p,
    if bool_decide (node m ≠ Some p) then
      n ← deref p;
      mret (raft_node_is_active n && raft_node_is_voting n && raft_node_has_vote_for_me n)
    else mret false);
  my_id ← raft_get_nodeid;
  mret (if voted_for m =? my_id then votes + 1 else votes).

Definition raft_votes_is_majority (num_nodes nvotes : Z) : bool :=
  if num_nodes <? nvotes then false
  else
    let half := Z.quot num_nodes 2 in
    half + 1 <=? nvotes.

(** ** Sending *)
Definition raft_send_requestvote (p : raft_node_t) : M (raft U) Z :=
  m ← get_me;
  assert_ (bool_decide (node m ≠ Some p)) ;;
  last_log_idx ← gets raft_get_current_idx;
  last_log_term ← raft_get_last_log_term;
  candidate_id ← raft_get_nodeid;
  let rv := mk_requestvote (current_term m) candidate_id last_log_idx last_log_term in
  c ← get_cb;
  match cb_send_requestvote c with
  | Some send => call (λ v u, send v u p rv)
  | None => mret 0
  end.

Definition raft_send_appendentries (p : raft_node_t) : M (raft U) Z :=
  m ← get_me;
  assert_ (bool_decide (node m ≠ Some p)) ;;
  c ← get_cb;
  match cb_send_appendentries c with
  | None => mret (-1)
  | Some send =>
      n ← deref p;
      let next_idx := raft_node_get_next_idx n in
      if (0 <? snapshot_last_idx m) && (next_idx <? snapshot_last_idx m) then
        match cb_send_snapshot c with
        | Some snap => _ ← call (λ v u, snap v u p); mret tt
        | None => mret tt
        end ;;
        mret RAFT_ERR_NEEDS_SNAPSHOT
      else
        entries ← raft_get_entries_from_idx next_idx;
        assert_ (match entries.1 with None => 0 =? entries.2 | Some _ => 0 <? entries.2 end) ;;
        prev ← (if 1 <? next_idx then
                  prev_ety ← raft_get_entry_from_idx (next_idx - 1);
                  match prev_ety with
                  | None => mret (snapshot_last_idx m, snapshot_last_term m)
                  | Some prev_ety => mret (next_idx - 1, ety_term prev_ety)
                  end
                else mret (0, 0) : M (raft U) (Z * Z));
        let ae := mk_appendentries (current_term m) prev.1 prev.2 (commit_idx m)
                    entries.2 (default [] entries.1) in
        call (λ v u, send v u p ae)
  end.

(** The test [me->node == node || !raft_node_is_active(node)] of the sending loops. *)
Definition skip_peer (p : raft_node_t) : M (raft U) bool :=
  m ← get_me;
  if bool_decide (node m = Some p) then mret true
  else n ← deref p; mret (negb (raft_node_is_active n)).

(** The loop of [raft_send_appendentries_all] stops at the first error. *)
Fixpoint send_appendentries_loop (ps : list raft_node_t) : M (raft U) Z :=
  match ps with
  | [] => mret 0
  | p :: ps =>
      skip ← skip_peer p;
      if (skip : bool) then send_appendentries_loop ps
      else
        e ← raft_send_appendentries p;
        if negb (e =? 0) then mret e else send_appendentries_loop ps
  end.

Definition raft_send_appendentries_all : M (raft U) Z :=
  modify_me (set_timeout_elapsed 0) ;;
  ps ← nodes_in_use;
  send_appendentries_loop ps.

(** ** Role changes *)
Definition raft_become_leader : M (raft U) unit :=
  raft_set_state RAFT_STATE_LEADER ;;
  modify_me (set_timeout_elapsed 0) ;;
  ps ← nodes_in_use;
  for_each ps (λ p,
    skip ← skip_peer p;
    if (skip : bool) then mret tt
    else
      current_idx ← gets raft_get_current_idx;
      on_node (Some p) (raft_node_set_next_idx (current_idx + 1)) ;;
      on_node (Some p) (raft_node_set_match_idx 0) ;;
      _ ← raft_send_appendentries p;
      mret tt).

Definition raft_become_candidate : M (raft U) Z :=
  term ← gets raft_get_current_term;
  term' ← add_long term 1;
  e ← raft_set_current_term term';
  if negb (e =? 0) then mret e
  else
    ps ← nodes_in_use;
    for_each ps (λ p, on_node (Some p) (raft_node_vote_for_me false)) ;;
    m ← get_me;
    _ ← raft_vote (node m);
    modify_me (set_current_leader None) ;;
    raft_set_state RAFT_STATE_CANDIDATE ;;
    raft_randomize_election_timeout ;;
    modify_me (set_timeout_elapsed 0) ;;
    ps ← nodes_in_use;
    for_each ps (λ p,
      m ← get_me;
      if bool_decide (node m ≠ Some p) then
        n ← deref p;
        if raft_node_is_active n && raft_node_is_voting n then
          _ ← raft_send_requestvote p; mret tt
        else mret tt
      else mret tt) ;;
    mret 0.

Definition raft_election_start : M (raft U) Z := raft_become_candidate.

Definition raft_become_follower : M (raft U) unit :=
  raft_set_state RAFT_STATE_FOLLOWER ;;
  raft_randomize_election_timeout ;;
  modify_me (set_timeout_elapsed 0).

(** ** The log *)
Definition raft_append_entry (ety : raft_entry_t) : M (raft U) Z :=
  (if raft_entry_is_voting_cfg_change ety then
     current_idx ← gets raft_get_current_idx;
     modify_me (set_voting_cfg_change_log_idx current_idx)
   else mret tt) ;;
  log_append_entry ety.

Definition raft_delete_entry_from_idx (idx : raft_index_t) : M (raft U) Z :=
  m ← get_me;
  assert_ (commit_idx m <? idx) ;;
  (if idx <=? voting_cfg_change_log_idx m then modify_me (set_voting_cfg_change_log_idx (-1))
   else mret tt) ;;
  log_delete idx.

Definition raft_apply_entry : M (raft U) Z :=
  s ← get;
  if negb (raft_is_apply_allowed s) then mret (-1)
  else if last_applied_idx (me s.2) =? raft_get_commit_idx s then mret (-1)
  else
    let log_idx := last_applied_idx (me s.2) + 1 in
    found ← raft_get_entry_from_idx log_idx;
    match found with
    | None => mret (-1)
    | Some ety =>
        modify_me (λ m, set_last_applied_idx (last_applied_idx m + 1) m) ;;
        m ← get_me;
        c ← get_cb;
        e ← match cb_applylog c with
            | Some applylog => call (λ v u, applylog v u ety (last_applied_idx m))
            | None => mret 0
            end;
        if RAFT_ERR_SHUTDOWN =? e then mret RAFT_ERR_SHUTDOWN
        else
          m ← get_me;
          (if log_idx =? voting_cfg_change_log_idx m then
             modify_me (set_voting_cfg_change_log_idx (-1))
           else mret tt) ;;
          if negb (raft_entry_is_cfg_change ety) then mret 0
          else
            node_id ← log_get_node_id ety log_idx;
            found ← raft_get_node node_id;
            (if ety_type ety =? RAFT_LOGTYPE_ADD_NODE then
               on_node found (raft_node_set_addition_committed true) ;;
               on_node found (raft_node_set_voting_committed true) ;;
               on_node found raft_node_set_has_sufficient_logs ;;
               my_id ← raft_get_nodeid;
               if node_id =? my_id then modify_me (set_connected RAFT_NODE_STATUS_CONNECTED)
               else mret tt
             else if ety_type ety =? RAFT_LOGTYPE_ADD_NONVOTING_NODE then
               on_node found (raft_node_set_addition_committed true)
             else if ety_type ety =? RAFT_LOGTYPE_DEMOTE_NODE then
               match found with
               | Some p => on_node (Some p) (raft_node_set_voting_committed false)
               | None => mret tt
               end
             else if ety_type ety =? RAFT_LOGTYPE_REMOVE_NODE then
               match found with
               | Some p => raft_remove_node (Some p)
               | None => mret tt
               end
             else mret tt) ;;
            mret 0
    end.

(** The loop of [raft_apply_all]: every iteration applies one entry. *)
Fixpoint apply_loop (fuel : nat) : M (raft U) Z :=
  s ← get;
  if raft_get_last_applied_idx s <? raft_get_commit_idx s then
    match fuel with
    | O => throw OutOfFuel
    | S fuel =>
        e ← raft_apply_entry;
        if negb (e =? 0) then mret e else apply_loop fuel
    end
  else mret 0.

Definition raft_apply_all : M (raft U) Z :=
  s ← get;
  if negb (raft_is_apply_allowed s) then mret 0
  else apply_loop (Z.to_nat (raft_get_commit_idx s - raft_get_last_applied_idx s)).

Definition raft_msg_entry_response_committed (r : msg_entry_response_t) : M (raft U) Z :=
  ety ← raft_get_entry_from_idx (mer_idx r);
  match ety with
  | None => mret 0
  | Some ety =>
      if negb (mer_term r =? ety_term ety) then mret (-1)
      else
        s ← get;
        mret (if mer_idx r <=? raft_get_commit_idx s then 1 else 0)
  end.

(** ** Messages *)
Definition raft_recv_appendentries_response (p : option raft_node_t)
    (r : msg_appendentries_response_t) : M (raft U) Z :=
  match p with
  | None => mret (-1)
  | Some p =>
      s ← get;
      if negb (raft_is_leader s) then mret RAFT_ERR_NOT_LEADER
      else if current_term (me s.2) <? aer_term r then
        e ← raft_set_current_term (aer_term r);
        if negb (e =? 0) then mret e
        else
          raft_become_follower ;;
          modify_me (set_current_leader None) ;;
          mret 0
      else if negb (current_term (me s.2) =? aer_term r) then mret 0
      else
        n ← deref p;
        let match_idx := raft_node_get_match_idx n in
        if 0 =? aer_success r then
          let next_idx := raft_node_get_next_idx n in
          assert_ (0 <? next_idx) ;;
          if aer_current_idx r <? match_idx then mret 0
          else
            (if aer_current_idx r <? next_idx - 1 then
               current_idx ← gets raft_get_current_idx;
               on_node (Some p) (raft_node_set_next_idx (Z.min (aer_current_idx r + 1) current_idx))
             else on_node (Some p) (raft_node_set_next_idx (next_idx - 1))) ;;
            _ ← raft_send_appendentries p;
            mret 0
        else
          current_idx ← gets raft_get_current_idx;
          c ← get_cb;
          near_end ← (if negb (raft_node_is_voting n) && negb (raft_voting_change_is_in_progress s) then
                        next ← add_long (aer_current_idx r) 1; mret (current_idx <=? next)
                      else mret false : M (raft U) bool);
          match cb_node_has_sufficient_logs c with
          | Some f =>
              if near_end && negb (raft_node_is_voting_committed n) &&
                 negb (raft_node_has_sufficient_logs n) then
                e ← call (λ v u, f v u p);
                if e =? 0 then on_node (Some p) raft_node_set_has_sufficient_logs else mret tt
              else mret tt
          | None => mret tt
          end ;;
          if aer_current_idx r <=? match_idx then mret 0
          else
            assert_ (aer_current_idx r <=? current_idx) ;;
            on_node (Some p) (raft_node_set_next_idx (aer_current_idx r + 1)) ;;
            on_node (Some p) (raft_node_set_match_idx (aer_current_idx r)) ;;
            let point := aer_current_idx r in
            (if negb (point =? 0) then
               ety ← raft_get_entry_from_idx point;
               m ← get_me;
               if commit_idx m <? point then
                 match ety with
                 | None => throw UndefinedBehaviour
                 | Some ety =>
                     if ety_term ety =? current_term m then
                       ps ← nodes_in_use;
                       others ← count_if ps (λ q,
                         if bool_decide (node m ≠ Some q) then
                           n ← deref q;
                           mret (raft_node_is_active n && raft_node_is_voting n &&
                                 (point <=? raft_node_get_match_idx n))
                         else mret false);
                       let votes := 1 + others in
                       num ← raft_get_num_voting_nodes;
                       if Z.quot num 2 <? votes then raft_set_commit_idx point else mret tt
                     else mret tt
                 end
               else mret tt
             else mret tt) ;;
            n ← deref p;
            more ← raft_get_entry_from_idx (raft_node_get_next_idx n);
            match more with
            | Some _ => _ ← raft_send_appendentries p; mret 0
            | None => mret 0
            end
  end.

(** The first loop of [raft_recv_appendentries], over the entries the log may
    already hold.  Results: the code (non-zero is [goto out]), the index [i] at
    which the loop ends, and [r->current_idx]. *)
Fixpoint ae_match_loop (ae : msg_appendentries_t) (n : nat) (i cur : Z) : M (raft U) (Z * Z * Z) :=
  match n with
  | O => mret (0, i, cur)
  | S n =>
      ety ← lift (arr_get (ae_entries ae) i);
      first ← add_long (ae_prev_log_idx ae) 1;
      ety_index ← add_long first i;
      existing ← raft_get_entry_from_idx ety_index;
      match existing with
      | Some existing_ety =>
          if negb (ety_term existing_ety =? ety_term ety) then
            s ← get;
            if ety_index <=? raft_get_commit_idx s then mret (RAFT_ERR_SHUTDOWN, i, cur)
            else e ← raft_delete_entry_from_idx ety_index; mret (e, i, cur)
          else ae_match_loop ae n (i + 1) ety_index
      | None => mret (0, i, cur)
      end
  end.

(** The second loop, which appends the remainder. *)
Fixpoint ae_append_loop (ae : msg_appendentries_t) (n : nat) (i cur : Z) : M (raft U) (Z * Z) :=
  match n with
  | O => mret (0, cur)
  | S n =>
      ety ← lift (arr_get (ae_entries ae) i);
      e ← raft_append_entry ety;
      if negb (e =? 0) then mret (e, cur)
      else
        first ← add_long (ae_prev_log_idx ae) 1;
        idx ← add_long first i;
        ae_append_loop ae n (i + 1) idx
  end.

(** The checks on the term and on the previous entry.  [Some e] is [goto out]
    with [success = 0]; [None] goes on to the entries. *)
Definition ae_check (p : option raft_node_t) (ae : msg_appendentries_t) : M (raft U) (option Z) :=
  s ← get;
  stale ← (if raft_is_candidate s && (current_term (me s.2) =? ae_term ae) then
             raft_become_follower ;; mret None
           else if current_term (me s.2) <? ae_term ae then
             e ← raft_set_current_term (ae_term ae);
             if negb (e =? 0) then mret (Some e) else raft_become_follower ;; mret None
           else if ae_term ae <? current_term (me s.2) then mret (Some 0)
           else mret None : M (raft U) (option Z));
  match stale with
  | Some e => mret (Some e)
  | None =>
      modify_me (set_current_leader p) ;;
      modify_me (set_timeout_elapsed 0) ;;
      if 0 <? ae_prev_log_idx ae then
        found ← raft_get_entry_from_idx (ae_prev_log_idx ae);
        m ← get_me;
        if ae_prev_log_idx ae =? snapshot_last_idx m then
          if negb (snapshot_last_term m =? ae_prev_log_term ae) then mret (Some RAFT_ERR_SHUTDOWN)
          else mret None
        else
          match found with
          | None => mret (Some 0)
          | Some ety =>
              if negb (ety_term ety =? ae_prev_log_term ae) then
                if ae_prev_log_idx ae <=? commit_idx m then mret (Some RAFT_ERR_SHUTDOWN)
                else e ← raft_delete_entry_from_idx (ae_prev_log_idx ae); mret (Some e)
              else mret None
          end
      else mret None
  end.

(** The part of [raft_recv_appendentries] before the label [out], after the
    checks: both loops and the commit index. *)
Definition ae_entries_step (ae : msg_appendentries_t) : M (raft U) (Z * Z) :=
  let cur := ae_prev_log_idx ae in
  matched ← ae_match_loop ae (Z.to_nat (ae_n_entries ae)) 0 cur;
  let '(e, i, cur) := matched in
  if negb (e =? 0) then mret (e, cur)
  else
    appended ← ae_append_loop ae (Z.to_nat (ae_n_entries ae - i)) i cur;
    let '(e, cur) := appended in
    if negb (e =? 0) then mret (e, cur)
    else
      s ← get;
      (if raft_get_commit_idx s <? ae_leader_commit ae then
         let last_log_idx := Z.max (raft_get_current_idx s) 1 in
         raft_set_commit_idx (Z.min last_log_idx (ae_leader_commit ae))
       else mret tt) ;;
      mret (0, cur).

Definition raft_recv_appendentries (p : option raft_node_t) (ae : msg_appendentries_t) :
    M (raft U) (Z * msg_appendentries_response_t) :=
  checked ← ae_check p ae;
  out ← match checked with
        | Some e => mret (e, 0, 0)
        | None => done ← ae_entries_step ae; mret (done.1, 1, done.2)
        end;
  let '(e, success, cur) := out in
  s ← get;
  let cur := if 0 =? success then raft_get_current_idx s else cur in
  first ← add_long (ae_prev_log_idx ae) 1;
  mret (e, mk_appendentries_response (current_term (me s.2)) success cur first).

Definition __should_grant_vote (vr : msg_requestvote_t) : M (raft U) bool :=
  my ← raft_get_my_node;
  n ← deref_ptr my;
  if negb (raft_node_is_voting n) then mret false
  else
    s ← get;
    if rv_term vr <? raft_get_current_term s then mret false
    else if raft_already_voted s then mret false
    else
      let current_idx := raft_get_current_idx s in
      if 0 =? current_idx then mret true
      else
        found ← raft_get_entry_from_idx current_idx;
        let ety_term := match found with
                        | Some ety => Some (to_int (ety_term ety))
                        | None => if snapshot_last_idx (me s.2) =? current_idx
                                  then Some (to_int (snapshot_last_term (me s.2))) else None
                        end in
        match ety_term with
        | None => mret false
        | Some ety_term =>
            if ety_term <? rv_last_log_term vr then mret true
            else mret ((rv_last_log_term vr =? ety_term) && (current_idx <=? rv_last_log_idx vr))
        end.

Definition raft_recv_requestvote (p : option raft_node_t) (vr : msg_requestvote_t) :
    M (raft U) (Z * msg_requestvote_response_t) :=
  p ← match p with Some p => mret (Some p) | None => raft_get_node (rv_candidate_id vr) end;
  s ← get;
  let m := me s.2 in
  out ← (if bool_decide (is_Some (current_leader m)) && bool_decide (current_leader m ≠ p) &&
            (timeout_elapsed m <? election_timeout m) then mret (0, 0)
         else
           e ← (if raft_get_current_term s <? rv_term vr then
                  e ← raft_set_current_term (rv_term vr);
                  if negb (e =? 0) then mret e
                  else raft_become_follower ;; modify_me (set_current_leader None) ;; mret 0
                else mret 0 : M (raft U) Z);
           if negb (e =? 0) then mret (e, 0)
           else
             grant ← __should_grant_vote vr;
             if (grant : bool) then
               s ← get;
               assert_ (negb (raft_is_leader s || raft_is_candidate s)) ;;
               e ← raft_vote_for_nodeid (rv_candidate_id vr);
               let granted := if 0 =? e then 1 else 0 in
               modify_me (set_current_leader None) ;;
               modify_me (set_timeout_elapsed 0) ;;
               mret (e, granted)
             else
               match p with
               | None => mret (0, RAFT_REQUESTVOTE_ERR_UNKNOWN_NODE)
               | Some _ => mret (0, 0)
               end : M (raft U) (Z * Z));
  s ← get;
  mret (out.1, mk_requestvote_response (raft_get_current_term s) out.2).

Definition raft_recv_requestvote_response (p : option raft_node_t)
    (r : msg_requestvote_response_t) : M (raft U) Z :=
  s ← get;
  if negb (raft_is_candidate s) then mret 0
  else if raft_get_current_term s <? rvr_term r then
    e ← raft_set_current_term (rvr_term r);
    if negb (e =? 0) then mret e
    else raft_become_follower ;; modify_me (set_current_leader None) ;; mret 0
  else if negb (raft_get_current_term s =? rvr_term r) then mret 0
  else if rvr_vote_granted r =? RAFT_REQUESTVOTE_ERR_GRANTED then
    match p with
    | Some p => on_node (Some p) (raft_node_vote_for_me true)
    | None => mret tt
    end ;;
    votes ← raft_get_nvotes_for_me;
    num ← raft_get_num_voting_nodes;
    (if raft_votes_is_majority num votes then raft_become_leader else mret tt) ;;
    mret 0
  else if rvr_vote_granted r =? RAFT_REQUESTVOTE_ERR_NOT_GRANTED then mret 0
  else if rvr_vote_granted r =? RAFT_REQUESTVOTE_ERR_UNKNOWN_NODE then
    my ← raft_get_my_node;
    n ← deref_ptr my;
    if raft_node_is_voting n && (connected (me s.2) =? RAFT_NODE_STATUS_DISCONNECTING)
    then mret RAFT_ERR_SHUTDOWN
    else mret 0
  else throw AssertFailed.

(** Results: the code, the entry as modified by the call, and the response
    ([r] is written only on success). *)
Definition raft_recv_entry (ety : msg_entry_t) (r : msg_entry_response_t) :
    M (raft U) (Z * msg_entry_t * msg_entry_response_t) :=
  s ← get;
  if raft_entry_is_voting_cfg_change ety && raft_voting_change_is_in_progress s then
    mret (RAFT_ERR_ONE_VOTING_CHANGE_ONLY, ety, r)
  else if raft_entry_is_voting_cfg_change ety && negb (raft_is_apply_allowed s) then
    mret (RAFT_ERR_SNAPSHOT_IN_PROGRESS, ety, r)
  else if negb (raft_is_leader s) then mret (RAFT_ERR_NOT_LEADER, ety, r)
  else
    let ety := set_ety_term (current_term (me s.2)) ety in
    e ← raft_append_entry ety;
    if negb (e =? 0) then mret (e, ety, r)
    else
      ps ← nodes_in_use;
      for_each ps (λ p,
        m ← get_me;
        if bool_decide (node m = Some p) then mret tt
        else
          n ← deref p;
          if negb (raft_node_is_active n) || negb (raft_node_is_voting n) then mret tt
          else
            current_idx ← gets raft_get_current_idx;
            if raft_node_get_next_idx n =? current_idx then
              _ ← raft_send_appendentries p; mret tt
            else mret tt) ;;
      num ← raft_get_num_voting_nodes;
      current_idx ← gets raft_get_current_idx;
      (if 1 =? num then raft_set_commit_idx current_idx else mret tt) ;;
      m ← get_me;
      let r := mk_entry_response (ety_id ety) (current_term m) current_idx in
      (if raft_entry_is_voting_cfg_change ety then
         modify_me (set_voting_cfg_change_log_idx current_idx)
       else mret tt) ;;
      mret (0, ety, r).

(** ** Time *)
Definition raft_periodic (msec_since_last_period : Z) : M (raft U) Z :=
  m ← get_me;
  elapsed ← add_int (timeout_elapsed m) msec_since_last_period;
  modify_me (set_timeout_elapsed elapsed) ;;
  num ← raft_get_num_voting_nodes;
  (if 1 =? num then
     my ← raft_get_my_node;
     n ← deref_ptr my;
     s ← get;
     if raft_node_is_voting n && negb (raft_is_leader s) then raft_become_leader else mret tt
   else mret tt) ;;
  s ← get;
  e ← (if bool_decide (state (me s.2) = RAFT_STATE_LEADER) then
         if request_timeout (me s.2) <=? timeout_elapsed (me s.2) then
           _ ← raft_send_appendentries_all; mret 0
         else mret 0
       else if (election_timeout_rand (me s.2) <=? timeout_elapsed (me s.2)) &&
               negb (raft_snapshot_is_in_progress s) then
         num ← raft_get_num_voting_nodes;
         if 1 <? num then
           my ← raft_get_my_node;
           n ← deref_ptr my;
           if raft_node_is_voting n then raft_election_start else mret 0
         else mret 0
       else mret 0 : M (raft U) Z);
  if negb (e =? 0) then mret e
  else
    s ← get;
    if (last_applied_idx (me s.2) <? raft_get_commit_idx s) && raft_is_apply_allowed s then
      raft_apply_all
    else mret 0.

(** ** Snapshots *)
Definition raft_poll_entry : M (raft U) (Z * option raft_entry_t) :=
  r ← log_poll;
  if negb (r.1 =? 0) then mret r
  else assert_ (bool_decide (is_Some r.2)) ;; mret r.

Definition raft_get_first_entry_idx : M (raft U) raft_index_t :=
  s ← get;
  assert_ (0 <? raft_get_current_idx s) ;;
  mret (if snapshot_last_idx (me s.2) =? 0 then 1 else snapshot_last_idx (me s.2)).

Definition raft_get_num_snapshottable_logs (s : raft U) : raft_index_t :=
  if raft_get_log_count s <=? 1 then 0
  else raft_get_commit_idx s - log_get_base s.1.

Definition raft_begin_snapshot (flags : Z) : M (raft U) Z :=
  s ← get;
  if raft_get_num_snapshottable_logs s =? 0 then mret (-1)
  else
    let snapshot_target := raft_get_commit_idx s in
    if snapshot_target =? 0 then mret (-1)
    else
      found ← raft_get_entry_from_idx snapshot_target;
      match found with
      | None => mret (-1)
      | Some ety =>
          e ← raft_apply_all;
          if negb (e =? 0) then mret e
          else
            s ← get;
            assert_ (raft_get_commit_idx s =? raft_get_last_applied_idx s) ;;
            raft_set_snapshot_metadata (ety_term ety) snapshot_target ;;
            modify_me (set_snapshot_in_progress 1) ;;
            modify_me (set_snapshot_flags flags) ;;
            mret 0
      end.

Definition raft_cancel_snapshot : M (raft U) Z :=
  m ← get_me;
  if snapshot_in_progress m =? 0 then mret (-1)
  else
    modify_me (λ m, set_snapshot_in_progress 0
      (set_snapshot_last_term (saved_snapshot_last_term m)
        (set_snapshot_last_idx (saved_snapshot_last_idx m) m))) ;;
    mret 0.

(** The polling loop of [raft_end_snapshot]; any failure is reported as -1. *)
Fixpoint poll_loop (n : nat) : M (raft U) Z :=
  match n with
  | O => mret 0
  | S n =>
      r ← raft_poll_entry;
      if negb (r.1 =? 0) then mret (-1) else poll_loop n
  end.

Definition raft_end_snapshot : M (raft U) Z :=
  s ← get;
  if (snapshot_in_progress (me s.2) =? 0) || (snapshot_last_idx (me s.2) =? 0) then mret (-1)
  else
    assert_ (negb (raft_get_num_snapshottable_logs s =? 0)) ;;
    assert_ (snapshot_last_idx (me s.2) =? raft_get_commit_idx s) ;;
    e ← poll_loop (Z.to_nat (raft_get_num_snapshottable_logs s));
    if negb (e =? 0) then mret e
    else
      modify_me (set_snapshot_in_progress 0) ;;
      s ← get;
      if negb (raft_is_leader s) then mret 0
      else
        ps ← nodes_in_use;
        for_each ps (λ p,
          skip ← skip_peer p;
          if (skip : bool) then mret tt
          else
            n ← deref p;
            m ← get_me;
            c ← get_cb;
            if (0 <? snapshot_last_idx m) && (raft_node_get_next_idx n <? snapshot_last_idx m) then
              match cb_send_snapshot c with
              | Some snap => _ ← call (λ v u, snap v u p); mret tt
              | None => mret tt
              end
            else mret tt) ;;
        mret 0.

(** The loop that deactivates every peer but the server itself; it returns the
    position of the server's own peer. *)
Fixpoint keep_self_loop (ps : list raft_node_t) (i my_node_by_idx : Z) : M (raft U) Z :=
  match ps with
  | [] => mret my_node_by_idx
  | p :: ps =>
      my_id ← raft_get_nodeid;
      n ← deref p;
      if my_id =? raft_node_get_id n then keep_self_loop ps (i + 1) i
      else on_node (Some p) (raft_node_set_active false) ;;
           keep_self_loop ps (i + 1) my_node_by_idx
  end.

Definition raft_begin_load_snapshot (last_included_term : raft_term_t)
    (last_included_index : raft_index_t) : M (raft U) Z :=
  s ← get;
  let m := me s.2 in
  if last_included_index =? -1 then mret (-1)
  else if (last_included_index =? 0) || (last_included_term =? 0) then mret (-1)
  else if last_included_index <? last_applied_idx m then mret (-1)
  else if last_included_index <? raft_get_current_idx s then mret (-1)
  else if (last_included_term =? snapshot_last_term m) && (last_included_index =? snapshot_last_idx m)
  then mret RAFT_ERR_SNAPSHOT_ALREADY_LOADED
  else
    modify_me (λ m, set_voted_for (-1) (set_current_term last_included_term m)) ;;
    raft_set_state RAFT_STATE_FOLLOWER ;;
    modify_me (set_current_leader None) ;;
    _ ← log_load_from_snapshot last_included_index last_included_term;
    s ← get;
    (if raft_get_commit_idx s <? last_included_index then raft_set_commit_idx last_included_index
     else mret tt) ;;
    modify_me (set_last_applied_idx last_included_index) ;;
    raft_set_snapshot_metadata last_included_term last_included_index ;;
    ps ← nodes_in_use;
    my_node_by_idx ← keep_self_loop ps 0 0;
    m ← get_me;
    self ← lift (arr_get (nodes m) my_node_by_idx);
    nodes' ← lift (arr_set (nodes m) 0 self);
    modify_me (λ m, set_num_nodes 1 (set_nodes nodes' m)) ;;
    mret 0.

Definition raft_end_load_snapshot : M (raft U) Z :=
  ps ← nodes_in_use;
  for_each ps (λ p,
    n ← deref p;
    on_node (Some p) (raft_node_set_voting_committed (raft_node_is_voting n)) ;;
    on_node (Some p) (raft_node_set_addition_committed true) ;;
    n ← deref p;
    if raft_node_is_voting n then on_node (Some p) raft_node_set_has_sufficient_logs
    else mret tt) ;;
  mret 0.
End server.

#[global] Typeclasses Opaque raft_get_current_leader raft_get_node_from_idx raft_get_entry_from_idx
  raft_get_entries_from_idx raft_get_last_log_term raft_get_last_applied_entry
  raft_randomize_election_timeout raft_set_election_timeout raft_set_request_timeout
  raft_set_current_term raft_set_commit_idx raft_set_last_applied_idx raft_set_state
  raft_set_snapshot_metadata raft_set_callbacks raft_clear raft_vote_for_nodeid raft_vote
  raft_get_nvotes_for_me raft_send_requestvote raft_send_appendentries skip_peer
  send_appendentries_loop raft_send_appendentries_all raft_become_leader raft_become_candidate
  raft_election_start raft_become_follower raft_append_entry raft_delete_entry_from_idx
  raft_apply_entry apply_loop raft_apply_all raft_msg_entry_response_committed
  raft_recv_appendentries_response ae_match_loop ae_append_loop ae_check ae_entries_step
  raft_recv_appendentries __should_grant_vote raft_recv_requestvote raft_recv_requestvote_response
  raft_recv_entry raft_periodic raft_poll_entry raft_get_first_entry_idx raft_begin_snapshot
  raft_cancel_snapshot poll_loop raft_end_snapshot keep_self_loop raft_begin_load_snapshot
  raft_end_load_snapshot.
