(* ===== verification/RaftRun.v ===== *)
(** * Executions of one server

    The entry points of [include/raft.h] through which an application drives a
    server, as one step type, and executions as sequences of successful steps.
    Every function of the header that changes a server is a constructor, apart from
    those that create, free and configure it ([raft_new], [raft_free],
    [raft_set_callbacks], [raft_set_heap_functions]).  The last group are the raw
    setters with which an application rebuilds a server from storage or compacts its
    log by hand, and [raft_clear], which starts a server's life again: a property that
    does not survive them says so by the operations it allows. *)

From S2P Require Import Prelude RaftTypes RaftNode RaftLog RaftMembership RaftServer.

Inductive raft_op : Type :=
| OpPeriodic (msec : Z)
| OpRecvAppendentries (p : option raft_node_t) (ae : msg_appendentries_t)
| OpRecvAppendentriesResponse (p : option raft_node_t) (r : msg_appendentries_response_t)
| OpRecvRequestvote (p : option raft_node_t) (vr : msg_requestvote_t)
| OpRecvRequestvoteResponse (p : option raft_node_t) (r : msg_requestvote_response_t)
| OpRecvEntry (ety : msg_entry_t) (r : msg_entry_response_t)
| OpApplyAll
| OpBecomeLeader
| OpBecomeFollower
| OpAppendEntry (ety : raft_entry_t)
| OpSetCurrentTerm (term : raft_term_t)
| OpSetCommitIdx (idx : raft_index_t)
| OpAddNode (udata : Z) (id : raft_node_id_t) (is_self : bool)
| OpAddNonVotingNode (udata : Z) (id : raft_node_id_t) (is_self : bool)
| OpRemoveNode (p : option raft_node_t)
| OpSetElectionTimeout (msec : Z)
| OpSetRequestTimeout (msec : Z)
| OpBeginSnapshot (flags : Z)
| OpCancelSnapshot
| OpEndSnapshot
| OpBeginLoadSnapshot (term : raft_term_t) (idx : raft_index_t)
| OpEndLoadSnapshot
| OpVote (p : option raft_node_t)
| OpVoteForNodeid (nodeid : raft_node_id_t)
| OpSetSnapshotMetadata (term : raft_term_t) (idx : raft_index_t)
| OpPollEntry
| OpNodeSetUdata (p : option raft_node_t) (udata : Z)
| OpNodeFlag (p : option raft_node_t) (op : flag_op)
| OpClear.

Section run.
Context {U : Type}.

(** A step's result is the return code; out-parameters are dropped here. *)
Definition run_raft_op (op : raft_op) : M (raft U) Z :=
  match op with
  | OpPeriodic msec => raft_periodic msec
  | OpRecvAppendentries p ae => r ← raft_recv_appendentries p ae; mret r.1
  | OpRecvAppendentriesResponse p r => raft_recv_appendentries_response p r
  | OpRecvRequestvote p vr => r ← raft_recv_requestvote p vr; mret r.1
  | OpRecvRequestvoteResponse p r => raft_recv_requestvote_response p r
  | OpRecvEntry ety r => r ← raft_recv_entry ety r; mret r.1.1
  | OpApplyAll => raft_apply_all
  | OpBecomeLeader => raft_become_leader ;; mret 0
  | OpBecomeFollower => raft_become_follower ;; mret 0
  | OpAppendEntry ety => raft_append_entry ety
  | OpSetCurrentTerm term => raft_set_current_term term
  | OpSetCommitIdx idx => raft_set_commit_idx idx ;; mret 0
  | OpAddNode udata id is_self => raft_add_node udata id is_self ;; mret 0
  | OpAddNonVotingNode udata id is_self => raft_add_non_voting_node udata id is_self ;; mret 0
  | OpRemoveNode p => raft_remove_node p ;; mret 0
  | OpSetElectionTimeout msec => raft_set_election_timeout msec ;; mret 0
  | OpSetRequestTimeout msec => raft_set_request_timeout msec ;; mret 0
  | OpBeginSnapshot flags => raft_begin_snapshot flags
  | OpCancelSnapshot => raft_cancel_snapshot
  | OpEndSnapshot => raft_end_snapshot
  | OpBeginLoadSnapshot term idx => raft_begin_load_snapshot term idx
  | OpEndLoadSnapshot => raft_end_load_snapshot
  | OpVote p => raft_vote p
  | OpVoteForNodeid nodeid => raft_vote_for_nodeid nodeid
  | OpSetSnapshotMetadata term idx => raft_set_snapshot_metadata term idx ;; mret 0
  | OpPollEntry => r ← raft_poll_entry; mret r.1
  | OpNodeSetUdata p udata => on_node p (raft_node_set_udata udata) ;; mret 0
  | OpNodeFlag p op => on_node_o p (run_flag_op op) ;; mret 0
  | OpClear => raft_clear ;; mret 0
  end.

(** One step of a server, and executions of steps that [allowed] admits in the
    state they start in. *)
Inductive raft_step (allowed : raft_op → raft U → Prop) : relation (raft U) :=
| raft_step_op op s code s' :
    allowed op s → run_raft_op op s = Ok (code, s') → raft_step allowed s s'.

Definition execution (allowed : raft_op → raft U → Prop) : relation (raft U) :=
  rtc (raft_step allowed).

(** A preorder every allowed operation preserves relates the ends of an execution. *)
Lemma execution_preserves (R : relation (raft U)) `{!PreOrder R} allowed s s' :
  (∀ op s, allowed op s → wlp (run_raft_op op) (λ _ s', R s s') s) →
  execution allowed s s' → R s s'.
Proof.
  intros Hop. induction 1 as [|? ? s2 [op s code s' Hal Hrun] _ IH]; [reflexivity|].
  trans s'; [|exact IH]. exact (wq_run _ _ _ _ _ _ (Hop op s Hal) Hrun).
Qed.

(** Sequences of operations, executed one after the other. *)
Fixpoint run_raft_ops (ops : list raft_op) : M (raft U) (list Z) :=
  match ops with
  | [] => mret []
  | op :: ops => c ← run_raft_op op; cs ← run_raft_ops ops; mret (c :: cs)
  end.

Lemma run_ops_execution allowed ops s cs s' :
  Forall (λ op, ∀ s, allowed op s) ops → run_raft_ops ops s = Ok (cs, s') → execution allowed s s'.
Proof.
  intros Hall. revert s cs. induction Hall as [|op ops Hop _ IH]; intros s cs.
  - cbn. intros [= <- <-]. apply rtc_refl.
  - cbn. unfold mbind, M_bind. destruct (run_raft_op op s) as [[c s1]|] eqn:E1; [|done].
    destruct (run_raft_ops ops s1) as [[cs1 s2]|] eqn:E2; [|done].
    intros [= <- <-]. eapply rtc_l; [|by eapply IH]. by econstructor.
Qed.
End run.

#[global] Typeclasses Opaque run_raft_op.

(** * A concrete cluster

    A server of a three-server cluster with callbacks that record what they were
    called with, and helpers that run it.  The witnesses of the theorems evaluate
    the model here. *)

(** What the callbacks saw. *)
Inductive event : Type :=
| SentRequestvote (p : raft_node_t) (m : msg_requestvote_t)
| SentAppendentries (p : raft_node_t) (m : msg_appendentries_t)
| SentSnapshot (p : raft_node_t)
| Applied (idx : raft_index_t) (ety : raft_entry_t)
| PersistedVote (id : raft_node_id_t)
| PersistedTerm (term : raft_term_t) (vote : raft_node_id_t).
Abbreviation trace := (list event).

Lemma rand5_range (k : nat) : 0 ≤ 5 ≤ INT_MAX.
Proof. unfold INT_MAX. lia. Qed.
Definition rand5 : random := mk_random (λ _, 5) rand5_range.

Lemma plenty_limit (k : nat) n : (n <=? INT_MAX) = true → n ≤ INT_MAX.
Proof. lia. Qed.
Definition plenty : allocator := mk_allocator (λ _ n, n <=? INT_MAX) plenty_limit.

(** Configuration entries name a peer by their [id]. *)
Definition recording_cbs : raft_cbs_t trace := mk_cbs
  (Some (λ _ u p m, (0, u ++ [SentRequestvote p m])))
  (Some (λ _ u p m, (0, u ++ [SentAppendentries p m])))
  (Some (λ _ u p, (0, u ++ [SentSnapshot p])))
  (Some (λ _ u e i, (0, u ++ [Applied i e])))
  (Some (λ _ u z, (0, u ++ [PersistedVote z])))
  (Some (λ _ u t v, (0, u ++ [PersistedTerm t v])))
  (Some (λ _ u e _, (0, ety_data e, u)))
  (Some (λ _ u e _, (0, ety_data e, u)))
  (Some (λ _ u e _, (0, ety_data e, u)))
  (Some (λ _ u _ _, (0, u)))
  (Some (λ _ u e _, (ety_id e, u)))
  (Some (λ _ u _, (0, u)))
  None.

(** The state [m] returns in; the state it was started in when it does not return. *)
Definition after {A} (m : M (raft trace) A) (s : raft trace) : raft trace :=
  match m s with Ok (_, s') => s' | Fault _ => s end.
Definition result {A} (m : M (raft trace) A) (s : raft trace) : option A :=
  match m s with Ok (a, _) => Some a | Fault _ => None end.

Lemma after_result {A} (m : M (raft trace) A) s a : result m s = Some a → m s = Ok (a, after m s).
Proof. unfold result, after. destruct (m s) as [[]|]; naive_solver. Qed.
Lemma after_execution allowed ops s cs :
  Forall (λ op, ∀ s, allowed op s) ops → result (run_raft_ops ops) s = Some cs →
  execution allowed s (after (run_raft_ops ops) s).
Proof. intros Hall Hr. eapply run_ops_execution; [done|by apply after_result]. Qed.

Definition blank : raft trace :=
  (mk_log 0 0 0 0 0 [] false, mk_host server_zero ∅ 1 no_cbs [] rand5 0 plenty 0).
Definition fresh : raft trace :=
  match raft_new rand5 plenty [] with Ok (Some s) => s | _ => blank end.

(** Server [i] of the cluster with members 1, 2 and 3, just started. *)
Definition boot (i : Z) : raft trace :=
  after (raft_set_callbacks recording_cbs [] ;;
         raft_add_node 0 1 (i =? 1) ;; raft_add_node 0 2 (i =? 2) ;; raft_add_node 0 3 (i =? 3)) fresh.

Definition command (term id : Z) : raft_entry_t := mk_entry term id RAFT_LOGTYPE_NORMAL (mk_data 0 0).

(** Server 1 after it was elected in term 1 with the vote of server 2. *)
Definition elect : list raft_op :=
  [OpPeriodic 2000; OpRecvRequestvoteResponse (Some 2%positive) (mk_requestvote_response 1 1)].
(** ... then took two commands and learnt that server 2 has them ... *)
Definition replicate_two : list raft_op :=
  [OpRecvEntry (command 0 7) (mk_entry_response 0 0 0); OpRecvEntry (command 0 8) (mk_entry_response 0 0 0);
   OpRecvAppendentriesResponse (Some 2%positive) (mk_appendentries_response 1 1 2 1)].
Definition leader : raft trace := after (run_raft_ops elect) (boot 1).
Definition busy_leader : raft trace := after (run_raft_ops replicate_two) leader.

Example leader_elected : raft_is_leader leader = true ∧ raft_get_current_term leader = 1.
Proof. by vm_compute. Qed.
(** ... which commits them. *)
Example leader_commits : raft_get_commit_idx busy_leader = 2 ∧ raft_get_current_idx busy_leader = 2.
Proof. by vm_compute. Qed.
(** The next period applies them in order. *)
Example leader_applies :
  drop (length (udata busy_leader.2)) (udata (after (raft_periodic 10) busy_leader).2) =
  [Applied 1 (command 1 7); Applied 2 (command 1 8)].
Proof. by vm_compute. Qed.

(** Server 2 after two entries of term 1 from server 1, the first one committed. *)
Definition two_entries : msg_appendentries_t :=
  mk_appendentries 1 0 0 1 2 [command 1 7; command 1 8].
Definition follower : raft trace :=
  after (raft_recv_appendentries (Some 1%positive) two_entries) (boot 2).
Example follower_appends :
  raft_get_current_idx follower = 2 ∧ raft_get_commit_idx follower = 1.
Proof. by vm_compute. Qed.
