(* ===== verification/RaftFrame.v ===== *)
(** * What the primitives leave alone

    Most of what a handler does (calling the user, touching peers, drawing
    random numbers, allocating) cannot change the part of the server a property
    is about.  A relation between states is framed by a key of the server struct
    when it only looks at the log and at that key; every primitive then preserves
    it for one reason, given here once, and handlers follow by [pres]. *)

From S2P Require Import Prelude RaftTypes RaftNode RaftLog RaftLogSpec RaftMembership RaftServer.

(** ** Stepping through server code

    [rstep] extends [wstep] with the accesses to the server. *)
Section steps.
Context {U : Type}.
Implicit Types s : raft U.

Lemma wq_get_me F Q s : Q (me s.2) s → wq F get_me Q s.
Proof. done. Qed.
Lemma wq_get_cb F Q s : Q (cb s.2) s → wq F get_cb Q s.
Proof. done. Qed.
Lemma wq_modify_host F f Q s : Q tt (s.1, f s.2) → wq F (modify_host f) Q s.
Proof. done. Qed.
Lemma wq_modify_me F f Q s : Q tt (s.1, set_me (f (me s.2)) s.2) → wq F (modify_me f) Q s.
Proof. done. Qed.
Lemma wq_nodes_in_use F Q s :
  Q (take (Z.to_nat (num_nodes (me s.2))) (nodes (me s.2))) s → wq F nodes_in_use Q s.
Proof. done. Qed.
Lemma wq_deref F p Q s :
  (heap s.2 !! p = None → F UndefinedBehaviour) →
  (∀ n, heap s.2 !! p = Some n → Q n s) → wq F (deref p) Q s.
Proof.
  intros HF HQ. unfold deref. do 2 wstep.
  destruct (heap s.2 !! p) eqn:E; wstep; eauto.
Qed.
Lemma wq_on_node F p f Q s :
  (heap s.2 !! p = None → F UndefinedBehaviour) →
  (∀ n, heap s.2 !! p = Some n → Q tt (s.1, set_heap (<[p := f n]> (heap s.2)) s.2)) →
  wq F (on_node (Some p) f) Q s.
Proof. intros HF HQ. unfold on_node. wstep. apply wq_deref; [done|]. intros n Hn. by apply HQ. Qed.
Lemma wq_set_state F st Q s :
  Q tt (s.1, set_me (set_state st (if bool_decide (st = RAFT_STATE_LEADER)
                                   then set_current_leader (node (me s.2)) (me s.2) else me s.2)) s.2) →
  wq F (raft_set_state st) Q s.
Proof. intros HQ. unfold raft_set_state. wstep. by case_bool_decide. Qed.
(** The randomised timeout lies in the interval from the base timeout to twice it. *)
Lemma wq_randomize F Q s :
  (election_timeout (me s.2) = 0 → F UndefinedBehaviour) →
  (in_int (election_timeout (me s.2) + Z.rem (rand_src s.2 (rand_n s.2)) (election_timeout (me s.2))) = false →
     F UndefinedBehaviour) →
  (∀ t, t = election_timeout (me s.2) + Z.rem (rand_src s.2 (rand_n s.2)) (election_timeout (me s.2)) →
     Q tt (s.1, set_me (set_election_timeout_rand t (me s.2)) (set_rand_n (S (rand_n s.2)) s.2))) →
  wq F raft_randomize_election_timeout Q s.
Proof.
  intros H0 HF HQ. unfold raft_randomize_election_timeout. wstep. apply wq_get_me. wstep.
  unfold c_rand, wq at 1. cbn. destruct (Z.eqb_spec (election_timeout (me s.2)) 0); wstep; [by apply H0|].
  wstep. apply wq_modify_me. by apply HQ.
Qed.
End steps.

Ltac rstep :=
  lazymatch goal with
  | |- wq _ get_me _ _ => apply wq_get_me
  | |- wq _ get_cb _ _ => apply wq_get_cb
  | |- wq _ (modify_host _) _ _ => apply wq_modify_host
  | |- wq _ (modify_me _) _ _ => apply wq_modify_me
  | |- wq _ nodes_in_use _ _ => apply wq_nodes_in_use
  | |- wq _ (deref _) _ _ => apply wq_deref; [try done|intros ? ?]
  | |- wq _ (on_node (Some _) _) _ _ => apply wq_on_node; [try done|intros ? ?]
  | |- wq _ (raft_set_state _) _ _ => apply wq_set_state
  | |- wq _ raft_randomize_election_timeout _ _ => apply wq_randomize; [try done|try done|intros ? ?]
  | |- _ => wstep
  end; cbv beta.

(** Keys that do not see the peer table. *)
Class KeyFrame {K} (key : raft_server_private_t → K) : Prop := {
  kf_nodes v m : key (set_nodes v m) = key m;
  kf_num_nodes v m : key (set_num_nodes v m) = key m;
  kf_node v m : key (set_node v m) = key m
}.

(** [R] is a preorder that only looks at the log and at [key]. *)
Class Framed {U K} (R : relation (raft U)) (key : raft_server_private_t → K) : Prop := {
  framed_preorder :: PreOrder R;
  framed_key :: KeyFrame key;
  framed_same s s' : s.1 = s'.1 → key (me s.2) = key (me s'.2) → R s s'
}.

Section frame.
Context {U K : Type} (R : relation (raft U)) (key : raft_server_private_t → K) `{!Framed R key}.

Lemma frame_modify_host f : (∀ h : host U, me (f h) = me h) → Preserves R (modify_host f).
Proof.
  intros Hf. apply preserves_modify. intros s. apply framed_same; cbn; [done|by rewrite Hf].
Qed.
Lemma frame_modify_me f : (∀ m, key (f m) = key m) → Preserves R (modify_me f).
Proof.
  intros Hf. apply preserves_modify. intros s. apply framed_same; cbn; [done|by rewrite Hf].
Qed.
#[global] Instance frame_store p n : Preserves R (store p n).
Proof. by apply frame_modify_host. Qed.
#[global] Instance frame_free p : Preserves R (raft_node_free p).
Proof. by apply frame_modify_host. Qed.
#[global] Instance frame_deref p : Preserves R (deref p).
Proof. unfold deref. pres. Qed.
#[global] Instance frame_deref_ptr p : Preserves R (deref_ptr p).
Proof. unfold deref_ptr. pres. Qed.
#[global] Instance frame_on_node p f : Preserves R (on_node p f).
Proof. unfold on_node. pres. Qed.
#[global] Instance frame_on_node_o p f : Preserves R (on_node_o p f).
Proof. unfold on_node_o. pres. Qed.
#[global] Instance frame_call f : Preserves R (call f).
Proof.
  intros s. unfold wq, call. destruct (f (view s) (udata s.2)). by apply framed_same.
Qed.
#[global] Instance frame_call_void f : Preserves R (call_void f).
Proof. intros s. unfold wq. cbn. by apply framed_same. Qed.
#[global] Instance frame_c_rand : Preserves R c_rand.
Proof. intros s. unfold wq. cbn. by apply framed_same. Qed.
#[global] Instance frame_c_alloc n : Preserves R (c_alloc n).
Proof. intros s. unfold wq. cbn. by apply framed_same. Qed.
#[global] Instance frame_get_me : Preserves R get_me.
Proof. unfold get_me. apply _. Qed.
#[global] Instance frame_get_cb : Preserves R get_cb.
Proof. unfold get_cb. apply _. Qed.
#[global] Instance frame_nodes_in_use : Preserves R nodes_in_use.
Proof. unfold nodes_in_use. apply _. Qed.

#[global] Instance frame_get_nodeid : Preserves R raft_get_nodeid.
Proof. unfold raft_get_nodeid. pres. Qed.
#[global] Instance frame_find_node ps id : Preserves R (find_node ps id).
Proof. induction ps; cbn [find_node]; pres. Qed.
#[global] Instance frame_get_node id : Preserves R (raft_get_node id).
Proof. unfold raft_get_node. pres. Qed.
#[global] Instance frame_find_my_node ps : Preserves R (find_my_node ps).
Proof. induction ps; cbn [find_my_node]; pres. Qed.
#[global] Instance frame_get_my_node : Preserves R raft_get_my_node.
Proof. unfold raft_get_my_node. pres. Qed.
#[global] Instance frame_num_voting : Preserves R raft_get_num_voting_nodes.
Proof. unfold raft_get_num_voting_nodes. pres. Qed.
#[global] Instance frame_log_get_node_id e i : Preserves R (log_get_node_id e i).
Proof. unfold log_get_node_id. pres. Qed.
#[global] Instance frame_get_entry i : Preserves R (raft_get_entry_from_idx i).
Proof. unfold raft_get_entry_from_idx. pres. Qed.
#[global] Instance frame_get_entries i : Preserves R (raft_get_entries_from_idx i).
Proof. unfold raft_get_entries_from_idx. pres. Qed.

#[local] Hint Extern 1 (Preserves _ (modify_me _)) =>
  apply frame_modify_me; intros; rewrite ?kf_num_nodes, ?kf_nodes, ?kf_num_nodes, ?kf_node; reflexivity : pres.
#[local] Hint Extern 1 (Preserves _ (modify_host _)) =>
  apply frame_modify_host; reflexivity : pres.

#[global] Instance frame_add_node_internal e ud id b : Preserves R (raft_add_node_internal e ud id b).
Proof. unfold raft_add_node_internal. pres. Qed.
#[global] Instance frame_add_node ud id b : Preserves R (raft_add_node ud id b).
Proof. unfold raft_add_node. pres. Qed.
#[global] Instance frame_add_non_voting_internal e ud id b :
  Preserves R (raft_add_non_voting_node_internal e ud id b).
Proof. unfold raft_add_non_voting_node_internal. pres. Qed.
#[global] Instance frame_add_non_voting ud id b : Preserves R (raft_add_non_voting_node ud id b).
Proof. unfold raft_add_non_voting_node. pres. Qed.
#[global] Instance frame_remove_node p : Preserves R (raft_remove_node p).
Proof. unfold raft_remove_node. pres. Qed.
#[global] Instance frame_offer_log e i : Preserves R (raft_offer_log e i).
Proof. unfold raft_offer_log. pres. Qed.
#[global] Instance frame_pop_log e i : Preserves R (raft_pop_log e i).
Proof. unfold raft_pop_log. pres. Qed.
End frame.

#[export] Hint Extern 1 (Preserves _ (modify_me _)) =>
  eapply frame_modify_me; [tc_solve|intros; reflexivity] : pres.
#[export] Hint Extern 1 (Preserves _ (modify_host _)) =>
  eapply frame_modify_host; [tc_solve|reflexivity] : pres.

(** ** The relation between states whose keys are related *)
Lemma as_edit_me {U} (f : func_logentry_edit_f U) e i l h : me (as_edit f e i l h).2 = me h.
Proof. unfold as_edit. by destruct (f _ _ _ _) as [[]]. Qed.

Definition key_rel {U K} (key : raft_server_private_t → K) (RK : relation K) : relation (raft U) :=
  on_host (λ h h', RK (key (me h)) (key (me h'))).

Section key_rel.
Context {U K : Type} (key : raft_server_private_t → K) (RK : relation K).
Context `{!PreOrder RK} `{!KeyFrame key}.

#[global] Instance key_rel_framed : Framed (key_rel (U := U) key RK) key.
Proof.
  split; [|apply _|].
  - unfold key_rel. apply on_host_preorder. split.
    + intros h. reflexivity.
    + intros h1 h2 h3 H1 H2. by trans (key (me h2)).
  - intros s s' _ Hkey. unfold key_rel, on_host. by rewrite Hkey.
Qed.

(** The server's hooks respect it, hence so does every operation of the log. *)
#[global] Instance key_rel_hooks : HookRel (H := host U) (λ h h', RK (key (me h)) (key (me h'))).
Proof.
  split.
  - split; [intros h; reflexivity|]. intros h1 h2 h3 H1 H2. by trans (key (me h2)).
  - intros n h. reflexivity.
  - intros h f Hf e i l h'. apply fmap_Some in Hf as (g & _ & ->). rewrite as_edit_me. reflexivity.
  - intros h f Hf e i l h'. apply fmap_Some in Hf as (g & _ & ->). rewrite as_edit_me. reflexivity.
  - intros h f Hf e i l h'. apply fmap_Some in Hf as (g & _ & ->). rewrite as_edit_me. reflexivity.
  - intros h f Hf e i l h'. apply fmap_Some in Hf as (g & _ & ->). reflexivity.
  - intros e i l h h'. change (lh_offer_log e i l h) with (as_hook (raft_offer_log e i) l h).
    unfold as_hook. destruct (raft_offer_log e i (l, h)) as [[[] [l' h'']]|] eqn:E; [|done].
    intros [= <-]. exact (preserves_run (key_rel key RK) _ _ _ _ E).
  - intros e i l h h'. change (lh_pop_log e i l h) with (as_hook (raft_pop_log e i) l h).
    unfold as_hook. destruct (raft_pop_log e i (l, h)) as [[[] [l' h'']]|] eqn:E; [|done].
    intros [= <-]. exact (preserves_run (key_rel key RK) _ _ _ _ E).
Qed.

#[global] Instance key_rel_append ety : Preserves (key_rel (U := U) key RK) (log_append_entry ety).
Proof. apply (hooks_append (λ h h' : host U, RK (key (me h)) (key (me h')))). Qed.
#[global] Instance key_rel_delete idx : Preserves (key_rel (U := U) key RK) (log_delete idx).
Proof. apply (hooks_delete (λ h h' : host U, RK (key (me h)) (key (me h')))). Qed.
#[global] Instance key_rel_poll : Preserves (key_rel (U := U) key RK) log_poll.
Proof. apply (hooks_log_poll (λ h h' : host U, RK (key (me h)) (key (me h')))). Qed.
#[global] Instance key_rel_clear_entries : Preserves (key_rel (U := U) key RK) log_clear_entries.
Proof. apply (hooks_clear_entries (λ h h' : host U, RK (key (me h)) (key (me h')))). Qed.
#[global] Instance key_rel_load idx term :
  Preserves (key_rel (U := U) key RK) (log_load_from_snapshot idx term).
Proof. apply (hooks_load (λ h h' : host U, RK (key (me h)) (key (me h')))). Qed.
#[global] Instance key_rel_modify_log f : Preserves (key_rel (U := U) key RK) (modify_log f).
Proof. intros s. unfold key_rel, on_host. cbn. reflexivity. Qed.
End key_rel.

(** ** The relation that keeps the log and a key *)
Definition same_rel {U K} (key : raft_server_private_t → K) : relation (raft U) :=
  λ s s', s.1 = s'.1 ∧ key (me s.2) = key (me s'.2).

#[global] Instance same_rel_framed {U K} (key : raft_server_private_t → K) :
  KeyFrame key → Framed (same_rel (U := U) key) key.
Proof.
  intros Hk. split; [|done|done]. split.
  - done.
  - intros s1 s2 s3 [? ?] [? ?]. split; congruence.
Qed.

(** What role changes, sends and timers never touch. *)
Definition core_key (m : raft_server_private_t) :=
  (current_term m, voted_for m, commit_idx m, last_applied_idx m,
   (snapshot_last_idx m, snapshot_last_term m, snapshot_in_progress m, snapshot_flags m,
    saved_snapshot_last_idx m, saved_snapshot_last_term m)).

#[global] Instance core_key_frame : KeyFrame core_key.
Proof. by split. Qed.

Section core.
Context {U : Type} (R : relation (raft U)) `{!Framed R core_key}.
Abbreviation Core m := (Preserves R m).

#[global] Instance core_randomize : Core raft_randomize_election_timeout.
Proof. unfold raft_randomize_election_timeout. pres. Qed.
#[global] Instance core_set_state st : Core (raft_set_state st).
Proof. unfold raft_set_state. pres. Qed.
#[global] Instance core_become_follower : Core raft_become_follower.
Proof. unfold raft_become_follower. pres. Qed.
#[global] Instance core_get_last_log_term : Core raft_get_last_log_term.
Proof. unfold raft_get_last_log_term. pres. Qed.
#[global] Instance core_send_requestvote p : Core (raft_send_requestvote p).
Proof. unfold raft_send_requestvote. pres. Qed.
#[global] Instance core_send_appendentries p : Core (raft_send_appendentries p).
Proof. unfold raft_send_appendentries. pres. Qed.
#[global] Instance core_skip_peer p : Core (skip_peer p).
Proof. unfold skip_peer. pres. Qed.
#[global] Instance core_send_loop ps : Core (send_appendentries_loop ps).
Proof. induction ps; cbn [send_appendentries_loop]; pres. Qed.
#[global] Instance core_send_all : Core raft_send_appendentries_all.
Proof. unfold raft_send_appendentries_all. pres. Qed.
#[global] Instance core_become_leader : Core raft_become_leader.
Proof. unfold raft_become_leader. pres. Qed.
#[global] Instance core_nvotes : Core raft_get_nvotes_for_me.
Proof. unfold raft_get_nvotes_for_me. pres. Qed.
#[global] Instance core_end_load_snapshot : Core raft_end_load_snapshot.
Proof. unfold raft_end_load_snapshot. pres. Qed.
#[global] Instance core_keep_self ps i j : Core (keep_self_loop ps i j).
Proof. revert i j. induction ps; intros i j; cbn [keep_self_loop]; pres. Qed.
End core.

(** ** Computations that do not change the state *)
Section read_only.
Context {U : Type}.
Abbreviation ReadOnly m := (Preserves (S := raft U) eq m).

#[global] Instance ro_get_me : ReadOnly get_me.
Proof. unfold get_me. pres. Qed.
#[global] Instance ro_get_cb : ReadOnly get_cb.
Proof. unfold get_cb. pres. Qed.
#[global] Instance ro_deref p : ReadOnly (deref p).
Proof. unfold deref. pres. Qed.
#[global] Instance ro_deref_ptr p : ReadOnly (deref_ptr p).
Proof. unfold deref_ptr. pres. Qed.
#[global] Instance ro_nodes_in_use : ReadOnly nodes_in_use.
Proof. unfold nodes_in_use. pres. Qed.
#[global] Instance ro_get_nodeid : ReadOnly raft_get_nodeid.
Proof. unfold raft_get_nodeid. pres. Qed.
#[global] Instance ro_find_node ps id : ReadOnly (find_node ps id).
Proof. induction ps; cbn [find_node]; pres. Qed.
#[global] Instance ro_get_node id : ReadOnly (raft_get_node id).
Proof. unfold raft_get_node. pres. Qed.
#[global] Instance ro_find_my_node ps : ReadOnly (find_my_node ps).
Proof. induction ps; cbn [find_my_node]; pres. Qed.
#[global] Instance ro_get_my_node : ReadOnly raft_get_my_node.
Proof. unfold raft_get_my_node. pres. Qed.
#[global] Instance ro_num_voting : ReadOnly raft_get_num_voting_nodes.
Proof. unfold raft_get_num_voting_nodes. pres. Qed.
#[global] Instance ro_nvotes : ReadOnly raft_get_nvotes_for_me.
Proof. unfold raft_get_nvotes_for_me. pres. Qed.
#[global] Instance ro_get_entry i : ReadOnly (raft_get_entry_from_idx i).
Proof. unfold raft_get_entry_from_idx. pres. Qed.
#[global] Instance ro_get_entries i : ReadOnly (raft_get_entries_from_idx i).
Proof. unfold raft_get_entries_from_idx. pres. Qed.
#[global] Instance ro_last_log_term : ReadOnly raft_get_last_log_term.
Proof. unfold raft_get_last_log_term. pres. Qed.
#[global] Instance ro_skip_peer p : ReadOnly (skip_peer p).
Proof. unfold skip_peer. pres. Qed.
#[global] Instance ro_should_grant_vote vr : ReadOnly (__should_grant_vote vr).
Proof. unfold __should_grant_vote. pres. Qed.

(** A read-only step in a correctness proof keeps the state. *)
Lemma wlp_read_only {A} (m : M (raft U) A) `{!ReadOnly m} (Q : A → raft U → Prop) s :
  (∀ a, m s = Ok (a, s) → Q a s) → wlp m Q s.
Proof.
  intros HQ. apply wlp_iff. intros a s' Hrun.
  pose proof (preserves_run eq m s a s' Hrun) as <-. by apply HQ.
Qed.
(** A read-only step before a preserved relation. *)
Lemma preserves_read_only (R : relation (raft U)) `{!PreOrder R} {A} (m : M (raft U) A) :
  ReadOnly m → Preserves R m.
Proof. intros Hm s. eapply wq_mono; [apply Hm|]. intros ? ? ->. reflexivity. Qed.
End read_only.

#[export] Hint Extern 5 (Preserves _ _) => notypeclasses refine (preserves_read_only _ _ _); [tc_solve|tc_solve] : pres.

(** ** Computations that only call the user

    Sending, and asking the user anything, changes at most the user data. *)
Definition quiet_rel {U} : relation (raft U) := λ s s',
  s.1 = s'.1 ∧ me s.2 = me s'.2 ∧ heap s.2 = heap s'.2 ∧ cb s.2 = cb s'.2.

#[global] Instance quiet_preorder {U} : PreOrder (quiet_rel (U := U)).
Proof.
  split.
  - by intros s.
  - intros s1 s2 s3 (?&?&?&?) (?&?&?&?). split_and!; congruence.
Qed.

Section quiet.
Context {U : Type}.
Abbreviation Quiet m := (Preserves (S := raft U) quiet_rel m).

#[global] Instance quiet_call f : Quiet (call f).
Proof. intros s. unfold wq, call. by destruct (f (view s) (udata s.2)). Qed.
#[global] Instance quiet_call_void f : Quiet (call_void f).
Proof. by intros s. Qed.
#[global] Instance quiet_log_get_node_id e i : Quiet (log_get_node_id e i).
Proof. unfold log_get_node_id. pres. Qed.
#[global] Instance quiet_send_requestvote p : Quiet (raft_send_requestvote p).
Proof. unfold raft_send_requestvote. pres. Qed.
#[global] Instance quiet_send_appendentries p : Quiet (raft_send_appendentries p).
Proof. unfold raft_send_appendentries. pres. Qed.
#[global] Instance quiet_send_loop ps : Quiet (send_appendentries_loop ps).
Proof. induction ps; cbn [send_appendentries_loop]; pres. Qed.

(** They preserve every relation that does not look at the user data. *)
Lemma preserves_quiet (R : relation (raft U)) {A} (m : M (raft U) A) :
  (∀ s s', quiet_rel s s' → R s s') → Quiet m → Preserves R m.
Proof. intros HR Hm s. eapply wq_mono; [apply Hm|]. intros a s' Hq. by apply HR. Qed.
End quiet.
