(* ===== verification/RaftQuorum.v ===== *)
(** * Majorities

    Which peers vote, whose votes a candidate has, and which peers hold an index;
    the counting loops of the code against these sets; a candidate becomes leader
    and a leader commits only on a majority; two majorities share a member. *)

From S2P Require Import Prelude RaftTypes RaftNode RaftLog RaftLogSpec RaftMembership RaftServer RaftRun RaftFrame RaftElection.

(** ** Sets of peers *)
Section sets.
Context {U : Type}.
Implicit Types s : raft U.

Definition peers s : list raft_node_t := take (Z.to_nat (num_nodes (me s.2))) (nodes (me s.2)).
Definition peer_test (f : raft_node_private_t → bool) s (p : raft_node_t) : bool :=
  match heap s.2 !! p with Some n => f n | None => false end.
Definition is_voter (n : raft_node_private_t) : bool := raft_node_is_active n && raft_node_is_voting n.
Definition other s (p : raft_node_t) : bool := bool_decide (node (me s.2) ≠ Some p).

Definition voters s : list raft_node_t := filter (λ p, peer_test is_voter s p = true) (peers s).
(** Voting peers, the server itself aside, that are marked as having voted for it. *)
Definition supporters s : list raft_node_t :=
  filter (λ p, other s p && peer_test (λ n, is_voter n && raft_node_has_vote_for_me n) s p = true) (peers s).
(** Voting peers, the server itself aside, known to hold the log up to [idx]. *)
Definition holders (idx : raft_index_t) s : list raft_node_t :=
  filter (λ p, other s p && peer_test (λ n, is_voter n && (idx <=? raft_node_get_match_idx n)) s p = true) (peers s).
Definition own_id s : raft_node_id_t :=
  match node (me s.2) with
  | Some p => match heap s.2 !! p with Some n => nd_id n | None => -1 end
  | None => -1
  end.

(** ** The counting loops *)
Lemma deref_test f p s : wlp (n ← deref p; mret (f n)) (λ b s', s' = s ∧ b = peer_test f s p) s.
Proof.
  unfold deref, peer_test. do 3 wstep. destruct (heap s.2 !! p); [|by wstep]. by do 2 wstep.
Qed.
Lemma num_voting_spec s :
  wlp raft_get_num_voting_nodes (λ n s', s' = s ∧ n = Z.of_nat (length (voters s))) s.
Proof.
  unfold raft_get_num_voting_nodes, nodes_in_use. do 2 wstep.
  apply wlp_count_if. intros p. apply deref_test.
Qed.
Lemma get_nodeid_spec s : wlp raft_get_nodeid (λ id s', s' = s ∧ id = own_id s) s.
Proof.
  unfold raft_get_nodeid, own_id, get_me, deref. do 2 wstep.
  destruct (node (me s.2)) as [p|]; [|by wstep]. do 3 wstep.
  destruct (heap s.2 !! p); by do 2 wstep.
Qed.
Lemma nvotes_spec s :
  wlp raft_get_nvotes_for_me (λ n s', s' = s ∧
    n = Z.of_nat (length (supporters s)) + (if voted_for (me s.2) =? own_id s then 1 else 0)) s.
Proof.
  unfold raft_get_nvotes_for_me, nodes_in_use, get_me. do 5 wstep.
  eapply wq_mono; [apply (wlp_count_if (λ p, other s p && peer_test (λ n, is_voter n && raft_node_has_vote_for_me n) s p))|].
  - intros p. unfold other. case_bool_decide; [apply deref_test|by wstep].
  - intros n s1 [-> ->]. wstep. eapply wq_mono; [apply get_nodeid_spec|].
    intros id s2 [-> ->]. wstep. split; [done|]. destruct (_ =? _); unfold supporters, peers; lia.
Qed.
Lemma count_holders_spec m idx s :
  m = me s.2 →
  wlp (count_if (peers s) (λ q,
         if bool_decide (node m ≠ Some q) then
           n ← deref q;
           mret (raft_node_is_active n && raft_node_is_voting n && (idx <=? raft_node_get_match_idx n))
         else mret false))
    (λ n s', s' = s ∧ n = Z.of_nat (length (holders idx s))) s.
Proof.
  intros ->. apply (wlp_count_if (λ p, other s p && peer_test (λ n, is_voter n && (idx <=? raft_node_get_match_idx n)) s p)).
  intros p. unfold other. case_bool_decide; [apply deref_test|by wstep].
Qed.
End sets.

(** ** What leaves the ballot alone *)
Section ballot.
Context {U : Type}.

(** Everything the vote count reads. *)
Definition ballot (s : raft U) :=
  (peers s, node (me s.2), voted_for (me s.2), (λ n, (nd_flags n, nd_id n)) <$> heap s.2).
Definition ballot_rel : relation (raft U) := λ s s', ballot s = ballot s'.
#[global] Instance ballot_preorder : PreOrder ballot_rel.
Proof. unfold ballot_rel. split; [by intros s|]. intros s1 s2 s3. congruence. Qed.

Lemma ballot_peer_test f s s' p :
  (∀ n n', nd_flags n = nd_flags n' → nd_id n = nd_id n' → f n = f n') →
  ballot_rel s s' → peer_test f s p = peer_test f s' p.
Proof.
  intros Hf [= _ _ _ Hh]. unfold peer_test.
  assert ((λ n, (nd_flags n, nd_id n)) <$> (heap s.2 !! p) = (λ n, (nd_flags n, nd_id n)) <$> (heap s'.2 !! p)) as E
    by (by rewrite <- !lookup_fmap, Hh).
  destruct (heap s.2 !! p), (heap s'.2 !! p); cbn in E; simplify_eq; auto.
Qed.
Lemma is_voter_flags n n' : nd_flags n = nd_flags n' → is_voter n = is_voter n'.
Proof.
  intros E. unfold is_voter, raft_node_is_active, raft_node_is_voting, has_flag. by rewrite E.
Qed.
Lemma ballot_sets s s' :
  ballot_rel s s' → voters s = voters s' ∧ supporters s = supporters s' ∧ own_id s = own_id s'.
Proof.
  intros Hb. pose proof Hb as [= Hp Hn Hv Hh]. unfold voters, supporters, other, own_id. rewrite Hp, Hn. split_and!.
  - apply list_filter_iff. intros p. rewrite (ballot_peer_test _ s s' p); [done| |done].
    intros n n' E _. by apply is_voter_flags.
  - apply list_filter_iff. intros p. rewrite (ballot_peer_test _ s s' p); [done| |done].
    intros n n' E _. rewrite (is_voter_flags n n' E). unfold raft_node_has_vote_for_me, has_flag. by rewrite E.
  - destruct (node (me s'.2)) as [p|]; [|done].
    assert (snd <$> ((λ n, (nd_flags n, nd_id n)) <$> heap s.2 !! p) = snd <$> ((λ n, (nd_flags n, nd_id n)) <$> heap s'.2 !! p)) as E
      by (by rewrite <- !lookup_fmap, Hh).
    destruct (heap s.2 !! p), (heap s'.2 !! p); cbn in E; simplify_eq; auto.
Qed.

Lemma ballot_quiet s s' : quiet_rel s s' → ballot_rel s s'.
Proof. intros (_ & Hm & Hh & _). unfold ballot_rel, ballot, peers. by rewrite Hm, Hh. Qed.
Lemma ballot_on_node p f :
  (∀ n, nd_flags (f n) = nd_flags n) → (∀ n, nd_id (f n) = nd_id n) →
  Preserves ballot_rel (on_node p f).
Proof.
  intros Hf Hi s. unfold on_node, deref, store, modify_host. destruct p as [p|]; [|by wstep].
  do 3 wstep. destruct (heap s.2 !! p) as [n|] eqn:E; [|by wstep]. do 2 wstep.
  unfold ballot_rel, ballot, peers. cbn. rewrite fmap_insert, Hf, Hi. repeat f_equal.
  symmetry. apply insert_id. by rewrite lookup_fmap, E.
Qed.
Lemma ballot_modify_me f :
  (∀ m, node (f m) = node m ∧ voted_for (f m) = voted_for m ∧ nodes (f m) = nodes m ∧ num_nodes (f m) = num_nodes m) →
  Preserves ballot_rel (modify_me f).
Proof.
  intros Hf s. unfold modify_me, modify_host. wstep. unfold ballot_rel, ballot, peers. cbn.
  destruct (Hf (me s.2)) as (-> & -> & -> & ->). done.
Qed.
#[local] Hint Extern 1 (Preserves ballot_rel (modify_me _)) => apply ballot_modify_me; done : pres.
#[local] Hint Extern 1 (Preserves ballot_rel (on_node _ _)) => apply ballot_on_node; done : pres.
#[local] Hint Extern 2 (Preserves ballot_rel _) => apply (preserves_quiet _ _ ballot_quiet); tc_solve : pres.

#[global] Instance ballot_become_leader : Preserves ballot_rel raft_become_leader.
Proof. unfold raft_become_leader, raft_set_state. pres. Qed.
End ballot.

(** ** Becoming leader *)
Section leader.
Context {U : Type}.
Implicit Types s : raft U.

Lemma become_follower_state s : wlp raft_become_follower (λ _ s', state (me s'.2) = RAFT_STATE_FOLLOWER) s.
Proof.
  unfold raft_become_follower. by do 5 rstep.
Qed.

Lemma majority_true num votes :
  0 ≤ num → raft_votes_is_majority num votes = true ↔ num < 2 * votes ∧ votes ≤ num.
Proof.
  intros Hn. unfold raft_votes_is_majority. destruct (Z.ltb_spec num votes); [lia|].
  rewrite Z.leb_le, Z.quot_div_nonneg by lia.
  pose proof (Z.div_mod num 2). pose proof (Z.mod_pos_bound num 2). lia.
Qed.

(** A server that was not leader and is after the call has received, as
    candidate, a vote of its current term that completes a majority. *)
Lemma recv_requestvote_response_leader p r s :
  raft_is_leader s = false →
  wlp (raft_recv_requestvote_response p r) (λ _ s', raft_is_leader s' = true →
    raft_is_candidate s = true ∧ rvr_term r = raft_get_current_term s ∧ rvr_vote_granted r = 1 ∧
    Z.of_nat (length (voters s')) <
      2 * (Z.of_nat (length (supporters s')) + if voted_for (me s'.2) =? own_id s' then 1 else 0)) s.
Proof.
  intros Hnl. unfold raft_recv_requestvote_response. do 2 rstep.
  wsplit; [rstep; by rewrite Hnl|]. bool_prop. wsplit; bool_prop.
  { rstep. eapply wq_mono; [apply set_current_term_spec|]. intros e s1 (_ & _ & _ & _ & Hme).
    wsplit; rstep.
    - unfold raft_is_leader, raft_get_state in *. rewrite Hme. destruct (_ && _); cbn; by rewrite Hnl.
    - eapply wq_mono; [apply become_follower_state|]. intros [] s2 Hst. do 3 rstep.
      unfold raft_is_leader, raft_get_state. cbn. by rewrite Hst. }
  wsplit; bool_prop; [rstep; by rewrite Hnl|]. wsplit; bool_prop.
  { rstep. eapply wq_mono with (P := λ _ s1, state (me s1.2) = state (me s.2)).
    { destruct p; [|by rstep]. by rstep. }
    intros [] s1 Hst. do 1 rstep. eapply wq_mono; [apply nvotes_spec|]. intros votes s2 [-> ->].
    rstep. eapply wq_mono; [apply num_voting_spec|]. intros num s3 [-> ->]. rstep.
    destruct (raft_votes_is_majority _ _) eqn:Hmaj.
    - eapply wq_mono; [apply ballot_become_leader|]. intros [] s2 Hb. rstep. intros _.
      split_and!; try done.
      apply majority_true in Hmaj as [Hmaj _]; [|lia].
      destruct (ballot_sets _ _ Hb) as (<- & <- & <-). injection Hb as _ _ <- _. done.
    - do 2 rstep. unfold raft_is_leader, raft_get_state in *. rewrite Hst. by rewrite Hnl. }
  wsplit; [rstep; by rewrite Hnl|]. wsplit; [|by rstep].
  rstep. apply (wlp_read_only _). intros my _. rstep. apply (wlp_read_only _). intros n _.
  wsplit; rstep; by rewrite Hnl.
Qed.
End leader.

Section response.
Context {U : Type}.
Implicit Types s : raft U.

(** A response of no later term changes neither the log nor any persistent field. *)
Lemma recv_requestvote_response_core p r s :
  rvr_term r ≤ raft_get_current_term s →
  wlp (raft_recv_requestvote_response p r) (λ _ s', same_rel core_key s s') s.
Proof.
  intros Hle. unfold raft_recv_requestvote_response. do 2 rstep.
  wsplit; [by rstep|]. wsplit; bool_prop; [lia|].
  match goal with |- wq _ ?m _ _ => assert (Preserves (same_rel core_key) m) as Hp by pres end.
  apply Hp.
Qed.
End response.

(** C20: handling a vote response, a server that was not leader becomes leader only
    when it was a candidate, the response grants a vote in the server's current
    term, and the voting peers marked as supporters, with the server's own vote,
    are more than half of the voting peers; term, vote, log and commit index are
    those of before. *)
Theorem leader_needs_majority {U} (p : option raft_node_t) (r : msg_requestvote_response_t)
    (s s' : raft U) (e : Z) :
  raft_recv_requestvote_response p r s = Ok (e, s') →
  raft_is_leader s = false → raft_is_leader s' = true →
  raft_is_candidate s = true ∧ rvr_term r = raft_get_current_term s ∧ rvr_vote_granted r = 1 ∧
  Z.of_nat (length (voters s')) <
    2 * (Z.of_nat (length (supporters s')) + if voted_for (me s'.2) =? own_id s' then 1 else 0) ∧
  s'.1 = s.1 ∧ core_key (me s'.2) = core_key (me s.2).
Proof.
  intros Hrun Hnl Hl.
  pose proof (wq_run _ _ _ _ _ _ (recv_requestvote_response_leader p r s Hnl) Hrun Hl) as (? & Ht & ? & ?).
  assert (rvr_term r ≤ raft_get_current_term s) as Hle by lia.
  destruct (wq_run _ _ _ _ _ _ (recv_requestvote_response_core p r s Hle) Hrun).
  by split_and!.
Qed.

Definition candidate : raft trace := after (raft_periodic 2000) (boot 1).
Definition granted : msg_requestvote_response_t := mk_requestvote_response 1 1.
Lemma leader_needs_majority_witness :
  raft_is_candidate candidate = true ∧
  length (voters (after (raft_recv_requestvote_response (Some 2%positive) granted) candidate)) = 3%nat ∧
  Z.of_nat (length (voters (after (raft_recv_requestvote_response (Some 2%positive) granted) candidate))) <
    2 * (Z.of_nat (length (supporters (after (raft_recv_requestvote_response (Some 2%positive) granted) candidate))) + 1).
Proof.
  destruct (leader_needs_majority (Some 2%positive) granted candidate
    (after (raft_recv_requestvote_response (Some 2%positive) granted) candidate) 0) as (Hc & _ & _ & Hm & _).
  - apply after_result. vm_compute. reflexivity.
  - vm_compute. reflexivity.
  - vm_compute. reflexivity.
  - split; [exact Hc|]. split; [vm_compute; reflexivity|]. exact Hm.
Defined.

(** ** Majorities intersect *)
Lemma sublists_intersect (vs a b : list raft_node_t) :
  NoDup a → NoDup b → a ⊆ vs → b ⊆ vs → (length vs < length a + length b)%nat → ∃ p, p ∈ a ∧ p ∈ b.
Proof.
  intros Ha Hb Hav Hbv Hlen.
  destruct (decide (Exists (λ p, p ∈ b) a)) as [He|Hne].
  { apply Exists_exists in He as (p & ? & ?). eauto. }
  exfalso. enough (length (a ++ b) ≤ length vs)%nat by (rewrite length_app in *; lia).
  apply submseteq_length, NoDup_submseteq; [|set_solver].
  apply NoDup_app. split_and!; [done| |done]. intros p Hpa Hpb. apply Hne, Exists_exists. eauto.
Qed.

(** [raft_votes_is_majority] is a quorum test: any two sets of peers, drawn
    from the same voting peers, that both pass it have a member in common.  (With
    one vote per term, no two candidates can both collect a majority in a term.) *)
Theorem majorities_intersect (vs a b : list raft_node_t) :
  NoDup a → NoDup b → a ⊆ vs → b ⊆ vs →
  raft_votes_is_majority (Z.of_nat (length vs)) (Z.of_nat (length a)) = true →
  raft_votes_is_majority (Z.of_nat (length vs)) (Z.of_nat (length b)) = true →
  ∃ p, p ∈ a ∧ p ∈ b.
Proof.
  intros Ha Hb Hav Hbv [Ma _]%majority_true [Mb _]%majority_true; [|lia..].
  apply (sublists_intersect vs); auto. lia.
Qed.

Lemma majorities_intersect_witness : ∃ p : raft_node_t, p ∈ [1; 2]%positive ∧ p ∈ [2; 3]%positive.
Proof.
  apply (majorities_intersect [1; 2; 3]%positive); [| |set_solver|set_solver|reflexivity|reflexivity];
    apply (bool_decide_unpack _); vm_compute; exact I.
Defined.

(** ** Committing *)
Section commit.
Context {U : Type}.
Implicit Types s : raft U.

(** Why a leader moved its commit index: [point] is held by a majority and is an
    entry of the leader's own term. *)
Definition commit_justified (point : raft_index_t) (s s' : raft U) : Prop :=
  commit_idx (me s'.2) = point ∧ commit_idx (me s.2) < point ≤ raft_get_current_idx s' ∧
  (∃ ety, log_get_at_idx s'.1 point = Ok (Some ety) ∧ ety_term ety = current_term (me s'.2)) ∧
  Z.of_nat (length (voters s')) < 2 * (1 + Z.of_nat (length (holders point s'))).

Definition commit_post (point : raft_index_t) (s s' : raft U) : Prop :=
  s'.1 = s.1 ∧ (commit_idx (me s'.2) = commit_idx (me s.2) ∨ commit_justified point s s').

Lemma commit_post_quiet point s s1 s2 : commit_post point s s1 → quiet_rel s1 s2 → commit_post point s s2.
Proof.
  intros [Hl Hc] (Hl2 & Hm & Hh & _). split; [congruence|].
  unfold commit_justified, raft_get_current_idx, voters, holders, peers, other, peer_test in *.
  rewrite <- Hl2, <- Hm, <- Hh. done.
Qed.
Lemma commit_post_same point s s' :
  same_rel commit_idx s s' → commit_post point s s' ∧ commit_idx (me s'.2) = commit_idx (me s.2).
Proof. intros [Hl Hc]. split; [|done]. split; [done|]. by left. Qed.

#[local] Instance commit_idx_frame : KeyFrame commit_idx.
Proof. by split. Qed.
#[local] Instance same_commit_core : Framed (U := U) (same_rel commit_idx) core_key.
Proof. split; [apply _|apply _|]. intros s s' Hl [=]. by split. Qed.
#[local] Instance commit_set_current_term t : Preserves (S := raft U) (same_rel commit_idx) (raft_set_current_term t).
Proof.
  intros s. eapply wq_mono; [apply set_current_term_spec|]. intros e s' (Hl & _ & _ & _ & Hm).
  split; [done|]. rewrite Hm. by destruct (_ && _).
Qed.

(** The test on [point] and the assignment, in the state [s1] in which the
    peer's progress has been recorded. *)
Lemma commit_step_spec point s s1 :
  s1.1 = s.1 → commit_idx (me s1.2) = commit_idx (me s.2) →
  wlp (if negb (point =? 0) then
         ety ← raft_get_entry_from_idx point;
         m ← get_me;
         if commit_idx m <? point then
           match ety with
           | None => throw UndefinedBehaviour
           | Some ety =>
               if ety_term ety =? current_term m then
                 ps ← nodes_in_use;
                 others ← count_if ps (λ q,
                   if bool_decide (node m ≠ Some q) then
                     n ← deref q;
                     mret (raft_node_is_active n && raft_node_is_voting n &&
                           (point <=? raft_node_get_match_idx n))
                   else mret false);
                 let votes := 1 + others in
                 num ← raft_get_num_voting_nodes;
                 if Z.quot num 2 <? votes then raft_set_commit_idx point else mret tt
               else mret tt
           end
         else mret tt
       else mret tt) (λ _ s', commit_post point s s') s1.
Proof.
  intros Hl Hc. assert (commit_post point s s1) as Hid by (split; [done|by left]).
  wsplit; [|by rstep]. unfold raft_get_entry_from_idx. do 4 rstep.
  rename a into found. do 2 rstep. wsplit; [|by rstep]. destruct found as [ety|]; [|by rstep].
  wsplit; [|by rstep]. bool_prop. do 3 rstep. eapply wq_mono; [by apply count_holders_spec|].
  intros others s2 [-> ->]. rstep. eapply wq_mono; [apply num_voting_spec|]. intros num s2 [-> ->].
  wsplit; [|by rstep]. bool_prop. unfold raft_set_commit_idx. do 7 rstep. bool_prop.
  split; [done|right]. split_and!; cbn; try lia; [done|eauto|].
  rewrite Z.quot_div_nonneg in * by lia.
  pose proof (Z.div_mod (Z.of_nat (length (voters s1))) 2).
  pose proof (Z.mod_pos_bound (Z.of_nat (length (voters s1))) 2).
  change (Z.of_nat (length (voters s1)) < 2 * (1 + Z.of_nat (length (holders point s1)))). lia.
Qed.

Lemma recv_appendentries_response_commit p r s :
  wlp (raft_recv_appendentries_response p r) (λ _ s', commit_post (aer_current_idx r) s s' ∧
    (commit_idx (me s'.2) ≠ commit_idx (me s.2) →
       raft_is_leader s = true ∧ aer_term r = current_term (me s.2) ∧ aer_success r ≠ 0)) s.
Proof.
  assert (∀ s', same_rel commit_idx s s' → commit_post (aer_current_idx r) s s' ∧
    (commit_idx (me s'.2) ≠ commit_idx (me s.2) →
       raft_is_leader s = true ∧ aer_term r = current_term (me s.2) ∧ aer_success r ≠ 0)) as Hsame.
  { intros s' [? Hc]%(commit_post_same (aer_current_idx r)). by split. }
  unfold raft_recv_appendentries_response. destruct p as [p|]; [|rstep; by apply Hsame]. do 2 rstep.
  wsplit; [rstep; by apply Hsame|]. wsplit.
  { match goal with |- wq _ ?m _ _ => assert (Preserves (same_rel commit_idx) m) as Hp by pres end.
    eapply wq_mono; [apply Hp|]. eauto. }
  wsplit; [rstep; by apply Hsame|]. do 2 rstep. wsplit.
  { match goal with |- wq _ ?m _ _ => assert (Preserves (same_rel commit_idx) m) as Hp by pres end.
    eapply wq_mono; [apply Hp|]. eauto. }
  bool_prop. do 5 rstep. match goal with |- wq _ ?m _ _ => assert (Preserves eq m) as Hro by pres end.
  apply (wlp_read_only _). intros near_end _. clear Hro. rstep.
  match goal with |- wq _ ?m _ _ => assert (Preserves (same_rel commit_idx) m) as Hp by pres end.
  eapply wq_mono; [apply Hp|]. clear Hp. intros [] s1 Hs1.
  wsplit; [rstep; by apply Hsame|]. do 7 rstep. cbv zeta. destruct Hs1.
  eapply wq_mono; [by apply (commit_step_spec _ s)|].
  intros [] s2 Hpost.
  match goal with |- wq _ ?m _ _ => assert (Preserves quiet_rel m) as Hp by pres end.
  eapply wq_mono; [apply Hp|]. intros a s3 Hq. split; [by eapply commit_post_quiet|].
  intros _. split_and!; try done; congruence.
Qed.
End commit.

(** C21: handling an append-entries response, the commit index moves only on a
    leader, for a success of its current term, to exactly the index the peer
    acknowledged; that index is beyond the old commit index and within the log,
    its entry is of the leader's current term, and more than half of the voting
    peers (the leader counted) are known to hold it.  The log is untouched. *)
Theorem commit_needs_majority {U} (p : option raft_node_t) (r : msg_appendentries_response_t)
    (s s' : raft U) (e : Z) :
  raft_recv_appendentries_response p r s = Ok (e, s') →
  s'.1 = s.1 ∧
  (raft_get_commit_idx s' ≠ raft_get_commit_idx s →
     raft_is_leader s = true ∧ aer_term r = raft_get_current_term s ∧ aer_success r ≠ 0 ∧
     raft_get_commit_idx s' = aer_current_idx r ∧
     raft_get_commit_idx s < aer_current_idx r ≤ raft_get_current_idx s' ∧
     (∃ ety, log_get_at_idx s'.1 (aer_current_idx r) = Ok (Some ety) ∧
             ety_term ety = raft_get_current_term s') ∧
     Z.of_nat (length (voters s')) < 2 * (1 + Z.of_nat (length (holders (aer_current_idx r) s')))).
Proof.
  intros Hrun.
  destruct (wq_run _ _ _ _ _ _ (recv_appendentries_response_commit p r s) Hrun) as [[Hl Hc] Hwhy].
  split; [done|]. intros Hne. destruct (Hwhy Hne) as (? & ? & ?).
  destruct Hc as [?|(? & [? ?] & ? & ?)]; [done|]. by split_and!.
Qed.

Definition two_commands : raft trace := after (run_raft_ops (take 2 replicate_two)) leader.
Definition acknowledged : msg_appendentries_response_t := mk_appendentries_response 1 1 2 1.
Lemma commit_needs_majority_witness :
  raft_get_commit_idx two_commands = 0 ∧
  raft_get_commit_idx (after (raft_recv_appendentries_response (Some 2%positive) acknowledged) two_commands) = 2 ∧
  length (voters (after (raft_recv_appendentries_response (Some 2%positive) acknowledged) two_commands)) = 3%nat ∧
  Z.of_nat (length (voters (after (raft_recv_appendentries_response (Some 2%positive) acknowledged) two_commands))) <
    2 * (1 + Z.of_nat (length (holders 2 (after (raft_recv_appendentries_response (Some 2%positive) acknowledged) two_commands)))).
Proof.
  destruct (commit_needs_majority (Some 2%positive) acknowledged two_commands
    (after (raft_recv_appendentries_response (Some 2%positive) acknowledged) two_commands) 0) as [_ Hc].
  { apply after_result. vm_compute. reflexivity. }
  split; [vm_compute; reflexivity|]. split; [vm_compute; reflexivity|].
  split; [vm_compute; reflexivity|].
  apply Hc. vm_compute. discriminate.
Defined.

(** ** The election timeout *)

(** Setting an election timeout of [msec] milliseconds never fails when twice
    the timeout fits an [int], and draws the randomised timeout from [msec] up to
    but excluding twice that; nothing but the two timeouts changes. *)
Theorem election_timeout_range {U} (msec : Z) (s : raft U) :
  0 < msec → 2 * msec ≤ INT_MAX + 1 →
  ∃ t s', raft_set_election_timeout msec s = Ok (tt, s') ∧ msec ≤ t < 2 * msec ∧ s'.1 = s.1 ∧
    me s'.2 = set_election_timeout_rand t (set_election_timeout msec (me s.2)) ∧
    heap s'.2 = heap s.2 ∧ udata s'.2 = udata s.2.
Proof.
  intros Hpos Hmax. set (t := msec + Z.rem (rand_src s.2 (rand_n s.2)) msec).
  assert (msec ≤ t < 2 * msec) as Ht.
  { subst t. pose proof (rand_range (rand_src s.2) (rand_n s.2)).
    pose proof (Z.rem_bound_pos (rand_src s.2 (rand_n s.2)) msec). lia. }
  enough (wp (raft_set_election_timeout msec) (λ _ s', s'.1 = s.1 ∧
    me s'.2 = set_election_timeout_rand t (set_election_timeout msec (me s.2)) ∧
    heap s'.2 = heap s.2 ∧ udata s'.2 = udata s.2) s) as Hw.
  { apply wp_iff in Hw as ([] & s' & Hrun & Hpost). exists t, s'. split; [done|]. split; [done|]. done. }
  unfold raft_set_election_timeout. do 2 rstep. rstep; cbn in *; [lia| |by subst].
  intros Hf%not_true_iff_false. apply Hf, in_int_true. unfold INT_MIN, INT_MAX in *.
  change (-2147483648 ≤ t ≤ 2147483647). lia.
Qed.

Lemma election_timeout_range_witness :
  ∃ t s', raft_set_election_timeout 1000 (boot 1) = Ok (tt, s') ∧ 1000 ≤ t < 2 * 1000 ∧ s'.1 = (boot 1).1 ∧
    me s'.2 = set_election_timeout_rand t (set_election_timeout 1000 (me (boot 1).2)) ∧
    heap s'.2 = heap (boot 1).2 ∧ udata s'.2 = udata (boot 1).2.
Proof. apply (election_timeout_range 1000 (boot 1)); vm_compute; [reflexivity|discriminate]. Defined.
