(* ===== verification/RaftIndex.v ===== *)
(** * Indexes: base, applied, commit, current

    The order of the four indexes of a server, [base <= last applied <= commit <=
    current], is an invariant of every entry point; along an execution the
    commit and applied indexes never move back, and a committed entry, as long as
    it is in the log, is the entry it was when it was committed. *)

From S2P Require Import Prelude RaftTypes RaftNode RaftLog RaftLogSpec RaftMembership RaftServer RaftRun RaftFrame RaftElection.

Definition idx_key (m : raft_server_private_t) :=
  (commit_idx m, last_applied_idx m, snapshot_last_idx m, snapshot_in_progress m,
   saved_snapshot_last_idx m).
#[global] Instance idx_key_frame : KeyFrame idx_key.
Proof. by split. Qed.

(** The entry at an index of the log. *)
Definition entry_at (l : log_private_t) (idx : raft_index_t) : option raft_entry_t :=
  if lg_base l <? idx then log_list l !! Z.to_nat (idx - lg_base l - 1) else None.

Section index.
Context {U : Type}.
Implicit Types s : raft U.

Record index_inv s : Prop := {
  inv_log : log_wf s.1;
  inv_base : lg_base s.1 ≤ last_applied_idx (me s.2);
  inv_applied : last_applied_idx (me s.2) ≤ commit_idx (me s.2);
  inv_commit : commit_idx (me s.2) ≤ raft_get_current_idx s;
  inv_snapshot : snapshot_in_progress (me s.2) ≠ 0 →
    snapshot_last_idx (me s.2) ≤ last_applied_idx (me s.2);
  inv_snapshot_idx : snapshot_last_idx (me s.2) ≤ commit_idx (me s.2) ∧
    saved_snapshot_last_idx (me s.2) ≤ commit_idx (me s.2)
}.

(** Committed entries are compared by term, id and type: the payload belongs to
    the user, who may re-point it. *)
Record index_le s s' : Prop := {
  le_base : lg_base s.1 ≤ lg_base s'.1;
  le_applied : last_applied_idx (me s.2) ≤ last_applied_idx (me s'.2);
  le_commit : commit_idx (me s.2) ≤ commit_idx (me s'.2);
  le_entries idx : lg_base s'.1 < idx ≤ commit_idx (me s.2) →
    strip <$> entry_at s'.1 idx = strip <$> entry_at s.1 idx
}.

Definition index_rel : relation (raft U) := λ s s', index_inv s → index_inv s' ∧ index_le s s'.

#[global] Instance index_rel_preorder : PreOrder index_rel.
Proof.
  split.
  - intros s Hs. split; [done|]. by split.
  - intros s1 s2 s3 H12 H23 H1. destruct (H12 H1) as [H2 [B12 A12 C12 E12]].
    destruct (H23 H2) as [H3 [B23 A23 C23 E23]]. split; [done|]. split; try lia.
    intros idx Hidx. rewrite E23 by lia. apply E12. lia.
Qed.

(** The log changes, the indexes of the struct do not. *)
Lemma index_log_step s s' :
  idx_key (me s.2) = idx_key (me s'.2) → lg_base s'.1 = lg_base s.1 →
  (index_inv s → log_wf s'.1 ∧ commit_idx (me s.2) ≤ raft_get_current_idx s' ∧
     ∀ k, Z.of_nat k < commit_idx (me s.2) - lg_base s.1 →
       strip <$> log_list s'.1 !! k = strip <$> log_list s.1 !! k) →
  index_rel s s'.
Proof.
  intros [= Hc Ha Hs Hp Hv] Hb Hl Hinv. destruct (Hl Hinv) as (Hwf & Hcur & Hk).
  destruct Hinv as [? ? ? ? ? ?]. split; split; try done; try (rewrite <- ?Hs, <- ?Hp; lia); try lia.
  intros idx Hidx. unfold entry_at. rewrite Hb in *. rewrite (proj2 (Z.ltb_lt _ _)) by lia.
  apply Hk. lia.
Qed.

#[global] Instance index_rel_core : Framed index_rel core_key.
Proof.
  split; [apply _|apply _|]. intros s s' Hl [= _ _ Hc Ha Hs _ Hp _ Hv].
  apply index_log_step; [unfold idx_key; congruence|by rewrite Hl|].
  intros [? ? ? ? ? ?]. unfold raft_get_current_idx in *. rewrite <- Hl. done.
Qed.
#[global] Instance index_rel_framed : Framed index_rel idx_key.
Proof.
  split; [apply _|apply _|]. intros s s' Hl Hk.
  apply index_log_step; [done|by rewrite Hl|].
  intros [? ? ? ? ? ?]. unfold raft_get_current_idx in *. rewrite <- Hl. done.
Qed.

(** The invariant may be assumed. *)
Lemma index_intro {A} (m : M (raft U) A) :
  (∀ s, index_inv s → wlp m (λ _ s', index_rel s s') s) → Preserves index_rel m.
Proof.
  intros Hm s. apply wlp_iff. intros a s' Hrun Hinv.
  exact (wq_run _ _ _ _ _ _ (Hm s Hinv) Hrun Hinv).
Qed.

(** ** The operations on the log *)
#[global] Instance index_append ety : Preserves index_rel (log_append_entry (H := host U) ety).
Proof.
  apply index_intro. intros [l h] Hinv.
  eapply wq_mono; [apply (wq_and _ (λ _, True));
    [apply log_append_entry_spec; [apply Hinv|done]|apply (key_rel_append idx_key eq)]|].
  intros e [l' h'] [(Hwf & Hb & _ & He) Hk]. apply index_log_step; [done|done|].
  intros [? ? ? Hcom ? ?]. cbn in *. split; [done|].
  unfold raft_get_current_idx, log_get_current_idx, log_count in *. cbn [fst] in *.
  rewrite (log_count_list l) in Hcom by done. rewrite (log_count_list l'), Hb by done.
  destruct He as [(_ & d & -> & _)|[_ ->]]; [|done]. rewrite length_app. split; [lia|].
  intros k Hk'. by rewrite lookup_app_l by lia.
Qed.

Lemma index_delete idx s :
  commit_idx (me s.2) < idx → wlp (log_delete (H := host U) idx) (λ _ s', index_rel s s') s.
Proof.
  intros Hidx. apply wlp_iff. intros e s' Hrun Hinv.
  revert e s' Hrun. apply wlp_iff. destruct s as [l h]. pose proof Hinv as [Hwf ? ? Hcom ? ?].
  pose proof (wf_base _ Hwf). cbn in *.
  eapply wq_mono; [apply (wq_and _ (λ _, True));
    [apply log_delete_spec; [done|lia|done]|apply (key_rel_delete idx_key eq)]|].
  intros e [l' h'] [(Hwf' & Hb & _ & (m & Hm & Hs) & _) Hk].
  enough (index_rel (l, h) (l', h')) as Hr by exact (Hr Hinv).
  apply index_log_step; [done|done|]. intros _. split; [done|]. cbn [fst snd] in *.
  apply (f_equal length) in Hs as Hlen. rewrite length_take, !length_fmap in Hlen.
  unfold raft_get_current_idx, log_get_current_idx, log_count in *. cbn [fst] in *.
  rewrite (log_count_list l) in Hcom by done. rewrite (log_count_list l'), Hb by done.
  split; [lia|]. intros k Hk'. rewrite <- !list_lookup_fmap, Hs. apply lookup_take_lt. lia.
Qed.

(** ** The operations of the server *)
Lemma index_set_me s m :
  (index_inv s →
    last_applied_idx (me s.2) ≤ last_applied_idx m ≤ commit_idx m ∧
    commit_idx (me s.2) ≤ commit_idx m ≤ raft_get_current_idx s ∧
    (snapshot_in_progress m ≠ 0 → snapshot_last_idx m ≤ last_applied_idx m) ∧
    snapshot_last_idx m ≤ commit_idx m ∧ saved_snapshot_last_idx m ≤ commit_idx m) →
  index_rel s (s.1, set_me m s.2).
Proof.
  intros Hm Hinv. destruct (Hm Hinv) as (? & ? & ? & ? & ?). destruct Hinv as [? ? ? ? ? ?].
  split; split; cbn; try done; unfold raft_get_current_idx in *; cbn; lia.
Qed.

#[global] Instance index_append_entry ety : Preserves index_rel (raft_append_entry ety).
Proof. unfold raft_append_entry. pres. Qed.
#[global] Instance index_delete_entry idx : Preserves index_rel (raft_delete_entry_from_idx idx).
Proof.
  intros s. unfold raft_delete_entry_from_idx. do 5 rstep. bool_prop.
  eapply wq_mono with (P := λ _ s1, same_rel idx_key s s1); [wsplit; by rstep|].
  intros [] s1 [Hl Hk]. eapply wq_mono; [apply index_delete; injection Hk; lia|].
  intros e s2 Hr. trans s1; [|done]. by apply (framed_same (key := idx_key)).
Qed.
#[global] Instance index_set_commit_idx idx : Preserves index_rel (raft_set_commit_idx idx).
Proof.
  intros s. unfold raft_set_commit_idx. do 7 rstep. bool_prop. apply index_set_me.
  intros [? ? ? ? ? ?]. cbn. split_and!; try done; lia.
Qed.
#[global] Instance index_set_current_term t : Preserves index_rel (raft_set_current_term t).
Proof. unfold raft_set_current_term. pres. Qed.
#[global] Instance index_vote_for_nodeid i : Preserves index_rel (raft_vote_for_nodeid i).
Proof. unfold raft_vote_for_nodeid. pres. Qed.
#[global] Instance index_vote p : Preserves index_rel (raft_vote p).
Proof. unfold raft_vote. pres. Qed.
#[global] Instance index_become_candidate : Preserves index_rel raft_become_candidate.
Proof. unfold raft_become_candidate. pres. Qed.

#[global] Instance index_apply_entry : Preserves index_rel raft_apply_entry.
Proof.
  intros s. unfold raft_apply_entry. do 2 rstep.
  wsplit; [by rstep|]. wsplit; [by rstep|]. bool_prop. rstep. apply (wlp_read_only _). intros found _.
  destruct found as [ety|]; [|by rstep]. do 2 rstep.
  match goal with |- wq _ ?m _ _ => assert (Preserves index_rel m) as Hp by pres end.
  eapply wq_mono; [apply Hp|]. intros e s' Hr. etrans; [|exact Hr]. apply index_set_me.
  intros [? ? ? ? ? ?]. cbn. unfold raft_get_commit_idx in *. split_and!; try done; lia.
Qed.
#[global] Instance index_apply_loop n : Preserves index_rel (apply_loop n).
Proof. induction n; cbn [apply_loop]; pres. Qed.
#[global] Instance index_apply_all : Preserves index_rel raft_apply_all.
Proof. unfold raft_apply_all. pres. Qed.
#[global] Instance index_recv_appendentries_response p r :
  Preserves index_rel (raft_recv_appendentries_response p r).
Proof. unfold raft_recv_appendentries_response. pres. Qed.
#[global] Instance index_ae_check p ae : Preserves index_rel (ae_check p ae).
Proof. unfold ae_check. pres. Qed.
#[global] Instance index_ae_match_loop ae n i cur : Preserves index_rel (ae_match_loop ae n i cur).
Proof. revert i cur. induction n; intros i cur; cbn [ae_match_loop]; pres. Qed.
#[global] Instance index_ae_append_loop ae n i cur : Preserves index_rel (ae_append_loop ae n i cur).
Proof. revert i cur. induction n; intros i cur; cbn [ae_append_loop]; pres. Qed.
#[global] Instance index_ae_entries_step ae : Preserves index_rel (ae_entries_step ae).
Proof. unfold ae_entries_step. pres. Qed.
#[global] Instance index_recv_appendentries p ae : Preserves index_rel (raft_recv_appendentries p ae).
Proof. unfold raft_recv_appendentries. pres. Qed.
#[global] Instance index_recv_requestvote p vr : Preserves index_rel (raft_recv_requestvote p vr).
Proof. unfold raft_recv_requestvote. pres. Qed.
#[global] Instance index_recv_requestvote_response p r :
  Preserves index_rel (raft_recv_requestvote_response p r).
Proof. unfold raft_recv_requestvote_response. pres. Qed.
#[global] Instance index_recv_entry e r : Preserves index_rel (raft_recv_entry e r).
Proof. unfold raft_recv_entry. pres. Qed.
#[global] Instance index_periodic n : Preserves index_rel (raft_periodic n).
Proof. unfold raft_periodic, raft_election_start. pres. Qed.
#[global] Instance index_set_election_timeout n : Preserves index_rel (raft_set_election_timeout n).
Proof. unfold raft_set_election_timeout. pres. Qed.
#[global] Instance index_set_request_timeout n : Preserves index_rel (raft_set_request_timeout n).
Proof. unfold raft_set_request_timeout. pres. Qed.

(** ** Snapshots *)

(** The [k] oldest entries have left the log. *)
Definition trimmed (k : nat) (l l' : log_private_t) : Prop :=
  log_wf l' ∧ (k ≤ length (log_list l))%nat ∧ lg_base l' = lg_base l + Z.of_nat k ∧
  strip <$> log_list l' = drop k (strip <$> log_list l).

Lemma trimmed_trans j k l1 l2 l3 : trimmed j l1 l2 → trimmed k l2 l3 → trimmed (j + k) l1 l3.
Proof.
  intros (_ & Hj & Hb & Hs) (? & Hk & Hb' & Hs').
  apply (f_equal length) in Hs as Hlen. rewrite length_drop, !length_fmap in Hlen.
  split_and!; [done|lia|lia|]. by rewrite Hs', Hs, drop_drop.
Qed.

Lemma poll_entry_spec s :
  log_wf s.1 → wlp raft_poll_entry (λ r s', idx_key (me s.2) = idx_key (me s'.2) ∧
    trimmed (if r.1 =? 0 then 1 else 0) s.1 s'.1) s.
Proof.
  destruct s as [l h]. intros Hwf. unfold raft_poll_entry. rstep.
  eapply wq_mono; [apply (wq_and _ (λ _, True)); [by apply log_poll_spec|apply (key_rel_poll idx_key eq)]|].
  intros r [l' h'] [(Hwf' & _ & Hr) Hk]. cbn [fst] in *.
  assert (idx_key (me h) = idx_key (me h') ∧ trimmed (if r.1 =? 0 then 1 else 0) l l').
  { split; [exact Hk|]. unfold trimmed. destruct (log_list l) as [|e es] eqn:El.
    - destruct Hr as [-> ->]. cbn. rewrite El. split_and!; try done; lia.
    - destruct Hr as [(d & -> & -> & ->)|(d & Hne & _ & -> & ->)]; cbn.
      + split_and!; try done; lia.
      + rewrite (proj2 (Z.eqb_neq _ _)) by done. rewrite strip_set_data. split_and!; try done; lia. }
  wsplit; by repeat rstep.
Qed.

Lemma poll_loop_spec n s :
  log_wf s.1 → wlp (poll_loop n) (λ e s', idx_key (me s.2) = idx_key (me s'.2) ∧
    ∃ k, (k ≤ n)%nat ∧ (e = 0 → k = n) ∧ trimmed k s.1 s'.1) s.
Proof.
  revert s. induction n as [|n IH]; intros s Hwf; cbn [poll_loop].
  - rstep. split; [done|]. exists 0%nat. unfold trimmed. split_and!; try done; lia.
  - rstep. eapply wq_mono; [by apply poll_entry_spec|]. intros r s1 [Hk Ht].
    destruct (Z.eqb_spec r.1 0) as [E|E]; cbn [negb].
    + eapply wq_mono; [apply IH, Ht|]. intros e s2 (Hk2 & k & Hle & He & Ht2).
      split; [congruence|]. exists (1 + k)%nat. split_and!; [lia|intros H0; specialize (He H0); lia|].
      by eapply trimmed_trans.
    + rstep. split; [done|]. exists 0%nat. split_and!; try done; lia.
Qed.

Lemma index_trimmed k s s' :
  idx_key (me s.2) = idx_key (me s'.2) → trimmed k s.1 s'.1 →
  (index_inv s → lg_base s.1 + Z.of_nat k ≤ last_applied_idx (me s.2)) → index_rel s s'.
Proof.
  intros [= Hc Ha Hs Hp Hv] (Hwf & Hk & Hb & Hl) Happ Hinv. specialize (Happ Hinv).
  apply (f_equal length) in Hl as Hlen. rewrite length_drop, !length_fmap in Hlen.
  destruct Hinv as [Hwf0 ? ? Hcur ? ?].
  unfold raft_get_current_idx, log_get_current_idx, log_count in *.
  rewrite (log_count_list s.1) in Hcur by done.
  split; split; try done; try lia.
  - unfold raft_get_current_idx, log_get_current_idx, log_count.
    rewrite (log_count_list s'.1) by done. lia.
  - intros idx Hidx. unfold entry_at. rewrite !(proj2 (Z.ltb_lt _ _)) by lia.
    rewrite <- !list_lookup_fmap, Hl, lookup_drop. f_equal. lia.
Qed.

#[global] Instance index_end_snapshot : Preserves index_rel raft_end_snapshot.
Proof.
  apply index_intro. intros s Hinv. unfold raft_end_snapshot. do 2 rstep.
  wsplit; [by rstep|]. do 4 rstep. bool_prop. rstep.
  eapply wq_mono; [apply poll_loop_spec, Hinv|]. intros e s1 (Hk & k & Hle & _ & Ht).
  assert (index_rel s s1) as Hr.
  { eapply index_trimmed; [done..|]. intros [? ? ? ? Hsnap ?]. specialize (Hsnap ltac:(done)).
    revert Hle. unfold raft_get_num_snapshottable_logs, raft_get_commit_idx, log_get_base in *.
    case_match; lia. }
  wsplit; [by rstep|]. do 2 rstep.
  match goal with |- wq _ ?m _ _ => assert (Preserves index_rel m) as Hp by pres end.
  eapply wq_mono; [apply Hp|]. intros e' s2 Hr2. trans s1; [done|]. etrans; [|exact Hr2].
  apply index_set_me. intros [? ? ? ? ? ?]. cbn. split_and!; try done; lia.
Qed.
#[global] Instance index_cancel_snapshot : Preserves index_rel raft_cancel_snapshot.
Proof.
  intros s. unfold raft_cancel_snapshot. do 2 rstep. wsplit; [by rstep|]. do 3 rstep.
  apply index_set_me. intros [? ? ? ? ? ?]. cbn. split_and!; try done; lia.
Qed.
#[global] Instance index_begin_snapshot flags : Preserves index_rel (raft_begin_snapshot flags).
Proof.
  apply index_intro. intros s Hinv. unfold raft_begin_snapshot. do 2 rstep.
  wsplit; [by rstep|]. wsplit; [by rstep|]. rstep. apply (wlp_read_only _). intros found _.
  destruct found as [ety|]; [|by rstep]. rstep. eapply wq_mono; [apply index_apply_all|].
  intros e s1 Hr1. wsplit; [by rstep|]. do 4 rstep. bool_prop.
  unfold raft_set_snapshot_metadata. do 7 rstep. trans s1; [done|].
  apply (index_set_me s1). intros Hinv1. destruct (Hr1 Hinv) as [_ [_ _ Hc _]].
  destruct Hinv1 as [? ? ? ? ? ?]. unfold raft_get_commit_idx, raft_get_last_applied_idx in *. cbn.
  split_and!; try done; lia.
Qed.

(** Everything up to [idx] has been replaced by a snapshot. *)
Lemma index_replaced idx s s' :
  log_wf s'.1 → log_list s'.1 = [] → lg_base s'.1 = idx →
  commit_idx (me s'.2) = idx → last_applied_idx (me s'.2) = idx → snapshot_last_idx (me s'.2) = idx →
  saved_snapshot_last_idx (me s'.2) ≤ idx → raft_get_current_idx s ≤ idx → index_rel s s'.
Proof.
  intros Hwf Hl Hb Hc Ha Hs Hv Hidx [? ? ? ? ? ?].
  split; split; try done; try lia.
  unfold raft_get_current_idx, log_get_current_idx, log_count. rewrite log_count_list, Hl by done. cbn. lia.
Qed.

#[global] Instance index_begin_load_snapshot term idx :
  Preserves index_rel (raft_begin_load_snapshot term idx).
Proof.
  apply index_intro. intros s Hinv. unfold raft_begin_load_snapshot. do 2 rstep.
  do 5 (wsplit; [by rstep|]). bool_prop. do 7 rstep.
  rewrite bool_decide_eq_false_2 by done.
  assert (0 ≤ idx) as Hge by (destruct Hinv as [Hwf ? ? ? ? ?]; pose proof (wf_base _ Hwf); lia).
  eapply wq_mono; [apply (wq_and _ (λ _, True));
    [apply log_load_from_snapshot_spec; [apply Hinv|done]|apply (key_rel_load idx_key eq)]|].
  intros e [l' h'] [(_ & Hwf & Hl & Hb & _) Hk]. unfold key_rel, on_host, idx_key in Hk. cbn in Hk, Hwf, Hl, Hb.
  injection Hk as Hc Ha Hs _ Hv. do 3 rstep.
  eapply wq_mono with (P := λ _ s1, s1.1 = l' ∧ commit_idx (me s1.2) = idx ∧
    snapshot_last_idx (me s1.2) = snapshot_last_idx (me s.2)).
  { wsplit; bool_prop; unfold raft_get_commit_idx in *; cbn in *.
    - unfold raft_set_commit_idx. by do 7 rstep.
    - destruct Hinv as [? ? ? ? ? ?]. split_and!; try done; cbn; lia. }
  intros [] s1 (Hl1 & Hc1 & Hs1). unfold raft_set_snapshot_metadata. do 4 rstep.
  match goal with |- wq _ ?m _ _ => assert (Preserves index_rel m) as Hp by pres end.
  eapply wq_mono; [apply Hp|]. intros e' s2 Hr2. etrans; [|exact Hr2].
  apply (index_replaced idx); cbn; try done; rewrite ?Hl1; try done.
  destruct Hinv as [? ? ? ? ? [? ?]]. lia.
Qed.

(** ** Every call

    Two raw operations keep the order of the indexes only as long as they are used for what the
    header describes: [raft_poll_entry] must take an applied entry, and the metadata must be
    those of a snapshot of applied entries.  [raft_clear] moves the indexes back. *)
Definition in_order (op : raft_op) s : Prop :=
  match op with
  | OpPollEntry => lg_base s.1 < last_applied_idx (me s.2)
  | OpSetSnapshotMetadata _ idx => idx ≤ last_applied_idx (me s.2)
  | OpClear => False
  | _ => True
  end.

Lemma index_poll_entry s :
  lg_base s.1 < last_applied_idx (me s.2) → wlp raft_poll_entry (λ _ s', index_rel s s') s.
Proof.
  intros Hb. apply wlp_iff. intros r s' Hrun Hinv.
  assert (Hw : wlp raft_poll_entry (λ _ s', index_inv s' ∧ index_le s s') s); [|exact (wq_run _ _ _ _ _ _ Hw Hrun)].
  eapply wq_mono; [apply poll_entry_spec, Hinv|]. intros r' s1 [Hk Ht].
  apply (index_trimmed _ _ _ Hk Ht); [|done]. intros _. destruct (r'.1 =? 0); lia.
Qed.
Lemma index_set_metadata term idx s :
  idx ≤ last_applied_idx (me s.2) → wlp (raft_set_snapshot_metadata term idx) (λ _ s', index_rel s s') s.
Proof.
  intros Hidx. unfold raft_set_snapshot_metadata. rstep. apply index_set_me.
  intros [? ? ? ? ? [? ?]]. cbn. split_and!; try done; lia.
Qed.
Lemma index_run_op op s : in_order op s → wlp (run_raft_op op) (λ _ s', index_rel s s') s.
Proof.
  assert (Hp : Preserves index_rel (run_raft_op op) → wlp (run_raft_op op) (λ _ s', index_rel s s') s)
    by (intros Hp; apply Hp).
  destruct op; intros Hop; cbn [run_raft_op in_order] in *; try (solve [apply Hp; pres]); [| |done].
  - wstep. eapply wq_mono; [by apply index_set_metadata|]. intros [] s' Hr. by wstep.
  - wstep. eapply wq_mono; [by apply index_poll_entry|]. intros r s' Hr. by wstep.
Qed.
End index.

(** A server fresh from [raft_new] satisfies the invariant. *)
Lemma raft_new_inv {U} r a (u : U) s :
  raft_new r a u = Ok (Some s) →
  index_inv s ∧ log_list s.1 = [] ∧ raft_get_current_idx s = 0 ∧ raft_get_commit_idx s = 0 ∧
  raft_get_current_term s = 0 ∧ raft_get_voted_for s = -1 ∧ raft_is_follower s = true.
Proof.
  unfold raft_new. destruct (host_calloc _ _) as [[] h] eqn:Ha; [|done]. cbn [negb].
  assert (me h = server_zero) as Hh by (unfold host_calloc in Ha; by simplify_eq).
  destruct (raft_randomize_election_timeout _) as [[[] [l1 h1]]|] eqn:Er; [|done].
  assert (wlp raft_randomize_election_timeout (λ _ s', core_key (me s'.2) = core_key (me h))
    (mk_log 0 0 0 0 0 [] false, h)) as Hw by (by rstep).
  apply (wq_run _ _ _ _ _ _ Hw) in Er. clear Hw. cbn [snd] in Er.
  destruct (log_new h1) as [[l|] h2] eqn:El; [|done].
  assert (me h2 = me h1) as Hh2.
  { revert El. unfold log_new, log_alloc. cbn. repeat case_match; intros; by simplify_eq. }
  unfold log_new in El. apply wf_log_alloc in El as (Hwf & Hl & Hb & _ & _); [|done].
  cbn. intros [= <-]. pose proof (length_log_list l) as Hlen. rewrite Hl in Hlen.
  pose proof (wf_count _ Hwf). cbn in Hlen. rewrite Hh in Er. rewrite Hh2.
  injection Er as Et Ev Ec Eap Esi _ _ _ _ _.
  split_and!; try done; [|unfold raft_get_current_idx, log_get_current_idx, log_count; cbn; lia].
  split; cbn; try done; try lia. unfold raft_get_current_idx, log_get_current_idx, log_count; cbn; lia.
Qed.

(** A started server: created, given its callbacks, and driven through its interface, where
    entries are polled and snapshots announced only after they were applied. *)
Definition started {U} (s : raft U) : Prop :=
  ∃ r a u s0 cbs ud s1, raft_new r a u = Ok (Some s0) ∧ raft_set_callbacks cbs ud s0 = Ok (tt, s1) ∧
    execution in_order s1 s.

Lemma set_callbacks_inv {U} cbs ud (s s' : raft U) :
  raft_set_callbacks cbs ud s = Ok (tt, s') → index_inv s → index_inv s'.
Proof. intros [= <-] [[] ? ? ? ? ?]. by split; [split|..]. Qed.
Lemma execution_index {U} (s s' : raft U) : execution in_order s s' → index_rel s s'.
Proof. apply execution_preserves; [apply _|]. intros op s1. apply index_run_op. Qed.
Lemma started_inv {U} (s : raft U) : started s → index_inv s.
Proof.
  intros (r & a & u & s0 & cbs & ud & s1 & [Hinv _]%raft_new_inv & Hcb & Hex%execution_index).
  by apply Hex, (set_callbacks_inv _ _ _ _ Hcb).
Qed.

(** C22: in every state a server reaches from raft_new and raft_set_callbacks by calls of its interface
    the log is well-formed and base <= last applied <= commit <= current index; excepted
    are raft_clear, and raft_poll_entry and raft_set_snapshot_metadata where they are not used for
    entries that have been applied (a poll when nothing in the log has been applied, the metadata of a snapshot
    beyond the last applied index). *)
Theorem indexes_ordered {U} (s : raft U) :
  started s →
  log_wf s.1 ∧
  0 ≤ log_get_base s.1 ≤ raft_get_last_applied_idx s ∧
  raft_get_last_applied_idx s ≤ raft_get_commit_idx s ≤ raft_get_current_idx s.
Proof.
  intros [Hwf ? ? ? ? ?]%started_inv. pose proof (wf_base _ Hwf).
  unfold log_get_base, raft_get_last_applied_idx, raft_get_commit_idx. done.
Qed.

(** The cluster of the examples is a started server. *)
Definition members (i : Z) : list raft_op := (λ id, OpAddNode 0 id (i =? id)) <$> [1; 2; 3].
Definition begun : raft trace := after (raft_set_callbacks recording_cbs []) fresh.
Lemma fresh_new : raft_new rand5 plenty [] = Ok (Some fresh).
Proof.
  assert (match raft_new rand5 plenty ([] : trace) with Ok (Some _) => true | _ => false end = true) as Hs
    by (vm_compute; reflexivity).
  unfold fresh. by destruct (raft_new rand5 plenty []) as [[s|]|].
Qed.
Lemma fresh_callbacks : result (raft_set_callbacks recording_cbs []) fresh = Some tt.
Proof. vm_compute. reflexivity. Qed.
(** The calls that are admitted in every state, and the results of a sequence of such calls. *)
Definition always_in_order (op : raft_op) : bool :=
  match op with OpPollEntry | OpSetSnapshotMetadata _ _ | OpClear => false | _ => true end.
Definition ordered_result (ops : list raft_op) (s : raft trace) : option (list Z) :=
  if forallb always_in_order ops then result (run_raft_ops ops) s else None.
Lemma started_after s0 s1 ops cs :
  raft_new rand5 plenty [] = Ok (Some s0) → raft_set_callbacks recording_cbs [] s0 = Ok (tt, s1) →
  ordered_result ops s1 = Some cs → started (after (run_raft_ops ops) s1).
Proof.
  unfold ordered_result. intros Hnew Hcb Hops. destruct (forallb _ _) eqn:Hall; [|done].
  exists rand5, plenty, [], s0, recording_cbs, [], s1. split_and!; [done|done|].
  eapply after_execution; [|done]. apply Forall_forall. intros op Hop%list_elem_of_In s.
  rewrite forallb_forall in Hall. specialize (Hall op Hop). by destruct op.
Qed.
Lemma started_begun ops cs :
  ordered_result ops begun = Some cs → started (after (run_raft_ops ops) begun).
Proof. exact (started_after _ _ _ _ fresh_new (after_result _ _ _ fresh_callbacks)). Qed.

Lemma indexes_ordered_witness :
  raft_get_commit_idx (after (run_raft_ops (members 1 ++ elect ++ replicate_two)) begun) = 2 ∧
  2 ≤ raft_get_current_idx (after (run_raft_ops (members 1 ++ elect ++ replicate_two)) begun).
Proof.
  split; [vm_compute; reflexivity|].
  apply (indexes_ordered (after (run_raft_ops (members 1 ++ elect ++ replicate_two)) begun)).
  apply (started_begun _ [0; 0; 0; 0; 0; 0; 0; 0]). vm_compute. reflexivity.
Defined.

(** C7: along any execution of a started server (the calls [in_order] admits) the commit and the last applied
    index never move back, and a committed entry keeps its term, id and type at its
    index for as long as it is in the log, whatever messages arrive. *)
Theorem committed_entries_stable {U} (s s' : raft U) :
  started s → execution in_order s s' →
  raft_get_commit_idx s ≤ raft_get_commit_idx s' ∧
  raft_get_last_applied_idx s ≤ raft_get_last_applied_idx s' ∧
  ∀ idx ety, log_get_at_idx s.1 idx = Ok (Some ety) → idx ≤ raft_get_commit_idx s →
    log_get_base s'.1 < idx →
    ∃ ety', log_get_at_idx s'.1 idx = Ok (Some ety') ∧ strip ety' = strip ety.
Proof.
  intros Hinv%started_inv Hex%execution_index. destruct (Hex Hinv) as [Hinv' [Hb Ha Hc He]].
  split_and!; [done|done|]. intros idx ety Hety Hle Hbase.
  rewrite log_get_at_idx_spec in * by apply Hinv || apply Hinv'.
  specialize (He idx). unfold entry_at in He. specialize (He (conj Hbase Hle)).
  injection Hety as Hety. rewrite Hety in He. apply fmap_Some in He as (ety' & -> & ?). eauto.
Qed.

(** A follower with a committed entry 1; a later leader replaces entry 2. *)
Definition one_committed : list raft_op := members 2 ++ [OpRecvAppendentries (Some 1%positive) two_entries].
Definition replacing : list raft_op :=
  [OpRecvAppendentries (Some 3%positive) (mk_appendentries 2 1 1 2 1 [command 2 9])].
Lemma committed_entries_stable_witness :
  log_get_at_idx (after (run_raft_ops replacing) (after (run_raft_ops one_committed) begun)).1 2 =
    Ok (Some (command 2 9)) ∧
  ∃ ety', log_get_at_idx (after (run_raft_ops replacing) (after (run_raft_ops one_committed) begun)).1 1 =
    Ok (Some ety') ∧ strip ety' = strip (command 1 7).
Proof.
  split; [vm_compute; reflexivity|].
  apply (committed_entries_stable (after (run_raft_ops one_committed) begun)
    (after (run_raft_ops replacing) (after (run_raft_ops one_committed) begun))).
  - apply (started_begun _ [0; 0; 0; 0]). vm_compute. reflexivity.
  - apply (after_execution _ _ _ [0]); [repeat constructor|]. vm_compute. reflexivity.
  - vm_compute. reflexivity.
  - vm_compute. discriminate.
  - vm_compute. reflexivity.
Defined.
