(* ===== verification/RaftReplication.v ===== *)
(** * Replication: append entries on a follower

    What [raft_recv_appendentries] does to a follower's log, against a functional
    reference ([reconcile]): entries that are already there are kept, the first
    conflict cuts the log, the rest is appended.  When a request is refused, what
    it may still change; how the commit index follows the leader's. *)

From S2P Require Import Prelude RaftTypes RaftNode RaftLog RaftLogSpec RaftMembership RaftServer RaftRun RaftFrame RaftElection RaftIndex.

(** ** The reference

    Entries are compared by term and kept by term, id and type. *)
Abbreviation tag := (Z * Z * Z)%type.

Fixpoint reconcile (d : nat) (new es : list tag) : list tag :=
  match new with
  | [] => es
  | e :: new' =>
      match es !! d with
      | Some x => if x.1.1 =? e.1.1 then reconcile (S d) new' es else take d es ++ new
      | None => take d es ++ new
      end
  end.

Section reconcile.
Implicit Types new es : list tag.

Lemma reconcile_prefix d new es : (d ≤ length es)%nat → take d (reconcile d new es) = take d es.
Proof.
  revert d. induction new as [|e new IH]; intros d Hd; cbn; [done|].
  destruct (es !! d) as [x|] eqn:Ex; [case_match|].
  - apply lookup_lt_Some in Ex. pose proof (f_equal (take d) (IH (S d) ltac:(lia))) as E.
    rewrite !take_take in E. by rewrite !Nat.min_l in E by lia.
  - rewrite take_app_le, take_take, Nat.min_id; [done|rewrite length_take; lia].
  - rewrite take_app_le, take_take, Nat.min_id; [done|rewrite length_take; lia].
Qed.

(** Every new entry is in the result, up to its term, at its place. *)
Lemma reconcile_terms d new es j e :
  (d ≤ length es)%nat → new !! j = Some e →
  ∃ x, reconcile d new es !! (d + j)%nat = Some x ∧ x.1.1 = e.1.1.
Proof.
  revert d j. induction new as [|e0 new IH]; intros d j Hd Hj; [done|]. cbn.
  assert (∀ es', es' = take d es ++ e0 :: new → ∃ x, es' !! (d + j)%nat = Some x ∧ x.1.1 = e.1.1) as Hcut.
  { intros es' ->. exists e. split; [|done].
    rewrite lookup_app_r by (rewrite length_take; lia).
    rewrite length_take, Nat.min_l by lia. by replace (d + j - d)%nat with j by lia. }
  destruct (es !! d) as [x|] eqn:Ex; [case_match|]; [|by apply Hcut..].
  apply lookup_lt_Some in Ex as Hlt. bool_prop. destruct j as [|j].
  - injection Hj as ->. exists x. rewrite Nat.add_0_r. split; [|done].
    rewrite <- Ex. rewrite <- (lookup_take_lt _ (S d)), <- (lookup_take_lt es (S d)) by lia.
    by rewrite reconcile_prefix by lia.
  - destruct (IH (S d) j) as (y & Hy & ?); [lia|done|]. exists y. by replace (d + S j)%nat with (S d + j)%nat by lia.
Qed.

(** What follows the new entries survives exactly when nothing conflicted. *)
Lemma reconcile_length d new es :
  (d ≤ length es)%nat →
  reconcile d new es = es ∨ length (reconcile d new es) = (d + length new)%nat.
Proof.
  revert d. induction new as [|e new IH]; intros d Hd; cbn; [by left|].
  destruct (es !! d) as [x|] eqn:Ex; [case_match|].
  - apply lookup_lt_Some in Ex. destruct (IH (S d)); [lia|by left|right; lia].
  - right. rewrite length_app, length_take. cbn. lia.
  - right. rewrite length_app, length_take. cbn. lia.
Qed.
End reconcile.

(** ** The two loops *)
Section loops.
Context {U : Type}.
Implicit Types (s : raft U) (ae : msg_appendentries_t).

Abbreviation tags l := (strip <$> log_list l).

Lemma strip_term e1 e2 : (strip e1).1.1 = (strip e2).1.1 ↔ ety_term e1 = ety_term e2.
Proof. done. Qed.

Lemma delete_entry_spec idx s :
  log_wf s.1 → lg_base s.1 < idx →
  wlp (raft_delete_entry_from_idx idx) (λ e s',
    log_wf s'.1 ∧ lg_base s'.1 = lg_base s.1 ∧
    (e = 0 → log_list s'.1 = take (Z.to_nat (idx - 1 - lg_base s.1)) (log_list s.1))) s.
Proof.
  intros Hwf Hidx. unfold raft_delete_entry_from_idx. do 5 rstep.
  eapply wq_mono with (P := λ _ s1, s1.1 = s.1); [wsplit; by rstep|].
  intros [] [l h]; cbn [fst]; intros ->. pose proof (wf_base _ Hwf).
  eapply wq_mono; [apply log_delete_spec; [done|lia|done]|].
  intros e [l' h'] (? & ? & _ & _ & ?). done.
Qed.

Lemma append_entry_spec ety s :
  log_wf s.1 →
  wlp (raft_append_entry ety) (λ e s',
    log_wf s'.1 ∧ lg_base s'.1 = lg_base s.1 ∧
    tags s'.1 = tags s.1 ++ (if e =? 0 then [strip ety] else [])) s.
Proof.
  intros Hwf. unfold raft_append_entry. rstep.
  eapply wq_mono with (P := λ _ s1, s1.1 = s.1); [wsplit; by repeat rstep|].
  intros [] [l h]; cbn [fst]; intros ->.
  eapply wq_mono; [by apply log_append_entry_spec|].
  intros e [l' h'] (? & ? & _ & He). cbn [fst] in *. split_and!; try done.
  destruct He as [(-> & d & -> & _)|[Hne ->]]; cbn.
  - by rewrite fmap_app.
  - rewrite (proj2 (Z.eqb_neq _ _)) by done. by rewrite app_nil_r.
Qed.

Definition match_post ae s (i : nat) (r : Z * Z * Z) s' : Prop :=
  r.1.1 = 0 → ∃ j, (i ≤ j ≤ length (ae_entries ae))%nat ∧
    r.1.2 = Z.of_nat j ∧ r.2 = ae_prev_log_idx ae + Z.of_nat j ∧
    log_wf s'.1 ∧ lg_base s'.1 = lg_base s.1 ∧
    tags s'.1 ++ (strip <$> drop j (ae_entries ae)) =
      reconcile (Z.to_nat (ae_prev_log_idx ae - lg_base s.1) + i)
        (strip <$> drop i (ae_entries ae)) (tags s.1).

Lemma ae_match_loop_spec ae n i s :
  log_wf s.1 → lg_base s.1 ≤ ae_prev_log_idx ae → (i + n)%nat = length (ae_entries ae) →
  (Z.to_nat (ae_prev_log_idx ae - lg_base s.1) + i ≤ length (log_list s.1))%nat →
  wlp (ae_match_loop ae n (Z.of_nat i) (ae_prev_log_idx ae + Z.of_nat i)) (match_post ae s i) s.
Proof.
  intros Hwf Hb. revert i. induction n as [|n IH]; intros i Hn Hd; cbn [ae_match_loop].
  { rstep. intros _. exists i. split_and!; try done; try lia.
    rewrite drop_ge by lia. by rewrite app_nil_r. }
  do 2 rstep. rename a into ety. apply arr_get_Ok in H as [_ Hety]. rewrite Nat2Z.id in Hety.
  do 4 rstep. unfold raft_get_entry_from_idx. do 4 rstep.
  rename H1 into Hat. rewrite log_get_at_idx_spec, (proj2 (Z.ltb_lt _ _)) in Hat by (done || lia).
  set (d := Z.to_nat (ae_prev_log_idx ae - lg_base s.1)) in *.
  replace (Z.to_nat (ae_prev_log_idx ae + 1 + Z.of_nat i - lg_base s.1 - 1)) with (d + i)%nat in Hat by lia.
  injection Hat as Hat.
  assert (tags s.1 !! (d + i)%nat = strip <$> a) as Htag by (by rewrite list_lookup_fmap, Hat).
  unfold match_post in *. fold d. fold d in IH.
  rewrite (drop_S _ _ _ Hety). cbn [reconcile fmap list_fmap]. rewrite Htag.
  destruct a as [x|]; cbn [fmap option_fmap option_map].
  - change ((strip x).1.1 =? (strip ety).1.1) with (ety_term x =? ety_term ety).
    destruct (ety_term x =? ety_term ety) eqn:Eterm; cbn [negb].
    + replace (ae_prev_log_idx ae + 1 + Z.of_nat i) with (ae_prev_log_idx ae + Z.of_nat (S i)) by lia.
      replace (Z.of_nat i + 1) with (Z.of_nat (S i)) by lia.
      apply lookup_lt_Some in Hat.
      eapply wq_mono; [apply (IH (S i)); lia|]. intros r s' Hr He0.
      destruct (Hr He0) as (j & ? & ? & ? & ? & ? & Hrec). exists j. split_and!; try done; try lia.
      rewrite Hrec. by replace (d + S i)%nat with (S (d + i)) by lia.
    + do 2 rstep. wsplit; [by rstep|]. rstep. eapply wq_mono; [apply delete_entry_spec; [done|lia]|].
      intros e s' (? & ? & He). rstep. cbn. intros He0. exists i. split_and!; try done; try lia.
      rewrite He by done. rewrite (drop_S _ _ _ Hety). cbn. rewrite fmap_take.
      f_equal. f_equal. lia.
  - rstep. intros _. cbn. exists i. split_and!; try done; try lia.
    rewrite (drop_S _ _ _ Hety). cbn.
    apply lookup_ge_None in Htag. by rewrite take_ge by done.
Qed.

Lemma ae_append_loop_spec ae n i s :
  log_wf s.1 → (i + n)%nat = length (ae_entries ae) →
  wlp (ae_append_loop ae n (Z.of_nat i) (ae_prev_log_idx ae + Z.of_nat i)) (λ r s',
    r.1 = 0 → r.2 = ae_prev_log_idx ae + Z.of_nat (length (ae_entries ae)) ∧
      log_wf s'.1 ∧ lg_base s'.1 = lg_base s.1 ∧
      tags s'.1 = tags s.1 ++ (strip <$> drop i (ae_entries ae))) s.
Proof.
  revert i s. induction n as [|n IH]; intros i s Hwf Hn; cbn [ae_append_loop].
  { rstep. intros _. cbn. rewrite drop_ge by lia. rewrite app_nil_r. split_and!; try done. lia. }
  do 2 rstep. rename a into ety. apply arr_get_Ok in H as [_ Hety]. rewrite Nat2Z.id in Hety.
  rstep. eapply wq_mono; [by apply append_entry_spec|]. intros e s1 (Hwf1 & Hb1 & Ht1).
  wsplit; bool_prop; [by rstep|]. subst e. cbn in Ht1. do 4 rstep.
  replace (ae_prev_log_idx ae + 1 + Z.of_nat i) with (ae_prev_log_idx ae + Z.of_nat (S i)) by lia.
  replace (Z.of_nat i + 1) with (Z.of_nat (S i)) by lia.
  eapply wq_mono; [apply IH; [done|lia]|]. intros r s' Hr He0.
  destruct (Hr He0) as (? & ? & ? & Ht). split_and!; try done; try congruence.
  rewrite Ht, Ht1, (drop_S _ _ _ Hety). cbn. by rewrite <- app_assoc.
Qed.
End loops.

(** ** The checks *)
Section checks.
Context {U : Type}.
Implicit Types (s : raft U) (ae : msg_appendentries_t).

(** The entry before the new ones is the leader's: in the snapshot or in the log. *)
Definition prev_matches ae s : Prop :=
  0 < ae_prev_log_idx ae →
  (ae_prev_log_idx ae = snapshot_last_idx (me s.2) ∧ ae_prev_log_term ae = snapshot_last_term (me s.2)) ∨
  ∃ ety, log_get_at_idx s.1 (ae_prev_log_idx ae) = Ok (Some ety) ∧ ety_term ety = ae_prev_log_term ae.

Definition check_post ae s (r : option Z) s' : Prop :=
  match r with
  | None => s'.1 = s.1 ∧ idx_key (me s'.2) = idx_key (me s.2) ∧
      current_term (me s'.2) = ae_term ae ∧ current_term (me s.2) ≤ ae_term ae ∧ prev_matches ae s
  | Some e => log_wf s'.1 ∧ lg_base s'.1 = lg_base s.1 ∧ current_term (me s.2) ≤ ae_term ae ∧
      commit_idx (me s'.2) = commit_idx (me s.2) ∧
      (s'.1 = s.1 ∨
       commit_idx (me s.2) < ae_prev_log_idx ae ∧
       (e = 0 → log_list s'.1 = take (Z.to_nat (ae_prev_log_idx ae - 1 - lg_base s.1)) (log_list s.1)))
  end.

Definition snap_key (m : raft_server_private_t) := (idx_key m, snapshot_last_term m).

(** The term part: a stale request leaves everything as it is. *)
Lemma ae_term_step ae s :
  wlp (if raft_is_candidate s && (current_term (me s.2) =? ae_term ae) then
         raft_become_follower ;; mret None
       else if current_term (me s.2) <? ae_term ae then
         e ← raft_set_current_term (ae_term ae);
         if negb (e =? 0) then mret (Some e) else raft_become_follower ;; mret None
       else if ae_term ae <? current_term (me s.2) then mret (Some 0)
       else mret None)
    (λ r s', s'.1 = s.1 ∧ snap_key (me s'.2) = snap_key (me s.2) ∧
       match r with
       | None => current_term (me s'.2) = ae_term ae ∧ current_term (me s.2) ≤ ae_term ae
       | Some e => current_term (me s.2) ≤ ae_term ae ∨ (e = 0 ∧ s' = s)
       end) s.
Proof.
  assert (∀ s1, wlp raft_become_follower (λ _ s', s'.1 = s1.1 ∧ core_key (me s'.2) = core_key (me s1.2)) s1) as Hf.
  { intros s1. eapply wq_mono; [apply (core_become_follower (same_rel core_key))|]. by intros ? ? [? ?]. }
  wsplit; bool_prop.
  { rstep. eapply wq_mono; [apply Hf|]. intros _ s1 [Hl Hk]. rstep. unfold core_key, snap_key, idx_key in *.
    injection Hk; intros. split_and!; try congruence; lia. }
  wsplit; bool_prop.
  - rstep. eapply wq_mono; [apply set_current_term_spec|]. intros e s1 (Hl & _ & _ & _ & Hm). wsplit; bool_prop.
    + rstep. rewrite (proj2 (Z.eqb_neq _ _)), andb_false_r in Hm by done. rewrite Hm. split_and!; try done. left; lia.
    + subst e. rewrite (proj2 (Z.ltb_lt _ _)) in Hm by done. cbn in Hm. rstep.
      eapply wq_mono; [apply Hf|]. intros _ s2 [Hl2 Hk]. rstep. rewrite Hm in Hk. unfold core_key, snap_key, idx_key in *.
      cbn in Hk. injection Hk; intros. split_and!; try congruence; lia.
  - wsplit; bool_prop; rstep; split_and!; try done; try lia. by right.
Qed.

#[global] Instance idx_delete_entry idx :
  Preserves (S := raft U) (key_rel idx_key eq) (raft_delete_entry_from_idx idx).
Proof. unfold raft_delete_entry_from_idx. pres. Qed.

Lemma ae_check_spec p ae s :
  log_wf s.1 → lg_base s.1 ≤ ae_prev_log_idx ae →
  wlp (ae_check p ae) (λ r s', check_post ae s r s' ∨ (ae_term ae < current_term (me s.2) ∧ r = Some 0 ∧ s' = s)) s.
Proof.
  intros Hwf Hb. unfold ae_check. do 3 rstep. eapply wq_mono; [apply ae_term_step|].
  intros r s1 (Hl & Hk & Hr). destruct r as [e|].
  { rstep. destruct (decide (current_term (me s.2) ≤ ae_term ae)).
    - left. unfold check_post. rewrite Hl. split_and!; try done; [injection Hk; lia|by left].
    - right. destruct Hr as [|[-> ->]]; [lia|]. split_and!; try done; lia. }
  destruct Hr as [Ht Hle]. do 4 rstep. unfold raft_get_entry_from_idx. wsplit; bool_prop.
  2: { rstep. left. unfold check_post. cbn. unfold snap_key in Hk.
       split_and!; try done; [by apply (f_equal fst) in Hk|]. unfold prev_matches. lia. }
  do 4 rstep. rename a into found. rename H into Hat. cbn in Hat. rewrite Hl in Hat.
  do 2 rstep. cbn. unfold snap_key, idx_key in Hk. injection Hk as Hc Ha Hsi Hsp Hsv Hst.
  assert (∀ e (s' : raft U), s'.1 = s.1 → commit_idx (me s'.2) = commit_idx (me s1.2) → check_post ae s (Some e) s') as Herr.
  { intros e s' Hl' Hc'. unfold check_post. rewrite Hl'. split_and!; try done; [congruence|by left]. }
  assert (∀ s', s'.1 = s.1 → me s'.2 = set_timeout_elapsed 0 (set_current_leader p (me s1.2)) →
    prev_matches ae s → check_post ae s None s') as Hok.
  { intros s' Hl' Hm' Hp. unfold check_post, idx_key. rewrite Hm'. cbn. split_and!; try done; congruence. }
  wsplit; bool_prop.
  { wsplit; bool_prop; rstep; left; [by apply Herr|apply Hok; try done]. intros _. left. split; congruence. }
  destruct found as [ety|]; [|rstep; left; by apply Herr].
  wsplit; bool_prop; [|rstep; left; apply Hok; try done; intros _; right; eauto].
  wsplit; bool_prop; [rstep; left; by apply Herr|]. rstep.
  assert (lg_base s.1 < ae_prev_log_idx ae) as Hb'.
  { rewrite log_get_at_idx_spec in Hat by done. case_match; bool_prop; [done|by injection Hat]. }
  eapply wq_mono; [apply (wq_and _ (λ _, True));
    [apply delete_entry_spec; cbn; rewrite Hl; done|apply (idx_delete_entry _ _)]|].
  intros e s2 [(Hwf2 & Hb2 & Hd) Hk2]. rstep. left. unfold check_post.
  unfold key_rel, on_host, idx_key in Hk2. cbn in *. rewrite Hl in *. injection Hk2; intros.
  split_and!; try done; [congruence|]. right. split; [lia|done].
Qed.
End checks.

(** ** The whole handler *)
Section handler.
Context {U : Type}.
Implicit Types (s : raft U) (ae : msg_appendentries_t).

Definition loop_key (m : raft_server_private_t) := (idx_key m, current_term m).
#[global] Instance loop_key_frame : KeyFrame loop_key.
Proof. by split. Qed.
Abbreviation Loop m := (Preserves (S := raft U) (key_rel loop_key eq) m).

#[local] Instance loop_append_entry ety : Loop (raft_append_entry ety).
Proof. unfold raft_append_entry. pres. Qed.
#[local] Instance loop_delete_entry idx : Loop (raft_delete_entry_from_idx idx).
Proof. unfold raft_delete_entry_from_idx. pres. Qed.
#[local] Instance loop_match ae n i cur : Loop (ae_match_loop ae n i cur).
Proof. revert i cur. induction n; intros i cur; cbn [ae_match_loop]; pres. Qed.
#[local] Instance loop_appends ae n i cur : Loop (ae_append_loop ae n i cur).
Proof. revert i cur. induction n; intros i cur; cbn [ae_append_loop]; pres. Qed.

(** How the commit index follows the leader's. *)
Definition follow_commit (leader_commit : raft_index_t) s (current : raft_index_t) : raft_index_t :=
  if raft_get_commit_idx s <? leader_commit then Z.min (Z.max current 1) leader_commit
  else raft_get_commit_idx s.

Definition merged ae s s' : Prop :=
  log_wf s'.1 ∧ lg_base s'.1 = lg_base s.1 ∧
  strip <$> log_list s'.1 = reconcile (Z.to_nat (ae_prev_log_idx ae - lg_base s.1))
    (strip <$> ae_entries ae) (strip <$> log_list s.1).

Lemma ae_entries_step_spec ae s :
  log_wf s.1 → lg_base s.1 ≤ ae_prev_log_idx ae ≤ raft_get_current_idx s →
  ae_n_entries ae = Z.of_nat (length (ae_entries ae)) →
  wlp (ae_entries_step ae) (λ r s', r.1 = 0 →
    r.2 = ae_prev_log_idx ae + ae_n_entries ae ∧ merged ae s s' ∧
    current_term (me s'.2) = current_term (me s.2) ∧
    commit_idx (me s'.2) = follow_commit (ae_leader_commit ae) s (raft_get_current_idx s')) s.
Proof.
  intros Hwf Hprev Hn. unfold ae_entries_step. rstep.
  assert (Z.to_nat (ae_n_entries ae) = length (ae_entries ae)) as -> by lia.
  assert (Z.to_nat (ae_prev_log_idx ae - lg_base s.1) ≤ length (log_list s.1))%nat as Hd.
  { revert Hprev. unfold raft_get_current_idx, log_get_current_idx, log_count. rewrite length_log_list. lia. }
  pose proof (ae_match_loop_spec ae (length (ae_entries ae)) 0 s Hwf ltac:(lia) eq_refl ltac:(lia)) as Hmatch.
  replace (ae_prev_log_idx ae + Z.of_nat 0) with (ae_prev_log_idx ae) in Hmatch by lia.
  eapply wq_mono; [apply (wq_and _ (λ _, True)); [exact Hmatch|apply (loop_match _ _ _ _ s)]|].
  intros [[e i] cur] s1 [Hm Hk1]. unfold match_post in Hm. cbn in Hm. wsplit; bool_prop; [by rstep|]. subst e.
  destruct (Hm eq_refl) as (j & Hj & -> & -> & Hwf1 & Hb1 & Hrec). rewrite Nat.add_0_r in Hrec.
  rstep. eapply wq_mono; [apply (wq_and _ (λ _, True)); [apply ae_append_loop_spec; [done|lia]|apply (loop_appends _ _ _ _ s1)]|].
  intros [e cur] s2 [Ha Hk2]. cbn in Ha. wsplit; bool_prop; [by rstep|]. subst e.
  destruct (Ha eq_refl) as (-> & Hwf2 & Hb2 & Ht2). do 3 rstep.
  unfold key_rel, on_host in Hk1, Hk2. rewrite Hk2 in Hk1. injection Hk1 as Hc _ _ _ _ Hterm.
  assert (merged ae s s2) as Hmerged by (split_and!; [done|congruence|by rewrite Ht2, Hrec]).
  eapply wq_mono with (P := λ _ s', s'.1 = s2.1 ∧ current_term (me s'.2) = current_term (me s2.2) ∧
    commit_idx (me s'.2) = follow_commit (ae_leader_commit ae) s (raft_get_current_idx s2)).
  - unfold follow_commit, raft_get_commit_idx. rewrite Hc. wsplit.
    + unfold raft_set_commit_idx. by do 7 rstep.
    + by rstep.
  - intros [] s3 (Hl3 & Ht3 & Hc3). rstep. intros _. cbn. unfold merged, raft_get_current_idx in *.
    rewrite Hl3. split_and!; try done; try apply Hmerged; try congruence.
Qed.

Lemma prev_within ae s : index_inv s → prev_matches ae s → ae_prev_log_idx ae ≤ raft_get_current_idx s.
Proof.
  intros Hinv Hpm. pose proof (inv_log _ Hinv) as Hwf.
  destruct (decide (0 < ae_prev_log_idx ae)) as [Hpos|].
  - destruct (Hpm Hpos) as [[-> _]|(ety & Hat & _)].
    + destruct Hinv as [? ? ? ? ? [? ?]]. lia.
    + rewrite log_get_at_idx_spec in Hat by done. case_match; [|done]. bool_prop.
      injection Hat as Hat%lookup_lt_Some. rewrite length_log_list in Hat.
      unfold raft_get_current_idx, log_get_current_idx, log_count. lia.
  - pose proof (wf_base _ Hwf). destruct Hinv as [? ? ? ? ? ?]. lia.
Qed.
Lemma prev_in_log ae s :
  index_inv s → lg_base s.1 ≤ ae_prev_log_idx ae → prev_matches ae s →
  (Z.to_nat (ae_prev_log_idx ae - lg_base s.1) ≤ length (log_list s.1))%nat.
Proof.
  intros Hinv Hb Hpm. pose proof (prev_within _ _ Hinv Hpm) as Hcur. revert Hcur.
  unfold raft_get_current_idx, log_get_current_idx, log_count. rewrite length_log_list. lia.
Qed.

Lemma recv_appendentries_spec p ae s :
  index_inv s → lg_base s.1 ≤ ae_prev_log_idx ae →
  ae_n_entries ae = Z.of_nat (length (ae_entries ae)) →
  wlp (raft_recv_appendentries p ae) (λ r s', r.1 = 0 → aer_success r.2 = 1 →
    merged ae s s' ∧ prev_matches ae s ∧
    aer_current_idx r.2 = ae_prev_log_idx ae + ae_n_entries ae ∧
    aer_term r.2 = ae_term ae ∧ current_term (me s'.2) = ae_term ae ∧ current_term (me s.2) ≤ ae_term ae ∧
    commit_idx (me s'.2) = follow_commit (ae_leader_commit ae) s (raft_get_current_idx s')) s.
Proof.
  intros Hinv Hprev Hn. unfold raft_recv_appendentries. rstep.
  pose proof (inv_log _ Hinv) as Hwf.
  eapply wq_mono; [by apply ae_check_spec|]. intros checked s1 Hcheck. rstep.
  destruct checked as [e|].
  { repeat rstep. done. }
  destruct Hcheck as [(Hl & Hk & Ht & Hle & Hpm)|(_ & ? & _)]; [|done].
  rstep.
  pose proof (prev_within ae s Hinv Hpm) as Hcur.
  eapply wq_mono; [apply ae_entries_step_spec; unfold raft_get_current_idx in *; rewrite ?Hl; done|].
  intros [e cur] s2 Hr. cbn in Hr. do 5 rstep. cbn. intros He _.
  destruct (Hr He) as (-> & Hmerged & Ht2 & Hc2). unfold merged in *. rewrite Hl in *.
  split_and!; try apply Hmerged; try done; try congruence.
  rewrite Hc2. unfold follow_commit, raft_get_commit_idx. injection Hk as -> _ _ _ _. done.
Qed.
End handler.

(** C6: a successful append-entries request on a started server whose log starts
    no later than the request does turns the log into what the Raft rule says:
    entries already present with the same term are kept, the first conflicting
    entry and everything after it goes, the missing entries are appended
    ([reconcile]).  The reply acknowledges exactly the entries of the request, the
    server is in the leader's term, and the commit index becomes the smaller of the
    leader's and the last index, and never moves back. *)
Theorem append_entries_reconciles {U} (p : option raft_node_t) (ae : msg_appendentries_t)
    (s s' : raft U) (r : msg_appendentries_response_t) :
  started s → lg_base s.1 ≤ ae_prev_log_idx ae →
  ae_n_entries ae = Z.of_nat (length (ae_entries ae)) →
  raft_recv_appendentries p ae s = Ok (0, r, s') → aer_success r = 1 →
  merged ae s s' ∧
  aer_current_idx r = ae_prev_log_idx ae + ae_n_entries ae ∧
  aer_term r = ae_term ae ∧ raft_get_current_term s' = ae_term ae ∧
  raft_get_current_term s ≤ ae_term ae ∧
  raft_get_commit_idx s' = follow_commit (ae_leader_commit ae) s (raft_get_current_idx s') ∧
  raft_get_commit_idx s ≤ raft_get_commit_idx s'.
Proof.
  intros Hs Hb Hn Hrun Hok. pose proof (started_inv _ Hs) as Hinv.
  destruct (wq_run _ _ _ _ _ _ (recv_appendentries_spec p ae s Hinv Hb Hn) Hrun eq_refl Hok)
    as (? & _ & ? & ? & ? & ? & ?).
  destruct (preserves_run index_rel _ _ _ _ Hrun Hinv) as [_ [_ _ Hc _]]. by split_and!.
Qed.

(** A follower that replaces its second entry. *)
Definition conflicting : msg_appendentries_t := mk_appendentries 2 1 1 2 2 [command 2 9; command 2 10].
Definition behind : raft trace := after (run_raft_ops one_committed) begun.
Lemma behind_started : started behind.
Proof. apply (started_begun _ [0; 0; 0; 0]). vm_compute. reflexivity. Qed.

Lemma append_entries_reconciles_witness :
  ∃ s', raft_recv_appendentries (Some 3%positive) conflicting behind =
      Ok (0, mk_appendentries_response 2 1 3 2, s') ∧
    strip <$> log_list s'.1 = [(1, 7, 0); (2, 9, 0); (2, 10, 0)] ∧ raft_get_commit_idx s' = 2.
Proof.
  eexists.
  assert (raft_recv_appendentries (Some 3%positive) conflicting behind =
      Ok (0, mk_appendentries_response 2 1 3 2,
          after (raft_recv_appendentries (Some 3%positive) conflicting) behind)) as E
    by (apply after_result; vm_compute; reflexivity).
  split; [exact E|].
  assert (lg_base behind.1 ≤ ae_prev_log_idx conflicting) as Hb by (vm_compute; discriminate).
  destruct (append_entries_reconciles (Some 3%positive) conflicting behind _ _ behind_started Hb eq_refl E eq_refl)
    as ((_ & _ & Hm) & _ & _ & _ & _ & Hc & _).
  clear E. split; [rewrite Hm; vm_compute; reflexivity|]. rewrite Hc. vm_compute. reflexivity.
Defined.

(** C24: when a started server whose log begins no later than the request (the base of the log, up to which
    entries were compacted, is at most the request's previous index) answers an
    append-entries request, whose entry count is the length of its array, with code 0 and success, then the
    entry at the previous index had the term the request names, every entry of the request is
    in the server's log at its index with the leader's term, the entries up to
    the previous index are the ones of before, and the log either has the entries of before or
    ends with the request's last entry. *)
Theorem append_entries_log_matching {U} (p : option raft_node_t) (ae : msg_appendentries_t)
    (s s' : raft U) (r : msg_appendentries_response_t) :
  started s → lg_base s.1 ≤ ae_prev_log_idx ae →
  ae_n_entries ae = Z.of_nat (length (ae_entries ae)) →
  raft_recv_appendentries p ae s = Ok (0, r, s') → aer_success r = 1 →
  prev_matches ae s ∧
  (∀ i ety, ae_entries ae !! i = Some ety →
     ∃ ety', log_get_at_idx s'.1 (ae_prev_log_idx ae + 1 + Z.of_nat i) = Ok (Some ety') ∧
       ety_term ety' = ety_term ety) ∧
  (∀ idx, idx ≤ ae_prev_log_idx ae →
     strip <$> entry_at s'.1 idx = strip <$> entry_at s.1 idx) ∧
  (strip <$> log_list s'.1 = strip <$> log_list s.1 ∨
   raft_get_current_idx s' = ae_prev_log_idx ae + ae_n_entries ae).
Proof.
  intros Hs Hb Hn Hrun Hok. pose proof (started_inv _ Hs) as Hinv.
  destruct (wq_run _ _ _ _ _ _ (recv_appendentries_spec p ae s Hinv Hb Hn) Hrun eq_refl Hok)
    as ((Hwf & Hbase & Hrec) & Hprev & _).
  pose proof (prev_in_log _ _ Hinv Hb Hprev) as Hd. cbn in Hok.
  set (d := Z.to_nat (ae_prev_log_idx ae - lg_base s.1)) in *.
  split_and!; [done| | |].
  - intros i ety Hi. destruct (reconcile_terms d (strip <$> ae_entries ae) (strip <$> log_list s.1) i (strip ety))
      as (x & Hx & Hxt); [by rewrite length_fmap|by rewrite list_lookup_fmap, Hi|].
    rewrite <- Hrec, list_lookup_fmap in Hx. apply fmap_Some in Hx as (ety' & Hat & ->).
    exists ety'. rewrite log_get_at_idx_spec, (proj2 (Z.ltb_lt _ _)) by (done || lia).
    split; [|done]. rewrite Hbase, <- Hat. f_equal. f_equal. lia.
  - intros idx Hidx. unfold entry_at. rewrite Hbase. case_match; [|done]. bool_prop.
    rewrite <- !list_lookup_fmap. rewrite <- (lookup_take_lt _ d), <- (lookup_take_lt (strip <$> log_list s.1) d) by lia.
    by rewrite Hrec, reconcile_prefix by (by rewrite length_fmap).
  - destruct (reconcile_length d (strip <$> ae_entries ae) (strip <$> log_list s.1)) as [Hl|Hl];
      [by rewrite length_fmap|left; congruence|right].
    rewrite <- Hrec, !length_fmap in Hl. unfold raft_get_current_idx, log_get_current_idx, log_count.
    rewrite log_count_list by done. lia.
Qed.

Lemma append_entries_log_matching_witness :
  ∃ s' ety', raft_recv_appendentries (Some 3%positive) conflicting behind =
      Ok (0, mk_appendentries_response 2 1 3 2, s') ∧
    log_get_at_idx s'.1 3 = Ok (Some ety') ∧ ety_term ety' = 2.
Proof.
  assert (raft_recv_appendentries (Some 3%positive) conflicting behind =
      Ok (0, mk_appendentries_response 2 1 3 2,
          after (raft_recv_appendentries (Some 3%positive) conflicting) behind)) as E
    by (apply after_result; vm_compute; reflexivity).
  assert (lg_base behind.1 ≤ ae_prev_log_idx conflicting) as Hb by (vm_compute; discriminate).
  destruct (append_entries_log_matching (Some 3%positive) conflicting behind _ _ behind_started Hb eq_refl E eq_refl)
    as (_ & Hat & _). destruct (Hat 1%nat (command 2 10) eq_refl) as (ety' & Hety & Hterm).
  exists (after (raft_recv_appendentries (Some 3%positive) conflicting) behind), ety'.
  split; [exact E|]. split; [exact Hety|exact Hterm].
Defined.

(** A request of an earlier term is refused without touching anything: the
    call returns 0, the reply carries the server's own term and last index, and the
    state of the server is unchanged. *)
Theorem stale_append_rejected {U} (p : option raft_node_t) (ae : msg_appendentries_t) (s : raft U) :
  ae_term ae < raft_get_current_term s → 0 ≤ ae_prev_log_idx ae < LONG_MAX →
  raft_recv_appendentries p ae s =
    Ok (0, mk_appendentries_response (raft_get_current_term s) 0 (raft_get_current_idx s)
             (ae_prev_log_idx ae + 1), s).
Proof.
  unfold raft_get_current_term. intros Ht Hp.
  enough (wp (raft_recv_appendentries p ae) (λ r s', r = (0, mk_appendentries_response (current_term (me s.2)) 0
    (raft_get_current_idx s) (ae_prev_log_idx ae + 1)) ∧ s' = s) s) as Hw.
  { apply wp_iff in Hw as (r & s' & -> & -> & ->). done. }
  unfold raft_recv_appendentries, ae_check. do 4 rstep.
  rewrite (proj2 (Z.eqb_neq _ _)), andb_false_r by lia.
  rewrite (proj2 (Z.ltb_ge _ _)) by lia. rewrite (proj2 (Z.ltb_lt _ _)) by lia.
  do 8 rstep; [|by rstep]. intros Hf%not_true_iff_false. apply Hf, in_long_true.
  unfold LONG_MIN, LONG_MAX in *. lia.
Qed.

Lemma stale_append_rejected_witness :
  raft_recv_appendentries (Some 1%positive) (mk_appendentries 0 5 0 9 1 [command 0 3]) follower =
    Ok (0, mk_appendentries_response 1 0 2 6, follower).
Proof.
  apply (stale_append_rejected (Some 1%positive) (mk_appendentries 0 5 0 9 1 [command 0 3]) follower).
  - vm_compute. reflexivity.
  - vm_compute. split; [discriminate|reflexivity].
Defined.
