(* ===== verification/RaftTermination.v ===== *)
(** * Termination

    Two loops of the library are not bounded by a counter the code carries: the
    truncation loop of [log_delete] and the loop of [raft_apply_all].  They are
    modelled with fuel; here is the proof that the fuel the model gives them is
    always enough, for every entry point of the interface. *)

From S2P Require Import Prelude RaftTypes RaftNode RaftLog RaftLogSpec RaftMembership RaftServer RaftRun RaftFrame RaftElection RaftIndex.

Abbreviation no_fuel := (λ f : fault, f ≠ OutOfFuel).

(** [Terminates I m]: from a state in [I], [m] does not run out of fuel, and when
    it returns it does so in a state in [I]. *)
Class Terminates {U A} (I : raft U → Prop) (m : M (raft U) A) : Prop :=
  terminates s : I s → wq no_fuel m (λ _ s', I s') s.

(** Invariants that look at the log and the applied index only. *)
Class FrameInv {U} (I : raft U → Prop) : Prop :=
  frame_inv s s' : s.1 = s'.1 → last_applied_idx (me s.2) = last_applied_idx (me s'.2) → I s → I s'.

Section structure.
Context {U : Type} (I : raft U → Prop).
Abbreviation Term m := (Terminates I m).

#[global] Instance term_ret {A} (a : A) : Term (mret a).
Proof. by intros s. Qed.
#[global] Instance term_get : Term get.
Proof. by intros s. Qed.
#[global] Instance term_gets {A} (f : raft U → A) : Term (gets f).
Proof. by intros s. Qed.
#[global] Instance term_assert b : Term (assert_ b).
Proof. intros s Hs. by destruct b. Qed.
Lemma term_throw {A} e : e ≠ OutOfFuel → Term (throw (A := A) e).
Proof. by intros He s. Qed.
Lemma term_bind {A B} (m : M (raft U) A) (f : A → M (raft U) B) :
  Term m → (∀ a, Term (f a)) → Term (m ≫= f).
Proof.
  intros Hm Hf s Hs. rstep. eapply wq_mono; [by apply Hm|]. intros a s' Hs'. by apply Hf.
Qed.
Lemma term_lift {A} (o : outcome A) : (∀ f, o = Fault f → f ≠ OutOfFuel) → Term (lift o).
Proof. intros Ho s Hs. rstep. all: eauto. Qed.
Lemma term_for_each {A} (xs : list A) body : (∀ x, Term (body x)) → Term (for_each xs body).
Proof. intros Hb. induction xs; cbn; [apply _|]. by apply term_bind. Qed.
Lemma term_count_if {A} (xs : list A) test : (∀ x, Term (test x)) → Term (count_if xs test).
Proof.
  intros Hb. induction xs; cbn; [apply _|]. apply term_bind; [done|]. intros b.
  apply term_bind; [done|]. apply _.
Qed.
#[global] Instance term_add_int a b : Term (add_int a b).
Proof. intros s Hs. by rstep. Qed.
#[global] Instance term_add_long a b : Term (add_long a b).
Proof. intros s Hs. by rstep. Qed.
#[global] Instance term_arr_get {A} (l : list A) i : Term (lift (arr_get l i)).
Proof. apply term_lift. intros f. unfold arr_get. repeat case_match; naive_solver. Qed.
#[global] Instance term_arr_set {A} (l : list A) i x : Term (lift (arr_set l i x)).
Proof. apply term_lift. intros f. unfold arr_set. case_match; naive_solver. Qed.
#[global] Instance term_set_voting b n : Term (lift (raft_node_set_voting b n)).
Proof.
  apply term_lift. intros f. unfold raft_node_set_voting. repeat case_match; naive_solver.
Qed.
End structure.

Create HintDb term discriminated.
Ltac term_step :=
  lazymatch goal with
  | |- Terminates _ (mbind _ _) => apply term_bind; [|intros ?]
  | |- Terminates _ (for_each _ _) => apply term_for_each; intros ?
  | |- Terminates _ (count_if _ _) => apply term_count_if; intros ?
  | |- Terminates _ (throw _) => apply term_throw; discriminate
  | |- Terminates _ (if ?b then _ else _) => destruct b eqn:?
  | |- Terminates _ (match ?x with _ => _ end) => destruct x eqn:?
  | |- Terminates _ _ => first [solve [eauto with term nocore] | tc_solve]
  end.
Ltac term := repeat term_step.

Section primitives.
Context {U : Type} (I : raft U → Prop) `{!FrameInv I}.
Abbreviation Term m := (Terminates I m).

Lemma term_modify_host f : (∀ h : host U, last_applied_idx (me (f h)) = last_applied_idx (me h)) → Term (modify_host f).
Proof. intros Hf s Hs. rstep. by apply (frame_inv s); cbn. Qed.
Lemma term_modify_me f : (∀ m, last_applied_idx (f m) = last_applied_idx m) → Term (modify_me f).
Proof. intros Hf s Hs. rstep. by apply (frame_inv s); cbn. Qed.
#[local] Hint Extern 1 (Terminates _ (modify_host _)) => apply term_modify_host; reflexivity : term.
#[local] Hint Extern 1 (Terminates _ (modify_me _)) => apply term_modify_me; reflexivity : term.

#[global] Instance term_get_me : Term get_me.
Proof. by intros s. Qed.
#[global] Instance term_get_cb : Term get_cb.
Proof. by intros s. Qed.
#[global] Instance term_nodes_in_use : Term nodes_in_use.
Proof. by intros s. Qed.
#[global] Instance term_store p n : Term (store p n).
Proof. unfold store. term. Qed.
#[global] Instance term_free p : Term (raft_node_free p).
Proof. unfold raft_node_free. term. Qed.
#[global] Instance term_deref p : Term (deref p).
Proof. unfold deref. term. Qed.
#[global] Instance term_deref_ptr p : Term (deref_ptr p).
Proof. unfold deref_ptr. term. Qed.
#[global] Instance term_on_node p f : Term (on_node p f).
Proof. unfold on_node. term. Qed.
#[global] Instance term_on_node_voting p b : Term (on_node_o p (raft_node_set_voting b)).
Proof. unfold on_node_o. term. Qed.
#[global] Instance term_on_node_flag p op : Term (on_node_o p (run_flag_op op)).
Proof.
  unfold on_node_o. term. apply term_lift. intros f. destruct op; cbn; unfold raft_node_set_voting;
    repeat case_match; naive_solver.
Qed.
#[global] Instance term_call f : Term (call f).
Proof.
  intros s Hs. unfold wq, call. destruct (f _ _). by apply (frame_inv s).
Qed.
#[global] Instance term_call_void f : Term (call_void f).
Proof. intros s Hs. unfold wq, call_void. by apply (frame_inv s). Qed.
#[global] Instance term_c_rand : Term c_rand.
Proof. intros s Hs. unfold wq, c_rand. by apply (frame_inv s). Qed.
#[global] Instance term_c_alloc n : Term (c_alloc n).
Proof. intros s Hs. unfold wq, c_alloc. cbn. by apply (frame_inv s). Qed.

#[global] Instance term_get_nodeid : Term raft_get_nodeid.
Proof. unfold raft_get_nodeid. term. Qed.
#[global] Instance term_find_node ps id : Term (find_node ps id).
Proof. induction ps; cbn [find_node]; term. Qed.
#[global] Instance term_get_node id : Term (raft_get_node id).
Proof. unfold raft_get_node. term. Qed.
#[global] Instance term_find_my_node ps : Term (find_my_node ps).
Proof. induction ps; cbn [find_my_node]; term. Qed.
#[global] Instance term_get_my_node : Term raft_get_my_node.
Proof. unfold raft_get_my_node. term. Qed.
#[global] Instance term_num_voting : Term raft_get_num_voting_nodes.
Proof. unfold raft_get_num_voting_nodes. term. Qed.
#[global] Instance term_log_get_node_id e i : Term (log_get_node_id e i).
Proof. unfold log_get_node_id. term. Qed.
#[global] Instance term_add_node_internal e ud id b : Term (raft_add_node_internal e ud id b).
Proof. unfold raft_add_node_internal. term. Qed.
#[global] Instance term_add_node ud id b : Term (raft_add_node ud id b).
Proof. unfold raft_add_node. term. Qed.
#[global] Instance term_add_non_voting_internal e ud id b : Term (raft_add_non_voting_node_internal e ud id b).
Proof. unfold raft_add_non_voting_node_internal. term. Qed.
#[global] Instance term_add_non_voting ud id b : Term (raft_add_non_voting_node ud id b).
Proof. unfold raft_add_non_voting_node. term. Qed.
#[global] Instance term_remove_node p : Term (raft_remove_node p).
Proof. unfold raft_remove_node. term. Qed.
#[global] Instance term_offer_log e i : Term (raft_offer_log e i).
Proof. unfold raft_offer_log. term. Qed.
#[global] Instance term_pop_log e i : Term (raft_pop_log e i).
Proof. unfold raft_pop_log. term. Qed.
End primitives.

#[export] Hint Extern 1 (Terminates _ (modify_host _)) => apply term_modify_host; [tc_solve|reflexivity] : term.
#[export] Hint Extern 1 (Terminates _ (modify_me _)) => apply term_modify_me; [tc_solve|reflexivity] : term.

(** ** The log and the server *)
Section server.
Context {U : Type}.
Implicit Types s : raft U.

Definition live s : Prop := log_wf s.1 ∧ 0 ≤ last_applied_idx (me s.2).
#[global] Instance live_frame : FrameInv live.
Proof. unfold live. by intros s s' -> ->. Qed.
#[local] Instance always_frame : FrameInv (λ _ : raft U, True).
Proof. done. Qed.
Abbreviation Term m := (Terminates live m).

Lemma offer_hook_fault ety idx l (h : host U) f : lh_offer_log ety idx l h = Fault f → f ≠ OutOfFuel.
Proof.
  pose proof (term_offer_log (λ _, True) ety idx (l, h) I) as Ht. unfold wq in Ht.
  cbn. unfold as_hook. destruct (raft_offer_log ety idx (l, h)) as [[[] []]|]; [done|by intros [= <-]].
Qed.
Lemma pop_hook_fault ety idx l (h : host U) f : lh_pop_log ety idx l h = Fault f → f ≠ OutOfFuel.
Proof.
  pose proof (term_pop_log (λ _, True) ety idx (l, h) I) as Ht. unfold wq in Ht.
  cbn. unfold as_hook. destruct (raft_pop_log ety idx (l, h)) as [[[] []]|]; [done|by intros [= <-]].
Qed.

(** A log operation keeps the applied index: only its effect on the log matters. *)
Lemma term_log_op {A} (m : M (raft U) A) :
  Preserves (key_rel last_applied_idx eq) m →
  (∀ s, log_wf s.1 → wq no_fuel m (λ _ s', log_wf s'.1) s) → Term m.
Proof.
  intros Hk Hm s [Hwf Ha].
  eapply wq_mono; [apply (wq_and _ (λ _, True)); [by apply Hm|apply (Hk s)]|].
  intros a s' [Hwf' Hka]. split; [done|]. unfold key_rel, on_host in Hka. lia.
Qed.
#[local] Instance last_applied_frame : KeyFrame last_applied_idx.
Proof. by split. Qed.

#[global] Instance term_log_append ety : Term (log_append_entry ety).
Proof.
  apply term_log_op; [apply _|]. intros [l h] Hwf.
  eapply wq_mono; [apply log_append_entry_spec; [done|apply offer_hook_fault]|]. by intros e s' [? _].
Qed.
#[global] Instance term_log_delete idx : Term (log_delete idx).
Proof.
  apply term_log_op; [apply _|]. intros [l h] Hwf. destruct (decide (idx = 0)) as [->|Hidx].
  { unfold log_delete, get_log. do 2 rstep. cbn [Z.eqb]. by rstep. }
  eapply wq_mono; [apply log_delete_spec; [done|done|apply pop_hook_fault]|]. by intros e s' [? _].
Qed.
#[global] Instance term_log_poll : Term log_poll.
Proof.
  apply term_log_op; [apply _|]. intros [l h] Hwf.
  eapply wq_mono; [by apply log_poll_spec|]. by intros e s' [? _].
Qed.

#[global] Instance term_get_entry idx : Term (raft_get_entry_from_idx idx).
Proof.
  unfold raft_get_entry_from_idx. term. apply term_lift. intros f. unfold log_get_at_idx, arr_get, mbind, outcome_bind.
  repeat case_match; naive_solver.
Qed.
#[global] Instance term_get_entries idx : Term (raft_get_entries_from_idx idx).
Proof.
  unfold raft_get_entries_from_idx. term. apply term_lift. intros f. unfold log_get_from_idx.
  repeat case_match; naive_solver.
Qed.
#[global] Instance term_last_log_term : Term raft_get_last_log_term.
Proof. unfold raft_get_last_log_term. term. Qed.
#[global] Instance term_randomize : Term raft_randomize_election_timeout.
Proof. unfold raft_randomize_election_timeout. term. Qed.
#[global] Instance term_set_state st : Term (raft_set_state st).
Proof. unfold raft_set_state. term. Qed.
#[global] Instance term_set_current_term t : Term (raft_set_current_term t).
Proof. unfold raft_set_current_term. term. Qed.
#[global] Instance term_set_commit_idx i : Term (raft_set_commit_idx i).
Proof. unfold raft_set_commit_idx. term. Qed.
#[global] Instance term_become_follower : Term raft_become_follower.
Proof. unfold raft_become_follower. term. Qed.
#[global] Instance term_vote_for_nodeid i : Term (raft_vote_for_nodeid i).
Proof. unfold raft_vote_for_nodeid. term. Qed.
#[global] Instance term_vote p : Term (raft_vote p).
Proof. unfold raft_vote. term. Qed.
#[global] Instance term_nvotes : Term raft_get_nvotes_for_me.
Proof. unfold raft_get_nvotes_for_me. term. Qed.
#[global] Instance term_send_requestvote p : Term (raft_send_requestvote p).
Proof. unfold raft_send_requestvote. term. Qed.
#[global] Instance term_send_appendentries p : Term (raft_send_appendentries p).
Proof. unfold raft_send_appendentries. term. Qed.
#[global] Instance term_skip_peer p : Term (skip_peer p).
Proof. unfold skip_peer. term. Qed.
#[global] Instance term_send_loop ps : Term (send_appendentries_loop ps).
Proof. induction ps; cbn [send_appendentries_loop]; term. Qed.
#[global] Instance term_send_all : Term raft_send_appendentries_all.
Proof. unfold raft_send_appendentries_all. term. Qed.
#[global] Instance term_become_leader : Term raft_become_leader.
Proof. unfold raft_become_leader. term. Qed.
#[global] Instance term_become_candidate : Term raft_become_candidate.
Proof. unfold raft_become_candidate. term. Qed.
#[global] Instance term_append_entry ety : Term (raft_append_entry ety).
Proof. unfold raft_append_entry. term. Qed.
#[global] Instance term_delete_entry idx : Term (raft_delete_entry_from_idx idx).
Proof. unfold raft_delete_entry_from_idx. term. Qed.

(** ** Applying *)
Definition apply_key (m : raft_server_private_t) := (commit_idx m, last_applied_idx m).
#[local] Instance apply_key_frame : KeyFrame apply_key.
Proof. by split. Qed.

(** Applying one entry either does nothing and says so, or moves the applied
    index by one. *)
Lemma apply_entry_progress s :
  wlp raft_apply_entry (λ e s', commit_idx (me s'.2) = commit_idx (me s.2) ∧
    (e = 0 → last_applied_idx (me s'.2) = last_applied_idx (me s.2) + 1)) s.
Proof.
  unfold raft_apply_entry. do 2 rstep. wsplit; [by rstep|]. wsplit; [by rstep|].
  rstep. apply (wlp_read_only _). intros found _. destruct found as [ety|]; [|by rstep]. do 2 rstep.
  match goal with |- wq _ ?m _ _ => assert (Preserves (key_rel apply_key eq) m) as Hp by pres end.
  eapply wq_mono; [apply Hp|]. intros e s' Hk. unfold key_rel, on_host, apply_key in Hk.
  cbn in Hk. by injection Hk.
Qed.
#[global] Instance term_apply_entry : Term raft_apply_entry.
Proof.
  intros s Hs. unfold raft_apply_entry. do 2 rstep. wsplit; [by rstep|]. wsplit; [by rstep|].
  rstep. eapply wq_mono; [by apply term_get_entry|]. intros found s1 Hs1.
  destruct found as [ety|]; [|by rstep]. do 2 rstep.
  match goal with |- wq _ ?m _ _ => assert (Term m) as Hp by term end.
  apply Hp. destruct Hs1. split; cbn; [done|lia].
Qed.
Lemma apply_loop_terminates fuel s :
  live s → (Z.to_nat (commit_idx (me s.2) - last_applied_idx (me s.2)) ≤ fuel)%nat →
  wq no_fuel (apply_loop fuel) (λ e s', live s' ∧ (e = 0 → commit_idx (me s'.2) ≤ last_applied_idx (me s'.2))) s.
Proof.
  revert s. induction fuel as [|fuel IH]; intros s Hs Hf; cbn [apply_loop]; do 2 rstep;
    unfold raft_get_last_applied_idx, raft_get_commit_idx; wsplit; bool_prop; try lia; try (by rstep).
  rstep. eapply wq_mono; [apply (wq_and _ (λ _, True)); [by apply term_apply_entry|apply apply_entry_progress]|].
  intros e s1 [Hs1 [Hc Ha]]. wsplit; bool_prop; [by rstep|]. apply IH; [done|]. rewrite Hc, (Ha Heqb0). lia.
Qed.
Lemma apply_all_terminates s :
  live s → wq no_fuel raft_apply_all (λ e s', live s' ∧
    (e = 0 → raft_is_apply_allowed s = true → commit_idx (me s'.2) ≤ last_applied_idx (me s'.2))) s.
Proof.
  intros Hs. unfold raft_apply_all. do 2 rstep. wsplit; bool_prop; [rstep; split; [done|intros; congruence]|].
  eapply wq_mono; [by apply apply_loop_terminates|]. naive_solver.
Qed.
#[global] Instance term_apply_all : Term raft_apply_all.
Proof. intros s Hs. eapply wq_mono; [by apply apply_all_terminates|]. by intros ? ? []. Qed.

(** ** The handlers *)
#[global] Instance term_recv_appendentries_response p r : Term (raft_recv_appendentries_response p r).
Proof. unfold raft_recv_appendentries_response. term. Qed.
#[global] Instance term_ae_check p ae : Term (ae_check p ae).
Proof. unfold ae_check. term. Qed.
#[global] Instance term_ae_match_loop ae n i cur : Term (ae_match_loop ae n i cur).
Proof. revert i cur. induction n; intros i cur; cbn [ae_match_loop]; term. Qed.
#[global] Instance term_ae_append_loop ae n i cur : Term (ae_append_loop ae n i cur).
Proof. revert i cur. induction n; intros i cur; cbn [ae_append_loop]; term. Qed.
#[global] Instance term_ae_entries_step ae : Term (ae_entries_step ae).
Proof. unfold ae_entries_step. term. Qed.
#[global] Instance term_recv_appendentries p ae : Term (raft_recv_appendentries p ae).
Proof. unfold raft_recv_appendentries. term. Qed.
#[global] Instance term_should_grant_vote vr : Term (__should_grant_vote vr).
Proof. unfold __should_grant_vote. term. Qed.
#[global] Instance term_recv_requestvote p vr : Term (raft_recv_requestvote p vr).
Proof. unfold raft_recv_requestvote. term. Qed.
#[global] Instance term_recv_requestvote_response p r : Term (raft_recv_requestvote_response p r).
Proof. unfold raft_recv_requestvote_response. term. Qed.
#[global] Instance term_recv_entry e r : Term (raft_recv_entry e r).
Proof. unfold raft_recv_entry. term. Qed.
#[global] Instance term_periodic n : Term (raft_periodic n).
Proof. unfold raft_periodic, raft_election_start. term. Qed.
#[global] Instance term_begin_snapshot f : Term (raft_begin_snapshot f).
Proof. unfold raft_begin_snapshot, raft_set_snapshot_metadata. term. Qed.
#[global] Instance term_cancel_snapshot : Term raft_cancel_snapshot.
Proof. unfold raft_cancel_snapshot. term. Qed.
#[global] Instance term_poll_entry : Term raft_poll_entry.
Proof. unfold raft_poll_entry. term. Qed.
#[global] Instance term_poll_loop n : Term (poll_loop n).
Proof. induction n; cbn [poll_loop]; term. Qed.
#[global] Instance term_end_snapshot : Term raft_end_snapshot.
Proof. unfold raft_end_snapshot. term. Qed.
#[global] Instance term_keep_self ps i j : Term (keep_self_loop ps i j).
Proof. revert i j. induction ps; intros i j; cbn [keep_self_loop]; term. Qed.
#[global] Instance term_end_load_snapshot : Term raft_end_load_snapshot.
Proof. unfold raft_end_load_snapshot. term. Qed.
#[global] Instance term_begin_load_snapshot t i : Term (raft_begin_load_snapshot t i).
Proof.
  intros s Hs. unfold raft_begin_load_snapshot. do 2 rstep. do 5 (wsplit; [by rstep|]). bool_prop.
  do 7 rstep. assert (0 ≤ i) as Hi by (destruct Hs; lia).
  eapply wq_mono; [apply log_load_from_snapshot_spec; [apply Hs|done]|].
  intros e s1 (_ & Hwf & _). do 3 rstep.
  eapply wq_mono with (P := λ _ s2, log_wf s2.1).
  { wsplit; [|by rstep]. unfold raft_set_commit_idx. by do 7 rstep. }
  intros [] s2 Hwf2. do 2 rstep. unfold raft_set_snapshot_metadata.
  match goal with |- wq _ ?m _ _ => assert (Term m) as Hp by term end. by apply Hp.
Qed.

#[global] Instance term_clear_entries : Term log_clear_entries.
Proof.
  apply term_log_op; [apply _|]. intros [l h] Hwf. eapply wq_mono; [by apply log_clear_entries_log|].
  by intros _ s' ->.
Qed.
#[global] Instance term_log_clear : Term (modify_log log_clear).
Proof. intros s [Hwf Ha]. unfold modify_log. rstep. split; [|done]. destruct Hwf. split; cbn; try done; lia. Qed.
Lemma term_reset_applied (f : raft_server_private_t → raft_server_private_t) :
  (∀ m, last_applied_idx (f m) = 0) → Term (modify_me f).
Proof. intros Hf s [Hwf _]. rstep. split; cbn; [done|]. rewrite Hf. lia. Qed.
#[local] Hint Extern 2 (Terminates _ (modify_me _)) => apply term_reset_applied; reflexivity : term.
#[global] Instance term_clear : Term raft_clear.
Proof. unfold raft_clear. term. Qed.
#[global] Instance term_set_snapshot_metadata t i : Term (raft_set_snapshot_metadata t i).
Proof. unfold raft_set_snapshot_metadata. term. Qed.
Lemma term_run_op op : Term (run_raft_op op).
Proof.
  destruct op; cbn [run_raft_op]; unfold raft_set_election_timeout, raft_set_request_timeout; term.
Qed.
End server.

(** C26: no entry point of the interface loops forever: on every started server
    every call either returns or stops at an assertion or undefined behaviour; in
    particular the truncation loop of [log_delete] and the loop of
    [raft_apply_all] end within the bounds the model gives them. *)
Theorem calls_terminate {U} (op : raft_op) (s : raft U) :
  started s → run_raft_op op s ≠ Fault OutOfFuel.
Proof.
  intros [Hwf ? ? ? ? ?]%started_inv Hrun.
  assert (live s) as Hs by (pose proof (wf_base _ Hwf); split; [done|lia]).
  pose proof (term_run_op op s Hs) as Ht. unfold wq in Ht. by rewrite Hrun in Ht.
Qed.

Definition to_apply : raft trace := after (run_raft_ops (members 1 ++ elect ++ replicate_two)) begun.
Lemma calls_terminate_witness : run_raft_op OpApplyAll to_apply ≠ Fault OutOfFuel.
Proof.
  apply (calls_terminate OpApplyAll to_apply).
  apply (started_begun _ [0; 0; 0; 0; 0; 0; 0; 0]). vm_compute. reflexivity.
Defined.

(** * Applying committed entries

    [raft_apply_all] hands the user every entry between the applied and the commit
    index, each once, in order, with its index. *)

Section apply.
Context {U : Type}.
Implicit Types s : raft U.

(** Committed and not yet applied, oldest first. *)
Definition pending s : list raft_entry_t :=
  take (Z.to_nat (commit_idx (me s.2) - last_applied_idx (me s.2)))
    (drop (Z.to_nat (last_applied_idx (me s.2) - lg_base s.1)) (log_list s.1)).

(** The user's state after being handed entries from index [idx] on. *)
Fixpoint apply_entries (g : raft_entry_t → raft_index_t → U → U) (idx : raft_index_t)
    (es : list raft_entry_t) (u : U) : U :=
  match es with
  | [] => u
  | e :: es => apply_entries g (idx + 1) es (g e idx u)
  end.

Definition plain (e : raft_entry_t) : Prop := raft_entry_is_cfg_change e = false.

(** An [applylog] callback that never asks to shut down and whose effect on the
    user's state depends on the entry, its index and that state. *)
Definition applies_with (g : raft_entry_t → raft_index_t → U → U) s : Prop :=
  ∃ f, cb_applylog (cb s.2) = Some f ∧ ∀ v u e i, f v u e i = (0, g e i u).

Definition applied_to s s' : Prop :=
  s'.1 = s.1 ∧ commit_idx (me s'.2) = commit_idx (me s.2) ∧ cb s'.2 = cb s.2 ∧
  raft_is_apply_allowed s' = raft_is_apply_allowed s.

Lemma pending_cons s :
  index_inv s → last_applied_idx (me s.2) < commit_idx (me s.2) →
  ∃ e es, pending s = e :: es ∧
    log_get_at_idx s.1 (last_applied_idx (me s.2) + 1) = Ok (Some e) ∧
    ∀ s', s'.1 = s.1 → commit_idx (me s'.2) = commit_idx (me s.2) →
      last_applied_idx (me s'.2) = last_applied_idx (me s.2) + 1 → pending s' = es.
Proof.
  intros [Hwf ? ? Hcur ? ?] Hlt.
  unfold raft_get_current_idx, log_get_current_idx, log_count in Hcur. rewrite log_count_list in Hcur by done.
  set (k := Z.to_nat (last_applied_idx (me s.2) - lg_base s.1)).
  destruct (lookup_lt_is_Some_2 (log_list s.1) k) as [e He]; [lia|].
  exists e, (take (Z.to_nat (commit_idx (me s.2) - last_applied_idx (me s.2) - 1)) (drop (S k) (log_list s.1))).
  split_and!.
  - unfold pending. fold k. rewrite (drop_S _ _ _ He).
    replace (Z.to_nat (commit_idx (me s.2) - last_applied_idx (me s.2)))
      with (S (Z.to_nat (commit_idx (me s.2) - last_applied_idx (me s.2) - 1))) by lia. done.
  - rewrite log_get_at_idx_spec, (proj2 (Z.ltb_lt _ _)) by (done || lia). rewrite <- He. do 2 f_equal. lia.
  - intros s' Hl Hc Ha. unfold pending. rewrite Hl, Hc, Ha. f_equal; [lia|]. f_equal. lia.
Qed.

Lemma apply_entry_plain g s e es :
  index_inv s → raft_is_apply_allowed s = true → applies_with g s →
  last_applied_idx (me s.2) < commit_idx (me s.2) → pending s = e :: es → plain e →
  wp raft_apply_entry (λ r s', r = 0 ∧ applied_to s s' ∧ pending s' = es ∧
    last_applied_idx (me s'.2) = last_applied_idx (me s.2) + 1 ∧
    udata s'.2 = g e (last_applied_idx (me s.2) + 1) (udata s.2)) s.
Proof.
  intros Hinv Hal (f & Hf & Hg) Hlt Hp Hplain.
  destruct (pending_cons s Hinv Hlt) as (e' & es' & Hp' & Hat & Hnext). rewrite Hp in Hp'. injection Hp' as <- <-.
  unfold raft_apply_entry. do 2 rstep. rewrite Hal. cbn [negb].
  rewrite (proj2 (Z.eqb_neq _ _)) by (unfold raft_get_commit_idx; lia).
  unfold raft_get_entry_from_idx. do 3 rstep. apply (wp_lift (Some e)); [done|]. do 7 rstep. cbn. rewrite Hf.
  unfold call, wq at 1. rewrite Hg. cbn. do 3 rstep.
  eapply wq_mono with (P := λ _ s1, applied_to s s1 ∧ last_applied_idx (me s1.2) = last_applied_idx (me s.2) + 1 ∧
    udata s1.2 = g e (last_applied_idx (me s.2) + 1) (udata s.2)).
  { wsplit; rstep; split_and!; try done; by rewrite <- Hal. }
  intros [] s1 (Hto & Ha & Hu). unfold plain in Hplain. rewrite Hplain. cbn [negb]. rstep.
  split_and!; try done; try apply Hto. by apply Hnext; [apply Hto..|].
Qed.

Lemma apply_loop_plain g fuel s :
  index_inv s → raft_is_apply_allowed s = true → applies_with g s →
  fuel = Z.to_nat (commit_idx (me s.2) - last_applied_idx (me s.2)) → Forall plain (pending s) →
  wp (apply_loop fuel) (λ r s', r = 0 ∧ applied_to s s' ∧
    last_applied_idx (me s'.2) = commit_idx (me s.2) ∧
    udata s'.2 = apply_entries g (last_applied_idx (me s.2) + 1) (pending s) (udata s.2)) s.
Proof.
  revert s. induction fuel as [|fuel IH]; intros s Hinv Hal Hg Hfuel Hplain; cbn [apply_loop]; do 2 rstep;
    unfold raft_get_last_applied_idx, raft_get_commit_idx; pose proof (inv_applied _ Hinv);
    wsplit; bool_prop; try lia.
  - rstep. split_and!; try done; [lia|]. unfold pending. by rewrite <- Hfuel.
  - destruct (pending_cons s Hinv ltac:(done)) as (e & es & Hp & _). rewrite Hp in *.
    apply Forall_cons in Hplain as [He Hes]. rstep.
    eapply wq_mono; [apply (wq_and _ (λ _, True)); [by eapply apply_entry_plain|apply (index_apply_entry s)]|].
    intros r s1 [(-> & (Hl & Hc & Hcb & Hal1) & Hp1 & Ha & Hu) Hr]. cbn [Z.eqb negb].
    eapply wq_mono; [apply IH|].
    + by apply Hr.
    + congruence.
    + destruct Hg as (f & Hf & Hg). exists f. by rewrite Hcb.
    + lia.
    + by rewrite Hp1.
    + intros r s2 (-> & (Hl2 & Hc2 & Hcb2 & Hal2) & Ha2 & Hu2).
      split_and!; try congruence; [unfold applied_to; split_and!; congruence|].
      by rewrite Hu2, Hp1, Ha, Hu.
Qed.
End apply.

(** C25: on a started server that may apply (no blocking snapshot is being taken), whose pending committed entries
    are ordinary commands, and whose applylog callback is set and always returns 0 (it never asks to
    shut down), with an effect g on the user's state, [raft_apply_all] succeeds: it hands the user every
    pending entry exactly once, in log order, with its index, and leaves the applied
    index at the commit index; the log and the commit index do not change. *)
Theorem apply_all_in_order {U} (g : raft_entry_t → raft_index_t → U → U) (s : raft U) :
  started s → raft_is_apply_allowed s = true → applies_with g s → Forall plain (pending s) →
  ∃ s', raft_apply_all s = Ok (0, s') ∧
    udata s'.2 = apply_entries g (raft_get_last_applied_idx s + 1) (pending s) (udata s.2) ∧
    raft_get_last_applied_idx s' = raft_get_commit_idx s ∧
    raft_get_commit_idx s' = raft_get_commit_idx s ∧ s'.1 = s.1.
Proof.
  intros Hs%started_inv Hal Hg Hplain.
  enough (wp raft_apply_all (λ r s', r = 0 ∧ applied_to s s' ∧
    last_applied_idx (me s'.2) = commit_idx (me s.2) ∧
    udata s'.2 = apply_entries g (last_applied_idx (me s.2) + 1) (pending s) (udata s.2)) s) as Hw.
  { apply wp_iff in Hw as (r & s' & Hrun & -> & (Hl & Hc & _) & Ha & Hu). exists s'. by split_and!. }
  unfold raft_apply_all. do 2 rstep. rewrite Hal. cbn [negb]. by apply apply_loop_plain.
Qed.

Definition with_two_committed : raft trace :=
  after (run_raft_ops (members 1 ++ elect ++ replicate_two)) begun.
Lemma two_committed_started : started with_two_committed.
Proof. apply (started_begun _ [0; 0; 0; 0; 0; 0; 0; 0]). vm_compute. reflexivity. Qed.
Lemma two_committed_pending :
  pending with_two_committed = [command 1 7; command 1 8] ∧
  raft_get_last_applied_idx with_two_committed = 0 ∧ raft_get_commit_idx with_two_committed = 2 ∧
  raft_is_apply_allowed with_two_committed = true.
Proof. vm_compute. auto. Qed.
Lemma two_committed_applies : applies_with (λ e i u, u ++ [Applied i e]) with_two_committed.
Proof. exists (λ _ u e i, (0, u ++ [Applied i e])). split; [vm_compute; reflexivity|reflexivity]. Qed.

Lemma apply_all_in_order_witness :
  ∃ s', raft_apply_all with_two_committed = Ok (0, s') ∧
    udata s'.2 = apply_entries (λ e i u, u ++ [Applied i e]) 1 [command 1 7; command 1 8] (udata with_two_committed.2) ∧
    raft_get_last_applied_idx s' = 2.
Proof.
  destruct two_committed_pending as (Hp & Ha0 & Hc & Hal).
  destruct (apply_all_in_order (λ e i u, u ++ [Applied i e]) with_two_committed two_committed_started Hal
    two_committed_applies) as (s' & Hrun & Hu & Ha & _).
  - rewrite Hp. repeat constructor.
  - exists s'. rewrite Hp, Ha0 in Hu. rewrite Hc in Ha. split; [exact Hrun|]. split; [exact Hu|exact Ha].
Defined.
