(* ===== verification/RaftSnapshot.v ===== *)
(** * Snapshots

    Taking a snapshot ([raft_begin_snapshot], [raft_cancel_snapshot],
    [raft_end_snapshot]) and installing one received from a leader
    ([raft_begin_load_snapshot]). *)

From S2P Require Import Prelude RaftTypes RaftNode RaftLog RaftLogSpec RaftMembership RaftServer RaftRun RaftFrame RaftElection RaftIndex RaftTermination.

(** ** Applying does not touch the log *)
Section apply_log.
Context {U : Type}.

Definition snapshot_key (m : raft_server_private_t) :=
  (commit_idx m, current_term m, voted_for m,
   (snapshot_last_idx m, snapshot_last_term m, snapshot_in_progress m,
    saved_snapshot_last_idx m, saved_snapshot_last_term m)).
#[global] Instance snapshot_key_frame : KeyFrame snapshot_key.
Proof. by split. Qed.
Abbreviation Same m := (Preserves (S := raft U) (same_rel snapshot_key) m).

#[global] Instance same_apply_entry : Same raft_apply_entry.
Proof. unfold raft_apply_entry. pres. Qed.
#[global] Instance same_apply_loop n : Same (apply_loop n).
Proof. induction n; cbn [apply_loop]; pres. Qed.
#[global] Instance same_apply_all : Same raft_apply_all.
Proof. unfold raft_apply_all. pres. Qed.
End apply_log.

(** ** Taking a snapshot *)
Section take.
Context {U : Type}.
Implicit Types s : raft U.

Lemma begin_snapshot_spec flags s :
  wlp (raft_begin_snapshot flags) (λ e s', s'.1 = s.1 ∧ commit_idx (me s'.2) = commit_idx (me s.2) ∧
    (e = 0 →
      (∃ ety, log_get_at_idx s.1 (commit_idx (me s.2)) = Ok (Some ety) ∧
         snapshot_last_term (me s'.2) = ety_term ety) ∧
      snapshot_last_idx (me s'.2) = commit_idx (me s.2) ∧
      last_applied_idx (me s'.2) = commit_idx (me s.2) ∧
      snapshot_in_progress (me s'.2) = 1 ∧ snapshot_flags (me s'.2) = flags ∧
      saved_snapshot_last_idx (me s'.2) = snapshot_last_idx (me s.2) ∧
      saved_snapshot_last_term (me s'.2) = snapshot_last_term (me s.2))) s.
Proof.
  unfold raft_begin_snapshot. do 2 rstep. wsplit; [by rstep|]. wsplit; [by rstep|].
  unfold raft_get_entry_from_idx. do 4 rstep. rename H into Hat, a into found.
  destruct found as [ety|]; [|by rstep]. rstep.
  eapply wq_mono; [apply same_apply_all|]. intros e s1 [Hl Hk]. injection Hk as Hc _ _ Hsi Hst _ _ _.
  wsplit; bool_prop; [rstep; split_and!; try done; congruence|].
  do 4 rstep. bool_prop. unfold raft_set_snapshot_metadata. do 7 rstep.
  unfold raft_get_commit_idx, raft_get_last_applied_idx in *. cbn.
  split_and!; try done. intros _. split_and!; try congruence. eauto.
Qed.

Lemma cancel_snapshot_run s :
  snapshot_in_progress (me s.2) ≠ 0 →
  raft_cancel_snapshot s = Ok (0, (s.1, set_me (set_snapshot_in_progress 0
    (set_snapshot_last_term (saved_snapshot_last_term (me s.2))
      (set_snapshot_last_idx (saved_snapshot_last_idx (me s.2)) (me s.2)))) s.2)).
Proof.
  intros Hp. unfold raft_cancel_snapshot, get_me, mbind, M_bind, gets.
  by rewrite (proj2 (Z.eqb_neq _ _)).
Qed.

Lemma end_snapshot_spec s :
  index_inv s →
  wlp raft_end_snapshot (λ e s', e = 0 →
    snapshot_in_progress (me s.2) ≠ 0 ∧
    snapshot_in_progress (me s'.2) = 0 ∧ lg_base s'.1 = snapshot_last_idx (me s.2) ∧
    snapshot_last_idx (me s.2) = commit_idx (me s.2) ∧
    idx_key (me s'.2) = idx_key (set_snapshot_in_progress 0 (me s.2)) ∧
    raft_get_current_idx s' = raft_get_current_idx s ∧
    strip <$> log_list s'.1 =
      drop (Z.to_nat (snapshot_last_idx (me s.2) - lg_base s.1)) (strip <$> log_list s.1)) s.
Proof.
  intros Hinv. unfold raft_end_snapshot. do 2 rstep. wsplit; [by rstep|]. do 4 rstep. bool_prop.
  pose proof (inv_log _ Hinv) as Hwf. rstep.
  eapply wq_mono; [by apply poll_loop_spec|]. intros e s1 (Hk & k & _ & Hfull & Ht).
  wsplit; bool_prop; [by rstep|]. specialize (Hfull ltac:(done)).
  do 2 rstep.
  match goal with |- wq _ ?m _ _ => assert (Preserves (same_rel idx_key) m) as Hp by pres end.
  eapply wq_mono; [apply Hp|]. intros e' s2 [Hl2 Hk2] _.
  destruct Ht as (Hwf1 & Hlen & Hb & Hs).
  unfold raft_get_num_snapshottable_logs, raft_get_commit_idx, log_get_base in *.
  destruct (raft_get_log_count s <=? 1); [done|].
  assert (Z.of_nat k = snapshot_last_idx (me s.2) - lg_base s.1) as Hkz
    by (destruct Hinv as [? ? ? ? ? ?]; lia).
  cbn in Hl2, Hk2. unfold idx_key in *. cbn in *. injection Hk as ? ? ? ? ?. injection Hk2 as ? ? ? ? ?.
  rewrite <- Hl2. unfold raft_get_current_idx, log_get_current_idx, log_count. rewrite <- Hl2.
  rewrite !log_count_list by done.
  apply (f_equal length) in Hs as Hlen1. rewrite length_drop, !length_fmap in Hlen1.
  split_and!; try done; try lia; [congruence|]. rewrite Hs. f_equal. lia.
Qed.
End take.

(** A snapshot that was begun describes the state up to the commit index: the
    entries up to it have been applied, its last index and term are those of the
    last committed entry; cancelling it succeeds and gives back the previous
    snapshot's index and term, with the log, the commit index and the applied index
    as they are after the begin. *)
Theorem begin_cancel_snapshot {U} (flags : Z) (s s1 : raft U) :
  raft_begin_snapshot flags s = Ok (0, s1) →
  s1.1 = s.1 ∧ raft_get_commit_idx s1 = raft_get_commit_idx s ∧
  raft_get_snapshot_last_idx s1 = raft_get_commit_idx s ∧
  raft_get_last_applied_idx s1 = raft_get_commit_idx s ∧
  (∃ ety, log_get_at_idx s.1 (raft_get_commit_idx s) = Ok (Some ety) ∧
     raft_get_snapshot_last_term s1 = ety_term ety) ∧
  raft_snapshot_is_in_progress s1 = true ∧
  ∃ s2, raft_cancel_snapshot s1 = Ok (0, s2) ∧ s2.1 = s.1 ∧
    raft_snapshot_is_in_progress s2 = false ∧
    raft_get_snapshot_last_idx s2 = raft_get_snapshot_last_idx s ∧
    raft_get_snapshot_last_term s2 = raft_get_snapshot_last_term s ∧
    raft_get_commit_idx s2 = raft_get_commit_idx s ∧
    raft_get_last_applied_idx s2 = raft_get_commit_idx s.
Proof.
  intros Hrun. destruct (wq_run _ _ _ _ _ _ (begin_snapshot_spec flags s) Hrun) as (Hl & Hc & Hok).
  destruct (Hok eq_refl) as (Hety & Hsi & Ha & Hp & _ & Hvi & Hvt).
  unfold raft_get_snapshot_last_idx, raft_get_snapshot_last_term, raft_get_commit_idx,
    raft_get_last_applied_idx, raft_snapshot_is_in_progress. rewrite Hp.
  split_and!; try done. eexists. split; [apply cancel_snapshot_run; lia|]. by split_and!.
Qed.

Definition applied_two : raft trace := after (run_raft_ops (members 1 ++ elect ++ replicate_two)) begun.
Lemma applied_two_started : started applied_two.
Proof. apply (started_begun _ [0; 0; 0; 0; 0; 0; 0; 0]). vm_compute. reflexivity. Qed.
Definition snapshotting : raft trace := after (raft_begin_snapshot 0) applied_two.
Lemma snapshotting_run : raft_begin_snapshot 0 applied_two = Ok (0, snapshotting).
Proof. unfold snapshotting. apply after_result. vm_compute. reflexivity. Qed.

Lemma begin_cancel_snapshot_witness :
  raft_get_snapshot_last_idx snapshotting = 2 ∧
  ∃ s2, raft_cancel_snapshot snapshotting = Ok (0, s2) ∧ raft_get_snapshot_last_idx s2 = 0.
Proof.
  destruct (begin_cancel_snapshot 0 applied_two snapshotting snapshotting_run)
    as (_ & _ & Hsi & _ & _ & _ & s2 & Hrun & _ & _ & Hsi2 & _).
  split; [rewrite Hsi; vm_compute; reflexivity|]. exists s2. split; [exact Hrun|].
  rewrite Hsi2. vm_compute. reflexivity.
Defined.

(** C30: ending a snapshot drops exactly the entries it covers: the log then starts
    right after the snapshot's last index, every later entry keeps its index, the
    last index, commit index and applied index are unchanged, and the snapshot is
    over. *)
Theorem end_snapshot_compacts {U} (s s' : raft U) :
  started s → raft_end_snapshot s = Ok (0, s') →
  raft_snapshot_is_in_progress s = true ∧ raft_snapshot_is_in_progress s' = false ∧
  log_get_base s'.1 = raft_get_snapshot_last_idx s ∧
  raft_get_snapshot_last_idx s = raft_get_commit_idx s ∧
  raft_get_current_idx s' = raft_get_current_idx s ∧
  raft_get_commit_idx s' = raft_get_commit_idx s ∧
  raft_get_last_applied_idx s' = raft_get_last_applied_idx s ∧
  (∀ idx, raft_get_commit_idx s < idx →
     strip <$> entry_at s'.1 idx = strip <$> entry_at s.1 idx).
Proof.
  intros Hs%started_inv Hrun.
  destruct (wq_run _ _ _ _ _ _ (end_snapshot_spec s Hs) Hrun eq_refl) as (Hp & Hp' & Hb & Hsi & Hk & Hcur & Hlog).
  injection Hk as Hc Ha _ _ _. unfold raft_snapshot_is_in_progress, raft_get_commit_idx, raft_get_last_applied_idx.
  rewrite Hp', (proj2 (Z.eqb_neq _ _)) by done. split_and!; try done. intros idx Hidx.
  destruct Hs as [? ? ? ? ? ?]. unfold entry_at. rewrite !(proj2 (Z.ltb_lt _ _)) by lia.
  rewrite <- !list_lookup_fmap, Hlog, lookup_drop. f_equal. lia.
Qed.

Definition snapshot_ops : list raft_op := members 1 ++ elect ++ replicate_two ++ [OpBeginSnapshot 0].
Definition snapshot_begun : raft trace := after (run_raft_ops snapshot_ops) begun.
Lemma snapshot_begun_started : started snapshot_begun.
Proof. apply (started_begun _ [0; 0; 0; 0; 0; 0; 0; 0; 0]). vm_compute. reflexivity. Qed.
Lemma end_snapshot_compacts_witness :
  ∃ s', raft_end_snapshot snapshot_begun = Ok (0, s') ∧ log_get_base s'.1 = 2 ∧ raft_get_current_idx s' = 2.
Proof.
  assert (raft_end_snapshot snapshot_begun = Ok (0, after raft_end_snapshot snapshot_begun)) as E
    by (apply after_result; vm_compute; reflexivity).
  destruct (end_snapshot_compacts snapshot_begun _ snapshot_begun_started E) as (_ & _ & Hb & _ & Hc & _).
  exists (after raft_end_snapshot snapshot_begun). split; [exact E|]. rewrite Hb, Hc.
  split; vm_compute; reflexivity.
Defined.

(** ** Installing a snapshot *)
Section load.
Context {U : Type}.
Implicit Types s : raft U.

(** When [raft_begin_load_snapshot] refuses, and the code it returns then. *)
Definition load_refused (term : raft_term_t) (idx : raft_index_t) s : option Z :=
  if idx =? -1 then Some (-1)
  else if (idx =? 0) || (term =? 0) then Some (-1)
  else if (idx <? last_applied_idx (me s.2)) then Some (-1)
  else if (idx <? raft_get_current_idx s) then Some (-1)
  else if (term =? snapshot_last_term (me s.2)) && (idx =? snapshot_last_idx (me s.2))
  then Some RAFT_ERR_SNAPSHOT_ALREADY_LOADED else None.

Definition load_post (term : raft_term_t) (idx : raft_index_t) s s' : Prop :=
  log_wf s'.1 ∧ log_list s'.1 = [] ∧ lg_base s'.1 = idx ∧
  snapshot_last_idx (me s'.2) = idx ∧ snapshot_last_term (me s'.2) = term ∧
  last_applied_idx (me s'.2) = idx ∧ commit_idx (me s'.2) = idx ∧
  current_term (me s'.2) = term ∧ voted_for (me s'.2) = -1 ∧
  state (me s'.2) = RAFT_STATE_FOLLOWER ∧ current_leader (me s'.2) = None ∧ num_nodes (me s'.2) = 1.

Definition load_key (m : raft_server_private_t) :=
  (snapshot_key m, last_applied_idx m, state m, current_leader m).
#[local] Instance load_key_frame : KeyFrame load_key.
Proof. by split. Qed.
#[local] Instance keep_self_load ps i j : Preserves (S := raft U) (same_rel load_key) (keep_self_loop ps i j).
Proof. revert i j. induction ps; intros i j; cbn [keep_self_loop]; pres. Qed.

Lemma begin_load_snapshot_spec term idx s :
  index_inv s →
  wlp (raft_begin_load_snapshot term idx) (λ e s',
    match load_refused term idx s with
    | Some r => e = r ∧ s' = s
    | None => e = 0 ∧ load_post term idx s s'
    end) s.
Proof.
  intros Hinv. unfold raft_begin_load_snapshot, load_refused. do 2 rstep.
  do 5 (wsplit; [by rstep|]). bool_prop. do 7 rstep.
  rewrite bool_decide_eq_false_2 by done.
  assert (0 ≤ idx) as Hge by (destruct Hinv as [Hwf ? ? ? ? ?]; pose proof (wf_base _ Hwf); lia).
  eapply wq_mono; [apply (wq_and _ (λ _, True));
    [apply log_load_from_snapshot_spec; [apply Hinv|done]|apply (key_rel_load load_key eq)]|].
  intros e [l' h'] [(_ & Hwf & Hl & Hb & _) Hk]. unfold key_rel, on_host, load_key, snapshot_key in Hk.
  cbn in Hk, Hwf, Hl, Hb. injection Hk as Hc Ht Hv Hsi Hst Hsp Hvi Hvt Ha Hstate Hleader. do 3 rstep.
  eapply wq_mono with (P := λ _ s1, s1.1 = l' ∧ commit_idx (me s1.2) = idx ∧
    current_term (me s1.2) = term ∧ voted_for (me s1.2) = -1 ∧
    state (me s1.2) = RAFT_STATE_FOLLOWER ∧ current_leader (me s1.2) = None).
  { wsplit; bool_prop; unfold raft_get_commit_idx in *; cbn in *.
    - unfold raft_set_commit_idx. by do 7 rstep.
    - destruct Hinv as [? ? ? ? ? ?]. split_and!; try done; cbn; lia. }
  intros [] s1 (Hl1 & Hc1 & Ht1 & Hv1 & Hs1 & Hld1). unfold raft_set_snapshot_metadata. do 6 rstep.
  rstep. eapply wq_mono; [apply keep_self_load|]. intros my s2 [Hl2 Hk2].
  unfold load_key, snapshot_key in Hk2. cbn in Hl2, Hk2. injection Hk2; intros.
  do 9 rstep. unfold load_post. cbn. rewrite <- Hl2, Hl1. split_and!; try done; congruence.
Qed.
End load.

(** C29: installing a received snapshot is all or nothing.  A snapshot that is
    empty, behind the applied or the last index, or already loaded is refused with
    a code and no change at all; otherwise the log is emptied and restarts after the
    snapshot's index, and base, commit, applied and snapshot index all equal it. *)
Theorem load_snapshot_all_or_nothing {U} (term : raft_term_t) (idx : raft_index_t) (s s' : raft U) (e : Z) :
  started s → raft_begin_load_snapshot term idx s = Ok (e, s') →
  match load_refused term idx s with
  | Some r => e = r ∧ s' = s
  | None => e = 0 ∧ load_post term idx s s'
  end.
Proof. intros Hs%started_inv Hrun. exact (wq_run _ _ _ _ _ _ (begin_load_snapshot_spec term idx s Hs) Hrun). Qed.

Lemma load_snapshot_all_or_nothing_witness :
  ∃ s', raft_begin_load_snapshot 1 7 applied_two = Ok (0, s') ∧ load_post 1 7 applied_two s'.
Proof.
  assert (raft_begin_load_snapshot 1 7 applied_two = Ok (0, after (raft_begin_load_snapshot 1 7) applied_two)) as E
    by (apply after_result; vm_compute; reflexivity).
  pose proof (load_snapshot_all_or_nothing 1 7 applied_two _ _ applied_two_started E) as Hl.
  assert (load_refused 1 7 applied_two = None) as Hn by (vm_compute; reflexivity).
  rewrite Hn in Hl. destruct Hl as [_ Hl].
  exists (after (raft_begin_load_snapshot 1 7) applied_two). split; [exact E|exact Hl].
Defined.
