(* ===== verification/RaftSend.v ===== *)
(** * Leaders: what is sent and what a client is told

    The message [raft_send_appendentries] builds for a peer, the handling of a
    client's entry by [raft_recv_entry], and the query
    [raft_msg_entry_response_committed]. *)

From S2P Require Import Prelude RaftTypes RaftNode RaftLog RaftLogSpec RaftMembership RaftServer RaftRun RaftFrame RaftElection RaftIndex RaftReplication RaftQuorum.

(** ** Append-entries messages *)
Section send.
Context {U : Type}.
Implicit Types s : raft U.

(** The entries for a peer whose next index is [next]: a run of consecutive log
    entries from there, not empty when there are any. *)
Definition batch_from (l : log_private_t) (next : raft_index_t) (es : list raft_entry_t) : Prop :=
  if (lg_base l <? next) && (next <=? lg_base l + lg_count l) then
    ∃ n, (0 < n)%nat ∧ es = take n (drop (Z.to_nat (next - lg_base l - 1)) (log_list l)) ∧
      (Z.to_nat (next - lg_base l - 1) + n ≤ length (log_list l))%nat
  else es = [].

(** The index and term of the entry before [next]. *)
Definition prev_of s (next : raft_index_t) : Z * Z :=
  if 1 <? next then
    match entry_at s.1 (next - 1) with
    | Some ety => (next - 1, ety_term ety)
    | None => (snapshot_last_idx (me s.2), snapshot_last_term (me s.2))
    end
  else (0, 0).

Lemma send_appendentries_spec p n send s (Q : Z → raft U → Prop) :
  log_wf s.1 → heap s.2 !! p = Some n → node (me s.2) ≠ Some p →
  cb_send_appendentries (cb s.2) = Some send → 1 ≤ nd_next_idx n →
  (0 < snapshot_last_idx (me s.2) → snapshot_last_idx (me s.2) ≤ nd_next_idx n) →
  (∀ es, batch_from s.1 (nd_next_idx n) es →
     let ae := mk_appendentries (current_term (me s.2)) (prev_of s (nd_next_idx n)).1
                 (prev_of s (nd_next_idx n)).2 (commit_idx (me s.2)) (Z.of_nat (length es)) es in
     let '(e, u) := send (view s) (udata s.2) p ae in Q e (s.1, set_udata u s.2)) →
  wp (raft_send_appendentries p) Q s.
Proof.
  intros Hwf Hp Hself Hsend Hnext Hsnap HQ. unfold raft_send_appendentries. do 3 rstep.
  apply wp_assert; [by apply bool_decide_eq_true|]. do 2 rstep. rewrite Hsend. do 2 rstep; [by rewrite Hp|].
  simplify_eq. unfold raft_node_get_next_idx.
  rewrite (proj2 (andb_false_iff _ _)) by (rewrite !Z.ltb_ge; lia).
  unfold raft_get_entries_from_idx. do 3 rstep.
  pose proof (log_get_from_idx_spec s.1 (nd_next_idx n) Hwf ltac:(lia)) as Hrun.
  assert (∃ o k, log_get_from_idx s.1 (nd_next_idx n) = Ok (o, k) ∧
    batch_from s.1 (nd_next_idx n) (default [] o) ∧ k = Z.of_nat (length (default [] o)) ∧
    match o with None => 0 =? k | Some _ => 0 <? k end = true) as (o & k & Hget & Hbatch & Hk & Hassert).
  { unfold batch_from. destruct (_ && _).
    - destruct Hrun as (j & Hj & Hget & Hlen). eexists _, _. split; [exact Hget|]. cbn.
      split; [eauto|]. rewrite length_take, length_drop. split; [lia|]. lia.
    - by exists None, 0. }
  apply (wp_lift (o, k)); [done|]. cbn [fst snd]. rstep. apply wp_assert; [done|]. rstep.
  eapply wq_mono with (P := λ r s', s' = s ∧ r = prev_of s (nd_next_idx n)).
  { unfold prev_of, raft_get_entry_from_idx. wsplit; [|by rstep]. do 3 rstep.
    rewrite log_get_at_idx_spec by done. fold (entry_at s.1 (nd_next_idx n - 1)).
    apply (wp_lift (entry_at s.1 (nd_next_idx n - 1))); [done|]. by destruct (entry_at _ _); rstep. }
  intros prev s' [-> ->]. specialize (HQ _ Hbatch). rewrite Hk. unfold call, wq. cbv zeta in HQ.
  by destruct (send _ _ _ _).
Qed.
End send.

(** The consistency check of the receiver is about the entry right before the
    batch whenever that entry is in the log or is the snapshot's last one. *)
Lemma prev_of_adjacent {U} (s : raft U) next :
  log_wf s.1 → 1 ≤ next ≤ raft_get_current_idx s + 1 → lg_base s.1 < next →
  snapshot_last_idx (me s.2) = lg_base s.1 → (prev_of s next).1 = next - 1.
Proof.
  intros Hwf Hn Hb Hs. unfold prev_of, entry_at. destruct (Z.ltb_spec 1 next); [|cbn; lia].
  destruct (Z.ltb_spec (lg_base s.1) (next - 1)); [|cbn; lia].
  destruct (lookup_lt_is_Some_2 (log_list s.1) (Z.to_nat (next - 1 - lg_base s.1 - 1))) as [e He].
  { revert Hn. unfold raft_get_current_idx, log_get_current_idx, log_count. rewrite length_log_list. lia. }
  by rewrite He.
Qed.

(** C28: the append-entries message for a peer.  On a started server with a send_appendentries callback, for a live peer
    other than itself whose next index is at least 1 and, when there is a snapshot, not behind it, sending calls the
    user's callback exactly once, with the current term, the commit index, a run of
    consecutive log entries from the peer's next index (non-empty when the log has
    any) and the index and term of the entry before it ([prev_of]: the snapshot's when the entry before is
    not in the log); its return code
    is the callback's, and nothing but the user data changes.  Whenever the snapshot index is the base of the
    log, and the peer's next index lies after the base and at most one past the last entry, the index sent
    is the one right before the batch. *)
Theorem send_appendentries_message {U} (p : raft_node_t) (n : raft_node_private_t)
    (send : func_send_appendentries_f U) (s : raft U) :
  started s → heap s.2 !! p = Some n → node (me s.2) ≠ Some p →
  cb_send_appendentries (cb s.2) = Some send → 1 ≤ raft_node_get_next_idx n →
  (0 < raft_get_snapshot_last_idx s → raft_get_snapshot_last_idx s ≤ raft_node_get_next_idx n) →
  ∃ es, batch_from s.1 (raft_node_get_next_idx n) es ∧
    let ae := mk_appendentries (raft_get_current_term s) (prev_of s (raft_node_get_next_idx n)).1
                (prev_of s (raft_node_get_next_idx n)).2 (raft_get_commit_idx s) (Z.of_nat (length es)) es in
    raft_send_appendentries p s =
      Ok ((send (view s) (udata s.2) p ae).1, (s.1, set_udata (send (view s) (udata s.2) p ae).2 s.2)) ∧
    (raft_get_snapshot_last_idx s = log_get_base s.1 →
     log_get_base s.1 < raft_node_get_next_idx n ≤ raft_get_current_idx s + 1 →
     ae_prev_log_idx ae = raft_node_get_next_idx n - 1).
Proof.
  intros [Hwf ? ? ? ? ?]%started_inv Hp Hself Hsend Hnext Hsnap.
  enough (wp (raft_send_appendentries p) (λ e s', ∃ es, batch_from s.1 (raft_node_get_next_idx n) es ∧
    let ae := mk_appendentries (raft_get_current_term s) (prev_of s (raft_node_get_next_idx n)).1
                (prev_of s (raft_node_get_next_idx n)).2 (raft_get_commit_idx s) (Z.of_nat (length es)) es in
    e = (send (view s) (udata s.2) p ae).1 ∧ s' = (s.1, set_udata (send (view s) (udata s.2) p ae).2 s.2)) s) as Hw.
  { apply wp_iff in Hw as (e & s' & Hrun & es & Hes & -> & ->). exists es. split; [done|]. split; [done|].
    intros Hs [Hb Hn]. by apply prev_of_adjacent. }
  eapply send_appendentries_spec; [done..|]. intros es Hes. cbv zeta.
  destruct (send _ _ _ _) as [e u] eqn:E. exists es. split; [done|]. cbv zeta.
  unfold raft_get_current_term, raft_get_commit_idx, raft_node_get_next_idx. by rewrite E.
Qed.


(** A leader with two commands its first peer has not acknowledged. *)
Definition with_backlog : raft trace := after (run_raft_ops (members 1 ++ elect ++ take 2 replicate_two)) begun.
Lemma with_backlog_started : started with_backlog.
Proof. apply (started_begun _ [0; 0; 0; 0; 0; 0; 0]). vm_compute. reflexivity. Qed.
Definition fresh_peer : raft_node_private_t := mk_node 0 1 0 3 2.
Definition recording_send : func_send_appendentries_f trace := λ _ u p m, (0, u ++ [SentAppendentries p m]).
Lemma with_backlog_peer :
  heap with_backlog.2 !! 2%positive = Some fresh_peer ∧ node (me with_backlog.2) = Some 1%positive ∧
  cb_send_appendentries (cb with_backlog.2) = Some recording_send ∧ raft_get_snapshot_last_idx with_backlog = 0.
Proof. split_and!; vm_compute; reflexivity. Qed.
Lemma send_appendentries_message_witness :
  ∃ es s', batch_from with_backlog.1 1 es ∧ raft_send_appendentries 2%positive with_backlog = Ok (0, s').
Proof.
  destruct with_backlog_peer as (Hp & Hn & Hc & Hs).
  destruct (send_appendentries_message 2%positive fresh_peer recording_send with_backlog with_backlog_started Hp)
    as (es & Hes & Hrun & _).
  - rewrite Hn. discriminate.
  - exact Hc.
  - vm_compute. discriminate.
  - rewrite Hs. discriminate.
  - eexists es, _. split; [exact Hes|exact Hrun].
Defined.

(** ** Client entries *)
Section client.
Context {U : Type}.
Implicit Types s : raft U.

Definition term_key (m : raft_server_private_t) := (current_term m, commit_idx m).
#[local] Instance term_key_frame : KeyFrame term_key.
Proof. by split. Qed.
#[local] Instance term_append_entry ety : Preserves (S := raft U) (key_rel term_key eq) (raft_append_entry ety).
Proof. unfold raft_append_entry. pres. Qed.

(** What an accepted entry does. *)
Definition entry_accepted (ety : msg_entry_t) (r : msg_entry_response_t) s s' : Prop :=
  raft_is_leader s = true ∧
  strip <$> log_list s'.1 = (strip <$> log_list s.1) ++ [(current_term (me s.2), ety_id ety, ety_type ety)] ∧
  lg_base s'.1 = lg_base s.1 ∧ raft_get_current_idx s' = raft_get_current_idx s + 1 ∧
  r = mk_entry_response (ety_id ety) (current_term (me s.2)) (raft_get_current_idx s') ∧
  current_term (me s'.2) = current_term (me s.2) ∧
  commit_idx (me s'.2) = (if 1 =? Z.of_nat (length (voters s')) then raft_get_current_idx s' else commit_idx (me s.2)) ∧
  (raft_entry_is_voting_cfg_change ety = true →
     raft_voting_change_is_in_progress s = false ∧
     voting_cfg_change_log_idx (me s'.2) = raft_get_current_idx s').

(** The codes an entry is refused with before anything changes. *)
Definition entry_refused (ety : msg_entry_t) s : option Z :=
  if raft_entry_is_voting_cfg_change ety && raft_voting_change_is_in_progress s
  then Some RAFT_ERR_ONE_VOTING_CHANGE_ONLY
  else if raft_entry_is_voting_cfg_change ety && negb (raft_is_apply_allowed s)
  then Some RAFT_ERR_SNAPSHOT_IN_PROGRESS
  else if negb (raft_is_leader s) then Some RAFT_ERR_NOT_LEADER else None.

Lemma recv_entry_spec ety r0 s :
  log_wf s.1 →
  wlp (raft_recv_entry ety r0) (λ out s',
    match entry_refused ety s with
    | Some e => out = (e, ety, r0) ∧ s' = s
    | None => if out.1.1 =? 0 then entry_accepted ety out.2 s s'
              else out.2 = r0 ∧ strip <$> log_list s'.1 = strip <$> log_list s.1
    end) s.
Proof.
  intros Hwf. unfold raft_recv_entry, entry_refused. do 2 rstep. do 3 (wsplit; [by rstep|]).
  rename Heqb into Hcfg. rstep.
  eapply wq_mono; [apply (wq_and _ (λ _, True)); [by apply append_entry_spec|apply (term_append_entry _ s)]|].
  intros e s1 [(Hwf1 & Hb & Ht) Hk]. wsplit.
  { rstep. cbn [fst snd]. bool_prop. rewrite (proj2 (Z.eqb_neq _ _)) in * by done.
    split; [done|]. by rewrite Ht, app_nil_r. }
  bool_prop. subst e. cbn [Z.eqb] in Ht. do 3 rstep.
  match goal with |- wq _ (for_each _ _) _ _ =>
    eapply wq_mono; [match goal with |- wq _ ?m _ _ => assert (Preserves quiet_rel m) as Hp by pres end; apply Hp|] end.
  intros [] s2 (Hl & Hm & Hh & _). rstep.
  eapply wq_mono; [apply num_voting_spec|]. intros num s3 [-> ->]. do 3 rstep.
  eapply wq_mono with (P := λ _ s3, s3.1 = s1.1 ∧ voters s3 = voters s2 ∧ current_term (me s3.2) = current_term (me s1.2) ∧
    commit_idx (me s3.2) = if 1 =? Z.of_nat (length (voters s2)) then raft_get_current_idx s1 else commit_idx (me s1.2)).
  { wsplit.
    - unfold raft_set_commit_idx. do 7 rstep. unfold raft_get_current_idx. rewrite Hm, Hl. done.
    - rstep. by rewrite Hm, Hl. }
  intros [] s3 (Hl3 & Hv3 & Ht3 & Hc3). do 3 rstep.
  unfold key_rel, on_host, term_key in Hk. injection Hk as Hkt Hkc.
  assert (raft_get_current_idx s1 = raft_get_current_idx s + 1) as Hcur.
  { apply (f_equal length) in Ht. rewrite length_app, !length_fmap in Ht. cbn in Ht.
    unfold raft_get_current_idx, log_get_current_idx, log_count. rewrite !log_count_list by done. lia. }
  eapply wq_mono with (P := λ _ s4, s4.1 = s1.1 ∧ voters s4 = voters s2 ∧ term_key (me s4.2) = term_key (me s3.2) ∧
    (raft_entry_is_voting_cfg_change ety = true → voting_cfg_change_log_idx (me s4.2) = raft_get_current_idx s1)).
  { change (raft_entry_is_voting_cfg_change (set_ety_term _ _)) with (raft_entry_is_voting_cfg_change ety).
    unfold raft_get_current_idx. rewrite <- Hl. wsplit; rstep; [split_and!; try done; congruence|].
    split_and!; try done; congruence. }
  intros [] s4 (Hl4 & Hv4 & Hk4 & Hcfg4). rstep. cbn [fst snd Z.eqb]. injection Hk4 as Hk4t Hk4c.
  unfold entry_accepted, raft_get_current_idx in *. rewrite Hl4, Hv4, Hk4c, Hc3, Hk4t, Ht3, <- Hkt, <- Hkc, <- Hl.
  split_and!; try done; try congruence. intros Hv. rewrite Hv in Hcfg. auto.
Qed.
End client.

(** C27: a client's entry.  It is refused, with the code that says why and without
    any change, when it is a voting configuration change while one is in progress
    or while a snapshot blocks applying, or when the server is not leader.  When it
    is accepted (code 0) the log grows by exactly that entry, stamped with the
    leader's term, the reply names its id, term and index, the commit index moves
    only on a cluster with a single voter, and a voting change is remembered at its
    index.  Any other code leaves the log's contents and the reply untouched. *)
Theorem recv_entry_outcome {U} (ety ety' : msg_entry_t) (r r' : msg_entry_response_t) (s s' : raft U) (e : Z) :
  started s → raft_recv_entry ety r s = Ok (e, ety', r', s') →
  match entry_refused ety s with
  | Some code => e = code ∧ ety' = ety ∧ r' = r ∧ s' = s
  | None => if e =? 0 then entry_accepted ety r' s s'
            else r' = r ∧ strip <$> log_list s'.1 = strip <$> log_list s.1
  end.
Proof.
  intros [Hwf ? ? ? ? ?]%started_inv Hrun.
  pose proof (wq_run _ _ _ _ _ _ (recv_entry_spec ety r s Hwf) Hrun) as Hr. cbn [fst snd] in Hr.
  destruct (entry_refused ety s); [|done]. destruct Hr as [[= -> -> ->] ->]. done.
Qed.

Definition no_response : msg_entry_response_t := mk_entry_response 0 0 0.
Lemma recv_entry_outcome_witness :
  ∃ s', raft_recv_entry (command 0 9) no_response with_backlog =
      Ok (0, command 1 9, mk_entry_response 9 1 3, s') ∧
    entry_accepted (command 0 9) (mk_entry_response 9 1 3) with_backlog s'.
Proof.
  assert (raft_recv_entry (command 0 9) no_response with_backlog =
    Ok (0, command 1 9, mk_entry_response 9 1 3,
        after (raft_recv_entry (command 0 9) no_response) with_backlog)) as E
    by (apply after_result; vm_compute; reflexivity).
  pose proof (recv_entry_outcome _ _ _ _ _ _ _ with_backlog_started E) as Ho.
  assert (entry_refused (command 0 9) with_backlog = None) as Hn by (vm_compute; reflexivity).
  rewrite Hn in Ho. exists (after (raft_recv_entry (command 0 9) no_response) with_backlog).
  split; [exact E|exact Ho].
Defined.

(** Asking about an entry by the reply it was accepted with.  On a started
    server the query never faults and never changes the server; it answers 1 exactly
    when the log still holds an entry of that term at that index and the index is
    committed, -1 exactly when another entry took the place, and 0 otherwise. *)
Theorem response_committed_query {U} (r : msg_entry_response_t) (s : raft U) :
  started s →
  raft_msg_entry_response_committed r s =
    Ok (match entry_at s.1 (mer_idx r) with
        | None => 0
        | Some ety => if mer_term r =? ety_term ety then (if mer_idx r <=? raft_get_commit_idx s then 1 else 0) else -1
        end, s).
Proof.
  intros [Hwf ? ? ? ? ?]%started_inv.
  unfold raft_msg_entry_response_committed, raft_get_entry_from_idx, mbind, M_bind, get, lift.
  rewrite log_get_at_idx_spec by done. fold (entry_at s.1 (mer_idx r)).
  destruct (entry_at s.1 (mer_idx r)) as [ety|]; [|done].
  by destruct (mer_term r =? ety_term ety).
Qed.

Lemma response_committed_query_witness :
  raft_msg_entry_response_committed (mk_entry_response 7 1 1) with_backlog = Ok (0, with_backlog).
Proof.
  rewrite (response_committed_query (mk_entry_response 7 1 1) with_backlog with_backlog_started).
  assert (match entry_at with_backlog.1 1 with
          | None => 0
          | Some ety => if 1 =? ety_term ety then (if 1 <=? raft_get_commit_idx with_backlog then 1 else 0) else -1
          end = 0) as E by (vm_compute; reflexivity).
  exact (f_equal (λ x, Ok (x, with_backlog)) E).
Defined.
