(* ===== verification/RaftFindings.v ===== *)
(** * Where the code departs from the protocol

    Behaviours of the library that break a rule of Raft or of its own interface,
    each shown on a server that was started and driven through the interface. *)

From S2P Require Import Prelude RaftTypes RaftNode RaftLog RaftLogSpec RaftMembership RaftServer RaftRun RaftFrame RaftElection RaftIndex RaftReplication RaftSnapshot RaftSend.

(** States reached by a list of operations are named, and what is said about them
    is evaluated. *)
Ltac evaluate_all :=
  lazymatch goal with
  | |- _ ∧ _ => split; [vm_compute; reflexivity|evaluate_all]
  | |- _ => vm_compute; reflexivity
  end.
Ltac evaluate := split; [apply after_result; vm_compute; reflexivity|evaluate_all].

(** ** A repeated request after compaction *)
Definition two_committed_entries : msg_appendentries_t :=
  mk_appendentries 1 0 0 2 2 [command 1 7; command 1 8].
Definition compacted_ops : list raft_op :=
  members 2 ++ [OpRecvAppendentries (Some 1%positive) two_committed_entries; OpBeginSnapshot 0; OpEndSnapshot].
Definition compacted : raft trace := after (run_raft_ops compacted_ops) begun.
Lemma compacted_started : started compacted.
Proof. apply (started_begun _ [0; 0; 0; 0; 0; 0]). vm_compute. reflexivity. Qed.

(** A leader's first request, repeated after the follower compacted the
    entries it carries, is not recognised: its previous index is 0, so no check is
    made, the entries are below the base, so none is found, and they are appended
    again behind the log, at indexes 3 and 4 instead of 1 and 2, with success. *)
Theorem repeated_request_appends_again :
  started compacted ∧ log_get_base compacted.1 = 2 ∧ raft_get_current_idx compacted = 2 ∧
  ∃ s', raft_recv_appendentries (Some 1%positive) two_committed_entries compacted =
      Ok (0, mk_appendentries_response 1 1 2 1, s') ∧
    log_get_at_idx s'.1 3 = Ok (Some (command 1 7)) ∧ log_get_at_idx s'.1 4 = Ok (Some (command 1 8)).
Proof.
  split; [exact compacted_started|]. split; [vm_compute; reflexivity|]. split; [vm_compute; reflexivity|].
  exists (after (raft_recv_appendentries (Some 1%positive) two_committed_entries) compacted). evaluate.
Qed.

(** ** Commit index beyond the checked entries *)
Definition stale_tail_ops : list raft_op :=
  members 2 ++ [OpRecvAppendentries (Some 1%positive)
    (mk_appendentries 1 0 0 0 3 [command 1 7; command 1 8; command 1 9])].
Definition stale_tail : raft trace := after (run_raft_ops stale_tail_ops) begun.
Lemma stale_tail_started : started stale_tail.
Proof. apply (started_begun _ [0; 0; 0; 0]). vm_compute. reflexivity. Qed.

(** The commit index follows the leader's up to the follower's last index, not
    up to the last entry the request covers.  A request of term 2 that checks only
    entry 2 makes a follower commit entry 3, an entry of term 1 that the request
    says nothing about. *)
Theorem commit_beyond_request :
  started stale_tail ∧ raft_get_commit_idx stale_tail = 0 ∧
  ∃ s', raft_recv_appendentries (Some 3%positive) (mk_appendentries 2 1 1 3 1 [command 1 8]) stale_tail =
      Ok (0, mk_appendentries_response 2 1 2 2, s') ∧
    raft_get_commit_idx s' = 3 ∧ log_get_at_idx s'.1 3 = Ok (Some (command 1 9)).
Proof.
  split; [exact stale_tail_started|]. split; [vm_compute; reflexivity|].
  exists (after (raft_recv_appendentries (Some 3%positive) (mk_appendentries 2 1 1 3 1 [command 1 8])) stale_tail).
  evaluate.
Qed.

(** ** A heartbeat on an empty log *)
Definition empty_follower : raft trace := after (run_raft_ops (members 2)) begun.
Lemma empty_follower_started : started empty_follower.
Proof. apply (started_begun _ [0; 0; 0]). vm_compute. reflexivity. Qed.

(** A heartbeat with a positive commit index from a leader that has nothing to
    send stops a server whose log is empty: [max(current, 1)] makes 1 the new commit
    index, and the assertion of [raft_set_commit_idx] that it is within the log
    fails. *)
Theorem heartbeat_on_empty_log_asserts :
  started empty_follower ∧ raft_get_current_idx empty_follower = 0 ∧
  raft_recv_appendentries (Some 1%positive) (mk_appendentries 1 0 0 1 0 []) empty_follower = Fault AssertFailed.
Proof.
  split; [exact empty_follower_started|]. split; vm_compute; reflexivity.
Qed.

(** ** Two votes in one term *)
Definition voted : raft trace := after (raft_recv_requestvote None (mk_requestvote 5 1 0 0)) empty_follower.
Definition reloaded : raft trace := after (raft_begin_load_snapshot 1 3) voted.

(** Installing a snapshot overwrites the current term with the snapshot's and
    forgets the vote, without telling the user to persist either: a server that
    voted for candidate 1 in term 5 goes back to term 1 and then votes for candidate
    3 in term 5. *)
Theorem load_snapshot_second_vote :
  started empty_follower ∧
  raft_recv_requestvote None (mk_requestvote 5 1 0 0) empty_follower =
    Ok (0, mk_requestvote_response 5 1, voted) ∧ raft_get_voted_for voted = 1 ∧
  raft_begin_load_snapshot 1 3 voted = Ok (0, reloaded) ∧
  raft_get_current_term reloaded = 1 ∧ udata reloaded.2 = udata voted.2 ∧
  ∃ s', raft_recv_requestvote None (mk_requestvote 5 3 3 1) reloaded =
      Ok (0, mk_requestvote_response 5 1, s') ∧ raft_get_voted_for s' = 3.
Proof.
  split; [exact empty_follower_started|].
  split; [unfold voted; apply after_result; vm_compute; reflexivity|]. split; [vm_compute; reflexivity|].
  split; [unfold reloaded; apply after_result; vm_compute; reflexivity|]. split; [vm_compute; reflexivity|].
  split; [vm_compute; reflexivity|].
  exists (after (raft_recv_requestvote None (mk_requestvote 5 3 3 1)) reloaded). evaluate.
Qed.

(** ** A batch with the wrong previous index *)
Definition more (id : Z) : raft_op := OpRecvEntry (command 0 id) (mk_entry_response 0 0 0).
Definition ack (p : raft_node_t) (idx : Z) : raft_op :=
  OpRecvAppendentriesResponse (Some p) (mk_appendentries_response 1 1 idx 1).
Definition second_snapshot_ops : list raft_op :=
  members 1 ++ elect ++
  [more 7; more 8; ack 2%positive 2; OpBeginSnapshot 0; OpEndSnapshot; more 9; more 10; ack 3%positive 3;
   OpBeginSnapshot 0].
Definition second_snapshot : raft trace := after (run_raft_ops second_snapshot_ops) begun.
Lemma second_snapshot_started : started second_snapshot.
Proof. apply (started_begun _ [0; 0; 0; 0; 0; 0; 0; 0; 0; 0; 0; 0; 0; 0]). vm_compute. reflexivity. Qed.

(** While a snapshot is being taken, a leader whose log starts right where a
    peer's next index is sends a batch with the wrong previous index: the entry
    before the batch (index 2) was compacted, and the index sent is that of the
    snapshot in progress (3), which is the first entry of the batch itself.  A
    follower that already holds entry 3 accepts the batch one position too far. *)
Theorem snapshotting_leader_shifts_batch :
  started second_snapshot ∧ log_get_base second_snapshot.1 = 2 ∧
  ∃ s' ae, raft_send_appendentries 2%positive second_snapshot = Ok (0, s') ∧
    udata s'.2 = udata second_snapshot.2 ++ [SentAppendentries 2%positive ae] ∧
    ae_prev_log_idx ae = 3 ∧ ae_entries ae = [command 1 9; command 1 10] ∧
    log_get_at_idx second_snapshot.1 3 = Ok (Some (command 1 9)).
Proof.
  split; [exact second_snapshot_started|]. split; [vm_compute; reflexivity|].
  exists (after (raft_send_appendentries 2%positive) second_snapshot),
    (mk_appendentries 1 3 1 3 2 [command 1 9; command 1 10]). evaluate.
Qed.

(** ** A pointer to a freed peer *)
(** Removing the peer that is the current leader leaves the server's pointer
    to it: asking for the leader's id then reads freed memory. *)
Theorem removed_leader_dangles :
  started behind ∧ raft_get_current_leader_node behind = Some 1%positive ∧
  ∃ s', raft_remove_node (Some 1%positive) behind = Ok (tt, s') ∧
    raft_get_current_leader_node s' = Some 1%positive ∧
    raft_get_current_leader s' = Fault UndefinedBehaviour.
Proof.
  split; [exact behind_started|]. split; [vm_compute; reflexivity|].
  exists (after (raft_remove_node (Some 1%positive)) behind). evaluate.
Qed.

(** ** The marker of a voting change *)
#[local] Instance voting_marker_frame : KeyFrame voting_cfg_change_log_idx.
Proof. by split. Qed.

(** [raft_append_entry], through which a follower stores the leader's entries,
    marks a voting configuration change one index too early: the marker is the last
    index from before the append.  ([raft_recv_entry] corrects it on the leader; a
    follower clears it when the entry before the change is applied, or, when that
    one already is, not at all.) *)
Theorem append_marks_previous_index {U} (ety : raft_entry_t) (s s' : raft U) :
  started s → raft_entry_is_voting_cfg_change ety = true → raft_append_entry ety s = Ok (0, s') →
  raft_get_current_idx s' = raft_get_current_idx s + 1 ∧
  voting_cfg_change_log_idx (me s'.2) = raft_get_current_idx s' - 1.
Proof.
  intros [Hwf ? ? ? ? ?]%started_inv Hv Hrun.
  destruct (wq_run _ _ _ _ _ _ (append_entry_spec ety s Hwf) Hrun) as (Hwf' & Hb & Ht).
  apply (f_equal length) in Ht. rewrite length_app, !length_fmap in Ht. cbn in Ht.
  assert (raft_get_current_idx s' = raft_get_current_idx s + 1) as Hcur.
  { unfold raft_get_current_idx, log_get_current_idx, log_count. rewrite !log_count_list by done. lia. }
  split; [done|]. revert s' Hrun Hwf' Hb Ht Hcur.
  enough (wlp (raft_append_entry ety) (λ _ s', voting_cfg_change_log_idx (me s'.2) = raft_get_current_idx s) s) as Hw.
  { intros s' Hrun ? ? ? ?. rewrite (wq_run _ _ _ _ _ _ Hw Hrun). lia. }
  unfold raft_append_entry. rewrite Hv. do 4 rstep.
  eapply wq_mono; [apply (key_rel_append voting_cfg_change_log_idx eq)|].
  intros e s' Hk. unfold key_rel, on_host in Hk. by rewrite <- Hk.
Qed.

Definition demote (id : Z) : raft_entry_t := mk_entry 1 id RAFT_LOGTYPE_DEMOTE_NODE (mk_data 0 0).
Lemma append_marks_previous_index_witness :
  ∃ s', raft_append_entry (demote 3) behind = Ok (0, s') ∧ raft_get_current_idx s' = 3 ∧
    voting_cfg_change_log_idx (me s'.2) = 2.
Proof.
  assert (raft_append_entry (demote 3) behind = Ok (0, after (raft_append_entry (demote 3)) behind)) as E
    by (apply after_result; vm_compute; reflexivity).
  assert (raft_get_current_idx behind = 2) as Hb by (vm_compute; reflexivity).
  destruct (append_marks_previous_index (demote 3) behind _ behind_started eq_refl E) as [Hc Hm].
  exists (after (raft_append_entry (demote 3)) behind). split; [exact E|].
  rewrite Hm, Hc, Hb. split; reflexivity.
Defined.
