(* ===== verification/RaftProtocol.v ===== *)
(** * The replication protocol, abstractly

    What a server promises to the other servers of its cluster, without the
    code's data structures: its term, vote, role, log and commit index, the
    messages it has sent, and, as history, the votes it has cast, the logs it
    stood for election with, the logs it had as leader, and the prefixes it has
    accepted.  [lstep] says how one server may move; a cluster interleaves the
    moves of its servers, and a message that was ever sent may arrive at any
    time, again, or never.  Messages that promise nothing (refusals) are left
    out.

    Logs are lists of entries, an entry a term with whatever it carries; a
    prefix of length [k] ends with the entry of index [k]. *)

From stdpp Require Import fin_sets.
From S2P Require Import Prelude RaftTypes.

(** ** Servers and messages *)
Section types.
Context (P : Type).

Inductive amsg : Type :=
| MRequestVote (t : Z) (lidx : nat) (lterm : Z)
| MVote (t : Z) (c : positive)
| MAppend (t : Z) (prev : nat) (pterm : Z) (es : list (Z * P)) (lc : nat)
| MAck (t : Z) (k : nat).

Record anode : Type := mk_anode {
  a_term : Z;
  a_vote : option positive;
  a_role : raft_state_e;
  a_log : list (Z * P);
  a_commit : nat;
  a_votes : gset positive;
  a_match : positive → nat;
  a_sent : list amsg;
  a_cast : gmap Z (positive * list (Z * P));
  a_cand : gmap Z (list (Z * P));
  a_lead : gmap Z (list (Z * P));
  a_acks : list (Z * nat)
}.
End types.
Arguments MRequestVote {P}.
Arguments MVote {P}.
Arguments MAppend {P}.
Arguments MAck {P}.
Arguments mk_anode {P}.
Arguments a_term {P} _.
Arguments a_vote {P} _.
Arguments a_role {P} _.
Arguments a_log {P} _.
Arguments a_commit {P} _.
Arguments a_votes {P} _.
Arguments a_match {P} _ _.
Arguments a_sent {P} _.
Arguments a_cast {P} _.
Arguments a_cand {P} _.
Arguments a_lead {P} _.
Arguments a_acks {P} _.

Definition anode_eta {P} (a : anode P) : anode P :=
  mk_anode (a_term a) (a_vote a) (a_role a) (a_log a) (a_commit a) (a_votes a) (a_match a) (a_sent a)
    (a_cast a) (a_cand a) (a_lead a) (a_acks a).
Definition set_a_term {P} : Z → anode P → anode P := ltac:(field_update (@anode_eta P) (@a_term P)).
Definition set_a_vote {P} : option positive → anode P → anode P := ltac:(field_update (@anode_eta P) (@a_vote P)).
Definition set_a_role {P} : raft_state_e → anode P → anode P := ltac:(field_update (@anode_eta P) (@a_role P)).
Definition set_a_log {P} : list (Z * P) → anode P → anode P := ltac:(field_update (@anode_eta P) (@a_log P)).
Definition set_a_commit {P} : nat → anode P → anode P := ltac:(field_update (@anode_eta P) (@a_commit P)).
Definition set_a_votes {P} : gset positive → anode P → anode P := ltac:(field_update (@anode_eta P) (@a_votes P)).
Definition set_a_match {P} : (positive → nat) → anode P → anode P := ltac:(field_update (@anode_eta P) (@a_match P)).
Definition set_a_sent {P} : list (amsg P) → anode P → anode P := ltac:(field_update (@anode_eta P) (@a_sent P)).
Definition set_a_cast {P} : gmap Z (positive * list (Z * P)) → anode P → anode P := ltac:(field_update (@anode_eta P) (@a_cast P)).
Definition set_a_cand {P} : gmap Z (list (Z * P)) → anode P → anode P := ltac:(field_update (@anode_eta P) (@a_cand P)).
Definition set_a_lead {P} : gmap Z (list (Z * P)) → anode P → anode P := ltac:(field_update (@anode_eta P) (@a_lead P)).
Definition set_a_acks {P} : list (Z * nat) → anode P → anode P := ltac:(field_update (@anode_eta P) (@a_acks P)).

Section protocol.
Context {P : Type}.
Implicit Types (l es L I : list (Z * P)) (a b : anode P) (t : Z) (k n : nat) (Q : gset positive).

Definition last_term_of l : Z := match last l with Some e => e.1 | None => 0 end.

(** A log as described by its last index and term is at least as up to date as [l]. *)
Definition covers (lidx : nat) (lterm : Z) l : Prop :=
  l = [] ∨ last_term_of l < lterm ∨ (lterm = last_term_of l ∧ (length l ≤ lidx)%nat).

(** The entry before [prev] has the term [pterm]. *)
Definition prev_ok l (prev : nat) (pterm : Z) : Prop :=
  prev = 0%nat ∨ ∃ e, l !! (prev - 1)%nat = Some e ∧ e.1 = pterm.

(** The first [c] entries of [es] have the terms of the entries of [l] after [prev]. *)
Definition same_terms l es (prev c : nat) : Prop :=
  ∀ n, (n < c)%nat → ∃ x e, l !! (prev + n)%nat = Some x ∧ es !! n = Some e ∧ x.1 = e.1.

(** ... and the one after them has not. *)
Definition parts_at l es (prev c : nat) : Prop :=
  ∃ e, es !! c = Some e ∧ (∀ x, l !! (prev + c)%nat = Some x → x.1 ≠ e.1).

(** The nodes of the cluster; a quorum is more than half of them. *)
Context (V : gset positive).
Definition quorum Q : Prop := Q ⊆ V ∧ (size V < 2 * size Q)%nat.

(** ** Moves of server [i]; [net j m] says that [j] has sent [m] *)
Inductive lstep (i : positive) (net : positive → amsg P → Prop) : relation (anode P) :=
| L_new_term a t :
    a_term a < t →
    lstep i net a (set_a_role RAFT_STATE_FOLLOWER (set_a_vote None (set_a_term t a)))
| L_step_down a :
    lstep i net a (set_a_role RAFT_STATE_FOLLOWER a)
| L_candidate a :
    lstep i net a
      (set_a_cand (<[a_term a + 1 := a_log a]> (a_cand a))
        (set_a_cast (<[a_term a + 1 := (i, a_log a)]> (a_cast a))
          (set_a_votes ∅ (set_a_role RAFT_STATE_CANDIDATE (set_a_vote (Some i)
            (set_a_term (a_term a + 1) a))))))
| L_send_requestvote a :
    a_role a = RAFT_STATE_CANDIDATE →
    lstep i net a
      (set_a_sent (MRequestVote (a_term a) (length (a_log a)) (last_term_of (a_log a)) :: a_sent a) a)
| L_grant a c lidx lterm :
    net c (MRequestVote (a_term a) lidx lterm) → a_vote a = None → a_role a = RAFT_STATE_FOLLOWER →
    covers lidx lterm (a_log a) →
    lstep i net a
      (set_a_sent (MVote (a_term a) c :: a_sent a)
        (set_a_cast (<[a_term a := (c, a_log a)]> (a_cast a)) (set_a_vote (Some c) a)))
| L_get_vote a j :
    net j (MVote (a_term a) i) → a_role a = RAFT_STATE_CANDIDATE →
    lstep i net a (set_a_votes ({[j]} ∪ a_votes a) a)
| L_become_leader a Q :
    a_role a = RAFT_STATE_CANDIDATE → Q ⊆ {[i]} ∪ a_votes a → quorum Q →
    lstep i net a
      (set_a_lead (<[a_term a := a_log a]> (a_lead a))
        (set_a_match (λ _, 0%nat) (set_a_role RAFT_STATE_LEADER a)))
| L_append a e :
    a_role a = RAFT_STATE_LEADER → e.1 = a_term a →
    lstep i net a
      (set_a_lead (<[a_term a := a_log a ++ [e]]> (a_lead a)) (set_a_log (a_log a ++ [e]) a))
| L_send_append a prev pterm :
    a_role a = RAFT_STATE_LEADER → (prev ≤ length (a_log a))%nat → prev_ok (a_log a) prev pterm →
    lstep i net a
      (set_a_sent (MAppend (a_term a) prev pterm (drop prev (a_log a)) (a_commit a) :: a_sent a) a)
| L_accept a j prev pterm es lc c l' commit' :
    net j (MAppend (a_term a) prev pterm es lc) → a_role a = RAFT_STATE_FOLLOWER →
    prev_ok (a_log a) prev pterm → same_terms (a_log a) es prev c →
    (c = length es ∧ l' = a_log a ∨
     parts_at (a_log a) es prev c ∧ (a_commit a ≤ prev + c)%nat ∧
       l' = take (prev + c) (a_log a) ++ drop c es) →
    (a_commit a ≤ commit')%nat → (commit' = a_commit a ∨ (commit' ≤ lc)%nat) →
    lstep i net a
      (set_a_sent (MAck (a_term a) (prev + length es) :: a_sent a)
        (set_a_acks ((a_term a, (prev + length es)%nat) :: a_acks a)
          (set_a_commit commit' (set_a_log l' a))))
| L_truncate a j prev pterm es lc e :
    net j (MAppend (a_term a) prev pterm es lc) → a_role a = RAFT_STATE_FOLLOWER →
    (0 < prev)%nat → a_log a !! (prev - 1)%nat = Some e → e.1 ≠ pterm → (a_commit a < prev)%nat →
    lstep i net a (set_a_log (take (prev - 1) (a_log a)) a)
| L_get_ack a j k :
    net j (MAck (a_term a) k) → a_role a = RAFT_STATE_LEADER →
    lstep i net a (set_a_match (λ j', if decide (j' = j) then k else a_match a j') a)
| L_commit a k Q e :
    a_role a = RAFT_STATE_LEADER → (a_commit a < k)%nat → a_log a !! (k - 1)%nat = Some e →
    e.1 = a_term a → quorum Q → (∀ j, j ∈ Q → j = i ∨ (k ≤ a_match a j)%nat) →
    lstep i net a (set_a_commit k a).

(** ** Clusters *)
Abbreviation gstate := (gmap positive (anode P)).

Definition in_net (g : gstate) (j : positive) (m : amsg P) : Prop := ∃ a, g !! j = Some a ∧ m ∈ a_sent a.

Inductive gstep : relation gstate :=
| gstep_node g i a a' : g !! i = Some a → lstep i (in_net g) a a' → gstep g (<[i := a']> g).

Definition anode_zero : anode P :=
  mk_anode 0 None RAFT_STATE_FOLLOWER [] 0 ∅ (λ _, 0%nat) [] ∅ ∅ ∅ [].
Definition g_init : gstate := gset_to_gmap anode_zero V.
Definition g_reachable (g : gstate) : Prop := rtc gstep g_init g.

Lemma lstep_net_mono i (net net' : positive → amsg P → Prop) a a' :
  (∀ j m, net j m → net' j m) → lstep i net a a' → lstep i net' a a'.
Proof. intros Hn. destruct 1; econstructor; eauto. Qed.

Lemma lstep_sent_mono i net a a' m : lstep i net a a' → m ∈ a_sent a → m ∈ a_sent a'.
Proof. destruct 1; cbn; rewrite ?elem_of_cons; auto. Qed.

(** Several moves of one server are moves of the cluster. *)
Lemma lsteps_gsteps g i a a' :
  g !! i = Some a → rtc (lstep i (in_net g)) a a' → rtc gstep g (<[i := a']> g).
Proof.
  intros Hi Hr. revert g Hi Hr.
  assert (∀ net, rtc (lstep i net) a a' → ∀ g, g !! i = Some a → (∀ j m, net j m → in_net g j m) →
    rtc gstep g (<[i := a']> g)) as H.
  { intros net. induction 1 as [a|a a1 a2 Hs Hr IH]; intros g Hi Hn.
    - by rewrite insert_id.
    - eapply rtc_l; [econstructor; [done|by eapply lstep_net_mono]|].
      rewrite <- (insert_insert_eq g i a2 a1). apply IH; [by rewrite lookup_insert_eq|].
      intros j m (b & Hb & Hm)%Hn. destruct (decide (j = i)) as [->|].
      + exists a1. rewrite lookup_insert_eq. simplify_eq. split; [done|]. by eapply lstep_sent_mono.
      + exists b. by rewrite lookup_insert_ne. }
  intros g Hi Hr. by eapply H.
Qed.
End protocol.

(** A quorum from a list of other servers and a server itself. *)
Lemma quorum_with_self (V : gset positive) (i : positive) (ps : list positive) :
  i ∈ V → NoDup ps → i ∉ ps → (∀ p, p ∈ ps → p ∈ V) → Z.of_nat (size V) < 2 * (1 + Z.of_nat (length ps)) →
  quorum V ({[i]} ∪ list_to_set ps).
Proof.
  intros Hi Hnd Hips Hps Hsz. split; [set_solver|]. rewrite size_union by set_solver.
  rewrite size_singleton, size_list_to_set by done. lia.
Qed.

(** * Why the protocol is safe: histories

    The facts about a cluster's histories that its moves keep, and what follows
    from them at any moment: one leader per term, logs that agree on an entry agree
    on everything before it, a prefix that a majority has accepted is in the log of
    every later leader, and committed prefixes agree. *)

(** ** Prefixes *)
Section prefixes.
Context {A : Type}.
Implicit Types l m : list A.

Lemma take_prefix_of n l : take n l `prefix_of` l.
Proof. exists (drop n l). by rewrite take_drop. Qed.
Lemma prefix_lookup_eq n l m : l `prefix_of` m → (n < length l)%nat → l !! n = m !! n.
Proof. intros [k ->] Hn. by rewrite lookup_app_l. Qed.
Lemma prefix_take n l m : l `prefix_of` m → (n ≤ length l)%nat → take n l = take n m.
Proof. intros [k ->] Hn. by rewrite take_app_le. Qed.
Lemma take_prefix_mono n k l : (n ≤ k)%nat → take n l `prefix_of` take k l.
Proof. intros. exists (take (k - n) (drop n l)). by rewrite take_take_drop, Nat.add_comm, Nat.sub_add. Qed.
Lemma take_of_prefix n k l m :
  take k l `prefix_of` m → (n ≤ k)%nat → (n ≤ length l)%nat → take n m = take n l.
Proof.
  intros H Hn Hl. rewrite <- (prefix_take n _ _ H) by (rewrite length_take; lia).
  by rewrite take_take, Nat.min_l.
Qed.
(** Two prefixes of one list are comparable. *)
Lemma prefixes_of l1 l2 m :
  l1 `prefix_of` m → l2 `prefix_of` m → (length l1 ≤ length l2)%nat → l1 `prefix_of` l2.
Proof.
  intros H1 H2 Hlen. rewrite <- (take_ge l1 (length l1)) by done.
  rewrite (prefix_take _ _ _ H1) by done. rewrite <- (prefix_take _ _ _ H2) by done. apply take_prefix_of.
Qed.
Lemma prefix_same_length l m : l `prefix_of` m → (length m ≤ length l)%nat → l = m.
Proof.
  intros [k ->]. rewrite length_app. destruct k; cbn; [by rewrite app_nil_r|lia].
Qed.
End prefixes.

Section inv.
Context {P : Type} (V : gset positive).
Abbreviation entry := (Z * P)%type.
Abbreviation gstate := (gmap positive (anode P)).
Implicit Types (l es L I : list (Z * P)) (a b : anode P) (g : gstate) (t : Z) (k n : nat) (Q : gset positive).

(** ** Histories *)
Definition lead_at g t (p : positive) L : Prop := ∃ a, g !! p = Some a ∧ a_lead a !! t = Some L.
Definition cand_at g t (p : positive) I : Prop := ∃ a, g !! p = Some a ∧ a_cand a !! t = Some I.
Definition cast_at g (j : positive) t (c : positive) l : Prop := ∃ a, g !! j = Some a ∧ a_cast a !! t = Some (c, l).

(** Server [a] has held the first [k] entries of the leader of term [t], as follower or leader. *)
Definition n_acked a t k : Prop :=
  (∃ k', (k ≤ k')%nat ∧ (t, k') ∈ a_acks a) ∨ (∃ L, a_lead a !! t = Some L ∧ (k ≤ length L)%nat).
Definition acked g (j : positive) t k : Prop := ∃ a, g !! j = Some a ∧ n_acked a t k.

(** Every entry of [l] is preceded by what the leader of its term had before it. *)
Definition good g l : Prop :=
  ∀ n e, l !! n = Some e → ∃ p L, lead_at g e.1 p L ∧ take (S n) l `prefix_of` L.

(** [l] still has the first [k] entries of term [t]'s leader, unless a leader of a
    later term, up to [tmax], was elected without them. *)
Definition keep g l t k tmax : Prop :=
  ∃ p L, lead_at g t p L ∧ (k ≤ length L)%nat ∧
    (take k L `prefix_of` l ∨
     ∃ t2 p2 L2 I2, t < t2 ≤ tmax ∧ lead_at g t2 p2 L2 ∧ cand_at g t2 p2 I2 ∧ ¬ take k L `prefix_of` I2).

(** A majority has held the first [k] entries of term [t]'s leader, the last of them of that term. *)
Definition committed g t k : Prop :=
  (0 < k)%nat ∧ (∃ p L e, lead_at g t p L ∧ L !! (k - 1)%nat = Some e ∧ e.1 = t) ∧
  ∃ Q, quorum V Q ∧ ∀ j, j ∈ Q → acked g j t k.
Definition committed_prefix g l k tmax : Prop :=
  k = 0%nat ∨ ∃ t k0 p L, t ≤ tmax ∧ committed g t k0 ∧ lead_at g t p L ∧ (k ≤ k0)%nat ∧
    (k ≤ length L)%nat ∧ take k L `prefix_of` l.

Definition msg_inv g a (m : amsg P) : Prop :=
  match m with
  | MRequestVote t lidx lterm => ∃ I, a_cand a !! t = Some I ∧ lidx = length I ∧ lterm = last_term_of I
  | MVote t c => ∃ l, a_cast a !! t = Some (c, l)
  | MAppend t prev pterm es lc => ∃ L, a_lead a !! t = Some L ∧ take prev L ++ es `prefix_of` L ∧
      (prev ≤ length L)%nat ∧ prev_ok L prev pterm ∧ (lc ≤ prev + length es)%nat ∧ committed_prefix g L lc t
  | MAck t k => (t, k) ∈ a_acks a
  end.

(** The part of the invariant that is about server [i]. *)
Record node_inv g (i : positive) a : Prop := {
  ni_term : 0 ≤ a_term a;
  ni_cast_le t v : a_cast a !! t = Some v → t ≤ a_term a;
  ni_cand_le t I : a_cand a !! t = Some I → 1 ≤ t ≤ a_term a;
  ni_ack_le t k : (t, k) ∈ a_acks a → t ≤ a_term a;
  ni_vote : a_vote a = fst <$> a_cast a !! a_term a;
  ni_leader : a_role a = RAFT_STATE_LEADER → a_lead a !! a_term a = Some (a_log a);
  ni_candidate : a_role a = RAFT_STATE_CANDIDATE →
    a_cand a !! a_term a = Some (a_log a) ∧ a_lead a !! a_term a = None ∧
    ∀ j, j ∈ {[i]} ∪ a_votes a → ∃ l, cast_at g j (a_term a) i l;
  ni_lead_cand t L : a_lead a !! t = Some L → ∃ I, a_cand a !! t = Some I ∧ I `prefix_of` L;
  ni_cand_terms t I n e : a_cand a !! t = Some I → I !! n = Some e → e.1 < t;
  ni_lead_terms t L n e : a_lead a !! t = Some L → L !! n = Some e → e.1 ≤ t;
  ni_log_terms n e : a_log a !! n = Some e → e.1 ≤ a_term a;
  ni_commit_le : (a_commit a ≤ length (a_log a))%nat;
  ni_sent m : m ∈ a_sent a → msg_inv g a m;
  ni_match j : a_role a = RAFT_STATE_LEADER → (0 < a_match a j)%nat → acked g j (a_term a) (a_match a j);
  ni_good_log : good g (a_log a);
  ni_good_cast t c l : a_cast a !! t = Some (c, l) → good g l;
  ni_good_cand t I : a_cand a !! t = Some I → good g I;
  ni_good_lead t L : a_lead a !! t = Some L → good g L;
  ni_cast t c l : a_cast a !! t = Some (c, l) →
    ∃ I, cand_at g t c I ∧ covers (length I) (last_term_of I) l;
  ni_cast_keep t c l t1 k : a_cast a !! t = Some (c, l) → t1 < t → n_acked a t1 k → keep g l t1 k t;
  ni_keep t k : n_acked a t k → keep g (a_log a) t k (a_term a);
  ni_elect t L : a_lead a !! t = Some L → ∃ Q, quorum V Q ∧
    ∀ j, j ∈ Q → ∃ l, cast_at g j t i l ∧ ∀ t1 k, t1 < t → acked g j t1 k → keep g l t1 k (t - 1);
  ni_commit : committed_prefix g (a_log a) (a_commit a) (a_term a)
}.

Definition g_inv g : Prop := ∀ i a, g !! i = Some a → node_inv g i a.

(** ** What follows at any moment *)
Lemma quorums_meet Q1 Q2 : quorum V Q1 → quorum V Q2 → ∃ j, j ∈ Q1 ∧ j ∈ Q2.
Proof.
  intros [H1 N1] [H2 N2]. destruct (decide (Q1 ∩ Q2 = ∅)) as [E|[j Hj]%set_choose_L].
  - assert (size (Q1 ∪ Q2) = size Q1 + size Q2)%nat as Hs by (apply size_union; set_solver).
    assert (size (Q1 ∪ Q2) ≤ size V)%nat by (apply subseteq_size; set_solver). lia.
  - exists j. set_solver.
Qed.

Section facts.
Context (g : gstate) (Hg : g_inv g).

Lemma cast_unique j t c c' l l' : cast_at g j t c l → cast_at g j t c' l' → c = c' ∧ l = l'.
Proof. intros (a & Ha & Hc) (a' & Ha' & Hc'). by simplify_eq. Qed.

(** One leader per term. *)
Lemma lead_unique t p p' L L' : lead_at g t p L → lead_at g t p' L' → p = p' ∧ L = L'.
Proof.
  intros (a & Ha & HL) (a' & Ha' & HL').
  destruct (ni_elect _ _ _ (Hg _ _ Ha) _ _ HL) as (Q & HQ & Hv).
  destruct (ni_elect _ _ _ (Hg _ _ Ha') _ _ HL') as (Q' & HQ' & Hv').
  destruct (quorums_meet _ _ HQ HQ') as (j & Hj & Hj').
  destruct (Hv j Hj) as (l & Hc & _), (Hv' j Hj') as (l' & Hc' & _).
  destruct (cast_unique _ _ _ _ _ _ Hc Hc') as [<- _]. by simplify_eq.
Qed.

(** Log matching: two good logs with an entry of the same term at the same place agree up to it. *)
Lemma good_match l l' n e e' :
  good g l → good g l' → l !! n = Some e → l' !! n = Some e' → e.1 = e'.1 → take (S n) l = take (S n) l'.
Proof.
  intros Hl Hl' He He' Ht. destruct (Hl _ _ He) as (p & L & HL & Hp), (Hl' _ _ He') as (p' & L' & HL' & Hp').
  rewrite Ht in HL. destruct (lead_unique _ _ _ _ _ HL HL') as [_ <-].
  apply lookup_lt_Some in He, He'. pose proof (prefix_take (S n) _ _ Hp) as E.
  pose proof (prefix_take (S n) _ _ Hp') as E'. rewrite length_take, take_take, Nat.min_id in E, E'.
  rewrite E, E' by lia. done.
Qed.

Lemma good_lead_prefix l n e p L :
  good g l → l !! n = Some e → lead_at g e.1 p L → take (S n) l `prefix_of` L.
Proof.
  intros Hl He HL. destruct (Hl _ _ He) as (p' & L' & HL' & Hp).
  by destruct (lead_unique _ _ _ _ _ HL HL') as [_ ->].
Qed.

(** Terms do not decrease along a log. *)
Lemma good_sorted l m n x e : good g l → l !! m = Some x → l !! n = Some e → (m ≤ n)%nat → x.1 ≤ e.1.
Proof.
  intros Hl Hx He Hmn. destruct (Hl _ _ He) as (p & L & (a & Ha & HL) & Hp).
  apply lookup_lt_Some in He as Hlt.
  eapply (ni_lead_terms _ _ _ (Hg _ _ Ha) _ _ m x HL).
  rewrite <- (prefix_lookup_eq m _ _ Hp) by (rewrite length_take; lia). by rewrite lookup_take_lt by lia.
Qed.

Lemma last_entry l : l ≠ [] → ∃ e, l !! (length l - 1)%nat = Some e ∧ last_term_of l = e.1.
Proof.
  intros Hne. unfold last_term_of. rewrite last_lookup. replace (pred (length l)) with (length l - 1)%nat by lia.
  destruct (lookup_lt_is_Some_2 l (length l - 1)) as [e He]; [destruct l; cbn in *; [done|lia]|].
  exists e. by rewrite He.
Qed.

(** A prefix that a majority has held is in the log of every later leader, already
    when it stands for election. *)
Lemma leader_completeness t k p L t' p' L' I' :
  committed g t k → lead_at g t p L → t < t' → lead_at g t' p' L' → cand_at g t' p' I' →
  take k L `prefix_of` I'.
Proof.
  intros (Hk & (p0 & L0 & e0 & HL0 & He0 & Ht0) & Q & HQ & Hack) HL.
  destruct (lead_unique _ _ _ _ _ HL0 HL) as [-> ->]. clear HL0.
  apply lookup_lt_Some in He0 as HkL.
  remember (Z.to_nat (t' - t)) as d eqn:Hd. revert t' p' L' I' Hd.
  induction (lt_wf d) as [d _ IH]; intros t' p' L' I' -> Hlt HL' HI'.
  assert (∀ t2 p2 L2 I2, t < t2 < t' → lead_at g t2 p2 L2 → cand_at g t2 p2 I2 → take k L `prefix_of` I2) as IH'.
  { intros t2 p2 L2 I2 Ht2. eapply IH; [|done|lia]. lia. } clear IH.
  destruct HL' as (a' & Ha' & HL'). pose proof (Hg _ _ Ha') as N'.
  destruct HI' as (a'' & Ha'' & HI'). assert (a'' = a') as -> by congruence. clear Ha''.
  destruct (ni_elect _ _ _ N' _ _ HL') as (Q' & HQ' & Hvotes).
  destruct (quorums_meet _ _ HQ HQ') as (j & Hj & Hj').
  destruct (Hvotes j Hj') as (vl & Hcast & Hkeep).
  destruct (Hkeep t k Hlt (Hack j Hj)) as (p1 & L1 & HL1 & _ & Hor).
  destruct (lead_unique _ _ _ _ _ HL1 HL) as [-> ->]. clear HL1.
  destruct Hor as [Hvl|(t2 & p2 & L2 & I2 & Ht2 & HL2 & HI2 & Hno)].
  2: { exfalso. apply Hno. eapply IH'; [|done..]. lia. }
  destruct Hcast as (b & Hb & Hcast). pose proof (Hg _ _ Hb) as Nb.
  destruct (ni_cast _ _ _ Nb _ _ _ Hcast) as (I & (b' & Hb' & HI) & Hcov). assert (b' = a') as -> by congruence.
  assert (I = I') as -> by congruence.
  pose proof (ni_good_cast _ _ _ Nb _ _ _ Hcast) as Gvl. pose proof (ni_good_cand _ _ _ N' _ _ HI') as GI.
  assert (length (take k L) = k) as Hlk by (rewrite length_take; lia).
  assert (k ≤ length vl)%nat as Hkvl by (rewrite <- Hlk; by apply prefix_length).
  assert (vl !! (k - 1)%nat = Some e0) as Hvk.
  { rewrite <- (prefix_lookup_eq (k - 1) _ _ Hvl) by lia. by rewrite lookup_take_lt by lia. }
  destruct (last_entry vl) as (ev & Hev & Hlv); [by destruct vl; cbn in *; [lia|]|].
  assert (t ≤ ev.1) as Htv by (rewrite <- Ht0; eapply (good_sorted vl); [done..|lia]).
  destruct HL as (aL & HaL & HL). pose proof (Hg _ _ HaL) as NL.
  destruct (ni_lead_cand _ _ _ NL _ _ HL) as (I0 & HI0 & _). pose proof (ni_cand_le _ _ _ NL _ _ HI0) as [Ht1 _].
  destruct Hcov as [->|Hcov]; [cbn in Hkvl; lia|].
  assert (I' ≠ []) as Hne. { intros ->. cbn in Hcov. lia. }
  destruct (last_entry I' Hne) as (ei & Hei & Hli). apply lookup_lt_Some in Hei as Hlen.
  assert (take (S (length I' - 1)) I' = I') as EI by (apply take_ge; lia).
  destruct Hcov as [Hcov|[Heq Hle]].
  - (* a later last term: that term's leader has the prefix *)
    pose proof (ni_cand_terms _ _ _ N' _ _ _ _ HI' Hei) as Hτ.
    destruct (GI _ _ Hei) as (p2 & L2 & HL2 & Hp2). rewrite EI in Hp2.
    pose proof HL2 as (a2 & Ha2 & HL2').
    destruct (ni_lead_cand _ _ _ (Hg _ _ Ha2) _ _ HL2') as (I2 & HI2 & Hpre).
    assert (take k L `prefix_of` I2) as Hk2 by (eapply IH'; [|done|by exists a2]; lia).
    assert (take k L `prefix_of` L2) as Hk2' by (by etrans).
    apply (prefixes_of _ _ L2); [done..|]. rewrite Hlk.
    destruct (decide (k ≤ length I')%nat) as [|Hshort]; [done|]. exfalso.
    assert (L !! (length I' - 1)%nat = Some ei) as HLe.
    { rewrite <- (lookup_take_lt L k) by lia. rewrite (prefix_lookup_eq _ _ _ Hk2') by lia.
      by rewrite <- (prefix_lookup_eq _ _ _ Hp2) by lia. }
    pose proof (ni_lead_terms _ _ _ NL _ _ _ _ HL HLe). lia.
  - (* the same last term: both logs are prefixes of that term's leader's *)
    destruct (Gvl _ _ Hev) as (p2 & L2 & HL2 & Hp2). apply lookup_lt_Some in Hev.
    rewrite take_ge in Hp2 by lia.
    assert (I' `prefix_of` L2) as Hi2.
    { rewrite <- EI. eapply good_lead_prefix; [done..|]. rewrite <- Hli, Heq, Hlv. done. }
    etrans; [exact Hvl|]. by apply (prefixes_of _ _ L2).
Qed.

(** Two committed prefixes agree. *)
Lemma committed_agree l l' k k' tm tm' :
  committed_prefix g l k tm → committed_prefix g l' k' tm' → (k ≤ k')%nat → take k l = take k l'.
Proof.
  intros [->|(t & k0 & p & L & _ & Hc & HL & Hk & HkL & Hl)];
    [done|]. intros [->|(t' & k0' & p' & L' & _ & Hc' & HL' & Hk' & HkL' & Hl')] Hkk;
    [by replace k with 0%nat by lia|].
  rewrite (take_of_prefix k k L l), (take_of_prefix k k' L' l') by (done || lia).
  destruct (Z.lt_total t t') as [Hlt|[->|Hlt]].
  - pose proof HL' as (a' & Ha' & HL2). destruct (ni_lead_cand _ _ _ (Hg _ _ Ha') _ _ HL2) as (I' & HI' & Hp').
    assert (take k0 L `prefix_of` I') as H by (eapply leader_completeness; try done; by exists a').
    assert (take k0 L `prefix_of` L') as H' by (by etrans).
    symmetry. by apply (take_of_prefix k k0).
  - by destruct (lead_unique _ _ _ _ _ HL HL') as [_ ->].
  - pose proof HL as (a' & Ha' & HL2). destruct (ni_lead_cand _ _ _ (Hg _ _ Ha') _ _ HL2) as (I' & HI' & Hp').
    assert (take k0' L' `prefix_of` I') as H by (eapply leader_completeness; try done; by exists a').
    assert (take k0' L' `prefix_of` L) as H' by (by etrans).
    apply (take_of_prefix k k0'); [done|lia..].
Qed.
End facts.
End inv.
