(* ===== verification/RaftProtocolStep.v ===== *)
(** * Why the protocol is safe: moves

    Histories only grow, so that what is known about them stays true; every move
    of a server keeps the invariant of [RaftProtocol].  Hence, in every cluster
    state that is reachable, committed prefixes agree. *)

From stdpp Require Import fin_sets.
From S2P Require Import Prelude RaftTypes RaftProtocol.

(** ** Growing histories *)
Section growth.
Context {P : Type} (V : gset positive).
Abbreviation gstate := (gmap positive (anode P)).
Implicit Types (l es L I : list (Z * P)) (a b : anode P) (g : gstate) (t : Z) (k n : nat).

Record n_ext a a' : Prop := {
  nx_term : a_term a ≤ a_term a';
  nx_cast t v : a_cast a !! t = Some v → a_cast a' !! t = Some v;
  nx_cand t I : a_cand a !! t = Some I → a_cand a' !! t = Some I;
  nx_lead t L : a_lead a !! t = Some L → ∃ L', a_lead a' !! t = Some L' ∧ L `prefix_of` L';
  nx_acks x : x ∈ a_acks a → x ∈ a_acks a';
  (** what was not held in a past term stays so *)
  nx_past t k : t < a_term a → n_acked a' t k → n_acked a t k
}.
Definition ext g g' : Prop := ∀ j a, g !! j = Some a → ∃ a', g' !! j = Some a' ∧ n_ext a a'.

Lemma n_ext_refl a : n_ext a a.
Proof. split; eauto. done. Qed.

Lemma ext_insert g i a a' : g !! i = Some a → n_ext a a' → ext g (<[i := a']> g).
Proof.
  intros Hi Hx j b Hb. destruct (decide (j = i)) as [->|].
  - exists a'. rewrite lookup_insert_eq. by simplify_eq.
  - exists b. rewrite lookup_insert_ne by done. split; [done|]. apply n_ext_refl.
Qed.

Section mono.
Context (g g' : gstate) (Hx : ext g g').

Lemma lead_at_mono t p L : lead_at g t p L → ∃ L', lead_at g' t p L' ∧ L `prefix_of` L'.
Proof.
  intros (a & Ha & HL). destruct (Hx _ _ Ha) as (a' & Ha' & X).
  destruct (nx_lead _ _ X _ _ HL) as (L' & ? & ?). exists L'. split; [by exists a'|done].
Qed.
Lemma cand_at_mono t p I : cand_at g t p I → cand_at g' t p I.
Proof. intros (a & Ha & HL). destruct (Hx _ _ Ha) as (a' & Ha' & X). exists a'. split; [done|]. by apply X. Qed.
Lemma cast_at_mono j t c l : cast_at g j t c l → cast_at g' j t c l.
Proof. intros (a & Ha & HL). destruct (Hx _ _ Ha) as (a' & Ha' & X). exists a'. split; [done|]. by apply X. Qed.
Lemma n_acked_mono a a' t k : n_ext a a' → n_acked a t k → n_acked a' t k.
Proof.
  intros X [(k' & ? & ?)|(L & HL & ?)]; [left; exists k'; split; [done|by apply X]|].
  destruct (nx_lead _ _ X _ _ HL) as (L' & ? & ?%prefix_length). right. exists L'. split; [done|lia].
Qed.
Lemma acked_mono j t k : acked g j t k → acked g' j t k.
Proof.
  intros (a & Ha & Hk). destruct (Hx _ _ Ha) as (a' & Ha' & X). exists a'. split; [done|].
  by eapply n_acked_mono.
Qed.
Lemma good_mono l : good g l → good g' l.
Proof.
  intros Hl n e He. destruct (Hl n e He) as (p & L & HL & Hp).
  destruct (lead_at_mono _ _ _ HL) as (L' & ? & ?). exists p, L'. split; [done|]. by etrans.
Qed.
Lemma take_lead_mono k L L' : L `prefix_of` L' → (k ≤ length L)%nat → take k L' = take k L.
Proof. intros. symmetry. by apply prefix_take. Qed.
Lemma keep_mono l t k tm tm' : tm ≤ tm' → keep g l t k tm → keep g' l t k tm'.
Proof.
  intros Htm (p & L & HL & Hk & Hor). destruct (lead_at_mono _ _ _ HL) as (L' & HL' & Hp).
  exists p, L'. split; [done|]. split; [apply prefix_length in Hp; lia|].
  rewrite (take_lead_mono k L L') by done. destruct Hor as [?|(t2 & p2 & L2 & I2 & Ht & HL2 & HI2 & Hno)]; [by left|].
  right. destruct (lead_at_mono _ _ _ HL2) as (L2' & ? & ?).
  exists t2, p2, L2', I2. split_and!; [lia|lia|done|by apply cand_at_mono|done].
Qed.
Lemma committed_mono t k : committed V g t k → committed V g' t k.
Proof.
  intros (Hk & (p & L & e & HL & He & Ht) & Q & HQ & Ha). split; [done|]. split.
  - destruct (lead_at_mono _ _ _ HL) as (L' & ? & Hp). exists p, L', e. split_and!; try done.
    by eapply prefix_lookup_Some.
  - exists Q. split; [done|]. intros j Hj. by apply acked_mono, Ha.
Qed.
Lemma committed_prefix_mono l k tm tm' :
  tm ≤ tm' → committed_prefix V g l k tm → committed_prefix V g' l k tm'.
Proof.
  intros Htm [->|(t & k0 & p & L & ? & Hc & HL & ? & ? & ?)]; [by left|]. right.
  destruct (lead_at_mono _ _ _ HL) as (L' & ? & Hp). exists t, k0, p, L'.
  rewrite (take_lead_mono k L L') by done. apply prefix_length in Hp.
  split_and!; try done; try lia. by apply committed_mono.
Qed.
Lemma msg_inv_mono a m : msg_inv V g a m → msg_inv V g' a m.
Proof.
  destruct m; cbn; try done. intros (L & ? & ? & ? & ? & ? & Hc). exists L. split_and!; try done.
  by eapply committed_prefix_mono.
Qed.

(** What a server has held of a term before a vote of its own does not change. *)
Lemma acked_past j t c l t1 k :
  g_inv V g → cast_at g j t c l → t1 < t → acked g' j t1 k → acked g j t1 k.
Proof.
  intros Hg (b & Hb & Hc) Ht1 (b' & Hb' & Hk). exists b. split; [done|].
  destruct (Hx _ _ Hb) as (b2 & Hb2 & X). assert (b2 = b') as -> by congruence.
  eapply nx_past; [done| |done]. pose proof (ni_cast_le _ _ _ _ (Hg _ _ Hb) _ _ Hc). lia.
Qed.

Lemma node_inv_mono i a : g_inv V g → node_inv V g i a → node_inv V g' i a.
Proof.
  intros Hg N. destruct N; split; try done.
  - intros Hc. destruct (ni_candidate Hc) as (? & ? & Hv). split_and!; try done.
    intros j Hj. destruct (Hv j Hj) as (l & ?). exists l. by apply cast_at_mono.
  - intros m Hm. by apply msg_inv_mono, ni_sent.
  - intros j Hr Hm. by apply acked_mono, ni_match.
  - by apply good_mono.
  - intros t c l Hc. eapply good_mono, ni_good_cast, Hc.
  - intros t I Hc. eapply good_mono, ni_good_cand, Hc.
  - intros t L Hc. eapply good_mono, ni_good_lead, Hc.
  - intros t c l Hc. destruct (ni_cast _ _ _ Hc) as (I & ? & ?). exists I. split; [by apply cand_at_mono|done].
  - intros t c l t1 k Hc Ht Hk. eapply keep_mono; [reflexivity|eauto].
  - intros t k Hk. eapply keep_mono; [reflexivity|eauto].
  - intros t L HL. destruct (ni_elect _ _ HL) as (Q & HQ & Hv). exists Q. split; [done|].
    intros j Hj. destruct (Hv j Hj) as (l & Hc & Hkeep). exists l. split; [by apply cast_at_mono|].
    intros t1 k Ht1 Hk. eapply keep_mono; [reflexivity|]. apply Hkeep; [done|]. by eapply acked_past.
  - eapply committed_prefix_mono; [reflexivity|done].
Qed.
End mono.

(** Every move only adds to the history of its server. *)
Lemma lstep_n_ext g i net a a' : node_inv V g i a → lstep V i net a a' → n_ext a a'.
Proof.
  intros N Hs. pose proof (ni_cast_le _ _ _ _ N) as Hcl. pose proof (ni_cand_le _ _ _ _ N) as Hdl.
  pose proof (ni_vote _ _ _ _ N) as Hv. pose proof (ni_leader _ _ _ _ N) as Hl.
  pose proof (ni_candidate _ _ _ _ N) as Hc.
  destruct Hs; split; unfold n_acked; cbn; try done; try lia; try (by eauto).
  - intros t v Ht. rewrite lookup_insert_ne; [done|]. intros <-. apply Hcl in Ht. lia.
  - intros t I Ht. rewrite lookup_insert_ne; [done|]. intros <-. apply Hdl in Ht. lia.
  - intros t v Ht. rewrite lookup_insert_ne; [done|]. intros <-.
    rewrite Ht in Hv. cbn in Hv. congruence.
  - intros t L Ht. rewrite lookup_insert_ne; [by eauto|]. intros <-.
    destruct (Hc ltac:(done)) as (_ & ? & _). congruence.
  - intros t k Ht [?|(L & HL & ?)]; [by left|]. right. exists L. rewrite lookup_insert_ne in HL by lia. done.
  - intros t L Ht. destruct (decide (t = a_term a)) as [->|].
    + rewrite lookup_insert_eq. rewrite (Hl ltac:(done)) in Ht. injection Ht as <-.
      eexists. split; [done|]. by apply prefix_app_r.
    + rewrite lookup_insert_ne by done. eauto.
  - intros t k Ht [?|(L & HL & ?)]; [by left|]. right. exists L. rewrite lookup_insert_ne in HL by lia. done.
  - intros x Hx. by apply elem_of_cons; right.
  - intros t k Ht [(k' & ? & Hin)|?]; [|by right]. left. exists k'. apply elem_of_cons in Hin as [[=]|?]; [lia|done].
Qed.
End growth.

(** ** Facts about one server *)
Section facts.
Context {P : Type} (V : gset positive).
Abbreviation gstate := (gmap positive (anode P)).
Implicit Types (l es L I : list (Z * P)) (a b : anode P) (g : gstate) (t : Z) (k n : nat).

Lemma n_acked_le a t k k' : (k ≤ k')%nat → n_acked a t k' → n_acked a t k.
Proof.
  intros Hk [(k2 & ? & ?)|(L & ? & ?)]; [left; exists k2|right; exists L]; (split; [lia|done]) || (split; [done|lia]).
Qed.
Lemma n_acked_term g i a t k : node_inv V g i a → n_acked a t k → t ≤ a_term a.
Proof.
  intros N [(k' & _ & Hin)|(L & HL & _)]; [by eapply (ni_ack_le _ _ _ _ N)|].
  destruct (ni_lead_cand _ _ _ _ N _ _ HL) as (I & HI & _). apply (ni_cand_le _ _ _ _ N) in HI. lia.
Qed.
Lemma good_prefix g l l' : good g l' → l `prefix_of` l' → good g l.
Proof.
  intros Hg Hp n e He. destruct (Hg n e) as (p & L & ? & ?); [by eapply prefix_lookup_Some|].
  exists p, L. split; [done|]. apply lookup_lt_Some in He. by rewrite (prefix_take _ _ _ Hp) by lia.
Qed.
Lemma good_snoc g l e p L : good g l → lead_at g e.1 p L → l ++ [e] `prefix_of` L → good g (l ++ [e]).
Proof.
  intros Hl HL Hp n x. destruct (decide (n < length l)%nat).
  - rewrite lookup_app_l by done. intros Hx. rewrite take_app_le by lia. by apply Hl.
  - intros Hx. apply lookup_lt_Some in Hx as Hn. rewrite length_app in Hn. cbn in Hn.
    replace n with (length l) in * by lia. rewrite list_lookup_middle in Hx by done. injection Hx as <-.
    exists p, L. split; [done|]. rewrite take_ge; [done|]. rewrite length_app. cbn. lia.
Qed.
Lemma keep_prefix g l l' t k tm : l `prefix_of` l' → keep g l t k tm → keep g l' t k tm.
Proof.
  intros Hp (p & L & HL & Hk & [?|?]); exists p, L; split_and!; try done; [left; by etrans|by right].
Qed.
Lemma committed_prefix_log g l l' k tm :
  (k ≤ length l)%nat → take k l `prefix_of` l' → committed_prefix V g l k tm → committed_prefix V g l' k tm.
Proof.
  intros Hkl Hp [->|(t & k0 & p & L & ? & ? & ? & ? & ? & HL)]; [by left|]. right.
  exists t, k0, p, L. split_and!; try done. by rewrite <- (take_of_prefix k k L l HL).
Qed.
Lemma committed_prefix_le g l k k' tm :
  (k ≤ k')%nat → committed_prefix V g l k' tm → committed_prefix V g l k tm.
Proof.
  intros Hk [->|(t & k0 & p & L & ? & ? & ? & ? & ? & HL)]; [left; lia|]. right.
  exists t, k0, p, L. split_and!; try done; try lia. etrans; [|exact HL]. by apply take_prefix_mono.
Qed.
Lemma prev_ok_prefix l l' prev pterm : l `prefix_of` l' → prev_ok l prev pterm → prev_ok l' prev pterm.
Proof.
  intros Hp [->|(e & He & ?)]; [by left|right]. exists e. split; [|done]. by eapply prefix_lookup_Some.
Qed.
Lemma msg_inv_ext g a a' m : n_ext a a' → msg_inv V g a m → msg_inv V g a' m.
Proof.
  intros X. destruct m; cbn.
  - intros (I & HI & ?). exists I. split; [by apply X|done].
  - intros (l & ?). exists l. by apply X.
  - intros (L & HL & Hp & Hk & Hprev & ? & Hc). destruct (nx_lead _ _ X _ _ HL) as (L' & HL' & Hpre).
    exists L'. split; [done|]. rewrite <- (prefix_take _ _ _ Hpre) by done. split; [by etrans|].
    split; [apply prefix_length in Hpre; lia|]. split; [by eapply prev_ok_prefix|]. split; [done|].
    destruct Hc as [->|(t1 & k0 & p & L1 & ? & ? & ? & ? & ? & ?)]; [by left|right].
    exists t1, k0, p, L1. split_and!; try done. by etrans.
  - by apply X.
Qed.
End facts.

(** ** Every move keeps the invariant *)
Section step.
Context {P : Type} (V : gset positive) (g : gmap positive (anode P)) (Hg : g_inv V g).
Context (i : positive) (a : anode P) (Hi : g !! i = Some a).
Implicit Types (l es L I : list (Z * P)) (t : Z) (k n : nat).

(** What is known after a move of [a] to [a'] that only adds to its history. *)
Record moved (g' : gmap positive (anode P)) (a' : anode P) : Prop := {
  mv_ext : ext g g';
  mv_lookup : g' !! i = Some a';
  mv_old : node_inv V g' i a;
  mv_sent m : m ∈ a_sent a → msg_inv V g' a' m;
  mv_cast_keep t c l t1 k : a_cast a !! t = Some (c, l) → t1 < t → n_acked a' t1 k → keep g' l t1 k t;
  mv_past t k : n_acked a' t k → t < a_term a → keep g' (a_log a) t k (a_term a)
}.

Lemma moves a' : n_ext a a' → moved (<[i := a']> g) a'.
Proof.
  intros X. assert (ext g (<[i := a']> g)) as Hx by (by eapply ext_insert).
  assert (node_inv V (<[i := a']> g) i a) as N by (apply (node_inv_mono V g _ Hx); [done|by apply Hg]).
  split; try done.
  - by rewrite lookup_insert_eq.
  - intros m Hm. eapply msg_inv_ext; [done|]. by apply (ni_sent _ _ _ _ N).
  - intros t c l t1 k Hc Ht Hk. eapply (ni_cast_keep _ _ _ _ N); [done..|].
    eapply nx_past; [done| |done]. pose proof (ni_cast_le _ _ _ _ N _ _ Hc). lia.
  - intros t k Hk Ht. apply (ni_keep _ _ _ _ N). by eapply nx_past.
Qed.

(** Splits the goal into the fields of the invariant; those that a move does not touch are done. *)
Ltac node_move :=
  match goal with |- node_inv _ (<[_ := ?b]> _) _ _ =>
    let X := fresh "X" in
    assert (n_ext a b) as X by (eapply (lstep_n_ext V g i (in_net g)); [by apply Hg|econstructor; eauto]);
    let M := fresh "M" in
    pose proof (moves b X) as M; clear X; revert M; generalize (<[i := b]> g);
    let g' := fresh "g'" in intros g' [Hx Hlk N' Hsent Hck Hkp];
    destruct N'; split; cbn [a_term a_vote a_role a_log a_commit a_votes a_match a_sent a_cast a_cand a_lead a_acks
      set_a_term set_a_vote set_a_role set_a_log set_a_commit set_a_votes set_a_match set_a_sent set_a_cast
      set_a_cand set_a_lead set_a_acks] in *; try done
  end.

Lemma keep_later (g' : gmap positive (anode P)) l t k tm tm' : tm ≤ tm' → keep g' l t k tm → keep g' l t k tm'.
Proof.
  intros Ht (p & L & ? & ? & [?|(t2 & p2 & L2 & I2 & ? & ?)]); exists p, L; split_and!; try done; [by left|].
  right. exists t2, p2, L2, I2. split; [lia|done].
Qed.
Lemma committed_prefix_later (g' : gmap positive (anode P)) l k tm tm' :
  tm ≤ tm' → committed_prefix V g' l k tm → committed_prefix V g' l k tm'.
Proof.
  intros Ht [->|(t & k0 & p & L & ? & ?)]; [by left|right]. exists t, k0, p, L. split; [lia|done].
Qed.

Lemma new_term_inv t a' :
  a_term a < t → a' = set_a_role RAFT_STATE_FOLLOWER (set_a_vote None (set_a_term t a)) →
  node_inv V (<[i := a']> g) i a'.
Proof.
  intros Ht ->. node_move.
  - lia.
  - intros t1 v ?%ni_cast_le. lia.
  - intros t1 I ?%ni_cand_le. lia.
  - intros t1 k ?%ni_ack_le. lia.
  - destruct (a_cast a !! t) as [v|] eqn:E; [|done]. apply ni_cast_le in E. lia.
  - intros n e ?%ni_log_terms. lia.
  - intros t1 k Hk. eapply keep_later; [|by apply ni_keep]. lia.
  - eapply committed_prefix_later; [|done]. lia.
Qed.
Lemma step_down_inv a' :
  a' = set_a_role RAFT_STATE_FOLLOWER a → node_inv V (<[i := a']> g) i a'.
Proof. intros ->. node_move. Qed.

Lemma covers_refl l : covers (length l) (last_term_of l) l.
Proof. by right; right. Qed.

Lemma candidate_inv a' :
  a' = set_a_cand (<[a_term a + 1 := a_log a]> (a_cand a))
        (set_a_cast (<[a_term a + 1 := (i, a_log a)]> (a_cast a))
          (set_a_votes ∅ (set_a_role RAFT_STATE_CANDIDATE (set_a_vote (Some i)
            (set_a_term (a_term a + 1) a))))) →
  node_inv V (<[i := a']> g) i a'.
Proof.
  intros ->. node_move.
  - lia.
  - intros t v [[<- <-]|[? ?%ni_cast_le]]%lookup_insert_Some; lia.
  - intros t I [[<- <-]|[? ?%ni_cand_le]]%lookup_insert_Some; lia.
  - intros t k ?%ni_ack_le. lia.
  - by rewrite lookup_insert_eq.
  - intros _. rewrite lookup_insert_eq. split; [done|]. split.
    + destruct (a_lead a !! (a_term a + 1)) as [L|] eqn:E; [|done].
      destruct (ni_lead_cand _ _ E) as (I & ?%ni_cand_le & _). lia.
    + intros j Hj. assert (j = i) as -> by set_solver. exists (a_log a). eexists. split; [exact Hlk|]. cbn.
      by rewrite lookup_insert_eq.
  - intros t L HL. destruct (ni_lead_cand _ _ HL) as (I & HI & ?). exists I. split; [|done].
    rewrite lookup_insert_ne; [done|]. intros <-. apply ni_cand_le in HI. lia.
  - intros t I n e [[<- <-]|[? HI]]%lookup_insert_Some He; [apply ni_log_terms in He; lia|by eapply ni_cand_terms].
  - intros n e ?%ni_log_terms. lia.
  - intros t c l [[<- [= <- <-]]|[? Hc]]%lookup_insert_Some; [done|by eapply ni_good_cast].
  - intros t I [[<- <-]|[? Hc]]%lookup_insert_Some; [done|by eapply ni_good_cand].
  - intros t c l [[<- [= <- <-]]|[? Hc]]%lookup_insert_Some; [|by eauto].
    exists (a_log a). split; [|apply covers_refl]. eexists. split; [exact Hlk|]. cbn. by rewrite lookup_insert_eq.
  - intros t c l t1 k [[<- [= <- <-]]|[? Hc]]%lookup_insert_Some Ht1 Hk; [|by eapply Hck].
    eapply keep_later; [|by apply ni_keep]. lia.
  - intros t1 k Hk. eapply keep_later; [|by apply ni_keep]. lia.
  - eapply committed_prefix_later; [|done]. lia.
Qed.

Lemma send_requestvote_inv a' :
  a_role a = RAFT_STATE_CANDIDATE →
  a' = set_a_sent (MRequestVote (a_term a) (length (a_log a)) (last_term_of (a_log a)) :: a_sent a) a →
  node_inv V (<[i := a']> g) i a'.
Proof.
  intros Hr ->. node_move. intros m [->|Hm]%elem_of_cons; [|by apply Hsent].
  destruct (ni_candidate Hr) as (? & _). by exists (a_log a).
Qed.

Lemma grant_inv c lidx lterm a' :
  in_net g c (MRequestVote (a_term a) lidx lterm) → a_vote a = None → a_role a = RAFT_STATE_FOLLOWER →
  covers lidx lterm (a_log a) →
  a' = set_a_sent (MVote (a_term a) c :: a_sent a)
        (set_a_cast (<[a_term a := (c, a_log a)]> (a_cast a)) (set_a_vote (Some c) a)) →
  node_inv V (<[i := a']> g) i a'.
Proof.
  intros Hnet Hv Hr Hcov ->. pose proof Hnet as (b & Hb & Hm).
  apply (ni_sent _ _ _ _ (Hg _ _ Hb)) in Hm as (I & HI & -> & ->). node_move; try (rewrite Hr; done).
  - intros t v [[<- <-]|[? ?%ni_cast_le]]%lookup_insert_Some; [lia|done].
  - by rewrite lookup_insert_eq.
  - intros m [->|Hm]%elem_of_cons; [|by apply Hsent]. exists (a_log a). cbn. by rewrite lookup_insert_eq.
  - intros t d l [[<- [= <- <-]]|[? Hc]]%lookup_insert_Some; [done|by eapply ni_good_cast].
  - intros t d l [[<- [= <- <-]]|[? Hc]]%lookup_insert_Some; [|by eauto].
    exists I. split; [|done]. apply (cand_at_mono _ _ Hx). by exists b.
  - intros t d l t1 k [[<- [= <- <-]]|[? Hc]]%lookup_insert_Some Ht1 Hk; [by apply ni_keep|by eapply Hck].
Qed.

Lemma get_vote_inv j a' :
  in_net g j (MVote (a_term a) i) → a_role a = RAFT_STATE_CANDIDATE →
  a' = set_a_votes ({[j]} ∪ a_votes a) a → node_inv V (<[i := a']> g) i a'.
Proof.
  intros Hnet Hr ->. pose proof Hnet as (b & Hb & Hm).
  apply (ni_sent _ _ _ _ (Hg _ _ Hb)) in Hm as (l & Hl). node_move.
  intros _. destruct (ni_candidate Hr) as (? & ? & Hv). split_and!; try done.
  intros j' Hj'. destruct (decide (j' = j)) as [->|].
  - exists l. apply (cast_at_mono _ _ Hx). by exists b.
  - apply Hv. set_solver.
Qed.

Lemma get_ack_inv j k a' :
  in_net g j (MAck (a_term a) k) → a_role a = RAFT_STATE_LEADER →
  a' = set_a_match (λ j', if decide (j' = j) then k else a_match a j') a → node_inv V (<[i := a']> g) i a'.
Proof.
  intros Hnet Hr ->. pose proof Hnet as (b & Hb & Hm).
  apply (ni_sent _ _ _ _ (Hg _ _ Hb)) in Hm. cbn in Hm. node_move.
  intros j' _ Hpos. destruct (decide (j' = j)) as [->|]; [|by apply ni_match].
  apply (acked_mono _ _ Hx). exists b. split; [done|]. left. by exists k.
Qed.

Lemma send_append_inv prev pterm a' :
  a_role a = RAFT_STATE_LEADER → (prev ≤ length (a_log a))%nat → prev_ok (a_log a) prev pterm →
  a' = set_a_sent (MAppend (a_term a) prev pterm (drop prev (a_log a)) (a_commit a) :: a_sent a) a →
  node_inv V (<[i := a']> g) i a'.
Proof.
  intros Hr Hprev Hok ->. node_move. intros m [->|Hm]%elem_of_cons; [|by apply Hsent].
  exists (a_log a). cbn. rewrite take_drop, length_drop. split_and!; try done; [by apply ni_leader|lia].
Qed.

Lemma commit_inv k Q e a' :
  a_role a = RAFT_STATE_LEADER → (a_commit a < k)%nat → a_log a !! (k - 1)%nat = Some e →
  e.1 = a_term a → quorum V Q → (∀ j, j ∈ Q → j = i ∨ (k ≤ a_match a j)%nat) →
  a' = set_a_commit k a → node_inv V (<[i := a']> g) i a'.
Proof.
  intros Hr Hlt He Ht HQ Hm ->. apply lookup_lt_Some in He as Hlen. node_move; [lia|].
  right. assert (lead_at g' (a_term a) i (a_log a)) as HL by (eexists; split; [exact Hlk|]; by apply ni_leader).
  exists (a_term a), k, i, (a_log a). split_and!; try done; try lia; [|by apply take_prefix_of].
  split; [lia|]. split; [by exists i, (a_log a), e|]. exists Q. split; [done|].
  intros j Hj. destruct (Hm j Hj) as [->|Hk].
  - eexists. split; [exact Hlk|]. right. exists (a_log a). split; [by apply ni_leader|lia].
  - destruct (ni_match j Hr ltac:(lia)) as (b & Hb & Hb'). exists b. split; [done|]. by eapply n_acked_le.
Qed.

(** ** Becoming leader *)

(** Nobody has led the term of a candidate with a majority. *)
Lemma no_other_leader Q t2 p2 L2 :
  a_role a = RAFT_STATE_CANDIDATE → Q ⊆ {[i]} ∪ a_votes a → quorum V Q →
  lead_at g t2 p2 L2 → t2 ≠ a_term a.
Proof.
  intros Hr HQ Hq (b & Hb & HL) ->. pose proof (Hg _ _ Hi) as N.
  destruct (ni_candidate _ _ _ _ N Hr) as (_ & Hno & Hv).
  destruct (ni_elect _ _ _ _ (Hg _ _ Hb) _ _ HL) as (Q' & Hq' & Hv').
  destruct (quorums_meet _ _ _ Hq Hq') as (j & Hj & Hj').
  destruct (Hv j) as (l & Hc); [set_solver|]. destruct (Hv' j Hj') as (l' & Hc' & _).
  destruct (cast_unique _ _ _ _ _ _ _ Hc Hc') as [<- _]. simplify_eq.
Qed.

Lemma become_leader_inv Q a' :
  a_role a = RAFT_STATE_CANDIDATE → Q ⊆ {[i]} ∪ a_votes a → quorum V Q →
  a' = set_a_lead (<[a_term a := a_log a]> (a_lead a))
        (set_a_match (λ _, 0%nat) (set_a_role RAFT_STATE_LEADER a)) →
  node_inv V (<[i := a']> g) i a'.
Proof.
  intros Hr HQ Hq ->. pose proof (Hg _ _ Hi) as N.
  pose proof (λ t2 p2 L2, no_other_leader Q t2 p2 L2 Hr HQ Hq) as Hno.
  assert (∀ t k l, keep g l t k (a_term a) → keep g l t k (a_term a - 1)) as Hearlier.
  { intros t k l (p & L & ? & ? & [?|(t2 & p2 & L2 & I2 & ? & HL2 & ? & ?)]); exists p, L; split_and!; try done; [by left|].
    right. exists t2, p2, L2, I2. pose proof (Hno _ _ _ HL2). split; [lia|done]. }
  assert (∀ j, j ∈ Q → ∃ l, cast_at g j (a_term a) i l ∧
    ∀ t1 k, t1 < a_term a → acked g j t1 k → keep g l t1 k (a_term a - 1)) as Helect.
  { intros j Hj. destruct (ni_candidate _ _ _ _ N Hr) as (_ & _ & Hv).
    destruct (Hv j ltac:(set_solver)) as (l & b & Hb & Hc). exists l. split; [by exists b|].
    intros t1 k Ht1 (b' & Hb' & Hk). simplify_eq. apply Hearlier.
    by eapply (ni_cast_keep _ _ _ _ (Hg _ _ Hb)). }
  node_move.
  - intros _. by rewrite lookup_insert_eq.
  - intros t L [[<- <-]|[? HL]]%lookup_insert_Some; [|by eauto].
    destruct (ni_candidate Hr) as (? & _). by exists (a_log a).
  - intros t L n e [[<- <-]|[? HL]]%lookup_insert_Some He; [by apply ni_log_terms in He|by eapply ni_lead_terms].
  - lia.
  - intros t L [[<- <-]|[? HL]]%lookup_insert_Some; [done|by eapply ni_good_lead].
  - intros t k Hk. destruct (decide (t < a_term a)); [by apply Hkp|].
    unfold n_acked in Hk. cbn in Hk. destruct Hk as [?|(L & [[<- <-]|[? HL]]%lookup_insert_Some & ?)].
    + apply ni_keep. by left.
    + exists i, (a_log a). split_and!; [|done|left; apply take_prefix_of].
      eexists. split; [exact Hlk|]. cbn. by rewrite lookup_insert_eq.
    + apply ni_keep. right. by exists L.
  - intros t L [[<- <-]|[? HL]]%lookup_insert_Some; [|by eauto]. exists Q. split; [done|]. intros j Hj.
    destruct (Helect j Hj) as (l & Hc & Hkeep). exists l. split; [by apply (cast_at_mono _ _ Hx)|].
    intros t1 k Ht1 Hk. eapply (keep_mono _ _ Hx); [reflexivity|]. apply Hkeep; [done|].
    by eapply acked_past.
Qed.

(** ** A leader's new entry *)
Lemma append_inv e a' :
  a_role a = RAFT_STATE_LEADER → e.1 = a_term a →
  a' = set_a_lead (<[a_term a := a_log a ++ [e]]> (a_lead a)) (set_a_log (a_log a ++ [e]) a) →
  node_inv V (<[i := a']> g) i a'.
Proof.
  intros Hr He ->. node_move; try (rewrite Hr; done).
  all: assert (lead_at g' (a_term a) i (a_log a ++ [e])) as HL
    by (eexists; split; [exact Hlk|]; cbn; by rewrite lookup_insert_eq).
  all: assert (good g' (a_log a ++ [e])) as Hgood by (apply (good_snoc _ _ _ i (a_log a ++ [e])); [done|by rewrite He|done]).
  all: assert (∀ n x, (a_log a ++ [e]) !! n = Some x → x.1 ≤ a_term a) as Hterms
    by (intros n x [?|[_ [? <-]%list_lookup_singleton_Some]]%lookup_app_Some; [by eauto|lia]).
  - intros _. by rewrite lookup_insert_eq.
  - intros t L [[<- <-]|[? HL']]%lookup_insert_Some; [|by eauto].
    destruct (ni_lead_cand _ _ (ni_leader Hr)) as (I & ? & ?). exists I. split; [done|]. by apply prefix_app_r.
  - intros t L n x [[<- <-]|[? HL']]%lookup_insert_Some Hx'; [by eapply Hterms|by eapply ni_lead_terms].
  - exact Hterms.
  - rewrite length_app. cbn. lia.
  - done.
  - intros t L [[<- <-]|[? HL']]%lookup_insert_Some; [done|by eapply ni_good_lead].
  - intros t k Hk. destruct (decide (t < a_term a)).
    { eapply keep_prefix; [|by apply Hkp]. by apply prefix_app_r. }
    unfold n_acked in Hk. cbn in Hk. destruct Hk as [?|(L & [[<- <-]|[? HL']]%lookup_insert_Some & ?)].
    + eapply keep_prefix; [|apply ni_keep; by left]. by apply prefix_app_r.
    + exists i, (a_log a ++ [e]). split_and!; [done..|]. left. apply take_prefix_of.
    + eapply keep_prefix; [|apply ni_keep; right; by exists L]. by apply prefix_app_r.
  - intros t L [[<- <-]|[? HL']]%lookup_insert_Some; [|by eauto]. by apply (ni_elect _ _ (ni_leader Hr)).
  - eapply committed_prefix_log; [done| |done]. etrans; [apply take_prefix_of|]. by apply prefix_app_r.
Qed.

(** ** A follower and its leader's entries *)
Section follower.
Context (j : positive) (prev : nat) (pterm : Z) (es : list (Z * P)) (lc : nat).
Context (Hnet : in_net g j (MAppend (a_term a) prev pterm es lc)) (Hr : a_role a = RAFT_STATE_FOLLOWER).
Implicit Types (c : nat).

Lemma append_msg : ∃ L, lead_at g (a_term a) j L ∧ take prev L ++ es `prefix_of` L ∧ (prev ≤ length L)%nat ∧
  prev_ok L prev pterm ∧ (lc ≤ prev + length es)%nat ∧ committed_prefix V g L lc (a_term a) ∧
  good g L ∧ (∀ n x, L !! n = Some x → x.1 ≤ a_term a) ∧
  ∃ I, cand_at g (a_term a) j I ∧ I `prefix_of` L.
Proof.
  destruct Hnet as (b & Hb & Hm). pose proof (Hg _ _ Hb) as N.
  apply (ni_sent _ _ _ _ N) in Hm as (L & HL & Hp & Hlen & Hok & Hlc & Hc).
  destruct (ni_lead_cand _ _ _ _ N _ _ HL) as (I & HI & ?).
  exists L. split; [by exists b|]. split_and!; try done.
  - by eapply (ni_good_lead _ _ _ _ N).
  - intros n x. by apply (ni_lead_terms _ _ _ _ N).
  - exists I. split; [by exists b|done].
Qed.

(** Where the previous entry and the first [c] entries have the leader's terms, the
    log is the leader's. *)
Lemma same_terms_take L c :
  good g L → take prev L ++ es `prefix_of` L → (prev ≤ length L)%nat → prev_ok L prev pterm →
  prev_ok (a_log a) prev pterm → same_terms (a_log a) es prev c → (c ≤ length es)%nat →
  take (prev + c) (a_log a) = take prev L ++ take c es ∧ (prev + c ≤ length (a_log a))%nat.
Proof.
  intros GL Hp Hlen HokL Hok Hsame Hc. pose proof (ni_good_log _ _ _ _ (Hg _ _ Hi)) as Gl.
  assert (take (prev + c) L = take prev L ++ take c es) as <-.
  { rewrite <- (prefix_take _ _ _ Hp) by (rewrite length_app, length_take; lia).
    rewrite take_app_ge by (rewrite length_take; lia). f_equal. rewrite length_take. f_equal. lia. }
  destruct (decide (prev + c = 0)%nat) as [->|Hpos]; [split; [done|lia]|].
  assert (∃ n x y, n = (prev + c - 1)%nat ∧ a_log a !! n = Some x ∧ L !! n = Some y ∧ x.1 = y.1)
    as (n & x & y & -> & Hx & Hy & E).
  { destruct c as [|c].
    - destruct Hok as [->|(x & Hx & ?)]; [lia|]. destruct HokL as [->|(y & Hy & ?)]; [lia|].
      exists (prev - 1)%nat, x, y. rewrite Nat.add_0_r. split_and!; try done. congruence.
    - destruct (Hsame c ltac:(lia)) as (x & y & Hx & Hy & ?). exists (prev + c)%nat, x, y.
      split_and!; try done; [lia|]. eapply prefix_lookup_Some; [|done].
      rewrite lookup_app_r by (rewrite length_take; lia). rewrite length_take.
      replace (prev + c - prev `min` length L)%nat with c by lia. done. }
  pose proof (good_match _ _ Hg _ _ _ _ _ Gl GL Hx Hy E) as Et.
  replace (S (prev + c - 1)) with (prev + c)%nat in Et by lia. split; [done|].
  apply lookup_lt_Some in Hx. lia.
Qed.

(** What the log held of an earlier leader it holds after following this one up to
    place [m], unless this one was elected without it. *)
Lemma follow_keeps L I m t1 p1 L1 k :
  lead_at g (a_term a) j L → cand_at g (a_term a) j I → I `prefix_of` L →
  (∀ x y, a_log a !! m = Some x → L !! m = Some y → x.1 ≠ y.1) → (m < length L)%nat →
  t1 ≤ a_term a → lead_at g t1 p1 L1 → (k ≤ length L1)%nat → take k L1 `prefix_of` a_log a →
  (k ≤ m)%nat ∨ (t1 < a_term a ∧ ¬ take k L1 `prefix_of` I).
Proof.
  intros HL HI HIL Hpart Hm Ht1 HL1 Hk Hkl. destruct (decide (k ≤ m)%nat) as [|Hkm]; [by left|right].
  destruct (lookup_lt_is_Some_2 L m Hm) as [y Hy].
  destruct (lookup_lt_is_Some_2 (take k L1) m) as [x Hx]; [rewrite length_take; lia|].
  assert (a_log a !! m = Some x) as Hx' by (by eapply prefix_lookup_Some).
  pose proof (Hpart _ _ Hx' Hy) as Hne.
  assert (∀ t2, t2 = a_term a → lead_at g t2 p1 L1 → False) as Hneq.
  { intros t2 -> HL2. destruct (lead_unique _ _ Hg _ _ _ _ _ HL HL2) as [_ <-].
    rewrite lookup_take_lt in Hx by lia. congruence. }
  split.
  - destruct (decide (t1 = a_term a)) as [E|]; [by destruct (Hneq _ E)|lia].
  - intros Hp. assert (take k L1 `prefix_of` L) as Hp' by (by etrans).
    pose proof (prefix_lookup_Some _ _ _ _ Hx Hp'). congruence.
Qed.

Lemma follow_keep L I m l' g' t1 k :
  ext g g' → lead_at g (a_term a) j L → cand_at g (a_term a) j I → I `prefix_of` L →
  (∀ x y, a_log a !! m = Some x → L !! m = Some y → x.1 ≠ y.1) → (m < length L)%nat →
  take m (a_log a) `prefix_of` l' → t1 ≤ a_term a →
  keep g (a_log a) t1 k (a_term a) → keep g' l' t1 k (a_term a).
Proof.
  intros Hx HL HI HIL Hpart Hm Hl' Ht1 (p1 & L1 & HL1 & Hk & Hor).
  eapply (keep_mono _ _ Hx); [reflexivity|]. exists p1, L1. split_and!; try done.
  destruct Hor as [Hkl|?]; [|by right].
  destruct (follow_keeps L I m t1 p1 L1 k) as [Hkm|[? ?]]; try done.
  - left. etrans; [|exact Hl']. assert (length (take k L1) = k) as Hlk by (rewrite length_take; lia).
    rewrite <- (take_ge (take k L1) k) by lia. rewrite (prefix_take _ _ _ Hkl) by lia. by apply take_prefix_mono.
  - right. exists (a_term a), j, L, I. split_and!; try done; lia.
Qed.

Lemma truncate_inv e a' :
  (0 < prev)%nat → a_log a !! (prev - 1)%nat = Some e → e.1 ≠ pterm → (a_commit a < prev)%nat →
  a' = set_a_log (take (prev - 1) (a_log a)) a → node_inv V (<[i := a']> g) i a'.
Proof.
  intros Hpos He Hne Hcom ->. pose proof (Hg _ _ Hi) as N.
  destruct append_msg as (L & HL & Hp & Hlen & Hok & _ & _ & GL & Hterms & I & HI & HIL).
  pose proof (take_prefix_of (prev - 1) (a_log a)) as Hpre.
  assert (∀ x y, a_log a !! (prev - 1)%nat = Some x → L !! (prev - 1)%nat = Some y → x.1 ≠ y.1) as Hpart.
  { intros x y Hx Hy. destruct Hok as [->|(y' & Hy' & <-)]; [lia|]. congruence. }
  assert (∀ t k, n_acked a t k → keep g (a_log a) t k (a_term a)) as Hkold by (apply (ni_keep _ _ _ _ N)).
  node_move; try (rewrite Hr; done).
  - intros n x Hx'. eapply ni_log_terms. by eapply prefix_lookup_Some.
  - apply lookup_lt_Some in He. rewrite length_take. lia.
  - by eapply good_prefix.
  - intros t k Hk. pose proof (n_acked_term _ _ _ _ _ _ N Hk) as Ht.
    eapply follow_keep; try done; [lia|]. by apply Hkold.
  - eapply committed_prefix_log; [exact ni_commit_le| |done]. apply take_prefix_mono. lia.
Qed.

Lemma accept_inv c l' commit' a' :
  prev_ok (a_log a) prev pterm → same_terms (a_log a) es prev c →
  (c = length es ∧ l' = a_log a ∨
   parts_at (a_log a) es prev c ∧ (a_commit a ≤ prev + c)%nat ∧ l' = take (prev + c) (a_log a) ++ drop c es) →
  (a_commit a ≤ commit')%nat → (commit' = a_commit a ∨ (commit' ≤ lc)%nat) →
  a' = set_a_sent (MAck (a_term a) (prev + length es) :: a_sent a)
        (set_a_acks ((a_term a, (prev + length es)%nat) :: a_acks a)
          (set_a_commit commit' (set_a_log l' a))) →
  node_inv V (<[i := a']> g) i a'.
Proof.
  intros Hok Hsame Hl' Hcge Hc' ->. pose proof (Hg _ _ Hi) as N.
  destruct append_msg as (L & HL & Hp & Hlen & HokL & Hlc & Hcom & GL & Hterms & I & HI & HIL).
  assert (c ≤ length es)%nat as Hce.
  { destruct Hl' as [[-> _]|[(x & Hx & _) _]]; [lia|]. apply lookup_lt_Some in Hx. lia. }
  destruct (same_terms_take L c) as [Htake Hcl]; try done.
  pose (full := take prev L ++ es). fold full in Hp.
  assert (length full = prev + length es)%nat as Hfl by (unfold full; rewrite length_app, length_take; lia).
  pose proof (prefix_length _ _ Hp) as HfL.
  assert (l' = a_log a ∨ l' = full) as Hcases.
  { destruct Hl' as [[_ ->]|(_ & _ & ->)]; [by left|right]. unfold full. by rewrite Htake, <- app_assoc, take_drop. }
  assert (full `prefix_of` l') as Hfull.
  { destruct Hl' as [[-> ->]|(_ & _ & ->)].
    - rewrite (take_ge es) in Htake by done. unfold full. rewrite <- Htake. apply take_prefix_of.
    - unfold full. by rewrite Htake, <- app_assoc, take_drop. }
  pose proof (prefix_length _ _ Hfull) as Hfl'.
  assert (a_commit a ≤ length l' ∧ take (a_commit a) (a_log a) `prefix_of` l')%nat as [Hcm1 Hcm2].
  { pose proof (ni_commit_le _ _ _ _ N). destruct Hl' as [[_ ->]|(_ & ? & ->)].
    - split; [done|]. apply take_prefix_of.
    - split; [rewrite length_app, length_take; lia|]. trans (take (prev + c) (a_log a)); [by apply take_prefix_mono|]. by apply prefix_app_r. }
  assert (∀ t k, n_acked a t k → keep g (a_log a) t k (a_term a)) as Hkold by (apply (ni_keep _ _ _ _ N)).
  node_move; try (rewrite Hr; done).
  - intros t k [[= -> ->]|Hin]%elem_of_cons; [lia|by eapply ni_ack_le].
  - intros n x. destruct Hcases as [->| ->]; [by apply ni_log_terms|]. intros Hx'. eapply Hterms.
    by eapply prefix_lookup_Some.
  - destruct Hc' as [->|?]; lia.
  - intros m [->|Hm]%elem_of_cons; [cbn; by apply elem_of_cons; left|by apply Hsent].
  - destruct Hcases as [->| ->]; [done|]. apply (good_mono _ _ Hx). by apply (good_prefix _ _ L).
  - intros t k Hk.
    assert ((t = a_term a ∧ (k ≤ length full)%nat) ∨ n_acked a t k) as [[-> Hkf]|Hold].
    { destruct Hk as [(k' & Hk' & Hin)|?]; [|by right; right]. cbn in Hin, Hfl.
      apply elem_of_cons in Hin as [[= -> ->]|?]; [left; split; [done|lia]|right; left; by exists k']. }
    + eapply (keep_mono _ _ Hx); [reflexivity|]. exists j, L. split_and!; [done|lia|]. left.
      etrans; [|exact Hfull]. rewrite <- (prefix_take _ _ _ Hp) by done. apply take_prefix_of.
    + destruct Hl' as [[_ ->]|((y & Hy & Hno) & _ & El)]; [by apply ni_keep|].
      pose proof (n_acked_term _ _ _ _ _ _ N Hold) as Ht.
      apply lookup_lt_Some in Hy as Hylt.
      assert (L !! (prev + c)%nat = Some y) as HLy.
      { eapply prefix_lookup_Some; [|exact Hp]. unfold full. rewrite lookup_app_r by (rewrite length_take; lia).
        rewrite length_take. by replace (prev + c - prev `min` length L)%nat with c by lia. }
      eapply (follow_keep L I (prev + c)); try done; [|lia| |by apply Hkold].
      * intros x z Hx' Hz. assert (z = y) as -> by congruence. by apply Hno.
      * rewrite El. by apply prefix_app_r.
  - destruct Hc' as [->|Hle].
    + eapply committed_prefix_log; [exact ni_commit_le|done|done].
    + eapply (committed_prefix_mono V _ _ Hx); [reflexivity|].
      eapply committed_prefix_log; [| |by eapply committed_prefix_le]; [lia|].
      etrans; [|exact Hfull]. rewrite <- (prefix_take _ _ _ Hp) by lia. apply take_prefix_of.
Qed.
End follower.
End step.

(** ** Reachable clusters *)
Section reachable.
Context {P : Type} (V : gset positive).
Implicit Types (g : gmap positive (anode P)).

Lemma gstep_inv g g' : g_inv V g → gstep V g g' → g_inv V g'.
Proof.
  intros Hg Hst. revert Hg. destruct Hst as [g0 i a a' Hi Hs]. intros Hg. assert (n_ext a a') as X by (eapply lstep_n_ext; [by apply Hg|done]).
  intros j b Hb. destruct (decide (j = i)) as [->|].
  - rewrite lookup_insert_eq in Hb. injection Hb as <-. destruct Hs.
    + by eapply new_term_inv.
    + by eapply step_down_inv.
    + by eapply candidate_inv.
    + by eapply send_requestvote_inv.
    + by eapply grant_inv.
    + by eapply get_vote_inv.
    + by eapply become_leader_inv.
    + by eapply append_inv.
    + by eapply send_append_inv.
    + by eapply accept_inv.
    + by eapply truncate_inv.
    + by eapply get_ack_inv.
    + by eapply commit_inv.
  - rewrite lookup_insert_ne in Hb by done. apply (node_inv_mono V g0); [eapply ext_insert; eassumption|done|by apply Hg].
Qed.

Lemma g_init_inv : g_inv V (P := P) (g_init V).
Proof.
  intros i a [_ <-]%lookup_gset_to_gmap_Some. split; cbn; try done; try lia.
  - by intros t k ?%elem_of_nil.
  - by intros m ?%elem_of_nil.
  - intros t k [(k' & _ & ?%elem_of_nil)|(L & [=] & _)]. done.
  - by left.
Qed.

Lemma g_reachable_inv g : g_reachable V g → g_inv V g.
Proof.
  intros Hr. unfold g_reachable in Hr. assert (∀ g0, rtc (gstep V) g0 g → g_inv V g0 → g_inv V g) as H.
  { clear Hr. intros g0. induction 1 as [|? ? ? Hs _ IH]; [done|]. intros Hg. apply IH. by eapply gstep_inv. }
  eapply H; [exact Hr|apply g_init_inv].
Qed.

(** Along the moves of a cluster histories only grow. *)
Lemma n_ext_trans (a b c : anode P) : n_ext a b → n_ext b c → n_ext a c.
Proof.
  intros [T1 C1 D1 L1 A1 P1] [T2 C2 D2 L2 A2 P2]. split; auto; [lia| |].
  - intros t L (L' & HL' & ?)%L1. destruct (L2 _ _ HL') as (L'' & ? & ?). exists L''. split; [done|]. by etrans.
  - intros t k Ht Hk. apply P1; [done|]. apply P2; [lia|done].
Qed.
Lemma gsteps_ext g g' : g_inv V g → rtc (gstep V) g g' → ext g g'.
Proof.
  intros Hg Hr. revert Hg. induction Hr as [g|g g1 g2 Hs Hr IH]; intros Hg.
  - intros j a Ha. exists a. split; [done|]. apply n_ext_refl.
  - intros j a Ha. pose proof (gstep_inv _ _ Hg Hs) as Hg1. destruct Hs as [g i b b' Hi Hl].
    destruct (ext_insert g i b b' Hi (lstep_n_ext V g i _ _ _ (Hg _ _ Hi) Hl) _ _ Ha) as (a1 & Ha1 & X1).
    destruct (IH Hg1 _ _ Ha1) as (a2 & Ha2 & X2). exists a2. split; [done|]. by eapply n_ext_trans.
Qed.

(** In every reachable cluster the committed prefixes of any two servers agree. *)
Lemma protocol_safe g i j a b k :
  g_reachable V g → g !! i = Some a → g !! j = Some b →
  (k ≤ a_commit a)%nat → (k ≤ a_commit b)%nat → take k (a_log a) = take k (a_log b).
Proof.
  intros Hr Ha Hb Hka Hkb. pose proof (g_reachable_inv _ Hr) as Hg.
  eapply (committed_agree _ _ Hg); [| |reflexivity].
  - eapply committed_prefix_le; [exact Hka|]. apply (ni_commit _ _ _ _ (Hg _ _ Ha)).
  - eapply committed_prefix_le; [exact Hkb|]. apply (ni_commit _ _ _ _ (Hg _ _ Hb)).
Qed.
End reachable.
