(* ===== verification/RaftApp.v ===== *)
(** * What the Raft library asks of its application

    The class [RaftApp]: callbacks that hand the messages they are given to a
    transport, keep the payloads of the log's entries, never refuse, and apply
    entries to a state machine.  The proofs about a cluster of servers are against
    this class; the replication application is an instance.

    With such callbacks the operations of the log are the list operations,
    payloads included. *)

From S2P Require Import Prelude RaftTypes RaftNode RaftLog RaftLogSpec RaftMembership RaftServer RaftFrame RaftProtocol.

(** ** Entries and requests as the other servers see them

    An entry is its term, id, type and the contents of its payload. *)
Abbreviation app_entry_t C := (Z * (Z * Z * C))%type.

Inductive raft_request (C : Type) : Type :=
| RequestVote (m : msg_requestvote_t)
| AppendEntries (term prev_idx prev_term leader_commit : Z) (es : list (app_entry_t C)).
Arguments RequestVote {C}.
Arguments AppendEntries {C}.

(** ** The interface *)

(** What every callback leaves alone: the contents of payloads, what is in use, the
    state machine.  [ok] is lost when a callback fails. *)
Record harmless {U C} (ok : U → bool) (content : U → raft_entry_data_t → C) (u u' : U) : Prop := {
  h_ok : ok u' = true → ok u = true;
  h_content d : content u' d = content u d
}.

(** [K] is what the application knows about the server it belongs to and about its
    peers, and does not change while the library runs. *)
Class RaftApp (U C K : Type) := {
  app_cbs : raft_cbs_t U;
  (** no callback has failed an assertion *)
  app_ok : U → bool;
  (** what a payload pointer addresses *)
  app_content : U → raft_entry_data_t → C;
  (** these payloads are in use, each for one entry *)
  app_owns : U → list raft_entry_data_t → Prop;
  (** the state machine is the result of these entries *)
  app_machine : U → list (app_entry_t C) → Prop;
  (** the requests handed to the transport *)
  app_sent : U → list (raft_request C);
  (** the application's own invariant; the user data of a peer *)
  app_inv : K → U → Prop;
  app_uds : K → raft_node_t → Z;
  app_entry (u : U) (e : raft_entry_t) : app_entry_t C :=
    (ety_term e, (ety_id e, ety_type e, app_content u (ety_data e)));
  app_harmless : relation U := harmless app_ok app_content;
  (** what most callbacks do: nothing that the library sees *)
  app_calm (u u' : U) : Prop :=
    app_harmless u u' ∧ (∀ ds, app_owns u ds → app_owns u' ds) ∧ (∀ es, app_machine u es → app_machine u' es) ∧
    (∀ x, x ∈ app_sent u' → x ∈ app_sent u) ∧ (∀ k, app_ok u' = true → app_inv k u → app_inv k u');
  app_owns_sub u ds ds' : ds ⊆+ ds' → app_owns u ds' → app_owns u ds;
  app_send_requestvote : ∃ f, cb_send_requestvote app_cbs = Some f ∧ ∀ v u p m,
    let u' := (f v u p m).2 in
    app_harmless u u' ∧ (∀ ds, app_owns u ds → app_owns u' ds) ∧ (∀ es, app_machine u es → app_machine u' es) ∧
    (∀ x, x ∈ app_sent u' → x = RequestVote m ∨ x ∈ app_sent u) ∧
    (∀ k, app_ok u' = true → (∀ n, v_heap v !! p = Some n → nd_udata n = app_uds k p) → app_inv k u → app_inv k u');
  app_send_appendentries : ∃ f, cb_send_appendentries app_cbs = Some f ∧ ∀ v u p ae,
    ae_n_entries ae = Z.of_nat (length (ae_entries ae)) →
    let u' := (f v u p ae).2 in
    app_harmless u u' ∧ (∀ ds, app_owns u ds → app_owns u' ds) ∧ (∀ es, app_machine u es → app_machine u' es) ∧
    (∀ x, x ∈ app_sent u' →
       x = AppendEntries (ae_term ae) (ae_prev_log_idx ae) (ae_prev_log_term ae) (ae_leader_commit ae)
             (app_entry u <$> ae_entries ae) ∨ x ∈ app_sent u) ∧
    (∀ k, app_ok u' = true → app_owns u (ety_data <$> ae_entries ae) →
       (∀ n, v_heap v !! p = Some n → nd_udata n = app_uds k p) → app_inv k u → app_inv k u');
  app_persist_vote : ∃ f, cb_persist_vote app_cbs = Some f ∧ ∀ v u id,
    (f v u id).1 = 0 ∧ app_calm u (f v u id).2;
  (** terms are stored in 32 bits *)
  app_persist_term : ∃ f, cb_persist_term app_cbs = Some f ∧ ∀ v u t id,
    (f v u t id).1 = 0 ∧ app_calm u (f v u t id).2 ∧ (app_ok (f v u t id).2 = true → t < INT_MAX);
  app_applylog : ∃ f, cb_applylog app_cbs = Some f ∧ ∀ v u e i,
    let u' := (f v u e i).2 in (f v u e i).1 = 0 ∧
    app_harmless u u' ∧ (∀ ds, app_owns u ds → app_owns u' ds) ∧ (∀ x, x ∈ app_sent u' → x ∈ app_sent u) ∧
    (app_ok u' = true → ∀ es, app_machine u es → app_machine u' (es ++ [app_entry u e])) ∧
    (∀ k, app_ok u' = true → app_inv k u → app_inv k u');
  app_log_offer : ∃ f, cb_log_offer app_cbs = Some f ∧ ∀ v u e i,
    ∃ u', f v u e i = (0, ety_data e, u') ∧ app_calm u u';
  (** an entry that leaves the log gives its payload back *)
  app_log_pop : ∃ f, cb_log_pop app_cbs = Some f ∧ ∀ v u e i,
    ∃ u', f v u e i = (0, ety_data e, u') ∧ app_harmless u u' ∧
      (∀ ds ds', app_owns u (ds ++ ety_data e :: ds') → app_owns u' (ds ++ ds')) ∧
      (∀ es, app_machine u es → app_machine u' es) ∧ (∀ x, x ∈ app_sent u' → x ∈ app_sent u) ∧
      (∀ k, app_ok u' = true → app_inv k u → app_inv k u');
  app_sufficient f v u p : cb_node_has_sufficient_logs app_cbs = Some f → app_calm u (f v u p).2
}.

#[global] Instance app_calm_preorder `{RaftApp U C K} : PreOrder app_calm.
Proof.
  split; [intros u; split; [by split|done]|]. intros u1 u2 u3 ([O1 C1] & Ho1 & Hm1 & Hs1 & Hi1) ([O2 C2] & Ho2 & Hm2 & Hs2 & Hi2).
  split_and!; auto. split; auto. intros d. by rewrite C2, C1.
Qed.

(** ** The log under such callbacks *)
Section log.
Context `{App : RaftApp U C K}.
Implicit Types (s : raft U) (l : log_private_t) (h : host U) (e : raft_entry_t).

(** A log without a snapshot, on its owner's callbacks. *)
Record plain_log l : Prop := {
  pl_wf : log_wf l;
  pl_base : lg_base l = 0;
  pl_front : lg_front l = 0;
  pl_cb : lg_cb l = true
}.

Lemma plain_count l : plain_log l → lg_count l = Z.of_nat (length (log_list l)).
Proof. intros [? _ _ _]. by apply log_count_list. Qed.
Lemma plain_write k e l : plain_log l → plain_log (write_slot k e l).
Proof. intros []. split; try done. by apply wf_write_slot. Qed.
Lemma plain_slot l k : plain_log l → (k < Z.to_nat (lg_size l))%nat → slot l k = k.
Proof.
  intros [Hwf _ Hf _] Hk. unfold slot. rewrite Hf. pose proof (wf_size _ Hwf). rewrite Z.mod_small by lia. lia.
Qed.

Lemma plain_get_at l (idx : Z) :
  plain_log l → log_get_at_idx l idx = Ok (if 0 <? idx then log_list l !! Z.to_nat (idx - 1) else None).
Proof.
  intros Hl. rewrite log_get_at_idx_spec by apply Hl. rewrite (pl_base _ Hl).
  destruct (Z.ltb_spec 0 idx); [|done]. do 2 f_equal. lia.
Qed.
(** From an index to the end of the log. *)
Lemma plain_get_from l (idx : Z) :
  plain_log l → 1 ≤ idx →
  ∃ o, log_get_from_idx l idx = Ok (o, Z.of_nat (length (default [] o))) ∧
    default [] o = drop (Z.to_nat (idx - 1)) (log_list l).
Proof.
  intros Hl Hidx. pose proof (pl_wf _ Hl) as Hwf. pose proof (log_get_from_idx_spec l idx Hwf ltac:(lia)) as H.
  rewrite (pl_base _ Hl) in H. destruct (_ && _) eqn:E; bool_prop.
  - destruct H as (n & Hn & Hrun & Hlen). set (k := Z.to_nat (idx - 1)).
    replace (Z.to_nat (idx - 0 - 1)) with k in * by lia.
    rewrite length_log_list in Hlen. pose proof (wf_count _ Hwf) as Hc.
    assert (Z.of_nat n = lg_count l - Z.of_nat k) as Hfull; [|clear Hlen].
    { revert Hrun. unfold log_get_from_idx. rewrite (proj2 (Z.leb_le 0 (idx - 1))) by lia. cbn [negb].
      rewrite (pl_base _ Hl), (pl_front _ Hl).
      destruct (Z.ltb_spec (0 + lg_count l) idx), (Z.leb_spec idx 0); try lia. cbn [orb].
      pose proof (wf_size _ Hwf) as Hs.
      rewrite Z.rem_small by lia. intros [= _ Hn']. revert Hn'.
      pose proof (wf_back _ Hwf) as Hb. rewrite (pl_front _ Hl) in Hb.
      destruct (decide (lg_count l = lg_size l)) as [Ef|Ef].
      - rewrite Ef, Z.add_0_l, Z_mod_same_full in Hb. rewrite Hb.
        destruct (Z.ltb_spec (0 + (idx - 1) - 0) 0); [lia|].
        rewrite to_int_small by (unfold INT_MIN, INT_MAX in *; lia). lia.
      - rewrite Z.mod_small in Hb by lia. rewrite Hb.
        destruct (Z.ltb_spec (0 + (idx - 1) - 0) (0 + lg_count l)); [|lia].
        rewrite to_int_small by (unfold INT_MIN, INT_MAX in *; lia). lia. }
    assert (take n (drop k (log_list l)) = drop k (log_list l)) as Ht.
    { apply take_ge. rewrite length_drop, length_log_list. lia. }
    rewrite Ht in Hrun. exists (Some (drop k (log_list l))). cbn. split; [|done].
    rewrite Hrun. do 2 f_equal. rewrite length_drop, length_log_list. lia.
  - exists None. cbn. split; [done|]. rewrite drop_ge; [done|]. rewrite length_log_list.
    apply andb_false_iff in E as [|]; bool_prop; lia.
Qed.

(** What an operation on the log may do to the rest of the server. *)
Record log_effect s s' : Prop := {
  le_me : me s'.2 = me s.2;
  le_heap : heap s'.2 = heap s.2;
  le_cb : cb s'.2 = cb s.2;
  le_ok : app_ok (udata s'.2) = true → app_ok (udata s.2) = true;
  le_content d : app_content (udata s'.2) d = app_content (udata s.2) d;
  le_machine es : app_machine (udata s.2) es → app_machine (udata s'.2) es;
  le_sent x : x ∈ app_sent (udata s'.2) → x ∈ app_sent (udata s.2);
  le_inv k : app_ok (udata s'.2) = true → app_inv k (udata s.2) → app_inv k (udata s'.2)
}.
#[global] Instance log_effect_preorder : PreOrder log_effect.
Proof.
  split; [by split|]. intros s1 s2 s3 [E1 E2 E3 ? Hc ? ? ?] [F1 F2 F3 ? Hd ? ? ?].
  split; try congruence; auto; intros d; by rewrite Hd, Hc.
Qed.
Lemma log_effect_calm l l' h u :
  app_calm (udata h) u → log_effect (l, h) (l', set_udata u h).
Proof. intros ([] & ? & ? & ? & ?). by split. Qed.

Definition normal_entry e : Prop := ety_type e = RAFT_LOGTYPE_NORMAL.
Lemma normal_not_cfg e : normal_entry e → raft_entry_is_cfg_change e = false ∧ raft_entry_is_voting_cfg_change e = false.
Proof. unfold raft_entry_is_cfg_change, raft_entry_is_voting_cfg_change. by intros ->. Qed.

Lemma ensurecapacity_effect s :
  plain_log s.1 →
  wlp __ensurecapacity (λ (r : Z) s', log_effect s s' ∧ (∀ ds, app_owns (udata s.2) ds → app_owns (udata s'.2) ds) ∧
    plain_log s'.1 ∧ log_list s'.1 = log_list s.1 ∧ lg_count s'.1 = lg_count s.1 ∧
    (r = 0 → lg_count s'.1 < lg_size s'.1)) s.
Proof.
  destruct s as [l h]. intros Hl. pose proof (ensurecapacity_spec (λ _, True) l h (pl_wf _ Hl)) as Hspec.
  eapply wq_mono with (P := λ (r : Z) s', _ ∧ _); [apply (wq_and _ (λ _, True)); [exact Hspec|]|].
  - instantiate (1 := λ (r : Z) s', (me s'.2 = me h ∧ heap s'.2 = heap h ∧ cb s'.2 = cb h ∧ udata s'.2 = udata h) ∧
      (lg_front s'.1 = 0)). cbn beta.
    unfold __ensurecapacity, get_log, modify_log. do 2 wstep. cbn [fst].
    wsplit; [wstep; split; [done|apply Hl]|]. wstep. unfold calloc, wq at 1. cbn [lh_calloc server_log_host host_calloc snd fst].
    destruct (alloc_src h _ _); cbn [negb]; [|wstep; split; [done|apply Hl]]. by repeat wstep.
  - intros r [l' h'] [(Hwf & Hlist & Hb & Hcb & Hc & He) [(Hm & Hh & Hcbs & Hu) Hf]]. cbn in *.
    split; [split; cbn; rewrite ?Hu; done|]. rewrite Hu. split; [done|].
    split; [split; try done; [by rewrite Hb; apply Hl|by rewrite Hcb; apply Hl]|].
    split_and!; try done. intros ->. destruct He as [[_ ?]|[? _]]; [done|]. done.
Qed.

Lemma app_append e s :
  plain_log s.1 → cb s.2 = app_cbs → normal_entry e →
  wlp (raft_append_entry e) (λ r s', log_effect s s' ∧
    (∀ ds, app_owns (udata s.2) ds → app_owns (udata s'.2) ds) ∧
    plain_log s'.1 ∧ log_list s'.1 = log_list s.1 ++ (if r =? 0 then [e] else [])) s.
Proof.
  intros Hl Hcb Hn. destruct (normal_not_cfg e Hn) as [Hncfg Hnv]. unfold raft_append_entry. rewrite Hnv.
  do 2 rstep. unfold log_append_entry, get_log, modify_log. do 2 wstep. cbn [fst]. wstep.
  eapply wq_mono; [by apply ensurecapacity_effect|].
  intros r [l1 h1] (Heff & Hown & Hl1 & Hlist & Hcnt & Hroom). cbn [fst snd] in *.
  wsplit; bool_prop.
  { wstep. rewrite (proj2 (Z.eqb_neq _ _)) by done. by rewrite app_nil_r. }
  subst r. specialize (Hroom eq_refl). pose proof (pl_wf _ Hl1) as Hwf1. do 3 wstep. cbn [fst].
  pose proof (back_slot l1 Hwf1) as Hback. set (k := Z.to_nat (lg_count l1)) in Hback.
  rewrite arr_set_in_range;
    [|pose proof (back_range _ Hwf1); pose proof (wf_entries _ Hwf1); lia].
  wstep. simplify_eq. do 5 wstep. cbn [fst snd].
  replace (set_lg_entries _ l1) with (write_slot (slot l1 k) e l1)
    by (unfold write_slot; by rewrite Hback, Nat2Z.id).
  destruct app_log_offer as (f & Hf & Hoffer).
  assert (lh_log_offer h1 = Some (as_edit f)) as ->.
  { cbn. assert (cb h1 = app_cbs) as -> by (rewrite <- Hcb; apply (le_cb _ _ Heff)). by rewrite Hf. }
  rewrite (pl_cb _ Hl1). wstep. rewrite Hback. set (l2 := write_slot (slot l1 k) e l1).
  change (slot l1 k) with (slot l2 k).
  assert (log_wf l2) as Hwf2 by (by apply wf_write_slot).
  assert (lg_entries l2 !! slot l2 k = Some e) as Hslot by (apply list_lookup_insert_eq; by apply slot_lt).
  eapply wq_call_edit; [done|exact Hslot|].
  intros r d h' He. unfold as_edit in He.
  destruct (Hoffer (view (l2, h1)) (udata h1) e (lg_base s.1 + lg_count s.1 + 1)) as (u' & Hfe & Hcalm).
  rewrite Hfe in He. injection He as <- <- <-. cbn [Z.eqb negb]. wstep.
  assert (write_slot (slot l2 k) (set_ety_data (ety_data e) e) l2 = l2) as ->.
  { unfold l2 at 2. rewrite write_slot_twice. unfold l2. f_equal. by destruct e. }
  eapply wq_call_host; [done|exact Hslot|done|].
  intros h'' Hh''. cbn in Hh''. unfold as_hook, raft_offer_log in Hh''. rewrite Hncfg in Hh''. injection Hh'' as <-.
  wstep. cbn [Z.eqb negb]. do 3 wstep. cbn [fst snd].
  change (set_lg_back _ _) with (push l2).
  split; [trans (l1, h1); [done|]; by apply log_effect_calm|]. split; [intros ds Hds; apply Hcalm; auto|].
  pose proof (plain_write (slot l1 k) e l1 Hl1) as Hp.
  split; [split; try apply Hp; by apply wf_push|].
  rewrite (log_list_push e); [|done..]. unfold l2, k. rewrite log_list_write_back by done. by rewrite Hlist.
Qed.
Lemma app_delete_loop fuel (idx : Z) s :
  plain_log s.1 → cb s.2 = app_cbs → Forall normal_entry (log_list s.1) → 1 ≤ idx →
  wlp (log_delete_loop fuel idx) (λ r s', r = 0 ∧ log_effect s s' ∧ plain_log s'.1 ∧
    log_list s'.1 = take (Z.to_nat (idx - 1)) (log_list s.1) ∧
    ∀ ds, app_owns (udata s.2) ((ety_data <$> log_list s.1) ++ ds) →
      app_owns (udata s'.2) ((ety_data <$> log_list s'.1) ++ ds)) s.
Proof.
  destruct app_log_pop as (f & Hf & Hpop).
  revert s. induction fuel as [|fuel IH]; intros [l h] Hl Hcb Hn Hidx; pose proof (pl_wf _ Hl) as Hwf;
    pose proof (plain_count _ Hl) as Hcnt; cbn [fst snd] in *;
    cbn [log_delete_loop]; unfold get_log, modify_log; do 2 wstep; cbn [fst]; rewrite (pl_base _ Hl);
    (wsplit; [|wstep; split_and!; try done; rewrite take_ge; [done|];
       match goal with H : _ && _ = false |- _ => apply andb_false_iff in H as [|]; bool_prop; lia end]).
  { by wstep. }
  bool_prop. do 3 wstep. cbn [fst snd].
  destruct (pop_back_slot l Hwf ltac:(lia)) as [Hslot _]. set (k := Z.to_nat (lg_count l - 1)) in Hslot.
  destruct (slot_entry l k Hwf) as [e He].
  assert (log_list l !! k = Some e) as Hk by (rewrite lookup_log_list by (done || lia); done).
  assert (log_list l = take k (log_list l) ++ [e]) as Hsnoc.
  { rewrite <- (take_S_r _ _ _ Hk). rewrite take_ge by lia. done. }
  assert (normal_entry e) as Hne by (by eapply Forall_lookup_1).
  rewrite Hslot, (pl_cb _ Hl). assert (lh_log_pop h = Some (as_edit f)) as -> by (cbn; by rewrite Hcb, Hf).
  eapply wq_call_edit; [done|exact He|]. intros r d h' Hr. unfold as_edit in Hr.
  destruct (Hpop (view (l, h)) (udata h) e (0 + lg_count l)) as (u' & Hfe & [Hok Hcon] & Hown & Hmach & Hsent & Hinv).
  rewrite Hfe in Hr. injection Hr as <- <- <-. cbn [Z.eqb negb]. wstep.
  assert (write_slot (slot l k) (set_ety_data (ety_data e) e) l = l) as ->.
  { unfold write_slot. rewrite list_insert_id; [by destruct l|]. rewrite He. by destruct e. }
  eapply wq_call_host; [done|exact He|done|].
  intros h'' Hh''. cbn in Hh''. unfold as_hook, raft_pop_log in Hh''.
  rewrite (proj1 (normal_not_cfg e Hne)) in Hh''. injection Hh'' as <-. do 2 wstep. cbn [fst snd].
  change (set_lg_count _ _) with (pop (Z.of_nat (slot l k)) l).
  assert (log_list (pop (Z.of_nat (slot l k)) l) = take k (log_list l)) as Hlist by (rewrite log_list_pop by lia; done).
  assert (plain_log (pop (Z.of_nat (slot l k)) l)) as Hl'.
  { split; try apply Hl. rewrite <- Hslot. apply wf_pop; [done|lia]. }
  eapply wq_mono; [apply IH; try done; cbn [fst]; rewrite Hlist; by apply Forall_take|].
  intros r s' (Hr & Heff & Hpl & Hlist' & Hown'). cbn [fst snd] in *. rewrite Hlist in *.
  split_and!; try done.
  - etrans; [|exact Heff]. by split.
  - rewrite Hlist', take_take. f_equal. lia.
  - intros ds Hds. apply Hown'. cbn. apply Hown. rewrite Hsnoc, fmap_app in Hds.
    rewrite <- app_assoc in Hds. exact Hds.
Qed.

Lemma app_delete (idx : Z) s :
  plain_log s.1 → cb s.2 = app_cbs → Forall normal_entry (log_list s.1) → 1 ≤ idx →
  wlp (log_delete idx) (λ r s', r = 0 ∧ log_effect s s' ∧ plain_log s'.1 ∧
    log_list s'.1 = take (Z.to_nat (idx - 1)) (log_list s.1) ∧
    ∀ ds, app_owns (udata s.2) ((ety_data <$> log_list s.1) ++ ds) →
      app_owns (udata s'.2) ((ety_data <$> log_list s'.1) ++ ds)) s.
Proof.
  intros Hl ? ? Hidx. unfold log_delete, get_log. do 2 wstep.
  rewrite (proj2 (Z.eqb_neq _ _)) by lia. rewrite (pl_base _ Hl).
  rewrite (proj2 (Z.ltb_ge _ _)) by lia. by apply app_delete_loop.
Qed.
End log.
