(* ===== verification/RaftRefine.v ===== *)
(** * The Raft code implements the protocol: the simulation

    [sim] relates one server of the code, with callbacks that satisfy [RaftApp],
    to a server of the abstract protocol.  Every operation an application performs
    on a server of a fixed cluster is a sequence of moves of the protocol
    ([refines]); this file has the relation and the primitives. *)

From stdpp Require Import fin_sets.
From S2P Require Import Prelude RaftTypes RaftNode RaftLog RaftLogSpec RaftMembership RaftServer RaftFrame RaftElection RaftQuorum RaftProtocol RaftApp.

(** ** A cluster, seen from one server

    The members of the cluster are [V], each known by its pointer in the peer
    table; [ids] are their Raft ids, [i] is the server itself. *)
Class Cluster (V : gset positive) (ids : positive → Z) : Prop := {
  ids_inj p q : p ∈ V → q ∈ V → ids p = ids q → p = q;
  ids_valid p : p ∈ V → ids p ≠ -1;
  cluster_size : (2 ≤ size V)%nat
}.

Section sim.
Context {U C K : Type} `{App : RaftApp U C K} (V : gset positive) (ids : positive → Z) `{!Cluster V ids} (i : positive) (cfg : K).
Implicit Types (s : raft U) (l : log_private_t) (m : raft_server_private_t) (u : U) (a : anode (Z * Z * C))
  (n : raft_node_private_t) (e : raft_entry_t) (late : list raft_node_t) (xs : list raft_entry_data_t).

Definition vote_id (v : option positive) : raft_node_id_t := match v with Some c => ids c | None => -1 end.

(** The table of peers. *)
Definition table m : list raft_node_t := take (Z.to_nat (num_nodes m)) (nodes m).

Record me_sim m a : Prop := {
  ms_term : current_term m = a_term a;
  ms_term_pos : 0 ≤ a_term a;
  ms_vote : voted_for m = vote_id (a_vote a);
  ms_vote_in c : a_vote a = Some c → c ∈ V;
  ms_role : state m = a_role a;
  ms_role_some : a_role a ≠ RAFT_STATE_NONE;
  ms_commit : commit_idx m = Z.of_nat (a_commit a);
  ms_commit_len : (a_commit a ≤ length (a_log a))%nat;
  ms_applied : 0 ≤ last_applied_idx m ≤ commit_idx m;
  ms_nodup : NoDup (table m);
  ms_table p : p ∈ table m ↔ p ∈ V;
  ms_node : node m = Some i;
  ms_snapshot : snapshot_last_idx m = 0 ∧ snapshot_in_progress m = 0
}.

(** A peer: always an active voter; a candidate has marked only peers whose vote
    has arrived; what a leader knows of a peer it has reset is true. *)
Record peer_sim late a p n : Prop := {
  ps_id : nd_id n = ids p;
  ps_udata : nd_udata n = app_uds cfg p;
  ps_voter : is_voter n = true;
  ps_vote : a_role a = RAFT_STATE_CANDIDATE → p ≠ i → raft_node_has_vote_for_me n = true → p ∈ a_votes a;
  ps_index : a_role a = RAFT_STATE_LEADER → p ≠ i → p ∉ late →
    0 ≤ nd_match_idx n ≤ Z.of_nat (a_match a p) ∧ 1 ≤ nd_next_idx n ≤ Z.of_nat (length (a_log a)) + 1
}.

Definition heap_sim late (hp : gmap positive raft_node_private_t) a : Prop :=
  (∀ p n, hp !! p = Some n → p ∈ V ∧ peer_sim late a p n) ∧ (∀ p, p ∈ V → is_Some (hp !! p)).

Definition entry_ok (t : Z) e : Prop := normal_entry e ∧ 0 ≤ ety_term e ≤ t.

Record log_sim l u a : Prop := {
  ls_plain : plain_log l;
  ls_log : a_log a = app_entry u <$> log_list l;
  ls_entries : Forall (entry_ok (a_term a)) (log_list l)
}.

(** A request the server has handed to its transport was sent in the protocol. *)
Definition abs_entry_ok (t : Z) (x : Z * (Z * Z * C)) : Prop := x.2.1.2 = RAFT_LOGTYPE_NORMAL ∧ 0 ≤ x.1 ≤ t.
Definition request_in (from : amsg (Z * Z * C) → Prop) (r : raft_request C) : Prop :=
  match r with
  | RequestVote rv => rv_candidate_id rv = ids i ∧ 0 ≤ rv_last_log_idx rv ∧
      from (MRequestVote (rv_term rv) (Z.to_nat (rv_last_log_idx rv)) (rv_last_log_term rv))
  | AppendEntries t prev pterm lc es => 0 ≤ prev ∧ 0 ≤ lc ∧ Forall (abs_entry_ok t) es ∧
      from (MAppend t (Z.to_nat prev) pterm es (Z.to_nat lc))
  end.

Record user_sim xs u m l a : Prop := {
  us_sent x : x ∈ app_sent u → request_in (λ x, x ∈ a_sent a) x;
  us_term : app_ok u = true → a_term a < INT_MAX;
  us_machine : app_ok u = true → app_machine u (take (Z.to_nat (last_applied_idx m)) (a_log a));
  us_owns : app_ok u = true → app_owns u ((ety_data <$> log_list l) ++ xs);
  us_inv : app_ok u = true → app_inv cfg u
}.

(** [xs] are payloads that are in use but not yet in the log, [late] the peers a new
    leader has not reset yet. *)
Record sim xs late s a : Prop := {
  sim_cb : cb s.2 = app_cbs;
  sim_me : me_sim (me s.2) a;
  sim_heap : heap_sim late (heap s.2) a;
  sim_log : log_sim s.1 (udata s.2) a;
  sim_user : user_sim xs (udata s.2) (me s.2) s.1 a
}.

(** What [sim] reads of the struct. *)
Definition sim_key m :=
  (current_term m, voted_for m, commit_idx m, last_applied_idx m, state m, table m, node m,
   snapshot_last_idx m, snapshot_in_progress m).

Lemma me_sim_key m m' a : sim_key m = sim_key m' → me_sim m a → me_sim m' a.
Proof.
  intros [= E1 E2 E3 E4 E5 E6 E7 E8 E9] []. split; rewrite <- ?E1, <- ?E2, <- ?E3, <- ?E4, <- ?E5, <- ?E6, <- ?E7, <- ?E8, <- ?E9; done.
Qed.
Lemma user_sim_key xs u m m' l a :
  last_applied_idx m = last_applied_idx m' → user_sim xs u m l a → user_sim xs u m' l a.
Proof. intros E []. split; rewrite <- ?E; done. Qed.

Lemma sim_set_me xs late s a m :
  sim_key (me s.2) = sim_key m → sim xs late s a → sim xs late (s.1, set_me m s.2) a.
Proof.
  intros Hk []. split; try done; [by eapply me_sim_key|].
  eapply user_sim_key; [|done]. by injection Hk.
Qed.

Lemma sim_same xs late s s' a :
  sim xs late s a → s'.1 = s.1 → sim_key (me s'.2) = sim_key (me s.2) → heap s'.2 = heap s.2 →
  cb s'.2 = cb s.2 → udata s'.2 = udata s.2 → sim xs late s' a.
Proof.
  intros [Hc Hm Hh Hl Hu] El Ek Eh Ec Eu. split; rewrite ?El, ?Eh, ?Ec, ?Eu; try done.
  - by eapply me_sim_key.
  - eapply user_sim_key; [|done]. by injection Ek.
Qed.

Lemma sim_set_heap xs late s a p n :
  p ∈ V → (heap_sim late (heap s.2) a → peer_sim late a p n) →
  sim xs late s a → sim xs late (s.1, set_heap (<[p := n]> (heap s.2)) s.2) a.
Proof.
  intros Hp Hn []. split; try done. destruct sim_heap0 as [Hd Hv]. split; cbn.
  - intros q n'. rewrite lookup_insert_Some. intros [[<- <-]|[_ ?]]; [|auto]. split; [done|]. by apply Hn.
  - intros q Hq. rewrite lookup_insert_is_Some. destruct (decide (p = q)); auto.
Qed.

(** The user's data changes as a callback changes it. *)
Lemma app_entry_content u u' : (∀ d, app_content u' d = app_content u d) → ∀ e, app_entry u' e = app_entry u e.
Proof. intros H e. unfold app_entry. by rewrite H. Qed.
Lemma app_entries_content u u' (es : list raft_entry_t) :
  (∀ d, app_content u' d = app_content u d) → app_entry u' <$> es = app_entry u <$> es.
Proof. intros H. apply list_fmap_ext. intros _ e _. by apply app_entry_content. Qed.

Lemma request_in_mono (from from' : amsg (Z * Z * C) → Prop) r :
  (∀ x, from x → from' x) → request_in from r → request_in from' r.
Proof. intros H. destruct r; cbn; naive_solver. Qed.

Lemma sim_set_udata xs late s a u ms :
  (∀ x, x ∈ a_sent a → x ∈ ms) →
  (app_ok u = true → app_ok (udata s.2) = true) → (∀ d, app_content u d = app_content (udata s.2) d) →
  (∀ ds, app_owns (udata s.2) ds → app_owns u ds) → (∀ es, app_machine (udata s.2) es → app_machine u es) →
  (∀ x, x ∈ app_sent u → request_in (λ x, x ∈ ms) x ∨ x ∈ app_sent (udata s.2)) →
  (app_ok u = true → app_inv cfg (udata s.2) → app_inv cfg u) →
  sim xs late s a → sim xs late (s.1, set_udata u s.2) (set_a_sent ms a).
Proof.
  intros Hms Hok Hcon Howns Hmach Hsent Hinv [Hc [] [Hd Hv] [] []]. split; cbn; try done.
  - split; [|done]. intros p n Hp. destruct (Hd p n Hp) as [? []]. by split; [|split].
  - split; cbn; [done| |done]. by rewrite (app_entries_content (udata s.2)).
  - split; cbn; auto. intros x [Hx|Hx]%Hsent; [done|].
    eapply request_in_mono; [|by apply us_sent0]. done.
Qed.
Lemma sent_eta a : set_a_sent (a_sent a) a = a.
Proof. by destruct a. Qed.
Lemma sim_calm xs late s a u : app_calm (udata s.2) u → sim xs late s a → sim xs late (s.1, set_udata u s.2) a.
Proof.
  intros ([] & ? & ? & ? & ?) Hs. rewrite <- (sent_eta a). apply sim_set_udata; auto.
Qed.

(** The histories of the protocol, further messages and further votes may be added. *)
Lemma sim_ext a xs late s a' :
  sim xs late s a → a_term a' = a_term a → a_vote a' = a_vote a → a_role a' = a_role a → a_log a' = a_log a →
  a_commit a' = a_commit a → a_votes a ⊆ a_votes a' → a_match a' = a_match a → (∀ x, x ∈ a_sent a → x ∈ a_sent a') →
  sim xs late s a'.
Proof.
  intros [Hc [] [Hd Hv] [] []] Et Ev Er El Ec Evs Em Hms. split; try done.
  - by split; rewrite ?Et, ?Ev, ?Er, ?El, ?Ec.
  - split; [|done]. intros p n Hp. destruct (Hd p n Hp) as [? []]. split; [done|].
    split; rewrite ?Er, ?Em, ?El; auto.
  - split; rewrite ?El, ?Et; done.
  - split; rewrite ?El, ?Et; auto. intros x Hx. eapply request_in_mono; [|by apply us_sent0]. done.
Qed.
Lemma sim_more_sent xs late s a ms : (∀ x, x ∈ a_sent a → x ∈ ms) → sim xs late s a → sim xs late s (set_a_sent ms a).
Proof. intros Hms Hs. by apply (sim_ext a). Qed.

(** The log changes from the committed part on. *)
Lemma sim_set_log xs xs' late s s' a k (es : list raft_entry_t) :
  sim xs late s a → log_effect s s' → plain_log s'.1 →
  log_list s'.1 = take k (log_list s.1) ++ es → Forall (entry_ok (a_term a)) es →
  (a_commit a ≤ k ≤ length (a_log a))%nat → (a_role a = RAFT_STATE_LEADER → k = length (a_log a)) →
  (app_owns (udata s.2) ((ety_data <$> log_list s.1) ++ xs) →
     app_owns (udata s'.2) ((ety_data <$> log_list s'.1) ++ xs')) →
  sim xs' late s' (set_a_log (app_entry (udata s.2) <$> log_list s'.1) a).
Proof.
  intros [Hc [] [Hd Hv] [] []] [Em Eh Ec Hok Hcon Hmach Hsent Hinv] Hpl Hlist Hes Hk Hrole Howns.
  assert (Hlen : length (log_list s'.1) = (k + length es)%nat).
  { rewrite Hlist, length_app, length_take. rewrite ls_log0, length_fmap in Hk. lia. }
  split; rewrite ?Em, ?Eh, ?Ec; try done.
  - split; cbn; try done. rewrite length_fmap. lia.
  - split; [|done]. intros p n Hp. destruct (Hd p n Hp) as [? []]. split; [done|]. split; cbn; try done.
    intros Hl Hpi Hlate. destruct (ps_index0 Hl Hpi Hlate). split; [done|]. rewrite length_fmap, Hlen.
    specialize (Hrole Hl). lia.
  - split; cbn; [done|by rewrite (app_entries_content (udata s.2) (udata s'.2))|].
    rewrite Hlist. apply Forall_app. split; [by apply Forall_take|done].
  - split; cbn; auto. intros Ho. apply Hmach.
    rewrite Hlist, fmap_app, take_app_le; [|rewrite length_fmap, length_take; rewrite ls_log0, length_fmap in Hk; lia].
    rewrite fmap_take, take_take, Nat.min_l by lia. rewrite <- ls_log0. auto.
Qed.

(** ** Refinement

    A computation refines the protocol when what it does is some moves of the
    server, under a condition on the server that the moves keep. *)
Context (net : positive → amsg (Z * Z * C) → Prop).
Abbreviation moves := (rtc (lstep V i net)).

Definition refines xs late (P : anode (Z * Z * C) → Prop) : relation (raft U) := λ s s',
  ∀ a, sim xs late s a → P a → ∃ a', sim xs late s' a' ∧ P a' ∧ moves a a'.

#[global] Instance refines_preorder xs late P : PreOrder (refines xs late P).
Proof.
  split.
  - intros s a ? ?. exists a. split_and!; try done.
  - intros s1 s2 s3 H12 H23 a Hs HP. destruct (H12 a Hs HP) as (a' & Hs' & HP' & ?).
    destruct (H23 a' Hs' HP') as (a'' & ? & ? & ?). exists a''. split_and!; try done. by etrans.
Qed.

Lemma refines_intro xs late P {A} (c : M (raft U) A) :
  (∀ s a, sim xs late s a → P a → wlp c (λ _ s', ∃ a', sim xs late s' a' ∧ P a' ∧ moves a a') s) →
  Preserves (refines xs late P) c.
Proof.
  intros H s. apply wlp_iff. intros x s' Hrun a Hs HP. exact (wq_run _ _ _ _ _ _ (H s a Hs HP) Hrun).
Qed.
Lemma refines_run xs late P {A} (c : M (raft U) A) `{!Preserves (refines xs late P) c} s a :
  sim xs late s a → P a → wlp c (λ _ s', ∃ a', sim xs late s' a' ∧ P a' ∧ moves a a') s.
Proof.
  intros Hs HP. apply wlp_iff. intros x s' Hrun. exact (preserves_run (refines xs late P) c s x s' Hrun a Hs HP).
Qed.
(** ... and what only the simulation needs. *)
Lemma refines_still xs late P {A} (c : M (raft U) A) :
  (∀ s a, sim xs late s a → P a → wlp c (λ _ s', sim xs late s' a) s) → Preserves (refines xs late P) c.
Proof.
  intros H. apply refines_intro. intros s a Hs HP. eapply wq_mono; [by apply H|].
  intros x s' Hs'. exists a. done.
Qed.

(** ** Primitives *)
Lemma refines_modify_me xs late P f : (∀ m, sim_key (f m) = sim_key m) → Preserves (refines xs late P) (modify_me f).
Proof. intros Hf. apply refines_still. intros s a Hs _. rstep. by apply sim_set_me. Qed.
#[global] Instance refines_randomize xs late P : Preserves (refines xs late P) raft_randomize_election_timeout.
Proof. apply refines_still. intros s a Hs _. rstep. by eapply sim_same. Qed.
Lemma sim_peer xs late s a p n : sim xs late s a → heap s.2 !! p = Some n → p ∈ V ∧ peer_sim late a p n.
Proof. intros [] Hp. by apply sim_heap0. Qed.
Lemma refines_on_node xs late P p f :
  (∀ a n, P a → peer_sim late a p n → peer_sim late a p (f n)) → Preserves (refines xs late P) (on_node (Some p) f).
Proof.
  intros Hf. apply refines_still. intros s a Hs HP. rstep.
  destruct (sim_peer _ _ _ _ _ _ Hs ltac:(done)) as [Hp Hn]. apply sim_set_heap; auto.
Qed.

(** Calling the user. *)
Lemma wq_call F f (Q : Z → raft U → Prop) s :
  Q (f (view s) (udata s.2)).1 (s.1, set_udata (f (view s) (udata s.2)).2 s.2) → wq F (call f) Q s.
Proof. unfold wq, call. by destruct (f _ _). Qed.
End sim.
#[global] Arguments sim_cb {U C K App V ids i cfg xs late s a} _.
#[global] Arguments sim_me {U C K App V ids i cfg xs late s a} _.
#[global] Arguments sim_heap {U C K App V ids i cfg xs late s a} _.
#[global] Arguments sim_log {U C K App V ids i cfg xs late s a} _.
#[global] Arguments sim_user {U C K App V ids i cfg xs late s a} _.
#[global] Arguments sim_peer {U C K App V ids i cfg xs late s a p n} _ _.
#[global] Arguments ms_term {C V ids i m a} _.
#[global] Arguments ms_term_pos {C V ids i m a} _.
#[global] Arguments ms_vote {C V ids i m a} _.
#[global] Arguments ms_vote_in {C V ids i m a} _ c _.
#[global] Arguments ms_role {C V ids i m a} _.
#[global] Arguments ms_role_some {C V ids i m a} _.
#[global] Arguments ms_commit {C V ids i m a} _.
#[global] Arguments ms_commit_len {C V ids i m a} _.
#[global] Arguments ms_applied {C V ids i m a} _.
#[global] Arguments ms_nodup {C V ids i m a} _.
#[global] Arguments ms_table {C V ids i m a} _ p.
#[global] Arguments ms_node {C V ids i m a} _.
#[global] Arguments ms_snapshot {C V ids i m a} _.
#[global] Arguments us_sent {U C K App ids i cfg xs u m l a} _ x _.
#[global] Arguments us_term {U C K App ids i cfg xs u m l a} _ _.
#[global] Arguments us_machine {U C K App ids i cfg xs u m l a} _ _.
#[global] Arguments us_owns {U C K App ids i cfg xs u m l a} _ _.
#[global] Arguments us_inv {U C K App ids i cfg xs u m l a} _ _.
#[global] Arguments ls_plain {U C K App l u a} _.
#[global] Arguments ls_log {U C K App l u a} _.
#[global] Arguments ls_entries {U C K App l u a} _.
#[global] Arguments ps_id {U C K App ids i cfg late a p n} _.
#[global] Arguments ps_udata {U C K App ids i cfg late a p n} _.
#[global] Arguments ps_voter {U C K App ids i cfg late a p n} _.
#[global] Arguments ps_vote {U C K App ids i cfg late a p n} _ _ _ _.
#[global] Arguments ps_index {U C K App ids i cfg late a p n} _ _ _ _.

(** The application changes its own data. *)
Lemma sim_udata {U C K} `{App : RaftApp U C K} V ids i cfg cfg' xs xs' (s : raft U) (a : anode (Z * Z * C)) u :
  sim V ids i cfg xs [] s a → (∀ p, app_uds cfg' p = app_uds cfg p) →
  (∀ e, e ∈ log_list s.1 → app_entry u e = app_entry (udata s.2) e) →
  user_sim ids i cfg' xs' u (me s.2) s.1 a → sim V ids i cfg' xs' [] (s.1, set_udata u s.2) a.
Proof.
  intros [Hc Hm [Hd Hv] [] _] Hu He Hus. split; try done.
  - split; [|done]. intros p n Hp. destruct (Hd p n Hp) as [? []]. split; [done|]. split; try done. by rewrite Hu.
  - split; [done| |done]. cbn. rewrite ls_log0. apply list_fmap_ext. intros k e Hk. symmetry. apply He.
    by eapply list_elem_of_lookup_2.
Qed.
Lemma sim_cfg {U C K} `{App : RaftApp U C K} V ids i cfg cfg' xs (s : raft U) (a : anode (Z * Z * C)) :
  sim V ids i cfg xs [] s a → (∀ p, app_uds cfg' p = app_uds cfg p) →
  (app_inv cfg (udata s.2) → app_inv cfg' (udata s.2)) → sim V ids i cfg' xs [] s a.
Proof.
  intros Hs Hu Hi. destruct s as [l h]. assert (h = set_udata (udata h) h) as -> by by destruct h.
  apply (sim_udata V ids i cfg cfg' xs xs (l, h)); try done. destruct (sim_user Hs). split; auto.
Qed.
