(* ===== verification/RaftRefineElection.v ===== *)
(** * The simulation: terms, votes, elections

    Moving to a term, becoming follower, candidate and leader, the two sending
    operations, and the handlers of a vote request and of its response, as moves of
    the protocol. *)

From stdpp Require Import fin_sets.
From S2P Require Import Prelude RaftTypes RaftNode RaftLog RaftLogSpec RaftMembership RaftServer RaftFrame RaftElection RaftQuorum RaftProtocol RaftApp RaftRefine.

#[export] Hint Extern 1 (Preserves (refines _ _ _ _ _ _ _ _) (modify_me _)) =>
  apply refines_modify_me; reflexivity : pres.

Section election.
Context {U C K : Type} `{App : RaftApp U C K} (V : gset positive) (ids : positive → Z) `{HV : !Cluster V ids} (i : positive) (Hi : i ∈ V) (cfg : K).
Context (net : positive → amsg (Z * Z * C) → Prop).
Implicit Types (s : raft U) (a : anode (Z * Z * C)) (late : list raft_node_t) (xs : list raft_entry_data_t).
Abbreviation sim := (sim V ids i cfg).
Abbreviation refines := (refines V ids i cfg net).
Abbreviation me_sim := (me_sim V ids i).
Abbreviation peer_sim := (peer_sim ids i cfg).
Abbreviation moves := (rtc (lstep V i net)).

(** ** Roles and terms *)

(** The struct moves to another role, term or vote. *)
Lemma sim_role xs late late' s a a' m :
  sim xs late s a →
  me_sim m a' → a_log a' = a_log a → a_sent a' = a_sent a → last_applied_idx m = last_applied_idx (me s.2) →
  a_term a ≤ a_term a' → (app_ok (udata s.2) = true → a_term a' < INT_MAX) →
  (∀ p n, heap s.2 !! p = Some n → peer_sim late' a' p n) →
  sim xs late' (s.1, set_me m s.2) a'.
Proof.
  intros [Hc Hm [Hd Hv] [] []] Hm' El Es Ea Ht Hmax Hp. split; cbn; try done.
  - split; [|done]. intros p n Hpn. split; [by eapply Hd|auto].
  - split; rewrite ?El; [done..|]. eapply Forall_impl; [done|]. intros e [? ?]. split; [done|lia].
  - split; rewrite ?El, ?Es, ?Ea; auto.
Qed.

Lemma become_follower_sim xs late s a :
  sim xs late s a → wlp raft_become_follower (λ _ s', sim xs late s' (set_a_role RAFT_STATE_FOLLOWER a)) s.
Proof.
  intros Hs. unfold raft_become_follower. do 5 rstep.
  assert (sim xs late (s.1, set_me (set_state RAFT_STATE_FOLLOWER (me s.2)) s.2) (set_a_role RAFT_STATE_FOLLOWER a)) as Hf.
  { eapply (sim_role _ late); [done|destruct (sim_me Hs); by split|done..| |].
    - apply (us_term (sim_user Hs)).
    - intros p n Hp. destruct (sim_peer Hs Hp) as [_ []]. by split. }
  by eapply sim_same.
Qed.

Lemma become_follower_udata s : wlp raft_become_follower (λ _ s', udata s'.2 = udata s.2) s.
Proof. unfold raft_become_follower. by do 5 rstep. Qed.

Lemma set_current_term_sim xs late s a t :
  sim xs late s a → a_term a < t →
  wlp (raft_set_current_term t) (λ r s', r = 0 ∧ sim xs late s' (set_a_vote None (set_a_term t a)) ∧
    ∀ d, app_content (udata s'.2) d = app_content (udata s.2) d) s.
Proof.
  intros Hs Ht. unfold raft_set_current_term. do 2 rstep. rewrite (ms_term (sim_me Hs)).
  rewrite (proj2 (Z.ltb_lt _ _)) by done. do 3 rstep. rewrite (sim_cb Hs).
  destruct (app_persist_term (U := U)) as (f & -> & Hf).
  destruct (Hf (view s) (udata s.2) t (-1)) as (H0 & Hcalm & Hmax).
  apply wq_call. rewrite H0. cbn [Z.eqb negb]. do 2 rstep. rstep. split; [done|]. split; [|apply Hcalm].
  apply (sim_calm V ids i cfg _ _ _ _ _ Hcalm) in Hs. cbn [fst snd] in *.
  apply (sim_role _ late _ _ _ _ _ Hs); try done.
  - destruct (sim_me Hs). split; try done. cbn. lia.
  - cbn. lia.
  - intros p n Hp. destruct (sim_peer Hs Hp) as [_ []]. by split.
Qed.

(** The move to a later term that a message of that term causes. *)
Lemma new_term_sim xs late s a t :
  sim xs late s a → a_term a < t →
  wlp (e ← raft_set_current_term t;
       if negb (e =? 0) then mret e
       else raft_become_follower ;; modify_me (set_current_leader None) ;; mret 0)
    (λ r s', r = 0 ∧ sim xs late s' (set_a_role RAFT_STATE_FOLLOWER (set_a_vote None (set_a_term t a)))) s.
Proof.
  intros Hs Ht. rstep. eapply wq_mono; [by apply set_current_term_sim|].
  intros r s1 (-> & Hs1 & _). cbn [Z.eqb negb]. rstep. eapply wq_mono; [by apply become_follower_sim|].
  intros [] s2 Hs2. do 3 rstep. split; [done|]. by apply sim_set_me.
Qed.

(** ** Asking for votes *)
(** In the role [r], a server that has done nothing since [a0] but send. *)
Definition sends (r : raft_state_e) (a0 a : anode (Z * Z * C)) : Prop := a_role a0 = r ∧ ∃ ms, a = set_a_sent ms a0.
Lemma sends_refl r a : a_role a = r → sends r a a.
Proof. intros. split; [done|]. exists (a_sent a). by rewrite sent_eta. Qed.
Lemma sends_role r a0 a : sends r a0 a → a_role a = r.
Proof. by intros [? [ms ->]]. Qed.
Lemma sends_more r a0 a ms : sends r a0 a → sends r a0 (set_a_sent ms a).
Proof. intros [? [ms' ->]]. split; [done|]. by exists ms. Qed.

Lemma last_log_sim xs late s a :
  sim xs late s a → wlp raft_get_last_log_term (λ t s', s' = s ∧ t = last_term_of (a_log a)) s.
Proof.
  intros Hs. unfold raft_get_last_log_term, raft_get_current_idx, log_get_current_idx, log_count.
  do 2 rstep. destruct (sim_log Hs) as [Hl El _]. rewrite (plain_count _ Hl), (pl_base _ Hl), Z.add_0_r.
  unfold last_term_of. rewrite El, fmap_last. wsplit; bool_prop.
  - rstep. unfold raft_get_entry_from_idx. rstep. rstep. rewrite plain_get_at by done.
    rewrite (proj2 (Z.ltb_lt _ _)) by done. rstep. simplify_eq.
    rewrite last_lookup. replace (Z.to_nat _) with (pred (length (log_list s.1))) by lia.
    by destruct (_ !! _); rstep.
  - rstep. split; [done|]. by destruct (log_list s.1).
Qed.

Lemma nodeid_sim xs late s a : sim xs late s a → wlp raft_get_nodeid (λ id s', s' = s ∧ id = ids i) s.
Proof.
  intros Hs. eapply wq_mono; [apply get_nodeid_spec|]. intros id s' [-> ->]. split; [done|].
  unfold own_id. rewrite (ms_node (sim_me Hs)). destruct (proj2 (sim_heap Hs) i Hi) as [n Hn].
  rewrite Hn. apply (ps_id (proj2 (sim_peer Hs Hn))).
Qed.

#[global] Instance refines_send_requestvote xs late a0 p :
  Preserves (refines xs late (sends RAFT_STATE_CANDIDATE a0)) (raft_send_requestvote p).
Proof.
  apply refines_intro. intros s a Hs Hr. unfold raft_send_requestvote. do 7 rstep.
  eapply wq_mono; [by eapply last_log_sim|]. intros t s1 [-> ->]. rstep.
  eapply wq_mono; [by eapply nodeid_sim|]. intros id s1 [-> ->]. do 2 rstep. rewrite (sim_cb Hs).
  destruct (app_send_requestvote (U := U)) as (f & -> & Hf).
  match goal with |- wq _ (call (λ v u, f v u p ?rv)) _ _ =>
    destruct (Hf (view s) (udata s.2) p rv) as ([Hok Hcon] & Hown & Hmach & Hsent & Hinv) end.
  apply wq_call. eexists. split; [|split; [by apply sends_more|apply rtc_once, L_send_requestvote; by eapply sends_role]].
  destruct (sim_log Hs) as [Hl El _].
  apply sim_set_udata; try done; [by intros; right| |].
  2:{ intros Hok'. apply Hinv; [done|]. intros n' Hn'. apply (ps_udata (proj2 (sim_peer Hs Hn'))). }
  intros x [->|?]%Hsent; [left|by right]. cbn. unfold raft_get_current_idx, log_get_current_idx, log_count.
  rewrite (plain_count _ Hl), (pl_base _ Hl), El, length_fmap, (ms_term (sim_me Hs)), Z.add_0_r, Nat2Z.id.
  split_and!; [done|lia|by left].
Qed.

Lemma vote_sim xs late s a c :
  sim xs late s a → c ∈ V →
  wlp (raft_vote_for_nodeid (ids c)) (λ r s', r = 0 ∧ heap s'.2 = heap s.2 ∧ sim xs late s' (set_a_vote (Some c) a)) s.
Proof.
  intros Hs Hc. unfold raft_vote_for_nodeid. do 3 rstep. rewrite (sim_cb Hs).
  destruct (app_persist_vote (U := U)) as (f & -> & Hf).
  destruct (Hf (view s) (udata s.2) (ids c)) as (H0 & Hcalm).
  apply wq_call. rewrite H0. cbn [Z.eqb negb]. do 2 rstep. rstep. split; [done|]. split; [done|].
  apply (sim_calm V ids i cfg _ _ _ _ _ Hcalm) in Hs. cbn [fst snd] in *.
  apply (sim_role _ late _ _ _ _ _ Hs); try done.
  - destruct (sim_me Hs). split; try done. cbn. congruence.
  - apply (us_term (sim_user Hs)).
  - intros p n Hp. destruct (sim_peer Hs Hp) as [_ []]. by split.
Qed.

Lemma clear_votes_sim xs late s a :
  sim xs late s a →
  wlp (for_each (table (me s.2)) (λ p, on_node (Some p) (raft_node_vote_for_me false)))
    (λ _ s', sim xs late s' a ∧ ∀ p n, heap s'.2 !! p = Some n → raft_node_has_vote_for_me n = false) s.
Proof.
  intros Hs. apply (wq_for_each _ (λ ps s', sim xs late s' a ∧
    ∀ p n, heap s'.2 !! p = Some n → p ∉ ps → raft_node_has_vote_for_me n = false)).
  - split; [done|]. intros p n Hp []. apply (ms_table (sim_me Hs)). by apply (sim_peer Hs Hp).
  - intros p ps s1 [Hs1 Hv]. rstep. split.
    + apply sim_set_heap; [by eapply (sim_peer Hs1)| |done]. intros _.
      destruct (sim_peer Hs1 ltac:(done)) as [_ [Hid Hud Hvo Hvt Hix]]. split; try done.
      * unfold is_voter in *. by rewrite is_active_vote_for_me, is_voting_vote_for_me.
      * intros _ _. by rewrite has_vote_vote_for_me.
    + intros q n'. change (heap _) with (<[p:=raft_node_vote_for_me false n]> (heap s1.2)).
      intros [[<- <-]|[? Hq]]%lookup_insert_Some Hps; [by rewrite has_vote_vote_for_me|].
      eapply Hv; [done|]. rewrite not_elem_of_cons. done.
  - intros s1 [Hs1 Hv]. split; [done|]. intros p n Hp. eapply Hv; [done|]. apply not_elem_of_nil.
Qed.

#[global] Instance refines_become_candidate xs late : Preserves (refines xs late (λ _, True)) raft_become_candidate.
Proof.
  apply refines_intro. intros s a Hs _. unfold raft_become_candidate. do 4 rstep.
  unfold raft_get_current_term. rewrite (ms_term (sim_me Hs)). rstep.
  eapply wq_mono; [apply set_current_term_sim; [done|lia]|]. intros r s1 (-> & Hs1 & _). cbn [Z.eqb negb].
  do 2 rstep. rstep. eapply wq_mono; [by apply clear_votes_sim|]. intros [] s2 [Hs2 Hv2]. do 2 rstep.
  rewrite (ms_node (sim_me Hs2)). unfold raft_vote. do 3 rstep.
  destruct (sim_peer Hs2 ltac:(done)) as [_ [Hid _ _ _ _]]. unfold raft_node_get_id. rewrite Hid.
  eapply wq_mono; [by apply vote_sim|]. intros r s3 (_ & Hh3 & Hs3). do 7 rstep. do 4 rstep.
  set (a' := set_a_cand (<[a_term a + 1 := a_log a]> (a_cand a))
        (set_a_cast (<[a_term a + 1 := (i, a_log a)]> (a_cast a))
          (set_a_votes ∅ (set_a_role RAFT_STATE_CANDIDATE (set_a_vote (Some i)
            (set_a_term (a_term a + 1) a)))))).
  match goal with |- wq _ (for_each _ ?body) _ ?s4 =>
    assert (sim xs late s4 a') as Hs4;
    [|assert (Preserves (refines xs late (sends RAFT_STATE_CANDIDATE a')) (for_each (table (me s4.2)) body)) as Hp] end.
  { assert (sim xs late (s3.1, set_me (set_state RAFT_STATE_CANDIDATE (me s3.2)) s3.2) a') as Hf.
    { apply (sim_role _ late _ _ _ _ _ Hs3); try done.
      - destruct (sim_me Hs3). by split.
      - apply (us_term (sim_user Hs3)).
      - intros p n2. rewrite Hh3. intros Hp. destruct (sim_peer Hs2 Hp) as [_ []]. split; try done.
        intros _ _ Hvote. by rewrite (Hv2 p n2 Hp) in Hvote. }
    by eapply sim_same. }
  { pres. }
  eapply wq_mono; [apply (refines_run _ _ _ _ _ _ _ _ _ _ _ Hs4); by apply sends_refl|].
  intros [] s5 (a5 & Hs5 & _ & Hm). rstep. exists a5. split_and!; try done.
  eapply rtc_l; [|exact Hm]. apply L_candidate.
Qed.

(** ** Sending entries *)
Lemma get_at_sim xs late s a (idx : Z) :
  sim xs late s a → log_get_at_idx s.1 idx = Ok (if 0 <? idx then log_list s.1 !! Z.to_nat (idx - 1) else None).
Proof. intros Hs. apply plain_get_at, (ls_plain (sim_log Hs)). Qed.
Lemma current_idx_sim xs late s a : sim xs late s a → raft_get_current_idx s = Z.of_nat (length (a_log a)).
Proof.
  intros Hs. destruct (sim_log Hs) as [Hl El _]. unfold raft_get_current_idx, log_get_current_idx, log_count.
  rewrite (plain_count _ Hl), (pl_base _ Hl), El, length_fmap. lia.
Qed.

(** The entry before the ones that are sent. *)
Lemma prev_entry_sim xs late s a (next si st : Z) :
  sim xs late s a → 1 ≤ next ≤ Z.of_nat (length (a_log a)) + 1 →
  wlp (if 1 <? next then
         prev_ety ← raft_get_entry_from_idx (next - 1);
         match prev_ety with
         | None => mret (si, st)
         | Some prev_ety => mret (next - 1, ety_term prev_ety)
         end
       else mret (0, 0))
    (λ r s', s' = s ∧ r.1 = next - 1 ∧ prev_ok (a_log a) (Z.to_nat (next - 1)) r.2) s.
Proof.
  intros Hs Hn. destruct (sim_log Hs) as [Hl El _]. wsplit; bool_prop.
  - rstep. unfold raft_get_entry_from_idx. do 2 rstep. rewrite plain_get_at by done.
    rewrite (proj2 (Z.ltb_lt _ _)) by lia. rstep. simplify_eq.
    rewrite El, length_fmap in Hn. replace (Z.to_nat (next - 1 - 1)) with (Z.to_nat (next - 1) - 1)%nat by lia.
    destruct (lookup_lt_is_Some_2 (log_list s.1) (Z.to_nat (next - 1) - 1)) as [e He]; [lia|].
    rewrite He. rstep. split_and!; [done..|]. right. exists (app_entry (udata s.2) e).
    by rewrite El, list_lookup_fmap, He.
  - rstep. split_and!; [done|cbn; lia|]. left. lia.
Qed.

Lemma abs_entries_sim xs late s a : sim xs late s a → Forall (abs_entry_ok (a_term a)) (a_log a).
Proof.
  intros Hs. destruct (sim_log Hs) as [_ -> Hf]. rewrite Forall_fmap. eapply Forall_impl; [exact Hf|].
  intros e [? ?]. done.
Qed.

Lemma refines_send_appendentries xs late a0 p :
  p ∉ late → Preserves (refines xs late (sends RAFT_STATE_LEADER a0)) (raft_send_appendentries p).
Proof.
  intros Hp. apply refines_intro. intros s a Hs Hse. pose proof (sends_role _ _ _ Hse) as Hr. unfold raft_send_appendentries. do 6 rstep. bool_prop.
  rewrite (sim_cb Hs). destruct (app_send_appendentries (U := U)) as (f & -> & Hf). do 2 rstep.
  rewrite (proj1 (ms_snapshot (sim_me Hs))). cbn [Z.ltb Z.compare andb].
  assert (p ≠ i) as Hpi by (intros ->; apply H; apply (ms_node (sim_me Hs))).
  destruct (sim_peer Hs ltac:(done)) as [_ [_ _ _ _ Hix]]. destruct (Hix Hr Hpi Hp) as [_ Hnext].
  rstep. unfold raft_get_entries_from_idx. do 2 rstep. unfold raft_node_get_next_idx.
  destruct (sim_log Hs) as [Hl El _].
  destruct (plain_get_from s.1 (nd_next_idx n)) as (o & -> & Ho); [done|lia|]. rstep. simplify_eq. do 2 rstep.
  rstep. eapply wq_mono; [by eapply prev_entry_sim|]. intros r s1 (-> & Hr1 & Hprev).
  match goal with |- wq _ (call (λ v u, f v u p ?ae)) _ _ =>
    destruct (Hf (view s) (udata s.2) p ae) as ([Hok Hcon] & Hown & Hmach & Hsent & Hinv) end; [done|].
  apply wq_call. eexists. split; [|split; [by apply sends_more|apply rtc_once; apply (L_send_append V i net a); [exact Hr| |exact Hprev]; lia]].
  apply sim_set_udata; try done; [by intros; right| |].
  2:{ intros Hok'. apply Hinv; [done| |intros n' Hn'; apply (ps_udata (proj2 (sim_peer Hs Hn')))].
      cbn [ae_entries fst]. rewrite Ho. eapply app_owns_sub; [|by apply (us_owns (sim_user Hs)), Hok].
      trans (ety_data <$> log_list s.1); [apply fmap_submseteq, submseteq_drop|]. by apply submseteq_inserts_r. }
  intros x [->|?]%Hsent; [left|by right]. cbn. rewrite (ms_term (sim_me Hs)), (ms_commit (sim_me Hs)), Hr1, Ho, Nat2Z.id.
  rewrite fmap_drop, <- El. split_and!; [lia|lia| |by left].
  apply Forall_drop. by eapply abs_entries_sim.
Qed.
#[local] Hint Extern 1 (Preserves _ (raft_send_appendentries _)) =>
  apply refines_send_appendentries, not_elem_of_nil : pres.
#[local] Instance refines_send_nil xs a0 p : Preserves (refines xs [] (sends RAFT_STATE_LEADER a0)) (raft_send_appendentries p).
Proof. apply refines_send_appendentries, not_elem_of_nil. Qed.
#[global] Instance refines_send_loop xs a0 ps : Preserves (refines xs [] (sends RAFT_STATE_LEADER a0)) (send_appendentries_loop ps).
Proof. induction ps; cbn [send_appendentries_loop]; pres. Qed.
#[global] Instance refines_send_all xs a0 : Preserves (refines xs [] (sends RAFT_STATE_LEADER a0)) raft_send_appendentries_all.
Proof. unfold raft_send_appendentries_all. pres. Qed.

(** ** Becoming leader *)
Lemma sim_late xs late late' s a :
  sim xs late s a →
  (∀ p n, heap s.2 !! p = Some n → a_role a = RAFT_STATE_LEADER → p ≠ i → p ∉ late' → p ∈ late →
     0 ≤ nd_match_idx n ≤ Z.of_nat (a_match a p) ∧ 1 ≤ nd_next_idx n ≤ Z.of_nat (length (a_log a)) + 1) →
  sim xs late' s a.
Proof.
  intros [Hc Hm [Hd Hv] Hl Hu] Hp. split; try done. split; [|done].
  intros p n Hpn. destruct (Hd p n Hpn) as [? [? ? ? ? Hix]]. split; [done|]. split; try done.
  intros Hr Hpi Hp'. destruct (decide (p ∈ late)); eauto.
Qed.

(** The loop of [raft_become_leader] resets each other peer and sends to it. *)
Lemma reset_peers_sim xs s a ps :
  sim xs ps s a → a_role a = RAFT_STATE_LEADER → NoDup ps →
  wlp (for_each ps (λ p,
      skip ← skip_peer p;
      if (skip : bool) then mret tt
      else
        current_idx ← gets raft_get_current_idx;
        on_node (Some p) (raft_node_set_next_idx (current_idx + 1)) ;;
        on_node (Some p) (raft_node_set_match_idx 0) ;;
        _ ← raft_send_appendentries p;
        mret tt))
    (λ _ s', ∃ a', sim xs [] s' a' ∧ sends RAFT_STATE_LEADER a a' ∧ moves a a') s.
Proof.
  intros Hs Hr Hnd.
  apply (wq_for_each _ (λ ps s', NoDup ps ∧ ∃ a', sim xs ps s' a' ∧ sends RAFT_STATE_LEADER a a' ∧ moves a a'));
    [split; [done|exists a; split_and!; [done|by apply sends_refl|done]]| |by intros s' [_ ?]].
  intros p ps' s1 [[Hp Hnd']%NoDup_cons (a1 & Hs1 & Hr1 & Hm1)]. unfold skip_peer. rstep.
  do 2 rstep. rewrite (ms_node (sim_me Hs1)). case_bool_decide as Hpi.
  { do 2 rstep. split; [done|]. exists a1. split_and!; try done. eapply sim_late; [exact Hs1|].
    intros q n _ _ Hqi Hq [->|?]%elem_of_cons; [|done]. by injection Hpi as ->. }
  do 2 rstep. destruct (sim_peer Hs1 ltac:(done)) as [Hpv Hn]. pose proof (ps_voter Hn) as Hv.
  unfold is_voter in Hv. bool_prop. rstep. match goal with E : raft_node_is_active n = true |- _ => rewrite E end.
  cbn [negb]. do 6 rstep. assert (n0 = n) as -> by congruence. apply wq_bind.
  match goal with |- wq _ _ _ ?s3 => assert (sim xs ps' s3 a1) as Hs3 end.
  { match goal with E : heap ?s2.2 !! p = Some n1 |- _ => assert (sim xs (p :: ps') s2 a1) as Hs2 end.
    { apply sim_set_heap; try done. intros _. destruct Hn. split; try done. intros _ _ []. by left. }
    eapply sim_late; [apply (sim_set_heap _ _ _ _ _ (p :: ps')); [done| |exact Hs2]|].
    - intros _. destruct (sim_peer Hs2 ltac:(done)) as [_ []]. split; try done. intros _ _ []. by left.
    - intros q n' Hq _ Hqi Hq' [->|?]%elem_of_cons; [|done]. cbn in Hq.
      rewrite lookup_insert_eq in Hq. cbn in H3. rewrite lookup_insert_eq in H3. simplify_eq. cbn.
      rewrite (current_idx_sim _ _ _ _ Hs1). case_match; bool_prop; lia. }
  pose proof (refines_send_appendentries xs ps' a p Hp) as Hsend.
  eapply wq_mono; [by apply (refines_run _ _ _ _ _ _ _ _ _ _ _ Hs3)|].
  intros r s4 (a4 & Hs4 & Hr4 & Hm4). rstep. split; [done|]. exists a4. split_and!; try done. by etrans.
Qed.

Lemma become_leader_sim xs s a Q :
  sim xs [] s a → a_role a = RAFT_STATE_CANDIDATE → Q ⊆ {[i]} ∪ a_votes a → quorum V Q →
  wlp raft_become_leader (λ _ s', ∃ a', sim xs [] s' a' ∧ moves a a') s.
Proof.
  intros Hs Hr HQ Hq. unfold raft_become_leader. do 6 rstep. change (take _ _) with (table (me s.2)).
  set (a1 := set_a_lead (<[a_term a := a_log a]> (a_lead a)) (set_a_match (λ _, 0%nat) (set_a_role RAFT_STATE_LEADER a))).
  match goal with |- wq _ _ _ ?s1 => assert (sim xs (table (me s.2)) s1 a1) as Hs1 end.
  { assert (sim xs (table (me s.2)) (s.1, set_me (set_state RAFT_STATE_LEADER (me s.2)) s.2) a1) as Hf.
    { eapply (sim_role _ []); try done.
      - destruct (sim_me Hs). by split.
      - apply (us_term (sim_user Hs)).
      - intros p n Hp. destruct (sim_peer Hs Hp) as [Hpv []]. split; try done. intros _ _ [].
        by apply (ms_table (sim_me Hs)). }
    by eapply sim_same. }
  eapply wq_mono; [apply (reset_peers_sim _ _ _ _ Hs1); [done|apply (ms_nodup (sim_me Hs))]|].
  intros [] s2 (a2 & Hs2 & _ & Hm). exists a2. split; [done|]. eapply rtc_l; [|exact Hm].
  by apply (L_become_leader V i net a Q).
Qed.

(** ** Counting *)
Lemma peer_test_sim xs late s a f p :
  sim xs late s a → peer_test f s p = true → ∃ n, heap s.2 !! p = Some n ∧ p ∈ V ∧ peer_sim late a p n ∧ f n = true.
Proof.
  intros Hs. unfold peer_test. destruct (heap s.2 !! p) as [n|] eqn:E; [|done].
  intros Hf. exists n. destruct (sim_peer Hs E). done.
Qed.
Lemma voters_sim xs late s a : sim xs late s a → Z.of_nat (length (voters s)) = Z.of_nat (size V).
Proof.
  intros Hs. f_equal. trans (size (list_to_set (voters s) : gset positive)).
  { symmetry. apply size_list_to_set, NoDup_filter, (ms_nodup (sim_me Hs)). }
  f_equal. apply leibniz_equiv. intros p. unfold voters. rewrite elem_of_list_to_set, list_elem_of_filter.
  change (peers s) with (table (me s.2)). rewrite (ms_table (sim_me Hs)). split; [tauto|]. intros Hp.
  split; [|done]. destruct (proj2 (sim_heap Hs) p Hp) as [n Hn]. unfold peer_test. rewrite Hn.
  apply (ps_voter (proj2 (sim_peer Hs Hn))).
Qed.

Lemma num_voting_sim xs late s a : sim xs late s a → wlp raft_get_num_voting_nodes (λ n s', s' = s ∧ n = Z.of_nat (size V)) s.
Proof.
  intros Hs. eapply wq_mono; [apply num_voting_spec|]. intros n s' [-> ->]. split; [done|]. by eapply voters_sim.
Qed.

Lemma supporters_quorum xs late s a v :
  sim xs late s a → a_role a = RAFT_STATE_CANDIDATE →
  raft_votes_is_majority (Z.of_nat (size V)) (Z.of_nat (length (supporters s)) + (if (v : bool) then 1 else 0)) = true →
  ∃ Q, Q ⊆ {[i]} ∪ a_votes a ∧ quorum V Q.
Proof.
  intros Hs Hr [Hmaj _]%majority_true; [|lia].
  exists ({[i]} ∪ list_to_set (supporters s)).
  assert (∀ p, p ∈ supporters s → p ∈ V ∧ p ≠ i ∧ p ∈ a_votes a) as Hsup.
  { intros p [[Ho Ht]%andb_true_iff _]%list_elem_of_filter. unfold other in Ho. bool_prop.
    rewrite (ms_node (sim_me Hs)) in Ho. destruct (peer_test_sim _ _ _ _ _ _ Hs Ht) as (n & _ & ? & Hn & Hf).
    bool_prop. assert (p ≠ i) by congruence. split_and!; try done. by apply (ps_vote Hn). }
  split; [set_solver|]. apply quorum_with_self; [done|..].
  - apply NoDup_filter, (ms_nodup (sim_me Hs)).
  - intros Hin. by apply Hsup in Hin as (_ & ? & _).
  - intros p Hp. by apply Hsup.
  - destruct v; lia.
Qed.

(** ** Vote responses *)
Lemma recv_requestvote_response_sim xs s a p (r : msg_requestvote_response_t) :
  sim xs [] s a → p ∈ V → (rvr_vote_granted r = 1 → net p (MVote (rvr_term r) i)) →
  wlp (raft_recv_requestvote_response (Some p) r) (λ _ s', ∃ a', sim xs [] s' a' ∧ moves a a') s.
Proof.
  intros Hs Hp Hv. assert (∃ a', sim xs [] s a' ∧ moves a a') as Hno by (by exists a).
  unfold raft_recv_requestvote_response. do 2 rstep. wsplit; [by rstep|].
  unfold raft_is_candidate, raft_get_state, raft_get_current_term in *. bool_prop.
  rewrite (ms_role (sim_me Hs)) in *. rewrite (ms_term (sim_me Hs)). wsplit; bool_prop.
  { eapply wq_mono; [by apply new_term_sim|]. intros e s1 [_ Hs1]. eexists. split; [exact Hs1|].
    apply rtc_once. by apply L_new_term. }
  wsplit; bool_prop; [by rstep|]. wsplit; bool_prop.
  - rstep. rstep. set (a1 := set_a_votes ({[p]} ∪ a_votes a) a).
    match goal with |- wq _ _ _ ?s1 => assert (sim xs [] s1 a1) as Hs1 end.
    { apply sim_set_heap; [done| |].
      - intros _. destruct (sim_peer Hs ltac:(done)) as [_ [Hid Hud Hvo _ Hix]]. split; try done.
        + unfold is_voter in *. by rewrite is_active_vote_for_me, is_voting_vote_for_me.
        + intros _ _ _. cbn. set_solver.
      - apply (sim_ext V ids i cfg a); try done. cbn. set_solver. }
    assert (moves a a1) as Hm1.
    { apply rtc_once, L_get_vote; [|done]. match goal with E : a_term a = _ |- _ => rewrite E end. by apply Hv. }
    rstep. eapply wq_mono; [apply nvotes_spec|]. intros votes s2 [-> ->]. rstep.
    eapply wq_mono; [by eapply num_voting_sim|]. intros num s2 [-> ->]. rstep.
    destruct (raft_votes_is_majority _ _) eqn:Hmaj.
    + destruct (supporters_quorum _ _ _ _ _ Hs1 ltac:(done) Hmaj) as (Q & HQ & Hq).
      eapply wq_mono; [by eapply become_leader_sim|]. intros [] s2 (a2 & Hs2 & Hm2). rstep.
      exists a2. split; [done|]. by etrans.
    + do 2 rstep. by exists a1.
  - wsplit; [by rstep|]. wsplit; [|by rstep]. rstep. apply (wlp_read_only _). intros my _.
    rstep. apply (wlp_read_only _). intros n _. wsplit; by rstep.
Qed.

(** ** Vote requests *)
Lemma up_to_date_covers xs late s a rv :
  sim xs late s a → a_term a < INT_MAX → seems_up_to_date s rv →
  covers (Z.to_nat (rv_last_log_idx rv)) (rv_last_log_term rv) (a_log a).
Proof.
  intros Hs Hmax. unfold seems_up_to_date, last_term. rewrite (current_idx_sim _ _ _ _ Hs), (get_at_sim _ _ _ _ _ Hs).
  destruct (sim_log Hs) as [Hl El Hent]. unfold covers, last_term_of. rewrite El, fmap_last, last_lookup, length_fmap.
  destruct (log_list s.1) as [|e0 es] eqn:Elist; [by left|]. rewrite <- Elist in *. intros [H0|Hu].
  { rewrite Elist in H0. done. }
  right. rewrite (proj2 (Z.ltb_lt _ _)) in Hu by (rewrite Elist; cbn; lia).
  replace (Z.to_nat (Z.of_nat (length (log_list s.1)) - 1)) with (pred (length (log_list s.1))) in Hu by lia.
  destruct (lookup_lt_is_Some_2 (log_list s.1) (pred (length (log_list s.1)))) as [e He]; [rewrite Elist; cbn; lia|].
  rewrite He in *. cbn. destruct Hu as (t & [= <-] & Ht).
  destruct (Forall_lookup_1 _ _ _ _ Hent He) as [_ Hte].
  rewrite to_int_small in Ht by (unfold INT_MIN; lia). lia.
Qed.

Lemma requestvote_term_sim xs s a (rv : msg_requestvote_t) :
  sim xs [] s a →
  wlp (if raft_get_current_term s <? rv_term rv then
         e ← raft_set_current_term (rv_term rv);
         if negb (e =? 0) then mret e
         else raft_become_follower ;; modify_me (set_current_leader None) ;; mret 0
       else mret 0)
    (λ e s', e = 0 ∧ ∃ a', sim xs [] s' a' ∧ moves a a' ∧ rv_term rv ≤ a_term a') s.
Proof.
  intros Hs. unfold raft_get_current_term. rewrite (ms_term (sim_me Hs)). wsplit; bool_prop.
  - eapply wq_mono; [by apply new_term_sim|]. intros e s' [-> Hs']. split; [done|]. eexists. split; [exact Hs'|].
    split; [|cbn; lia]. apply rtc_once. by apply L_new_term.
  - rstep. split; [done|]. exists a. done.
Qed.

Lemma recv_requestvote_sim xs s a p rv c :
  sim xs [] s a → c ∈ V → rv_candidate_id rv = ids c →
  net c (MRequestVote (rv_term rv) (Z.to_nat (rv_last_log_idx rv)) (rv_last_log_term rv)) →
  wlp (raft_recv_requestvote p rv) (λ r s', app_ok (udata s'.2) = true →
    ∃ a', sim xs [] s' a' ∧ moves a a' ∧
      (rvr_vote_granted r.2 = 1 → MVote (rvr_term r.2) c ∈ a_sent a')) s.
Proof.
  intros Hs Hc Hid Hnet. unfold raft_recv_requestvote. rstep.
  assert (Preserves eq (match p with Some p => mret (Some p)
                        | None => raft_get_node (U := U) (rv_candidate_id rv) end)) as Hro by pres.
  apply (wlp_read_only _). intros p' _. clear Hro. do 3 rstep.
  eapply wq_mono with (P := λ r s', app_ok (udata s'.2) = true →
    ∃ a', sim xs [] s' a' ∧ moves a a' ∧ (r.2 = 1 → MVote (a_term a') c ∈ a_sent a')).
  2:{ intros r s' Hr. do 3 rstep. intros Hok. destruct (Hr Hok) as (a' & Hs' & ? & Hv). exists a'. split_and!; try done.
      cbn. unfold raft_get_current_term. by rewrite (ms_term (sim_me Hs')). }
  wsplit; [rstep; intros _; by exists a|]. rstep. eapply wq_mono; [by apply requestvote_term_sim|].
  intros e s1 (-> & a1 & Hs1 & Hm1 & Ht1). cbn [Z.eqb negb]. rstep.
  apply (wlp_read_only _). intros grant Hgrant.
  destruct grant; [|wsplit; rstep; intros _; by exists a1].
  apply should_grant_vote_true in Hgrant as (Hnone & Hle & Hutd).
  do 5 rstep. unfold raft_is_leader, raft_is_candidate, raft_get_state in *. bool_prop. rewrite Hid.
  eapply wq_mono; [by apply vote_sim|]. intros e s2 (-> & _ & Hs2). cbn [Z.eqb]. do 5 rstep. cbn [fst snd].
  intros Hok. rewrite (ms_term (sim_me Hs1)) in Hle. rewrite (ms_vote (sim_me Hs1)) in Hnone.
  rewrite (ms_role (sim_me Hs1)) in *.
  eexists. split; [|split; [etrans; [exact Hm1|apply rtc_once; apply (L_grant V i net a1 c (Z.to_nat (rv_last_log_idx rv)) (rv_last_log_term rv))]|]].
  - eapply sim_same with (s := s2); [|done..].
    apply (sim_ext V ids i cfg _ _ _ _ _ Hs2); try done. by intros; right.
  - by replace (a_term a1) with (rv_term rv) by lia.
  - destruct (a_vote a1) as [v|] eqn:Ev; [|done]. cbn in Hnone. by apply ids_valid in Hnone; [|by apply (ms_vote_in (sim_me Hs1))].
  - pose proof (ms_role_some (sim_me Hs1)). by destruct (a_role a1).
  - eapply up_to_date_covers; [done| |done]. apply (us_term (sim_user Hs2)). exact Hok.
  - intros _. cbn. by left.
Qed.
End election.
#[global] Arguments get_at_sim {U C K App V ids i cfg xs late s a} idx _.
#[global] Arguments current_idx_sim {U C K App V ids i cfg xs late s a} _.
