(* ===== verification/RaftRefineLog.v ===== *)
(** * The simulation: replication

    Receiving a client's entry, an append-entries request and its response, applying
    entries, and the periodic function, as moves of the protocol. *)

From stdpp Require Import fin_sets.
From S2P Require Import Prelude RaftTypes RaftNode RaftLog RaftLogSpec RaftMembership RaftServer RaftFrame RaftElection RaftQuorum RaftProtocol RaftApp RaftRefine RaftRefineElection.

Section replication.
Context {U C K : Type} `{App : RaftApp U C K} (V : gset positive) (ids : positive → Z) `{HV : !Cluster V ids} (i : positive) (Hi : i ∈ V) (cfg : K).
Context (net : positive → amsg (Z * Z * C) → Prop).
Implicit Types (s : raft U) (a : anode (Z * Z * C)) (late : list raft_node_t) (xs : list raft_entry_data_t)
  (ae : msg_appendentries_t) (es : list raft_entry_t).
Abbreviation sim := (sim V ids i cfg).
Abbreviation refines := (refines V ids i cfg net).
Abbreviation me_sim := (me_sim V ids i).
Abbreviation peer_sim := (peer_sim ids i cfg).
Abbreviation moves := (rtc (lstep V i net)).
#[local] Instance send_refines xs a0 p : Preserves (refines xs [] (sends RAFT_STATE_LEADER a0)) (raft_send_appendentries p).
Proof. apply refines_send_appendentries, not_elem_of_nil. Qed.

#[local] Instance candidate_refines xs late : Preserves (refines xs late (λ _, True)) raft_become_candidate.
Proof. by apply refines_become_candidate. Qed.

Lemma log_length_sim xs late s a : sim xs late s a → length (a_log a) = length (log_list s.1).
Proof. intros Hs. by rewrite (ls_log (sim_log Hs)), length_fmap. Qed.

(** ** A client's entry *)
Lemma append_sim xs late s a e :
  sim (ety_data e :: xs) late s a → entry_ok (a_term a) e →
  wlp (raft_append_entry e) (λ r s', r = 0 →
    sim xs late s' (set_a_log (a_log a ++ [app_entry (udata s.2) e]) a) ∧
    (∀ d, app_content (udata s'.2) d = app_content (udata s.2) d)) s.
Proof.
  intros Hs He. eapply wq_mono; [apply app_append; [apply (ls_plain (sim_log Hs))|apply (sim_cb Hs)|apply He]|].
  intros r s' (Heff & Hown & Hpl & Hlist) ->. cbn in Hlist.
  split; [|apply (le_content _ _ Heff)].
  pose proof (log_length_sim _ _ _ _ Hs) as Hlen. pose proof (ms_commit_len (sim_me Hs)).
  assert (sim xs late s' (set_a_log (app_entry (udata s.2) <$> log_list s'.1) a)) as Hs'.
  { apply (sim_set_log V ids i cfg (ety_data e :: xs) xs late s s' a (length (log_list s.1)) [e]); try done.
    - by rewrite take_ge by lia.
    - by apply Forall_singleton.
    - lia.
    - intros Ho. rewrite Hlist, fmap_app. cbn. rewrite <- app_assoc. by apply Hown. }
  rewrite Hlist, fmap_app, <- (ls_log (sim_log Hs)) in Hs'. exact Hs'.
Qed.

(** An accepted entry is in the log, at the index and term the response names. *)
Lemma recv_entry_sim xs s a ety r0 :
  sim (ety_data ety :: xs) [] s a → normal_entry ety →
  wlp (raft_recv_entry ety r0) (λ r s', r.1.1 = 0 → ∃ a' ms, sim xs [] s' a' ∧ moves a a' ∧
    a' = set_a_sent ms (set_a_lead (<[a_term a := a_log a']> (a_lead a))
           (set_a_log (a_log a ++ [app_entry (udata s.2) (set_ety_term (a_term a) ety)]) a)) ∧
    a_role a = RAFT_STATE_LEADER ∧
    r.2 = mk_entry_response (ety_id ety) (a_term a) (Z.of_nat (length (a_log a')))) s.
Proof.
  intros Hs Hn. unfold raft_recv_entry. do 2 rstep.
  rewrite (proj2 (normal_not_cfg ety Hn)). cbn [andb]. wsplit; [by rstep|].
  unfold raft_is_leader, raft_get_state in *. bool_prop. rewrite (ms_role (sim_me Hs)) in *. rstep.
  rewrite (ms_term (sim_me Hs)). set (e := set_ety_term (a_term a) ety).
  assert (entry_ok (a_term a) e) as He by (split; [done|]; pose proof (ms_term_pos (sim_me Hs)); cbn; lia).
  eapply wq_mono; [by apply append_sim|]. intros r s1 Hs1. wsplit; bool_prop; [by rstep|]. subst r.
  destruct (Hs1 eq_refl) as [Hs1' _]. clear Hs1.
  set (a1 := set_a_lead (<[a_term a := a_log a ++ [app_entry (udata s.2) e]]> (a_lead a))
               (set_a_log (a_log a ++ [app_entry (udata s.2) e]) a)).
  assert (sim xs [] s1 a1) as Hs2.
  { by apply (sim_ext V ids i cfg _ _ _ _ _ Hs1'). }
  do 3 rstep.
  match goal with |- wq _ (for_each _ ?body) _ _ =>
    assert (Preserves (refines xs [] (sends RAFT_STATE_LEADER a1)) (for_each (table (me s1.2)) body)) as Hp by pres end.
  eapply wq_mono; [apply (refines_run _ _ _ _ _ _ _ _ _ _ _ Hs2); by apply sends_refl|].
  intros [] s2 (a2 & Hs3 & [_ [ms ->]] & Hm). rstep. eapply wq_mono; [by eapply num_voting_sim|].
  intros num s3 [-> ->]. do 3 rstep. pose proof (cluster_size (V := V)) as Hsz.
  rewrite (proj2 (Z.eqb_neq _ _)) by lia. do 4 rstep.
  assert (raft_entry_is_voting_cfg_change e = false) as -> by (by apply normal_not_cfg). do 2 rstep.
  intros _. eexists (set_a_sent ms a1), ms. split_and!; [done| |done..|].
  - eapply rtc_l; [|exact Hm]. by apply L_append.
  - cbn [snd]. f_equal; [apply (ms_term (sim_me Hs3))|by apply (current_idx_sim Hs3)].
Qed.

(** ** Applying entries *)
Lemma apply_allowed_sim xs late s a : sim xs late s a → raft_is_apply_allowed s = true.
Proof. intros Hs. unfold raft_is_apply_allowed, raft_snapshot_is_in_progress. by rewrite (proj2 (ms_snapshot (sim_me Hs))). Qed.
Lemma apply_entry_sim xs late s a :
  sim xs late s a → last_applied_idx (me s.2) < commit_idx (me s.2) →
  wlp raft_apply_entry (λ e s', e = 0 ∧ sim xs late s' a ∧ last_applied_idx (me s'.2) = last_applied_idx (me s.2) + 1) s.
Proof.
  intros Hs Hlt. unfold raft_apply_entry. do 2 rstep. rewrite (apply_allowed_sim _ _ _ _ Hs). cbn [negb]. unfold raft_get_commit_idx.
  rewrite (proj2 (Z.eqb_neq _ _)) by lia. rstep.
  pose proof (ms_applied (sim_me Hs)) as Happ. pose proof (ms_commit (sim_me Hs)) as Hc. pose proof (ms_commit_len (sim_me Hs)) as Hcl.
  rewrite (log_length_sim _ _ _ _ Hs) in Hcl.
  unfold raft_get_entry_from_idx. do 2 rstep. rewrite (get_at_sim _ Hs). rewrite (proj2 (Z.ltb_lt _ _)) by lia.
  replace (last_applied_idx (me s.2) + 1 - 1) with (last_applied_idx (me s.2)) by lia. rstep. simplify_eq.
  destruct (lookup_lt_is_Some_2 (log_list s.1) (Z.to_nat (last_applied_idx (me s.2)))) as [e He]; [lia|]. rewrite He. do 7 rstep.
  destruct (app_applylog (U := U)) as (f & Hcb & Hf).
  set (s1 := (s.1, set_me (set_last_applied_idx (last_applied_idx (me s.2) + 1) (me s.2)) s.2)).
  fold s1. assert (cb s1.2 = app_cbs) as -> by apply (sim_cb Hs). rewrite Hcb.
  destruct (Hf (view s1) (udata s.2) e (last_applied_idx (me s1.2))) as (H0' & [Hok Hcon] & Hown & Hsent & Hmach & Hinv).
  apply wq_call. change (udata s1.2) with (udata s.2). rewrite H0'.
  cbn [Z.eqb RAFT_ERR_SHUTDOWN]. do 2 rstep.
  assert (normal_entry e) as Hn.
  { eapply Forall_lookup_1 in He; [|apply (ls_entries (sim_log Hs))]. apply He. }
  assert (sim xs late (s1.1, set_udata (f (view s1) (udata s.2) e (last_applied_idx (me s1.2))).2 s1.2) a) as Hs1.
  { destruct Hs as [? [] [Hd Hv] [? El ?] []]. split; try done.
    - split; try done. cbn. lia.
    - split; [done| |done]. rewrite El. symmetry. by apply app_entries_content.
    - split; cbn; auto. intros Ho.
      rewrite Z2Nat.inj_add by lia. rewrite Nat.add_1_r.
      rewrite (take_S_r _ _ (app_entry (udata s.2) e)); [by apply Hmach; auto|].
      by rewrite El, list_lookup_fmap, He. }
  rstep. match goal with |- wq _ _ _ ?s2 => change s2 with (s1.1, set_udata (f (view s1) (udata s.2) e (last_applied_idx (me s1.2))).2 s1.2) end.
  rewrite (proj1 (normal_not_cfg e Hn)). cbn [negb].
  eapply wq_mono with (P := λ _ s', sim xs late s' a ∧ last_applied_idx (me s'.2) = last_applied_idx (me s.2) + 1);
    [|intros ? ? ?; by rstep].
  wsplit; rstep; (split; [|done]); [|done]. by apply sim_set_me.
Qed.
#[global] Instance refines_apply_entry xs late P : Preserves (refines xs late P) raft_apply_entry.
Proof.
  apply refines_still. intros s a Hs _.
  destruct (decide (last_applied_idx (me s.2) = commit_idx (me s.2))) as [E|E].
  - unfold raft_apply_entry. do 2 rstep. wsplit; [by rstep|]. unfold raft_get_commit_idx. by rewrite (proj2 (Z.eqb_eq _ _)) by done.
  - pose proof (ms_applied (sim_me Hs)). eapply wq_mono; [apply apply_entry_sim; [done|lia]|]. by intros e s' (_ & ? & _).
Qed.
#[global] Instance refines_apply_loop xs late P n : Preserves (refines xs late P) (apply_loop n).
Proof. induction n; cbn [apply_loop]; pres. Qed.
#[global] Instance refines_apply_all xs late P : Preserves (refines xs late P) raft_apply_all.
Proof. unfold raft_apply_all. pres. Qed.

(** [raft_apply_all] stops when every committed entry has been applied. *)
Lemma apply_loop_sim xs late n s a :
  sim xs late s a → wlp (apply_loop n) (λ _ s', sim xs late s' a ∧ last_applied_idx (me s'.2) = Z.of_nat (a_commit a)) s.
Proof.
  revert s. induction n as [|n IH]; intros s Hs; cbn [apply_loop]; do 2 rstep; unfold raft_get_last_applied_idx, raft_get_commit_idx;
    pose proof (ms_applied (sim_me Hs)); pose proof (ms_commit (sim_me Hs)); wsplit; bool_prop; try (rstep; split; [done|lia]); [by rstep|].
  rstep. eapply wq_mono; [by apply apply_entry_sim|]. intros e s' (-> & Hs' & _). by apply IH.
Qed.
Lemma apply_all_sim xs late s a :
  sim xs late s a → wlp raft_apply_all (λ _ s', sim xs late s' a ∧ last_applied_idx (me s'.2) = Z.of_nat (a_commit a)) s.
Proof.
  intros Hs. unfold raft_apply_all. do 2 rstep. rewrite (apply_allowed_sim _ _ _ _ Hs). by apply apply_loop_sim.
Qed.

(** ** Time *)
#[global] Instance refines_periodic xs msec : Preserves (refines xs [] (λ _, True)) (raft_periodic msec).
Proof.
  apply refines_intro. intros s a Hs _. unfold raft_periodic. do 3 rstep. rstep.
  do 2 rstep. match goal with |- wq _ _ _ ?s1 => assert (sim xs [] s1 a) as Hs1 by (by apply sim_set_me) end.
  rstep. eapply wq_mono; [by eapply num_voting_sim|]. intros num s1 [-> ->].
  pose proof (cluster_size (V := V)) as Hsz. rewrite (proj2 (Z.eqb_neq _ _)) by lia. do 4 rstep.
  rstep. match goal with |- wq _ _ _ ?s1 => set (s2 := s1) in * end.
  eapply wq_mono with (P := λ _ s', ∃ a', sim xs [] s' a' ∧ moves a a').
  - wsplit; bool_prop.
    + rewrite (ms_role (sim_me Hs1)) in *. wsplit; [|rstep; by exists a]. rstep.
      eapply wq_mono; [apply (refines_run V ids i cfg net _ _ _ raft_send_appendentries_all _ _ Hs1); by apply sends_refl|].
      intros e s3 (a3 & ? & _ & ?). rstep. by exists a3.
    + match goal with |- wq _ ?c _ _ => assert (Preserves (refines xs [] (λ _, True)) c) as Hp end.
      { unfold raft_election_start. pres. }
      eapply wq_mono; [apply (refines_run _ _ _ _ _ _ _ _ _ _ _ Hs1); done|]. intros e s3 (a3 & ? & _ & ?). by exists a3.
  - intros e s3 (a3 & Hs3 & Hm3).
    match goal with |- wq _ ?c _ _ => assert (Preserves (refines xs [] (λ _, True)) c) as Hp by pres end.
    eapply wq_mono; [apply (refines_run _ _ _ _ _ _ _ _ _ _ _ Hs3); done|]. intros e' s4 (a4 & ? & _ & ?).
    exists a4. split_and!; try done. by etrans.
Qed.

(** ** Append-entries responses *)

(** The move of the next index of a peer that refused. *)
Lemma sim_set_next xs s a p n (next : Z) :
  sim xs [] s a → heap s.2 !! p = Some n → next ≤ Z.of_nat (length (a_log a)) →
  sim xs [] (s.1, set_heap (<[p := raft_node_set_next_idx next n]> (heap s.2)) s.2) a.
Proof.
  intros Hs Hp Hn. destruct (sim_peer Hs Hp) as [Hpv [Hid Hud Hvo Hvt Hix]].
  apply sim_set_heap; [done| |done]. intros _. split; try done. intros Hr Hpi Hl.
  destruct (Hix Hr Hpi Hl) as [? ?]. cbn. split; [done|]. case_match; lia.
Qed.

Lemma refuse_sim xs s a p n (cur : Z) :
  sim xs [] s a → a_role a = RAFT_STATE_LEADER → p ≠ i → heap s.2 !! p = Some n →
  wlp (if cur <? nd_next_idx n - 1 then
         current_idx ← gets raft_get_current_idx;
         on_node (Some p) (raft_node_set_next_idx (Z.min (cur + 1) current_idx))
       else on_node (Some p) (raft_node_set_next_idx (nd_next_idx n - 1)))
    (λ _ s', sim xs [] s' a) s.
Proof.
  intros Hs Hr Hpi Hp. wsplit; bool_prop.
  - do 2 rstep. rewrite (current_idx_sim Hs). rstep. apply sim_set_next; [done..|lia].
  - rstep. destruct (sim_peer Hs Hp) as [_ [_ _ _ _ Hix]].
    destruct (Hix Hr Hpi (not_elem_of_nil p)) as [_ ?]. apply sim_set_next; [done..|lia].
Qed.

(** An acknowledgement is recorded. *)
Lemma ack_sim xs s a p n n' (cur : Z) :
  sim xs [] s a → heap s.2 !! p = Some n → 0 ≤ cur ≤ Z.of_nat (length (a_log a)) →
  n' = raft_node_set_match_idx cur (raft_node_set_next_idx (cur + 1) n) →
  sim xs [] (s.1, set_heap (<[p := n']> (heap s.2)) s.2)
    (set_a_match (λ j', if decide (j' = p) then Z.to_nat cur else a_match a j') a).
Proof.
  intros [Hc Hm [Hd Hv] Hl []] Hp Hcur ->. split; try done.
  - destruct Hm. by split.
  - split; cbn.
    + intros q n'. rewrite lookup_insert_Some. intros [[<- <-]|[Hne Hq]].
      * destruct (Hd p n Hp) as [? []]. split; [done|]. split; try done. cbn. intros _ _ _.
        rewrite decide_True by done. case_match; bool_prop; lia.
      * destruct (Hd q n' Hq) as [? []]. split; [done|]. split; try done. cbn. by rewrite decide_False by congruence.
    + intros q Hq. rewrite lookup_insert_is_Some. destruct (decide (p = q)); auto.
  - destruct Hl. by split.
Qed.

(** The test on the acknowledged index. *)
Lemma holders_quorum xs s a (point : Z) :
  sim xs [] s a → a_role a = RAFT_STATE_LEADER →
  Z.quot (Z.of_nat (size V)) 2 < 1 + Z.of_nat (length (holders point s)) →
  ∃ Q, quorum V Q ∧ ∀ j, j ∈ Q → j = i ∨ (Z.to_nat point ≤ a_match a j)%nat.
Proof.
  intros Hs Hr Hq. exists ({[i]} ∪ list_to_set (holders point s)).
  assert (∀ p, p ∈ holders point s → p ∈ V ∧ p ≠ i ∧ (Z.to_nat point ≤ a_match a p)%nat) as Hh.
  { intros p [[Ho Ht]%andb_true_iff _]%list_elem_of_filter. unfold other in Ho. bool_prop.
    rewrite (ms_node (sim_me Hs)) in Ho. destruct (peer_test_sim V ids i cfg _ _ _ _ _ _ Hs Ht) as (n & _ & ? & Hn & Hf).
    unfold raft_node_get_match_idx in Hf. bool_prop. assert (p ≠ i) by congruence.
    destruct (ps_index Hn Hr ltac:(done) (not_elem_of_nil p)). split_and!; [done|done|lia]. }
  split; [|set_solver]. apply quorum_with_self; [done| | |intros p Hp; by apply Hh|].
  - apply NoDup_filter, (ms_nodup (sim_me Hs)).
  - intros Hin. by apply Hh in Hin as (_ & ? & _).
  - rewrite Z.quot_div_nonneg in Hq by lia. pose proof (Z.div_mod (Z.of_nat (size V)) 2).
    pose proof (Z.mod_pos_bound (Z.of_nat (size V)) 2). lia.
Qed.

Lemma commit_sim xs s a (point : Z) :
  sim xs [] s a → a_role a = RAFT_STATE_LEADER → 0 ≤ point →
  wlp (if negb (point =? 0) then
         ety ← raft_get_entry_from_idx point;
         m ← get_me;
         if commit_idx m <? point then
           match ety with
           | None => throw UndefinedBehaviour
           | Some ety =>
               if ety_term ety =? current_term m then
                 ps ← nodes_in_use;
                 others ← count_if ps (λ q,
                   if bool_decide (node m ≠ Some q) then
                     n ← deref q;
                     mret (raft_node_is_active n && raft_node_is_voting n &&
                           (point <=? raft_node_get_match_idx n))
                   else mret false);
                 let votes := 1 + others in
                 num ← raft_get_num_voting_nodes;
                 if Z.quot num 2 <? votes then raft_set_commit_idx point else mret tt
               else mret tt
           end
         else mret tt
       else mret tt)
    (λ _ s', ∃ a', sim xs [] s' a' ∧ a_role a' = RAFT_STATE_LEADER ∧ moves a a') s.
Proof.
  intros Hs Hr Hpoint. assert (∃ a', sim xs [] s a' ∧ a_role a' = RAFT_STATE_LEADER ∧ moves a a') as Hno by (by exists a).
  wsplit; bool_prop; [|by rstep]. rstep. unfold raft_get_entry_from_idx. do 2 rstep.
  rewrite (get_at_sim _ Hs). rewrite (proj2 (Z.ltb_lt _ _)) by lia. rstep. simplify_eq. do 2 rstep.
  wsplit; bool_prop; [|by rstep]. destruct (log_list s.1 !! _) as [ety|] eqn:He; [|by rstep].
  wsplit; bool_prop; [|by rstep]. do 3 rstep.
  eapply wq_mono; [by apply count_holders_spec|]. intros others s1 [-> ->]. rstep.
  eapply wq_mono; [by eapply num_voting_sim|]. intros num s1 [-> ->]. wsplit; bool_prop; [|by rstep].
  destruct (holders_quorum _ _ _ _ Hs Hr ltac:(done)) as (Q & HQ & Hm).
  unfold raft_set_commit_idx. do 6 rstep. rstep. rewrite (current_idx_sim Hs) in *. bool_prop.
  exists (set_a_commit (Z.to_nat point) a). split_and!; [|done|].
  - destruct Hs as [? [] [Hd Hv] [] []]. split; try done.
    + split; try done; cbn; lia.
    + split; [|done]. intros q n Hq. destruct (Hd q n Hq) as [? []]. split; [done|by split].
  - pose proof (ms_commit (sim_me Hs)). pose proof (ms_term (sim_me Hs)).
    apply rtc_once, (L_commit V i net a _ Q (app_entry (udata s.2) ety)); try done; [lia| |cbn; congruence].
    rewrite (ls_log (sim_log Hs)), list_lookup_fmap. replace (Z.to_nat point - 1)%nat with (Z.to_nat (point - 1)) by lia.
    by rewrite He.
Qed.

Lemma recv_appendentries_response_sim xs s a p (r : msg_appendentries_response_t) :
  sim xs [] s a → p ≠ i →
  (aer_success r ≠ 0 → 0 ≤ aer_current_idx r ∧ net p (MAck (aer_term r) (Z.to_nat (aer_current_idx r)))) →
  wlp (raft_recv_appendentries_response (Some p) r) (λ _ s', ∃ a', sim xs [] s' a' ∧ moves a a') s.
Proof.
  intros Hs Hpi Hack. assert (∃ a', sim xs [] s a' ∧ moves a a') as Hno by (by exists a).
  unfold raft_recv_appendentries_response. do 2 rstep. wsplit; [by rstep|].
  unfold raft_is_leader, raft_get_state in *. bool_prop. rewrite (ms_role (sim_me Hs)) in *.
  rewrite (ms_term (sim_me Hs)). wsplit; bool_prop.
  { eapply wq_mono; [by apply new_term_sim|]. intros e s1 [_ Hs1]. eexists. split; [exact Hs1|].
    apply rtc_once. by apply L_new_term. }
  wsplit; bool_prop; [by rstep|]. do 2 rstep. unfold raft_node_get_next_idx, raft_node_get_match_idx.
  destruct (sim_peer Hs ltac:(done)) as [Hpv Hn].
  assert (∀ s1 a1, sim xs [] s1 a1 → a_role a1 = RAFT_STATE_LEADER → moves a a1 →
    wlp (raft_send_appendentries p) (λ _ s', ∃ a', sim xs [] s' a' ∧ moves a a') s1) as Hsend.
  { intros s1 a1 Hs1 Hr1 Hm1.
    eapply wq_mono; [apply (refines_run V ids i cfg net _ _ _ (raft_send_appendentries p) _ _ Hs1); by apply sends_refl|].
    intros e s2 (a2 & ? & _ & ?). exists a2. split; [done|]. by etrans. }
  wsplit; bool_prop.
  - do 2 rstep. wsplit; [by rstep|]. rstep. eapply wq_mono; [by apply refuse_sim|]. intros [] s1 Hs1.
    rstep. eapply wq_mono; [by apply (Hsend s1 a)|]. intros e s2 ?. by rstep.
  - destruct (Hack ltac:(done)) as [Hcur Hnet]. do 5 rstep. pose proof (ps_voter Hn) as Hvo.
    unfold is_voter in Hvo. bool_prop. match goal with E : raft_node_is_voting n = true |- _ => rewrite E end.
    cbn [negb andb]. do 2 rstep. apply (wq_mono _ _ (λ _ s', s' = s)); [destruct (cb_node_has_sufficient_logs _); cbn [andb]; by rstep|].
    intros [] s1 ->. rewrite (current_idx_sim Hs). wsplit; [by rstep|]. do 4 rstep. rstep. rstep. bool_prop.
    match goal with E : heap (_, set_heap _ _).2 !! p = Some _ |- _ => cbn in E; rewrite lookup_insert_eq in E; injection E as <- end.
    set (a1 := set_a_match (λ j', if decide (j' = p) then Z.to_nat (aer_current_idx r) else a_match a j') a).
    rstep. match goal with |- wq _ _ _ ?s2 => assert (sim xs [] s2 a1) as Hs2 end.
    { eapply sim_same; [eapply (ack_sim _ _ _ p n _ (aer_current_idx r) Hs); [done|lia|done]|try done..].
      assert (n0 = n) as -> by congruence. cbn. by rewrite insert_insert_eq. }
    assert (moves a a1) as Hm1.
    { apply rtc_once, L_get_ack; [|done]. match goal with E : a_term a = _ |- _ => rewrite E end. done. }
    eapply wq_mono; [by apply commit_sim|]. intros [] s3 (a3 & Hs3 & Hr3 & Hm3). do 2 rstep. rstep.
    apply (wlp_read_only _). intros more _. destruct more; [|rstep; exists a3; split; [done|by etrans]].
    rstep. eapply wq_mono; [apply (Hsend s3 a3); [done..|by etrans]|]. intros e' s4 ?. by rstep.
Qed.
End replication.
