(* ===== verification/RaftRefineAppend.v ===== *)
(** * The simulation: append-entries requests

    The handler of an append-entries request, as an acceptance, a truncation or
    nothing; what it acknowledges, it has accepted. *)

From stdpp Require Import fin_sets.
From S2P Require Import Prelude RaftTypes RaftNode RaftLog RaftLogSpec RaftMembership RaftServer RaftFrame RaftElection RaftQuorum RaftProtocol RaftApp RaftRefine RaftRefineElection RaftRefineLog.

(** The value a successful access returns. *)
Ltac ok_eq := match goal with E : Ok _ = Ok _ |- _ => injection E as <- end.

Section accept.
Context {U C K : Type} `{App : RaftApp U C K} (V : gset positive) (ids : positive → Z) `{HV : !Cluster V ids} (i : positive) (Hi : i ∈ V) (cfg : K).
Context (net : positive → amsg (Z * Z * C) → Prop).
Implicit Types (s : raft U) (a : anode (Z * Z * C)) (xs : list raft_entry_data_t) (ae : msg_appendentries_t).
Abbreviation sim := (sim V ids i cfg).
Abbreviation moves := (rtc (lstep V i net)).

(** The request as it was sent, its payloads in memory. *)
Record ae_from (u : U) ae (j : positive) : Prop := {
  af_n : ae_n_entries ae = Z.of_nat (length (ae_entries ae));
  af_prev : 0 ≤ ae_prev_log_idx ae;
  af_commit : 0 ≤ ae_leader_commit ae;
  af_entries : Forall (entry_ok (ae_term ae)) (ae_entries ae);
  af_net : net j (MAppend (ae_term ae) (Z.to_nat (ae_prev_log_idx ae)) (ae_prev_log_term ae)
    (app_entry u <$> ae_entries ae) (Z.to_nat (ae_leader_commit ae)))
}.
Lemma ae_from_content u u' ae j : (∀ d, app_content u' d = app_content u d) → ae_from u ae j → ae_from u' ae j.
Proof. intros Hc []. split; try done. by rewrite (app_entries_content u u'). Qed.

Abbreviation prev ae := (Z.to_nat (ae_prev_log_idx ae)).

(** ** The checks *)
Lemma get_entry_sim xs late s a idx (Q : option raft_entry_t → raft U → Prop) :
  sim xs late s a → 1 ≤ idx → Q (log_list s.1 !! (Z.to_nat (idx - 1))) s → wlp (raft_get_entry_from_idx idx) Q s.
Proof.
  intros Hs Hidx HQ. unfold raft_get_entry_from_idx. do 2 rstep. rewrite (get_at_sim _ Hs).
  rewrite (proj2 (Z.ltb_lt _ _)) by lia. rstep. by simplify_eq.
Qed.

(** Cutting the log behind the commit index. *)
Lemma delete_sim xs s a idx :
  sim xs [] s a → a_role a = RAFT_STATE_FOLLOWER → 1 ≤ idx → (Z.to_nat (idx - 1) ≤ length (a_log a))%nat →
  wlp (raft_delete_entry_from_idx idx) (λ r s', r = 0 ∧ commit_idx (me s.2) < idx ∧
    (∀ d, app_content (udata s'.2) d = app_content (udata s.2) d) ∧
    log_list s'.1 = take (Z.to_nat (idx - 1)) (log_list s.1) ∧
    sim xs [] s' (set_a_log (take (Z.to_nat (idx - 1)) (a_log a)) a)) s.
Proof.
  intros Hs Hr Hidx Hlen. unfold raft_delete_entry_from_idx. do 5 rstep. bool_prop.
  eapply wq_mono with (P := λ _ s1, sim xs [] s1 a ∧ udata s1.2 = udata s.2 ∧ s1.1 = s.1).
  { wsplit; rstep; [|done]. split; [|done]. by apply sim_set_me. }
  intros [] s1 (Hs1 & Hu & Hl). destruct (sim_log Hs1) as [Hpl Hlog Hent].
  eapply wq_mono; [apply app_delete; [done|apply (sim_cb Hs1)| |done]|].
  { eapply Forall_impl; [exact Hent|]. by intros e []. }
  intros r s2 (-> & Heff & Hpl2 & Hlist & Hown). rewrite <- Hu, <- Hl. split; [done|]. split; [done|].
  split; [apply Heff|]. split; [done|].
  rewrite Hlog, <- fmap_take, <- Hlist. rewrite Hlog, length_fmap in Hlen.
  pose proof (ms_commit (sim_me Hs)).
  apply (sim_set_log V ids i cfg xs xs [] s1 s2 a (Z.to_nat (idx - 1)) []); try done.
  - by rewrite app_nil_r.
  - rewrite Hlog, length_fmap. lia.
  - congruence.
  - intros Ho. by apply Hown.
Qed.

Lemma sim_weaken xs ys s a : ys ⊆+ xs → sim xs [] s a → sim ys [] s a.
Proof.
  intros Hsub [? ? ? ? []]. split; try done. split; try done. intros Ho.
  eapply app_owns_sub; [|by apply us_owns]. by apply submseteq_skips_l.
Qed.

Lemma ae_term_sim xs s a ae j :
  sim xs [] s a → ae_from (udata s.2) ae j → (a_term a = ae_term ae → a_role a ≠ RAFT_STATE_LEADER) →
  wlp (if raft_is_candidate s && (current_term (me s.2) =? ae_term ae) then
         raft_become_follower ;; mret None
       else if current_term (me s.2) <? ae_term ae then
         e ← raft_set_current_term (ae_term ae);
         if negb (e =? 0) then mret (Some e) else raft_become_follower ;; mret None
       else if ae_term ae <? current_term (me s.2) then mret (Some 0)
       else mret None)
    (λ r s', match r with
     | Some e => s' = s
     | None => ∃ a', sim xs [] s' a' ∧ moves a a' ∧ a_term a' = ae_term ae ∧ a_role a' = RAFT_STATE_FOLLOWER ∧
                 ae_from (udata s'.2) ae j
     end) s.
Proof.
  intros Hs Hae Hlead. unfold raft_is_candidate, raft_get_state.
  rewrite (ms_term (sim_me Hs)), (ms_role (sim_me Hs)).
  assert (∀ s1 a1, sim xs [] s1 a1 → ae_from (udata s1.2) ae j → a_term a1 = ae_term ae →
    moves a (set_a_role RAFT_STATE_FOLLOWER a1) →
    wlp (raft_become_follower ;; mret None) (λ (r : option Z) s', match r with
     | Some e => s' = s
     | None => ∃ a', sim xs [] s' a' ∧ moves a a' ∧ a_term a' = ae_term ae ∧ a_role a' = RAFT_STATE_FOLLOWER ∧
                 ae_from (udata s'.2) ae j
     end) s1) as Hfollow.
  { intros s1 a1 Hs1 Hae1 Ht1 Hm1. rstep.
    eapply wq_mono; [apply (wq_and _ (λ _, True)); [by apply become_follower_sim|by apply become_follower_udata]|].
    intros [] s2 [Hs2 Hu]. rstep. eexists. split_and!; [exact Hs2|done|done|done|by rewrite Hu]. }
  wsplit; bool_prop.
  - apply (Hfollow s a); try done. apply rtc_once, L_step_down.
  - wsplit; bool_prop.
    + rstep. eapply wq_mono; [by apply set_current_term_sim|]. intros r s1 (-> & Hs1 & Hc). cbn [Z.eqb negb].
      apply (Hfollow s1 _ Hs1); [by eapply ae_from_content|done|]. apply rtc_once. by apply L_new_term.
    + wsplit; bool_prop; rstep; [done|]. exists a. assert (a_term a = ae_term ae) as Ht by lia.
      split_and!; try done. specialize (Hlead Ht). pose proof (ms_role_some (sim_me Hs)).
      apply andb_false_iff in Heqb as [?|?]; bool_prop; [|lia]. by destruct (a_role a).
Qed.

Lemma ae_check_sim xs s a p ae j :
  sim xs [] s a → ae_from (udata s.2) ae j → (a_term a = ae_term ae → a_role a ≠ RAFT_STATE_LEADER) →
  wlp (ae_check p ae) (λ r s',
    match r with
    | Some e => e = 0 → ∃ a', sim xs [] s' a' ∧ moves a a'
    | None => ∃ a', sim xs [] s' a' ∧ moves a a' ∧ a_term a' = ae_term ae ∧ a_role a' = RAFT_STATE_FOLLOWER ∧
                ae_from (udata s'.2) ae j ∧ prev_ok (a_log a') (prev ae) (ae_prev_log_term ae) ∧
                (prev ae ≤ length (a_log a'))%nat
    end) s.
Proof.
  intros Hs Hae Hlead. unfold ae_check. do 3 rstep. eapply wq_mono; [by eapply ae_term_sim|].
  intros [e|] s1; [intros ->; rstep; intros _; by exists a|]. intros (a1 & Hs1 & Hm1 & Ht1 & Hr1 & Hae1).
  do 4 rstep. match goal with |- wq _ _ _ ?x => set (s2 := x) end.
  assert (sim xs [] s2 a1) as Hs2 by (by eapply sim_same).
  change (udata s1.2) with (udata s2.2) in Hae1. clearbody s2. clear Hs1.
  destruct Hae1 as [Hn Hprev Hcom Hent Hnet] eqn:Eae; clear Eae.
  assert (ae_from (udata s2.2) ae j) as Hae2 by done. wsplit; bool_prop.
  2:{ rstep. exists a1. split_and!; try done; [left|]; lia. }
  rstep. eapply get_entry_sim; [done|lia|]. do 2 rstep. rewrite (proj1 (ms_snapshot (sim_me Hs2))).
  rewrite (proj2 (Z.eqb_neq _ _)) by lia. pose proof (log_length_sim _ _ _ _ _ _ _ _ Hs2) as Hlen.
  destruct (log_list s2.1 !! Z.to_nat (ae_prev_log_idx ae - 1)) as [ety|] eqn:He.
  2:{ rstep. intros _. by exists a1. }
  pose proof (lookup_lt_Some _ _ _ He) as Hlt.
  assert (a_log a1 !! (prev ae - 1)%nat = Some (app_entry (udata s2.2) ety)) as Halog.
  { rewrite (ls_log (sim_log Hs2)), list_lookup_fmap. replace (prev ae - 1)%nat with (Z.to_nat (ae_prev_log_idx ae - 1)) by lia.
    by rewrite He. }
  wsplit; bool_prop.
  - wsplit; bool_prop; [by rstep|]. rstep. eapply wq_mono; [apply delete_sim; [done..|lia|lia]|].
    intros r s3 (_ & Hc & _ & _ & Hs3). rstep. intros _. eexists. split; [exact Hs3|]. etrans; [exact Hm1|].
    replace (Z.to_nat (ae_prev_log_idx ae - 1)) with (prev ae - 1)%nat by lia. rewrite <- Ht1 in Hnet.
    rewrite (ms_commit (sim_me Hs2)) in Hc.
    apply rtc_once. eapply L_truncate; [exact Hnet|done|lia|exact Halog|done|lia].
  - rstep. exists a1. split_and!; try done; [|lia]. right. eauto.
Qed.

(** ** The two loops *)
Lemma set_log_eta a : set_a_log (a_log a) a = a.
Proof. by destruct a. Qed.
Abbreviation entries u ae := (app_entry u <$> ae_entries ae).

Definition matched xs s a ae (k : nat) (r : Z * Z * Z) s' : Prop :=
  r.1.1 = 0 → ∃ c l2, r.1.2 = Z.of_nat c ∧ (k ≤ c ≤ length (ae_entries ae))%nat ∧ r.2 = ae_prev_log_idx ae + Z.of_nat c ∧
    sim xs [] s' (set_a_log l2 a) ∧ (∀ d, app_content (udata s'.2) d = app_content (udata s.2) d) ∧
    same_terms (a_log a) (entries (udata s.2) ae) (prev ae) c ∧ (prev ae + c ≤ length (a_log a))%nat ∧
    (c = length (ae_entries ae) ∧ l2 = a_log a ∨
     parts_at (a_log a) (entries (udata s.2) ae) (prev ae) c ∧ (a_commit a ≤ prev ae + c)%nat ∧ l2 = take (prev ae + c) (a_log a)).

Lemma ae_match_sim xs s a ae n k :
  sim xs [] s a → 0 ≤ ae_prev_log_idx ae → a_role a = RAFT_STATE_FOLLOWER → (k + n)%nat = length (ae_entries ae) →
  same_terms (a_log a) (entries (udata s.2) ae) (prev ae) k → (prev ae + k ≤ length (a_log a))%nat →
  wlp (ae_match_loop ae n (Z.of_nat k) (ae_prev_log_idx ae + Z.of_nat k)) (matched xs s a ae k) s.
Proof.
  intros Hs Hprev Hr. pose proof (log_length_sim _ _ _ _ _ _ _ _ Hs) as Hlen.
  revert k. induction n as [|n IH]; intros k Hk Hsame Hin; cbn [ae_match_loop].
  { rstep. intros _. exists k, (a_log a). rewrite set_log_eta. split_and!; try done; try lia. left. split; [lia|done]. }
  rstep. destruct (arr_get_total (ae_entries ae) (Z.of_nat k)) as [ety Hety]; [lia|]. rewrite Hety. rstep. ok_eq.
  apply arr_get_Ok in Hety as [_ Hety]. rewrite Nat2Z.id in Hety. do 4 rstep. rstep.
  replace (ae_prev_log_idx ae + 1 + Z.of_nat k) with (ae_prev_log_idx ae + Z.of_nat (S k)) by lia.
  eapply get_entry_sim; [done|lia|].
  replace (Z.to_nat (ae_prev_log_idx ae + Z.of_nat (S k) - 1)) with (prev ae + k)%nat by lia.
  assert (entries (udata s.2) ae !! k = Some (app_entry (udata s.2) ety)) as Hek by (by rewrite list_lookup_fmap, Hety).
  assert (a_log a !! (prev ae + k)%nat = app_entry (udata s.2) <$> log_list s.1 !! (prev ae + k)%nat) as Hlk
    by (by rewrite (ls_log (sim_log Hs)), list_lookup_fmap).
  destruct (log_list s.1 !! (prev ae + k)%nat) as [x|] eqn:Hx; cbn in Hlk.
  - wsplit; bool_prop.
    + do 2 rstep. wsplit; [by rstep|]. unfold raft_get_commit_idx in *. bool_prop.
      pose proof (lookup_lt_Some _ _ _ Hx). rstep. eapply wq_mono; [apply delete_sim; [done..|lia|lia]|].
      intros r s1 (-> & Hc & Hcon & _ & Hs1). rstep. intros _.
      replace (Z.to_nat (ae_prev_log_idx ae + Z.of_nat (S k) - 1)) with (prev ae + k)%nat in Hs1 by lia.
      rewrite (ms_commit (sim_me Hs)) in Hc.
      eexists k, _. split_and!; [done|lia|lia|done|exact Hs1|exact Hcon|done|lia|]. right. split_and!; [|lia|done].
      eexists. split; [exact Hek|]. rewrite Hlk. intros y [= <-]. done.
    + pose proof (lookup_lt_Some _ _ _ Hx).
      replace (Z.of_nat k + 1) with (Z.of_nat (S k)) by lia.
      eapply wq_mono; [apply IH; [lia| |lia]|].
      * intros m Hm. destruct (decide (m = k)) as [->|]; [|apply Hsame; lia].
        exists (app_entry (udata s.2) x), (app_entry (udata s.2) ety). split_and!; done.
      * intros r s1 Hr1 Hz. destruct (Hr1 Hz) as (c & l2 & ? & ? & ?). exists c, l2. split; [done|]. split; [lia|done].
  - rstep. intros _. apply lookup_ge_None in Hx.
    exists k, (a_log a). rewrite set_log_eta. pose proof (ms_commit_len (sim_me Hs)).
    split_and!; try done; try lia. right. split_and!; [|lia|by rewrite take_ge by lia].
    eexists. split; [exact Hek|]. by rewrite Hlk.
Qed.

Lemma ae_append_sim s a ae n k :
  sim (ety_data <$> drop k (ae_entries ae)) [] s a → (k + n)%nat = length (ae_entries ae) →
  Forall (entry_ok (a_term a)) (ae_entries ae) →
  wlp (ae_append_loop ae n (Z.of_nat k) (ae_prev_log_idx ae + Z.of_nat k)) (λ r s', r.1 = 0 →
    sim [] [] s' (set_a_log (a_log a ++ (app_entry (udata s.2) <$> drop k (ae_entries ae))) a) ∧
    r.2 = ae_prev_log_idx ae + Z.of_nat (length (ae_entries ae)) ∧
    (∀ d, app_content (udata s'.2) d = app_content (udata s.2) d)) s.
Proof.
  revert s a k. induction n as [|n IH]; intros s a k Hs Hk Hent; cbn [ae_append_loop].
  { rstep. intros _. rewrite drop_ge in * by lia. rewrite app_nil_r, set_log_eta. split; [done|]. split; [cbn; lia|done]. }
  rstep. destruct (arr_get_total (ae_entries ae) (Z.of_nat k)) as [ety Hety]; [lia|]. rewrite Hety. rstep. ok_eq.
  apply arr_get_Ok in Hety as [_ Hety]. rewrite Nat2Z.id in Hety. rstep.
  assert (drop k (ae_entries ae) = ety :: drop (S k) (ae_entries ae)) as Hdrop by (by apply drop_S).
  rewrite Hdrop in Hs. cbn [fmap list_fmap] in Hs.
  eapply wq_mono; [apply append_sim; [exact Hs|by eapply Forall_lookup_1]|].
  intros r s1 Hs1. wsplit; bool_prop; [by rstep|]. subst r. destruct (Hs1 eq_refl) as [Hs1' Hcon]. do 4 rstep.
  replace (Z.of_nat k + 1) with (Z.of_nat (S k)) by lia.
  replace (ae_prev_log_idx ae + 1 + Z.of_nat k) with (ae_prev_log_idx ae + Z.of_nat (S k)) by lia.
  eapply wq_mono; [apply (IH s1 _ (S k) Hs1'); [lia|done]|].
  intros r s2 Hr2 Hz. destruct (Hr2 Hz) as (Hs2 & ? & Hcon2). split_and!; [|done|intros d; by rewrite Hcon2, Hcon].
  rewrite Hdrop. cbn. rewrite (app_entries_content (udata s.2) (udata s1.2)) in Hs2 by done.
  cbn in Hs2. rewrite <- app_assoc in Hs2. exact Hs2.
Qed.

(** ** The handler *)
Abbreviation payloads ae := (ety_data <$> ae_entries ae).

Lemma ae_commit_sim xs s a ae :
  sim xs [] s a → 0 ≤ ae_leader_commit ae →
  wlp (if raft_get_commit_idx s <? ae_leader_commit ae then
         let last_log_idx := Z.max (raft_get_current_idx s) 1 in
         raft_set_commit_idx (Z.min last_log_idx (ae_leader_commit ae))
       else mret tt)
    (λ _ s', ∃ k, sim xs [] s' (set_a_commit k a) ∧ (a_commit a ≤ k)%nat ∧
       (k = a_commit a ∨ (k ≤ Z.to_nat (ae_leader_commit ae))%nat)) s.
Proof.
  intros Hs Hlc. wsplit.
  - unfold raft_set_commit_idx. cbv zeta. do 6 rstep. rstep. rewrite (current_idx_sim Hs) in *. bool_prop.
    pose proof (ms_commit (sim_me Hs)).
    exists (Z.to_nat (Z.min (Z.max (Z.of_nat (length (a_log a))) 1) (ae_leader_commit ae))).
    split; [|lia]. destruct Hs as [? [] [Hd Hv] [] []]. split; try done.
    + split; try done; cbn; lia.
    + split; [|done]. intros q n Hq. destruct (Hd q n Hq) as [? []]. split; [done|by split].
  - rstep. exists (a_commit a). split_and!; [|done|by left]. by destruct a.
Qed.

Lemma ae_entries_step_sim s a ae j :
  sim (payloads ae) [] s a → ae_from (udata s.2) ae j → a_term a = ae_term ae → a_role a = RAFT_STATE_FOLLOWER →
  prev_ok (a_log a) (prev ae) (ae_prev_log_term ae) → (prev ae ≤ length (a_log a))%nat →
  wlp (ae_entries_step ae) (λ r s', r.1 = 0 → ∃ a', sim [] [] s' a' ∧ moves a a' ∧ a_term a' = ae_term ae ∧
    0 ≤ r.2 ∧ MAck (ae_term ae) (Z.to_nat r.2) ∈ a_sent a') s.
Proof.
  intros Hs [Hn Hprev Hlc Hent Hnet] Ht Hr Hpok Hlen. unfold ae_entries_step. rstep.
  pose proof (ae_match_sim (payloads ae) s a ae (Z.to_nat (ae_n_entries ae)) 0) as Hmatch.
  rewrite Nat2Z.inj_0, Z.add_0_r, Nat.add_0_r in Hmatch.
  eapply wq_mono; [apply Hmatch; [done..|lia| |lia]; intros m Hm; lia|].
  intros [[e ci] cur] s1 Hm1. unfold matched in Hm1. cbn [fst snd] in Hm1. wsplit; bool_prop; [by rstep|]. subst e.
  destruct (Hm1 eq_refl) as (c & l2 & -> & Hc & -> & Hs1 & Hcon1 & Hsame & Hin & Hl2). clear Hm1. rstep.
  eapply wq_mono; [apply (ae_append_sim s1 (set_a_log l2 a)); [|lia|cbn; by rewrite Ht]|].
  { eapply sim_weaken; [|exact Hs1]. rewrite fmap_drop. apply sublist_submseteq, sublist_drop. }
  intros [e cur] s2 Hm2. cbn [fst snd] in Hm2. wsplit; bool_prop; [by rstep|]. subst e.
  destruct (Hm2 eq_refl) as (Hs2 & -> & _). clear Hm2. do 2 rstep. rstep.
  eapply wq_mono; [by apply ae_commit_sim|]. intros [] s3 (k & Hs3 & Hk & Hkl). rstep. intros _. cbn [fst snd].
  rewrite (app_entries_content (udata s.2) (udata s1.2)), fmap_drop in Hs3 by done. cbn in Hs3, Hk, Hkl.
  replace (Z.to_nat (ae_prev_log_idx ae + Z.of_nat (length (ae_entries ae)))) with (prev ae + length (ae_entries ae))%nat by lia.
  rewrite <- Ht in *. set (es := entries (udata s.2) ae) in *. assert (length es = length (ae_entries ae)) as Hes by apply length_fmap.
  exists (set_a_sent (MAck (a_term a) (prev ae + length es) :: a_sent a)
        (set_a_acks ((a_term a, (prev ae + length es)%nat) :: a_acks a)
          (set_a_commit k (set_a_log (l2 ++ drop c es) a)))).
  split_and!; [| |done|lia|rewrite Hes; by left].
  - apply (sim_ext V ids i cfg _ _ _ _ _ Hs3); try done. by intros; right.
  - apply rtc_once, (L_accept V i net a j (prev ae) (ae_prev_log_term ae) es (Z.to_nat (ae_leader_commit ae)) c); try done.
    destruct Hl2 as [[-> ->]|(? & ? & ->)]; [left|by right].
    split; [done|]. by rewrite drop_ge, app_nil_r by lia.
Qed.

(** What it acknowledges, the server has accepted. *)
Lemma recv_appendentries_sim s a p ae j :
  sim (payloads ae) [] s a → ae_from (udata s.2) ae j → (a_term a = ae_term ae → a_role a ≠ RAFT_STATE_LEADER) →
  wlp (raft_recv_appendentries p ae) (λ r s', r.1 = 0 → ∃ a', sim [] [] s' a' ∧ moves a a' ∧
    (aer_success r.2 ≠ 0 → 0 ≤ aer_current_idx r.2 ∧
      MAck (aer_term r.2) (Z.to_nat (aer_current_idx r.2)) ∈ a_sent a')) s.
Proof.
  intros Hs Hae Hlead. unfold raft_recv_appendentries. rstep.
  eapply wq_mono; [by eapply ae_check_sim|]. intros [e|] s1 Hc.
  - rstep. rstep. do 4 rstep. cbn. intros He. destruct (Hc He) as (a1 & Hs1 & Hm1). exists a1.
    split_and!; try done. eapply sim_weaken; [|exact Hs1]. apply submseteq_nil_l.
  - destruct Hc as (a1 & Hs1 & Hm1 & Ht1 & Hr1 & Hae1 & Hpok & Hlen). do 2 rstep.
    eapply wq_mono; [by eapply ae_entries_step_sim|]. intros [e cur] s2 Hst. rstep. do 4 rstep. cbn [fst snd Z.eqb].
    intros He. destruct (Hst He) as (a2 & Hs2 & Hm2 & Ht2 & Hcur & Hack). exists a2.
    split_and!; [done|by etrans|]. intros _. cbn. by rewrite (ms_term (sim_me Hs2)), Ht2.
Qed.
End accept.
