(* ===== verification/SmrTypes.v ===== *)
(** * The replication application: data ([apps/smr/smr.h], [pmem_log.h], [apps_common.h])

    Requests and responses of the clients, the pools that hold the payloads of log
    entries and the tags of requests to peers, the log in persistent memory, and the
    context of a server, which is the user data of its Raft library.

    The application is compiled without assertions: with them [serialize] and [unpack]
    name variables that do not exist.  [rt_assert] stays; it throws, nothing catches it,
    and the process ends: [failed] records that a callback has thrown. *)

From S2P Require Import Prelude RaftTypes RaftNode RaftLog RaftMembership RaftServer.

(** ** Messages of clients *)
Definition kAppNumKeys : Z := 1048576.
Definition kAppValueSize : Z := 32.
Definition kAppRaftElectionTimeoutMsec : Z := 1000.

Abbreviation value_t := (list Z) (only parsing).
Record client_req_t : Type := mk_client_req { key : Z; value : value_t }.
#[global] Instance client_req_t_eq_dec : EqDecision client_req_t.
Proof. solve_decision. Defined.
Definition client_req_zero : client_req_t := mk_client_req 0 [0; 0; 0; 0].
(** [sizeof(client_req_t)]: the key and a value. *)
Definition client_req_size : Z := 8 + kAppValueSize.

Inductive ClientRespType : Type := kSuccess | kFailRedirect | kFailTryAgain.
#[global] Instance ClientRespType_eq_dec : EqDecision ClientRespType.
Proof. solve_decision. Defined.
(** [leader_node_id] is set when the client is redirected. *)
Record client_resp_t : Type := mk_client_resp { resp_type : ClientRespType; leader_node_id : option Z }.

(** ** Requests to peers

    A buffer, as the structs that are written to it one after the other; pointers in
    them are null. *)
Inductive ReqType : Type := kRequestVote | kAppendEntries | kClientReq.
#[global] Instance ReqType_eq_dec : EqDecision ReqType.
Proof. solve_decision. Defined.

Inductive cell : Type :=
| CRequestVote (node_id : Z) (msg_rv : msg_requestvote_t)
| CAppendEntries (node_id : Z) (msg_ae : msg_appendentries_t)
| CEntry (ety : raft_entry_t)
| CAppData (req : client_req_t).

(** ** Pools ([AppMemPool])

    [pool_] is the stack of free elements, the last first; an element is its address,
    and the elements below [pool_next] have been allocated from the system. *)
Record AppMemPool : Type := mk_pool {
  num_to_alloc_ : Z;
  pool_ : list Z;
  pool_next : Z
}.
Definition pool_new : AppMemPool := mk_pool 1024 [] 1.

Definition addresses (first n : Z) : list Z := (λ k, first + Z.of_nat k) <$> seq 0 (Z.to_nat n).
Definition mempool_extend (p : AppMemPool) : AppMemPool :=
  mk_pool (2 * num_to_alloc_ p mod 2 ^ 64)
    (reverse (addresses (pool_next p) (num_to_alloc_ p)) ++ pool_ p) (pool_next p + num_to_alloc_ p).
Definition mempool_alloc (p : AppMemPool) : outcome (Z * AppMemPool) :=
  let p := match pool_ p with [] => mempool_extend p | _ => p end in
  match pool_ p with
  | [] => Fault UndefinedBehaviour
  | t :: ts => Ok (t, mk_pool (num_to_alloc_ p) ts (pool_next p))
  end.
Definition mempool_free (t : Z) (p : AppMemPool) : AppMemPool :=
  mk_pool (num_to_alloc_ p) (t :: pool_ p) (pool_next p).

(** ** The log in persistent memory ([PmemLog])

    The slots of the file, and the volatile and the persistent metadata. *)
Record PmemLog (T : Type) : Type := mk_pmem_log {
  pm_slots : gmap Z T;
  v_num_entries : Z;
  p_term : Z;
  p_voted_for : Z;
  p_num_entries : Z
}.
Arguments mk_pmem_log {T}.
Arguments pm_slots {T} _.
Arguments v_num_entries {T} _.
Arguments p_term {T} _.
Arguments p_voted_for {T} _.
Arguments p_num_entries {T} _.

Section pmem.
Context {T : Type}.
Implicit Types l : PmemLog T.

Definition pmem_append (entry : T) (l : PmemLog T) : PmemLog T :=
  mk_pmem_log (<[v_num_entries l := entry]> (pm_slots l)) (v_num_entries l + 1) (p_term l) (p_voted_for l)
    (v_num_entries l + 1).
Definition pmem_truncate (n : Z) (l : PmemLog T) : PmemLog T :=
  mk_pmem_log (pm_slots l) n (p_term l) (p_voted_for l) n.
Definition pmem_pop (l : PmemLog T) : PmemLog T := pmem_truncate (v_num_entries l - 1) l.
Definition get_num_entries (l : PmemLog T) : Z := v_num_entries l.
Definition persist_vote (voted_for : Z) (l : PmemLog T) : PmemLog T :=
  mk_pmem_log (pm_slots l) (v_num_entries l) (p_term l) voted_for (p_num_entries l).
Definition persist_term (term voted_for : Z) (l : PmemLog T) : outcome (PmemLog T) :=
  if term <? INT_MAX then
    Ok (mk_pmem_log (pm_slots l) (v_num_entries l) (term mod 2 ^ 32) voted_for (p_num_entries l))
  else Fault AssertFailed.
(** The metadata is reset and a first entry, which is never read, is appended. *)
Definition pmem_log_new (garbage : T) : PmemLog T := pmem_append garbage (mk_pmem_log ∅ 0 0 0 0).
End pmem.

(** ** The context of a server *)

(** A connection of [conn_vec]; [session_num] is -1 until the session is created. *)
Record connection_t : Type := mk_connection {
  disconnected : bool;
  session_num : Z;
  session_idx : Z
}.
(** [&c->conn_vec[i]], and the index from an address; a null pointer is 0. *)
Definition conn_ptr (i : nat) : Z := Z.of_nat i + 1.

(** A handle identifies the request of an RPC: of a server, by its number there, or of a client. *)
Inductive req_handle_t : Type :=
| FromServer (j : positive) (rq : nat)
| FromClient (c n : nat).
#[global] Instance req_handle_t_eq_dec : EqDecision req_handle_t.
Proof. solve_decision. Defined.
#[global] Instance req_handle_t_countable : Countable req_handle_t.
Proof.
  refine (inj_countable' (λ h, match h with FromServer j n => inl (j, n) | FromClient c n => inr (c, n) end)
    (λ x, match x with inl (j, n) => FromServer j n | inr (c, n) => FromClient c n end) _).
  by intros [].
Defined.

Record leader_saveinfo_t : Type := mk_saveinfo {
  in_use : bool;
  req_handle : option req_handle_t;
  msg_entry_response : msg_entry_response_t
}.

(** The part of the tag that is read again: the peer. *)
Record raft_req_tag_t : Type := mk_tag { tag_node : raft_node_t }.

(** A call of [enqueue_request]: it stays a request in progress until its continuation runs. *)
Record request_t : Type := mk_request {
  rq_session : Z;
  rq_type : ReqType;
  rq_msg : list cell;
  rq_tag : Z
}.
(** What the context uses of its [Rpc]: which sessions are connected, the requests so
    far in order, and the numbers of those in progress. *)
Record rpc_t : Type := mk_rpc {
  connected_sessions : gset Z;
  requests : list request_t;
  in_progress : gset nat
}.

Record AppContext : Type := mk_context {
  node_id : Z;
  raft_periodic_tsc : Z;
  cycles_per_msec : Z;
  leader_saveinfo : leader_saveinfo_t;
  log_entry_appdata_pool : AppMemPool;
  appdata : gmap Z client_req_t;
  pmem_log : PmemLog (raft_entry_t * client_req_t);
  raft_req_tag_pool : AppMemPool;
  tags : gmap Z raft_req_tag_t;
  kv_table : gmap Z value_t;
  conn_vec : list connection_t;
  rpc : rpc_t;
  failed : option fault
}.

Definition context_eta (c : AppContext) : AppContext :=
  mk_context (node_id c) (raft_periodic_tsc c) (cycles_per_msec c) (leader_saveinfo c) (log_entry_appdata_pool c)
    (appdata c) (pmem_log c) (raft_req_tag_pool c) (tags c) (kv_table c) (conn_vec c) (rpc c) (failed c).
Definition set_node_id : Z → AppContext → AppContext := ltac:(field_update context_eta node_id).
Definition set_raft_periodic_tsc : Z → AppContext → AppContext := ltac:(field_update context_eta raft_periodic_tsc).
Definition set_cycles_per_msec : Z → AppContext → AppContext := ltac:(field_update context_eta cycles_per_msec).
Definition set_leader_saveinfo : leader_saveinfo_t → AppContext → AppContext := ltac:(field_update context_eta leader_saveinfo).
Definition set_log_entry_appdata_pool : AppMemPool → AppContext → AppContext := ltac:(field_update context_eta log_entry_appdata_pool).
Definition set_appdata : gmap Z client_req_t → AppContext → AppContext := ltac:(field_update context_eta appdata).
Definition set_pmem_log : PmemLog (raft_entry_t * client_req_t) → AppContext → AppContext := ltac:(field_update context_eta pmem_log).
Definition set_raft_req_tag_pool : AppMemPool → AppContext → AppContext := ltac:(field_update context_eta raft_req_tag_pool).
Definition set_tags : gmap Z raft_req_tag_t → AppContext → AppContext := ltac:(field_update context_eta tags).
Definition set_kv_table : gmap Z value_t → AppContext → AppContext := ltac:(field_update context_eta kv_table).
Definition set_conn_vec : list connection_t → AppContext → AppContext := ltac:(field_update context_eta conn_vec).
Definition set_rpc : rpc_t → AppContext → AppContext := ltac:(field_update context_eta rpc).
Definition set_failure : option fault → AppContext → AppContext := ltac:(field_update context_eta failed).

(** ** Pools hand out each element once *)
Record pool_ok (p : AppMemPool) : Prop := {
  po_nodup : NoDup (pool_ p);
  po_range t : t ∈ pool_ p → 0 < t < pool_next p;
  po_num : 0 ≤ num_to_alloc_ p;
  po_next : 0 < pool_next p
}.

Lemma pool_new_ok : pool_ok pool_new.
Proof. split; cbn; try lia; [constructor|set_solver]. Qed.

Lemma elem_of_addresses t first n : t ∈ addresses first n ↔ first ≤ t < first + n.
Proof.
  unfold addresses. rewrite list_elem_of_fmap. split.
  - intros (k & -> & Hk%elem_of_seq). lia.
  - intros Ht. exists (Z.to_nat (t - first)). split; [lia|]. apply elem_of_seq. lia.
Qed.
Lemma mempool_extend_ok p : pool_ok p → pool_ok (mempool_extend p).
Proof.
  intros [Hnd Hr Hn Hx]. split; cbn [mempool_extend pool_ pool_next num_to_alloc_]; try lia.
  - apply NoDup_app. split_and!; [|intros t; rewrite elem_of_reverse, elem_of_addresses; intros ? ?%Hr; lia|done].
    rewrite reverse_Permutation. apply NoDup_fmap_2; [intros ???; lia|apply NoDup_seq].
  - intros t. rewrite elem_of_app, elem_of_reverse, elem_of_addresses. intros [?|?%Hr]; lia.
  - by apply Z.mod_pos_bound.
Qed.

(** A new element is free no longer, and no other becomes free. *)
Lemma mempool_alloc_spec p t p' :
  pool_ok p → mempool_alloc p = Ok (t, p') →
  pool_ok p' ∧ 0 < t < pool_next p' ∧ pool_next p ≤ pool_next p' ∧ t ∉ pool_ p' ∧
  (t ∈ pool_ p ∨ pool_next p ≤ t) ∧ (∀ x, x ∈ pool_ p' → x ∈ pool_ p ∨ pool_next p ≤ x).
Proof.
  intros Hok. unfold mempool_alloc.
  set (q := match pool_ p with [] => mempool_extend p | _ => p end).
  assert (pool_ok q ∧ pool_next p ≤ pool_next q ∧ (∀ x, x ∈ pool_ q → x ∈ pool_ p ∨ pool_next p ≤ x)) as (Hq & Hle & Hin).
  { unfold q. destruct (pool_ p) eqn:Ep; [|split; [done|]; split; [lia|]; intros x; rewrite Ep; auto].
    split; [by apply mempool_extend_ok|]. pose proof (po_num p Hok). cbn. split; [lia|].
    intros x. rewrite elem_of_app, elem_of_reverse, elem_of_addresses, Ep. intros [?|?]; [right; lia|by left]. }
  clearbody q. destruct q as [n [|t' ts] nx]; cbn; [done|]. intros [= -> <-]. cbn in *.
  destruct Hq as [[Ht Hnd]%NoDup_cons Hr ? ?]; cbn in *.
  split; [split; cbn; try done; intros; apply Hr; by right|].
  split; [apply Hr; by left|]. split_and!; [done|done|apply Hin; by left|]. intros x Hx. apply Hin. by right.
Qed.

Lemma mempool_free_ok t p : pool_ok p → 0 < t < pool_next p → t ∉ pool_ p → pool_ok (mempool_free t p).
Proof. intros [] Ht Hin. split; cbn; try done; [by constructor|]. intros x [->|?]%elem_of_cons; auto. Qed.
