(* ===== verification/SmrServer.v ===== *)
(** * The replication application: servers

    The callbacks the Raft library gets ([log_callbacks.h], and the sending callbacks
    of [requestvote.h] and [appendentries.h]), the serialization of append-entries
    requests, the handlers and continuations of the RPCs, the start of a server and the
    parts of its main loop ([server.h]).

    A callback is a computation over the context; the library does not see it throw
    ([as_callback]), but the handler that called the library ends there ([raft_call]). *)

From S2P Require Import Prelude RaftTypes RaftNode RaftLog RaftMembership RaftServer SmrTypes.

(** ** The context in a computation of the server *)
Definition rt_assert {S} (b : bool) : M S unit := if b then mret tt else throw AssertFailed.
Definition on_context {A} (m : M AppContext A) : M (raft AppContext) A := λ s,
  match m (udata s.2) with
  | Ok (a, c) => Ok (a, (s.1, set_udata c s.2))
  | Fault f => Fault f
  end.
Definition as_callback (m : M AppContext Z) (c : AppContext) : Z * AppContext :=
  match m c with Ok r => r | Fault f => (0, set_failure (Some f) c) end.
Definition raft_call {A} (m : M (raft AppContext) A) : M (raft AppContext) A :=
  a ← m;
  s ← get;
  match failed (udata s.2) with Some f => throw f | None => mret a end.

(** ** Memory of the pools *)
Definition appdata_alloc (req : client_req_t) : M AppContext Z :=
  c ← get;
  r ← lift (mempool_alloc (log_entry_appdata_pool c));
  modify (λ c, set_appdata (<[r.1 := req]> (appdata c)) (set_log_entry_appdata_pool r.2 c)) ;;
  mret r.1.
Definition appdata_free (buf : Z) : M AppContext unit :=
  modify (λ c, set_log_entry_appdata_pool (mempool_free buf (log_entry_appdata_pool c)) c).
Definition appdata_get (buf : Z) : M AppContext client_req_t :=
  c ← get; match appdata c !! buf with Some r => mret r | None => throw UndefinedBehaviour end.
Definition tag_alloc (t : raft_req_tag_t) : M AppContext Z :=
  c ← get;
  r ← lift (mempool_alloc (raft_req_tag_pool c));
  modify (λ c, set_tags (<[r.1 := t]> (tags c)) (set_raft_req_tag_pool r.2 c)) ;;
  mret r.1.
Definition tag_free (tag : Z) : M AppContext unit :=
  modify (λ c, set_raft_req_tag_pool (mempool_free tag (raft_req_tag_pool c)) c).
Definition tag_get (tag : Z) : M AppContext raft_req_tag_t :=
  c ← get; match tags c !! tag with Some t => mret t | None => throw UndefinedBehaviour end.

(** ** Sending *)
Definition rpc_is_connected (session : Z) (c : AppContext) : bool := bool_decide (session ∈ connected_sessions (rpc c)).
Definition rpc_enqueue_request (session : Z) (t : ReqType) (msg : list cell) (tag : Z) : M AppContext unit :=
  modify (λ c, set_rpc (mk_rpc (connected_sessions (rpc c)) (requests (rpc c) ++ [mk_request session t msg tag])
    ({[length (requests (rpc c))]} ∪ in_progress (rpc c))) c).

(** [static_cast<connection_t *>(raft_node_get_udata(node))], dereferenced. *)
Definition conn_of (v : raft_view) (node : raft_node_t) : M AppContext connection_t :=
  n ← (match v_heap v !! node with Some n => mret n | None => throw UndefinedBehaviour end : M AppContext _);
  c ← get;
  lift (arr_get (conn_vec c) (raft_node_get_udata n - 1)).

Definition smr_raft_send_requestvote_cb (v : raft_view) (node : raft_node_t) (msg_rv : msg_requestvote_t) : M AppContext Z :=
  conn ← conn_of v node;
  c ← get;
  if negb (rpc_is_connected (session_num conn) c) then mret 0
  else
    rrt ← tag_alloc (mk_tag node);
    rpc_enqueue_request (session_num conn) kRequestVote [CRequestVote (node_id c) msg_rv] rrt ;;
    mret 0.

(** [app_appendentries_t::serialize]: the header, then each entry with its payload. *)
Fixpoint serialize_entries (n : nat) (entries : list raft_entry_t) : M AppContext (list cell) :=
  match n, entries with
  | O, _ => mret []
  | S n, [] => throw UndefinedBehaviour
  | S n, e :: entries =>
      req ← appdata_get (buf (ety_data e));
      rest ← serialize_entries n entries;
      mret (CEntry (set_ety_data (mk_data 0 (len (ety_data e))) e) :: CAppData req :: rest)
  end.
Definition set_ae_entries (es : list raft_entry_t) (ae : msg_appendentries_t) : msg_appendentries_t :=
  mk_appendentries (ae_term ae) (ae_prev_log_idx ae) (ae_prev_log_term ae) (ae_leader_commit ae) (ae_n_entries ae) es.
Definition ae_serialize (node_id : Z) (msg_ae : msg_appendentries_t) : M AppContext (list cell) :=
  rest ← serialize_entries (Z.to_nat (ae_n_entries msg_ae)) (ae_entries msg_ae);
  mret (CAppendEntries node_id (set_ae_entries [] msg_ae) :: rest).

(** [sizeof] of the header and of an entry. *)
Definition app_appendentries_size : Z := 56.
Definition msg_entry_size : Z := 32.
Definition ae_req_size (n_entries : Z) : Z := app_appendentries_size + n_entries * (msg_entry_size + client_req_size).

(** What the stack holds at [raft_funcs.log_clear] when [set_raft_callbacks] starts, which
    does not assign this field. *)
Class StackGarbage : Type := garbage_log_clear : option (func_logentry_event_f AppContext).

Section server.
Context `{Garbage : StackGarbage}.
(** Build options: whether the Raft log is also kept in persistent memory, and the
    largest message of the transport; the Raft id of a process is a hash of its name. *)
Context (kUsePmem : bool) (max_msg_size : Z) (get_raft_node_id_for_process : nat → Z).

Definition smr_raft_send_appendentries_cb (v : raft_view) (node : raft_node_t) (msg_ae : msg_appendentries_t) : M AppContext Z :=
  conn ← conn_of v node;
  c ← get;
  if negb (rpc_is_connected (session_num conn) c) then mret 0
  else
    rt_assert (ae_req_size (ae_n_entries msg_ae) <=? max_msg_size) ;;
    rrt ← tag_alloc (mk_tag node);
    msg ← ae_serialize (node_id c) msg_ae;
    rpc_enqueue_request (session_num conn) kAppendEntries msg rrt ;;
    mret 0.

(** ** The other callbacks *)
Definition smr_raft_send_snapshot_cb : M AppContext Z := rt_assert false ;; mret (-1).
Definition smr_raft_log_offer_cb (ety : raft_entry_t) (entry_idx : raft_index_t) : M AppContext Z :=
  if kUsePmem then
    c ← get;
    rt_assert (entry_idx =? get_num_entries (pmem_log c)) ;;
    req ← appdata_get (buf (ety_data ety));
    modify (λ c, set_pmem_log (pmem_append (ety, req) (pmem_log c)) c) ;;
    mret 0
  else mret 0.

(** [unordered_map::insert] keeps the value of a key that is there. *)
Definition table_insert (req : client_req_t) (t : gmap Z value_t) : gmap Z value_t :=
  match t !! key req with Some _ => t | None => <[key req := value req]> t end.
Definition smr_raft_applylog_cb (ety : raft_entry_t) : M AppContext Z :=
  client_req ← appdata_get (buf (ety_data ety));
  modify (λ c, set_kv_table (table_insert client_req (kv_table c)) c) ;;
  mret 0.
Definition smr_raft_persist_vote_cb (voted_for : raft_node_id_t) : M AppContext Z :=
  if kUsePmem then modify (λ c, set_pmem_log (persist_vote voted_for (pmem_log c)) c) ;; mret 0 else mret 0.
Definition smr_raft_persist_term_cb (term : raft_term_t) (voted_for : raft_node_id_t) : M AppContext Z :=
  rt_assert (term <? INT_MAX) ;;
  if kUsePmem then
    c ← get;
    l ← lift (persist_term term voted_for (pmem_log c));
    modify (set_pmem_log l) ;;
    mret 0
  else mret 0.
Definition smr_raft_log_poll_cb : M AppContext Z := rt_assert false ;; mret (-1).
(** A payload of another size came from [malloc]. *)
Definition smr_raft_log_pop_cb (ety : raft_entry_t) : M AppContext Z :=
  (if kUsePmem then modify (λ c, set_pmem_log (pmem_pop (pmem_log c)) c) else mret tt) ;;
  (if len (ety_data ety) =? client_req_size then appdata_free (buf (ety_data ety)) else mret tt) ;;
  mret 0.
Definition smr_raft_log_get_node_id_cb : M AppContext Z := rt_assert false ;; mret (-1).
Definition smr_raft_node_has_sufficient_logs_cb : M AppContext Z := mret 0.

Definition keep_data (ety : raft_entry_t) (r : Z * AppContext) : Z * raft_entry_data_t * AppContext := (r.1, ety_data ety, r.2).

(** [set_raft_callbacks]; the membership callback only prints. *)
Definition raft_funcs : raft_cbs_t AppContext :=
  mk_cbs
    (Some (λ v c node msg, as_callback (smr_raft_send_requestvote_cb v node msg) c))
    (Some (λ v c node msg, as_callback (smr_raft_send_appendentries_cb v node msg) c))
    (Some (λ _ c _, as_callback smr_raft_send_snapshot_cb c))
    (Some (λ _ c ety _, as_callback (smr_raft_applylog_cb ety) c))
    (Some (λ _ c voted_for, as_callback (smr_raft_persist_vote_cb voted_for) c))
    (Some (λ _ c term voted_for, as_callback (smr_raft_persist_term_cb term voted_for) c))
    (Some (λ _ c ety idx, keep_data ety (as_callback (smr_raft_log_offer_cb ety idx) c)))
    (Some (λ _ c ety _, keep_data ety (as_callback smr_raft_log_poll_cb c)))
    (Some (λ _ c ety _, keep_data ety (as_callback (smr_raft_log_pop_cb ety) c)))
    garbage_log_clear
    (Some (λ _ c _ _, as_callback smr_raft_log_get_node_id_cb c))
    (Some (λ _ c _, as_callback smr_raft_node_has_sufficient_logs_cb c))
    (Some (λ _ c _ _ _, c)).

(** ** Handlers of the requests of peers *)
Definition requestvote_handler (req : list cell) : M (raft AppContext) msg_requestvote_response_t :=
  match req with
  | CRequestVote node_id msg_rv :: _ =>
      node ← raft_get_node node_id;
      r ← raft_call (raft_recv_requestvote node msg_rv);
      rt_assert (r.1 =? 0) ;;
      mret r.2
  | _ => throw UndefinedBehaviour
  end.

(** [app_appendentries_t::unpack]: each payload is copied to memory of the pool. *)
Fixpoint unpack_entries (n : nat) (buf : list cell) : M AppContext (list raft_entry_t) :=
  match n with
  | O => mret []
  | S n =>
      match buf with
      | CEntry e :: CAppData req :: buf =>
          p ← appdata_alloc req;
          rest ← unpack_entries n buf;
          mret (set_ety_data (mk_data p (len (ety_data e))) e :: rest)
      | _ => throw UndefinedBehaviour
      end
  end.
Definition unpack (req : list cell) : M AppContext (Z * msg_appendentries_t) :=
  match req with
  | CAppendEntries node_id msg_ae :: buf =>
      es ← unpack_entries (Z.to_nat (ae_n_entries msg_ae)) buf;
      mret (node_id, set_ae_entries es msg_ae)
  | _ => throw UndefinedBehaviour
  end.

Definition appendentries_handler (req : list cell) : M (raft AppContext) msg_appendentries_response_t :=
  ae_req ← on_context (unpack req);
  node ← raft_get_node ae_req.1;
  r ← raft_call (raft_recv_appendentries node ae_req.2);
  rt_assert (r.1 =? 0) ;;
  mret r.2.

(** ** Continuations; an empty response is a failed RPC *)
Definition requestvote_cont (tag : Z) (resp : option msg_requestvote_response_t) : M (raft AppContext) unit :=
  rrt ← on_context (tag_get tag);
  match resp with
  | Some msg_rv_resp =>
      e ← raft_call (raft_recv_requestvote_response (Some (tag_node rrt)) msg_rv_resp);
      rt_assert (e =? 0)
  | None => mret tt
  end.
Definition appendentries_cont (tag : Z) (resp : option msg_appendentries_response_t) : M (raft AppContext) unit :=
  rrt ← on_context (tag_get tag);
  match resp with
  | Some msg_ae_resp =>
      e ← raft_call (raft_recv_appendentries_response (Some (tag_node rrt)) msg_ae_resp);
      rt_assert ((e =? 0) || (e =? RAFT_ERR_NOT_LEADER))
  | None => mret tt
  end ;;
  on_context (tag_free tag).

(** ** Clients' requests; the responses enqueued are returned *)
Definition client_req_handler (process_id : Z) (handle : req_handle_t) (client_req : client_req_t) :
    M (raft AppContext) (list (req_handle_t * client_resp_t)) :=
  s ← get;
  match raft_get_current_leader_node s with
  | None => mret [(handle, mk_client_resp kFailTryAgain None)]
  | Some leader =>
      n ← deref leader;
      let leader_node_id := raft_node_get_id n in
      if negb (leader_node_id =? node_id (udata s.2)) then
        mret [(handle, mk_client_resp kFailRedirect (Some leader_node_id))]
      else
        on_context (modify (λ c, set_leader_saveinfo
          (mk_saveinfo true (Some handle) (msg_entry_response (leader_saveinfo c))) c)) ;;
        log_entry_appdata ← on_context (appdata_alloc client_req);
        let ent := mk_entry 0 process_id RAFT_LOGTYPE_NORMAL (mk_data log_entry_appdata client_req_size) in
        s ← get;
        r ← raft_call (raft_recv_entry ent (msg_entry_response (leader_saveinfo (udata s.2))));
        on_context (modify (λ c, set_leader_saveinfo
          (mk_saveinfo (in_use (leader_saveinfo c)) (req_handle (leader_saveinfo c)) r.2) c)) ;;
        rt_assert (r.1.1 =? 0) ;;
        mret []
  end.

(** ** The main loop

    [call_raft_periodic] at the reading [cur_tsc] of the time stamp counter, and what
    follows the event loop: the test whether the entry of the client has been committed. *)
Definition call_raft_periodic (cur_tsc : Z) : M (raft AppContext) unit :=
  s ← get;
  let c := udata s.2 in
  if cycles_per_msec c =? 0 then throw UndefinedBehaviour
  else
    let msec_elapsed := ((cur_tsc - raft_periodic_tsc c) mod 2 ^ 64) / cycles_per_msec c in
    (if 0 <? msec_elapsed then
       on_context (modify (set_raft_periodic_tsc cur_tsc)) ;;
       _ ← raft_call (raft_periodic (to_int msec_elapsed)); mret tt
     else _ ← raft_call (raft_periodic 0); mret tt).

Definition check_commit : M (raft AppContext) (list (req_handle_t * client_resp_t)) :=
  s ← get;
  let leader_sav := leader_saveinfo (udata s.2) in
  if negb (in_use leader_sav) then mret []
  else
    commit_status ← raft_msg_entry_response_committed (msg_entry_response leader_sav);
    if commit_status =? 1 then
      _ ← raft_call raft_apply_all;
      on_context (modify (λ c, set_leader_saveinfo
        (mk_saveinfo false (req_handle (leader_saveinfo c)) (msg_entry_response (leader_saveinfo c))) c)) ;;
      match req_handle leader_sav with
      | Some handle => mret [(handle, mk_client_resp kSuccess None)]
      | None => throw UndefinedBehaviour
      end
    else mret [].

(** ** Session management events ([sm_handler])

    Other events than these two throw. *)
Inductive sm_event_t : Type := kConnected | kDisconnected | OtherEvent.
Definition smr_sm_handler (session : Z) (ev : sm_event_t) : M AppContext unit :=
  rt_assert (match ev with OtherEvent => false | _ => true end) ;;
  c ← get;
  match list_find (λ conn, session_num conn = session) (reverse (conn_vec c)) with
  | None => throw AssertFailed
  | Some (i, conn) =>
      match ev with
      | kDisconnected =>
          modify (set_conn_vec (alter (λ conn, mk_connection true (session_num conn) (session_idx conn))
            (length (conn_vec c) - 1 - i)%nat (conn_vec c)))
      | _ => mret tt
      end
  end.

(** ** The start of a server

    [sessions] are the numbers that [create_session] returns, one for each server. *)
Definition connections (num_raft_servers process_id : nat) (sessions : nat → Z) : list connection_t :=
  (λ i, if bool_decide (i = process_id) then mk_connection false (-1) (2 ^ 64 - 1)
        else mk_connection false (sessions i) (Z.of_nat i)) <$> seq 0 num_raft_servers.
Definition no_entry_response : msg_entry_response_t := mk_entry_response 0 0 0.
Definition context_new (num_raft_servers process_id : nat) (sessions : nat → Z) : AppContext :=
  mk_context (-1) 0 0 (mk_saveinfo false None no_entry_response) pool_new ∅ (pmem_log_new (entry_zero, client_req_zero))
    pool_new ∅ ∅ (connections num_raft_servers process_id sessions) (mk_rpc ∅ [] ∅) None.

Definition add_servers (num_raft_servers process_id : nat) : M (raft AppContext) unit :=
  for_each (seq 0 num_raft_servers) (λ i,
    if bool_decide (i = process_id) then
      s ← get; _ ← raft_add_node 0 (node_id (udata s.2)) true; mret tt
    else _ ← raft_add_node (conn_ptr i) (get_raft_node_id_for_process i) false; mret tt).

(** The pointer [raft_new] returns is used before it is tested. *)
Definition init_server (num_raft_servers process_id : nat) (cycles tsc : Z) : M (raft AppContext) unit :=
  raft_set_election_timeout kAppRaftElectionTimeoutMsec ;;
  on_context (modify (set_node_id (get_raft_node_id_for_process process_id))) ;;
  s ← get;
  raft_set_callbacks raft_funcs (udata s.2) ;;
  add_servers num_raft_servers process_id ;;
  on_context (modify (λ c, set_raft_periodic_tsc tsc (set_cycles_per_msec cycles c))).
Definition init_raft (num_raft_servers process_id : nat) (r : random) (a : allocator) (cycles tsc : Z)
    (c : AppContext) : outcome (raft AppContext) :=
  created ← raft_new r a c;
  match created with
  | None => Fault UndefinedBehaviour
  | Some s => r ← init_server num_raft_servers process_id cycles tsc s; Ok r.2
  end.
End server.
