(* ===== verification/SmrApp.v ===== *)
(** * The replication application keeps the library's contract

    The callbacks of [SmrServer] are an instance of [RaftApp]: payloads are elements of
    the pool that are not free, the state machine is the table, what the server has
    sent is read back from the buffers of its requests.  The application's own
    invariant: a request in progress has a tag of its own, which names the peer at the
    other end of the session. *)

From S2P Require Import Prelude RaftTypes RaftNode RaftLog RaftMembership RaftServer RaftApp SmrTypes SmrServer.

(** ** What a buffer says *)
Abbreviation app_entry_smr := (Z * (Z * Z * client_req_t))%type.
Fixpoint decode_entries (n : nat) (cells : list cell) : option (list app_entry_smr) :=
  match n with
  | O => Some []
  | S n =>
      match cells with
      | CEntry e :: CAppData req :: cells =>
          es ← decode_entries n cells; Some ((ety_term e, (ety_id e, ety_type e, req)) :: es)
      | _ => None
      end
  end.
Definition request_of (msg : list cell) : option (raft_request client_req_t) :=
  match msg with
  | CRequestVote _ rv :: _ => Some (RequestVote rv)
  | CAppendEntries _ ae :: cells =>
      AppendEntries (ae_term ae) (ae_prev_log_idx ae) (ae_prev_log_term ae) (ae_leader_commit ae) <$>
        decode_entries (Z.to_nat (ae_n_entries ae)) cells
  | _ => None
  end.
Definition sent (c : AppContext) : list (raft_request client_req_t) := omap (λ rq, request_of (rq_msg rq)) (requests (rpc c)).

(** ** The state machine *)
Definition replay (es : list app_entry_smr) : gmap Z value_t := foldl (λ t e, table_insert e.2.2 t) ∅ es.

(** ** Payloads *)
Definition payload (c : AppContext) (d : raft_entry_data_t) : client_req_t := default client_req_zero (appdata c !! buf d).
Definition owns (c : AppContext) (ds : list raft_entry_data_t) : Prop :=
  pool_ok (log_entry_appdata_pool c) ∧ NoDup (buf <$> ds) ∧
  ∀ d, d ∈ ds → len d = client_req_size ∧ 0 < buf d < pool_next (log_entry_appdata_pool c) ∧
    buf d ∉ pool_ (log_entry_appdata_pool c).

(** ** The application's invariant *)
Record smr_cfg : Type := mk_cfg {
  c_uds : positive → Z;
  c_sessions : list Z;
  c_node_id : Z;
  c_saveinfo : leader_saveinfo_t;
  (** what was enqueued, not answered and applied before *)
  c_requests : list request_t;
  c_in_progress : gset nat;
  c_table : gmap Z value_t
}.
(** The session of a peer. *)
Definition peer_session (cfg : smr_cfg) (p : positive) (session : Z) : Prop :=
  1 ≤ c_uds cfg p ∧ c_sessions cfg !! Z.to_nat (c_uds cfg p - 1) = Some session.

(** What the receiver of a buffer relies on. *)
Definition cell_ok (x : cell) : Prop :=
  match x with
  | CEntry e => len (ety_data e) = client_req_size
  | CAppendEntries _ ae => 0 ≤ ae_n_entries ae
  | _ => True
  end.
Record tag_ok (cfg : smr_cfg) (c : AppContext) (n : nat) (rq : request_t) : Prop := {
  tk_request : requests (rpc c) !! n = Some rq;
  tk_tag : ∃ t, tags c !! rq_tag rq = Some t ∧ peer_session cfg (tag_node t) (rq_session rq);
  tk_range : 0 < rq_tag rq < pool_next (raft_req_tag_pool c);
  tk_used : rq_tag rq ∉ pool_ (raft_req_tag_pool c)
}.
Record smr_inv (cfg : smr_cfg) (c : AppContext) : Prop := {
  si_saveinfo : leader_saveinfo c = c_saveinfo cfg;
  si_node_id : node_id c = c_node_id cfg;
  si_sessions : session_num <$> conn_vec c = c_sessions cfg;
  si_requests : c_requests cfg `prefix_of` requests (rpc c);
  si_in_progress : c_in_progress cfg ⊆ in_progress (rpc c);
  si_table : c_table cfg ⊆ kv_table c;
  si_cells rq : rq ∈ requests (rpc c) → Forall cell_ok (rq_msg rq);
  si_peers rq : rq ∈ requests (rpc c) → ∃ p, peer_session cfg p (rq_session rq);
  si_pool : pool_ok (raft_req_tag_pool c);
  si_tags n : n ∈ in_progress (rpc c) → ∃ rq, tag_ok cfg c n rq;
  si_distinct n m rq rq' : n ∈ in_progress (rpc c) → m ∈ in_progress (rpc c) →
    requests (rpc c) !! n = Some rq → requests (rpc c) !! m = Some rq' → rq_tag rq = rq_tag rq' → n = m
}.

Section instance.
Context `{Garbage : StackGarbage} (kUsePmem : bool) (max_msg_size : Z).

Definition smr_ok (c : AppContext) : bool := bool_decide (failed c = None).

(** ** Steps of a callback *)
Lemma as_callback_spec (m : M AppContext Z) c (P : AppContext → Prop) :
  wlp m (λ e c', e = 0 ∧ P c') c → (∀ f, P (set_failure (Some f) c)) →
  (as_callback m c).1 = 0 ∧ P (as_callback m c).2.
Proof. intros Hm Hf. unfold as_callback, wq in *. destruct (m c) as [[e c']|f]; [done|]. split; [done|apply Hf]. Qed.

(** What the library sees of the context. *)
Record same_app (c c' : AppContext) : Prop := {
  sa_failed : failed c' = failed c;
  sa_data : appdata c' = appdata c;
  sa_pool : log_entry_appdata_pool c' = log_entry_appdata_pool c;
  sa_table : kv_table c' = kv_table c
}.

Lemma owns_same c c' ds : appdata c' = appdata c → log_entry_appdata_pool c' = log_entry_appdata_pool c → owns c ds → owns c' ds.
Proof. intros E1 E2. unfold owns. by rewrite E2. Qed.
Lemma smr_inv_same cfg c c' :
  leader_saveinfo c' = leader_saveinfo c → node_id c' = node_id c → conn_vec c' = conn_vec c →
  raft_req_tag_pool c' = raft_req_tag_pool c → tags c' = tags c → rpc c' = rpc c → kv_table c ⊆ kv_table c' →
  smr_inv cfg c → smr_inv cfg c'.
Proof.
  intros E1 E2 E3 E4 E5 E6 E7 [? ? ? ? ? ? ? ? ? Ht ?]. split; rewrite ?E1, ?E2, ?E3, ?E4, ?E5, ?E6; try done; [by etrans|].
  intros n Hn. destruct (Ht n Hn) as [rq []]. exists rq. split; rewrite ?E4, ?E5, ?E6; done.
Qed.

(** A new tag for a new request. *)
Lemma smr_inv_send cfg c p t msg tag pool' conn (v : Z) :
  smr_inv cfg c → Forall cell_ok msg → mempool_alloc (raft_req_tag_pool c) = Ok (tag, pool') →
  v = c_uds cfg p → arr_get (conn_vec c) (v - 1) = Ok conn →
  smr_inv cfg (set_rpc (mk_rpc (connected_sessions (rpc c)) (requests (rpc c) ++ [mk_request (session_num conn) t msg tag])
    ({[length (requests (rpc c))]} ∪ in_progress (rpc c)))
    (set_tags (<[tag := mk_tag p]> (tags c)) (set_raft_req_tag_pool pool' c))).
Proof.
  intros [Hsv Hid Hss Hreqs Hprog Htb Hcells Hpeer Hpool Ht Hd] Hmsg Halloc -> [Hv Hconn]%arr_get_Ok.
  destruct (mempool_alloc_spec _ _ _ Hpool Halloc) as (Hok' & Htag & Hle & Hfree & Hnew & Hin).
  assert (∀ n, n ∈ in_progress (rpc c) → ∃ rq, requests (rpc c) !! n = Some rq ∧ rq_tag rq ≠ tag ∧
    tag_ok cfg (set_rpc (mk_rpc (connected_sessions (rpc c)) (requests (rpc c) ++ [mk_request (session_num conn) t msg tag])
      ({[length (requests (rpc c))]} ∪ in_progress (rpc c)))
      (set_tags (<[tag := mk_tag p]> (tags c)) (set_raft_req_tag_pool pool' c))) n rq) as Hold.
  { intros n Hn. destruct (Ht n Hn) as [rq [Hrq (t' & Ht' & Hp') Hr Hu]]. exists rq. split; [done|].
    assert (rq_tag rq ≠ tag) as Hne by (intros <-; destruct Hnew; [done|lia]). split; [done|].
    split; cbn; [by rewrite lookup_app_l by (by eapply lookup_lt_Some)| |lia|intros ?%Hin; naive_solver lia].
    exists t'. by rewrite lookup_insert_ne by congruence. }
  assert (∀ n rq, n ∈ in_progress (rpc c) →
    (requests (rpc c) ++ [mk_request (session_num conn) t msg tag]) !! n = Some rq →
    requests (rpc c) !! n = Some rq ∧ rq_tag rq ≠ tag) as Hlook.
  { intros n rq Hn Hrq. destruct (Hold n Hn) as (rq' & Hrq' & Hne & _).
    rewrite lookup_app_l in Hrq by (by eapply lookup_lt_Some). by simplify_eq. }
  assert (peer_session cfg p (session_num conn)) as Hp.
  { split; cbn; [lia|]. by rewrite <- Hss, list_lookup_fmap, Hconn. }
  split; cbn; try done.
  - etrans; [exact Hreqs|]. by eexists.
  - etrans; [exact Hprog|]. apply union_subseteq_r.
  - intros rq [?| ->%list_elem_of_singleton]%elem_of_app; [by apply Hcells|apply Hmsg].
  - intros rq [?| ->%list_elem_of_singleton]%elem_of_app; [by apply Hpeer|by exists p].
  - intros n [->%elem_of_singleton|Hn]%elem_of_union.
    + eexists. split; cbn.
      * by rewrite list_lookup_middle.
      * exists (mk_tag p). by rewrite lookup_insert_eq.
      * done.
      * done.
    + destruct (Hold n Hn) as (rq & _ & _ & ?). by exists rq.
  - intros n m rq rq' [->%elem_of_singleton|Hn]%elem_of_union [->%elem_of_singleton|Hm]%elem_of_union Hrq Hrq' E; [done|..].
    + destruct (Hlook m rq' Hm Hrq') as [_ Hne]. rewrite list_lookup_middle in Hrq by done. by simplify_eq.
    + destruct (Hlook n rq Hn Hrq) as [_ Hne]. rewrite list_lookup_middle in Hrq' by done. by simplify_eq.
    + destruct (Hlook n rq Hn Hrq), (Hlook m rq' Hm Hrq'). by eapply Hd.
Qed.

(** ** What the callbacks do *)
Definition smr_entry (c : AppContext) (e : raft_entry_t) : app_entry_smr :=
  (ety_term e, (ety_id e, ety_type e, payload c (ety_data e))).
Abbreviation machine c es := (kv_table c = replay es).
Definition smr_calm (c c' : AppContext) : Prop :=
  harmless smr_ok payload c c' ∧ (∀ ds, owns c ds → owns c' ds) ∧ (∀ es, machine c es → machine c' es) ∧
  (∀ x, x ∈ sent c' → x ∈ sent c) ∧ (∀ k, smr_ok c' = true → smr_inv k c → smr_inv k c').

Lemma failed_not_ok f c : smr_ok (set_failure (Some f) c) = true → False.
Proof. unfold smr_ok. by rewrite bool_decide_eq_true. Qed.
Lemma calm_fail c f : smr_calm c (set_failure (Some f) c).
Proof. by split_and!. Qed.
Lemma calm_refl c : smr_calm c c.
Proof. split_and!; try done. Qed.
Lemma calm_pmem c l : smr_calm c (set_pmem_log l c).
Proof. split_and!; try done. intros k _. by apply smr_inv_same. Qed.

Lemma wlp_appdata_get b c (Q : client_req_t → AppContext → Prop) :
  (∀ r, appdata c !! b = Some r → Q r c) → wlp (appdata_get b) Q c.
Proof. intros HQ. unfold appdata_get. do 2 wstep. destruct (_ !! _) eqn:E; wstep; eauto. Qed.
Lemma wlp_rt_assert {S} (b : bool) (Q : unit → S → Prop) s : (b = true → Q tt s) → wlp (rt_assert b) Q s.
Proof. intros HQ. unfold rt_assert. destruct b; wstep; auto. Qed.

Lemma owns_sub c ds ds' : ds ⊆+ ds' → owns c ds' → owns c ds.
Proof.
  intros Hsub (Hp & Hnd & Hd). split; [done|]. split.
  - apply submseteq_Permutation in Hsub as [k Hk]. rewrite Hk, fmap_app in Hnd. apply NoDup_app in Hnd. apply Hnd.
  - intros d Hin. apply Hd. by eapply elem_of_submseteq.
Qed.

Lemma serialize_entries_spec es c :
  wlp (serialize_entries (length es) es) (λ cells c', c' = c ∧
    decode_entries (length es) cells = Some (smr_entry c <$> es) ∧
    (owns c (ety_data <$> es) → Forall cell_ok cells)) c.
Proof.
  induction es as [|e es IH]; cbn [serialize_entries length].
  { wstep. split_and!; [done|done|]. constructor. }
  wstep. apply wlp_appdata_get. intros r Hr. wstep. eapply wq_mono; [apply IH|]. intros cells c' (-> & Hd & Hl). wstep.
  split; [done|]. split.
  - cbn. rewrite Hd. cbn. do 2 f_equal. unfold smr_entry, payload. by rewrite Hr.
  - intros Hown. constructor; [cbn; apply Hown; by left|]. constructor; [done|]. apply Hl.
    eapply owns_sub; [|exact Hown]. cbn. by apply submseteq_cons.
Qed.

(** A send, up to the call of the transport. *)
Definition sends_request (pre : Prop) (c : AppContext) (p : raft_node_t) (r : raft_request client_req_t) (v : raft_view) (c' : AppContext) : Prop :=
  harmless smr_ok payload c c' ∧ (∀ ds, owns c ds → owns c' ds) ∧ (∀ es, machine c es → machine c' es) ∧
  (∀ x, x ∈ sent c' → x = r ∨ x ∈ sent c) ∧
  (∀ k, smr_ok c' = true → pre → (∀ n, v_heap v !! p = Some n → nd_udata n = c_uds k p) → smr_inv k c → smr_inv k c').
Lemma sends_nothing pre c p r v c' : smr_calm c c' → sends_request pre c p r v c'.
Proof. intros (? & ? & ? & ? & ?). split_and!; auto. Qed.

Lemma sends_enqueue pre c p n (r : raft_request client_req_t) v t msg tag pool' conn :
  mempool_alloc (raft_req_tag_pool c) = Ok (tag, pool') → v_heap v !! p = Some n →
  arr_get (conn_vec c) (nd_udata n - 1) = Ok conn → request_of msg = Some r →
  (pre → Forall cell_ok msg) →
  sends_request pre c p r v (set_rpc (mk_rpc (connected_sessions (rpc c)) (requests (rpc c) ++ [mk_request (session_num conn) t msg tag])
    ({[length (requests (rpc c))]} ∪ in_progress (rpc c)))
    (set_tags (<[tag := mk_tag p]> (tags c)) (set_raft_req_tag_pool pool' c))).
Proof.
  intros Halloc Hn Hconn Hmsg Hcells. split; [done|]. split; [done|]. split; [done|]. split.
  - intros x. unfold sent. cbn. rewrite omap_app, elem_of_app. intros [?|Hx]; [by right|left]. cbn in Hx.
    rewrite Hmsg in Hx. by apply list_elem_of_singleton in Hx.
  - intros k _ Hpre Hk Hinv. eapply smr_inv_send; [done|by apply Hcells|done|by rewrite <- (Hk n Hn)|done].
Qed.

Lemma send_requestvote_ok v c p m :
  let c' := (as_callback (smr_raft_send_requestvote_cb v p m) c).2 in sends_request True c p (RequestVote m) v c'.
Proof.
  apply as_callback_spec; [|intros f; apply sends_nothing, calm_fail].
  unfold smr_raft_send_requestvote_cb, conn_of. do 2 wstep. destruct (v_heap v !! p) as [n|] eqn:Hn; [|by wstep].
  do 3 wstep. destruct (arr_get _ _) as [conn|] eqn:Hconn; [|by wstep]. wstep. injection H as <-. do 2 wstep.
  wsplit; [wstep; split; [done|]; apply sends_nothing, calm_refl|].
  wstep. unfold tag_alloc. do 3 wstep. destruct (mempool_alloc _) as [[tag pool']|] eqn:Ha; [|by wstep]. wstep. injection H as <-.
  do 4 wstep. unfold rpc_enqueue_request. do 2 wstep. split; [done|]. eapply (sends_enqueue True c p n _ v _ _ tag pool' conn); try done.
  intros _. by repeat constructor.
Qed.

Lemma send_appendentries_ok v c p ae :
  ae_n_entries ae = Z.of_nat (length (ae_entries ae)) →
  let c' := (as_callback (smr_raft_send_appendentries_cb max_msg_size v p ae) c).2 in
  sends_request (owns c (ety_data <$> ae_entries ae)) c p (AppendEntries (ae_term ae) (ae_prev_log_idx ae) (ae_prev_log_term ae) (ae_leader_commit ae)
    (smr_entry c <$> ae_entries ae)) v c'.
Proof.
  intros Hlen. apply as_callback_spec; [|intros f; apply sends_nothing, calm_fail].
  unfold smr_raft_send_appendentries_cb, conn_of. do 2 wstep. destruct (v_heap v !! p) as [n|] eqn:Hn; [|by wstep].
  do 3 wstep. destruct (arr_get _ _) as [conn|] eqn:Hconn; [|by wstep]. wstep. injection H as <-. do 2 wstep.
  wsplit; [wstep; split; [done|]; apply sends_nothing, calm_refl|].
  wstep. apply wlp_rt_assert. intros _.
  wstep. unfold tag_alloc. do 3 wstep. destruct (mempool_alloc _) as [[tag pool']|] eqn:Ha; [|by wstep]. wstep. injection H as <-.
  do 4 wstep. unfold ae_serialize. wstep. rewrite Hlen, Nat2Z.id. eapply wq_mono; [apply serialize_entries_spec|].
  intros cells c1 (-> & Hd & Hl). wstep. unfold rpc_enqueue_request. do 3 wstep. split; [done|]. eapply (sends_enqueue _ c p n _ v _ _ tag pool' conn); try done.
  - cbn [request_of ae_n_entries set_ae_entries]. rewrite Hlen, Nat2Z.id, Hd. done.
  - intros Hown. constructor; [cbn; lia|by apply Hl].
Qed.

Lemma persist_vote_ok c id :
  (as_callback (smr_raft_persist_vote_cb kUsePmem id) c).1 = 0 ∧ smr_calm c (as_callback (smr_raft_persist_vote_cb kUsePmem id) c).2.
Proof.
  apply as_callback_spec; [|apply calm_fail]. unfold smr_raft_persist_vote_cb.
  wsplit; [do 3 wstep; split; [done|apply calm_pmem]|wstep; split; [done|apply calm_refl]].
Qed.

Lemma persist_term_ok c t id :
  let r := as_callback (smr_raft_persist_term_cb kUsePmem t id) c in
  r.1 = 0 ∧ smr_calm c r.2 ∧ (smr_ok r.2 = true → t < INT_MAX).
Proof.
  cbv zeta. apply (as_callback_spec _ _ (λ c', smr_calm c c' ∧ (smr_ok c' = true → t < INT_MAX)));
    [|intros f; split; [apply calm_fail|by intros ?%failed_not_ok]].
  unfold smr_raft_persist_term_cb. wstep. apply wlp_rt_assert. intros Ht. bool_prop.
  wsplit; [|wstep; split; [done|]; split; [apply calm_refl|done]].
  do 3 wstep. destruct (persist_term _ _ _) eqn:E; [|by wstep]. wstep. do 3 wstep.
  split; [done|]. split; [apply calm_pmem|done].
Qed.

Lemma table_insert_grows req t : t ⊆ table_insert req t.
Proof. unfold table_insert. destruct (t !! key req) eqn:E; [done|]. by apply insert_subseteq. Qed.
Lemma applylog_ok c e :
  let r := as_callback (smr_raft_applylog_cb e) c in
  r.1 = 0 ∧ harmless smr_ok payload c r.2 ∧ (∀ ds, owns c ds → owns r.2 ds) ∧ (∀ x, x ∈ sent r.2 → x ∈ sent c) ∧
  (smr_ok r.2 = true → ∀ es, machine c es → machine r.2 (es ++ [smr_entry c e])) ∧
  (∀ k, smr_ok r.2 = true → smr_inv k c → smr_inv k r.2).
Proof.
  cbv zeta. apply (as_callback_spec _ _ (λ c', harmless smr_ok payload c c' ∧ (∀ ds, owns c ds → owns c' ds) ∧
    (∀ x, x ∈ sent c' → x ∈ sent c) ∧ (smr_ok c' = true → ∀ es, machine c es → machine c' (es ++ [smr_entry c e])) ∧
    (∀ k, smr_ok c' = true → smr_inv k c → smr_inv k c'))); [|intros f; by split_and!].
  unfold smr_raft_applylog_cb. wstep. apply wlp_appdata_get. intros req Hreq. do 3 wstep. split; [done|].
  split_and!; try done.
  - intros _ es Hes. cbn. unfold replay. rewrite foldl_app. cbn. unfold payload. rewrite Hreq. cbn. by rewrite Hes.
  - intros k _. apply smr_inv_same; try done. apply table_insert_grows.
Qed.

Lemma log_offer_ok c e idx :
  ∃ c', keep_data e (as_callback (smr_raft_log_offer_cb kUsePmem e idx) c) = (0, ety_data e, c') ∧ smr_calm c c'.
Proof.
  enough ((as_callback (smr_raft_log_offer_cb kUsePmem e idx) c).1 = 0 ∧
    smr_calm c (as_callback (smr_raft_log_offer_cb kUsePmem e idx) c).2) as [E1 Hc].
  { eexists. split; [|exact Hc]. unfold keep_data. by rewrite E1. }
  apply as_callback_spec; [|apply calm_fail]. unfold smr_raft_log_offer_cb.
  wsplit; [|wstep; split; [done|apply calm_refl]]. do 3 wstep. apply wlp_rt_assert. intros _.
  wstep. apply wlp_appdata_get. intros req _. do 3 wstep. split; [done|apply calm_pmem].
Qed.

Lemma owns_free c ds ds' d :
  owns c (ds ++ d :: ds') → owns (set_log_entry_appdata_pool (mempool_free (buf d) (log_entry_appdata_pool c)) c) (ds ++ ds').
Proof.
  intros (Hp & Hnd & Hds). destruct (Hds d) as (Hlen & Hr & Hf); [set_solver|].
  rewrite fmap_app in Hnd. cbn in Hnd. apply NoDup_app in Hnd as (Hnd1 & Hdis & [Hd Hnd2]%NoDup_cons).
  split; [by apply mempool_free_ok|]. split.
  - rewrite fmap_app. apply NoDup_app. split_and!; [done| |done]. intros x Hx Hx'. apply (Hdis x Hx). by right.
  - intros x Hx. destruct (Hds x) as (? & ? & ?); [set_solver|]. split; [done|]. split; [done|].
    change (buf x ∉ buf d :: pool_ (log_entry_appdata_pool c)). intros [E|?]%elem_of_cons; [|done].
    apply elem_of_app in Hx as [Hx|Hx].
    + apply (Hdis (buf x)); [by apply list_elem_of_fmap_2|]. rewrite E. by left.
    + apply Hd. rewrite <- E. by apply list_elem_of_fmap_2.
Qed.

Lemma log_pop_ok c e :
  ∃ c', keep_data e (as_callback (smr_raft_log_pop_cb kUsePmem e) c) = (0, ety_data e, c') ∧
    harmless smr_ok payload c c' ∧ (∀ ds ds', owns c (ds ++ ety_data e :: ds') → owns c' (ds ++ ds')) ∧
    (∀ es, machine c es → machine c' es) ∧ (∀ x, x ∈ sent c' → x ∈ sent c) ∧
    (∀ k, smr_ok c' = true → smr_inv k c → smr_inv k c').
Proof.
  assert (∃ l c1, (c1 = c ∨ c1 = set_pmem_log l c) ∧
    keep_data e (as_callback (smr_raft_log_pop_cb kUsePmem e) c) =
      (0, ety_data e, if len (ety_data e) =? client_req_size
         then set_log_entry_appdata_pool (mempool_free (buf (ety_data e)) (log_entry_appdata_pool c1)) c1 else c1)) as (l & c1 & Hc1 & ->).
  { unfold smr_raft_log_pop_cb. destruct kUsePmem.
    - exists (pmem_pop (pmem_log c)), (set_pmem_log (pmem_pop (pmem_log c)) c). split; [by right|]. by case_match.
    - exists (pmem_log c), c. split; [by left|]. by case_match. }
  eexists. split; [done|]. assert (smr_calm c c1) as ([Hok Hpay] & Hown & Hm & Hs & Hi).
  { destruct Hc1 as [->| ->]; [apply calm_refl|apply calm_pmem]. }
  clear Hc1. destruct (Z.eqb_spec (len (ety_data e)) client_req_size) as [El|El].
  - split; [by split|]. split; [intros ds ds' Hds; by apply owns_free, Hown|]. split_and!; try done.
    intros k Hk Hinv. apply (smr_inv_same k c1); try done. by apply Hi.
  - split; [by split|]. split; [|by split_and!]. intros ds ds' (_ & _ & Hd).
    destruct (Hd (ety_data e)) as [? _]; [set_solver|done].
Qed.

Definition smr_app : RaftApp AppContext client_req_t smr_cfg.
Proof.
  refine {|
    app_cbs := raft_funcs kUsePmem max_msg_size;
    app_ok := smr_ok;
    app_content := payload;
    app_owns := owns;
    app_machine c es := machine c es;
    app_sent := sent;
    app_inv := smr_inv;
    app_uds := c_uds;
    app_owns_sub := owns_sub
  |}.
  - eexists. split; [reflexivity|]. intros v u p m. destruct (send_requestvote_ok v u p m) as (? & ? & ? & ? & ?). split_and!; auto.
  - eexists. split; [reflexivity|]. intros v u p ae Hae. by apply send_appendentries_ok.
  - eexists. split; [reflexivity|]. intros v u id. apply persist_vote_ok.
  - eexists. split; [reflexivity|]. intros v u t id. apply persist_term_ok.
  - eexists. split; [reflexivity|]. intros v u e i. apply applylog_ok.
  - eexists. split; [reflexivity|]. intros v u e i. apply log_offer_ok.
  - eexists. split; [reflexivity|]. intros v u e i. apply log_pop_ok.
  - intros f v u p [= <-]. apply calm_refl.
Defined.
End instance.
