(* ===== verification/SmrMessages.v ===== *)
(** * The replication application: messages and memory

    What a peer unpacks from an append-entries buffer is what was serialized into it,
    in memory of its own; a pool hands out no element twice. *)

From S2P Require Import Prelude RaftTypes RaftNode RaftLog RaftMembership RaftServer RaftApp SmrTypes SmrServer SmrApp.

(** ** Pools *)

(** A user of a pool takes an element, or gives back one of those it holds. *)
Inductive pool_op : Type := Alloc | Free (k : nat).
Definition pool_step (op : pool_op) (st : AppMemPool * list Z) : outcome (AppMemPool * list Z) :=
  match op with
  | Alloc => match mempool_alloc st.1 with Ok (t, p) => Ok (p, t :: st.2) | Fault f => Fault f end
  | Free k => match st.2 !! k with Some t => Ok (mempool_free t st.1, delete k st.2) | None => Fault UndefinedBehaviour end
  end.
Fixpoint pool_run (ops : list pool_op) (st : AppMemPool * list Z) : outcome (AppMemPool * list Z) :=
  match ops with
  | [] => Ok st
  | op :: ops => match pool_step op st with Ok st => pool_run ops st | Fault f => Fault f end
  end.
Definition held_ok (st : AppMemPool * list Z) : Prop :=
  pool_ok st.1 ∧ NoDup st.2 ∧ ∀ t, t ∈ st.2 → 0 < t < pool_next st.1 ∧ t ∉ pool_ st.1.

Lemma pool_step_held op st st' : held_ok st → pool_step op st = Ok st' → held_ok st'.
Proof.
  intros (Hok & Hnd & Ht) Hs. destruct st as [p used], op as [|k]; cbn in *.
  - destruct (mempool_alloc p) as [[t p']|] eqn:Ha; [|done]. injection Hs as <-.
    destruct (mempool_alloc_spec _ _ _ Hok Ha) as (Hok' & Hr & Hle & Hfree & Hnew & Hin). split; [done|]. split; cbn.
    + constructor; [|done]. intros [Hr' Hf]%Ht. destruct Hnew; [done|lia].
    + intros x [->|[Hr' Hf]%Ht]%elem_of_cons; [done|]. split; [lia|]. intros [?|?]%Hin; [done|lia].
  - destruct (used !! k) as [t|] eqn:Hk; [|done]. injection Hs as <-. destruct (Ht t) as [Hr Hf]; [by eapply list_elem_of_lookup_2|].
    pose proof (delete_Permutation _ _ _ Hk) as Hp. rewrite Hp in Hnd. apply NoDup_cons in Hnd as [Htk Hnd].
    split; [by apply mempool_free_ok|]. split; [done|]. cbn. intros x Hx.
    destruct (Ht x) as [Hr' Hf']; [rewrite Hp; by right|]. split; [done|]. intros [->|?]%elem_of_cons; done.
Qed.

(** C40: a pool hands out no element twice. Whatever elements were taken and given back
    before, those that are held are different ones, and none of them is free. *)
Theorem pool_elements_distinct ops p used :
  pool_run ops (pool_new, []) = Ok (p, used) → NoDup used ∧ ∀ t, t ∈ used → t ∉ pool_ p.
Proof.
  enough (∀ st, held_ok st → pool_run ops st = Ok (p, used) → held_ok (p, used)) as H.
  { intros Hr. destruct (H (pool_new, [])) as (_ & Hnd & Ht); [|done|split; [done|intros t ?; by apply Ht]].
    split; [apply pool_new_ok|]. split; [constructor|]. intros t Hin. by apply elem_of_nil in Hin. }
  induction ops as [|op ops IH]; intros st Hst; cbn; [by intros [= <-]|].
  destruct (pool_step op st) as [st'|] eqn:E; [|done]. apply IH. by eapply pool_step_held.
Qed.
Definition some_pool_ops : list pool_op := [Alloc; Alloc; Free 1; Alloc; Alloc].
Lemma pool_elements_distinct_witness :
  ∃ p, pool_run some_pool_ops (pool_new, []) = Ok (p, [1022; 1024; 1023]) ∧ NoDup [1022; 1024; 1023].
Proof.
  destruct (pool_run some_pool_ops (pool_new, [])) as [[p used]|] eqn:E; [|exfalso; vm_compute in E; discriminate].
  assert (used = [1022; 1024; 1023]) as Eu.
  { assert (match pool_run some_pool_ops (pool_new, []) with Ok st => st.2 | Fault _ => [] end = [1022; 1024; 1023]) as H by (vm_compute; reflexivity).
    rewrite E in H. exact H. }
  exists p. rewrite Eu in *. split; [reflexivity|]. exact (proj1 (pool_elements_distinct _ _ _ E)).
Defined.

(** ** The round trip of an append-entries request *)

(** The memory of the payload is not free. *)
Definition data_in_use (c : AppContext) (d : raft_entry_data_t) : Prop :=
  0 < buf d < pool_next (log_entry_appdata_pool c) ∧ buf d ∉ pool_ (log_entry_appdata_pool c).
(** One extension of the pool is enough for [n] payloads. *)
Definition has_room (n : nat) (c : AppContext) : Prop :=
  pool_ok (log_entry_appdata_pool c) ∧
  Z.of_nat n ≤ Z.of_nat (length (pool_ (log_entry_appdata_pool c))) + num_to_alloc_ (log_entry_appdata_pool c).

Lemma length_addresses first n : 0 ≤ n → Z.of_nat (length (addresses first n)) = n.
Proof. intros. unfold addresses. rewrite length_fmap, length_seq. lia. Qed.
Lemma pool_alloc_total n p :
  pool_ok p → Z.of_nat (S n) ≤ Z.of_nat (length (pool_ p)) + num_to_alloc_ p →
  ∃ t p', mempool_alloc p = Ok (t, p') ∧ Z.of_nat n ≤ Z.of_nat (length (pool_ p')) + num_to_alloc_ p'.
Proof.
  intros Hok Hn. unfold mempool_alloc. destruct (pool_ p) as [|t ts] eqn:Ep.
  - pose proof (po_num _ Hok). cbn in Hn. pose proof (length_addresses (pool_next p) (num_to_alloc_ p) ltac:(lia)) as Hl.
    cbn [pool_ mempool_extend]. rewrite Ep, app_nil_r. destruct (reverse _) as [|t ts] eqn:Er.
    + apply (f_equal length) in Er. rewrite length_reverse in Er. cbn in Er. lia.
    + apply (f_equal length) in Er. rewrite length_reverse in Er. cbn in Er. eexists _, _. split; [done|]. cbn.
      pose proof (Z.mod_pos_bound (2 * num_to_alloc_ p) (2 ^ 64) ltac:(lia)). lia.
  - rewrite Ep. cbn in Hn. eexists _, _. split; [done|]. cbn. lia.
Qed.

Lemma appdata_alloc_wp n req c :
  has_room (S n) c →
  wp (appdata_alloc req) (λ p c', has_room n c' ∧ (∀ l, payload c' (mk_data p l) = req) ∧ (∀ l, data_in_use c' (mk_data p l)) ∧
    ∀ d, data_in_use c d → data_in_use c' d ∧ payload c' d = payload c d) c.
Proof.
  intros [Hok Hn]. destruct (pool_alloc_total n _ Hok Hn) as (t & p' & Ha & Hn').
  destruct (mempool_alloc_spec _ _ _ Hok Ha) as (Hok' & Hr & Hle & Hfree & Hnew & Hin).
  unfold appdata_alloc. do 3 wstep. rewrite Ha. wstep. simplify_eq. do 3 wstep. cbn [fst snd].
  split; [done|]. split; [intros l; unfold payload; cbn; by rewrite lookup_insert_eq|]. split; [done|].
  intros d [Hd Hdf]. assert (t ≠ buf d) as Hne by (intros ->; destruct Hnew; [done|lia]). split.
  - split; cbn; [lia|]. intros [?|?]%Hin; [done|lia].
  - unfold payload. cbn. by rewrite lookup_insert_ne.
Qed.

Lemma serialize_entries_wp es c :
  (∀ e, e ∈ es → is_Some (appdata c !! buf (ety_data e))) →
  wp (serialize_entries (length es) es) (λ cells c', c' = c ∧ decode_entries (length es) cells = Some (smr_entry c <$> es)) c.
Proof.
  induction es as [|e es IH]; intros Hes; cbn [serialize_entries length]; [by wstep|].
  destruct (Hes e) as [req Hreq]; [by left|]. wstep. unfold appdata_get. do 2 wstep. rewrite Hreq. do 2 wstep.
  eapply wq_mono; [apply IH; intros; apply Hes; by right|]. intros cells c' [-> Hd]. wstep. split; [done|].
  cbn. rewrite Hd. cbn. do 2 f_equal. unfold smr_entry, payload. by rewrite Hreq.
Qed.
Lemma unpack_entries_wp n cells es c :
  decode_entries n cells = Some es → has_room n c →
  wp (unpack_entries n cells) (λ ets c', smr_entry c' <$> ets = es ∧ ∀ d, data_in_use c d → data_in_use c' d ∧ payload c' d = payload c d) c.
Proof.
  revert cells es c. induction n as [|n IH]; intros cells es c Hd Hroom; cbn [unpack_entries decode_entries] in *.
  { injection Hd as <-. wstep. done. }
  destruct cells as [|[| |e|] [|[| | |req] cells]]; try done. destruct (decode_entries n cells) as [es'|] eqn:Ed; [|done]. injection Hd as <-.
  wstep. eapply wq_mono; [by apply appdata_alloc_wp|]. intros p c1 (Hroom1 & Hpay & Huse & Hold1). wstep.
  eapply wq_mono; [by eapply IH|]. intros ets c2 [Hes Hold2]. wstep. split.
  - cbn. rewrite Hes. f_equal. unfold smr_entry. cbn. destruct (Hold2 _ (Huse (len (ety_data e)))) as [_ ->]. by rewrite Hpay.
  - intros d Hd. destruct (Hold1 d Hd) as [Hd1 E1], (Hold2 d Hd1) as [Hd2 E2]. split; [done|]. congruence.
Qed.

(** C11: what is unpacked is what was serialized. An append-entries message whose payloads
    the sender holds is serialized without a change of the sender's data, and a peer whose pool has room
    unpacks from the buffer the node id, the header and the entries, payloads included; the payloads
    that the peer held before are unchanged. *)
Theorem unpack_serialize node_id ae c1 c2 :
  ae_n_entries ae = Z.of_nat (length (ae_entries ae)) →
  (∀ e, e ∈ ae_entries ae → is_Some (appdata c1 !! buf (ety_data e))) → has_room (length (ae_entries ae)) c2 →
  ∃ cells ae' c2', ae_serialize node_id ae c1 = Ok (cells, c1) ∧ unpack cells c2 = Ok ((node_id, ae'), c2') ∧
    set_ae_entries [] ae' = set_ae_entries [] ae ∧ smr_entry c2' <$> ae_entries ae' = smr_entry c1 <$> ae_entries ae ∧
    ∀ d, data_in_use c2 d → payload c2' d = payload c2 d.
Proof.
  intros Hn Hes Hroom.
  assert (wp (ae_serialize node_id ae) (λ cells c', c' = c1 ∧ ∃ rest, cells = CAppendEntries node_id (set_ae_entries [] ae) :: rest ∧
    decode_entries (length (ae_entries ae)) rest = Some (smr_entry c1 <$> ae_entries ae)) c1) as (cells & c1' & Hser & -> & rest & -> & Hd)%wp_iff.
  { unfold ae_serialize. wstep. rewrite Hn, Nat2Z.id. eapply wq_mono; [by apply serialize_entries_wp|].
    intros cells c' [-> Hd]. wstep. split; [done|]. by eexists. }
  assert (wp (unpack (CAppendEntries node_id (set_ae_entries [] ae) :: rest)) (λ r c', r.1 = node_id ∧
    set_ae_entries [] r.2 = set_ae_entries [] ae ∧ smr_entry c' <$> ae_entries r.2 = smr_entry c1 <$> ae_entries ae ∧
    ∀ d, data_in_use c2 d → payload c' d = payload c2 d) c2) as ([nid ae'] & c2' & Hun & Hnid & Hhdr & Hent & Hold)%wp_iff.
  { cbn [unpack]. wstep. cbn [ae_n_entries set_ae_entries]. rewrite Hn, Nat2Z.id.
    eapply wq_mono; [by eapply unpack_entries_wp|]. intros ets c' [Hets Hold]. wstep. split_and!; try done.
    intros d Hd'. by destruct (Hold d Hd'). }
  cbn in Hnid. subst nid. exists (CAppendEntries node_id (set_ae_entries [] ae) :: rest), ae', c2'. done.
Qed.

Definition sender : AppContext := set_appdata {[5 := mk_client_req 7 [7; 0; 0; 0]]} (context_new 3 0 (λ _, 0)).
Definition receiver : AppContext := context_new 3 1 (λ _, 0).
Definition one_entry : msg_appendentries_t :=
  mk_appendentries 1 0 0 0 1 [mk_entry 1 0 RAFT_LOGTYPE_NORMAL (mk_data 5 client_req_size)].
Lemma unpack_serialize_witness :
  ∃ cells ae' c2', ae_serialize 9 one_entry sender = Ok (cells, sender) ∧ unpack cells receiver = Ok ((9, ae'), c2') ∧
    smr_entry c2' <$> ae_entries ae' = [(1, (0, RAFT_LOGTYPE_NORMAL, mk_client_req 7 [7; 0; 0; 0]))].
Proof.
  destruct (unpack_serialize 9 one_entry sender receiver) as (cells & ae' & c2' & H1 & H2 & _ & H3 & _).
  - reflexivity.
  - intros e [->|He]%elem_of_cons; [by eexists|by apply elem_of_nil in He].
  - split; [apply pool_new_ok|]. cbn. lia.
  - exists cells, ae', c2'. split; [exact H1|]. split; [exact H2|]. exact H3.
Defined.
