(* ===== verification/SmrCluster.v ===== *)
(** * The replication application: a cluster of servers

    The servers of a deployment, started by [init_raft], and what happens to them: turns
    of their main loops, requests of a server that arrive at the process at the other
    end of the session, responses that arrive back, requests of clients, session
    management events.  A request that was enqueued may arrive late, more than once or
    never; its continuation runs once, with one of the responses that were given to it
    or, when the session fails, with none.  A server stops at any moment, for ever; when a
    handler throws or has no defined behaviour there is no other step for it.

    A step is one handler, continuation or part of the main loop: a server runs them in
    one thread.  What a server enqueues in a handler that ends in a failure is not sent. *)

From stdpp Require Import fin_sets.
From S2P Require Import Prelude RaftTypes RaftNode RaftLog RaftMembership RaftServer SmrTypes SmrServer RaftLogSpec RaftFrame RaftProtocol RaftApp RaftRefine SmrApp.

(** Node [k + 1] of a server's table of peers is process [k]: [raft_add_node] allocates
    them in order. *)
Definition srv (k : nat) : positive := Pos.of_succ_nat k.
Definition proc (p : positive) : nat := Nat.pred (Pos.to_nat p).

Record cluster : Type := mk_cluster {
  servers : gmap positive (raft AppContext);
  running : gset positive;
  (** the responses to the requests of servers, with the process that gave them *)
  rv_replies : list (positive * req_handle_t * msg_requestvote_response_t);
  ae_replies : list (positive * req_handle_t * msg_appendentries_response_t);
  (** the requests of clients and the responses they were given *)
  asked : gmap req_handle_t client_req_t;
  answers : list (positive * req_handle_t * client_resp_t)
}.
Definition cluster_eta (cl : cluster) : cluster :=
  mk_cluster (servers cl) (running cl) (rv_replies cl) (ae_replies cl) (asked cl) (answers cl).
Definition set_servers : gmap positive (raft AppContext) → cluster → cluster := ltac:(field_update cluster_eta servers).
Definition set_running : gset positive → cluster → cluster := ltac:(field_update cluster_eta running).
Definition set_rv_replies : list (positive * req_handle_t * msg_requestvote_response_t) → cluster → cluster :=
  ltac:(field_update cluster_eta rv_replies).
Definition set_ae_replies : list (positive * req_handle_t * msg_appendentries_response_t) → cluster → cluster :=
  ltac:(field_update cluster_eta ae_replies).
Definition set_asked : gmap req_handle_t client_req_t → cluster → cluster := ltac:(field_update cluster_eta asked).
Definition set_answers : list (positive * req_handle_t * client_resp_t) → cluster → cluster :=
  ltac:(field_update cluster_eta answers).

Inductive cluster_event : Type :=
| Periodic (i : positive) (tsc : Z)
| CheckCommit (i : positive)
| RequestVoteArrives (j : positive) (n : nat) (i : positive)
| AppendEntriesArrives (j : positive) (n : nat) (i : positive)
| RequestVoteDone (j : positive) (n : nat) (reply : option nat)
| AppendEntriesDone (j : positive) (n : nat) (reply : option nat)
| ClientRequest (i : positive) (process_id : Z) (h : req_handle_t) (req : client_req_t)
| SmEvent (i : positive) (session : Z) (ev : sm_event_t)
| Connect (i : positive) (sessions : gset Z)
| Stop (i : positive).

Section cluster.
Context `{Garbage : StackGarbage} (kUsePmem : bool) (max_msg_size : Z) (num_raft_servers : nat)
  (get_raft_node_id_for_process : nat → Z) (sessions : nat → nat → Z).

(** One thread of a server runs [m]. *)
Definition run_server {A} (i : positive) (m : M (raft AppContext) A) (cl : cluster) : option (A * cluster) :=
  if decide (i ∈ running cl) then
    match servers cl !! i with
    | Some s => match m s with Ok (a, s') => Some (a, set_servers (<[i := s']> (servers cl)) cl) | Fault _ => None end
    | None => None
    end
  else None.

(** Request [n] of server [j], when process [i] is at the other end of its session. *)
Definition arriving (j : positive) (n : nat) (i : positive) (t : ReqType) (cl : cluster) : option (list cell) :=
  s ← servers cl !! j;
  rq ← requests (rpc (udata s.2)) !! n;
  conn ← conn_vec (udata s.2) !! proc i;
  if decide (rq_type rq = t ∧ session_num conn = rq_session rq) then Some (rq_msg rq) else None.

(** The continuation of request [n] runs with the tag of the request. *)
Definition request_tag (n : nat) (t : ReqType) : M AppContext Z :=
  c ← get;
  match requests (rpc c) !! n with
  | Some rq => if decide (n ∈ in_progress (rpc c) ∧ rq_type rq = t) then mret (rq_tag rq) else throw UndefinedBehaviour
  | None => throw UndefinedBehaviour
  end.
Definition finish_request (n : nat) : M AppContext unit :=
  modify (λ c, set_rpc (mk_rpc (connected_sessions (rpc c)) (requests (rpc c)) (in_progress (rpc c) ∖ {[n]})) c).
Definition requestvote_done (n : nat) (reply : option msg_requestvote_response_t) : M (raft AppContext) unit :=
  tag ← on_context (request_tag n kRequestVote);
  requestvote_cont tag reply ;;
  on_context (finish_request n).
Definition appendentries_done (n : nat) (reply : option msg_appendentries_response_t) : M (raft AppContext) unit :=
  tag ← on_context (request_tag n kAppendEntries);
  appendentries_cont tag reply ;;
  on_context (finish_request n).
(** A response to request [n] of server [j], or none. *)
Definition reply_to {R} (j : positive) (n : nat) (k : option nat) (replies : list (positive * req_handle_t * R)) :
    option (option R) :=
  match k with
  | None => Some None
  | Some k =>
      match replies !! k with
      | Some (_, h, r) => if decide (h = FromServer j n) then Some (Some r) else None
      | None => None
      end
  end.

Definition answer (i : positive) (rs : list (req_handle_t * client_resp_t)) (cl : cluster) : cluster :=
  set_answers (((λ r, (i, r.1, r.2)) <$> rs) ++ answers cl) cl.

Definition cluster_step (ev : cluster_event) (cl : cluster) : option cluster :=
  match ev with
  | Periodic i tsc => r ← run_server i (call_raft_periodic tsc) cl; Some r.2
  | CheckCommit i => r ← run_server i check_commit cl; Some (answer i r.1 r.2)
  | RequestVoteArrives j n i =>
      msg ← arriving j n i kRequestVote cl;
      r ← run_server i (requestvote_handler msg) cl;
      Some (set_rv_replies ((i, FromServer j n, r.1) :: rv_replies r.2) r.2)
  | AppendEntriesArrives j n i =>
      msg ← arriving j n i kAppendEntries cl;
      r ← run_server i (appendentries_handler msg) cl;
      Some (set_ae_replies ((i, FromServer j n, r.1) :: ae_replies r.2) r.2)
  | RequestVoteDone j n k =>
      reply ← reply_to j n k (rv_replies cl);
      r ← run_server j (requestvote_done n reply) cl;
      Some r.2
  | AppendEntriesDone j n k =>
      reply ← reply_to j n k (ae_replies cl);
      r ← run_server j (appendentries_done n reply) cl;
      Some r.2
  | ClientRequest i process_id h req =>
      if decide (asked cl !! h = None) then
        r ← run_server i (client_req_handler process_id h req) cl;
        Some (answer i r.1 (set_asked (<[h := req]> (asked r.2)) r.2))
      else None
  | SmEvent i session ev => r ← run_server i (on_context (smr_sm_handler session ev)) cl; Some r.2
  | Connect i ss =>
      r ← run_server i (on_context (modify (λ c, set_rpc (mk_rpc ss (requests (rpc c)) (in_progress (rpc c))) c))) cl;
      Some r.2
  | Stop i => Some (set_running (running cl ∖ {[i]}) cl)
  end.

Fixpoint run_cluster (evs : list cluster_event) (cl : cluster) : option cluster :=
  match evs with
  | [] => Some cl
  | ev :: evs => cl' ← cluster_step ev cl; run_cluster evs cl'
  end.

(** ** The start of the servers

    Every allocation has succeeded: with a peer missing the servers do not form one cluster. *)
Definition members : gset positive := list_to_set (srv <$> seq 0 num_raft_servers).
Definition start_server (k : nat) (r : random) (a : allocator) (cycles tsc : Z) : outcome (raft AppContext) :=
  init_raft kUsePmem max_msg_size get_raft_node_id_for_process num_raft_servers k r a cycles tsc
    (context_new num_raft_servers k (sessions k)).
Record cluster_start (cl : cluster) : Prop := {
  cs_members : dom (servers cl) = members;
  cs_server i s : servers cl !! i = Some s → num_nodes (me s.2) = Z.of_nat num_raft_servers ∧
    ∃ r a cycles tsc, start_server (proc i) r a cycles tsc = Ok s;
  cs_empty : rv_replies cl = [] ∧ ae_replies cl = [] ∧ asked cl = ∅ ∧ answers cl = []
}.
Definition cluster_reachable (cl : cluster) : Prop :=
  ∃ cl0 evs, cluster_start cl0 ∧ run_cluster evs cl0 = Some cl.

(** What the deployment provides: ids that do not collide, and a session to each peer. *)
Record deployment : Prop := {
  dp_size : (2 ≤ num_raft_servers)%nat;
  dp_ids i j : (i < num_raft_servers)%nat → (j < num_raft_servers)%nat →
    get_raft_node_id_for_process i = get_raft_node_id_for_process j → i = j;
  dp_valid i : (i < num_raft_servers)%nat → get_raft_node_id_for_process i ≠ -1;
  dp_session i j : i ≠ j → 0 ≤ sessions i j;
  dp_sessions i j k : j ≠ i → k ≠ i → sessions i j = sessions i k → j = k
}.
End cluster.

(** * The replication application: a server after [init_raft]

    A server of a deployment that has allocated all its peers is related to a server of
    the protocol that has done nothing. *)

(** ** The numbers of processes *)
Lemma proc_srv k : proc (srv k) = k.
Proof. unfold proc, srv. lia. Qed.
Lemma srv_proc p : srv (proc p) = p.
Proof. unfold proc, srv. lia. Qed.
#[global] Instance srv_inj : Inj (=) (=) srv.
Proof. intros x y E. rewrite <- (proc_srv x), <- (proc_srv y). by rewrite E. Qed.
Lemma elem_of_members p n : p ∈ members n ↔ (proc p < n)%nat.
Proof.
  unfold members. rewrite elem_of_list_to_set, list_elem_of_fmap. split.
  - intros (k & -> & Hk%elem_of_seq). rewrite proc_srv. lia.
  - intros Hp. exists (proc p). rewrite srv_proc. split; [done|]. apply elem_of_seq. lia.
Qed.
Lemma size_members n : size (members n) = n.
Proof.
  unfold members. rewrite size_list_to_set by (apply NoDup_fmap_2; [apply _|apply NoDup_seq]).
  by rewrite length_fmap, length_seq.
Qed.

(** ** A new Raft server *)
Definition no_log (l : log_private_t) : Prop := log_wf l ∧ log_list l = [] ∧ lg_base l = 0 ∧ lg_front l = 0.
Definition at_rest (m : raft_server_private_t) : Prop :=
  current_term m = 0 ∧ voted_for m = -1 ∧ commit_idx m = 0 ∧ last_applied_idx m = 0 ∧ state m = RAFT_STATE_FOLLOWER ∧
  snapshot_last_idx m = 0 ∧ snapshot_in_progress m = 0.

Lemma raft_new_fresh {U} r a (u : U) s :
  raft_new r a u = Ok (Some s) →
  no_log s.1 ∧ at_rest (me s.2) ∧ num_nodes (me s.2) = 0 ∧ nodes (me s.2) = [] ∧ node (me s.2) = None ∧
  heap s.2 = ∅ ∧ heap_next s.2 = 1%positive ∧ udata s.2 = u.
Proof.
  unfold raft_new. destruct (host_calloc _ _) as [[] h] eqn:Ha; [|done]. cbn [negb].
  unfold host_calloc in Ha. injection Ha as _ <-.
  destruct (raft_randomize_election_timeout _) as [[[] [l1 h1]]|] eqn:Er; [|done].
  match type of Er with _ ?s0 = _ =>
    assert (wlp raft_randomize_election_timeout (λ _ s', ∃ t n, s'.2 = set_me (set_election_timeout_rand t (me s0.2)) (set_rand_n n s0.2)) s0) as Hw by (rstep; eauto) end.
  apply (wq_run _ _ _ _ _ _ Hw) in Er as (t & n & Eh). clear Hw. cbn [snd] in Eh. subst h1.
  destruct (log_new _) as [[l|] h2] eqn:El; [|done].
  assert (lg_front l = 0 ∧ me h2 = set_election_timeout_rand t server_zero ∧ heap h2 = ∅ ∧ heap_next h2 = 1%positive ∧ udata h2 = u) as (Hf & Hm & Hh & Hn & Hu).
  { revert El. unfold log_new, log_alloc. cbn. repeat case_match; intros; by simplify_eq. }
  unfold log_new in El. apply wf_log_alloc in El as (Hwf & Hl & Hb & _ & _); [|done].
  cbn. intros [= <-]. cbn. rewrite Hm. done.
Qed.

Lemma wlp_on_context {A} (m : M AppContext A) Q (s : raft AppContext) :
  wlp m (λ a c, Q a (s.1, set_udata c s.2)) (udata s.2) → wlp (on_context m) Q s.
Proof. unfold on_context, wq. destruct (m (udata s.2)) as [[a c]|]; done. Qed.

(** ** The peers of a server *)
Section start.
Context `{Garbage : StackGarbage} (kUsePmem : bool) (max_msg_size : Z) (num_raft_servers : nat)
  (get_raft_node_id_for_process : nat → Z) (sessions : nat → nat → Z).
Abbreviation smr := (smr_app kUsePmem max_msg_size).
Abbreviation funcs := (raft_funcs kUsePmem max_msg_size).
Abbreviation deployment := (deployment num_raft_servers get_raft_node_id_for_process sessions).
Abbreviation V := (members num_raft_servers).
Definition server_id (p : positive) : Z := get_raft_node_id_for_process (proc p).
Definition peer_ptr (k : nat) (p : positive) : Z := if decide (proc p = k) then 0 else conn_ptr (proc p).
Definition session_list (k : nat) : list Z := session_num <$> connections num_raft_servers k (sessions k).
Definition server_cfg (k : nat) : leader_saveinfo_t → list request_t → gset nat → gmap Z value_t → smr_cfg :=
  mk_cfg (peer_ptr k) (session_list k) (get_raft_node_id_for_process k).

Lemma deployment_cluster : deployment → Cluster V server_id.
Proof.
  intros D. split.
  - intros p q Hp%elem_of_members Hq%elem_of_members E%(dp_ids _ _ _ D); [|done..].
    rewrite <- (srv_proc p), <- (srv_proc q). by rewrite E.
  - intros p Hp%elem_of_members. by apply D.
  - rewrite size_members. apply D.
Qed.

Record with_peers (k n : nat) (c : AppContext) (s : raft AppContext) : Prop := {
  wp_log : no_log s.1 ∧ lg_cb s.1 = true;
  wp_me : at_rest (me s.2);
  wp_cb : cb s.2 = funcs;
  wp_udata : udata s.2 = c;
  wp_num : 0 ≤ num_nodes (me s.2) ≤ Z.of_nat n;
  wp_full : num_nodes (me s.2) = Z.of_nat n →
    take n (nodes (me s.2)) = srv <$> seq 0 n ∧ heap_next s.2 = srv n ∧
    node (me s.2) = (if decide (k < n)%nat then Some (srv k) else None) ∧
    ∀ p nd, heap s.2 !! p = Some nd ↔ (proc p < n)%nat ∧ nd = raft_node_new (peer_ptr k p) (server_id p)
}.

Lemma find_node_reads {U} ps id (s : raft U) : wlp (find_node ps id) (λ _ s', s' = s) s.
Proof.
  induction ps as [|p ps IH]; cbn [find_node]; [by wstep|]. wstep. rstep. by wsplit; [wstep|].
Qed.
Lemma get_node_reads {U} id (s : raft U) : wlp (raft_get_node id) (λ _ s', s' = s) s.
Proof. unfold raft_get_node. wstep. rstep. apply find_node_reads. Qed.
Lemma wq_c_alloc {U} F n (Q : bool → raft U → Prop) s :
  (∀ b, Q b (s.1, set_alloc_n (S (alloc_n s.2)) s.2)) → wq F (c_alloc n) Q s.
Proof. intros HQ. apply HQ. Qed.

(** A peer was not added. *)
Lemma with_peers_short k n c s s' :
  with_peers k n c s → s'.1 = s.1 → me s'.2 = me s.2 → cb s'.2 = cb s.2 → udata s'.2 = udata s.2 → with_peers k (S n) c s'.
Proof. intros [] E1 E2 E3 E4. split; rewrite ?E1, ?E2, ?E3, ?E4; try done; lia. Qed.

Lemma new_peer_full k n c s m h' :
  with_peers k n c s → num_nodes (me s.2) = Z.of_nat n →
  m = set_nodes (take (Z.to_nat (num_nodes (me s.2))) (nodes (me s.2)) ++ [heap_next s.2]) (set_num_nodes (num_nodes (me s.2) + 1) (me s.2)) →
  h' = <[heap_next s.2 := raft_node_new (peer_ptr k (srv n)) (server_id (srv n))]> (heap s.2) →
  take (S n) (nodes m) = srv <$> seq 0 (S n) ∧ Pos.succ (heap_next s.2) = srv (S n) ∧
  node (if bool_decide (n = k) then set_node (Some (heap_next s.2)) m else m) = (if decide (k < S n)%nat then Some (srv k) else None) ∧
  ∀ p nd, h' !! p = Some nd ↔ (proc p < S n)%nat ∧ nd = raft_node_new (peer_ptr k p) (server_id p).
Proof.
  intros [_ _ _ _ _ Hfull] Hn -> ->. destruct (Hfull Hn) as (Htake & Hnext & Hnode & Hheap).
  rewrite Hn, Nat2Z.id. cbn [nodes set_nodes node]. split_and!.
  - rewrite Htake, Hnext, seq_S, fmap_app. rewrite take_ge; [done|].
    rewrite length_app, length_fmap, length_seq. cbn. lia.
  - rewrite Hnext. unfold srv. lia.
  - case_bool_decide as E; cbn.
    + subst. rewrite Hnext. by rewrite decide_True by lia.
    + rewrite Hnode. destruct (decide (k < n)%nat); [by rewrite decide_True by lia|by rewrite decide_False by lia].
  - intros p nd. rewrite lookup_insert_Some, Hheap, Hnext. split.
    + intros [[<- <-]|[Hne [? ->]]]; [rewrite proc_srv; split; [lia|done]|split; [lia|done]].
    + intros [Hp ->]. destruct (decide (srv n = p)) as [<-|Hne]; [by left|right]. split; [done|]. split; [|done].
      assert (proc p ≠ n) by (intros <-; by rewrite srv_proc in Hne). lia.
Qed.

(** The struct and the heap with a new peer. *)
Definition peer_added (k n : nat) (s : raft AppContext) : raft_server_private_t :=
  let m := set_nodes (take (Z.to_nat (num_nodes (me s.2))) (nodes (me s.2)) ++ [heap_next s.2])
             (set_num_nodes (num_nodes (me s.2) + 1) (me s.2)) in
  if bool_decide (n = k) then set_node (Some (heap_next s.2)) m else m.
Lemma with_peers_added k n c s s' :
  with_peers k n c s → s'.1 = s.1 → cb s'.2 = cb s.2 → udata s'.2 = udata s.2 →
  heap_next s'.2 = Pos.succ (heap_next s.2) → me s'.2 = peer_added k n s →
  heap s'.2 = <[heap_next s.2 := raft_node_new (peer_ptr k (srv n)) (server_id (srv n))]> (heap s.2) →
  with_peers k (S n) c s'.
Proof.
  intros W E1 E2 E3 E4 E5 E6. pose proof W as [Hl Hm ? ? Hnum _].
  assert (num_nodes (peer_added k n s) = num_nodes (me s.2) + 1) as En by (unfold peer_added; by case_bool_decide).
  split; rewrite ?E1, ?E2, ?E3, ?E4, ?E5, ?E6, ?En; try done; [|lia|].
  - unfold peer_added. by case_bool_decide.
  - intros Hn. destruct (new_peer_full k n c s _ _ W ltac:(lia) eq_refl eq_refl) as (H1 & H2 & H3 & H4).
    split; [|by split]. unfold peer_added. case_bool_decide; exact H1.
Qed.

Lemma add_peer k n ud id self c s :
  ud = peer_ptr k (srv n) → id = get_raft_node_id_for_process n → self = bool_decide (n = k) →
  with_peers k n c s → wlp (raft_add_node ud id self) (λ _ s', with_peers k (S n) c s') s.
Proof.
  intros Hud Hid Hself W.
  unfold raft_add_node, raft_add_node_internal. wstep. unfold raft_get_node. wstep. rstep.
  eapply wq_mono; [apply find_node_reads|]. intros found s' ->. destruct found as [p|].
  { rstep. rstep. wsplit; [|wstep; by eapply with_peers_short].
    wstep. unfold on_node_o. rstep. rstep. rstep. rstep. unfold store. do 2 rstep. by eapply with_peers_short. }
  wstep. apply wq_c_alloc. intros []; cbn [negb]; [|wstep; by eapply with_peers_short].
  do 4 rstep. unfold store. do 5 rstep. cbn [snd fst me heap_next set_alloc_n set_heap set_heap_next]. apply wq_c_alloc. intros []; cbn [negb].
  2: { unfold raft_node_free. do 3 rstep. by eapply with_peers_short. }
  do 3 rstep. cbv beta. wsplit; [rstep|wstep]; do 2 rstep; cbn [snd fst cb set_me set_alloc_n set_heap set_heap_next];
    rewrite (wp_cb _ _ _ _ W); cbn [cb_notify_membership_event raft_funcs]; wstep; cbv [call_void wq mret M_ret];
    apply (with_peers_added k n c s); try done; cbn; unfold peer_added; rewrite <- ?Hself, ?Hid, ?Hud; unfold server_id; by rewrite ?proc_srv.
Qed.

Lemma add_servers_spec k c s :
  node_id c = get_raft_node_id_for_process k → with_peers k 0 c s →
  wlp (add_servers get_raft_node_id_for_process num_raft_servers k) (λ _ s', with_peers k num_raft_servers c s') s.
Proof.
  intros Hid W. unfold add_servers.
  apply (wq_for_each _ (λ xs s, ∃ n, xs = seq n (num_raft_servers - n) ∧ (n ≤ num_raft_servers)%nat ∧ with_peers k n c s)).
  - exists 0%nat. rewrite Nat.sub_0_r. split; [done|]. split; [lia|done].
  - intros x xs s1 (n & Hxs & Hn & W1). destruct (num_raft_servers - n)%nat as [|d] eqn:Ed; [done|].
    cbn in Hxs. injection Hxs as -> ->.
    eapply (wq_mono _ _ (λ _ s', with_peers k (S n) c s')).
    2: { intros _ s' W2. exists (S n). replace d with (num_raft_servers - S n)%nat by lia. split; [done|]. split; [lia|done]. }
    case_bool_decide as E.
    + subst n. do 3 wstep. eapply wq_mono; [eapply add_peer; [..|done]|by intros ? ? ?; wstep].
      * unfold peer_ptr. by rewrite proc_srv, decide_True.
      * by rewrite (wp_udata _ _ _ _ W1).
      * by rewrite bool_decide_true.
    + wstep. eapply wq_mono; [eapply add_peer; [..|done]|by intros ? ? ?; wstep].
      * unfold peer_ptr. by rewrite proc_srv, decide_False.
      * done.
      * by rewrite bool_decide_false.
  - intros s1 (n & Hxs & Hn & W1). destruct (num_raft_servers - n)%nat eqn:Ed; [|done].
    by replace num_raft_servers with n by lia.
Qed.

Definition context_started (k : nat) (cycles tsc : Z) : AppContext :=
  set_raft_periodic_tsc tsc (set_cycles_per_msec cycles
    (set_node_id (get_raft_node_id_for_process k) (context_new num_raft_servers k (sessions k)))).

Lemma init_server_spec k cycles tsc s :
  no_log s.1 → at_rest (me s.2) → num_nodes (me s.2) = 0 → nodes (me s.2) = [] → node (me s.2) = None →
  heap s.2 = ∅ → heap_next s.2 = 1%positive → udata s.2 = context_new num_raft_servers k (sessions k) →
  wlp (init_server kUsePmem max_msg_size get_raft_node_id_for_process num_raft_servers k cycles tsc)
    (λ _ s', with_peers k num_raft_servers (context_started k cycles tsc) s') s.
Proof.
  intros Hlog Hme Hnum Hnodes Hnode Hheap Hnext Hud. unfold init_server. wstep. unfold raft_set_election_timeout.
  do 3 rstep. wstep. apply wlp_on_context. do 3 rstep. unfold raft_set_callbacks. do 4 rstep.
  rstep. unfold modify_log. wstep. wstep.
  eapply wq_mono; [apply (add_servers_spec k (set_node_id (get_raft_node_id_for_process k) (context_new num_raft_servers k (sessions k))))|].
  - done.
  - destruct Hlog as ([] & ? & ? & ?), Hme as (? & ? & ? & ? & ? & ? & ?). split; cbn; try done.
    + by rewrite Hud.
    + rewrite Hnum. lia.
    + intros _. rewrite Hnext, Hnode, Hheap. split_and!; [done|done|done|].
      intros p nd. rewrite lookup_empty. split; [done|]. lia.
  - intros _ s' [? ? ? Hu ? ?]. apply wlp_on_context. wstep. split; try done. cbn. by rewrite Hu.
Qed.

Lemma init_raft_spec k r a cycles tsc s :
  start_server kUsePmem max_msg_size num_raft_servers get_raft_node_id_for_process sessions k r a cycles tsc = Ok s →
  with_peers k num_raft_servers (context_started k cycles tsc) s.
Proof.
  unfold start_server, init_raft. destruct (raft_new r a _) as [[s0|]|] eqn:Hnew; [|done..]. cbn [mbind outcome_bind].
  apply raft_new_fresh in Hnew as (Hlog & Hme & Hnum & Hnodes & Hnode & Hheap & Hnext & Hud).
  pose proof (init_server_spec k cycles tsc s0 Hlog Hme Hnum Hnodes Hnode Hheap Hnext Hud) as Hw. unfold wq in Hw.
  destruct (init_server _ _ _ _ _ _ _ s0) as [[[] s1]|]; [|done]. cbn. by intros [= <-].
Qed.

Definition not_serving : leader_saveinfo_t := mk_saveinfo false None no_entry_response.
Lemma context_started_inv k cycles tsc : smr_inv (server_cfg k not_serving [] ∅ ∅) (context_started k cycles tsc).
Proof.
  assert (∀ n, n ∈ (∅ : gset nat) → False) as Hno by (intros n Hn; by apply not_elem_of_empty in Hn).
  split; cbn; [done|done|done|apply prefix_nil|apply empty_subseteq|apply map_empty_subseteq| | |apply pool_new_ok|..].
  - intros rq Hrq. by apply elem_of_nil in Hrq.
  - intros rq Hrq. by apply elem_of_nil in Hrq.
  - intros n []%Hno.
  - intros n m rq rq' []%Hno.
Qed.
Lemma start_sim k r a cycles tsc s :
  deployment → (k < num_raft_servers)%nat →
  start_server kUsePmem max_msg_size num_raft_servers get_raft_node_id_for_process sessions k r a cycles tsc = Ok s →
  num_nodes (me s.2) = Z.of_nat num_raft_servers →
  @sim _ _ _ smr V server_id (srv k) (server_cfg k not_serving [] ∅ ∅) [] [] s anode_zero ∧
  failed (udata s.2) = None ∧ udata s.2 = context_started k cycles tsc.
Proof.
  intros D Hk Hs%init_raft_spec Hn. destruct Hs as [[(Hwf & Hll & Hb & Hf) Hcb] (Ht & Hv & Hc & Hap & Hst & Hsn1 & Hsn2) Hcbs Hud _ Hfull].
  destruct (Hfull Hn) as (Htake & _ & Hnode & Hheap). rewrite decide_True in Hnode by done. rewrite Hud. split; [|done].
  assert (table (me s.2) = srv <$> seq 0 num_raft_servers) as Htab by (unfold table; by rewrite Hn, Nat2Z.id).
  assert (∀ p, p ∈ table (me s.2) ↔ p ∈ V) as HV.
  { intros p. rewrite Htab. unfold members. by rewrite elem_of_list_to_set. }
  split; [done| | | |].
  - split; rewrite ?Ht, ?Hv, ?Hc, ?Hap, ?Hst; try done.
    rewrite Htab. apply NoDup_fmap_2; [apply _|apply NoDup_seq].
  - split.
    + intros p nd [Hp ->]%Hheap. split; [by apply elem_of_members|]. by split.
    + intros p Hp%elem_of_members. eexists. by apply Hheap.
  - rewrite Hud. split; [by split|by rewrite Hll|by rewrite Hll].
  - rewrite Hud. split.
    + intros x Hx. change (x ∈ []) in Hx. by apply elem_of_nil in Hx.
    + done.
    + by rewrite Hap.
    + intros _. rewrite Hll. split; [apply pool_new_ok|]. split; [constructor|]. intros d Hd. change (d ∈ []) in Hd. by apply elem_of_nil in Hd.
    + intros _. apply context_started_inv.
Qed.
End start.
