(* ===== verification/SmrSim.v ===== *)
(** * The replication application: the handlers implement the protocol

    Each handler, continuation and part of the main loop that returns on a server is a
    sequence of moves of the protocol, and keeps the application's data. *)

From stdpp Require Import fin_sets.
From S2P Require Import Prelude RaftTypes RaftNode RaftLog RaftLogSpec RaftMembership RaftServer RaftFrame RaftProtocol RaftApp RaftRefine RaftRefineElection RaftRefineLog RaftRefineAppend SmrTypes SmrServer SmrApp SmrCluster.

Lemma wlp_raft_call {A} (m : M (raft AppContext) A) (P Q : A → raft AppContext → Prop) s :
  wlp m P s → (∀ x s', P x s' → failed (udata s'.2) = None → Q x s') → wlp (raft_call m) Q s.
Proof.
  intros Hm HQ. unfold raft_call. wstep. eapply wq_mono; [exact Hm|]. intros x s' Hx. do 2 wstep.
  destruct (failed (udata s'.2)) eqn:E; wstep. by apply HQ.
Qed.

Section handlers.
Context `{Garbage : StackGarbage} (kUsePmem : bool) (max_msg_size : Z) (num_raft_servers : nat)
  (get_raft_node_id_for_process : nat → Z) (sessions : nat → nat → Z).
Context (D : deployment num_raft_servers get_raft_node_id_for_process sessions).
#[local] Hint Extern 0 (RaftApp AppContext _ _) => exact (smr_app kUsePmem max_msg_size) : typeclass_instances.
Abbreviation V := (members num_raft_servers).
Abbreviation ids := (server_id get_raft_node_id_for_process).
Abbreviation funcs := (raft_funcs kUsePmem max_msg_size).
#[local] Instance smr_cluster : Cluster V ids := deployment_cluster _ _ _ D.
Context (i : positive) (Hi : i ∈ V) (net : positive → amsg (Z * Z * client_req_t) → Prop).
Implicit Types (s : raft AppContext) (c : AppContext) (a : anode (Z * Z * client_req_t)) (xs : list raft_entry_data_t).
Abbreviation moves := (rtc (lstep V i net)).

(** What the library may change is read from the context itself. *)
Definition cfg_now c : smr_cfg :=
  server_cfg num_raft_servers get_raft_node_id_for_process sessions (proc i) (leader_saveinfo c) (requests (rpc c)) (in_progress (rpc c))
    (kv_table c).
Definition server_sim xs s a : Prop := sim V ids i (cfg_now (udata s.2)) xs [] s a ∧ failed (udata s.2) = None.

Record progress s a s' a' : Prop := {
  pg_sim : server_sim [] s' a';
  pg_moves : moves a a';
  pg_requests : requests (rpc (udata s.2)) `prefix_of` requests (rpc (udata s'.2));
  pg_table : kv_table (udata s.2) ⊆ kv_table (udata s'.2)
}.
Definition progress_lib s a s' a' : Prop :=
  progress s a s' a' ∧ leader_saveinfo (udata s'.2) = leader_saveinfo (udata s.2).

Lemma smr_inv_now cfg c :
  smr_inv cfg c → c_uds cfg = c_uds (cfg_now c) → c_sessions cfg = c_sessions (cfg_now c) → c_node_id cfg = c_node_id (cfg_now c) →
  smr_inv (cfg_now c) c.
Proof.
  intros [? Hid Hss ? ? ? ? Hp ? Ht ?] E1 E2 E3.
  assert (∀ p session, peer_session cfg p session → peer_session (cfg_now c) p session) as Hps.
  { intros p session. unfold peer_session. by rewrite E1, E2. }
  split; try done; [by rewrite Hid|by rewrite Hss|..].
  - intros rq [p ?]%Hp. exists p. auto.
  - intros n Hn. destruct (Ht n Hn) as [rq [? (t & ? & ?) ? ?]]. exists rq. split; try done. exists t. auto.
Qed.

(** After an operation of the library. *)
Lemma lib_progress s0 a s s' a' :
  cfg_now (udata s0.2) = cfg_now (udata s.2) → sim V ids i (cfg_now (udata s.2)) [] [] s' a' → moves a a' →
  failed (udata s'.2) = None → progress_lib s0 a s' a'.
Proof.
  intros E Hs' Hm Hf. assert (smr_inv (cfg_now (udata s.2)) (udata s'.2)) as Hinv.
  { apply (us_inv (sim_user Hs')). unfold smr_app. cbn. unfold smr_ok. by rewrite Hf. }
  unfold cfg_now, server_cfg in E. injection E as Esv Erq _ Etb.
  split; [split|]; try done.
  - split; [|done]. eapply sim_cfg; [exact Hs'|done|]. intros _. by apply (smr_inv_now (cfg_now (udata s.2))).
  - rewrite Erq. apply (si_requests _ _ Hinv).
  - rewrite Etb. apply (si_table _ _ Hinv).
  - rewrite Esv. apply (si_saveinfo _ _ Hinv).
Qed.
Lemma raft_call_progress {A} (m : M (raft AppContext) A) s0 a0 a s :
  cfg_now (udata s0.2) = cfg_now (udata s.2) →
  wlp m (λ _ s', ∃ a', sim V ids i (cfg_now (udata s.2)) [] [] s' a' ∧ moves a a') s → moves a0 a →
  wlp (raft_call m) (λ _ s', ∃ a', progress_lib s0 a0 s' a') s.
Proof.
  intros E Hm H0. eapply wlp_raft_call; [exact Hm|]. intros _ s' (a' & Hs' & Hmv) Hf. exists a'.
  eapply lib_progress; [exact E|exact Hs'|by etrans|done].
Qed.

(** ** The main loop *)
#[local] Instance periodic_refines (cfg : smr_cfg) xs msec :
  Preserves (refines V ids i cfg net xs [] (λ _, True)) (raft_periodic (U := AppContext) msec) := refines_periodic V ids i Hi cfg net xs msec.
Lemma calm_tsc c tsc : smr_calm c (set_raft_periodic_tsc tsc c).
Proof. split_and!; try done. intros k _. by apply smr_inv_same. Qed.

Lemma call_raft_periodic_sim tsc s a :
  server_sim [] s a → wlp (call_raft_periodic tsc) (λ _ s', ∃ a', progress_lib s a s' a') s.
Proof.
  intros [Hs Hf]. unfold call_raft_periodic. do 2 wstep. wsplit; [by wstep|]. wsplit.
  - wstep. apply wlp_on_context. wstep. wstep.
    set (s1 := (s.1, set_udata (set_raft_periodic_tsc tsc (udata s.2)) s.2)).
    assert (sim V ids i (cfg_now (udata s.2)) [] [] s1 a) as Hs1 by (apply sim_calm; [apply calm_tsc|done]).
    eapply wq_mono; [apply (raft_call_progress _ s a a); [done| |done]|by intros ? ? ?; wstep].
    eapply wq_mono; [apply (refines_run V ids i (cfg_now (udata s.2)) net _ _ (λ _, True) _ _ _ Hs1); done|].
    intros _ s' (a' & ? & _ & ?). by exists a'.
  - wstep. eapply wq_mono; [apply (raft_call_progress _ s a a); [done| |done]|by intros ? ? ?; wstep].
    eapply wq_mono; [apply (refines_run V ids i (cfg_now (udata s.2)) net _ _ (λ _, True) _ _ _ Hs); done|].
    intros _ s' (a' & ? & _ & ?). by exists a'.
Qed.

(** The response to the leader's client: its entry is in the committed part of the
    log, and has been applied. *)
Lemma committed_entry_sim s a r :
  server_sim [] s a → 1 ≤ mer_idx r →
  wlp (raft_msg_entry_response_committed r) (λ st s', s' = s ∧
    (st = 1 → (Z.to_nat (mer_idx r) ≤ a_commit a)%nat ∧
       ∃ e, a_log a !! (Z.to_nat (mer_idx r) - 1)%nat = Some e ∧ e.1 = mer_term r)) s.
Proof.
  intros [Hs Hf] Hr. unfold raft_msg_entry_response_committed, raft_get_entry_from_idx. do 3 wstep.
  rewrite (get_at_sim _ Hs). rewrite (proj2 (Z.ltb_lt _ _)) by lia. wstep. injection H as <-.
  destruct (log_list s.1 !! _) as [e|] eqn:He; [|by wstep]. wsplit; bool_prop; [by wstep|]. do 3 wstep. split; [done|].
  unfold raft_get_commit_idx. destruct (Z.leb_spec (mer_idx r) (commit_idx (me s.2))) as [Hle|]; [|done]. intros _.
  rewrite (ms_commit (sim_me Hs)) in Hle. split; [lia|]. exists (smr_entry (udata s.2) e). split; [|done].
  rewrite (ls_log (sim_log Hs)), list_lookup_fmap.
  replace (Z.to_nat (mer_idx r) - 1)%nat with (Z.to_nat (mer_idx r - 1)) by lia. by rewrite He.
Qed.

(** The application changes its context between calls of the library. *)
Lemma server_sim_context xs s a c :
  server_sim xs s a → appdata c = appdata (udata s.2) → log_entry_appdata_pool c = log_entry_appdata_pool (udata s.2) →
  kv_table c = kv_table (udata s.2) → sent c = sent (udata s.2) → failed c = None → smr_inv (cfg_now c) c →
  server_sim xs (s.1, set_udata c s.2) a.
Proof.
  intros [Hs Hf] E1 E2 E3 E4 Ef Hinv. split; [|done].
  eapply sim_udata; [exact Hs|done| |].
  - intros e _. change (smr_entry c e = smr_entry (udata s.2) e). unfold smr_entry, payload. by rewrite E1.
  - destruct (sim_user Hs) as [Hsent Hterm Hm Ho _].
    assert (smr_ok (udata s.2) = true) as Hok by (unfold smr_ok; by rewrite Hf). split.
    + cbn. rewrite E4. exact Hsent.
    + intros _. by apply Hterm.
    + intros _. cbn. rewrite E3. by apply Hm.
    + intros _. eapply owns_same; [exact E1|exact E2|]. by apply Ho.
    + intros _. exact Hinv.
Qed.
Lemma server_sim_inv xs s a : server_sim xs s a → smr_inv (cfg_now (udata s.2)) (udata s.2).
Proof. intros [Hs Hf]. apply (us_inv (sim_user Hs)). cbn. unfold smr_ok. by rewrite Hf. Qed.
Lemma server_sim_saveinfo xs s a sav :
  server_sim xs s a → server_sim xs (s.1, set_udata (set_leader_saveinfo sav (udata s.2)) s.2) a.
Proof.
  intros Hs. pose proof (server_sim_inv _ _ _ Hs) as [? ? ? ? ? ? ? ? ? Ht ?]. apply server_sim_context; try done; [apply Hs|].
  split; try done. intros n Hn. destruct (Ht n Hn) as [rq []]. exists rq. by split.
Qed.

Definition committed_at a (r : msg_entry_response_t) : Prop :=
  (Z.to_nat (mer_idx r) ≤ a_commit a)%nat ∧ ∃ e, a_log a !! (Z.to_nat (mer_idx r) - 1)%nat = Some e ∧ e.1 = mer_term r.

Lemma check_commit_sim s a :
  server_sim [] s a → (in_use (leader_saveinfo (udata s.2)) = true → 1 ≤ mer_idx (msg_entry_response (leader_saveinfo (udata s.2)))) →
  wlp check_commit (λ out s', progress s a s' a ∧
    (out = [] ∧ leader_saveinfo (udata s'.2) = leader_saveinfo (udata s.2) ∨
     ∃ h, in_use (leader_saveinfo (udata s.2)) = true ∧ req_handle (leader_saveinfo (udata s.2)) = Some h ∧
       out = [(h, mk_client_resp kSuccess None)] ∧ in_use (leader_saveinfo (udata s'.2)) = false ∧
       committed_at a (msg_entry_response (leader_saveinfo (udata s.2))) ∧
       kv_table (udata s'.2) = replay (take (a_commit a) (a_log a)))) s.
Proof.
  intros Hss Hidx. pose proof Hss as [Hs Hf]. set (sav := leader_saveinfo (udata s.2)) in *.
  assert (progress s a s a) as Hrefl by by split. unfold check_commit. do 2 wstep. fold sav.
  destruct (in_use sav) eqn:Hin; cbn [negb]; [|wstep; by auto].
  wstep. eapply wq_mono; [apply committed_entry_sim; [exact Hss|by apply Hidx]|]. intros st s' [-> Hst].
  wsplit; bool_prop; [|wstep; by auto]. specialize (Hst ltac:(done)). wstep.
  eapply wlp_raft_call; [exact (apply_all_sim V ids i (cfg_now (udata s.2)) _ _ _ _ Hs)|].
  intros _ s1 [Hs1 Hap] Hf1.
  destruct (lib_progress s a s s1 a ltac:(done) Hs1 ltac:(done) Hf1) as [[Hss1 _ Hrq Htb] Hsv].
  wstep. apply wlp_on_context. wstep. destruct (req_handle sav) as [h|] eqn:Hh; wstep. split.
  - split; [by apply server_sim_saveinfo|done..].
  - right. exists h. split_and!; try done. cbn. destruct Hss1 as [Hsim1 _].
    rewrite (us_machine (sim_user Hsim1)); [|cbn; unfold smr_ok; by rewrite Hf1]. by rewrite Hap, Nat2Z.id.
Qed.

(** ** Sessions *)
Lemma peer_session_spec c p session :
  peer_session (cfg_now c) p session → p ∈ V ∧ p ≠ i ∧ session = sessions (proc i) (proc p).
Proof.
  intros [Hud Hs]. cbn in Hud, Hs. unfold peer_ptr in Hud, Hs. destruct (decide (proc p = proc i)) as [|Hne]; [lia|].
  unfold conn_ptr in Hs. replace (Z.to_nat (Z.of_nat (proc p) + 1 - 1)) with (proc p) in Hs by lia.
  unfold session_list, connections in Hs. rewrite !list_lookup_fmap in Hs.
  destruct (seq 0 num_raft_servers !! proc p) as [k|] eqn:Ek; [|done].
  apply lookup_seq in Ek as [-> Hp]. cbn in Hs. rewrite bool_decide_false in Hs by done. cbn in Hs. injection Hs as <-.
  split; [by apply elem_of_members|]. split; [congruence|done].
Qed.
Lemma session_list_lookup k j conn_session :
  session_list num_raft_servers sessions k !! j = Some conn_session →
  conn_session = (if decide (j = k) then -1 else sessions k j).
Proof.
  unfold session_list, connections. rewrite !list_lookup_fmap.
  destruct (seq 0 num_raft_servers !! j) as [x|] eqn:Ek; [|done]. apply lookup_seq in Ek as [-> Hp]. cbn.
  case_bool_decide; [rewrite decide_True by done|rewrite decide_False by done]; by intros [= <-].
Qed.
(** The process at the other end of the session of a request. *)
Lemma session_route c p q conn rq :
  smr_inv (cfg_now c) c → peer_session (cfg_now c) p (rq_session rq) →
  conn_vec c !! proc q = Some conn → session_num conn = rq_session rq → q = p.
Proof.
  intros Hinv (_ & Hpi & Hs)%peer_session_spec Hconn E. pose proof (si_sessions _ _ Hinv) as Hss. cbn in Hss.
  assert (session_list num_raft_servers sessions (proc i) !! proc q = Some (session_num conn)) as Hl%session_list_lookup.
  { by rewrite <- Hss, list_lookup_fmap, Hconn. }
  assert (proc p ≠ proc i) as Hpi' by (intros Hp; apply Hpi; by rewrite <- (srv_proc p), <- (srv_proc i), Hp).
  assert (0 ≤ sessions (proc i) (proc p)) by (apply (dp_session _ _ _ D); done).
  destruct (decide (proc q = proc i)); [lia|]. assert (proc q = proc p) as Hq.
  { apply (dp_sessions _ _ _ D (proc i)); [done|done|]. congruence. }
  by rewrite <- (srv_proc q), <- (srv_proc p), Hq.
Qed.

(** ** Votes *)
Lemma requestvote_handler_sim s a msg m q :
  server_sim [] s a → request_of msg = Some (RequestVote m) → q ∈ V → rv_candidate_id m = ids q →
  net q (MRequestVote (rv_term m) (Z.to_nat (rv_last_log_idx m)) (rv_last_log_term m)) →
  wlp (requestvote_handler msg) (λ r s', ∃ a', progress_lib s a s' a' ∧
    (rvr_vote_granted r = 1 → MVote (rvr_term r) q ∈ a_sent a')) s.
Proof.
  intros [Hs Hf] Hmsg Hc Hid Hnet. unfold requestvote_handler.
  assert (∃ nid rest, msg = CRequestVote nid m :: rest) as (nid & rest & ->).
  { unfold request_of in Hmsg. destruct msg as [|[] rest]; try done; [|by destruct (decode_entries _ _)]. injection Hmsg as ->. eauto. }
  wstep. eapply wq_mono; [apply get_node_reads|]. intros node s1 ->. wstep.
  eapply wlp_raft_call; [exact (recv_requestvote_sim V ids i Hi (cfg_now (udata s.2)) net _ _ _ node m q Hs Hc Hid Hnet)|].
  intros r s1 Hr Hf1. destruct Hr as (a1 & Hs1 & Hm1 & Hv1); [cbn; unfold smr_ok; by rewrite Hf1|].
  wstep. apply wlp_rt_assert. intros _. wstep. exists a1. split; [|done]. by eapply lib_progress.
Qed.

(** The end of a request: it is no longer in progress, and its tag may have been freed. *)
Lemma server_sim_requests s a c :
  server_sim [] s a → appdata c = appdata (udata s.2) → log_entry_appdata_pool c = log_entry_appdata_pool (udata s.2) →
  kv_table c = kv_table (udata s.2) → failed c = None → requests (rpc c) = requests (rpc (udata s.2)) → smr_inv (cfg_now c) c →
  server_sim [] (s.1, set_udata c s.2) a.
Proof. intros Hs E1 E2 E3 Ef Erq Hinv. apply server_sim_context; try done. unfold sent. by rewrite Erq. Qed.

Lemma smr_inv_fewer c c' :
  smr_inv (cfg_now c) c → node_id c' = node_id c → session_num <$> conn_vec c' = session_num <$> conn_vec c →
  requests (rpc c') = requests (rpc c) → in_progress (rpc c') ⊆ in_progress (rpc c) → tags c' = tags c →
  pool_ok (raft_req_tag_pool c') → pool_next (raft_req_tag_pool c') = pool_next (raft_req_tag_pool c) →
  (∀ n rq, n ∈ in_progress (rpc c') → requests (rpc c) !! n = Some rq → rq_tag rq ∉ pool_ (raft_req_tag_pool c) →
     rq_tag rq ∉ pool_ (raft_req_tag_pool c')) →
  smr_inv (cfg_now c') c'.
Proof.
  intros [? Hid Hss ? ? ? Hce Hp ? Ht Hd] E1 E2 E3 Esub E4 Hok E5 Hpool. split; try done.
  - by rewrite E1.
  - by rewrite E2.
  - intros rq. rewrite E3. apply Hce.
  - intros rq. rewrite E3. apply Hp.
  - intros n Hn. destruct (Ht n) as [rq [Hrq (t & Htag & ?) ? ?]]; [set_solver|]. exists rq.
    split; rewrite ?E3, ?E4, ?E5; try done; [by exists t|]. by eapply Hpool.
  - intros n m rq rq'. rewrite E3. intros. eapply Hd; [set_solver..| | |]; done.
Qed.

Lemma finish_sim n s a (m : AppContext → AppContext) :
  server_sim [] s a → (m = id ∨ ∃ tag rq, m = (λ c, set_raft_req_tag_pool (mempool_free tag (raft_req_tag_pool c)) c) ∧
    requests (rpc (udata s.2)) !! n = Some rq ∧ rq_tag rq = tag ∧ n ∈ in_progress (rpc (udata s.2))) →
  let c := m (udata s.2) in
  server_sim [] (s.1, set_udata (set_rpc (mk_rpc (connected_sessions (rpc c)) (requests (rpc c)) (in_progress (rpc c) ∖ {[n]})) c) s.2) a.
Proof.
  intros Hs Hm. pose proof (server_sim_inv _ _ _ Hs) as Hinv.
  destruct Hm as [->|(tag & rq & -> & Hrq & Htag & Hn)]; cbn.
  - apply server_sim_requests; try done; [apply Hs|]. apply (smr_inv_fewer (udata s.2)); try done; cbn; [set_solver|apply (si_pool _ _ Hinv)].
  - apply server_sim_requests; try done; [apply Hs|].
    destruct (si_tags _ _ Hinv n Hn) as [rq' [Hrq' _ Hr Hu]]. simplify_eq.
    apply (smr_inv_fewer (udata s.2)); try done; cbn; [set_solver|by apply mempool_free_ok; [apply (si_pool _ _ Hinv)|..]|].
    intros n' rq2 Hn' Hrq2 Hpool [E|?]%elem_of_cons; [|done].
    assert (n' = n) as -> by (eapply (si_distinct _ _ Hinv); [set_solver|done..]). set_solver.
Qed.

Lemma request_tag_sim n t s a (Q : Z → raft AppContext → Prop) :
  server_sim [] s a →
  (∀ rq tg p, requests (rpc (udata s.2)) !! n = Some rq → n ∈ in_progress (rpc (udata s.2)) → rq_type rq = t →
     tags (udata s.2) !! rq_tag rq = Some tg → p = tag_node tg → peer_session (cfg_now (udata s.2)) p (rq_session rq) →
     Q (rq_tag rq) s) →
  wlp (on_context (request_tag n t)) Q s.
Proof.
  intros Hs HQ. apply wlp_on_context. unfold request_tag. do 2 wstep. destruct (requests _ !! n) as [rq|] eqn:Hrq; [|by wstep].
  case_decide as Hc; [|by wstep]. destruct Hc as [Hn Ht]. wstep.
  destruct (si_tags _ _ (server_sim_inv _ _ _ Hs) n Hn) as [rq' [Hrq' (tg & Htg & Hp) _ _]]. simplify_eq.
  destruct s as [l h]. cbn in *. replace (set_udata (udata h) h) with h by by destruct h. by eapply HQ.
Qed.
Lemma tag_get_sim rq tg s (Q : raft_req_tag_t → raft AppContext → Prop) :
  tags (udata s.2) !! rq = Some tg → Q tg s → wlp (on_context (tag_get rq)) Q s.
Proof.
  intros Htg HQ. apply wlp_on_context. unfold tag_get. do 2 wstep. rewrite Htg. wstep.
  destruct s as [l h]. cbn. by replace (set_udata (udata h) h) with h by by destruct h.
Qed.

(** What is known of the response to a request of [i]. *)
Definition reply_ok {R} (ok : R → positive → Prop) (n : nat) (reply : option R) s : Prop :=
  ∀ r rq p, reply = Some r → requests (rpc (udata s.2)) !! n = Some rq →
    peer_session (cfg_now (udata s.2)) p (rq_session rq) → ok r p.
Definition vote_reply (r : msg_requestvote_response_t) (p : positive) : Prop :=
  rvr_vote_granted r = 1 → net p (MVote (rvr_term r) i).
Definition ack_reply (r : msg_appendentries_response_t) (p : positive) : Prop :=
  aer_success r ≠ 0 → 0 ≤ aer_current_idx r ∧ net p (MAck (aer_term r) (Z.to_nat (aer_current_idx r))).

Lemma progress_lib_finish n s a s' a' (m : AppContext → AppContext) :
  progress_lib s a s' a' → (m = id ∨ ∃ tag rq, m = (λ c, set_raft_req_tag_pool (mempool_free tag (raft_req_tag_pool c)) c) ∧
    requests (rpc (udata s'.2)) !! n = Some rq ∧ rq_tag rq = tag ∧ n ∈ in_progress (rpc (udata s'.2))) →
  let c := m (udata s'.2) in
  progress_lib s a (s'.1, set_udata (set_rpc (mk_rpc (connected_sessions (rpc c)) (requests (rpc c)) (in_progress (rpc c) ∖ {[n]})) c) s'.2) a'.
Proof.
  intros [[Hs Hm Hrq Htb] Hsv] Hc c. split; [split|]; try done; [by apply (finish_sim n s' a')|..];
    unfold c; destruct Hc as [->|(? & ? & -> & _)]; done.
Qed.

Lemma requestvote_done_sim n reply s a :
  server_sim [] s a → reply_ok vote_reply n reply s →
  wlp (requestvote_done n reply) (λ _ s', ∃ a', progress_lib s a s' a') s.
Proof.
  intros Hss Hok. pose proof Hss as [Hs Hf]. unfold requestvote_done. wstep. eapply request_tag_sim; [done|].
  intros rq tg p Hrq Hn Ht Htg -> Hp. wstep.
  eapply (wq_mono _ _ (λ _ s', ∃ a', progress_lib s a s' a')).
  - unfold requestvote_cont. wstep. eapply tag_get_sim; [done|]. destruct reply as [r|].
    + wstep. eapply wq_mono; [|intros e s'; intros H; apply wlp_rt_assert; intros _; exact H].
      apply (raft_call_progress _ s a a); [done| |done].
      apply (recv_requestvote_response_sim V ids i Hi (cfg_now (udata s.2)) net [] s a (tag_node tg) r Hs).
      * by apply peer_session_spec in Hp as (? & ? & _).
      * by apply (Hok r rq).
    + wstep. exists a. by split.
  - intros _ s1 (a1 & H1). apply wlp_on_context. unfold finish_request. wstep. exists a1.
    by apply (progress_lib_finish n s a s1 a1 id); [|left].
Qed.

Lemma appendentries_done_sim n reply s a :
  server_sim [] s a → reply_ok ack_reply n reply s →
  wlp (appendentries_done n reply) (λ _ s', ∃ a', progress_lib s a s' a') s.
Proof.
  intros Hss Hok. pose proof Hss as [Hs Hf]. unfold appendentries_done. wstep. eapply request_tag_sim; [done|].
  intros rq tg p Hrq Hn Ht Htg -> Hp. wstep. unfold appendentries_cont. wstep. eapply tag_get_sim; [done|]. wstep.
  eapply (wq_mono _ _ (λ _ s', ∃ a', progress_lib s a s' a' ∧ in_progress (rpc (udata s.2)) ⊆ in_progress (rpc (udata s'.2)))).
  - destruct reply as [r|].
    + wstep. eapply wlp_raft_call.
      * apply (recv_appendentries_response_sim V ids i Hi (cfg_now (udata s.2)) net [] s a (tag_node tg) r Hs).
        -- by apply peer_session_spec in Hp as (? & ? & _).
        -- by apply (Hok r rq).
      * intros e s' (a' & Hs' & Hm') Hf'. apply wlp_rt_assert. intros _. exists a'. split; [by eapply lib_progress|].
        apply (si_in_progress (cfg_now (udata s.2))). apply (us_inv (sim_user Hs')). cbn. unfold smr_ok. by rewrite Hf'.
    + wstep. exists a. split; [by split|done].
  - intros _ s1 (a1 & H1 & Hsub). apply wlp_on_context. unfold tag_free. wstep. apply wlp_on_context. unfold finish_request. wstep. exists a1.
    destruct H1 as [H1 H1']. destruct (pg_requests _ _ _ _ H1) as [k Hk].
    apply (progress_lib_finish n s a s1 a1 (λ c, set_raft_req_tag_pool (mempool_free (rq_tag rq) (raft_req_tag_pool c)) c)); [done|].
    right. exists (rq_tag rq), rq. split; [done|]. split; [|split; [done|by apply Hsub]].
    rewrite Hk. by apply lookup_app_l_Some.
Qed.

(** ** Payloads *)
Definition data_of (p : Z) : raft_entry_data_t := mk_data p client_req_size.
Lemma smr_inv_pool c pool' data' :
  smr_inv (cfg_now c) c → smr_inv (cfg_now c) (set_appdata data' (set_log_entry_appdata_pool pool' c)).
Proof. by apply smr_inv_same. Qed.

Lemma appdata_alloc_sim s a req c xs :
  server_sim xs (s.1, set_udata c s.2) a →
  wlp (appdata_alloc req) (λ p c', server_sim (data_of p :: xs) (s.1, set_udata c' s.2) a ∧ cfg_now c' = cfg_now c ∧
    payload c' (data_of p) = req ∧ (∀ d, d ∈ xs → payload c' d = payload c d)) c.
Proof.
  intros [Hs Hf]. cbn in Hf. assert (smr_ok c = true) as Hok by (unfold smr_ok; by rewrite Hf).
  unfold appdata_alloc. do 3 wstep. destruct (mempool_alloc _) as [[p pool']|] eqn:Ha; [|by wstep]. wstep. injection H as <-.
  do 3 wstep. cbn [fst snd]. set (c' := set_appdata _ _).
  destruct (sim_user Hs) as [Hsent Hterm Hmach (Hpool & Hnd & Hds) Hinv]; [exact Hok|].
  destruct (mempool_alloc_spec _ _ _ Hpool Ha) as (Hpool' & Hp & Hle & Hfree & Hnew & Hin).
  assert (∀ d, d ∈ (ety_data <$> log_list s.1) ++ xs → buf d ≠ p) as Hne.
  { intros d Hd. destruct (Hds d Hd) as (_ & Hr & Hu). intros E. rewrite E in *. cbn in *. destruct Hnew; [done|lia]. }
  assert (∀ d, buf d ≠ p → payload c' d = payload c d) as Hpay.
  { intros d Hd. unfold payload. cbn. by rewrite lookup_insert_ne by congruence. }
  split; [split; [|done]|split_and!; try done].
  - apply (sim_udata V ids i (cfg_now c) (cfg_now c') xs (data_of p :: xs) (s.1, set_udata c s.2) a c'); [done|done| |].
    + intros e He. change (smr_entry c' e = smr_entry c e). unfold smr_entry. rewrite Hpay; [done|].
      apply Hne, elem_of_app. left. by apply list_elem_of_fmap_2.
    + split; [exact Hsent|intros _; by apply Hterm|intros _; by apply Hmach| |].
      2: { intros _. apply (smr_inv_pool c). by apply Hinv. }
      intros _. split; [done|]. split.
      * rewrite fmap_app. cbn. rewrite <- Permutation_middle. constructor.
        -- rewrite <- fmap_app. intros (d & E & Hd)%list_elem_of_fmap. by apply (Hne d).
        -- by rewrite <- fmap_app.
      * intros d [Hd|[->|Hd]%elem_of_cons]%elem_of_app; [|done|];
          (destruct (Hds d) as (? & ? & ?); [set_solver|]; split; [done|]; cbn in *; split; [lia|]; intros ?%Hin; naive_solver lia).
  - unfold payload. cbn. by rewrite lookup_insert_eq.
  - intros d Hd. apply Hpay, Hne, elem_of_app. by right.
Qed.
Lemma server_sim_perm xs ys s a : server_sim xs s a → xs ≡ₚ ys → server_sim ys s a.
Proof.
  intros [Hs Hf] Hp. split; [|done]. eapply sim_weaken; [|exact Hs]. by rewrite Hp.
Qed.

Lemma unpack_entries_sim n cells s a c xs :
  server_sim xs (s.1, set_udata c s.2) a → Forall cell_ok cells →
  wlp (unpack_entries n cells) (λ ets c', server_sim ((ety_data <$> ets) ++ xs) (s.1, set_udata c' s.2) a ∧ cfg_now c' = cfg_now c ∧
    decode_entries n cells = Some (smr_entry c' <$> ets) ∧ length ets = n ∧ (∀ d, d ∈ xs → payload c' d = payload c d)) c.
Proof.
  revert cells c xs. induction n as [|n IH]; intros cells c xs Hs Hc; cbn [unpack_entries]; [by wstep|].
  destruct cells as [|[| |e|] [|[| | |req] cells]]; try done. apply Forall_cons in Hc as [Hlen [_ Hc]%Forall_cons]. cbn in Hlen.
  wstep. eapply wq_mono; [by apply appdata_alloc_sim|]. intros p c1 (Hs1 & Ecfg1 & Hreq & Hpay1). wstep.
  eapply wq_mono; [apply (IH cells c1 _ Hs1 Hc)|]. intros ets c2 (Hs2 & Ecfg2 & Hd & Hlen2 & Hpay2). wstep.
  assert (ety_data (set_ety_data (mk_data p (len (ety_data e))) e) = data_of p) as Ee by (unfold data_of; by rewrite <- Hlen).
  split_and!.
  - eapply server_sim_perm; [exact Hs2|]. cbn. rewrite Hlen. symmetry. apply Permutation_middle.
  - congruence.
  - cbn [decode_entries]. rewrite Hd. cbn. unfold smr_entry at 2. rewrite Ee, Hpay2 by (by left). by rewrite Hreq.
  - cbn. by rewrite Hlen2.
  - intros d Hd'. rewrite Hpay2 by (by right). by apply Hpay1.
Qed.

(** ** Append-entries requests *)
Lemma appendentries_handler_sim s a msg j :
  server_sim [] s a → Forall cell_ok msg →
  (∀ t prev pterm lc es, request_of msg = Some (AppendEntries t prev pterm lc es) →
     0 ≤ prev ∧ 0 ≤ lc ∧ Forall (abs_entry_ok t) es ∧ net j (MAppend t (Z.to_nat prev) pterm es (Z.to_nat lc)) ∧
     (a_term a = t → a_role a ≠ RAFT_STATE_LEADER)) →
  wlp (appendentries_handler msg) (λ r s', ∃ a', progress_lib s a s' a' ∧
    (aer_success r ≠ 0 → 0 ≤ aer_current_idx r ∧ MAck (aer_term r) (Z.to_nat (aer_current_idx r)) ∈ a_sent a')) s.
Proof.
  intros Hss Hcells Hmsg. unfold appendentries_handler. wstep. apply wlp_on_context.
  destruct msg as [|[|nid ae| |] cells]; try done. apply Forall_cons in Hcells as [Hn Hcells]. cbn in Hn.
  cbn [unpack]. wstep.
  assert (server_sim [] (s.1, set_udata (udata s.2) s.2) a) as Hss' by (destruct s as [l h]; cbn; by replace (set_udata (udata h) h) with h by by destruct h).
  eapply wq_mono; [by apply (unpack_entries_sim _ _ s a _ [])|]. intros ets c' (Hs1 & Ecfg & Hd & Hlen & _). wstep. cbn [fst snd].
  set (s1 := (s.1, set_udata c' s.2)) in *. rewrite app_nil_r in Hs1. destruct Hs1 as [Hs1 Hf1].
  cbn [request_of] in Hmsg. rewrite Hd in Hmsg. destruct (Hmsg _ _ _ _ _ eq_refl) as (Hp & Hlc & Hes & Hnet & Hlead).
  assert (ae_from net c' (set_ae_entries ets ae) j) as Hfrom.
  { split; cbn; try done; [lia|]. clear -Hes. rewrite Forall_fmap in Hes. eapply Forall_impl; [exact Hes|].
    intros e. done. }
  wstep. eapply wq_mono; [apply get_node_reads|]. intros node s2 ->. wstep.
  eapply wlp_raft_call; [exact (recv_appendentries_sim V ids i (cfg_now c') net s1 a node (set_ae_entries ets ae) j Hs1 Hfrom Hlead)|].
  intros r s2 Hr Hf2. wstep. apply wlp_rt_assert. intros Hr0. bool_prop. wstep. destruct (Hr Hr0) as (a' & Hs2 & Hm & Hack).
  exists a'. split; [|done]. by apply (lib_progress s a s1).
Qed.

(** ** Requests of clients *)
Definition entry_at a (r : msg_entry_response_t) (req : client_req_t) : Prop :=
  1 ≤ mer_idx r ∧ ∃ L e, a_lead a !! mer_term r = Some L ∧ L !! (Z.to_nat (mer_idx r) - 1)%nat = Some e ∧
    e.1 = mer_term r ∧ e.2.2 = req.

Lemma recv_entry_progress s a ety r0 req :
  server_sim [ety_data ety] s a → normal_entry ety → payload (udata s.2) (ety_data ety) = req →
  wlp (raft_call (raft_recv_entry ety r0)) (λ r s', r.1.1 = 0 → ∃ a', progress_lib s a s' a' ∧ entry_at a' r.2 req) s.
Proof.
  intros [Hs Hf] Hn Hreq. eapply wlp_raft_call; [exact (recv_entry_sim V ids i (cfg_now (udata s.2)) net [] s a ety r0 Hs Hn)|].
  intros r s' Hr Hf' Hr0. destruct (Hr Hr0) as (a' & ms & Hs' & Hm & Ea' & _ & Er). exists a'.
  split; [by eapply lib_progress|]. rewrite Er.
  assert (a_log a' = a_log a ++ [app_entry (udata s.2) (set_ety_term (a_term a) ety)]) as El by (rewrite Ea' at 1; done).
  split; cbn [mer_idx mer_term]; [rewrite El, length_app; cbn; lia|].
  exists (a_log a'), (app_entry (udata s.2) (set_ety_term (a_term a) ety)).
  split; [rewrite Ea' at 1; cbn; apply lookup_insert_eq|]. split; [|by split].
  rewrite Nat2Z.id, El, length_app, Nat.add_sub. by apply list_lookup_middle.
Qed.

Lemma client_req_handler_sim s a process_id h req :
  server_sim [] s a →
  wlp (client_req_handler process_id h req) (λ out s', ∃ a', progress s a s' a' ∧
    ((∃ r, out = [(h, r)] ∧ resp_type r ≠ kSuccess) ∧ leader_saveinfo (udata s'.2) = leader_saveinfo (udata s.2) ∨
     out = [] ∧ req_handle (leader_saveinfo (udata s'.2)) = Some h ∧
       entry_at a' (msg_entry_response (leader_saveinfo (udata s'.2))) req)) s.
Proof.
  intros Hss. assert (progress s a s a) as Hrefl by by split. unfold client_req_handler. do 2 wstep.
  destruct (raft_get_current_leader_node s) as [p|].
  2: { wstep. exists a. split; [done|]. left. split; [|done]. by eexists. }
  rstep. rstep. wsplit; [wstep; exists a; split; [done|]; left; split; [|done]; by eexists|]. rstep.
  apply wlp_on_context. wstep. set (c1 := set_leader_saveinfo _ (udata s.2)).
  pose proof (server_sim_saveinfo _ _ _ (mk_saveinfo true (Some h) (msg_entry_response (leader_saveinfo (udata s.2)))) Hss) as Hs1.
  wstep. apply wlp_on_context. eapply wq_mono; [exact (appdata_alloc_sim s a req c1 [] Hs1)|].
  intros q c2 (Hs2 & Ecfg & Hpay & _). cbn [fst snd]. set (s2 := (s.1, set_udata c2 _)).
  assert (server_sim [data_of q] s2 a) as Hs2' by exact Hs2. do 3 wstep.
  set (ety := mk_entry 0 process_id RAFT_LOGTYPE_NORMAL (mk_data q client_req_size)).
  eapply wq_mono; [exact (recv_entry_progress s2 a ety _ req Hs2' ltac:(done) Hpay)|].
  intros r s3 Hr. wstep. apply wlp_on_context. do 2 wstep. apply wlp_rt_assert. intros E. bool_prop. wstep.
  destruct (Hr E) as (a' & [[Hs3 Hm Hrq Htb] Hsv] & He). exists a'.
  unfold cfg_now, server_cfg in Ecfg. injection Ecfg as Esv Erq _ Etb. cbn [snd udata set_udata] in *.
  split; [split; [by apply server_sim_saveinfo|done|by rewrite <- Erq|by rewrite <- Etb]|].
  right. split; [done|]. cbn. rewrite Hsv. cbn. rewrite Esv. by split.
Qed.

(** ** Sessions come and go *)
Lemma sm_handler_sim session ev s a :
  server_sim [] s a → wlp (on_context (smr_sm_handler session ev)) (λ _ s', progress_lib s a s' a) s.
Proof.
  intros Hs. apply wlp_on_context. unfold smr_sm_handler. wstep. apply wlp_rt_assert. intros _. do 2 wstep.
  assert (progress_lib s a (s.1, set_udata (udata s.2) s.2) a) as Hrefl.
  { destruct s as [l h]. cbn. replace (set_udata (udata h) h) with h by by destruct h. by split. }
  destruct (list_find _ _) as [[k conn]|]; [|by wstep]. destruct ev; wstep; try done.
  split; [split|]; try done. apply server_sim_requests; try done; [apply Hs|].
  pose proof (server_sim_inv _ _ _ Hs) as Hinv. apply (smr_inv_fewer (udata s.2)); try done; [|apply (si_pool _ _ Hinv)].
  cbn. apply list_eq. intros n. rewrite !list_lookup_fmap. destruct (decide (n = length (conn_vec (udata s.2)) - 1 - k)%nat) as [->|Hne].
  - rewrite list_lookup_alter_eq. by destruct (_ !! _).
  - by rewrite list_lookup_alter_ne.
Qed.
Lemma connect_sim ss s a :
  server_sim [] s a →
  wlp (on_context (modify (λ c, set_rpc (mk_rpc ss (requests (rpc c)) (in_progress (rpc c))) c))) (λ _ s', progress_lib s a s' a) s.
Proof.
  intros Hs. apply wlp_on_context. wstep. split; [split|]; try done.
  apply server_sim_requests; try done; [apply Hs|].
  pose proof (server_sim_inv _ _ _ Hs) as Hinv. apply (smr_inv_fewer (udata s.2)); try done. apply (si_pool _ _ Hinv).
Qed.
End handlers.
