(* ===== verification/SmrInv.v ===== *)
(** * The replication application: the invariant of a cluster

    Every cluster that the servers reach is related to a reachable state of the
    protocol: each server to its node, every response in flight to the messages of the
    server that gave it, the request a leader remembers to an entry of its log, and
    every success reported to a client to a committed entry that was applied. *)

From stdpp Require Import fin_sets.
From S2P Require Import Prelude RaftTypes RaftNode RaftLog RaftLogSpec RaftMembership RaftServer RaftFrame RaftProtocol RaftProtocolStep RaftApp RaftRefine RaftRefineElection RaftRefineLog RaftRefineAppend SmrTypes SmrServer SmrApp SmrCluster SmrSim.

Section inv.
Context `{Garbage : StackGarbage} (kUsePmem : bool) (max_msg_size : Z) (num_raft_servers : nat)
  (get_raft_node_id_for_process : nat → Z) (sessions : nat → nat → Z).
Context (D : deployment num_raft_servers get_raft_node_id_for_process sessions).
#[local] Hint Extern 0 (RaftApp AppContext _ _) => exact (smr_app kUsePmem max_msg_size) : typeclass_instances.
Abbreviation V := (members num_raft_servers).
Abbreviation ids := (server_id get_raft_node_id_for_process).
Abbreviation node_state := (anode (Z * Z * client_req_t)).
Abbreviation server_sim := (server_sim kUsePmem max_msg_size num_raft_servers get_raft_node_id_for_process sessions).
Abbreviation progress := (progress kUsePmem max_msg_size num_raft_servers get_raft_node_id_for_process sessions).
Abbreviation cfg_now := (cfg_now num_raft_servers get_raft_node_id_for_process sessions).
Implicit Types (cl : cluster) (g : gmap positive node_state) (s : raft AppContext) (a : node_state) (i j p : positive).

(** ** The invariant *)
Definition saved_ok (qs : gmap req_handle_t client_req_t) a (sav : leader_saveinfo_t) : Prop :=
  in_use sav = true → ∃ h req, req_handle sav = Some h ∧ qs !! h = Some req ∧ entry_at a (msg_entry_response sav) req.
(** Response [r] to request [n] of [j] came from the process that the request was sent to. *)
Definition replied {R} (cl : cluster) (ok : R → positive → positive → Prop) (x : positive * req_handle_t * R) : Prop :=
  ∀ i j n r, x = (i, FromServer j n, r) → ok r i j ∧
    ∃ s rq, servers cl !! j = Some s ∧ requests (rpc (udata s.2)) !! n = Some rq ∧
      ∀ p, peer_session (cfg_now j (udata s.2)) p (rq_session rq) → p = i.
Definition vote_ok g (r : msg_requestvote_response_t) i j : Prop :=
  rvr_vote_granted r = 1 → in_net g i (MVote (rvr_term r) j).
Definition ack_ok g (r : msg_appendentries_response_t) i j : Prop :=
  aer_success r ≠ 0 → 0 ≤ aer_current_idx r ∧ in_net g i (MAck (aer_term r) (Z.to_nat (aer_current_idx r))).
(** Entry [k + 1] of the log committed by the terms up to [tm] is request [req]. *)
Definition committed_request g (k : nat) (tm : Z) (req : client_req_t) : Prop :=
  ∃ l e, committed_prefix V g l (S k) tm ∧ l !! k = Some e ∧ e.2.2 = req.
Definition answered g cl (x : positive * req_handle_t * client_resp_t) : Prop :=
  ∀ i h r, x = (i, h, r) → resp_type r = kSuccess →
    ∃ req k tm s, asked cl !! h = Some req ∧ committed_request g k tm req ∧ servers cl !! i = Some s ∧
      tm ≤ current_term (me s.2) ∧ is_Some (kv_table (udata s.2) !! key req).

Record cluster_inv g cl : Prop := {
  ci_reach : g_reachable V g;
  ci_server i s : servers cl !! i = Some s → i ∈ V ∧ ∃ a, g !! i = Some a ∧ server_sim i [] s a ∧
    saved_ok (asked cl) a (leader_saveinfo (udata s.2));
  ci_rv : Forall (replied cl (vote_ok g)) (rv_replies cl);
  ci_ae : Forall (replied cl (ack_ok g)) (ae_replies cl);
  ci_answers : Forall (answered g cl) (answers cl)
}.

Lemma g_init_lookup i : i ∈ V → g_init (P := Z * Z * client_req_t) V !! i = Some anode_zero.
Proof. intros Hi. unfold g_init. apply lookup_gset_to_gmap_Some. by split. Qed.
Lemma cluster_start_inv cl :
  cluster_start kUsePmem max_msg_size num_raft_servers get_raft_node_id_for_process sessions cl → cluster_inv (g_init V) cl.
Proof.
  intros [Hdom Hsrv (E1 & E2 & E3 & E4)]. split; rewrite ?E1, ?E2, ?E4; try done; [constructor|].
  intros i s Hs. assert (i ∈ V) as Hi by (rewrite <- Hdom; by apply elem_of_dom_2 in Hs). split; [done|].
  exists anode_zero. split; [by apply g_init_lookup|]. destruct (Hsrv i s Hs) as [Hn (r & al & cyc & tsc & Hst)].
  apply (start_sim _ _ _ _ _ _ _ _ _ _ _ D) in Hst as (Hsim & Hf & Hu); [|by apply elem_of_members|done].
  rewrite srv_proc in Hsim. split; [split; [rewrite Hu; exact Hsim|exact Hf]|by rewrite Hu].
Qed.

(** ** One server moves *)
Section move.
Context (g : gmap positive node_state) (cl : cluster) (i : positive) (s s' : raft AppContext) (a a' : node_state).
Context (HI : cluster_inv g cl) (Hs : servers cl !! i = Some s) (Ha : g !! i = Some a) (Hp : progress i (in_net g) s a s' a').
Abbreviation g' := (<[i := a']> g).
Abbreviation cl' := (set_servers (<[i := s']> (servers cl)) cl).

Lemma moved_reach : rtc (gstep V) g g'.
Proof. eapply lsteps_gsteps; [done|apply Hp]. Qed.
Lemma moved_ext : ext g g'.
Proof. eapply gsteps_ext; [apply g_reachable_inv, (ci_reach _ _ HI)|apply moved_reach]. Qed.
Lemma moved_net j m : in_net g j m → in_net g' j m.
Proof.
  intros (b & Hb & Hm). destruct (decide (j = i)) as [->|]; [|exists b; by rewrite lookup_insert_ne].
  exists a'. rewrite lookup_insert_eq. simplify_eq. split; [done|].
  pose proof (pg_moves _ _ _ _ _ _ _ _ _ _ _ Hp) as Hm'. clear -Hm Hm'. induction Hm'; [done|]. by eapply IHHm', lstep_sent_mono.
Qed.
Lemma moved_replied {R} (ok ok' : R → positive → positive → Prop) xs :
  (∀ r i j, ok r i j → ok' r i j) → Forall (replied cl ok) xs → Forall (replied cl' ok') xs.
Proof.
  intros Hok Hxs. eapply Forall_impl; [exact Hxs|]. intros x Hx k j n r E. destruct (Hx k j n r E) as (? & s0 & rq & Hs0 & Hrq & Hd).
  split; [auto|]. cbn. destruct (decide (j = i)) as [->|]; [|exists s0, rq; by rewrite lookup_insert_ne].
  exists s', rq. rewrite lookup_insert_eq. simplify_eq. split_and!; [done| |exact Hd].
  destruct (pg_requests _ _ _ _ _ _ _ _ _ _ _ Hp) as [? ->]. by apply lookup_app_l_Some.
Qed.
Lemma committed_request_mono k tm req : committed_request g k tm req → committed_request g' k tm req.
Proof.
  intros (l & e & Hc & ? & ?). exists l, e. split_and!; [|done|done].
  eapply committed_prefix_mono; [apply moved_ext|done|done].
Qed.
Lemma moved_node : n_ext a a'.
Proof. destruct (moved_ext i a Ha) as (b & Hb & X). rewrite lookup_insert_eq in Hb. by simplify_eq. Qed.
Lemma moved_term : current_term (me s.2) ≤ current_term (me s'.2).
Proof.
  destruct (ci_server _ _ HI i s Hs) as (_ & b & Hb & [Hsim _] & _). simplify_eq.
  rewrite (ms_term (sim_me Hsim)), (ms_term (sim_me (proj1 (pg_sim _ _ _ _ _ _ _ _ _ _ _ Hp)))). apply moved_node.
Qed.
Lemma moved_answers : Forall (answered g cl) (answers cl) → Forall (answered g' cl') (answers cl).
Proof.
  intros Hxs. eapply Forall_impl; [exact Hxs|]. intros x Hx k h r E Hr. destruct (Hx k h r E Hr) as (req & n & tm & s0 & ? & Hc & Hs0 & Htm & [v Hk]).
  destruct (decide (k = i)) as [->|].
  - exists req, n, tm, s'. simplify_eq. cbn. rewrite lookup_insert_eq. split_and!; [done|by apply committed_request_mono|done|etrans; [done|apply moved_term]|].
    exists v. eapply lookup_weaken; [done|apply Hp].
  - exists req, n, tm, s0. cbn. rewrite lookup_insert_ne by done. split_and!; [done|by apply committed_request_mono|done|done|by exists v].
Qed.
Lemma move_inv : saved_ok (asked cl) a' (leader_saveinfo (udata s'.2)) → cluster_inv g' cl'.
Proof.
  intros Hsav. destruct HI as [Hr Hsrv Hrv Hae Hans]. split; cbn.
  - unfold g_reachable in *. etrans; [exact Hr|exact moved_reach].
  - intros j sj. rewrite lookup_insert_Some. intros [[<- <-]|[Hne Hj]].
    + split; [by eapply Hsrv|]. exists a'. rewrite lookup_insert_eq. split_and!; [done|apply Hp|done].
    + destruct (Hsrv j sj Hj) as (? & b & Hb & ? & ?). split; [done|]. exists b. by rewrite lookup_insert_ne.
  - eapply moved_replied; [|done]. intros r k j Hv Hg. by apply moved_net, Hv.
  - eapply moved_replied; [|done]. intros r k j Hv Hg. destruct (Hv Hg). split; [done|]. by apply moved_net.
  - by apply moved_answers.
Qed.
Lemma entry_at_mono r req : entry_at a r req → entry_at a' r req.
Proof.
  intros (H1 & L & e & HL & He & ? & ?). split; [done|]. destruct (nx_lead _ _ moved_node _ _ HL) as (L' & ? & ?).
  exists L', e. split_and!; try done. by eapply prefix_lookup_Some.
Qed.
(** What the leader remembers stays true. *)
Lemma move_inv_saved : leader_saveinfo (udata s'.2) = leader_saveinfo (udata s.2) → cluster_inv g' cl'.
Proof.
  intros E. apply move_inv. rewrite E. destruct (ci_server _ _ HI i s Hs) as (_ & b & Hb & _ & Hsav). simplify_eq.
  intros (h & req & ? & ? & ?)%Hsav. exists h, req. split_and!; try done. by apply entry_at_mono.
Qed.
End move.

(** ** The parts of a step *)
Lemma run_server_Some {A} i (m : M (raft AppContext) A) cl x cl' :
  run_server i m cl = Some (x, cl') → ∃ s s', servers cl !! i = Some s ∧ m s = Ok (x, s') ∧ cl' = set_servers (<[i := s']> (servers cl)) cl.
Proof.
  unfold run_server. case_decide; [|done]. destruct (servers cl !! i) as [s|] eqn:Hs; [|done].
  destruct (m s) as [[y s']|] eqn:E; [|done]. intros [= <- <-]. by exists s, s'.
Qed.

Lemma lib_step {A} g cl i (m : M (raft AppContext) A) x cl' :
  cluster_inv g cl → run_server i m cl = Some (x, cl') →
  (∀ s a, servers cl !! i = Some s → g !! i = Some a → i ∈ V → server_sim i [] s a →
     wlp m (λ _ s', ∃ a', progress i (in_net g) s a s' a' ∧ leader_saveinfo (udata s'.2) = leader_saveinfo (udata s.2)) s) →
  ∃ g', cluster_inv g' cl'.
Proof.
  intros HI (s & s' & Hs & Hrun & ->)%run_server_Some Hm. destruct (ci_server _ _ HI i s Hs) as (Hi & a & Ha & Hsim & Hsav).
  destruct (wq_run _ _ _ _ _ _ (Hm s a Hs Ha Hi Hsim) Hrun) as (a' & Hp & Esv).
  exists (<[i := a']> g). by eapply move_inv_saved.
Qed.

(** A request that arrives: its sender, and what was sent. *)
Lemma arriving_spec g cl j n i t msg :
  cluster_inv g cl → arriving j n i t cl = Some msg →
  ∃ sj aj rq, servers cl !! j = Some sj ∧ g !! j = Some aj ∧ server_sim j [] sj aj ∧ j ∈ V ∧ i ≠ j ∧
    requests (rpc (udata sj.2)) !! n = Some rq ∧ rq_msg rq = msg ∧ Forall cell_ok msg ∧
    (∀ p, peer_session (cfg_now j (udata sj.2)) p (rq_session rq) → p = i) ∧
    (∀ x, request_of msg = Some x → request_in ids j (λ x, x ∈ a_sent aj) x).
Proof.
  intros HI. unfold arriving. destruct (servers cl !! j) as [sj|] eqn:Hj; [|done]. cbn.
  destruct (requests _ !! n) as [rq|] eqn:Hrq; [|done]. cbn. destruct (conn_vec _ !! proc i) as [conn|] eqn:Hconn; [|done]. cbn.
  case_decide as Hc; [|done]. destruct Hc as [Ht Hse]. intros [= <-]. destruct (ci_server _ _ HI j sj Hj) as (Hjv & aj & Haj & Hsim & _).
  pose proof (server_sim_inv _ _ _ _ _ _ _ _ _ Hsim) as Hinv. pose proof (list_elem_of_lookup_2 _ _ _ Hrq) as Hin.
  assert (∀ p, peer_session (cfg_now j (udata sj.2)) p (rq_session rq) → i = p) as Hroute.
  { intros p Hp. by eapply (session_route _ _ _ D j). }
  destruct (si_peers _ _ Hinv rq Hin) as [p Hp]. pose proof (Hroute p Hp) as ->.
  exists sj, aj, rq. split_and!; try done.
  - by apply peer_session_spec in Hp as (_ & ? & _).
  - by apply (si_cells _ _ Hinv).
  - intros q Hq. symmetry. by apply Hroute.
  - intros x Hx. apply (us_sent (sim_user (proj1 Hsim))). cbn. unfold sent. apply list_elem_of_omap. by exists rq.
Qed.

Lemma rv_reply_inv g cl x : cluster_inv g cl → replied cl (vote_ok g) x → cluster_inv g (set_rv_replies (x :: rv_replies cl) cl).
Proof. intros [] Hx. split; try done. by constructor. Qed.
Lemma ae_reply_inv g cl x : cluster_inv g cl → replied cl (ack_ok g) x → cluster_inv g (set_ae_replies (x :: ae_replies cl) cl).
Proof. intros [] Hx. split; try done. by constructor. Qed.

(** The new response to request [n] of [j], when [i] has moved. *)
Lemma new_reply {R} (ok : R → positive → positive → Prop) cl j n i r s' sj rq :
  ok r i j → i ≠ j → servers cl !! j = Some sj → requests (rpc (udata sj.2)) !! n = Some rq →
  (∀ p, peer_session (cfg_now j (udata sj.2)) p (rq_session rq) → p = i) →
  replied (set_servers (<[i := s']> (servers cl)) cl) ok (i, FromServer j n, r).
Proof.
  intros Hok Hij Hj Hrq Hp k j' n' r' [= <- <- <- <-]. split; [done|]. exists sj, rq. cbn. by rewrite lookup_insert_ne by done.
Qed.

Lemma requestvote_step g cl j n i msg r cl' :
  cluster_inv g cl → arriving j n i kRequestVote cl = Some msg →
  run_server i (requestvote_handler msg) cl = Some (r, cl') →
  ∃ g', cluster_inv g' (set_rv_replies ((i, FromServer j n, r) :: rv_replies cl') cl').
Proof.
  intros HI Harr (s & s' & Hs & Hrun & ->)%run_server_Some.
  destruct (arriving_spec _ _ _ _ _ _ _ HI Harr) as (sj & aj & rq & Hsj & Haj & Hsimj & Hj & Hij & Hrq & _ & _ & Hp & Hin).
  destruct (ci_server _ _ HI i s Hs) as (Hi & a & Ha & Hsim & Hsav).
  assert (∃ m, request_of msg = Some (RequestVote m)) as [m Hm] by (destruct msg as [|[] ?]; try done; by eexists).
  destruct (Hin _ Hm) as (Hid & Hidx & Hnet).
  assert (in_net g j (MRequestVote (rv_term m) (Z.to_nat (rv_last_log_idx m)) (rv_last_log_term m))) as Hnet' by by exists aj.
  destruct (wq_run _ _ _ _ _ _ (requestvote_handler_sim _ _ _ _ _ D i Hi (in_net g) s a msg m j Hsim Hm Hj Hid Hnet') Hrun) as (a' & [Hpr Esv] & Hv).
  exists (<[i := a']> g). apply rv_reply_inv; [by eapply move_inv_saved|].
  apply (new_reply _ cl j n i r s' sj rq); try done. intros Hg. exists a'. split; [by rewrite lookup_insert_eq|]. by apply Hv.
Qed.

Lemma appendentries_step g cl j n i msg r cl' :
  cluster_inv g cl → arriving j n i kAppendEntries cl = Some msg →
  run_server i (appendentries_handler msg) cl = Some (r, cl') →
  ∃ g', cluster_inv g' (set_ae_replies ((i, FromServer j n, r) :: ae_replies cl') cl').
Proof.
  intros HI Harr (s & s' & Hs & Hrun & ->)%run_server_Some.
  destruct (arriving_spec _ _ _ _ _ _ _ HI Harr) as (sj & aj & rq & Hsj & Haj & Hsimj & Hj & Hij & Hrq & _ & Hcells & Hp & Hin).
  destruct (ci_server _ _ HI i s Hs) as (Hi & a & Ha & Hsim & Hsav). pose proof (g_reachable_inv _ _ (ci_reach _ _ HI)) as Hg.
  eapply (wq_run _ _ _ _ _ _ (appendentries_handler_sim _ _ _ _ _ D i Hi (in_net g) s a msg j Hsim Hcells _)) in Hrun as (a' & [Hpr Esv] & Hack).
  - exists (<[i := a']> g). apply ae_reply_inv; [by eapply move_inv_saved|].
    apply (new_reply _ cl j n i r s' sj rq); try done. intros Hsucc. destruct (Hack Hsucc) as [? ?]. split; [done|].
    exists a'. by rewrite lookup_insert_eq.
  Unshelve. intros t prev pterm lc es Hm. destruct (Hin _ Hm) as (Hprev & Hlc & Hes & Hnet).
  split_and!; try done; [by exists aj|]. intros Et Hlead. apply Hij.
  destruct (ni_sent _ _ _ _ (Hg _ _ Haj) _ Hnet) as (L & HL & _). pose proof (ni_leader _ _ _ _ (Hg _ _ Ha) Hlead) as HL'.
  rewrite Et in HL'. by eapply (lead_unique _ _ Hg t i j); [exists a|exists aj].
Qed.

(** ** Every step keeps the invariant *)
Lemma reply_to_ok {R} cl j n k (ok : R → positive → positive → Prop) xs reply s :
  Forall (replied cl ok) xs → reply_to j n k xs = Some reply → servers cl !! j = Some s →
  reply_ok num_raft_servers get_raft_node_id_for_process sessions j (λ r p, ok r p j) n reply s.
Proof.
  intros Hxs Hrep Hs r rq p -> Hrq Hp. unfold reply_to in Hrep. destruct k as [k|]; [|done].
  destruct (xs !! k) as [[[i h] r']|] eqn:Hk; [|done]. case_decide; [|done]. simplify_eq.
  rewrite Forall_lookup in Hxs. destruct (Hxs _ _ Hk _ _ _ _ eq_refl) as (Hok & s0 & rq0 & ? & ? & Hroute). simplify_eq.
  by rewrite (Hroute p Hp).
Qed.

Lemma table_insert_key req t : is_Some (table_insert req t !! key req).
Proof. unfold table_insert. destruct (t !! key req) as [v|] eqn:E; [rewrite E|rewrite lookup_insert_eq]; by eexists. Qed.
Lemma replay_key_of es (e : app_entry_smr) t : is_Some (t !! key e.2.2) → is_Some (foldl (λ t (e : app_entry_smr), table_insert e.2.2 t) t es !! key e.2.2).
Proof.
  revert t. induction es as [|x es IH]; intros t Ht; [done|]. cbn. apply IH.
  destruct Ht as [v Hv]. exists v. eapply lookup_weaken; [exact Hv|apply table_insert_grows].
Qed.
(** An entry that was replayed has its key in the table. *)
Lemma replay_key es (e : app_entry_smr) : e ∈ es → is_Some (replay es !! key e.2.2).
Proof.
  intros (es1 & es2 & ->)%list_elem_of_split. unfold replay. rewrite foldl_app. cbn. apply replay_key_of, table_insert_key.
Qed.

Lemma check_commit_step g cl i out cl' :
  cluster_inv g cl → run_server i check_commit cl = Some (out, cl') → ∃ g', cluster_inv g' (answer i out cl').
Proof.
  intros HI (s & s' & Hs & Hrun & ->)%run_server_Some. destruct (ci_server _ _ HI i s Hs) as (Hi & a & Ha & Hsim & Hsav).
  assert (in_use (leader_saveinfo (udata s.2)) = true → 1 ≤ mer_idx (msg_entry_response (leader_saveinfo (udata s.2)))) as Hidx.
  { intros (h & req & _ & _ & H1 & _)%Hsav. done. }
  destruct (wq_run _ _ _ _ _ _ (check_commit_sim _ _ _ _ _ i (in_net g) s a Hsim Hidx) Hrun) as [Hp Hout].
  destruct Hout as [[-> Esv]|(h & Hin & Hh & -> & Hfree & (Hc & e & He & Het) & Htab)].
  - exists (<[i := a]> g). by apply (move_inv_saved g cl i s s' a a HI Hs Ha Hp).
  - assert (cluster_inv (<[i := a]> g) (set_servers (<[i := s']> (servers cl)) cl)) as HI'.
    { eapply move_inv; try done. intros Hu. congruence. }
    exists (<[i := a]> g). destruct HI' as [H1 H2 H3 H4 H5]. split; try done. cbn. constructor; [|exact H5].
    intros k h' r [= <- <- <-] _. destruct (Hsav Hin) as (h' & req & Hh' & Hreq & H1' & L & e' & HL & He' & Ht' & Hr').
    rewrite Hh in Hh'. injection Hh' as <-. set (n := (Z.to_nat (mer_idx (msg_entry_response (leader_saveinfo (udata s.2)))) - 1)%nat) in *.
    pose proof (g_reachable_inv _ _ (ci_reach _ _ HI)) as Hg. pose proof (Hg _ _ Ha) as N.
    assert (e' = e) as ->.
    { pose proof (good_match _ _ Hg (a_log a) L n e e' (ni_good_log _ _ _ _ N) (ni_good_lead _ _ _ _ N _ _ HL) He He' ltac:(congruence)) as Et.
      apply (f_equal (.!! n)) in Et. rewrite !lookup_take_lt in Et by lia. congruence. }
    exists req, n, (a_term a), s'. cbn. rewrite insert_id by done. split_and!; [done| |by rewrite lookup_insert_eq| |].
    + exists (a_log a), e. split_and!; try done. eapply committed_prefix_le; [|apply (ni_commit _ _ _ _ N)]. lia.
    + by rewrite <- (ms_term (sim_me (proj1 (pg_sim _ _ _ _ _ _ _ _ _ _ _ Hp)))).
    + rewrite Htab, <- Hr'. apply replay_key. apply list_elem_of_lookup. exists n. rewrite lookup_take_lt by lia. done.
Qed.

(** A new request of a client. *)
Lemma ask_inv g cl h req : asked cl !! h = None → cluster_inv g cl → cluster_inv g (set_asked (<[h := req]> (asked cl)) cl).
Proof.
  intros Hh [Hr Hsrv Hrv Hae Hans]. assert (∀ h' req', asked cl !! h' = Some req' → <[h := req]> (asked cl) !! h' = Some req') as Hmono.
  { intros h' req' E. rewrite lookup_insert_ne; [done|]. by intros ->; rewrite Hh in E. }
  split; try done.
  - intros i s Hs. destruct (Hsrv i s Hs) as (? & a & ? & ? & Hsav). split; [done|]. exists a. split_and!; try done.
    intros (h' & req' & ? & ? & ?)%Hsav. exists h', req'. split_and!; try done. by apply Hmono.
  - eapply Forall_impl; [exact Hans|]. intros x Hx k h' r E Hs. destruct (Hx k h' r E Hs) as (req' & n & tm & s & ? & ? & ? & ? & ?).
    exists req', n, tm, s. split_and!; try done. by apply Hmono.
Qed.

Lemma client_step g cl i pid h req out cl' :
  cluster_inv g cl → asked cl !! h = None → run_server i (client_req_handler pid h req) cl = Some (out, cl') →
  ∃ g', cluster_inv g' (answer i out (set_asked (<[h := req]> (asked cl')) cl')).
Proof.
  intros HI0 Hh (s & s' & Hs & Hrun & ->)%run_server_Some. pose proof (ask_inv g cl h req Hh HI0) as HI.
  destruct (ci_server _ _ HI i s Hs) as (Hi & a & Ha & Hsim & Hsav).
  destruct (wq_run _ _ _ _ _ _ (client_req_handler_sim _ _ _ _ _ D i Hi (in_net g) s a pid h req Hsim) Hrun) as (a' & Hp & Hout).
  exists (<[i := a']> g). destruct Hout as [[(r & -> & Hr) Esv]|(-> & Hsh & He)].
  - destruct (move_inv_saved g _ i s s' a a' HI Hs Ha Hp Esv) as [H1 H2 H3 H4 H5]. split; try done. cbn. constructor; [|exact H5].
    intros k h' r' [= <- <- <-] Hr'. by destruct Hr.
  - apply (move_inv g _ i s s' a a' HI Hs Ha Hp). intros _. exists h, req. split_and!; try done. cbn. by rewrite lookup_insert_eq.
Qed.

Theorem cluster_step_inv g ev cl cl' : cluster_inv g cl → cluster_step ev cl = Some cl' → ∃ g', cluster_inv g' cl'.
Proof.
  intros HI. destruct ev; cbn [cluster_step].
  - destruct (run_server _ _ _) as [[x cl1]|] eqn:E; [|done]. intros [= <-]. eapply (lib_step g cl); [done|exact E|].
    intros s a Hs Ha Hi Hsim. by apply call_raft_periodic_sim.
  - destruct (run_server _ _ _) as [[x cl1]|] eqn:E; [|done]. intros [= <-]. by eapply check_commit_step.
  - destruct (arriving _ _ _ _ _) as [msg|] eqn:Em; [|done]. cbn. destruct (run_server _ _ _) as [[x cl1]|] eqn:E; [|done].
    intros [= <-]. by eapply requestvote_step.
  - destruct (arriving _ _ _ _ _) as [msg|] eqn:Em; [|done]. cbn. destruct (run_server _ _ _) as [[x cl1]|] eqn:E; [|done].
    intros [= <-]. by eapply appendentries_step.
  - destruct (reply_to _ _ _ _) as [reply'|] eqn:Er; [|done]. cbn. destruct (run_server _ _ _) as [[x cl1]|] eqn:E; [|done].
    intros [= <-]. eapply (lib_step g cl); [done|exact E|]. intros s a Hs Ha Hi Hsim. apply requestvote_done_sim; try done.
    by eapply (reply_to_ok cl _ _ _ (vote_ok g)); [apply (ci_rv _ _ HI)|..].
  - destruct (reply_to _ _ _ _) as [reply'|] eqn:Er; [|done]. cbn. destruct (run_server _ _ _) as [[x cl1]|] eqn:E; [|done].
    intros [= <-]. eapply (lib_step g cl); [done|exact E|]. intros s a Hs Ha Hi Hsim. apply appendentries_done_sim; try done.
    by eapply (reply_to_ok cl _ _ _ (ack_ok g)); [apply (ci_ae _ _ HI)|..].
  - case_decide as Hh; [|done]. destruct (run_server _ _ _) as [[x cl1]|] eqn:E; [|done]. intros [= <-]. by eapply client_step.
  - destruct (run_server _ _ _) as [[x cl1]|] eqn:E; [|done]. intros [= <-]. eapply (lib_step g cl); [done|exact E|].
    intros s a0 Hs Ha Hi Hsim. eapply wq_mono; [exact (sm_handler_sim kUsePmem max_msg_size _ _ _ D i Hi (in_net g) session ev s a0 Hsim)|]. intros ? s' H. by exists a0.
  - destruct (run_server _ _ _) as [[x cl1]|] eqn:E; [|done]. intros [= <-]. eapply (lib_step g cl); [done|exact E|].
    intros s a Hs Ha Hi Hsim. eapply wq_mono; [exact (connect_sim kUsePmem max_msg_size _ _ _ D i Hi (in_net g) _ s a Hsim)|]. intros ? s' H. by exists a.
  - intros [= <-]. exists g. by destruct HI; split.
Qed.

Lemma run_cluster_inv g evs cl cl' :
  cluster_inv g cl → run_cluster evs cl = Some cl' → ∃ g', cluster_inv g' cl'.
Proof.
  revert g cl. induction evs as [|ev evs IH]; intros g cl HI; cbn; [intros [= <-]; by exists g|].
  destruct (cluster_step ev cl) as [cl1|] eqn:E; [|done]. intros Hrun.
  destruct (cluster_step_inv _ _ _ _ HI E) as [g1 HI1]. by eapply IH.
Qed.
Lemma reachable_inv cl :
  cluster_reachable kUsePmem max_msg_size num_raft_servers get_raft_node_id_for_process sessions cl → ∃ g, cluster_inv g cl.
Proof. intros (cl0 & evs & H0%cluster_start_inv & Hrun). by eapply run_cluster_inv. Qed.
End inv.
