(* ===== verification/SmrTheorems.v ===== *)
(** * The replication application: a cluster of three servers

    A deployment of three servers, their start, and runs of the cluster on which the
    witnesses evaluate the model. *)

From stdpp Require Import fin_sets.
From S2P Require Import Prelude RaftTypes RaftNode RaftLog RaftMembership RaftServer RaftRun SmrTypes SmrServer SmrApp SmrCluster RaftLogSpec RaftQuorum RaftProtocol RaftProtocolStep RaftApp RaftRefine SmrSim SmrInv.

Definition three_ids (k : nat) : Z := Z.of_nat k + 1.
Definition three_sessions (i j : nat) : Z := Z.of_nat j.

Lemma three_deployment : deployment 3 three_ids three_sessions.
Proof. unfold three_ids, three_sessions. split; intros; lia. Qed.

(** In the examples the stack holds a null pointer. *)
Definition null_on_stack : StackGarbage := None.
#[local] Existing Instance null_on_stack.

Definition never : raft AppContext :=
  (mk_log 0 0 0 0 0 [] false, mk_host server_zero ∅ 1 no_cbs (context_new 3 0 (three_sessions 0)) rand5 0 plenty 0).
Abbreviation three_start k := (start_server false 1000000 3 three_ids three_sessions k rand5 plenty 1 0).
Definition three_server (k : nat) : raft AppContext := match three_start k with Ok s => s | Fault _ => never end.

Lemma three_server_ok k : (match three_start k with Ok _ => true | Fault _ => false end) = true → three_start k = Ok (three_server k).
Proof. unfold three_server. by destruct (three_start k). Qed.
Lemma three_server_started k :
  (k < 3)%nat → num_nodes (me (three_server k).2) = Z.of_nat 3 ∧ three_start k = Ok (three_server k).
Proof.
  intros Hk. assert (forallb (λ k, (num_nodes (me (three_server k).2) =? 3) && match three_start k with Ok _ => true | Fault _ => false end) (seq 0 3) = true) as H
    by (vm_compute; reflexivity).
  rewrite forallb_forall in H. specialize (H k). rewrite in_seq in H. specialize (H ltac:(lia)).
  cbv beta in H. apply andb_true_iff in H as [Hn Hs]. apply Z.eqb_eq in Hn. split; [exact Hn|]. exact (three_server_ok k Hs).
Qed.
Definition three_of (f : nat → raft AppContext) : cluster :=
  mk_cluster (<[srv 0 := f 0%nat]> (<[srv 1 := f 1%nat]> (<[srv 2 := f 2%nat]> ∅))) (members 3) [] [] ∅ [].
Lemma three_of_start (f : nat → raft AppContext) :
  (∀ k, (k < 3)%nat → num_nodes (me (f k).2) = Z.of_nat 3 ∧ three_start k = Ok (f k)) →
  cluster_start false 1000000 3 three_ids three_sessions (three_of f).
Proof.
  intros Hk. assert (∀ k, (k < 3)%nat → num_nodes (me (f k).2) = Z.of_nat 3 ∧
    ∃ r a cycles tsc, start_server false 1000000 3 three_ids three_sessions (proc (srv k)) r a cycles tsc = Ok (f k)) as Hk'.
  { intros k [Hn Hs]%Hk. split; [exact Hn|]. exists rand5, plenty, 1, 0. rewrite proc_srv. exact Hs. }
  split; [| |done].
  - unfold three_of. cbn [servers]. rewrite !dom_insert_L, dom_empty_L. reflexivity.
  - intros i s. unfold three_of. cbn [servers]. rewrite !lookup_insert_Some, lookup_empty.
    intros [[<- <-]|[_ [[<- <-]|[_ [[<- <-]|[_ ?]]]]]]; [apply Hk'; lia..|discriminate].
Qed.
Definition three_servers : cluster := three_of three_server.
Lemma three_servers_start : cluster_start false 1000000 3 three_ids three_sessions three_servers.
Proof. exact (three_of_start three_server three_server_started). Qed.

(** ** Runs *)
Definition after_events (evs : list cluster_event) : cluster :=
  match run_cluster evs three_servers with Some cl => cl | None => three_servers end.
Definition events_run (evs : list cluster_event) : bool :=
  match run_cluster evs three_servers with Some _ => true | None => false end.
Lemma after_events_reachable evs :
  events_run evs = true → cluster_reachable false 1000000 3 three_ids three_sessions (after_events evs).
Proof.
  intros Hr. exists three_servers, evs. split; [exact three_servers_start|].
  unfold events_run, after_events in *. destruct (run_cluster evs three_servers); [reflexivity|discriminate].
Qed.

Definition put (k v : Z) : client_req_t := mk_client_req k [v; 0; 0; 0].
(** The sessions connect, and the first server is elected with the vote of the second. *)
Definition elected : list cluster_event :=
  [Connect (srv 0) {[1; 2]}; Connect (srv 1) {[0; 2]}; Connect (srv 2) {[0; 1]}; Periodic (srv 0) 2000;
   RequestVoteArrives (srv 0) 0 (srv 1); RequestVoteDone (srv 0) 0 (Some 0%nat)].
(** A client's request is replicated to the second server, committed and answered. *)
Definition one_put : list cluster_event :=
  elected ++ [ClientRequest (srv 0) 0 (FromClient 0 0) (put 7 7); AppendEntriesArrives (srv 0) 4 (srv 1);
    AppendEntriesDone (srv 0) 4 (Some 0%nat); CheckCommit (srv 0)].
(** The second server learns that the entry is committed, and applies it. *)
Definition one_put_applied : list cluster_event :=
  one_put ++ [Periodic (srv 0) 2300; AppendEntriesArrives (srv 0) 6 (srv 1); Periodic (srv 1) 10].
(** A second request for the same key. *)
Definition two_puts : list cluster_event :=
  one_put_applied ++ [ClientRequest (srv 0) 0 (FromClient 0 1) (put 7 8); AppendEntriesArrives (srv 0) 8 (srv 1);
    AppendEntriesDone (srv 0) 8 (Some 0%nat); CheckCommit (srv 0)].

Definition server_of (i : positive) (cl : cluster) : raft AppContext := default never (servers cl !! i).
Lemma server_of_lookup i cl : (match servers cl !! i with Some _ => true | None => false end) = true → servers cl !! i = Some (server_of i cl).
Proof. unfold server_of. by destruct (servers cl !! i). Qed.

(** * The replication application: what a cluster guarantees

    The theorems about every cluster that servers of a deployment reach, whatever the
    order in which messages arrive, servers run and servers stop. *)

(** The log of a server with its payloads, and the part it has applied. *)
Definition entries (s : raft AppContext) : list app_entry_smr := smr_entry (udata s.2) <$> log_list s.1.
Definition applied (s : raft AppContext) : list app_entry_smr := take (Z.to_nat (last_applied_idx (me s.2))) (entries s).

(** ** What a server's state is in the protocol *)
Section facts.
Context `{Garbage : StackGarbage} (kUsePmem : bool) (max_msg_size : Z) (num_raft_servers : nat)
  (get_raft_node_id_for_process : nat → Z) (sessions : nat → nat → Z).
Context (D : deployment num_raft_servers get_raft_node_id_for_process sessions).
Abbreviation V := (members num_raft_servers).
Abbreviation ids := (server_id get_raft_node_id_for_process).
Abbreviation reachable := (cluster_reachable kUsePmem max_msg_size num_raft_servers get_raft_node_id_for_process sessions).
Abbreviation inv := (cluster_inv kUsePmem max_msg_size num_raft_servers get_raft_node_id_for_process sessions).
Implicit Types (g : gmap positive (anode (Z * Z * client_req_t))) (s : raft AppContext) (i j : positive).

Record represents (a : anode (Z * Z * client_req_t)) s : Prop := {
  rp_term : current_term (me s.2) = a_term a;
  rp_role : state (me s.2) = a_role a;
  rp_vote : voted_for (me s.2) = match a_vote a with Some c => ids c | None => -1 end;
  rp_log : entries s = a_log a;
  rp_commit : commit_idx (me s.2) = Z.of_nat (a_commit a)
}.

Lemma inv_server g cl i s :
  inv g cl → servers cl !! i = Some s →
  ∃ a, g !! i = Some a ∧ node_inv V g i a ∧ represents a s ∧
    kv_table (udata s.2) = replay (applied s) ∧ 0 ≤ last_applied_idx (me s.2) ≤ Z.of_nat (a_commit a) ∧
    (a_commit a ≤ length (a_log a))%nat.
Proof.
  intros HI Hs. destruct (ci_server _ _ _ _ _ _ _ HI i s Hs) as (_ & a & Ha & [Hsim Hf] & _). exists a.
  pose proof (g_reachable_inv _ _ (ci_reach _ _ _ _ _ _ _ HI) i a Ha) as N. pose proof (sim_me Hsim) as Hm.
  split; [done|]. split; [done|]. assert (entries s = a_log a) as El by (symmetry; apply (ls_log (sim_log Hsim))).
  split; [split; [apply Hm|apply Hm|apply Hm|done|apply Hm]|]. split.
  - unfold applied. rewrite El. apply (us_machine (sim_user Hsim)). cbn. unfold smr_ok. by rewrite Hf.
  - rewrite <- (ms_commit Hm). split; [apply (ms_applied Hm)|apply Hm].
Qed.

Lemma foldl_table_grows (es : list app_entry_smr) t : t ⊆ foldl (λ t e, table_insert e.2.2 t) t es.
Proof. revert t. induction es as [|e es IH]; intros t; [done|]. cbn. etrans; [apply table_insert_grows|apply IH]. Qed.
Lemma replay_prefix es es' : es `prefix_of` es' → replay es ⊆ replay es'.
Proof. intros [k ->]. unfold replay. rewrite foldl_app. apply foldl_table_grows. Qed.

(** Committed prefixes of two servers. *)
Lemma committed_prefixes g cl i j si sj n m :
  inv g cl → servers cl !! i = Some si → servers cl !! j = Some sj →
  Z.of_nat n ≤ commit_idx (me si.2) → Z.of_nat m ≤ commit_idx (me sj.2) → (n ≤ m)%nat →
  take n (entries si) `prefix_of` take m (entries sj).
Proof.
  intros HI Hsi Hsj Hn Hm Hnm. destruct (inv_server _ _ _ _ HI Hsi) as (a & Ha & _ & [] & _), (inv_server _ _ _ _ HI Hsj) as (b & Hb & _ & [] & _).
  pose proof (protocol_safe V g i j a b n (ci_reach _ _ _ _ _ _ _ HI) Ha Hb ltac:(lia) ltac:(lia)) as E.
  rewrite rp_log0, rp_log1, E. by apply take_prefix_mono.
Qed.
End facts.

Section theorems.
Context `{Garbage : StackGarbage} (kUsePmem : bool) (max_msg_size : Z) (num_raft_servers : nat)
  (get_raft_node_id_for_process : nat → Z) (sessions : nat → nat → Z).
Abbreviation deployment := (deployment num_raft_servers get_raft_node_id_for_process sessions).
Abbreviation reachable := (cluster_reachable kUsePmem max_msg_size num_raft_servers get_raft_node_id_for_process sessions).
Abbreviation V := (members num_raft_servers).

(** C1: replicas agree. In every reachable cluster each server's table is the result of the
    entries it has applied, in order; of two servers, the one that has applied fewer entries
    has applied a prefix of what the other has, and its table is part of the other's. *)
Theorem replicas_agree cl i j si sj :
  deployment → reachable cl → servers cl !! i = Some si → servers cl !! j = Some sj →
  last_applied_idx (me si.2) ≤ last_applied_idx (me sj.2) →
  kv_table (udata si.2) = replay (applied si) ∧ applied si `prefix_of` applied sj ∧
  kv_table (udata si.2) ⊆ kv_table (udata sj.2).
Proof.
  intros D [g HI]%reachable_inv Hsi Hsj Hle; [|done].
  destruct (inv_server _ _ _ _ _ _ _ _ _ HI Hsi) as (a & _ & _ & Ra & Ti & Hi & _).
  destruct (inv_server _ _ _ _ _ _ _ _ _ HI Hsj) as (b & _ & _ & Rb & Tj & Hj & _).
  assert (applied si `prefix_of` applied sj) as Hp.
  { unfold applied. eapply committed_prefixes; [exact HI|done|done| | |lia];
      rewrite Z2Nat.id by lia; [rewrite (rp_commit _ _ _ Ra)|rewrite (rp_commit _ _ _ Rb)]; lia. }
  split; [done|]. split; [done|]. rewrite Ti, Tj. by apply replay_prefix.
Qed.

(** C2: a success is durable. When a client was told that its request succeeded, the
    server that said so has applied the request, the request is at one place of the
    committed log, every server that has applied that far has applied it there, and every
    leader of a term from the answering server's on has it there. *)
Theorem success_is_durable cl i h r :
  deployment → reachable cl → (i, h, r) ∈ answers cl → resp_type r = kSuccess →
  ∃ req k T, asked cl !! h = Some req ∧
    (∃ s, servers cl !! i = Some s ∧ is_Some (kv_table (udata s.2) !! key req) ∧ T ≤ current_term (me s.2)) ∧
    (∀ j s, servers cl !! j = Some s → (k < length (applied s))%nat → ∃ e, applied s !! k = Some e ∧ e.2.2 = req) ∧
    (∀ j s, servers cl !! j = Some s → state (me s.2) = RAFT_STATE_LEADER → T ≤ current_term (me s.2) →
       ∃ e, entries s !! k = Some e ∧ e.2.2 = req).
Proof.
  intros D [g HI]%reachable_inv Hin Hr; [|done]. pose proof (g_reachable_inv _ _ (ci_reach _ _ _ _ _ _ _ HI)) as Hg.
  pose proof (ci_answers _ _ _ _ _ _ _ HI) as Hans. rewrite Forall_forall in Hans.
  destruct (Hans _ Hin _ _ _ eq_refl Hr) as (req & k & tm & s0 & Hreq & (l & e & Hc & He & Her) & Hs0 & Htm & Hkey).
  pose proof Hc as [?|(t & k0 & p & L & Ht & Hcom & HL & Hk0 & HkL & Hpre)]; [lia|].
  assert (take (S k) L !! k = Some e) as HLe.
  { rewrite (prefix_lookup_eq k _ _ Hpre); [done|]. rewrite length_take. lia. }
  exists req, k, t. split; [done|]. split; [exists s0; split_and!; [done..|lia]|]. split.
  - intros j s Hs Hk. destruct (inv_server _ _ _ _ _ _ _ _ _ HI Hs) as (b & Hb & N & R & _ & Hap & Hlen).
    assert (S k ≤ a_commit b)%nat as Hkc.
    { unfold applied in Hk. rewrite length_take in Hk. lia. }
    pose proof (committed_agree _ _ Hg l (a_log b) (S k) (a_commit b) tm (a_term b) Hc (ni_commit _ _ _ _ N) Hkc) as E.
    exists e. split; [|done]. unfold applied. rewrite lookup_take_lt by (unfold applied in Hk; rewrite length_take in Hk; lia).
    rewrite (rp_log _ _ _ R). rewrite <- (lookup_take_lt (a_log b) (S k)) by lia. rewrite <- E, lookup_take_lt by lia. done.
  - intros j s Hs Hlead Hterm. destruct (inv_server _ _ _ _ _ _ _ _ _ HI Hs) as (b & Hb & N & R & _).
    rewrite (rp_role _ _ _ R) in Hlead. rewrite (rp_term _ _ _ R) in Hterm. pose proof (ni_leader _ _ _ _ N Hlead) as HLb.
    exists e. split; [|done]. rewrite (rp_log _ _ _ R).
    assert (take (S k) L `prefix_of` a_log b) as Hp.
    { destruct (decide (t = a_term b)) as [->|Hne].
      - destruct (lead_unique _ _ Hg (a_term b) p j L (a_log b)) as [_ ->]; [done|by exists b|]. apply take_prefix_of.
      - destruct (ni_lead_cand _ _ _ _ N _ _ HLb) as (I & HI' & Hpre').
        etrans; [|exact Hpre']. etrans; [apply (take_prefix_mono (S k) k0); lia|].
        eapply (leader_completeness _ _ Hg t k0 p L (a_term b) j); [done|done|lia|by exists b|by exists b]. }
    rewrite <- (prefix_lookup_eq k _ _ Hp); [done|]. rewrite length_take. lia.
Qed.

(** C4: a term has at most one leader. *)
Theorem one_leader_per_term cl i j si sj :
  deployment → reachable cl → servers cl !! i = Some si → servers cl !! j = Some sj →
  state (me si.2) = RAFT_STATE_LEADER → state (me sj.2) = RAFT_STATE_LEADER →
  current_term (me si.2) = current_term (me sj.2) → i = j.
Proof.
  intros D [g HI]%reachable_inv Hsi Hsj Hli Hlj E; [|done]. pose proof (g_reachable_inv _ _ (ci_reach _ _ _ _ _ _ _ HI)) as Hg.
  destruct (inv_server _ _ _ _ _ _ _ _ _ HI Hsi) as (a & Ha & Na & Ra & _).
  destruct (inv_server _ _ _ _ _ _ _ _ _ HI Hsj) as (b & Hb & Nb & Rb & _).
  rewrite (rp_role _ _ _ Ra) in Hli. rewrite (rp_role _ _ _ Rb) in Hlj. rewrite (rp_term _ _ _ Ra), (rp_term _ _ _ Rb) in E.
  pose proof (ni_leader _ _ _ _ Na Hli). pose proof (ni_leader _ _ _ _ Nb Hlj) as Hl. rewrite <- E in Hl.
  by eapply (lead_unique _ _ Hg (a_term a)); [exists a|exists b].
Qed.

(** C5: logs match. When two servers have an entry of the same term at the same
    place, their logs agree, payloads included, up to that place. *)
Theorem logs_match cl i j si sj k e e' :
  deployment → reachable cl → servers cl !! i = Some si → servers cl !! j = Some sj →
  entries si !! k = Some e → entries sj !! k = Some e' → e.1 = e'.1 →
  take (S k) (entries si) = take (S k) (entries sj).
Proof.
  intros D [g HI]%reachable_inv Hsi Hsj He He' E; [|done]. pose proof (g_reachable_inv _ _ (ci_reach _ _ _ _ _ _ _ HI)) as Hg.
  destruct (inv_server _ _ _ _ _ _ _ _ _ HI Hsi) as (a & Ha & Na & Ra & _).
  destruct (inv_server _ _ _ _ _ _ _ _ _ HI Hsj) as (b & Hb & Nb & Rb & _).
  rewrite (rp_log _ _ _ Ra) in *. rewrite (rp_log _ _ _ Rb) in *.
  by eapply (good_match _ _ Hg); [apply (ni_good_log _ _ _ _ Na)|apply (ni_good_log _ _ _ _ Nb)|..].
Qed.

(** C3: the servers implement the protocol. Every reachable cluster of servers
    is represented by a reachable state of the abstract protocol of [RaftProtocol], server by
    server: the terms, roles, votes, logs and commit indices are the protocol's. *)
Theorem servers_implement_protocol cl :
  deployment → reachable cl →
  ∃ g, g_reachable V g ∧ ∀ i s, servers cl !! i = Some s →
    ∃ a, g !! i = Some a ∧ represents get_raft_node_id_for_process a s.
Proof.
  intros D [g HI]%reachable_inv; [|done]. exists g. split; [apply HI|]. intros i s Hs.
  destruct (inv_server _ _ _ _ _ _ _ _ _ HI Hs) as (a & Ha & _ & Ra & _). by exists a.
Qed.

(** C9: the servers' data stay well formed. In every reachable cluster a server's
    table of peers holds exactly the members of the deployment, under their ids and with their
    connections, all of them voters; it votes for members only; its entries are plain,
    carry terms up to its own and payloads of its pool, a different one each, which are not
    free; it has applied no more than is committed, and committed no more than it has. *)
Theorem servers_well_formed cl i s :
  deployment → reachable cl → servers cl !! i = Some s →
  i ∈ V ∧ node (me s.2) = Some i ∧ NoDup (table (me s.2)) ∧ (∀ p, p ∈ table (me s.2) ↔ p ∈ V) ∧
  (∀ p, is_Some (heap s.2 !! p) ↔ p ∈ V) ∧
  (∀ p n, heap s.2 !! p = Some n → nd_id n = server_id get_raft_node_id_for_process p ∧
     nd_udata n = (if decide (p = i) then 0 else conn_ptr (proc p)) ∧ is_voter n = true) ∧
  (voted_for (me s.2) = -1 ∨ ∃ p, p ∈ V ∧ voted_for (me s.2) = server_id get_raft_node_id_for_process p) ∧
  Forall (λ e, ety_type e = RAFT_LOGTYPE_NORMAL ∧ 0 ≤ ety_term e ≤ current_term (me s.2)) (log_list s.1) ∧
  owns (udata s.2) (ety_data <$> log_list s.1) ∧
  0 ≤ last_applied_idx (me s.2) ≤ commit_idx (me s.2) ∧ commit_idx (me s.2) ≤ Z.of_nat (length (log_list s.1)).
Proof.
  intros D [g HI]%reachable_inv Hs; [|done].
  destruct (ci_server _ _ _ _ _ _ _ HI i s Hs) as (Hi & a & _ & [Hsim Hf] & _).
  pose proof (sim_me Hsim) as Hm. destruct (sim_heap Hsim) as [Hd Hv]. pose proof (sim_log Hsim) as Hl.
  assert (app_ok (RaftApp := smr_app kUsePmem max_msg_size) (udata s.2) = true) as Hok by (cbn; unfold smr_ok; by rewrite Hf).
  split_and!; try done; try apply Hm.
  - intros p. split; [intros [n Hn]; by eapply Hd|apply Hv].
  - intros p n Hp. destruct (Hd p n Hp) as [_ [Hid Hu Hvo _ _]]. split; [done|]. split; [|done]. rewrite Hu. cbn. unfold peer_ptr.
    destruct (decide (p = i)) as [->|Hne]; [by rewrite decide_True|]. rewrite decide_False; [done|].
    intros E. apply Hne. by rewrite <- (srv_proc p), <- (srv_proc i), E.
  - rewrite (ms_vote Hm). pose proof (ms_vote_in Hm) as Hin. destruct (a_vote a) as [c|]; [right|by left]. exists c. auto.
  - rewrite (ms_term Hm). apply Hl.
  - pose proof (us_owns (sim_user Hsim) Hok) as Ho. by rewrite app_nil_r in Ho.
  - rewrite (ms_commit Hm). pose proof (ms_commit_len Hm) as Hc. rewrite (ls_log Hl), length_fmap in Hc. lia.
Qed.
End theorems.

(** ** Witnesses *)
Lemma one_put_applied_runs : events_run one_put_applied = true ∧
  forallb (λ i, match servers (after_events one_put_applied) !! i with Some _ => true | None => false end) [srv 0; srv 1] = true ∧
  ((last_applied_idx (me (server_of (srv 1) (after_events one_put_applied)).2) <=?
    last_applied_idx (me (server_of (srv 0) (after_events one_put_applied)).2)) = true).
Proof. vm_compute. split; [reflexivity|split; reflexivity]. Qed.
Lemma one_put_applied_server k :
  (k < 2)%nat → servers (after_events one_put_applied) !! srv k = Some (server_of (srv k) (after_events one_put_applied)).
Proof.
  intros Hk. apply server_of_lookup. destruct one_put_applied_runs as (_ & H & _). rewrite forallb_forall in H.
  apply (H (srv k)). destruct k as [|[|k]]; [left; reflexivity|right; left; reflexivity|lia].
Qed.
Lemma one_put_applied_order :
  last_applied_idx (me (server_of (srv 1) (after_events one_put_applied)).2) ≤
  last_applied_idx (me (server_of (srv 0) (after_events one_put_applied)).2).
Proof. apply Z.leb_le. exact (proj2 (proj2 one_put_applied_runs)). Qed.
Lemma one_put_applied_reachable : cluster_reachable false 1000000 3 three_ids three_sessions (after_events one_put_applied).
Proof. apply after_events_reachable. exact (proj1 one_put_applied_runs). Qed.

Lemma replicas_agree_witness :
  kv_table (udata (server_of (srv 1) (after_events one_put_applied)).2) ⊆
    kv_table (udata (server_of (srv 0) (after_events one_put_applied)).2) ∧
  kv_table (udata (server_of (srv 1) (after_events one_put_applied)).2) !! 7 = Some [7; 0; 0; 0].
Proof.
  split; [|vm_compute; reflexivity].
  exact (proj2 (proj2 (replicas_agree false 1000000 3 three_ids three_sessions _ (srv 1) (srv 0) _ _ three_deployment
    one_put_applied_reachable (one_put_applied_server 1 ltac:(lia)) (one_put_applied_server 0 ltac:(lia)) one_put_applied_order))).
Defined.

Lemma one_put_applied_answers :
  answers (after_events one_put_applied) = [(srv 0, FromClient 0 0, mk_client_resp kSuccess None)] ∧
  asked (after_events one_put_applied) !! FromClient 0 0 = Some (put 7 7).
Proof. vm_compute. split; reflexivity. Qed.
Lemma success_is_durable_witness :
  ∃ k, ∀ j s, servers (after_events one_put_applied) !! j = Some s → (k < length (applied s))%nat →
    ∃ e, applied s !! k = Some e ∧ e.2.2 = put 7 7.
Proof.
  destruct one_put_applied_answers as [Ha Hq].
  destruct (success_is_durable false 1000000 3 three_ids three_sessions (after_events one_put_applied) (srv 0) (FromClient 0 0)
    (mk_client_resp kSuccess None) three_deployment one_put_applied_reachable) as (req & k & T & Hreq & _ & Hk & _).
  - rewrite Ha. left.
  - reflexivity.
  - exists k. rewrite Hq in Hreq. injection Hreq as <-. exact Hk.
Defined.

Lemma one_put_applied_leader : state (me (server_of (srv 0) (after_events one_put_applied)).2) = RAFT_STATE_LEADER.
Proof. vm_compute. reflexivity. Qed.
Lemma one_leader_per_term_witness : srv 0 = srv 0 ∧ state (me (server_of (srv 0) (after_events one_put_applied)).2) = RAFT_STATE_LEADER.
Proof.
  split; [|exact one_put_applied_leader].
  exact (one_leader_per_term false 1000000 3 three_ids three_sessions _ (srv 0) (srv 0) _ _ three_deployment
    one_put_applied_reachable (one_put_applied_server 0 ltac:(lia)) (one_put_applied_server 0 ltac:(lia))
    one_put_applied_leader one_put_applied_leader eq_refl).
Defined.

Lemma one_put_applied_entries k :
  (k < 2)%nat → entries (server_of (srv k) (after_events one_put_applied)) !! 0%nat = Some (1, (0, RAFT_LOGTYPE_NORMAL, put 7 7)).
Proof. intros Hk. destruct k as [|[|k]]; [vm_compute; reflexivity|vm_compute; reflexivity|lia]. Qed.
Lemma logs_match_witness :
  take 1 (entries (server_of (srv 1) (after_events one_put_applied))) = take 1 (entries (server_of (srv 0) (after_events one_put_applied))).
Proof.
  exact (logs_match false 1000000 3 three_ids three_sessions _ (srv 1) (srv 0) _ _ 0 _ _ three_deployment
    one_put_applied_reachable (one_put_applied_server 1 ltac:(lia)) (one_put_applied_server 0 ltac:(lia))
    (one_put_applied_entries 1 ltac:(lia)) (one_put_applied_entries 0 ltac:(lia)) eq_refl).
Defined.

Lemma servers_implement_protocol_witness :
  ∃ g a, g_reachable (members 3) g ∧ g !! srv 0 = Some a ∧
    represents three_ids a (server_of (srv 0) (after_events one_put_applied)).
Proof.
  destruct (servers_implement_protocol false 1000000 3 three_ids three_sessions (after_events one_put_applied) three_deployment
    one_put_applied_reachable) as (g & Hg & Hsrv).
  destruct (Hsrv _ _ (one_put_applied_server 0 ltac:(lia))) as (a & Ha & Hr). exists g, a. split; [exact Hg|]. split; [exact Ha|exact Hr].
Defined.

Lemma servers_well_formed_witness :
  owns (udata (server_of (srv 1) (after_events one_put_applied)).2) (ety_data <$> log_list (server_of (srv 1) (after_events one_put_applied)).1) ∧
  length (log_list (server_of (srv 1) (after_events one_put_applied)).1) = 1%nat.
Proof.
  split; [|vm_compute; reflexivity].
  destruct (servers_well_formed false 1000000 3 three_ids three_sessions _ (srv 1) _ three_deployment one_put_applied_reachable
    (one_put_applied_server 1 ltac:(lia))) as (_ & _ & _ & _ & _ & _ & _ & _ & H & _). exact H.
Defined.
