(* ===== verification/SmrFindings.v ===== *)
(** * The replication application: runs that end badly

    Reachable clusters in which a client is not served as it was promised, and memory
    that no list holds any more. *)

From S2P Require Import Prelude RaftTypes RaftNode RaftLog RaftLogSpec RaftMembership RaftServer SmrTypes SmrServer SmrApp SmrCluster SmrTheorems.
#[local] Existing Instance null_on_stack.

(** A second request for a key is answered with success, and changes no table: the
    insertion of [std::unordered_map] keeps the value that is there. *)
Lemma second_put_is_lost :
  let cl := after_events two_puts in
  cluster_reachable false 1000000 3 three_ids three_sessions cl ∧
  asked cl !! FromClient 0 1 = Some (put 7 8) ∧
  answers cl = [(srv 0, FromClient 0 1, mk_client_resp kSuccess None); (srv 0, FromClient 0 0, mk_client_resp kSuccess None)] ∧
  kv_table (udata (server_of (srv 0) cl).2) !! 7 = Some (value (put 7 7)).
Proof.
  split; [apply after_events_reachable; vm_compute; reflexivity|]. vm_compute. split_and!; reflexivity.
Qed.

(** Two clients ask the leader before it has committed: it remembers the second only,
    and the first, whose request is committed and applied, is never answered. *)
Definition two_clients : list cluster_event :=
  elected ++ [ClientRequest (srv 0) 0 (FromClient 0 0) (put 1 1); ClientRequest (srv 0) 0 (FromClient 1 0) (put 2 2);
    AppendEntriesArrives (srv 0) 4 (srv 1); AppendEntriesDone (srv 0) 4 (Some 0%nat); Periodic (srv 0) 2300;
    AppendEntriesArrives (srv 0) 6 (srv 1); AppendEntriesDone (srv 0) 6 (Some 0%nat); CheckCommit (srv 0); CheckCommit (srv 0)].
Lemma first_client_is_forgotten :
  let cl := after_events two_clients in
  cluster_reachable false 1000000 3 three_ids three_sessions cl ∧
  kv_table (udata (server_of (srv 0) cl).2) !! 1 = Some (value (put 1 1)) ∧
  answers cl = [(srv 0, FromClient 1 0, mk_client_resp kSuccess None)] ∧
  in_use (leader_saveinfo (udata (server_of (srv 0) cl).2)) = false.
Proof.
  split; [apply after_events_reachable; vm_compute; reflexivity|]. vm_compute. split_and!; reflexivity.
Qed.

(** A leader whose entry is replaced by a later leader's: the test of the entry gives -1,
    which the code takes for "not yet", and the client waits for ever. *)
Definition deposed : list cluster_event :=
  elected ++ [ClientRequest (srv 0) 0 (FromClient 0 0) (put 1 1); Periodic (srv 1) 2000;
    RequestVoteArrives (srv 1) 1 (srv 2); RequestVoteDone (srv 1) 1 (Some 0%nat);
    ClientRequest (srv 1) 1 (FromClient 1 0) (put 2 2); AppendEntriesArrives (srv 1) 4 (srv 0); CheckCommit (srv 0)].
Lemma deposed_leader_never_answers :
  let cl := after_events deposed in
  cluster_reachable false 1000000 3 three_ids three_sessions cl ∧
  state (me (server_of (srv 0) cl).2) = RAFT_STATE_FOLLOWER ∧ state (me (server_of (srv 1) cl).2) = RAFT_STATE_LEADER ∧
  smr_entry (udata (server_of (srv 0) cl).2) <$> log_list (server_of (srv 0) cl).1 = [(2, (1, RAFT_LOGTYPE_NORMAL, put 2 2))] ∧
  req_handle (leader_saveinfo (udata (server_of (srv 0) cl).2)) = Some (FromClient 0 0) ∧
  in_use (leader_saveinfo (udata (server_of (srv 0) cl).2)) = true ∧ answers cl = [].
Proof.
  split; [apply after_events_reachable; vm_compute; reflexivity|]. vm_compute. split_and!; reflexivity.
Qed.

(** Every copy of an append-entries request takes memory for its payloads; the entries of a
    second copy are in the log already, and nothing holds their memory. *)
Definition delivered_twice : list cluster_event :=
  elected ++ [ClientRequest (srv 0) 0 (FromClient 0 0) (put 7 7); AppendEntriesArrives (srv 0) 4 (srv 1); AppendEntriesArrives (srv 0) 4 (srv 1)].
Definition payloads_in_use (s : raft AppContext) : Z :=
  pool_next (log_entry_appdata_pool (udata s.2)) - 1 - Z.of_nat (length (pool_ (log_entry_appdata_pool (udata s.2)))).
Definition tags_in_use (s : raft AppContext) : Z :=
  pool_next (raft_req_tag_pool (udata s.2)) - 1 - Z.of_nat (length (pool_ (raft_req_tag_pool (udata s.2)))).
Lemma duplicate_payload_is_lost :
  let cl := after_events delivered_twice in
  cluster_reachable false 1000000 3 three_ids three_sessions cl ∧
  length (log_list (server_of (srv 1) cl).1) = 1%nat ∧ payloads_in_use (server_of (srv 1) cl) = 2.
Proof.
  split; [apply after_events_reachable; vm_compute; reflexivity|]. vm_compute. split_and!; reflexivity.
Qed.
(** The tag of a vote request is never freed: two requests for votes have been sent and
    answered or given up, two append-entries requests are in progress, and four tags are in use. *)
Lemma vote_tags_are_lost :
  let cl := after_events (elected ++ [RequestVoteDone (srv 0) 1 None]) in
  cluster_reachable false 1000000 3 three_ids three_sessions cl ∧
  size (in_progress (rpc (udata (server_of (srv 0) cl).2))) = 2%nat ∧ tags_in_use (server_of (srv 0) cl) = 4.
Proof.
  split; [apply after_events_reachable; vm_compute; reflexivity|]. vm_compute. split_and!; reflexivity.
Qed.
