(* ===== verification/SmrClient.v ===== *)
(** * The replication application: the client ([apps/smr/client.h])

    A client sends one request at a time, to the server it believes to be the leader, and
    changes its belief as the responses say.  The functions return false when the process
    has ended: it called [exit], or an exception that nothing catches was thrown.  What the
    client measures is left out; so is the time it sleeps before it asks again. *)

From S2P Require Import Prelude SmrTypes.

(** ** Random keys ([util/rand.h]) *)
Definition next_u32 (seed_ : Z) : Z * Z :=
  let seed_ := (seed_ * 1103515245 + 12345) mod 2 ^ 64 in (Z.shiftr seed_ 32 mod 2 ^ 32, seed_).

(** ** The client *)
Record client_t : Type := mk_client {
  leader_idx : Z;
  num_resps_total : Z;
  num_resps_this_measurement : Z;
  num_console_prints : Z;
  client_conn_vec : list connection_t;
  fast_rand : Z;
  (** calls of [enqueue_request]: the session and the request *)
  client_requests : list (Z * client_req_t)
}.
Definition client_eta (c : client_t) : client_t :=
  mk_client (leader_idx c) (num_resps_total c) (num_resps_this_measurement c) (num_console_prints c) (client_conn_vec c)
    (fast_rand c) (client_requests c).
Definition set_leader_idx : Z → client_t → client_t := ltac:(field_update client_eta leader_idx).
Definition set_num_resps_total : Z → client_t → client_t := ltac:(field_update client_eta num_resps_total).
Definition set_num_resps_this_measurement : Z → client_t → client_t := ltac:(field_update client_eta num_resps_this_measurement).
Definition set_num_console_prints : Z → client_t → client_t := ltac:(field_update client_eta num_console_prints).
Definition set_fast_rand : Z → client_t → client_t := ltac:(field_update client_eta fast_rand).
Definition set_client_requests : list (Z * client_req_t) → client_t → client_t := ltac:(field_update client_eta client_requests).

Section client.
(** The number of servers and their Raft ids, which are the keys of [node_id_to_name_map]. *)
Context (num_raft_servers : nat) (get_raft_node_id_for_process : nat → Z).

(** The loop of [change_leader_to_any] from [i] on. *)
Fixpoint any_leader_loop (n : nat) (i cur_leader_idx : Z) : M client_t bool :=
  match n with
  | O => mret false
  | S n =>
      let next_leader_idx := ((cur_leader_idx + i) mod 2 ^ 64) mod Z.of_nat num_raft_servers in
      c ← get;
      conn ← lift (arr_get (client_conn_vec c) next_leader_idx);
      if negb (disconnected conn) then modify (set_leader_idx next_leader_idx) ;; mret true
      else any_leader_loop n (i + 1) cur_leader_idx
  end.
Definition change_leader_to_any : M client_t bool :=
  c ← get;
  any_leader_loop (num_raft_servers - 1) 1 (leader_idx c).

(** The loop of [change_leader_to_node]: whether the process goes on, and the result. *)
Fixpoint node_leader_loop (ks : list nat) (raft_node_id : Z) : M client_t (bool * bool) :=
  match ks with
  | [] => mret (false, false)
  | i :: ks =>
      if raft_node_id =? get_raft_node_id_for_process i then
        c ← get;
        conn ← lift (arr_get (client_conn_vec c) (Z.of_nat i));
        if disconnected conn then mret (true, false)
        else modify (set_leader_idx (Z.of_nat i)) ;; mret (true, true)
      else node_leader_loop ks raft_node_id
  end.
Definition change_leader_to_node (raft_node_id : Z) : M client_t (bool * bool) :=
  node_leader_loop (seq 0 num_raft_servers) raft_node_id.

Definition send_req_one : M client_t unit :=
  c ← get;
  let '(r, seed) := next_u32 (fast_rand c) in
  modify (set_fast_rand seed) ;;
  let rand_key := Z.land r (kAppNumKeys - 1) in
  conn ← lift (arr_get (client_conn_vec c) (leader_idx c));
  modify (λ c, set_client_requests (client_requests c ++ [(session_num conn, mk_client_req rand_key [rand_key; 0; 0; 0])]) c).

(** Counting responses. *)
Definition count_response : M client_t unit :=
  modify (λ c, set_num_resps_total ((num_resps_total c + 1) mod 2 ^ 64)
    (set_num_resps_this_measurement ((num_resps_this_measurement c + 1) mod 2 ^ 64) c)) ;;
  c ← get;
  if num_resps_this_measurement c =? 1000 then
    modify (λ c, set_num_console_prints ((num_console_prints c + 1) mod 2 ^ 64) (set_num_resps_this_measurement 0 c)) ;;
    c ← get;
    if num_console_prints c <=? 4 then modify (set_num_resps_total 0) else mret tt
  else mret tt.

(** The ids that [node_id_to_name_map] has. *)
Definition known_id (id : Z) : bool := existsb (λ i, id =? get_raft_node_id_for_process i) (seq 0 num_raft_servers).

(** An empty response is a failed RPC. *)
Definition client_cont (resp : option client_resp_t) : M client_t bool :=
  count_response ;;
  go ← match resp with
       | Some client_resp =>
           match resp_type client_resp, leader_node_id client_resp with
           | kFailRedirect, Some id =>
               if known_id id then r ← change_leader_to_node id; mret r.1 else mret false
           | kFailRedirect, None => throw UndefinedBehaviour
           | kSuccess, _ | kFailTryAgain, _ => mret true
           end
       | None => change_leader_to_any
       end;
  if (go : bool) then send_req_one ;; mret true else mret false.

(** The start: [sessions] are the numbers that [create_session] returns. *)
Definition client_new (seed : Z) (sessions : nat → Z) : client_t :=
  mk_client 0 0 0 0 ((λ i, mk_connection false (sessions i) (Z.of_nat i)) <$> seq 0 num_raft_servers) seed [].
End client.

(** ** What the client does with a response *)
Section theorems.
Context (num_raft_servers : nat) (get_raft_node_id_for_process : nat → Z).
Abbreviation client_cont := (client_cont num_raft_servers get_raft_node_id_for_process).
Abbreviation known_id := (known_id num_raft_servers get_raft_node_id_for_process).

Record client_ok (c : client_t) : Prop := {
  ck_servers : 0 < Z.of_nat num_raft_servers < 2 ^ 32;
  ck_conns : length (client_conn_vec c) = num_raft_servers;
  ck_leader : 0 ≤ leader_idx c < Z.of_nat num_raft_servers
}.
Definition connected_to (c : client_t) (k : Z) : bool :=
  match client_conn_vec c !! Z.to_nat k with Some conn => negb (disconnected conn) | None => false end.
Definition session_of (c : client_t) (k : Z) : Z :=
  match client_conn_vec c !! Z.to_nat k with Some conn => session_num conn | None => -1 end.

Lemma conn_get c k (Q : connection_t → client_t → Prop) :
  client_ok c → 0 ≤ k < Z.of_nat num_raft_servers →
  (∀ conn, negb (disconnected conn) = connected_to c k → session_num conn = session_of c k → Q conn c) →
  wp (lift (arr_get (client_conn_vec c) k)) Q c.
Proof.
  intros Hc Hk HQ. destruct (arr_get_total (client_conn_vec c) k) as [conn Hconn]; [rewrite (ck_conns c Hc); lia|].
  eapply wp_lift; [exact Hconn|]. apply arr_get_Ok in Hconn as [_ Hl]. apply HQ; unfold connected_to, session_of; by rewrite Hl.
Qed.

(** The counters of responses: all, and those of the current measurement, of which there are 1000; and the number of
    measurements.  The first four measurements are a warm-up, after which the total starts at 0 again. *)
Definition counters (c : client_t) : Z * Z * Z :=
  (num_resps_total c, num_resps_this_measurement c, num_console_prints c).
Definition counted (n : Z * Z * Z) : Z * Z * Z :=
  let '(total, this, prints) := n in
  let total := (total + 1) mod 2 ^ 64 in
  let this := (this + 1) mod 2 ^ 64 in
  if this =? 1000 then
    let prints := (prints + 1) mod 2 ^ 64 in
    (if prints <=? 4 then 0 else total, 0, prints)
  else (total, this, prints).

(** What a function of the client leaves alone. *)
Definition same_but_leader (c c' : client_t) : Prop :=
  client_conn_vec c' = client_conn_vec c ∧ client_requests c' = client_requests c ∧ counters c' = counters c.

Definition next_leader (c : client_t) (i : Z) : Z := (leader_idx c + i) mod Z.of_nat num_raft_servers.
Lemma any_leader_loop_spec n i c0 c :
  client_ok c → leader_idx c = leader_idx c0 → client_conn_vec c = client_conn_vec c0 → 1 ≤ i → i + Z.of_nat n = Z.of_nat num_raft_servers →
  wp (any_leader_loop num_raft_servers n i (leader_idx c0)) (λ go c', same_but_leader c c' ∧
    if go then ∃ k, i ≤ k < Z.of_nat num_raft_servers ∧ leader_idx c' = next_leader c0 k ∧ connected_to c0 (next_leader c0 k) = true ∧
      ∀ k', i ≤ k' < k → connected_to c0 (next_leader c0 k') = false
    else c' = c ∧ ∀ k, i ≤ k < Z.of_nat num_raft_servers → connected_to c0 (next_leader c0 k) = false) c.
Proof.
  intros Hc El Ec. revert i. induction n as [|n IH]; intros i Hi Hn; cbn [any_leader_loop].
  { wstep. split; [done|]. split; [done|]. lia. }
  pose proof (ck_servers c Hc). pose proof (ck_leader c Hc).
  assert (((leader_idx c0 + i) mod 2 ^ 64) mod Z.of_nat num_raft_servers = next_leader c0 i) as -> by (unfold next_leader; rewrite (Z.mod_small _ (2 ^ 64)); lia).
  assert (0 ≤ next_leader c0 i < Z.of_nat num_raft_servers) as Hr by (apply Z.mod_pos_bound; lia).
  assert (∀ k, connected_to c k = connected_to c0 k) as Eco by (intros k; unfold connected_to; by rewrite Ec).
  do 3 wstep. apply conn_get; [done|done|]. intros conn Hd _. rewrite Hd, Eco. wsplit.
  - do 3 wstep. split; [done|]. exists i. split_and!; [lia|lia|done|done|]. lia.
  - eapply wq_mono; [apply IH; lia|]. intros [] c'; cbn.
    + intros (? & k & ? & ? & ? & Hf). split; [done|]. exists k. split_and!; [lia|lia|done|done|].
      intros k' Hk'. destruct (decide (k' = i)) as [->|]; [done|]. apply Hf. lia.
    + intros (? & ? & Hf). split; [done|]. split; [done|]. intros k Hk. destruct (decide (k = i)) as [->|]; [done|]. apply Hf. lia.
Qed.

Lemma node_leader_loop_spec ks id c :
  client_ok c → (∀ k, k ∈ ks → (k < num_raft_servers)%nat) → (∃ k, k ∈ ks ∧ id = get_raft_node_id_for_process k) →
  wp (node_leader_loop get_raft_node_id_for_process ks id) (λ r c', same_but_leader c c' ∧ r.1 = true ∧
    ∃ k, k ∈ ks ∧ id = get_raft_node_id_for_process k ∧ r.2 = connected_to c (Z.of_nat k) ∧
      leader_idx c' = (if connected_to c (Z.of_nat k) then Z.of_nat k else leader_idx c)) c.
Proof.
  intros Hc. induction ks as [|k ks IH]; intros Hks (k0 & Hk0 & Hid); [by apply elem_of_nil in Hk0|].
  cbn [node_leader_loop]. wsplit; bool_prop.
  - do 3 wstep. apply conn_get; [done|specialize (Hks k ltac:(by left)); lia|]. intros conn Hd _.
    destruct (disconnected conn) eqn:E; cbn in Hd.
    + wstep. split; [done|]. split; [done|]. exists k. rewrite <- Hd. split_and!; [by left|lia|done|done].
    + do 3 wstep. split; [done|]. split; [done|]. exists k. rewrite <- Hd. split_and!; [by left|lia|done|done].
  - eapply wq_mono; [apply IH; [intros; apply Hks; by right|]|].
    + exists k0. split; [|done]. apply elem_of_cons in Hk0 as [->|?]; [congruence|done].
    + intros r c' (? & ? & k' & ? & ?). split; [done|]. split; [done|]. exists k'. split; [by right|done].
Qed.

Lemma random_key seed : 0 ≤ Z.land (next_u32 seed).1 (kAppNumKeys - 1) < kAppNumKeys.
Proof.
  change (kAppNumKeys - 1) with (Z.ones 20). rewrite Z.land_ones by lia. change kAppNumKeys with (2 ^ 20). apply Z.mod_pos_bound. lia.
Qed.

Lemma known_id_spec id : known_id id = true ↔ ∃ k, k ∈ seq 0 num_raft_servers ∧ id = get_raft_node_id_for_process k.
Proof.
  unfold SmrClient.known_id. rewrite existsb_exists. split; intros (k & Hk & E); exists k; rewrite ?in_seq, ?elem_of_seq in *; (split; lia).
Qed.

(** The new belief about the leader, when the client goes on. *)
Definition new_belief (c : client_t) (resp : option client_resp_t) (leader : Z) : Prop :=
  match resp with
  | None => ∃ k, 1 ≤ k < Z.of_nat num_raft_servers ∧ leader = next_leader c k ∧ connected_to c leader = true ∧
      ∀ k', 1 ≤ k' < k → connected_to c (next_leader c k') = false
  | Some r =>
      match resp_type r with
      | kFailRedirect => ∃ k, (k < num_raft_servers)%nat ∧ leader_node_id r = Some (get_raft_node_id_for_process k) ∧
          leader = (if connected_to c (Z.of_nat k) then Z.of_nat k else leader_idx c)
      | _ => leader = leader_idx c
      end
  end.
(** Why the client ends. *)
Definition ends (c : client_t) (resp : option client_resp_t) : Prop :=
  match resp with
  | None => ∀ k, 1 ≤ k < Z.of_nat num_raft_servers → connected_to c (next_leader c k) = false
  | Some r => ∃ id, resp_type r = kFailRedirect ∧ leader_node_id r = Some id ∧ known_id id = false
  end.

Lemma count_response_spec c :
  wp count_response (λ _ c', client_conn_vec c' = client_conn_vec c ∧ client_requests c' = client_requests c ∧
    leader_idx c' = leader_idx c ∧ counters c' = counted (counters c)) c.
Proof.
  unfold count_response, counters, counted. do 4 wstep. cbn [num_resps_this_measurement set_num_resps_total set_num_resps_this_measurement].
  wsplit; [|by wstep]. do 4 wstep. cbn. by wsplit; wstep.
Qed.

Lemma send_req_one_spec c :
  client_ok c → wp send_req_one (λ _ c', client_ok c' ∧ client_conn_vec c' = client_conn_vec c ∧ leader_idx c' = leader_idx c ∧ counters c' = counters c ∧
    ∃ k, 0 ≤ k < kAppNumKeys ∧ client_requests c' = client_requests c ++ [(session_of c (leader_idx c), mk_client_req k [k; 0; 0; 0])]) c.
Proof.
  intros Hc. unfold send_req_one. do 2 wstep. destruct (next_u32 (fast_rand c)) as [r seed] eqn:E. do 2 wstep.
  assert (client_ok (set_fast_rand seed c)) as Hc1 by by destruct Hc.
  wstep. apply (conn_get (set_fast_rand seed c)); [done|apply Hc|]. intros conn _ Hs. wstep. split; [by destruct Hc|].
  split; [done|]. split; [done|]. split; [done|]. eexists. split; [|cbn; by rewrite Hs].
  pose proof (random_key (fast_rand c)) as Hk. by rewrite E in Hk.
Qed.

(** C10: a client asks again. Whatever response it gets, the client counts it (one more in the total and in
    the measurement; after 1000 the measurement ends, and the first four reset the total) and sends exactly one new request,
    for a key in range and with the value the servers expect, on the session of the server it now
    believes to be the leader: the same one after a success or an answer to try again, the
    server named by a redirection if its session is connected, and after a failed RPC the next server, in
    cyclic order, whose session is connected. The process ends only when an RPC failed and no other
    session is connected, or a redirection names an unknown server.  A redirection is assumed to carry a server's id, as
    those of the servers do. *)
Theorem client_asks_again c resp :
  client_ok c → (∀ r, resp = Some r → resp_type r = kFailRedirect → is_Some (leader_node_id r)) →
  ∃ go c', client_cont resp c = Ok (go, c') ∧ counters c' = counted (counters c) ∧
    if (go : bool) then
      client_ok c' ∧ new_belief c resp (leader_idx c') ∧
      ∃ k, 0 ≤ k < kAppNumKeys ∧ client_requests c' = client_requests c ++ [(session_of c (leader_idx c'), mk_client_req k [k; 0; 0; 0])]
    else ends c resp ∧ client_requests c' = client_requests c.
Proof.
  intros Hc Hresp. apply wp_iff. unfold SmrClient.client_cont. wstep. eapply wq_mono; [apply count_response_spec|].
  intros _ c1 (Ec1 & Er1 & El1 & En1). assert (client_ok c1) as Hc1 by (destruct Hc; split; rewrite ?Ec1, ?El1; done).
  assert (∀ k, connected_to c1 k = connected_to c k) as Eco by (intros; unfold connected_to; by rewrite Ec1).
  wstep. eapply (wq_mono _ _ (λ (go : bool) c', same_but_leader c1 c' ∧ if go then client_ok c' ∧ new_belief c resp (leader_idx c') else ends c resp)).
  - destruct resp as [r|].
    + specialize (Hresp r eq_refl). destruct (resp_type r) eqn:Et; [wstep; split; [done|]; split; [done|]; cbn; by rewrite Et| |
        wstep; split; [done|]; split; [done|]; cbn; by rewrite Et].
      destruct (Hresp eq_refl) as [id Hid]. rewrite Hid. destruct (known_id id) eqn:Ek; [|wstep; split; [done|]; cbn; by exists id].
      wstep. unfold change_leader_to_node. eapply wq_mono; [apply node_leader_loop_spec; [done| |by apply known_id_spec]|].
      * intros k Hk%elem_of_seq. lia.
      * intros x c2 ((Ec2 & Er2 & En2) & Hx & k & Hk%elem_of_seq & Hidk & _ & El2). wstep. rewrite Hx. rewrite Eco, El1 in El2. split; [done|]. split.
        -- destruct Hc1 as [? ? Hl1]. rewrite El1 in Hl1. split; [done|by rewrite Ec2|]. rewrite El2. destruct (connected_to c _); lia.
        -- cbn. rewrite Et. exists k. split; [lia|]. by rewrite Hid, Hidk.
    + unfold change_leader_to_any. do 2 wstep. rewrite El1. pose proof (ck_servers c Hc).
      eapply wq_mono; [apply (any_leader_loop_spec (num_raft_servers - 1) 1 c c1); [done|done|done|lia|lia]|].
      intros [] c2; cbn.
      * intros ((Ec2 & Er2 & En2) & k & Hk & El2 & Hcn & Hf). split; [done|]. split.
        -- destruct Hc1. split; [done|by rewrite Ec2|]. rewrite El2. unfold next_leader. apply Z.mod_pos_bound. lia.
        -- exists k. rewrite El2. done.
      * intros (? & _ & Hf). by split.
  - intros go c2 [(Ec2 & Er2 & En2) Hgo]. destruct go; [|wstep; split; [congruence|]; split; [done|congruence]]. destruct Hgo as [Hc2 Hb]. wstep.
    eapply wq_mono; [by apply send_req_one_spec|]. intros _ c3 (Hc3 & Ec3 & El3 & En3 & k & Hk & Hr). wstep. rewrite El3.
    split; [congruence|]. split; [done|]. split; [done|]. exists k. split; [done|]. rewrite Hr, Er2, Er1. unfold session_of. by rewrite Ec2, Ec1.
Qed.
End theorems.

Definition some_client : client_t :=
  mk_client 1 0 0 0 [mk_connection true 0 0; mk_connection false 1 1; mk_connection true 2 2; mk_connection false 3 3; mk_connection false 4 4] 5 [].
Lemma client_asks_again_witness :
  ∃ c' k, client_cont 5 (λ k, Z.of_nat k) None some_client = Ok (true, c') ∧ leader_idx c' = 3 ∧ num_resps_total c' = 1 ∧
    client_requests c' = [(3, mk_client_req k [k; 0; 0; 0])].
Proof.
  destruct (client_asks_again 5 (λ k, Z.of_nat k) some_client None) as (go & c' & Hrun & Hn & Hgo).
  - split; cbn; [lia|reflexivity|lia].
  - intros r [=].
  - assert (match client_cont 5 (λ k, Z.of_nat k) None some_client with Ok (go, c') => go && (leader_idx c' =? 3) | Fault _ => false end = true) as E
      by (vm_compute; reflexivity).
    rewrite Hrun in E. apply andb_true_iff in E as [-> El]. apply Z.eqb_eq in El. destruct Hgo as (_ & _ & k & _ & Hr).
    exists c', k. split; [exact Hrun|]. split; [exact El|]. split; [by injection Hn|]. rewrite Hr, El. reflexivity.
Defined.
