(* ===== verification/FixedTable.v ===== *)
(** * The hash table of fixed-size items ([mica/table/fixedtable.h])

    [FixedTable]: an array of buckets of [kBucketCap] slots; a full bucket chains
    extra buckets, taken from and returned to a free list.  A pointer to a bucket is its position in
    the array; the value of a slot, which the code stores behind the bucket, is
    kept next to its key.  Locks and versions are modelled for one thread: a spin
    on a lock that nobody else can release is [OutOfFuel]. *)

From S2P Require Import Prelude.

(** [mica/table/types.h] *)
Inductive Result : Type :=
| kSuccess | kError | kInsufficientSpacePool | kInsufficientSpaceIndex | kExists | kNotFound
| kPartialValue | kNotProcessed | kNotSupported | kTimedOut | kRejected.
#[global] Instance Result_eq_dec : EqDecision Result.
Proof. solve_decision. Defined.

Definition ResultString (r : Result) : string :=
  match r with
  | kSuccess => "Success"
  | kError => "Error"
  | kInsufficientSpacePool => "Insufficient space in pool"
  | kInsufficientSpaceIndex => "Insufficient space in index"
  | kExists => "Exists"
  | kNotFound => "Not found"
  | kPartialValue => "Partial value"
  | kNotProcessed => "Not processed"
  | kNotSupported => "Not supported"
  | kTimedOut => "Timed out"
  | kRejected => "Rejected"
  end.

(** The template parameter. *)
Record StaticConfig : Type := mk_config {
  kBucketCap : nat;
  kConcurrent : bool;
  kCollectStats : bool;
  kKeySize : nat
}.
Definition BasicFixedTableConfig : StaticConfig := mk_config 7 false false 16.

(** The words of a key, and the bytes of a value. *)
Abbreviation ft_key_t := (list Z) (only parsing).
Abbreviation value_t := (list Z) (only parsing).

Record Bucket : Type := mk_bucket {
  version : Z;
  next_extra_bucket_index : Z;
  key_arr : list ft_key_t;
  val_arr : list value_t
}.

Record Stats : Type := mk_stats {
  st_count : Z;
  st_set_new : Z;
  st_get_found : Z;
  st_get_locked : Z;
  st_get_notfound : Z;
  st_test_found : Z;
  st_test_notfound : Z;
  st_delete_found : Z;
  st_delete_notfound : Z
}.

Record FixedTable : Type := mk_table {
  val_size : nat;
  buckets_ : list Bucket;
  concurrent_access_mode_ : Z;
  num_buckets_ : Z;
  num_buckets_mask_ : Z;
  num_extra_buckets_ : Z;
  free_list_lock : Z;
  free_list_head : Z;
  stats_ : Stats
}.

Definition Bucket_eta (b : Bucket) : Bucket :=
  mk_bucket (version b) (next_extra_bucket_index b) (key_arr b) (val_arr b).
Definition set_version : Z → Bucket → Bucket := ltac:(field_update Bucket_eta version).
Definition set_next : Z → Bucket → Bucket := ltac:(field_update Bucket_eta next_extra_bucket_index).
Definition set_keys : list ft_key_t → Bucket → Bucket := ltac:(field_update Bucket_eta key_arr).
Definition set_vals : list value_t → Bucket → Bucket := ltac:(field_update Bucket_eta val_arr).

Definition Stats_eta (s : Stats) : Stats :=
  mk_stats (st_count s) (st_set_new s) (st_get_found s) (st_get_locked s) (st_get_notfound s)
    (st_test_found s) (st_test_notfound s) (st_delete_found s) (st_delete_notfound s).
Definition set_st_count : Z → Stats → Stats := ltac:(field_update Stats_eta st_count).
Definition set_st_set_new : Z → Stats → Stats := ltac:(field_update Stats_eta st_set_new).
Definition set_st_get_found : Z → Stats → Stats := ltac:(field_update Stats_eta st_get_found).
Definition set_st_get_notfound : Z → Stats → Stats := ltac:(field_update Stats_eta st_get_notfound).
Definition set_st_delete_found : Z → Stats → Stats := ltac:(field_update Stats_eta st_delete_found).
Definition set_st_delete_notfound : Z → Stats → Stats := ltac:(field_update Stats_eta st_delete_notfound).
Definition no_stats : Stats := mk_stats 0 0 0 0 0 0 0 0 0.

Definition FixedTable_eta (t : FixedTable) : FixedTable :=
  mk_table (val_size t) (buckets_ t) (concurrent_access_mode_ t) (num_buckets_ t) (num_buckets_mask_ t)
    (num_extra_buckets_ t) (free_list_lock t) (free_list_head t) (stats_ t).
Definition set_buckets : list Bucket → FixedTable → FixedTable := ltac:(field_update FixedTable_eta buckets_).
Definition set_free_lock : Z → FixedTable → FixedTable := ltac:(field_update FixedTable_eta free_list_lock).
Definition set_free_head : Z → FixedTable → FixedTable := ltac:(field_update FixedTable_eta free_list_head).
Definition set_stats : Stats → FixedTable → FixedTable := ltac:(field_update FixedTable_eta stats_).

(** [uint32_t] and [size_t] arithmetic. *)
Definition u32 (z : Z) : Z := z mod 2 ^ 32.
Definition u64 (z : Z) : Z := z mod 2 ^ 64.

Section table.
Context (SC : StaticConfig).
Abbreviation T := FixedTable.

(** ** [fixedtable_impl/init.h] *)
Definition invalid_key : ft_key_t := replicate (kKeySize SC / 8) (2 ^ 64 - 1).

(** ** Access to buckets *)
Definition deref_bucket (p : nat) : M T Bucket :=
  t ← get;
  match buckets_ t !! p with Some b => mret b | None => throw UndefinedBehaviour end.
Definition update_bucket (p : nat) (f : Bucket → Bucket) : M T unit :=
  b ← deref_bucket p; modify (λ t, set_buckets (<[p := f b]> (buckets_ t)) t).

Definition calc_bucket_index (key_hash : Z) (t : T) : Z :=
  Z.land (u32 key_hash) (num_buckets_mask_ t).

Definition get_bucket (bucket_index : Z) : M T nat :=
  t ← get;
  assert_ (bucket_index <? num_buckets_ t + num_extra_buckets_ t) ;;
  mret (Z.to_nat bucket_index).

Definition has_extra_bucket (b : Bucket) : bool := negb (next_extra_bucket_index b =? 0).

(** Extra buckets are numbered from 1 behind the primary ones. *)
Definition get_extra_bucket (extra_bucket_index : Z) : M T nat :=
  t ← get;
  assert_ (negb (extra_bucket_index =? 0)) ;;
  assert_ (extra_bucket_index <? 1 + num_extra_buckets_ t) ;;
  mret (Z.to_nat (num_buckets_ t - 1 + extra_bucket_index)).

(** ** [fixedtable_impl/lock.h] *)
Definition lock_bucket (p : nat) : M T unit :=
  if kConcurrent SC then
    t ← get;
    if concurrent_access_mode_ t =? 1 then
      b ← deref_bucket p;
      assert_ (Z.land (version b) 1 =? 0) ;;
      update_bucket p (λ b, set_version (u32 (version b + 1)) b)
    else if concurrent_access_mode_ t =? 2 then
      b ← deref_bucket p;
      let v := Z.land (version b) (2 ^ 32 - 2) in
      if version b =? v then update_bucket p (set_version (Z.lor v 1))
      else throw OutOfFuel
    else mret tt
  else mret tt.

Definition unlock_bucket (p : nat) : M T unit :=
  if kConcurrent SC then
    t ← get;
    if negb (concurrent_access_mode_ t =? 0) then
      b ← deref_bucket p;
      assert_ (Z.land (version b) 1 =? 1) ;;
      update_bucket p (λ b, set_version (u32 (version b + 1)) b)
    else mret tt
  else mret tt.

Definition lock_extra_bucket_free_list : M T unit :=
  if kConcurrent SC then
    t ← get;
    if concurrent_access_mode_ t =? 2 then
      if free_list_lock t =? 0 then modify (set_free_lock 1) else throw OutOfFuel
    else mret tt
  else mret tt.

Definition unlock_extra_bucket_free_list : M T unit :=
  if kConcurrent SC then
    t ← get;
    if concurrent_access_mode_ t =? 2 then
      assert_ (Z.land (free_list_lock t) 1 =? 1) ;;
      modify (set_free_lock 0)
    else mret tt
  else mret tt.

Definition read_version_begin (p : nat) : M T Z :=
  if kConcurrent SC then
    t ← get;
    if negb (concurrent_access_mode_ t =? 0) then
      b ← deref_bucket p;
      if Z.land (version b) 1 =? 0 then mret (version b) else throw OutOfFuel
    else mret 0
  else mret 0.

Definition read_version_end (p : nat) : M T Z :=
  if kConcurrent SC then
    t ← get;
    if negb (concurrent_access_mode_ t =? 0) then b ← deref_bucket p; mret (version b)
    else mret 0
  else mret 0.

(** ** [fixedtable_impl/info.h] *)
Definition stat_add (f : Stats → Stats) : M T unit :=
  if kCollectStats SC then modify (λ t, set_stats (f (stats_ t)) t) else mret tt.
Definition inc_set_new : M T unit := stat_add (λ s, set_st_set_new (u64 (st_set_new s + 1)) s).
Definition inc_get_found : M T unit := stat_add (λ s, set_st_get_found (u64 (st_get_found s + 1)) s).
Definition inc_get_notfound : M T unit := stat_add (λ s, set_st_get_notfound (u64 (st_get_notfound s + 1)) s).
Definition inc_delete_found : M T unit := stat_add (λ s, set_st_delete_found (u64 (st_delete_found s + 1)) s).
Definition inc_delete_notfound : M T unit :=
  stat_add (λ s, set_st_delete_notfound (u64 (st_delete_notfound s + 1)) s).
Definition dec_count : M T unit := stat_add (λ s, set_st_count (u64 (st_count s - 1)) s).
Definition reset_stats (reset_count : bool) : M T unit :=
  stat_add (λ s, if reset_count then no_stats else set_st_count (st_count s) no_stats).

(** ** [fixedtable_impl/bucket.h] *)
Definition alloc_extra_bucket (p : nat) : M T bool :=
  b ← deref_bucket p;
  assert_ (negb (has_extra_bucket b)) ;;
  lock_extra_bucket_free_list ;;
  t ← get;
  if free_list_head t =? 0 then unlock_extra_bucket_free_list ;; mret false
  else
    let extra_bucket_index := free_list_head t in
    q ← get_extra_bucket extra_bucket_index;
    eb ← deref_bucket q;
    modify (set_free_head (next_extra_bucket_index eb)) ;;
    update_bucket q (set_next 0) ;;
    update_bucket p (set_next extra_bucket_index) ;;
    unlock_extra_bucket_free_list ;;
    mret true.

Definition free_extra_bucket (p : nat) : M T unit :=
  b ← deref_bucket p;
  assert_ (has_extra_bucket b) ;;
  let extra_bucket_index := next_extra_bucket_index b in
  q ← get_extra_bucket extra_bucket_index;
  eb ← deref_bucket q;
  assert_ (next_extra_bucket_index eb =? 0) ;;
  assert_ (forallb (λ k, bool_decide (k = invalid_key)) (key_arr eb)) ;;
  update_bucket p (set_next 0) ;;
  lock_extra_bucket_free_list ;;
  t ← get;
  update_bucket q (set_next (free_list_head t)) ;;
  modify (set_free_head extra_bucket_index) ;;
  unlock_extra_bucket_free_list.

(** The scan of a bucket's slots for a key. *)
Definition scan_key (key : ft_key_t) (ks : list ft_key_t) : option nat := fst <$> list_find (key =.) ks.

(** The loop of [find_item_index]; the result is the located bucket and the item
    index, [None] standing for a null bucket and [kBucketCap]. *)
Fixpoint find_item_loop (fuel : nat) (p : nat) (key : ft_key_t) : M T (option (nat * nat)) :=
  match fuel with
  | O => throw OutOfFuel
  | S fuel =>
      b ← deref_bucket p;
      match scan_key key (key_arr b) with
      | Some i => mret (Some (p, i))
      | None =>
          if has_extra_bucket b then
            q ← get_extra_bucket (next_extra_bucket_index b);
            find_item_loop fuel q key
          else mret None
      end
  end.

(** A chain is no longer than the array. *)
Definition find_item_index (p : nat) (key : ft_key_t) : M T (option (nat * nat)) :=
  t ← get; find_item_loop (length (buckets_ t)) p key.

(** The loop of [get_empty]: the slot found, or the last bucket of the chain. *)
Fixpoint get_empty_loop (fuel : nat) (p : nat) : M T (nat * option nat) :=
  match fuel with
  | O => throw OutOfFuel
  | S fuel =>
      b ← deref_bucket p;
      match scan_key invalid_key (key_arr b) with
      | Some i => mret (p, Some i)
      | None =>
          if has_extra_bucket b then
            q ← get_extra_bucket (next_extra_bucket_index b);
            get_empty_loop fuel q
          else mret (p, None)
      end
  end.

Definition get_empty (p : nat) : M T (option (nat * nat)) :=
  t ← get;
  r ← get_empty_loop (length (buckets_ t)) p;
  match r with
  | (q, Some i) => mret (Some (q, i))
  | (last, None) =>
      ok ← alloc_extra_bucket last;
      if (ok : bool) then
        b ← deref_bucket last;
        q ← get_extra_bucket (next_extra_bucket_index b);
        mret (Some (q, 0%nat))
      else mret None
  end.

(** The do-while loop of [fill_hole]: the last bucket of the chain and the one
    before it. *)
Fixpoint last_bucket_loop (fuel : nat) (p : nat) : M T (nat * nat) :=
  match fuel with
  | O => throw OutOfFuel
  | S fuel =>
      b ← deref_bucket p;
      q ← get_extra_bucket (next_extra_bucket_index b);
      eb ← deref_bucket q;
      if has_extra_bucket eb then last_bucket_loop fuel q else mret (p, q)
  end.

(** The first used slot of a bucket, and whether it is the only one. *)
Definition scan_used (ks : list ft_key_t) : option (nat * bool) :=
  match list_find (λ k, k ≠ invalid_key) ks with
  | None => None
  | Some (i, _) => Some (i, bool_decide (list_find (λ k, k ≠ invalid_key) (drop (S i) ks) = None))
  end.

Definition set_slot (i : nat) (key : ft_key_t) (value : value_t) (b : Bucket) : Bucket :=
  set_keys (<[i := key]> (key_arr b)) (set_vals (<[i := value]> (val_arr b)) b).
Definition clear_slot (i : nat) (b : Bucket) : Bucket := set_keys (<[i := invalid_key]> (key_arr b)) b.

Fixpoint fill_hole_loop (fuel : nat) (p unused_item_index : nat) : M T unit :=
  match fuel with
  | O => throw OutOfFuel
  | S fuel =>
      b ← deref_bucket p;
      if negb (has_extra_bucket b) then mret tt
      else
        t ← get;
        r ← last_bucket_loop (length (buckets_ t)) p;
        let '(prev, current) := r in
        cb ← deref_bucket current;
        match scan_used (key_arr cb) with
        | None => free_extra_bucket prev ;; fill_hole_loop fuel p unused_item_index
        | Some (moved_item_index, last_item) =>
            key ← lift (arr_get (key_arr cb) (Z.of_nat moved_item_index));
            value ← lift (arr_get (val_arr cb) (Z.of_nat moved_item_index));
            update_bucket p (set_slot unused_item_index key value) ;;
            update_bucket current (clear_slot moved_item_index) ;;
            (if (last_item : bool) then free_extra_bucket prev else mret tt)
        end
  end.

Definition fill_hole (p unused_item_index : nat) : M T unit :=
  t ← get; fill_hole_loop (length (buckets_ t)) p unused_item_index.

(** ** [fixedtable_impl/item.h] *)
Definition set_item (p item_index : nat) (key : ft_key_t) (value : value_t) : M T unit :=
  t ← get;
  if bool_decide (val_size t ≤ length value)%nat then
    update_bucket p (set_slot item_index key (take (val_size t) value))
  else throw UndefinedBehaviour.

(** ** [fixedtable_impl/get.h]: the result and what is copied to [out_value] *)
Fixpoint get_loop (fuel : nat) (p : nat) (key : ft_key_t) : M T (Result * option value_t) :=
  match fuel with
  | O => throw OutOfFuel
  | S fuel =>
      version_start ← read_version_begin p;
      found ← find_item_index p key;
      match found with
      | None =>
          version_end ← read_version_end p;
          if negb (version_start =? version_end) then get_loop fuel p key
          else inc_get_notfound ;; mret (kNotFound, None)
      | Some (q, i) =>
          b ← deref_bucket q;
          value ← lift (arr_get (val_arr b) (Z.of_nat i));
          version_end ← read_version_end p;
          if negb (version_start =? version_end) then get_loop fuel p key
          else inc_get_found ;; mret (kSuccess, Some value)
      end
  end.

(** With one thread the first attempt is consistent. *)
Definition ft_get (key_hash : Z) (key : ft_key_t) : M T (Result * option value_t) :=
  t ← get;
  p ← get_bucket (calc_bucket_index key_hash t);
  get_loop 1 p key.

(** ** [fixedtable_impl/set.h] *)
Definition ft_set (key_hash : Z) (key : ft_key_t) (value : value_t) : M T Result :=
  if bool_decide (key = invalid_key) then mret kRejected
  else
    t ← get;
    p ← get_bucket (calc_bucket_index key_hash t);
    lock_bucket p ;;
    found ← find_item_index p key;
    slot ← match found with
           | Some s => mret (Some s)
           | None =>
               s ← get_empty p;
               match s with
               | None => mret None
               | Some s => inc_set_new ;; mret (Some s)
               end
           end;
    match slot with
    | None => unlock_bucket p ;; mret kInsufficientSpaceIndex
    | Some (q, i) => set_item q i key value ;; unlock_bucket p ;; mret kSuccess
    end.

(** ** [fixedtable_impl/del.h] *)
Definition ft_del (key_hash : Z) (key : ft_key_t) : M T Result :=
  t ← get;
  p ← get_bucket (calc_bucket_index key_hash t);
  lock_bucket p ;;
  found ← find_item_index p key;
  match found with
  | None => unlock_bucket p ;; inc_delete_notfound ;; mret kNotFound
  | Some (q, i) =>
      update_bucket q (clear_slot i) ;;
      dec_count ;;
      fill_hole q i ;;
      unlock_bucket p ;;
      inc_delete_found ;;
      mret kSuccess
  end.

(** ** [reset] and the constructor *)

(** The free list in the order of the array. *)
Definition link_free (num_buckets num_extra : nat) (p : nat) (b : Bucket) : Bucket :=
  if bool_decide (num_buckets ≤ p)%nat then
    set_next (if bool_decide (p + 1 < num_buckets + num_extra)%nat then Z.of_nat (p - num_buckets + 2) else 0) b
  else b.

Definition reset : M T unit :=
  modify (λ t, set_buckets ((λ b, set_keys (replicate (kBucketCap SC) invalid_key) b) <$> buckets_ t) t) ;;
  modify (set_free_lock 0) ;;
  t ← get;
  (if num_extra_buckets_ t =? 0 then modify (set_free_head 0)
   else
     modify (λ t, set_buckets (imap (link_free (Z.to_nat (num_buckets_ t)) (Z.to_nat (num_extra_buckets_ t)))
                                 (buckets_ t)) t) ;;
     modify (set_free_head 1)) ;;
  reset_stats true.

(** [while ((1ull << log) < n) log++] *)
Fixpoint log_ceil (fuel log : nat) (n : Z) : nat :=
  match fuel with
  | O => log
  | S fuel => if Z.shiftl 1 (Z.of_nat log) <? n then log_ceil fuel (S log) n else log
  end.

(** The constructor, from the configured item count and access modes; the number
    of extra buckets is a tenth of the main table before rounding ([n * 0.1] in
    [double] truncates to [n / 10] for the sizes admitted). *)
Definition new_table (vsize : nat) (item_count : Z) (concurrent_read concurrent_write : bool) : outcome T :=
  let item_count := u64 (item_count * 11) / 10 in
  let num_buckets := (item_count + Z.of_nat (kBucketCap SC) - 1) / Z.of_nat (kBucketCap SC) in
  if negb (0 <? num_buckets) || negb (Z.of_nat vsize mod 8 =? 0) then Fault AssertFailed
  else
    let num_extra := num_buckets / 10 in
    let log := log_ceil 64 0 num_buckets in
    let num_buckets := Z.shiftl 1 (Z.of_nat log) in
    if negb (num_buckets <? 2147483647) || negb (num_extra <? 2147483647) then Fault AssertFailed
    else
      let blank := mk_bucket 0 0 (replicate (kBucketCap SC) (replicate (kKeySize SC / 8) 0))
                     (replicate (kBucketCap SC) (replicate vsize 0)) in
      let mode := if negb concurrent_read then 0 else if negb concurrent_write then 1 else 2 in
      let t := mk_table vsize (replicate (Z.to_nat (num_buckets + num_extra)) blank) mode
                 num_buckets (num_buckets - 1) num_extra 0 0 no_stats in
      match reset t with Ok (_, t) => Ok t | Fault f => Fault f end.
End table.
