(* ===== verification/FixedTableSpec.v ===== *)
(** * Chains, ownership and contents of the hash table

    The links of a chain of buckets, the sharing out of the extra buckets between
    the chains and the free list, and the contents of buckets and chains (their
    used slots, for a chain up to order), with what a write to one bucket does to
    each. *)

From S2P Require Import Prelude FixedTable.

(** ** Chains

    A chain is a list of positions; the link of each bucket is the number of the
    next, and the last link is [z]. *)
Definition idx (nb q : nat) : Z := Z.of_nat q - Z.of_nat nb + 1.
Definition first_idx (nb : nat) (l : list nat) (z : Z) : Z := match l with [] => z | q :: _ => idx nb q end.
Fixpoint chained (nb : nat) (bs : list Bucket) (l : list nat) (z : Z) : Prop :=
  match l with
  | [] => True
  | q :: l => (∃ b, bs !! q = Some b ∧ next_extra_bucket_index b = first_idx nb l z) ∧ chained nb bs l z
  end.

Section chains.
Context (nb : nat).
Implicit Types (bs : list Bucket) (l : list nat) (q : nat).

Lemma chained_app bs l1 l2 z :
  chained nb bs (l1 ++ l2) z ↔ chained nb bs l1 (first_idx nb l2 z) ∧ chained nb bs l2 z.
Proof.
  induction l1 as [|q l1 IH]; cbn [app chained]; [naive_solver|].
  rewrite IH. assert (first_idx nb (l1 ++ l2) z = first_idx nb l1 (first_idx nb l2 z)) as -> by by destruct l1.
  tauto.
Qed.
Lemma chained_lookup bs l z q : chained nb bs l z → q ∈ l → is_Some (bs !! q).
Proof.
  induction l as [|r l IH]; cbn; [by intros _ ?%elem_of_nil|].
  intros [(b & Hb & _) Hl] [->|Hq]%elem_of_cons; eauto.
Qed.
Lemma chained_insert_ne bs l z q b : q ∉ l → chained nb bs l z → chained nb (<[q:=b]> bs) l z.
Proof.
  induction l as [|r l IH]; cbn; [done|]. intros [Hne Hq]%not_elem_of_cons [(b' & Hb & Hn) Hl].
  split; [|by apply IH]. exists b'. by rewrite list_lookup_insert_ne.
Qed.
Lemma chained_insert_same bs l z q b b' :
  bs !! q = Some b → next_extra_bucket_index b' = next_extra_bucket_index b →
  chained nb bs l z → chained nb (<[q:=b']> bs) l z.
Proof.
  intros Hb Hn. induction l as [|r l IH]; cbn; [done|]. intros [(b2 & Hb2 & Hn2) Hl].
  split; [|by apply IH]. destruct (decide (q = r)) as [->|Hne].
  - exists b'. rewrite list_lookup_insert_eq by by eapply lookup_lt_Some. naive_solver congruence.
  - exists b2. by rewrite list_lookup_insert_ne.
Qed.
(** Replacing the last link of a chain. *)
Lemma chained_relink bs l q b z z' :
  bs !! q = Some b → q ∉ l → chained nb bs (l ++ [q]) z → chained nb (<[q := set_next z' b]> bs) (l ++ [q]) z'.
Proof.
  intros Hb Hq [Hl _]%chained_app. apply chained_app. split; [by apply chained_insert_ne|].
  cbn. split; [|done]. exists (set_next z' b). by rewrite list_lookup_insert_eq by by eapply lookup_lt_Some.
Qed.
End chains.

(** ** Who owns which extra bucket *)
Record layout (nb ne : nat) (chains : list (list nat)) (free : list nat) : Prop := {
  lay_chains : length chains = nb;
  lay_own : free ++ concat chains ≡ₚ seq nb ne
}.

Section layout.
Context {nb ne : nat} {chains : list (list nat)} {free : list nat}.
Hypothesis (L : layout nb ne chains free).
Implicit Types (p q : nat) (c : list nat).

Lemma concat_split p c : chains !! p = Some c → concat chains ≡ₚ c ++ concat (delete p chains).
Proof.
  intros Hc. rewrite <- (take_drop_middle _ _ _ Hc) at 1. rewrite delete_take_drop, !concat_app. cbn.
  rewrite !app_assoc. apply Permutation_app_tail, Permutation_app_comm.
Qed.
Lemma concat_insert p c c' : chains !! p = Some c → concat (<[p:=c']> chains) ≡ₚ c' ++ concat (delete p chains).
Proof.
  intros Hc. rewrite insert_take_drop by by eapply lookup_lt_Some.
  rewrite delete_take_drop, !concat_app. cbn. rewrite !app_assoc. apply Permutation_app_tail, Permutation_app_comm.
Qed.
Lemma layout_NoDup : NoDup (free ++ concat chains).
Proof. rewrite (lay_own _ _ _ _ L). apply NoDup_seq. Qed.
Lemma layout_range q : q ∈ free ++ concat chains ↔ (nb ≤ q < nb + ne)%nat.
Proof. rewrite (lay_own _ _ _ _ L). apply elem_of_seq. Qed.
Lemma elem_of_chains p c q : chains !! p = Some c → q ∈ c → q ∈ concat chains.
Proof. intros Hc Hq. rewrite (concat_split p c Hc). set_solver. Qed.

Lemma layout_chain p c : chains !! p = Some c → (p < nb)%nat ∧ NoDup (p :: c) ∧ ∀ q, q ∈ c → (nb ≤ q < nb + ne)%nat.
Proof.
  intros Hc. assert (Hr : ∀ q, q ∈ c → (nb ≤ q < nb + ne)%nat).
  { intros q Hq. apply layout_range, elem_of_app. right. by eapply elem_of_chains. }
  assert (p < nb)%nat by (rewrite <- (lay_chains _ _ _ _ L); by eapply lookup_lt_Some).
  split_and!; try done. constructor; [intros Hp; specialize (Hr p Hp); lia|].
  pose proof layout_NoDup as (_ & _ & H')%NoDup_app. rewrite (concat_split p c Hc) in H'. by apply NoDup_app in H' as [? _].
Qed.
Lemma layout_disjoint p c p' c' q :
  chains !! p = Some c → chains !! p' = Some c' → p ≠ p' → q ∈ p :: c → q ∉ p' :: c'.
Proof.
  intros Hc Hc' Hne Hq Hq'. destruct (layout_chain p c Hc) as (Hp & _ & Hr), (layout_chain p' c' Hc') as (Hp' & _ & Hr').
  apply elem_of_cons in Hq as [->|Hq], Hq' as [->|Hq'];
    [done|specialize (Hr' _ Hq'); lia|specialize (Hr _ Hq); lia|].
  pose proof layout_NoDup as (_ & _ & HN)%NoDup_app. rewrite (concat_split p c Hc) in HN.
  apply NoDup_app in HN as (_ & HN & _). apply (HN q Hq). apply list_elem_of_In, List.in_concat.
  exists c'. split; [|by apply list_elem_of_In]. apply list_elem_of_In, list_elem_of_lookup.
  destruct (decide (p' < p)%nat).
  - exists p'. by rewrite list_lookup_delete_lt by done.
  - exists (p' - 1)%nat. rewrite list_lookup_delete_ge by lia. by replace (S (p' - 1)) with p' by lia.
Qed.
Lemma layout_free p c q : chains !! p = Some c → q ∈ p :: c → q ∉ free.
Proof.
  intros Hc Hq Hf. assert (Hr : (nb ≤ q)%nat) by (apply layout_range, elem_of_app; by left).
  destruct (layout_chain p c Hc) as (Hp & _ & _). apply elem_of_cons in Hq as [->|Hq]; [lia|].
  pose proof layout_NoDup as (_ & HN & _)%NoDup_app. apply (HN q Hf). by eapply elem_of_chains.
Qed.
Lemma layout_length p c : chains !! p = Some c → (length (p :: c) ≤ nb + ne)%nat.
Proof.
  intros Hc. destruct (layout_chain p c Hc) as (Hp & [_ HN]%NoDup_cons & Hr).
  assert (length c ≤ length (seq nb ne))%nat; [|rewrite length_seq in *; cbn; lia].
  apply submseteq_length, NoDup_submseteq; [done|]. intros q Hq. apply elem_of_seq. auto.
Qed.
Lemma layout_release p c q :
  chains !! p = Some (c ++ [q]) → layout nb ne (<[p:=c]> chains) (q :: free).
Proof.
  intros Hc. split; [rewrite length_insert; apply L|]. rewrite <- (lay_own _ _ _ _ L).
  rewrite (concat_insert _ _ c Hc), (concat_split _ _ Hc). cbn. rewrite <- !app_assoc. cbn.
  rewrite <- !Permutation_middle. done.
Qed.
End layout.

Lemma layout_alloc {nb ne chains q free} p c :
  layout nb ne chains (q :: free) → chains !! p = Some c → layout nb ne (<[p:=c ++ [q]]> chains) free.
Proof.
  intros L Hc. split; [rewrite length_insert; apply L|]. rewrite <- (lay_own _ _ _ _ L).
  rewrite (concat_insert _ _ (c ++ [q]) Hc), (concat_split _ _ Hc). cbn. rewrite <- !app_assoc. cbn.
  rewrite <- !Permutation_middle. done.
Qed.

(** ** Contents *)
Abbreviation entry := (ft_key_t * value_t)%type (only parsing).

Section contents.
Context (SC : StaticConfig).
Implicit Types (b : Bucket) (bs : list Bucket) (k : ft_key_t) (v : value_t) (c : list nat).

Definition used (e : entry) : Prop := e.1 ≠ invalid_key SC.
#[global] Instance used_dec e : Decision (used e).
Proof. unfold used. solve_decision. Defined.

Definition slots b : list entry := filter used (zip (key_arr b) (val_arr b)).
Definition items bs c : list entry := c ≫= λ q, from_option slots [] (bs !! q).
Definition bucket_ok b : Prop := length (key_arr b) = kBucketCap SC ∧ length (val_arr b) = kBucketCap SC.

(** The contents of one slot. *)
Definition cell k v : list entry := filter used [(k, v)].
Lemma cell_used k v : k ≠ invalid_key SC → cell k v = [(k, v)].
Proof. intros H. unfold cell. by rewrite filter_cons_True. Qed.
Lemma cell_empty v : cell (invalid_key SC) v = [].
Proof. unfold cell. rewrite filter_cons_False; [done|]. unfold used. naive_solver. Qed.

Lemma zip_lookup (ks : list ft_key_t) (vs : list value_t) i k v :
  zip ks vs !! i = Some (k, v) ↔ ks !! i = Some k ∧ vs !! i = Some v.
Proof. rewrite lookup_zip_with_Some. naive_solver. Qed.
Lemma filter_all {A} (P : A → Prop) `{!∀ x, Decision (P x)} (l : list A) : (∀ x, x ∈ l → P x) → filter P l = l.
Proof.
  induction l as [|x l IH]; intros Hl; [done|]. rewrite filter_cons_True by (apply Hl; left).
  f_equal. apply IH. intros y Hy. apply Hl. by right.
Qed.
Lemma insert_Permutation {A} (l : list A) i x y : l !! i = Some x → <[i:=y]> l ≡ₚ y :: delete i l.
Proof.
  intros Hx. rewrite insert_take_drop by by eapply lookup_lt_Some. rewrite delete_take_drop.
  by rewrite Permutation_middle.
Qed.
(** Writing one slot. *)
Lemma slots_write b i k v k' v' :
  key_arr b !! i = Some k → val_arr b !! i = Some v →
  ∃ rest, slots b ≡ₚ cell k v ++ rest ∧ slots (set_slot i k' v' b) ≡ₚ cell k' v' ++ rest.
Proof.
  intros Hk Hv. set (z := zip (key_arr b) (val_arr b)).
  assert (Hz : z !! i = Some (k, v)) by by apply zip_lookup.
  exists (filter used (delete i z)). unfold slots, cell, set_slot. cbn [key_arr val_arr set_keys set_vals].
  rewrite <- insert_zip_with. fold z. rewrite (insert_Permutation z i _ (k', v') Hz), (delete_Permutation z i _ Hz) at 1.
  rewrite <- !filter_app. done.
Qed.
Lemma clear_slot_write b i v :
  val_arr b !! i = Some v → clear_slot SC i b = set_slot i (invalid_key SC) v b.
Proof. intros Hv. destruct b. unfold clear_slot, set_slot, set_keys, set_vals. cbn in *. f_equal. by rewrite list_insert_id. Qed.
Lemma bucket_ok_write b i k v : bucket_ok b → bucket_ok (set_slot i k v b).
Proof. unfold bucket_ok. cbn. by rewrite !length_insert. Qed.
Lemma bucket_ok_val b i k : bucket_ok b → key_arr b !! i = Some k → ∃ v, val_arr b !! i = Some v.
Proof.
  intros [Hk Hv] Hi. apply lookup_lt_is_Some_2. apply lookup_lt_Some in Hi. lia.
Qed.
Lemma slots_elem b i k v :
  key_arr b !! i = Some k → val_arr b !! i = Some v → k ≠ invalid_key SC → (k, v) ∈ slots b.
Proof.
  intros Hk Hv Hne. apply list_elem_of_filter. split; [done|]. apply list_elem_of_lookup. exists i.
  by apply zip_lookup.
Qed.
Lemma slots_elem_inv b k v : (k, v) ∈ slots b → k ∈ key_arr b ∧ k ≠ invalid_key SC.
Proof.
  intros [Hu [i Hi]%list_elem_of_lookup]%list_elem_of_filter. split; [|done].
  apply zip_lookup in Hi as [Hk _]. by eapply list_elem_of_lookup_2.
Qed.
Lemma slots_full b : bucket_ok b → invalid_key SC ∉ key_arr b → length (slots b) = kBucketCap SC.
Proof.
  intros [Hk Hv] Hi. unfold slots. rewrite filter_all.
  - rewrite length_zip_with. lia.
  - intros [k v] [i Hlk]%list_elem_of_lookup. apply zip_lookup in Hlk as [Hlk _]. intros Hinv; cbn in Hinv; subst k.
    apply Hi. by eapply list_elem_of_lookup_2.
Qed.
Lemma slots_nil b : bucket_ok b → (slots b = [] ↔ ∀ k, k ∈ key_arr b → k = invalid_key SC).
Proof.
  intros Hok. split.
  - intros Hs k [i Hi]%list_elem_of_lookup. destruct (decide (k = invalid_key SC)) as [|Hne]; [done|].
    destruct (bucket_ok_val b i k Hok Hi) as [v Hv]. pose proof (slots_elem b i k v Hi Hv Hne) as Hin.
    rewrite Hs in Hin. by apply elem_of_nil in Hin.
  - intros Hall. destruct (slots b) as [|[k v] l] eqn:E; [done|]. exfalso.
    assert (Hin : (k, v) ∈ slots b) by (rewrite E; left). apply slots_elem_inv in Hin as [Hk Hne]. auto.
Qed.

Lemma items_cons bs q c : items bs (q :: c) = from_option slots [] (bs !! q) ++ items bs c.
Proof. done. Qed.
Lemma items_app bs c1 c2 : items bs (c1 ++ c2) = items bs c1 ++ items bs c2.
Proof. apply bind_app. Qed.
Lemma items_insert_ne bs q b c : q ∉ c → items (<[q:=b]> bs) c = items bs c.
Proof.
  intros Hq. induction c as [|r c IH]; [done|]. apply not_elem_of_cons in Hq as [Hne Hq].
  by rewrite !items_cons, IH, list_lookup_insert_ne.
Qed.
Lemma items_insert_slots bs q b b' c :
  bs !! q = Some b → slots b' = slots b → items (<[q:=b']> bs) c = items bs c.
Proof.
  intros Hb Hs. induction c as [|r c IH]; [done|]. rewrite !items_cons, IH. f_equal.
  destruct (decide (q = r)) as [->|Hne]; [|by rewrite list_lookup_insert_ne].
  rewrite list_lookup_insert_eq by by eapply lookup_lt_Some. by rewrite Hb.
Qed.
(** The contents of a chain around one of its buckets. *)
Lemma items_focus bs c q b :
  NoDup c → q ∈ c → bs !! q = Some b →
  ∃ rest, items bs c ≡ₚ slots b ++ rest ∧ ∀ b', items (<[q:=b']> bs) c ≡ₚ slots b' ++ rest.
Proof.
  intros HN (c1 & c2 & ->)%list_elem_of_split Hb. exists (items bs c1 ++ items bs c2).
  apply NoDup_app in HN as (_ & Hd & [Hq2 _]%NoDup_cons).
  assert (Hq1 : q ∉ c1) by (intros ?; apply (Hd q); [done|left]).
  split; [|intros b']; rewrite items_app, items_cons.
  - rewrite Hb. cbn. by rewrite Permutation_app_swap_app.
  - rewrite list_lookup_insert_eq by by eapply lookup_lt_Some. cbn.
    rewrite !items_insert_ne by done. by rewrite Permutation_app_swap_app.
Qed.
Lemma items_elem bs c q b e : q ∈ c → bs !! q = Some b → e ∈ slots b → e ∈ items bs c.
Proof. intros Hq Hb He. apply list_elem_of_bind. exists q. by rewrite Hb. Qed.
Lemma items_elem_inv bs c e : e ∈ items bs c → ∃ q b, q ∈ c ∧ bs !! q = Some b ∧ e ∈ slots b.
Proof.
  intros (q & He & Hq)%list_elem_of_bind. destruct (bs !! q) as [b|] eqn:Hb; cbn in He; [eauto|].
  by apply elem_of_nil in He.
Qed.
End contents.
