(* ===== verification/FixedTableInv.v ===== *)
(** * The invariant of the hash table, and how each routine moves it

    [table_inv] says that the links spell the chains, that every extra bucket is
    in one chain or in the free list, that free buckets are empty, which bucket is
    locked, and which entries the chain of each bucket holds.  The lemmas [wp_...]
    are the specifications of the routines of [bucket.h], [lock.h] and [item.h]. *)

From stdpp Require Import functions.
From S2P Require Import Prelude FixedTable FixedTableSpec.

(** ** Parity of versions *)
Lemma even_land_mask z : 0 ≤ z < 2 ^ 32 → Z.odd z = false → Z.land z (2 ^ 32 - 2) = z.
Proof.
  intros Hz Ho. assert (Hz2 : z = Z.shiftl (z / 2) 1).
  { rewrite Z.shiftl_mul_pow2 by lia. pose proof (Zmod_odd z) as Hm. rewrite Ho in Hm. pose proof (Z.div_mod z 2). lia. }
  rewrite Hz2 at 1. change (2 ^ 32 - 2) with (Z.shiftl (Z.ones 31) 1).
  rewrite <- Z.shiftl_land, Z.land_ones by lia. rewrite Z.mod_small; [by symmetry|].
  split; [apply Z.div_pos; lia|apply Z.div_lt_upper_bound; lia].
Qed.
Lemma even_lor_1 z : Z.odd z = false → Z.lor z 1 = z + 1.
Proof.
  intros Ho. assert (Z.land z 1 = 0).
  { change 1 with (Z.ones 1) at 1. rewrite Z.land_ones by lia. pose proof (Zmod_odd z) as Hm. rewrite Ho in Hm. done. }
  rewrite Z.add_nocarry_lxor by done. by rewrite Z.lxor_lor.
Qed.
Lemma land_1_odd z : Z.land z 1 = if Z.odd z then 1 else 0.
Proof. change 1 with (Z.ones 1) at 1. rewrite Z.land_ones by lia. apply Zmod_odd. Qed.
Lemma u32_range z : 0 ≤ u32 z < 2 ^ 32.
Proof. apply Z.mod_pos_bound. lia. Qed.
Lemma u32_odd z : Z.odd (u32 z) = Z.odd z.
Proof.
  unfold u32. rewrite (Z.div_mod z (2 ^ 32)) at 2 by lia. rewrite Z.odd_add, Z.odd_mul. cbn. by destruct (Z.odd _).
Qed.

Section inv.
Context (SC : StaticConfig) (Hcap : (0 < kBucketCap SC)%nat).
Context (nb ne vs : nat).
Implicit Types (t : FixedTable) (b : Bucket) (its : nat → list entry) (p q i : nat) (c free : list nat) (k : ft_key_t) (v : value_t).

(** Whether buckets, and the free list, are locked at all. *)
Definition locking t : bool := kConcurrent SC && negb (concurrent_access_mode_ t =? 0).
Definition locks_free t : bool := kConcurrent SC && (concurrent_access_mode_ t =? 2).

(** Only the bucket [held] has an odd version. *)
Definition version_ok t (held : option nat) q b : Prop :=
  0 ≤ version b < 2 ^ 32 ∧ (locking t = true → Z.odd (version b) = bool_decide (held = Some q)).

Record table_inv (held : option nat) its (chains : list (list nat)) free t : Prop := {
  inv_vals : val_size t = vs;
  inv_size : num_buckets_ t = Z.of_nat nb;
  inv_power : ∃ e, 0 ≤ e ≤ 32 ∧ Z.of_nat nb = 2 ^ e;
  inv_mask : num_buckets_mask_ t = Z.of_nat nb - 1;
  inv_extra : num_extra_buckets_ t = Z.of_nat ne;
  inv_array : length (buckets_ t) = (nb + ne)%nat;
  inv_mode : 0 ≤ concurrent_access_mode_ t ≤ 2;
  inv_bucket q b : buckets_ t !! q = Some b → bucket_ok SC b ∧ version_ok t held q b;
  inv_lock : free_list_lock t = 0;
  inv_layout : layout nb ne chains free;
  inv_chain p c : chains !! p = Some c →
    chained nb (buckets_ t) (p :: c) 0 ∧ items SC (buckets_ t) (p :: c) ≡ₚ its p;
  inv_free : chained nb (buckets_ t) free 0 ∧ free_list_head t = first_idx nb free 0;
  inv_free_empty : items SC (buckets_ t) free = []
}.

(** ** Access *)
Lemma wp_deref p b Q t : buckets_ t !! p = Some b → Q b t → wp (deref_bucket p) Q t.
Proof. intros Hb HQ. unfold deref_bucket. do 2 wstep. by rewrite Hb. Qed.
Lemma wp_update p b f Q t :
  buckets_ t !! p = Some b → Q tt (set_buckets (<[p:=f b]> (buckets_ t)) t) → wp (update_bucket p f) Q t.
Proof. intros Hb HQ. unfold update_bucket. wstep. eapply wp_deref; [done|]. by wstep. Qed.
Lemma wp_get_extra q z Q t :
  num_buckets_ t = Z.of_nat nb → num_extra_buckets_ t = Z.of_nat ne →
  (nb ≤ q < nb + ne)%nat → z = idx nb q → Q q t → wp (get_extra_bucket z) Q t.
Proof.
  unfold get_extra_bucket, idx. intros Hb He Hq -> HQ. do 3 wstep. apply wp_assert; [lia|].
  wstep. apply wp_assert; [lia|]. wstep. rewrite Hb.
  by replace (Z.to_nat _) with q by lia.
Qed.
Lemma has_extra_first b l :
  next_extra_bucket_index b = first_idx nb l 0 → (∀ q, q ∈ l → (nb ≤ q)%nat) →
  has_extra_bucket b = match l with [] => false | _ => true end.
Proof.
  unfold has_extra_bucket. intros -> Hl. destruct l as [|q l]; [done|]. cbn. unfold idx.
  specialize (Hl q ltac:(left)). lia.
Qed.

(** ** Structural updates of the invariant *)

(** Writing the slots of a bucket of chain [p]. *)
Lemma inv_put held its chains free t p c q b b' new :
  table_inv held its chains free t → chains !! p = Some c → q ∈ p :: c → buckets_ t !! q = Some b →
  bucket_ok SC b' → version b' = version b → next_extra_bucket_index b' = next_extra_bucket_index b →
  (∀ rest, slots SC b ++ rest ≡ₚ its p → slots SC b' ++ rest ≡ₚ new) →
  table_inv held (<[p:=new]> its) chains free (set_buckets (<[q:=b']> (buckets_ t)) t).
Proof.
  intros I Hc Hq Hb Hok Hv Hn Hnew. pose proof (inv_layout _ _ _ _ _ I) as L.
  assert (Hlt : (q < length (buckets_ t))%nat) by by eapply lookup_lt_Some.
  split; cbn -[chained items insert]; try apply I.
  - by rewrite length_insert, (inv_array _ _ _ _ _ I).
  - intros r b2. destruct (decide (q = r)) as [<-|Hne].
    + rewrite list_lookup_insert_eq by done. intros [= <-]. split; [done|].
      destruct (inv_bucket _ _ _ _ _ I q b Hb) as [_ Hver]. unfold version_ok, locking in *. cbn. by rewrite Hv.
    + rewrite list_lookup_insert_ne by done. apply (inv_bucket _ _ _ _ _ I).
  - intros p' c' Hc'. destruct (inv_chain _ _ _ _ _ I p' c' Hc') as [Hch Hit].
    split; [by eapply chained_insert_same|]. destruct (decide (p' = p)) as [->|Hne].
    + rewrite fn_lookup_insert. simplify_eq.
      destruct (items_focus SC (buckets_ t) (p :: c) q b) as (rest & Hr & Hr'); try done.
      { apply (layout_chain L p c Hc). }
      rewrite (Hr' b'). apply Hnew. by rewrite <- Hr.
    + rewrite fn_lookup_insert_ne by done. rewrite items_insert_ne; [done|].
      by eapply (layout_disjoint L p c p' c').
  - split; [|apply I]. eapply chained_insert_same; [done..|apply I].
  - rewrite items_insert_ne; [apply I|]. by eapply (layout_free L).
Qed.

(** Writing only the version of a bucket. *)
Lemma inv_version held held' its chains free t q b z :
  table_inv held its chains free t → buckets_ t !! q = Some b →
  0 ≤ z < 2 ^ 32 → (locking t = true → Z.odd z = bool_decide (held' = Some q)) →
  (∀ r, r ≠ q → (held = Some r ↔ held' = Some r)) →
  table_inv held' its chains free (set_buckets (<[q:=set_version z b]> (buckets_ t)) t).
Proof.
  intros I Hb Hz Hodd Hheld.
  assert (Hlt : (q < length (buckets_ t))%nat) by by eapply lookup_lt_Some.
  split; cbn -[chained items insert]; try apply I.
  - by rewrite length_insert, (inv_array _ _ _ _ _ I).
  - intros r b2. destruct (decide (q = r)) as [<-|Hne].
    + rewrite list_lookup_insert_eq by done. intros [= <-].
      split; [apply (inv_bucket _ _ _ _ _ I q b Hb)|]. done.
    + rewrite list_lookup_insert_ne by done. intros Hb2.
      destruct (inv_bucket _ _ _ _ _ I r b2 Hb2) as [? [? Hver]]. split; [done|]. split; [done|].
      intros Hl. rewrite Hver by done. apply bool_decide_ext. by apply Hheld.
  - intros p' c' Hc'. destruct (inv_chain _ _ _ _ _ I p' c' Hc') as [Hch Hit].
    split; [by eapply chained_insert_same|]. by erewrite items_insert_slots.
  - split; [|apply I]. eapply chained_insert_same; [done..|apply I].
  - erewrite items_insert_slots; [apply I|done..].
Qed.

Lemma inv_stats held its chains free t st :
  table_inv held its chains free t → table_inv held its chains free (set_stats st t).
Proof. intros I. split; cbn -[chained items insert]; apply I. Qed.
Lemma inv_its held its its' chains free t :
  table_inv held its chains free t → (∀ p, its p ≡ₚ its' p) → table_inv held its' chains free t.
Proof.
  intros I Hits. split; try apply I. intros p c Hc. destruct (inv_chain _ _ _ _ _ I p c Hc) as [? Hit].
  split; [done|]. by rewrite Hit.
Qed.

(** ** Locks *)
Lemma wp_lock_bucket its chains free t p b Q :
  table_inv None its chains free t → buckets_ t !! p = Some b →
  (∀ t', table_inv (Some p) its chains free t' → Q tt t') → wp (lock_bucket SC p) Q t.
Proof.
  intros I Hb HQ. destruct (inv_bucket _ _ _ _ _ I p b Hb) as [_ [Hr Hodd]].
  pose proof (inv_mode _ _ _ _ _ I). unfold locking in Hodd.
  assert (Hnext : ∀ f z, f b = set_version z b → 0 ≤ z < 2 ^ 32 → Z.odd z = true →
    wp (update_bucket p f) Q t).
  { intros f z Hf Hz Ho. eapply wp_update; [done|]. rewrite Hf. apply HQ. eapply inv_version; try done; [|naive_solver].
    intros _. rewrite Ho. by rewrite bool_decide_true. }
  assert (Hnone : locking t = false → Q tt t).
  { intros Hl. apply HQ. split; try apply I. intros q b' Hb'. destruct (inv_bucket _ _ _ _ _ I q b' Hb') as [? [? ?]].
    split; [done|]. split; [done|]. congruence. }
  unfold lock_bucket, locking in *. destruct (kConcurrent SC); [|by wstep; apply Hnone].
  do 2 wstep. wsplit; bool_prop.
  - rewrite Heqb0 in Hodd. specialize (Hodd eq_refl). cbn in Hodd. wstep. eapply wp_deref; [done|]. wstep.
    apply wp_assert; [by rewrite land_1_odd, Hodd|].
    eapply Hnext; [done|apply u32_range|]. by rewrite u32_odd, Z.odd_add, Hodd.
  - wsplit; bool_prop.
    + rewrite Heqb1 in Hodd. specialize (Hodd eq_refl). cbn in Hodd. wstep. eapply wp_deref; [done|].
      rewrite (even_land_mask _ Hr Hodd), Z.eqb_refl, (even_lor_1 _ Hodd). eapply Hnext; [done| |].
      * assert (version b ≠ 2 ^ 32 - 1); [|lia]. intros E. by rewrite E in Hodd.
      * by rewrite Z.odd_add, Hodd.
    + wstep. apply Hnone. cbn. lia.
Qed.
Lemma wp_unlock_bucket its chains free t p b Q :
  table_inv (Some p) its chains free t → buckets_ t !! p = Some b →
  (∀ t', table_inv None its chains free t' → Q tt t') → wp (unlock_bucket SC p) Q t.
Proof.
  intros I Hb HQ. destruct (inv_bucket _ _ _ _ _ I p b Hb) as [_ [Hr Hodd]].
  assert (Hnone : locking t = false → Q tt t).
  { intros Hl. apply HQ. split; try apply I. intros q b' Hb'. destruct (inv_bucket _ _ _ _ _ I q b' Hb') as [? [? ?]].
    split; [done|]. split; [done|]. congruence. }
  unfold unlock_bucket, locking in *. destruct (kConcurrent SC); [|by wstep; apply Hnone].
  do 2 wstep. wsplit; [|wstep; by apply Hnone]. specialize (Hodd eq_refl). rewrite bool_decide_true in Hodd by done.
  wstep. eapply wp_deref; [done|]. wstep. apply wp_assert; [by rewrite land_1_odd, Hodd|].
  eapply wp_update; [done|]. apply HQ. eapply inv_version; try done; [apply u32_range| |naive_solver].
  intros _. by rewrite u32_odd, Z.odd_add, Hodd.
Qed.
Lemma wp_lock_free t Q :
  free_list_lock t = 0 → Q tt (set_free_lock (if locks_free t then 1 else 0) t) →
  wp (lock_extra_bucket_free_list SC) Q t.
Proof.
  unfold lock_extra_bucket_free_list, locks_free. intros Hl HQ.
  assert (Hid : set_free_lock 0 t = t) by (destruct t; cbn in *; by subst).
  destruct (kConcurrent SC); cbn [andb] in HQ; [|by rewrite Hid in HQ; wstep].
  do 2 wstep. wsplit; [|by rewrite Hid in HQ; wstep]. rewrite Hl. done.
Qed.
Lemma wp_unlock_free t Q :
  free_list_lock t = (if locks_free t then 1 else 0) → Q tt (set_free_lock 0 t) →
  wp (unlock_extra_bucket_free_list SC) Q t.
Proof.
  unfold unlock_extra_bucket_free_list, locks_free. intros Hl HQ.
  destruct (kConcurrent SC); cbn [andb] in Hl.
  - do 2 wstep. wsplit.
    + rewrite Hl. wstep. apply wp_assert; [done|]. by wstep.
    + wstep. by replace (set_free_lock 0 t) with t in HQ by (destruct t; cbn in *; by subst).
  - wstep. by replace (set_free_lock 0 t) with t in HQ by (destruct t; cbn in *; by subst).
Qed.

(** ** Moving an extra bucket between a chain and the free list *)

(** Only links change. *)
Lemma inv_relink held its chains free chains' free' t X h :
  table_inv held its chains free t → layout nb ne chains' free' →
  set_next 0 <$> X = set_next 0 <$> buckets_ t →
  (∀ p c, chains' !! p = Some c → chained nb X (p :: c) 0 ∧ items SC (buckets_ t) (p :: c) ≡ₚ its p) →
  chained nb X free' 0 → h = first_idx nb free' 0 → items SC (buckets_ t) free' = [] →
  table_inv held its chains' free' (set_free_lock 0 (set_free_head h (set_buckets X t))).
Proof.
  intros I L HX Hch Hfree Hh Hempty.
  assert (Hlook : ∀ q, set_next 0 <$> X !! q = set_next 0 <$> buckets_ t !! q)
    by (intros q; by rewrite <- !list_lookup_fmap, HX).
  assert (Hslots : ∀ b b', set_next 0 b = set_next 0 b' → slots SC b = slots SC b')
    by (intros [] [] [= -> -> ->]; done).
  assert (Hitems : ∀ c, items SC X c = items SC (buckets_ t) c).
  { intros c. unfold items. apply list_bind_ext; [|done]. intros q. specialize (Hlook q).
    destruct (X !! q), (buckets_ t !! q); try done. exact (Hslots _ _ (inj Some _ _ Hlook)). }
  split; cbn -[chained items insert]; try apply I; try done.
  - rewrite <- (inv_array _ _ _ _ _ I). apply (f_equal length) in HX. by rewrite !length_fmap in HX.
  - intros q b Hb. specialize (Hlook q). rewrite Hb in Hlook. destruct (buckets_ t !! q) as [b'|] eqn:Hb'; [|done].
    cbn in Hlook. destruct (inv_bucket _ _ _ _ _ I q b' Hb'). destruct b, b'. by simplify_eq.
  - intros p c Hc. rewrite Hitems. by apply Hch.
  - by rewrite Hitems.
Qed.
Lemma relink_content (bs : list Bucket) q b z :
  bs !! q = Some b → set_next 0 <$> <[q := set_next z b]> bs = set_next 0 <$> bs.
Proof.
  intros Hb. rewrite list_fmap_insert. apply list_insert_id. by rewrite list_lookup_fmap, Hb.
Qed.

Lemma inv_alloc held its chains q free t p c pre r b eb :
  table_inv held its chains (q :: free) t → chains !! p = Some c → p :: c = pre ++ [r] →
  buckets_ t !! r = Some b → buckets_ t !! q = Some eb →
  table_inv held its (<[p := c ++ [q]]> chains) free
    (set_free_lock 0 (set_free_head (next_extra_bucket_index eb)
       (set_buckets (<[r := set_next (idx nb q) b]> (<[q := set_next 0 eb]> (buckets_ t))) t))).
Proof.
  intros I Hc Hpre Hr Hq. pose proof (inv_layout _ _ _ _ _ I) as L.
  destruct (inv_free _ _ _ _ _ I) as [[(eb' & Heb & Hnext) Hfree] _]. simplify_eq.
  destruct (layout_chain L p c Hc) as (Hp & HN & _).
  assert (Hrc : r ∈ p :: c) by (rewrite Hpre; set_solver).
  assert (Hown : ∀ p' c', chains !! p' = Some c' → q ∉ p' :: c').
  { intros p' c' Hc' Hin. apply (layout_free L p' c' q Hc' Hin). left. }
  pose proof (layout_free L p c r Hc Hrc) as [Hqr Hrf]%not_elem_of_cons.
  assert (Hqf : q ∉ free).
  { pose proof (layout_NoDup L) as HN'. rewrite <- app_comm_cons in HN'. apply NoDup_cons in HN' as [HN' _]. set_solver. }
  pose proof (inv_free_empty _ _ _ _ _ I) as Hempty. rewrite items_cons, Hq in Hempty. cbn in Hempty.
  apply app_eq_nil in Hempty as [Hseb Hempty].
  eapply inv_relink; [done|by apply layout_alloc| | | |done|done].
  - rewrite (relink_content _ _ b), (relink_content _ _ eb); [done..|]. by rewrite list_lookup_insert_ne.
  - intros p' c' Hc'. destruct (decide (p' = p)) as [->|Hne].
    + rewrite list_lookup_insert_eq in Hc' by by eapply lookup_lt_Some. injection Hc' as <-.
      destruct (inv_chain _ _ _ _ _ I p c Hc) as [Hch Hit]. rewrite app_comm_cons. split.
      * rewrite Hpre in *. apply chained_app. split.
        -- eapply chained_relink; [by rewrite list_lookup_insert_ne|by apply NoDup_app in HN as (_ & HN & _); set_solver|].
           apply chained_insert_ne; [|done]. rewrite <- Hpre. by eapply Hown.
        -- cbn. split; [|done]. exists (set_next 0 eb). rewrite list_lookup_insert_ne by done.
           by rewrite list_lookup_insert_eq by by eapply lookup_lt_Some.
      * rewrite items_app, (items_cons _ _ q), Hq. cbn. by rewrite Hseb, app_nil_r.
    + rewrite list_lookup_insert_ne in Hc' by done. destruct (inv_chain _ _ _ _ _ I p' c' Hc') as [Hch Hit].
      split; [|done]. apply chained_insert_ne; [by eapply (layout_disjoint L p c)|].
      apply chained_insert_ne; [by eapply Hown|done].
  - by do 2 (apply chained_insert_ne; [done|]).
Qed.

Lemma inv_release held its chains free t p c pre r q b eb :
  table_inv held its chains free t → chains !! p = Some (c ++ [q]) → p :: c = pre ++ [r] →
  buckets_ t !! r = Some b → buckets_ t !! q = Some eb → slots SC eb = [] →
  table_inv held its (<[p := c]> chains) (q :: free)
    (set_free_lock 0 (set_free_head (idx nb q)
       (set_buckets (<[q := set_next (free_list_head t) eb]> (<[r := set_next 0 b]> (buckets_ t))) t))).
Proof.
  intros I Hc Hpre Hr Hq Hs. pose proof (inv_layout _ _ _ _ _ I) as L.
  destruct (inv_free _ _ _ _ _ I) as [Hfree Hhead].
  destruct (layout_chain L p _ Hc) as (Hp & HN & _). rewrite app_comm_cons in HN.
  assert (Hrc : r ∈ p :: c) by (rewrite Hpre; set_solver).
  apply NoDup_app in HN as (HN & Hd & _). assert (Hqc : q ∉ p :: c) by (intros ?; by apply (Hd q); [|left]).
  assert (Hqr : r ≠ q) by (intros ->; done).
  assert (Hqin : q ∈ p :: c ++ [q]) by set_solver. assert (Hrin : r ∈ p :: c ++ [q]) by set_solver.
  pose proof (layout_free L p _ r Hc Hrin) as Hrf. pose proof (layout_free L p _ q Hc Hqin) as Hqf.
  eapply inv_relink; [done|by apply layout_release| | | |done|].
  - rewrite (relink_content _ _ eb), (relink_content _ _ b); [done..|]. by rewrite list_lookup_insert_ne.
  - intros p' c' Hc'. destruct (decide (p' = p)) as [->|Hne].
    + rewrite list_lookup_insert_eq in Hc' by by eapply lookup_lt_Some. injection Hc' as <-.
      destruct (inv_chain _ _ _ _ _ I p _ Hc) as [Hch Hit]. rewrite app_comm_cons in Hch, Hit. split.
      * apply chained_insert_ne; [done|]. apply chained_app in Hch as [Hch _].
        rewrite Hpre in *. eapply chained_relink; [done| |done]. apply NoDup_app in HN as (_ & HN & _). set_solver.
      * rewrite items_app, (items_cons _ _ q), Hq in Hit. cbn in Hit. by rewrite Hs, app_nil_r in Hit.
    + rewrite list_lookup_insert_ne in Hc' by done. destruct (inv_chain _ _ _ _ _ I p' c' Hc') as [Hch Hit].
      split; [|done]. by do 2 (apply chained_insert_ne; [by eapply (layout_disjoint L p _ _ _ _ Hc)|]).
  - cbn. split.
    + exists (set_next (free_list_head t) eb). rewrite list_lookup_insert_eq; [done|].
      rewrite length_insert. by eapply lookup_lt_Some.
    + by do 2 (apply chained_insert_ne; [done|]).
  - rewrite items_cons, Hq. cbn. rewrite Hs. apply I.
Qed.

(** ** Walking a chain *)
Definition sized t : Prop := num_buckets_ t = Z.of_nat nb ∧ num_extra_buckets_ t = Z.of_nat ne.
Lemma inv_sized held its chains free t : table_inv held its chains free t → sized t.
Proof. intros I. split; apply I. Qed.
Definition extras (l : list nat) : Prop := ∀ q, q ∈ l → (nb ≤ q < nb + ne)%nat.
Lemma inv_extras held its chains free t p c : table_inv held its chains free t → chains !! p = Some c → extras c.
Proof. intros I Hc q. by apply (layout_chain (inv_layout _ _ _ _ _ I) p c Hc). Qed.

Lemma scan_key_Some k ks i : scan_key k ks = Some i → ks !! i = Some k.
Proof.
  unfold scan_key. intros ([j x] & (Hl & Hx & _)%list_find_Some & Hj)%fmap_Some. cbn in Hj. by subst.
Qed.
Lemma scan_key_None k ks : scan_key k ks = None → k ∉ ks.
Proof.
  unfold scan_key. intros Hf%fmap_None Hin. apply list_find_None in Hf.
  rewrite Forall_forall in Hf. by apply (Hf k).
Qed.

(** One step of a walk: the bucket, and whether and where it continues. *)
Lemma wp_walk {A} (g : nat → M FixedTable A) (h : M FixedTable A) p l Q t b :
  sized t → extras l → buckets_ t !! p = Some b → next_extra_bucket_index b = first_idx nb l 0 →
  match l with [] => wp h Q t | q :: _ => wp (g q) Q t end →
  wp (if has_extra_bucket b then q ← get_extra_bucket (next_extra_bucket_index b); g q else h) Q t.
Proof.
  intros [Hs1 Hs2] Hl Hb Hn HQ. rewrite (has_extra_first b l); [|done|intros q Hq; by apply Hl].
  destruct l as [|q l]; [done|]. wstep. eapply wp_get_extra; [done..| |by rewrite Hn|done]. apply Hl. left.
Qed.

Lemma wp_find_item_loop fuel p l k t :
  sized t → chained nb (buckets_ t) (p :: l) 0 → extras l → (length l < fuel)%nat →
  wp (find_item_loop fuel p k) (λ r t', t' = t ∧
    match r with
    | Some (q, i) => q ∈ p :: l ∧ ∃ b, buckets_ t !! q = Some b ∧ key_arr b !! i = Some k
    | None => ∀ q b, q ∈ p :: l → buckets_ t !! q = Some b → k ∉ key_arr b
    end) t.
Proof.
  intros Hs. revert p l. induction fuel as [|fuel IH]; intros p l Hch Hl Hfuel; [lia|].
  destruct Hch as [(b & Hb & Hn) Hch]. cbn [find_item_loop]. wstep. eapply wp_deref; [done|].
  destruct (scan_key k (key_arr b)) as [i|] eqn:Hk.
  - apply wq_ret. split; [done|]. split; [left|]. exists b. by apply scan_key_Some in Hk.
  - apply scan_key_None in Hk. eapply wp_walk; try done. destruct l as [|q l].
    + apply wq_ret. split; [done|]. intros q b' Hq Hb'. assert (q = p) as -> by set_solver. by simplify_eq.
    + eapply wq_mono; [apply (IH q l); [done|intros ??; apply Hl; set_solver|cbn in Hfuel; lia]|].
      intros [[q' i]|] t' [-> Hr]; (split; [done|]).
      * split; [right|]; apply Hr.
      * intros q' b' [->|Hq']%elem_of_cons Hb'; [by simplify_eq|by eapply Hr].
Qed.

Lemma wp_find_item_index held its chains free t p c k :
  table_inv held its chains free t → chains !! p = Some c →
  wp (find_item_index p k) (λ r t', t' = t ∧
    match r with
    | Some (q, i) => q ∈ p :: c ∧ ∃ b, buckets_ t !! q = Some b ∧ key_arr b !! i = Some k
    | None => ∀ q b, q ∈ p :: c → buckets_ t !! q = Some b → k ∉ key_arr b
    end) t.
Proof.
  intros I Hc. pose proof (inv_layout _ _ _ _ _ I) as L. unfold find_item_index. do 2 wstep.
  apply wp_find_item_loop; [by eapply inv_sized|by apply (inv_chain _ _ _ _ _ I)|by eapply inv_extras|].
  rewrite (inv_array _ _ _ _ _ I). pose proof (layout_length L p c Hc). cbn in *. lia.
Qed.

Lemma wp_get_empty_loop fuel p l t :
  sized t → chained nb (buckets_ t) (p :: l) 0 → extras l → (length l < fuel)%nat →
  wp (get_empty_loop SC fuel p) (λ r t', t' = t ∧
    match r with
    | (q, Some i) => q ∈ p :: l ∧ ∃ b, buckets_ t !! q = Some b ∧ key_arr b !! i = Some (invalid_key SC)
    | (q, None) => (∃ pre, p :: l = pre ++ [q]) ∧
        ∀ q b, q ∈ p :: l → buckets_ t !! q = Some b → invalid_key SC ∉ key_arr b
    end) t.
Proof.
  intros Hs. revert p l. induction fuel as [|fuel IH]; intros p l Hch Hl Hfuel; [lia|].
  destruct Hch as [(b & Hb & Hn) Hch]. cbn [get_empty_loop]. wstep. eapply wp_deref; [done|].
  destruct (scan_key (invalid_key SC) (key_arr b)) as [i|] eqn:Hk.
  - apply wq_ret. split; [done|]. split; [left|]. exists b. by apply scan_key_Some in Hk.
  - apply scan_key_None in Hk. eapply wp_walk; try done. destruct l as [|q l].
    + apply wq_ret. split; [done|]. split; [by exists []|].
      intros q b' Hq Hb'. assert (q = p) as -> by set_solver. by simplify_eq.
    + eapply wq_mono; [apply (IH q l); [done|intros ??; apply Hl; set_solver|cbn in Hfuel; lia]|].
      intros [q' [i|]] t' [-> Hr]; (split; [done|]).
      * split; [right|]; apply Hr.
      * destruct Hr as [[pre Hpre] Hr]. split; [exists (p :: pre); by rewrite Hpre|].
        intros q2 b' [->|Hq']%elem_of_cons Hb'; [by simplify_eq|by eapply Hr].
Qed.

Lemma wp_alloc held its chains free t p c pre r :
  table_inv held its chains free t → chains !! p = Some c → p :: c = pre ++ [r] →
  wp (alloc_extra_bucket SC r) (λ ok t',
    if (ok : bool) then ∃ q free', free = q :: free' ∧ table_inv held its (<[p := c ++ [q]]> chains) free' t' ∧
      ∀ eb, buckets_ t' !! q = Some eb → slots SC eb = []
    else free = [] ∧ table_inv held its chains free t') t.
Proof.
  intros I Hc Hpre. pose proof (inv_layout _ _ _ _ _ I) as L. destruct (inv_chain _ _ _ _ _ I p c Hc) as [Hch _].
  rewrite Hpre in Hch. apply chained_app in Hch as [_ [(b & Hb & Hn) _]]. cbn in Hn.
  unfold alloc_extra_bucket. wstep. eapply wp_deref; [done|]. wstep.
  apply wp_assert; [unfold has_extra_bucket; by rewrite Hn|]. wstep. apply wp_lock_free; [apply I|]. do 2 wstep.
  destruct (inv_free _ _ _ _ _ I) as [Hfree Hhead]. cbn [free_list_head set_free_lock]. rewrite Hhead.
  destruct free as [|q free]; cbn [first_idx].
  - rewrite Z.eqb_refl. wstep. apply wp_unlock_free; [done|]. wstep. split; [done|].
    split; cbn -[chained items insert]; try apply I. done.
  - assert (Hq : (nb ≤ q < nb + ne)%nat) by (apply (layout_range L); left).
    rewrite (proj2 (Z.eqb_neq _ _)) by (unfold idx; lia). destruct (inv_sized _ _ _ _ _ I) as [Hs1 Hs2].
    destruct Hfree as [(eb & Heb & Hneb) _].
    assert (Hqr : q ≠ r).
    { intros ->. eapply (layout_free L p c r Hc); [|left]. rewrite Hpre. set_solver. }
    wstep. eapply wp_get_extra; [done..|]. wstep. eapply wp_deref; [exact Heb|]. do 2 wstep.
    wstep. eapply wp_update; [exact Heb|]. wstep. eapply wp_update.
    { cbn. rewrite list_lookup_insert_ne; [exact Hb|done]. }
    wstep. apply wp_unlock_free; [done|]. wstep. exists q, free. split; [done|]. split.
    { exact (inv_alloc _ _ _ _ _ _ _ _ _ _ _ _ I Hc Hpre Hb Heb). }
    cbn. intros eb'. rewrite list_lookup_insert_ne, list_lookup_insert_eq by first [done | by eapply lookup_lt_Some].
    intros [= <-]. pose proof (inv_free_empty _ _ _ _ _ I) as He. rewrite items_cons, Heb in He.
    by apply app_eq_nil in He as [? _].
Qed.

Lemma wp_get_empty held its chains free t p c :
  table_inv held its chains free t → chains !! p = Some c →
  wp (get_empty SC p) (λ r t',
    match r with
    | Some (q, i) => ∃ chains' free' c' b, table_inv held its chains' free' t' ∧ chains' !! p = Some c' ∧
        q ∈ p :: c' ∧ buckets_ t' !! q = Some b ∧ key_arr b !! i = Some (invalid_key SC)
    | None => table_inv held its chains free t' ∧ free = [] ∧
        ∀ q b, q ∈ p :: c → buckets_ t !! q = Some b → invalid_key SC ∉ key_arr b
    end) t.
Proof.
  intros I Hc. pose proof (inv_layout _ _ _ _ _ I) as L. unfold get_empty. do 2 wstep. wstep.
  eapply wq_mono; [apply (wp_get_empty_loop _ p c); [by eapply inv_sized|by apply (inv_chain _ _ _ _ _ I)|by eapply inv_extras|]|].
  { rewrite (inv_array _ _ _ _ _ I). pose proof (layout_length L p c Hc). cbn in *. lia. }
  intros [r [i|]] t' [-> Hr].
  - apply wq_ret. destruct Hr as [Hin (b & Hb & Hk)]. by exists chains, free, c, b.
  - destruct Hr as [[pre Hpre] Hfull]. wstep. eapply wq_mono; [by eapply wp_alloc|]. intros [|] t' Hok; cbv beta in Hok.
    + destruct Hok as (q & free' & -> & I' & Hempty). pose proof (inv_layout _ _ _ _ _ I') as L'.
      assert (Hc' : <[p:=c ++ [q]]> chains !! p = Some (c ++ [q])) by (apply list_lookup_insert_eq; by eapply lookup_lt_Some).
      destruct (inv_chain _ _ _ _ _ I' p _ Hc') as [Hch _]. rewrite app_comm_cons, Hpre, <- app_assoc in Hch.
      apply chained_app in Hch as [_ [(b & Hb & Hn) [(eb & Heb & _) _]]]. cbn in Hn.
      wstep. eapply wp_deref; [done|]. wstep. destruct (inv_sized _ _ _ _ _ I') as [Hs1 Hs2].
      eapply wp_get_extra; [done|done| |done|].
      { apply (layout_chain L' p _ Hc'). set_solver. }
      wstep. exists (<[p:=c ++ [q]]> chains), free', (c ++ [q]), eb. split_and!; try done; [set_solver|].
      destruct (inv_bucket _ _ _ _ _ I' q eb Heb) as [Hok _]. pose proof (proj1 (slots_nil SC eb Hok) (Hempty eb Heb)) as Hinv.
      destruct (lookup_lt_is_Some_2 (key_arr eb) 0) as [k Hk]; [destruct Hok; lia|].
      rewrite Hk. f_equal. apply Hinv. by eapply list_elem_of_lookup_2.
    + apply wq_ret. naive_solver.
Qed.

(** ** Filling the hole a deletion leaves *)
Lemma wp_last_bucket_loop fuel p l t :
  sized t → chained nb (buckets_ t) (p :: l) 0 → extras l → l ≠ [] → (length l ≤ fuel)%nat →
  wp (last_bucket_loop fuel p) (λ r t', t' = t ∧ ∃ pre, p :: l = pre ++ [r.1; r.2]) t.
Proof.
  intros [Hs1 Hs2]. revert p l. induction fuel as [|fuel IH]; intros p [|q l] Hch Hl Hne Hfuel; cbn in Hfuel; try done; [lia|].
  destruct Hch as [(b & Hb & Hn) Hch]. cbn [last_bucket_loop]. wstep. eapply wp_deref; [done|]. wstep.
  eapply wp_get_extra; [done|done|apply Hl; left|done|]. pose proof Hch as [(eb & Heb & Hneb) _].
  wstep. eapply wp_deref; [done|]. assert (Hl' : extras l) by (intros ??; apply Hl; by right).
  rewrite (has_extra_first eb l Hneb) by (intros ? ?; by apply Hl'). destruct l as [|q2 l].
  - wstep. split; [done|]. by exists [].
  - eapply wq_mono; [apply (IH q (q2 :: l)); [done|done|done|cbn in *; lia]|]. intros r t' [-> [pre Hpre]].
    split; [done|]. exists (p :: pre). by rewrite Hpre.
Qed.

Lemma relink_keys (bs bs' : list Bucket) : set_next 0 <$> bs' = set_next 0 <$> bs → key_arr <$> bs' = key_arr <$> bs.
Proof.
  intros E. change key_arr with (key_arr ∘ set_next 0). by rewrite (list_fmap_compose _ _ bs'), E, <- list_fmap_compose.
Qed.
Lemma wp_free_extra held its chains free t p c pre r q eb :
  table_inv held its chains free t → chains !! p = Some (c ++ [q]) → p :: c = pre ++ [r] →
  buckets_ t !! q = Some eb → slots SC eb = [] →
  wp (free_extra_bucket SC r) (λ _ t', table_inv held its (<[p := c]> chains) (q :: free) t' ∧
    key_arr <$> buckets_ t' = key_arr <$> buckets_ t) t.
Proof.
  intros I Hc Hpre Hq Hs. pose proof (inv_layout _ _ _ _ _ I) as L. destruct (inv_sized _ _ _ _ _ I) as [Hs1 Hs2].
  destruct (inv_chain _ _ _ _ _ I p _ Hc) as [Hch _]. rewrite app_comm_cons, Hpre, <- app_assoc in Hch.
  apply chained_app in Hch as [_ [(b & Hb & Hn) [(eb' & Heb & Hneb) _]]]. simplify_eq. rename Hq into Heb. cbn in Hn.
  assert (Hqr : (nb ≤ q < nb + ne)%nat) by (eapply inv_extras; [done..|set_solver]).
  destruct (layout_chain L p _ Hc) as (_ & HN & _). rewrite app_comm_cons, Hpre, <- app_assoc in HN.
  assert (Hne : r ≠ q) by (apply NoDup_app in HN as (_ & _ & [HN _]%NoDup_cons); set_solver).
  unfold free_extra_bucket. wstep. eapply wp_deref; [done|]. wstep.
  apply wp_assert; [unfold has_extra_bucket; rewrite Hn; unfold idx; lia|]. wstep.
  eapply wp_get_extra; [done..|]. wstep. eapply wp_deref; [done|]. wstep. apply wp_assert; [by rewrite Hneb|]. wstep.
  apply wp_assert.
  { apply forallb_forall. intros k Hk%list_elem_of_In. apply bool_decide_true.
    eapply (slots_nil SC eb); [apply (inv_bucket _ _ _ _ _ I q eb Heb)|done..]. }
  wstep. eapply wp_update; [done|]. wstep. apply wp_lock_free; [apply I|]. do 3 wstep.
  eapply wp_update; [cbn; by rewrite list_lookup_insert_ne|]. do 2 wstep.
  apply wp_unlock_free; [done|]. split.
  - rewrite Hn. exact (inv_release _ _ _ _ _ _ _ _ _ _ _ _ I Hc Hpre Hb Heb Hs).
  - apply relink_keys. cbn. rewrite (relink_content _ _ eb), (relink_content _ _ b); [done..|]. by rewrite list_lookup_insert_ne.
Qed.

Lemma scan_used_None ks : scan_used SC ks = None → ∀ k, k ∈ ks → k = invalid_key SC.
Proof.
  unfold scan_used. destruct (list_find _ ks) as [[i k]|] eqn:E; [done|]. intros _ k Hk.
  apply list_find_None in E. rewrite Forall_forall in E. by apply dec_stable, E.
Qed.
Lemma scan_used_Some ks i last :
  scan_used SC ks = Some (i, last) →
  ∃ k, ks !! i = Some k ∧ k ≠ invalid_key SC ∧
    (last = true → ∀ k', k' ∈ <[i := invalid_key SC]> ks → k' = invalid_key SC).
Proof.
  unfold scan_used. destruct (list_find _ ks) as [[j k]|] eqn:E; [|done]. intros [= -> Hlast].
  apply list_find_Some in E as (Hk & Hne & Hbefore). exists k. split_and!; [done..|].
  intros Hl k' [j Hj]%list_elem_of_lookup. rewrite Hl in Hlast. apply bool_decide_eq_true, list_find_None in Hlast.
  destruct (Nat.lt_total j i) as [Hji|[->|Hji]].
  - rewrite list_lookup_insert_ne in Hj by lia. by apply dec_stable, (Hbefore j).
  - rewrite list_lookup_insert_eq in Hj by by eapply lookup_lt_Some. by simplify_eq.
  - rewrite list_lookup_insert_ne in Hj by lia. rewrite Forall_forall in Hlast. apply dec_stable, Hlast.
    apply list_elem_of_lookup. exists (j - S i)%nat. rewrite lookup_drop. by replace (S i + (j - S i))%nat with j by lia.
Qed.

(** Writing one slot of a chain. *)
Lemma inv_write held its chains free t p c q b i k v k' v' R :
  table_inv held its chains free t → chains !! p = Some c → q ∈ p :: c → buckets_ t !! q = Some b →
  key_arr b !! i = Some k → val_arr b !! i = Some v → its p ≡ₚ cell SC k v ++ R →
  table_inv held (<[p := cell SC k' v' ++ R]> its) chains free
    (set_buckets (<[q := set_slot i k' v' b]> (buckets_ t)) t).
Proof.
  intros I Hc Hq Hb Hk Hv HR. eapply inv_put; try done.
  - apply bucket_ok_write. by apply (inv_bucket _ _ _ _ _ I q b).
  - intros rest Hrest. destruct (slots_write SC b i k v k' v' Hk Hv) as (r0 & Hr & Hr').
    rewrite Hr, <- app_assoc, HR in Hrest. apply Permutation_app_inv_l in Hrest.
    by rewrite Hr', <- app_assoc, Hrest.
Qed.
Lemma inv_elem held its chains free t p c e :
  table_inv held its chains free t → chains !! p = Some c →
  e ∈ its p ↔ ∃ q b, q ∈ p :: c ∧ buckets_ t !! q = Some b ∧ e ∈ slots SC b.
Proof.
  intros I Hc. destruct (inv_chain _ _ _ _ _ I p c Hc) as [_ Hit]. rewrite <- Hit. split.
  - apply items_elem_inv.
  - intros (q & b & ? & ? & ?). by eapply items_elem.
Qed.
Lemma inv_slot_val held its chains free t q b i k :
  table_inv held its chains free t → buckets_ t !! q = Some b → key_arr b !! i = Some k → ∃ v, val_arr b !! i = Some v.
Proof. intros I Hb. apply (bucket_ok_val SC). by apply (inv_bucket _ _ _ _ _ I q b). Qed.
Lemma inv_slot held its chains free t p c q b i k v :
  table_inv held its chains free t → chains !! p = Some c → q ∈ p :: c → buckets_ t !! q = Some b →
  key_arr b !! i = Some k → val_arr b !! i = Some v → k ≠ invalid_key SC → (k, v) ∈ its p.
Proof.
  intros I Hc Hq Hb Hk Hv Hne. eapply inv_elem; [done..|]. exists q, b. split_and!; try done. by eapply slots_elem.
Qed.

(** Moving an entry to an empty slot of the same chain. *)
Lemma inv_move held its chains free t p c q b i q' b' j k v :
  table_inv held its chains free t → chains !! p = Some c → q ≠ q' →
  q ∈ p :: c → buckets_ t !! q = Some b → key_arr b !! i = Some (invalid_key SC) →
  q' ∈ p :: c → buckets_ t !! q' = Some b' → key_arr b' !! j = Some k → val_arr b' !! j = Some v →
  k ≠ invalid_key SC →
  table_inv held its chains free
    (set_buckets (<[q' := clear_slot SC j b']> (<[q := set_slot i k v b]> (buckets_ t))) t).
Proof.
  intros I Hc Hne Hq Hb Hi Hq' Hb' Hj Hv Hk. destruct (inv_slot_val _ _ _ _ _ _ _ _ _ I Hb Hi) as [v0 Hv0].
  assert (I1 := inv_write held its chains free t p c q b i _ v0 k v (its p) I Hc Hq Hb Hi Hv0).
  rewrite cell_empty, (cell_used SC k v Hk) in I1. specialize (I1 ltac:(done)).
  assert (I2 := inv_write _ _ _ _ _ p c q' b' j k v (invalid_key SC) v (its p) I1 Hc Hq').
  rewrite (clear_slot_write SC b' j v Hv). rewrite cell_empty, (cell_used SC k v Hk), fn_lookup_insert in I2.
  cbn [buckets_ set_buckets] in I2. rewrite list_lookup_insert_ne in I2 by done.
  specialize (I2 Hb' Hj Hv ltac:(done)). eapply inv_its; [exact I2|].
  intros p'. destruct (decide (p' = p)) as [->|?]; [by rewrite fn_lookup_insert|].
  by rewrite !fn_lookup_insert_ne by done.
Qed.

Lemma chain_split p c pre q suf pre2 prev cur :
  p :: c = pre ++ q :: suf → q :: suf = pre2 ++ [prev; cur] →
  ∃ c0 suf0, c = c0 ++ [cur] ∧ suf = suf0 ++ [cur] ∧ q :: suf0 = pre2 ++ [prev] ∧
    p :: c0 = pre ++ q :: suf0 ∧ p :: c0 = (pre ++ pre2) ++ [prev].
Proof.
  intros Hc Hs. change [prev; cur] with ([prev] ++ [cur]) in Hs. rewrite app_assoc in Hs.
  destruct (pre2 ++ [prev]) as [|q' suf0] eqn:E; [by destruct pre2|]. injection Hs as -> ->.
  rewrite app_comm_cons, app_assoc in Hc. destruct (pre ++ q' :: suf0) as [|p' c0] eqn:E2; [by destruct pre|].
  injection Hc as -> ->. exists c0, suf0. split_and!; try done. by rewrite <- app_assoc, E, E2.
Qed.

Lemma wp_fill_hole_loop fuel held its chains free t p c pre q suf b i :
  table_inv held its chains free t → chains !! p = Some c → p :: c = pre ++ q :: suf →
  buckets_ t !! q = Some b → key_arr b !! i = Some (invalid_key SC) → (length suf < fuel)%nat →
  wp (fill_hole_loop SC fuel q i) (λ _ t', ∃ chains' free', table_inv held its chains' free' t') t.
Proof.
  revert chains free t c suf b. induction fuel as [|fuel IH]; intros chains free t c suf b I Hc Hpre Hb Hi Hfuel; [lia|].
  pose proof (inv_layout _ _ _ _ _ I) as L. destruct (inv_chain _ _ _ _ _ I p c Hc) as [Hch _].
  pose proof (inv_extras _ _ _ _ _ _ _ I Hc) as Hext. pose proof (layout_length L p c Hc) as Hlen.
  assert (Hsuf : extras suf).
  { destruct pre as [|? pre]; injection Hpre as -> ->; [done|]. intros ??. apply Hext. set_solver. }
  rewrite Hpre in Hch, Hlen. apply chained_app in Hch as [_ Hch]. pose proof Hch as [(b' & Hb' & Hn) _]. simplify_eq.
  cbn [fill_hole_loop]. wstep. eapply wp_deref; [done|].
  rewrite (has_extra_first b suf Hn) by (intros ? ?; by apply Hsuf).
  destruct (decide (suf = [])) as [->|Hne]; [cbn [negb]; wstep; eauto|].
  replace (match suf with [] => false | _ => true end) with true by by destruct suf. cbn [negb]. do 3 wstep.
  eapply wq_mono; [apply (wp_last_bucket_loop _ q suf); try done; [by eapply inv_sized|]|].
  { rewrite (inv_array _ _ _ _ _ I). rewrite length_app in Hlen. cbn in Hlen. lia. }
  intros [prev cur] t' [-> [pre2 Hpre2]]. cbn [fst snd] in Hpre2.
  destruct (chain_split _ _ _ _ _ _ _ _ Hpre Hpre2) as (c0 & suf0 & -> & -> & Hq0 & Hp0 & Hp0').
  assert (Hqin : q ∈ p :: c0 ++ [cur]) by (rewrite app_comm_cons, Hp0; set_solver).
  assert (Hcin : cur ∈ p :: c0 ++ [cur]) by set_solver.
  assert (Hqc : q ≠ cur).
  { destruct (layout_chain L p _ Hc) as (_ & HN & _). rewrite app_comm_cons, Hp0 in HN.
    apply NoDup_app in HN as (_ & HN & _). intros ->. apply (HN cur); set_solver. }
  destruct (chained_lookup _ _ _ _ cur Hch) as [cb Hcb]; [set_solver|].
  destruct (inv_bucket _ _ _ _ _ I cur cb Hcb) as [Hok _].
  wstep. eapply wp_deref; [done|]. destruct (scan_used SC (key_arr cb)) as [[j last]|] eqn:Hscan.
  - destruct (scan_used_Some _ _ _ Hscan) as (k & Hk & Hkne & Hlast).
    destruct (bucket_ok_val SC cb j k Hok Hk) as [v Hv].
    wstep. eapply wp_lift; [apply arr_get_Ok; rewrite Nat2Z.id; split; [lia|exact Hk]|].
    wstep. eapply wp_lift; [apply arr_get_Ok; rewrite Nat2Z.id; split; [lia|exact Hv]|].
    wstep. eapply wp_update; [done|]. wstep. eapply wp_update; [cbn; by rewrite list_lookup_insert_ne|].
    assert (I' := inv_move _ _ _ _ _ _ _ _ _ _ _ _ _ _ _ I Hc Hqc Hqin Hb Hi Hcin Hcb Hk Hv Hkne).
    destruct last; [|by wstep; eexists _, _].
    eapply wq_mono; [eapply (wp_free_extra _ _ _ _ _ _ _ _ _ _ (clear_slot SC j cb) I' Hc Hp0')|naive_solver].
    + cbn. rewrite list_lookup_insert_eq; [done|]. rewrite length_insert. by eapply lookup_lt_Some.
    + apply (slots_nil SC). { rewrite (clear_slot_write SC cb j v Hv). by apply bucket_ok_write. }
      by apply Hlast.
  - wstep. eapply wq_mono; [eapply (wp_free_extra _ _ _ _ _ _ _ _ _ _ cb I Hc Hp0'); [done|]|].
    { apply (slots_nil SC); [done|]. by apply scan_used_None. }
    intros [] t' [I' Hkeys]. apply (f_equal (.!! q)) in Hkeys. rewrite !list_lookup_fmap, Hb in Hkeys.
    destruct (buckets_ t' !! q) as [b2|] eqn:Hb2; [|done]. injection Hkeys as Hkeys.
    eapply IH; [exact I'| |exact Hp0|done|by rewrite Hkeys|rewrite length_app in Hfuel; cbn in Hfuel; lia].
    apply list_lookup_insert_eq. by eapply lookup_lt_Some.
Qed.
End inv.
