(* ===== verification/FixedTableMap.v ===== *)
(** * The hash table implements a finite map

    [represents] relates a table to the map it stores; [get], [set] and [del] have
    the results and effects of lookup, insertion and deletion, as does every
    sequence of them from a new table. *)

From stdpp Require Import functions.
From S2P Require Import Prelude FixedTable FixedTableSpec FixedTableInv.

Section represents.
Context (SC : StaticConfig) (Hcap : (0 < kBucketCap SC)%nat) (hash : ft_key_t → Z).
Implicit Types (t : FixedTable) (m : gmap ft_key_t value_t) (its : nat → list entry) (k : ft_key_t) (v : value_t).

(** The bucket of a key, and the map in the chains. *)
Definition home (nb : nat) k : nat := Z.to_nat (u32 (hash k) mod Z.of_nat nb).
Record stored (nb : nat) m its : Prop := {
  stored_NoDup p : NoDup (its p).*1;
  stored_elem p k v : (k, v) ∈ its p ↔ m !! k = Some v ∧ home nb k = p
}.
Definition represents t m : Prop :=
  ∃ nb ne its chains free, table_inv SC nb ne (val_size t) None its chains free t ∧ stored nb m its.

Lemma stored_ext nb m its its' : stored nb m its → (∀ p, its p ≡ₚ its' p) → stored nb m its'.
Proof.
  intros S E. split; intros p; [rewrite <- (E p)|intros k v; rewrite <- (E p)]; apply S.
Qed.
Lemma stored_new nb m its k v :
  stored nb m its → m !! k = None → stored nb (<[k := v]> m) (<[home nb k := (k, v) :: its (home nb k)]> its).
Proof.
  intros S Hk. split.
  - intros p. destruct (decide (p = home nb k)) as [->|Hne];
      [rewrite fn_lookup_insert|rewrite fn_lookup_insert_ne by done; apply S]. cbn. apply NoDup_cons. split; [|apply S].
    intros ([k' v'] & Hk' & Hin)%list_elem_of_fmap. cbn in Hk'. subst k'. apply (stored_elem _ _ _ S) in Hin as [Hin _].
    congruence.
  - intros p k' v'. destruct (decide (k' = k)) as [->|Hk'].
    + rewrite lookup_insert_eq. destruct (decide (p = home nb k)) as [->|Hne].
      * rewrite fn_lookup_insert, elem_of_cons, (stored_elem _ _ _ S). naive_solver congruence.
      * rewrite fn_lookup_insert_ne, (stored_elem _ _ _ S) by done. naive_solver congruence.
    + rewrite lookup_insert_ne by done. destruct (decide (p = home nb k)) as [->|Hne].
      * rewrite fn_lookup_insert, elem_of_cons, (stored_elem _ _ _ S). naive_solver.
      * rewrite fn_lookup_insert_ne by done. apply S.
Qed.
Lemma stored_delete nb m its k v R :
  stored nb m its → its (home nb k) ≡ₚ (k, v) :: R → stored nb (delete k m) (<[home nb k := R]> its).
Proof.
  intros S HR. pose proof (stored_NoDup _ _ _ S (home nb k)) as HN. rewrite HR in HN. cbn in HN.
  apply NoDup_cons in HN as [Hk HN]. split.
  - intros p. destruct (decide (p = home nb k)) as [->|Hne];
      [by rewrite fn_lookup_insert|rewrite fn_lookup_insert_ne by done; apply S].
  - intros p k' v'. pose proof (stored_elem _ _ _ S p k' v') as E.
    destruct (decide (p = home nb k)) as [->|Hne].
    + rewrite fn_lookup_insert. rewrite HR, elem_of_cons in E. destruct (decide (k' = k)) as [->|Hk'].
      * rewrite lookup_delete_eq. split; [|naive_solver]. intros Hin. destruct Hk. by apply (list_elem_of_fmap_2 fst _ (k, v')).
      * rewrite lookup_delete_ne by done. naive_solver congruence.
    + rewrite fn_lookup_insert_ne by done. destruct (decide (k' = k)) as [->|Hk'].
      * rewrite lookup_delete_eq. naive_solver.
      * by rewrite lookup_delete_ne.
Qed.
Lemma stored_replace nb m its k v v' R :
  stored nb m its → its (home nb k) ≡ₚ (k, v) :: R →
  stored nb (<[k := v']> m) (<[home nb k := (k, v') :: R]> its).
Proof.
  intros S HR. rewrite <- insert_delete_eq. eapply stored_ext.
  - apply stored_new; [by eapply stored_delete|]. apply lookup_delete_eq.
  - intros p. destruct (decide (p = home nb k)) as [->|Hne]; [by rewrite !fn_lookup_insert|].
    by rewrite !fn_lookup_insert_ne by done.
Qed.

(** ** Locating the bucket *)
Lemma wp_get_home nb ne vs held its chains free t k Q :
  table_inv SC nb ne vs held its chains free t →
  (∀ c b, chains !! home nb k = Some c → buckets_ t !! home nb k = Some b → Q (home nb k) t) →
  wp (get_bucket (calc_bucket_index (hash k) t)) Q t.
Proof.
  intros I HQ. unfold get_bucket, calc_bucket_index. do 3 wstep.
  destruct (inv_power _ _ _ _ _ _ _ _ _ I) as (e & He & Hnb).
  assert (Hidx : Z.land (u32 (hash k)) (num_buckets_mask_ t) = u32 (hash k) mod Z.of_nat nb).
  { rewrite (inv_mask _ _ _ _ _ _ _ _ _ I), Hnb. replace (2 ^ e - 1) with (Z.ones e) by (rewrite Z.ones_equiv; lia).
    apply Z.land_ones. lia. }
  assert (Hpos : 0 < Z.of_nat nb) by (rewrite Hnb; apply Z.pow_pos_nonneg; lia).
  pose proof (Z.mod_pos_bound (u32 (hash k)) (Z.of_nat nb) Hpos) as Hmod.
  apply wp_assert.
  { rewrite Hidx, (inv_size _ _ _ _ _ _ _ _ _ I), (inv_extra _ _ _ _ _ _ _ _ _ I). apply Z.ltb_lt.
    eapply Z.lt_le_trans; [apply Hmod|]. lia. }
  wstep. rewrite Hidx. fold (home nb k).
  assert (Hlt : (home nb k < nb)%nat) by (unfold home; apply Nat2Z.inj_lt; rewrite Z2Nat.id; apply Hmod).
  destruct (lookup_lt_is_Some_2 chains (home nb k)) as [c Hc].
  { by rewrite (lay_chains _ _ _ _ (inv_layout _ _ _ _ _ _ _ _ _ I)). }
  destruct (inv_chain _ _ _ _ _ _ _ _ _ I _ c Hc) as [[(b & Hb & _) _] _]. by eapply HQ.
Qed.

(** The same bucket, as the code computes it. *)
Lemma calc_home nb ne vs held its chains free t k k' :
  table_inv SC nb ne vs held its chains free t →
  calc_bucket_index (hash k) t = calc_bucket_index (hash k') t ↔ home nb k = home nb k'.
Proof.
  intros I. unfold calc_bucket_index, home.
  destruct (inv_power _ _ _ _ _ _ _ _ _ I) as (e & He & Hnb). rewrite (inv_mask _ _ _ _ _ _ _ _ _ I), Hnb.
  replace (2 ^ e - 1) with (Z.ones e) by (rewrite Z.ones_equiv; lia). rewrite !Z.land_ones by lia.
  assert (0 < 2 ^ e) by (apply Z.pow_pos_nonneg; lia).
  split; [by intros ->|]. apply Z2Nat.inj; by apply Z.mod_pos_bound.
Qed.

(** What the search of a chain says about the map. *)
Lemma not_found nb ne vs held its chains free t c m k :
  table_inv SC nb ne vs held its chains free t → stored nb m its → chains !! home nb k = Some c →
  (∀ q b, q ∈ home nb k :: c → buckets_ t !! q = Some b → k ∉ key_arr b) → m !! k = None.
Proof.
  intros I S Hc Hno. apply eq_None_not_Some. intros [v Hv].
  assert (Hin : (k, v) ∈ its (home nb k)) by by apply (stored_elem _ _ _ S).
  apply (inv_elem _ _ _ _ _ _ _ _ _ _ _ _ I Hc) in Hin as (q & b & Hq & Hb & Hs).
  apply slots_elem_inv in Hs as [Hs _]. by eapply Hno.
Qed.
Lemma found nb ne vs held its chains free t c m k q b i :
  table_inv SC nb ne vs held its chains free t → stored nb m its → chains !! home nb k = Some c →
  k ≠ invalid_key SC → q ∈ home nb k :: c → buckets_ t !! q = Some b → key_arr b !! i = Some k →
  ∃ v R, val_arr b !! i = Some v ∧ m !! k = Some v ∧ its (home nb k) ≡ₚ (k, v) :: R.
Proof.
  intros I S Hc Hk Hq Hb Hi. destruct (inv_slot_val _ _ _ _ _ _ _ _ _ _ _ _ _ I Hb Hi) as [v Hv].
  assert (Hin : (k, v) ∈ its (home nb k)) by by eapply inv_slot.
  pose proof Hin as [R HR]%elem_of_Permutation. apply (stored_elem _ _ _ S) in Hin as [Hm _]. eauto.
Qed.

Lemma wp_stat nb ne vs held its chains free t f Q :
  table_inv SC nb ne vs held its chains free t →
  (∀ t', table_inv SC nb ne vs held its chains free t' → buckets_ t' = buckets_ t → Q tt t') → wp (stat_add SC f) Q t.
Proof.
  intros I HQ. unfold stat_add. destruct (kCollectStats SC); wstep; (apply HQ; [|done]); [by apply inv_stats|done].
Qed.
Lemma wp_read_version_begin nb ne vs its chains free t p b Q :
  table_inv SC nb ne vs None its chains free t → buckets_ t !! p = Some b →
  Q (if locking SC t then version b else 0) t → wp (read_version_begin SC p) Q t.
Proof.
  intros I Hb HQ. destruct (inv_bucket _ _ _ _ _ _ _ _ _ I p b Hb) as [_ [_ Hodd]].
  unfold read_version_begin, locking in *. destruct (kConcurrent SC); [|by wstep]. do 2 wstep.
  destruct (negb _); cbn [andb] in *; [|by wstep]. wstep. eapply wp_deref; [done|].
  rewrite land_1_odd, Hodd, bool_decide_eq_false_2 by done. done.
Qed.
Lemma wp_read_version_end t p b Q :
  buckets_ t !! p = Some b → Q (if locking SC t then version b else 0) t → wp (read_version_end SC p) Q t.
Proof.
  intros Hb HQ. unfold read_version_end, locking in *. destruct (kConcurrent SC); [|by wstep]. do 2 wstep.
  destruct (negb _); cbn [andb] in *; [|by wstep]. wstep. eapply wp_deref; [done|]. by wstep.
Qed.

(** ** The operations *)
Definition get_result m k : Result * option value_t :=
  match m !! k with Some v => (kSuccess, Some v) | None => (kNotFound, None) end.

Lemma get_spec t m k :
  represents t m → k ≠ invalid_key SC →
  wp (ft_get SC (hash k) k) (λ r t', r = get_result m k ∧ represents t' m ∧ val_size t' = val_size t) t.
Proof.
  intros (nb & ne & its & chains & free & I & S) Hk.
  assert (Hend : ∀ t', table_inv SC nb ne (val_size t) None its chains free t' →
    represents t' m ∧ val_size t' = val_size t).
  { intros t' I'. pose proof (inv_vals _ _ _ _ _ _ _ _ _ I') as E. split; [|done].
    exists nb, ne, its, chains, free. by rewrite E. }
  unfold ft_get. do 3 wstep. eapply wp_get_home; [done|]. intros c b Hc Hb. cbn [get_loop].
  wstep. eapply wp_read_version_begin; [done..|]. wstep. eapply wq_mono; [by eapply wp_find_item_index|].
  unfold get_result. intros [[q i]|] t' [-> Hr].
  - destruct Hr as (Hq & b' & Hb' & Hi).
    destruct (found _ _ _ _ _ _ _ _ _ _ _ _ _ _ I S Hc Hk Hq Hb' Hi) as (v & R & Hv & Hm & _). rewrite Hm.
    wstep. eapply wp_deref; [done|]. wstep.
    eapply wp_lift; [apply arr_get_Ok; rewrite Nat2Z.id; split; [lia|exact Hv]|].
    wstep. eapply wp_read_version_end; [done|]. rewrite Z.eqb_refl. cbn [negb]. wstep.
    eapply wp_stat; [done|]. intros t' I' _. wstep. split; [done|]. by apply Hend.
  - rewrite (not_found _ _ _ _ _ _ _ _ _ _ _ I S Hc Hr).
    wstep. eapply wp_read_version_end; [done|]. rewrite Z.eqb_refl. cbn [negb]. wstep.
    eapply wp_stat; [done|]. intros t' I' _. wstep. split; [done|]. by apply Hend.
Qed.

(** The keys of a map that share the bucket of [k]. *)
Definition neighbours t m k : gmap ft_key_t value_t :=
  filter (λ e, calc_bucket_index (hash e.1) t = calc_bucket_index (hash k) t) m.
Lemma neighbours_size nb ne vs held its chains free t m k :
  table_inv SC nb ne vs held its chains free t → stored nb m its → size (neighbours t m k) = length (its (home nb k)).
Proof.
  intros I S. rewrite <- length_map_to_list. apply Permutation_length, NoDup_Permutation.
  - apply NoDup_map_to_list.
  - eapply NoDup_fmap_1, (stored_NoDup _ _ _ S).
  - intros [k' v']. rewrite elem_of_map_to_list. unfold neighbours. rewrite map_lookup_filter_Some, (stored_elem _ _ _ S).
    cbn. by rewrite (calc_home _ _ _ _ _ _ _ _ _ _ I).
Qed.

(** Storing an entry in a slot that is free or holds the same key. *)
Lemma wp_store nb ne t0 its chains free t c q b i k k0 v0 value R m Q :
  table_inv SC nb ne (val_size t0) (Some (home nb k)) its chains free t → chains !! home nb k = Some c →
  q ∈ home nb k :: c → buckets_ t !! q = Some b → key_arr b !! i = Some k0 → val_arr b !! i = Some v0 →
  its (home nb k) ≡ₚ cell SC k0 v0 ++ R → k ≠ invalid_key SC → (val_size t0 ≤ length value)%nat →
  stored nb m (<[home nb k := (k, take (val_size t0) value) :: R]> its) →
  (∀ t', represents t' m ∧ val_size t' = val_size t0 → Q kSuccess t') →
  wp (set_item q i k value ;; unlock_bucket SC (home nb k) ;; mret kSuccess) Q t.
Proof.
  intros I Hc Hq Hb Hi Hv HR Hk Hlen S HQ. unfold set_item. do 3 wstep. rewrite (inv_vals _ _ _ _ _ _ _ _ _ I).
  rewrite bool_decide_eq_true_2 by done. eapply wp_update; [done|].
  assert (I' := inv_write _ _ _ _ _ _ _ _ _ _ _ _ _ _ _ _ k (take (val_size t0) value) R I Hc Hq Hb Hi Hv HR).
  rewrite (cell_used SC _ _ Hk) in I'. cbn [app] in I'.
  destruct (inv_chain _ _ _ _ _ _ _ _ _ I' _ c Hc) as [[(b' & Hb' & _) _] _].
  wstep. eapply wp_unlock_bucket; [done..|]. intros t' I2. wstep. apply HQ.
  pose proof (inv_vals _ _ _ _ _ _ _ _ _ I2) as E. split; [|done]. eexists nb, ne, _, chains, free. rewrite E. by split.
Qed.

Lemma set_spec t m k value :
  represents t m → k ≠ invalid_key SC → (val_size t ≤ length value)%nat →
  wp (ft_set SC (hash k) k value) (λ r t', val_size t' = val_size t ∧
    (r = kSuccess ∧ represents t' (<[k := take (val_size t) value]> m) ∨
     r = kInsufficientSpaceIndex ∧ represents t' m ∧ m !! k = None ∧
       free_list_head t = 0 ∧ (kBucketCap SC ≤ size (neighbours t m k))%nat)) t.
Proof.
  intros (nb & ne & its & chains & free & I & S) Hk Hlen. unfold ft_set. rewrite bool_decide_eq_false_2 by done.
  do 3 wstep. eapply wp_get_home; [done|]. intros c b Hc Hb. wstep. eapply wp_lock_bucket; [done..|]. intros t1 I1.
  wstep. eapply wq_mono; [by eapply wp_find_item_index|]. intros [[q i]|] t' [-> Hr].
  - destruct Hr as (Hq & b1 & Hb1 & Hi).
    destruct (found _ _ _ _ _ _ _ _ _ _ _ _ _ _ I1 S Hc Hk Hq Hb1 Hi) as (v & R & Hv & Hm & HR).
    do 2 wstep. eapply (wp_store _ _ _ _ _ _ _ _ _ _ _ _ k v _ R); try done; [by rewrite cell_used|by eapply stored_replace|].
    intros t2 [Hrep E]. split; [done|]. left. by split.
  - pose proof (not_found _ _ _ _ _ _ _ _ _ _ _ I1 S Hc Hr) as Hm. wstep. wstep.
    eapply wq_mono; [by eapply wp_get_empty|]. intros [[q i]|] t2 Hr2; cbv beta in Hr2.
    + destruct Hr2 as (chains' & free' & c' & b2 & I2 & Hc2 & Hq & Hb2 & Hi). wstep. eapply wp_stat; [done|].
      intros t3 I3 E3. rewrite <- E3 in Hb2. destruct (inv_slot_val _ _ _ _ _ _ _ _ _ _ _ _ _ I3 Hb2 Hi) as [v0 Hv0].
      wstep. eapply (wp_store _ _ _ _ _ _ _ _ _ _ _ _ _ v0 _ (its (home nb k))); try done;
        [by rewrite cell_empty|by apply stored_new|].
      intros t4 [Hrep E]. split; [done|]. left. by split.
    + destruct Hr2 as (I2 & -> & Hfull). do 2 wstep.
      destruct (inv_chain _ _ _ _ _ _ _ _ _ I2 _ c Hc) as [[(b2 & Hb2 & _) _] _].
      eapply wp_unlock_bucket; [done..|]. intros t3 I3. wstep.
      pose proof (inv_vals _ _ _ _ _ _ _ _ _ I3) as E. split; [done|]. right. split_and!; try done.
      * eexists nb, ne, its, chains, []. by rewrite E.
      * by destruct (inv_free _ _ _ _ _ _ _ _ _ I) as [_ ->].
      * rewrite (neighbours_size _ _ _ _ _ _ _ _ _ _ I S).
        destruct (inv_chain _ _ _ _ _ _ _ _ _ I1 _ c Hc) as [[(b1 & Hb1 & _) _] Hit]. rewrite <- Hit.
        rewrite items_cons, Hb1. cbn [from_option]. rewrite length_app, slots_full; [lia| |].
        -- by apply (inv_bucket _ _ _ _ _ _ _ _ _ I1 (home nb k) b1).
        -- eapply Hfull; [|done]. left.
Qed.

Definition del_result m k : Result := match m !! k with Some _ => kSuccess | None => kNotFound end.

Lemma del_spec t m k :
  represents t m → k ≠ invalid_key SC →
  wp (ft_del SC (hash k) k) (λ r t', r = del_result m k ∧ represents t' (delete k m) ∧ val_size t' = val_size t) t.
Proof.
  intros (nb & ne & its & chains & free & I & S) Hk. unfold ft_del, del_result.
  do 3 wstep. eapply wp_get_home; [done|]. intros c b Hc Hb. wstep. eapply wp_lock_bucket; [done..|]. intros t1 I1.
  wstep. eapply wq_mono; [by eapply wp_find_item_index|]. intros [[q i]|] t' [-> Hr].
  - destruct Hr as (Hq & b1 & Hb1 & Hi).
    destruct (found _ _ _ _ _ _ _ _ _ _ _ _ _ _ I1 S Hc Hk Hq Hb1 Hi) as (v & R & Hv & Hm & HR). rewrite Hm.
    wstep. eapply wp_update; [done|]. rewrite (clear_slot_write SC b1 i v Hv).
    assert (HR' : its (home nb k) ≡ₚ cell SC k v ++ R) by by rewrite cell_used.
    assert (I2 := inv_write _ _ _ _ _ _ _ _ _ _ _ _ _ _ _ _ (invalid_key SC) v R I1 Hc Hq Hb1 Hi Hv HR').
    rewrite cell_empty in I2. cbn [app] in I2. wstep. eapply wp_stat; [done|]. intros t3 I3 E3.
    pose proof Hq as (pre & suf & Hsplit)%list_elem_of_split.
    wstep. unfold fill_hole. do 2 wstep. eapply wq_mono; [eapply wp_fill_hole_loop; [exact Hcap|exact I3|exact Hc|exact Hsplit| | |]|].
    + rewrite E3. cbn [buckets_ set_buckets]. apply list_lookup_insert_eq. by eapply lookup_lt_Some.
    + cbn. apply list_lookup_insert_eq. by eapply lookup_lt_Some.
    + rewrite (inv_array _ _ _ _ _ _ _ _ _ I3). pose proof (layout_length (inv_layout _ _ _ _ _ _ _ _ _ I3) _ c Hc) as Hl.
      rewrite Hsplit, length_app in Hl. cbn in Hl. lia.
    + intros [] t4 (chains' & free' & I4).
      assert (∃ c', chains' !! home nb k = Some c') as [c' Hc'].
      { apply lookup_lt_is_Some_2. rewrite (lay_chains _ _ _ _ (inv_layout _ _ _ _ _ _ _ _ _ I4)).
        by apply (layout_chain (inv_layout _ _ _ _ _ _ _ _ _ I3) _ c Hc). }
      destruct (inv_chain _ _ _ _ _ _ _ _ _ I4 _ c' Hc') as [[(b4 & Hb4 & _) _] _].
      wstep. eapply wp_unlock_bucket; [done..|]. intros t5 I5. wstep. eapply wp_stat; [done|]. intros t6 I6 _.
      wstep. pose proof (inv_vals _ _ _ _ _ _ _ _ _ I6) as E. split_and!; [done| |done].
      eexists nb, ne, _, chains', free'. rewrite E. split; [done|].
      by eapply stored_delete.
  - pose proof (not_found _ _ _ _ _ _ _ _ _ _ _ I1 S Hc Hr) as Hm. rewrite Hm.
    destruct (inv_chain _ _ _ _ _ _ _ _ _ I1 _ c Hc) as [[(b2 & Hb2 & _) _] _].
    wstep. eapply wp_unlock_bucket; [done..|]. intros t5 I5. wstep. eapply wp_stat; [done|]. intros t6 I6 _.
    wstep. pose proof (inv_vals _ _ _ _ _ _ _ _ _ I6) as E. split_and!; [done| |done].
    rewrite delete_id by done. eexists nb, ne, its, chains, free. by rewrite E.
Qed.
End represents.
