(* ===== verification/FixedTableTheorems.v ===== *)
(** * A new hash table, and sequences of operations on it

    The constructor yields a table that represents the empty map and has room in
    its primary buckets for the configured number of items; from there, every
    sequence of operations runs without a fault and has the results and effects of
    the same sequence on a finite map. *)

From S2P Require Import Prelude FixedTable FixedTableSpec FixedTableInv FixedTableMap.

(** ** The number of buckets *)
Lemma log_ceil_ge fuel log n : n ≤ 2 ^ Z.of_nat (log + fuel) → n ≤ 2 ^ Z.of_nat (log_ceil fuel log n).
Proof.
  revert log. induction fuel as [|fuel IH]; intros log Hn; cbn [log_ceil]; [by rewrite Nat.add_0_r in Hn|].
  rewrite Z.shiftl_1_l. case_match; [|lia]. apply IH. by rewrite <- Nat.add_succ_comm in Hn.
Qed.
Lemma log_ceil_le fuel log n e : n ≤ 2 ^ Z.of_nat e → (log ≤ e)%nat → (log_ceil fuel log n ≤ e)%nat.
Proof.
  revert log. induction fuel as [|fuel IH]; intros log Hn Hl; cbn [log_ceil]; [done|].
  rewrite Z.shiftl_1_l. case_match; bool_prop; [|done]. apply IH; [done|].
  assert (log ≠ e) by (intros ->; lia). lia.
Qed.

Lemma concat_nils {A} n : concat (replicate n (@nil A)) = [].
Proof. by induction n. Qed.

Section new.
Context (SC : StaticConfig) (Hcap : (0 < kBucketCap SC)%nat).
Implicit Types (t : FixedTable) (b : Bucket).

(** A table before its first [reset]: no primary bucket has a chain. *)
Record blank (nb ne : nat) t : Prop := {
  blank_size : num_buckets_ t = Z.of_nat nb;
  blank_power : ∃ e, 0 ≤ e ≤ 32 ∧ Z.of_nat nb = 2 ^ e;
  blank_mask : num_buckets_mask_ t = Z.of_nat nb - 1;
  blank_extra : num_extra_buckets_ t = Z.of_nat ne;
  blank_array : length (buckets_ t) = (nb + ne)%nat;
  blank_mode : 0 ≤ concurrent_access_mode_ t ≤ 2;
  blank_bucket q b : buckets_ t !! q = Some b →
    length (val_arr b) = kBucketCap SC ∧ 0 ≤ version b < 2 ^ 32 ∧ Z.odd (version b) = false;
  blank_chain q b : (q < nb)%nat → buckets_ t !! q = Some b → next_extra_bucket_index b = 0
}.

Lemma chained_free nb ne bs n :
  (n ≤ ne)%nat →
  (∀ q, (nb ≤ q < nb + ne)%nat → ∃ b, bs !! q = Some b ∧
     next_extra_bucket_index b = if bool_decide (q + 1 < nb + ne)%nat then Z.of_nat (q - nb + 2) else 0) →
  chained nb bs (seq (nb + (ne - n)) n) 0.
Proof.
  intros Hn Hlink. induction n as [|n IH]; [done|]. cbn [seq chained]. split.
  - destruct (Hlink (nb + (ne - S n))%nat) as (b & Hb & Hnext); [lia|]. exists b. split; [done|]. rewrite Hnext.
    destruct n; cbn [seq first_idx]; case_bool_decide; unfold idx; lia.
  - replace (S (nb + (ne - S n))) with (nb + (ne - n))%nat by lia. apply IH. lia.
Qed.

Lemma reset_bucket nb ne bs q b :
  let bs1 := (λ b, set_keys (replicate (kBucketCap SC) (invalid_key SC)) b) <$> bs in
  (if decide (ne = 0)%nat then bs1 else imap (link_free nb ne) bs1) !! q = Some b →
  ∃ b0, bs !! q = Some b0 ∧ version b = version b0 ∧ val_arr b = val_arr b0 ∧
    key_arr b = replicate (kBucketCap SC) (invalid_key SC) ∧
    next_extra_bucket_index b =
      if bool_decide (nb ≤ q ∧ ne ≠ 0)%nat then
        if bool_decide (q + 1 < nb + ne)%nat then Z.of_nat (q - nb + 2) else 0
      else next_extra_bucket_index b0.
Proof.
  cbn. destruct (decide (ne = 0%nat)) as [->|Hne].
  - rewrite list_lookup_fmap. intros (b0 & -> & ->)%fmap_Some. exists b0. by rewrite (bool_decide_eq_false_2 (_ ∧ _)) by lia.
  - rewrite list_lookup_imap, list_lookup_fmap. intros (b1 & (b0 & -> & ->)%fmap_Some & ->)%fmap_Some.
    exists b0. unfold link_free. split; [done|]. destruct (decide (nb ≤ q)%nat).
    + rewrite (bool_decide_eq_true_2 (nb ≤ q)%nat), (bool_decide_eq_true_2 (_ ∧ _)) by done. done.
    + rewrite (bool_decide_eq_false_2 (nb ≤ q)%nat), (bool_decide_eq_false_2 (_ ∧ _)) by lia. done.
Qed.
Lemma slots_blank b : key_arr b = replicate (kBucketCap SC) (invalid_key SC) → slots SC b = [].
Proof.
  intros Hk. destruct (slots SC b) as [|[k v] l] eqn:E; [done|]. exfalso.
  assert (Hin : (k, v) ∈ slots SC b) by (rewrite E; left). apply slots_elem_inv in Hin as [Hin Hne].
  rewrite Hk in Hin. by apply elem_of_replicate in Hin as [? _].
Qed.
Lemma items_blank bs c :
  (∀ q b, bs !! q = Some b → key_arr b = replicate (kBucketCap SC) (invalid_key SC)) → items SC bs c = [].
Proof.
  intros Hbs. induction c as [|q c IH]; [done|]. rewrite items_cons, IH, app_nil_r.
  destruct (bs !! q) as [b|] eqn:Hb; [|done]. by apply slots_blank, (Hbs q).
Qed.

Lemma reset_spec hash nb ne t :
  blank nb ne t →
  wp (reset SC) (λ _ t', represents SC hash t' ∅ ∧ val_size t' = val_size t ∧ num_buckets_ t' = num_buckets_ t) t.
Proof.
  intros B. unfold reset. do 6 wstep.
  set (bs1 := (λ b, set_keys (replicate (kBucketCap SC) (invalid_key SC)) b) <$> buckets_ t).
  set (bs' := if decide (ne = 0)%nat then bs1 else imap (link_free nb ne) bs1).
  set (head := if decide (ne = 0)%nat then 0 else 1).
  assert (Hinv : ∀ st, represents SC hash (set_stats st (set_free_head head (set_free_lock 0 (set_buckets bs' t)))) ∅).
  { intros st. exists nb, ne, (λ _, []), (replicate nb []), (seq nb ne).
    assert (Hlen : length bs' = (nb + ne)%nat).
    { rewrite <- (blank_array _ _ _ B). unfold bs', bs1. case_decide; by rewrite ?length_imap, length_fmap. }
    assert (Hkeys : ∀ q b, bs' !! q = Some b → key_arr b = replicate (kBucketCap SC) (invalid_key SC))
      by (intros q b Hb; by apply reset_bucket in Hb as (b0 & _ & _ & _ & ? & _)).
    split; [|split; [intros p; constructor|intros p k v; rewrite lookup_empty, elem_of_nil; naive_solver]].
    split; cbn -[chained items]; try apply B; try done.
    - intros q b Hb. apply reset_bucket in Hb as (b0 & Hb0 & Hver & Hval & Hkey & _).
      destruct (blank_bucket _ _ _ B q b0 Hb0) as (Hl & Hr & Ho). unfold bucket_ok, version_ok.
      rewrite Hkey, Hval, Hver, length_replicate, Ho. split_and!; try done; by apply Hr.
    - split; [by rewrite length_replicate|]. by rewrite concat_nils, app_nil_r.
    - intros p c (-> & Hp)%lookup_replicate. split; [|by rewrite items_blank].
      cbn. split; [|done]. destruct (lookup_lt_is_Some_2 bs' p) as [b Hb]; [lia|]. exists b. split; [done|].
      apply reset_bucket in Hb as (b0 & Hb0 & _ & _ & _ & ->).
      rewrite bool_decide_eq_false_2 by lia. by apply (blank_chain _ _ _ B p).
    - split.
      + replace nb with (nb + (ne - ne))%nat at 2 by lia. apply chained_free; [done|]. intros q Hq.
        destruct (lookup_lt_is_Some_2 bs' q) as [b Hb]; [lia|]. exists b. split; [done|].
        apply reset_bucket in Hb as (b0 & Hb0 & _ & _ & _ & ->). by rewrite bool_decide_eq_true_2 by lia.
      + unfold head. case_decide as Hz; destruct ne; cbn [seq first_idx]; unfold idx; lia.
    - by apply items_blank. }
  assert (Hstats : ∀ t1, (∃ st, t1 = set_stats st (set_free_head head (set_free_lock 0 (set_buckets bs' t)))) →
    wp (reset_stats SC true) (λ _ t', represents SC hash t' ∅ ∧ val_size t' = val_size t ∧ num_buckets_ t' = num_buckets_ t) t1).
  { intros t1 [st ->]. unfold reset_stats, stat_add. destruct (kCollectStats SC); wstep; (split; [|done]); [|done].
    exact (Hinv no_stats). }
  unfold bs', head in *. cbn [num_extra_buckets_ set_free_lock set_buckets].
  rewrite (blank_extra _ _ _ B). destruct (decide (ne = 0)%nat) as [->|Hne].
  - wstep. apply Hstats. by exists (stats_ t).
  - rewrite (proj2 (Z.eqb_neq _ _)) by lia. do 3 wstep. apply Hstats. exists (stats_ t). cbn.
    by rewrite (blank_size _ _ _ B), (blank_extra _ _ _ B), !Nat2Z.id.
Qed.

Lemma new_table_spec hash vsize n concurrent_read concurrent_write :
  0 < n ≤ 2 ^ 29 → Z.of_nat vsize mod 8 = 0 →
  ∃ t, new_table SC vsize n concurrent_read concurrent_write = Ok t ∧ represents SC hash t ∅ ∧
    val_size t = vsize ∧ n ≤ Z.of_nat (kBucketCap SC) * num_buckets_ t.
Proof.
  intros Hn Hv. unfold new_table. unfold u64.
  set (cap := Z.of_nat (kBucketCap SC)). assert (0 < cap) by (unfold cap; lia).
  rewrite (Z.mod_small (n * 11)) by lia. set (n' := n * 11 / 10).
  assert (Hn' : n ≤ n' ≤ 2 ^ 30).
  { split; [apply Z.div_le_lower_bound; lia|]. apply Z.div_le_upper_bound; lia. }
  set (nbk := (n' + cap - 1) / cap).
  assert (Hnbk : n' ≤ cap * nbk ∧ 1 ≤ nbk ≤ 2 ^ 30).
  { pose proof (Z.div_mod (n' + cap - 1) cap) as Hd. pose proof (Z.mod_pos_bound (n' + cap - 1) cap) as Hm. fold nbk in Hd.
    assert (Hle : nbk ≤ n') by (apply Z.div_le_upper_bound; nia). split; [lia|]. split; [nia|lia]. }
  rewrite (proj2 (Z.ltb_lt 0 nbk)) by lia. rewrite (proj2 (Z.eqb_eq _ 0) Hv). cbn [negb orb].
  set (log := log_ceil 64 0 nbk). rewrite Z.shiftl_1_l.
  assert (Hlog : (log ≤ 30)%nat) by (apply log_ceil_le; [apply Hnbk|lia]).
  assert (Hge : nbk ≤ 2 ^ Z.of_nat log) by (apply log_ceil_ge; etrans; [apply Hnbk|apply Z.pow_le_mono_r; lia]).
  assert (Hpow : 1 ≤ 2 ^ Z.of_nat log ≤ 2 ^ 30) by (split; [etrans; [apply Hnbk|done]|apply Z.pow_le_mono_r; lia]).
  set (nb := 2 ^ Z.of_nat log) in *. assert (Hne : 0 ≤ nbk / 10 ≤ 2 ^ 30) by (split; [apply Z.div_pos|apply Z.div_le_upper_bound]; lia). set (ne := nbk / 10) in *.
  rewrite (proj2 (Z.ltb_lt nb _)), (proj2 (Z.ltb_lt ne _)) by lia. cbn [negb orb].
  match goal with |- context [reset SC ?t0] => set (t := t0) end.
  assert (B : blank (Z.to_nat nb) (Z.to_nat ne) t).
  { split; cbn; try lia.
    - exists (Z.of_nat log). unfold nb. lia.
    - rewrite length_replicate. lia.
    - by destruct concurrent_read, concurrent_write.
    - intros q b [-> _]%lookup_replicate. cbn. rewrite length_replicate. split; [done|]. lia.
    - intros q b _ [-> _]%lookup_replicate. done. }
  pose proof (reset_spec hash _ _ t B) as Hreset. unfold wq in Hreset.
  destruct (reset SC t) as [[[] t']|]; [|done]. exists t'. destruct Hreset as (Hrep & Hvs & Hnb).
  split_and!; try done. rewrite Hnb. cbn. nia.
Qed.
End new.

(** ** Sequences of operations *)
Inductive table_op : Type :=
| TGet (k : ft_key_t)
| TSet (k : ft_key_t) (value : value_t)
| TDel (k : ft_key_t).

Section runs.
Context (SC : StaticConfig) (hash : ft_key_t → Z).
Implicit Types (t : FixedTable) (m : gmap ft_key_t value_t) (o : table_op).

(** The result, and the value copied out by [get]. *)
Definition run_table_op o : M FixedTable (Result * option value_t) :=
  match o with
  | TGet k => ft_get SC (hash k) k
  | TSet k value => r ← ft_set SC (hash k) k value; mret (r, None)
  | TDel k => r ← ft_del SC (hash k) k; mret (r, None)
  end.
Fixpoint run_table_ops (os : list table_op) : M FixedTable (list (Result * option value_t)) :=
  match os with
  | [] => mret []
  | o :: os => r ← run_table_op o; rs ← run_table_ops os; mret (r :: rs)
  end.

(** The invalid key is the caller's to avoid in [get] and [del], and a value has
    at least [vs] bytes. *)
Definition op_ok (vs : nat) o : Prop :=
  match o with
  | TGet k | TDel k => k ≠ invalid_key SC
  | TSet _ value => (vs ≤ length value)%nat
  end.

(** The same operations on a finite map.  A new key may be refused, for lack of
    space, only when a bucket's worth of keys is stored. *)
Inductive map_step (vs : nat) m : table_op → Result * option value_t → gmap ft_key_t value_t → Prop :=
| map_get k : map_step vs m (TGet k) (get_result m k) m
| map_set k value : k ≠ invalid_key SC → map_step vs m (TSet k value) (kSuccess, None) (<[k := take vs value]> m)
| map_set_rejected value : map_step vs m (TSet (invalid_key SC) value) (kRejected, None) m
| map_set_full k value : k ≠ invalid_key SC → m !! k = None → (kBucketCap SC ≤ size m)%nat →
    map_step vs m (TSet k value) (kInsufficientSpaceIndex, None) m
| map_del k : map_step vs m (TDel k) (del_result m k, None) (delete k m).
Inductive map_run (vs : nat) m : list table_op → list (Result * option value_t) → gmap ft_key_t value_t → Prop :=
| map_run_nil : map_run vs m [] [] m
| map_run_cons o os r rs m1 m2 : map_step vs m o r m1 → map_run vs m1 os rs m2 → map_run vs m (o :: os) (r :: rs) m2.

Lemma run_table_op_spec t m o :
  (0 < kBucketCap SC)%nat → represents SC hash t m → op_ok (val_size t) o →
  wp (run_table_op o) (λ r t', ∃ m', map_step (val_size t) m o r m' ∧ represents SC hash t' m' ∧ val_size t' = val_size t) t.
Proof.
  intros Hcap Hrep Hok. destruct o as [k|k value|k]; cbn [run_table_op op_ok] in *.
  - eapply wq_mono; [by apply get_spec|]. intros r t' (-> & ? & ?). exists m. split; [constructor|done].
  - destruct (decide (k = invalid_key SC)) as [->|Hk].
    + unfold ft_set. rewrite bool_decide_eq_true_2 by done. do 2 wstep. wstep. exists m. split; [constructor|done].
    + wstep. eapply wq_mono; [by apply set_spec|].
      intros r t' [Hv [[-> Hr]|(-> & Hr & Hm & _ & Hsize)]]; wstep; (eexists; split; [|done]); [by constructor|].
      constructor; try done. etrans; [exact Hsize|]. apply map_subseteq_size, map_filter_subseteq.
  - wstep. eapply wq_mono; [by apply del_spec|]. intros r t' (-> & ? & ?). wstep. eexists. split; [constructor|done].
Qed.

Lemma run_table_ops_spec os t m :
  (0 < kBucketCap SC)%nat → represents SC hash t m → Forall (op_ok (val_size t)) os →
  wp (run_table_ops os) (λ rs t', ∃ m', map_run (val_size t) m os rs m' ∧ represents SC hash t' m') t.
Proof.
  intros Hcap. revert t m. induction os as [|o os IH]; intros t m Hrep Hok; cbn [run_table_ops].
  - wstep. exists m. by split; [constructor|].
  - apply Forall_cons in Hok as [Ho Hos]. wstep. eapply wq_mono; [by apply run_table_op_spec|].
    intros r t1 (m1 & Hstep & Hrep1 & Hv). wstep. rewrite <- Hv in Hos.
    eapply wq_mono; [by apply IH|]. intros rs t2 (m2 & Hrun & Hrep2). rewrite Hv in Hrun. wstep.
    exists m2. split; [by econstructor|done].
Qed.
End runs.

(** * Theorems about the hash table, and where it departs from its contract

    The refinement of a finite map, the outcomes of [set] and [del], and three
    behaviours on concrete tables: [reset] keeps the chains of the primary
    buckets, [get] takes the invalid key, the item count only goes down. *)

(** A small table: one slot per bucket, one-word keys, every feature on. *)
Definition tiny : StaticConfig := mk_config 1 true true 8.
Definition tiny_hash (k : ft_key_t) : Z := match k with x :: _ => x / 16 | [] => 0 end.
Definition tiny_key (x : Z) : ft_key_t := [x].
Definition tiny_value (x : Z) : value_t := replicate 8 x.
Definition no_table : FixedTable := mk_table 0 [] 0 0 0 0 0 0 no_stats.
Definition tiny_table : FixedTable := match new_table tiny 8 10 true true with Ok t => t | Fault _ => no_table end.
(** The table after an operation, and the operation's result. *)
Definition table_after {A} (f : M FixedTable A) (t : FixedTable) : FixedTable :=
  match f t with Ok (_, t) => t | Fault _ => no_table end.
Definition table_result {A} (f : M FixedTable A) (t : FixedTable) : option A :=
  match f t with Ok (a, _) => Some a | Fault _ => None end.
Definition set_tiny (x y : Z) : M FixedTable Result := ft_set tiny (tiny_hash (tiny_key x)) (tiny_key x) (tiny_value y).
Definition get_tiny (x : Z) : M FixedTable (Result * option value_t) := ft_get tiny (tiny_hash (tiny_key x)) (tiny_key x).

Lemma tiny_cap : (0 < kBucketCap tiny)%nat.
Proof. cbn. lia. Qed.
Lemma tiny_table_empty : represents tiny tiny_hash tiny_table ∅ ∧ val_size tiny_table = 8%nat.
Proof.
  destruct (new_table_spec tiny tiny_cap tiny_hash 8 10 true true) as (t & Hnew & Hrep & Hvs & _); [lia|done|].
  unfold tiny_table. by rewrite Hnew.
Qed.
Lemma tiny_table_one :
  represents tiny tiny_hash (table_after (set_tiny 1 7) tiny_table) {[tiny_key 1 := tiny_value 7]}.
Proof.
  destruct tiny_table_empty as [Hrep Hvs].
  pose proof (set_spec tiny tiny_cap tiny_hash tiny_table ∅ (tiny_key 1) (tiny_value 7) Hrep) as Hset.
  apply wp_iff in Hset as (r & t' & Hrun & _ & Hset); [|done|by rewrite Hvs].
  assert (Hr : table_result (set_tiny 1 7) tiny_table = Some kSuccess) by (vm_compute; reflexivity).
  unfold table_result, table_after, set_tiny in *. rewrite Hrun in *. injection Hr as ->.
  destruct Hset as [[_ Hset]|[? _]]; [|done]. by rewrite Hvs in Hset.
Qed.

(** C31: from a new table (for 1 to 2^29 items, with a value size that is a multiple of 8), every sequence, in one thread,
    of set with any key and a value of at least the value size, and of get and del with any key but the
    invalid key (which they do not check, and which marks the unused slots), runs without a
    failed assertion, an out-of-range access or a loop that does not end, and gives
    the results and leaves the contents of the same sequence on a finite map; a
    set is refused only for the invalid key, or for a new key when at least a
    bucket's worth of keys is stored. *)
Theorem table_refines_map SC hash vsize item_count concurrent_read concurrent_write os :
  (0 < kBucketCap SC)%nat → 0 < item_count ≤ 2 ^ 29 → Z.of_nat vsize mod 8 = 0 → Forall (op_ok SC vsize) os →
  ∃ t, new_table SC vsize item_count concurrent_read concurrent_write = Ok t ∧
  ∃ rs t' m, run_table_ops SC hash os t = Ok (rs, t') ∧ map_run SC vsize ∅ os rs m ∧ represents SC hash t' m.
Proof.
  intros Hcap Hn Hv Hos.
  destruct (new_table_spec SC Hcap hash vsize item_count concurrent_read concurrent_write Hn Hv) as (t & Hnew & Hrep & Hvs & _).
  exists t. split; [done|]. rewrite <- Hvs in Hos.
  pose proof (run_table_ops_spec SC hash os t ∅ Hcap Hrep Hos) as Hrun.
  apply wp_iff in Hrun as (rs & t' & Hrun & m & Hmap & Hrep'). rewrite Hvs in Hmap. by exists rs, t', m.
Qed.
Lemma table_refines_map_witness :
  ∃ t, new_table tiny 8 10 true true = Ok t ∧
  ∃ rs t' m,
    run_table_ops tiny tiny_hash [TSet (tiny_key 1) (tiny_value 7); TSet (tiny_key 2) (tiny_value 8);
                                  TDel (tiny_key 1); TGet (tiny_key 2)] t = Ok (rs, t') ∧
    map_run tiny 8 ∅ [TSet (tiny_key 1) (tiny_value 7); TSet (tiny_key 2) (tiny_value 8);
                      TDel (tiny_key 1); TGet (tiny_key 2)] rs m ∧
    represents tiny tiny_hash t' m.
Proof.
  apply (table_refines_map tiny tiny_hash 8 10 true true
    [TSet (tiny_key 1) (tiny_value 7); TSet (tiny_key 2) (tiny_value 8); TDel (tiny_key 1); TGet (tiny_key 2)]).
  - cbn. lia.
  - lia.
  - reflexivity.
  - repeat constructor; discriminate.
Defined.

(** The constructor returns a table that stores nothing and whose primary
    buckets have a slot for each of the configured items. *)
Theorem new_table_empty SC hash vsize item_count concurrent_read concurrent_write :
  (0 < kBucketCap SC)%nat → 0 < item_count ≤ 2 ^ 29 → Z.of_nat vsize mod 8 = 0 →
  ∃ t, new_table SC vsize item_count concurrent_read concurrent_write = Ok t ∧ represents SC hash t ∅ ∧
    val_size t = vsize ∧ item_count ≤ Z.of_nat (kBucketCap SC) * num_buckets_ t.
Proof. intros Hcap. by apply new_table_spec. Qed.
Lemma new_table_empty_witness :
  ∃ t, new_table tiny 8 10 true true = Ok t ∧ represents tiny tiny_hash t ∅ ∧
    val_size t = 8%nat ∧ 10 ≤ Z.of_nat (kBucketCap tiny) * num_buckets_ t.
Proof. apply (new_table_empty tiny tiny_hash 8 10 true true); [cbn; lia|lia|reflexivity]. Defined.

(** C32: set, of a value of at least the value size, on a table that stores a map returns; it rejects the invalid key and leaves the
    table; for any other key it either stores the value
    under the key and leaves every other key, or, only when the key is new, the
    free list is empty and at least a bucket's worth of stored keys share its
    bucket, refuses and leaves the map. *)
Theorem set_outcome SC hash t m k value :
  (0 < kBucketCap SC)%nat → represents SC hash t m → (val_size t ≤ length value)%nat →
  ∃ r t', ft_set SC (hash k) k value t = Ok (r, t') ∧
    if decide (k = invalid_key SC) then r = kRejected ∧ t' = t else
    (r = kSuccess ∧ represents SC hash t' (<[k := take (val_size t) value]> m) ∨
     r = kInsufficientSpaceIndex ∧ represents SC hash t' m ∧ m !! k = None ∧
       free_list_head t = 0 ∧ (kBucketCap SC ≤ size (neighbours hash t m k))%nat).
Proof.
  intros Hcap Hrep Hlen. destruct (decide (k = invalid_key SC)) as [->|Hk].
  - exists kRejected, t. split; [|done]. unfold ft_set. by rewrite bool_decide_eq_true_2 by done.
  - pose proof (set_spec SC Hcap hash t m k value Hrep Hk Hlen) as Hset.
    apply wp_iff in Hset as (r & t' & Hrun & _ & Hset). by exists r, t'.
Qed.
Lemma set_outcome_witness :
  ∃ r t', ft_set tiny (tiny_hash (tiny_key 2)) (tiny_key 2) (tiny_value 8) (table_after (set_tiny 1 7) tiny_table) = Ok (r, t') ∧
    (r = kSuccess ∧ represents tiny tiny_hash t' (<[tiny_key 2 := take (val_size (table_after (set_tiny 1 7) tiny_table)) (tiny_value 8)]>
       {[tiny_key 1 := tiny_value 7]}) ∨
     r = kInsufficientSpaceIndex ∧ represents tiny tiny_hash t' {[tiny_key 1 := tiny_value 7]} ∧
       ({[tiny_key 1 := tiny_value 7]} : gmap ft_key_t value_t) !! tiny_key 2 = None ∧
       free_list_head (table_after (set_tiny 1 7) tiny_table) = 0 ∧
       (kBucketCap tiny ≤ size (neighbours tiny_hash (table_after (set_tiny 1 7) tiny_table) {[tiny_key 1 := tiny_value 7]} (tiny_key 2)))%nat).
Proof.
  apply (set_outcome tiny tiny_hash (table_after (set_tiny 1 7) tiny_table) {[tiny_key 1 := tiny_value 7]} (tiny_key 2) (tiny_value 8)).
  - exact tiny_cap.
  - exact tiny_table_one.
  - apply Nat.leb_le. vm_compute. reflexivity.
Defined.

(** C33: get and del of any key but the invalid key on a table that stores a map return what the map has under
    the key; get leaves the map and del removes the key from it, and only it.  (The invalid key is the
    caller's to avoid: neither checks it.) *)
Theorem get_del_outcome SC hash t m k :
  (0 < kBucketCap SC)%nat → represents SC hash t m → k ≠ invalid_key SC →
  (∃ t', ft_get SC (hash k) k t = Ok (get_result m k, t') ∧ represents SC hash t' m) ∧
  (∃ t', ft_del SC (hash k) k t = Ok (del_result m k, t') ∧ represents SC hash t' (delete k m)).
Proof.
  intros Hcap Hrep Hk. split.
  - pose proof (get_spec SC Hcap hash t m k Hrep Hk) as (r & t' & Hrun & -> & Hrep' & _)%wp_iff. eauto.
  - pose proof (del_spec SC Hcap hash t m k Hrep Hk) as (r & t' & Hrun & -> & Hrep' & _)%wp_iff. eauto.
Qed.

Lemma get_del_outcome_witness :
  (∃ t', ft_get tiny (tiny_hash (tiny_key 1)) (tiny_key 1) (table_after (set_tiny 1 7) tiny_table) =
     Ok (get_result {[tiny_key 1 := tiny_value 7]} (tiny_key 1), t') ∧
     represents tiny tiny_hash t' {[tiny_key 1 := tiny_value 7]}) ∧
  (∃ t', ft_del tiny (tiny_hash (tiny_key 1)) (tiny_key 1) (table_after (set_tiny 1 7) tiny_table) =
     Ok (del_result {[tiny_key 1 := tiny_value 7]} (tiny_key 1), t') ∧
     represents tiny tiny_hash t' (delete (tiny_key 1) {[tiny_key 1 := tiny_value 7]})).
Proof.
  apply (get_del_outcome tiny tiny_hash (table_after (set_tiny 1 7) tiny_table) {[tiny_key 1 := tiny_value 7]} (tiny_key 1)).
  - exact tiny_cap.
  - exact tiny_table_one.
  - discriminate.
Defined.

(** ** Departures *)

(** Keys 1 and 2 share bucket 0, keys 17 and 18 bucket 1; the table has one extra
    bucket.  After [reset], bucket 0 still links to the extra bucket, which is also
    the head of the free list. *)
Definition reset_run : M FixedTable (list Result) :=
  _ ← set_tiny 1 7; _ ← set_tiny 2 8; reset tiny ;;
  r1 ← set_tiny 1 7; r2 ← set_tiny 2 8; r3 ← set_tiny 17 9; r4 ← set_tiny 18 10;
  g ← get_tiny 2;
  mret [r1; r2; r3; r4; g.1].

(** [reset] empties the slots and rebuilds the free list but keeps the links of
    the primary buckets, so that a bucket with a chain shares an extra bucket with
    the free list: after it, [set] of four keys succeeds four times and one of the
    keys is gone, overwritten through the other owner of the extra bucket. *)
Theorem reset_keeps_chains :
  table_result reset_run tiny_table = Some [kSuccess; kSuccess; kSuccess; kSuccess; kNotFound].
Proof. vm_compute. reflexivity. Qed.

(** [get] of the invalid key on an empty table succeeds: the key matches the
    marker of an unused slot, and the slot's bytes are copied out. *)
Theorem get_invalid_key_succeeds :
  table_result (ft_get tiny 0 (invalid_key tiny)) tiny_table = Some (kSuccess, Some (replicate 8 0)).
Proof. vm_compute. reflexivity. Qed.

(** The item count of the statistics is decremented by [del] and never
    incremented: after storing a key and deleting it, it is [2^64 - 1]. *)
Theorem count_wraps_below_zero :
  st_count (stats_ (table_after (ft_del tiny 0 (tiny_key 1)) (table_after (set_tiny 1 7) tiny_table))) = 2 ^ 64 - 1.
Proof. vm_compute. reflexivity. Qed.
