(* ===== verification/HugeAlloc.v ===== *)
(** * The huge-page allocator ([src/util/huge_alloc.h], [huge_alloc.cc], [buffer.h])

    Lists of free buffers per size class.  A class is filled by halving a buffer of the
    next one, the largest by reserving shared memory from the operating system, whose
    answers are an argument. *)

From S2P Require Import Prelude.

Definition MB (x : Z) : Z := x * 2 ^ 20.
Definition kHugepageSize : Z := 2 * 1024 * 1024.
Definition size_t (z : Z) : Z := z mod 2 ^ 64.
Definition SIZE_MAX : Z := 2 ^ 64 - 1.
Definition UINT32_MAX : Z := 2 ^ 32 - 1.

Record Buffer : Type := mk_Buffer { buf_ : Z; class_size_ : Z; lkey_ : Z }.
Definition Buffer_eta (b : Buffer) : Buffer := mk_Buffer (buf_ b) (class_size_ b) (lkey_ b).
Definition set_class_size : Z → Buffer → Buffer := ltac:(field_update Buffer_eta class_size_).
Definition null_buffer : Buffer := mk_Buffer 0 0 0.

Record shm_region_t : Type := mk_region { shm_key_ : Z; rg_buf : Z; rg_size : Z; registered_ : bool; rg_lkey : Z }.

Definition k_min_class_size : Z := 64.
Definition k_min_class_bit_shift : Z := 6.
Definition k_max_class_size : Z := MB 16.
Definition k_num_classes : nat := 18.
Definition class_max_size (class_i : nat) : Z := k_min_class_size * Z.shiftl 1 (Z.of_nat class_i).

Record HugeAlloc : Type := mk_HugeAlloc {
  shm_list_ : list shm_region_t;
  freelist_ : list (list Buffer);
  prev_allocation_size_ : Z;
  shm_reserved_ : Z;
  user_alloc_tot_ : Z
}.
Definition HugeAlloc_eta (h : HugeAlloc) : HugeAlloc :=
  mk_HugeAlloc (shm_list_ h) (freelist_ h) (prev_allocation_size_ h) (shm_reserved_ h) (user_alloc_tot_ h).
Definition set_shm_list : list shm_region_t → HugeAlloc → HugeAlloc := ltac:(field_update HugeAlloc_eta shm_list_).
Definition set_freelist : list (list Buffer) → HugeAlloc → HugeAlloc := ltac:(field_update HugeAlloc_eta freelist_).
Definition set_prev : Z → HugeAlloc → HugeAlloc := ltac:(field_update HugeAlloc_eta prev_allocation_size_).
Definition set_reserved : Z → HugeAlloc → HugeAlloc := ltac:(field_update HugeAlloc_eta shm_reserved_).
Definition set_user_tot : Z → HugeAlloc → HugeAlloc := ltac:(field_update HugeAlloc_eta user_alloc_tot_).

Definition new_HugeAlloc (initial_size : Z) : HugeAlloc :=
  mk_HugeAlloc [] (replicate k_num_classes []) (if initial_size <? k_max_class_size then k_max_class_size else initial_size) 0 0.

(** What [shmget] answers: an error code, or memory with whether [mbind] accepts it. *)
Inductive shm_answer : Type := EEXIST | EACCES | EINVAL | ENOMEM | EOther | Shm (key buf : Z) (mbind_ok : bool).

(** [round_up] to a power of two, on [size_t]. *)
Definition round_up (p x : Z) : Z := Z.ldiff (size_t (x + (p - 1))) (p - 1).

Section huge_alloc.
(** [bsr0] is what the instruction [bsrl] leaves in its destination for 0, and
    [reg_mr_func] registers memory with the network card. *)
Context (asserts : bool) (bsr0 : Z) (reg_mr_func : Z → Z → Z).
Abbreviation MA := (M HugeAlloc).

Definition assert_n (b : bool) : MA unit := if asserts then assert_ b else mret tt.

(** Shifting a negative number, or past [INT_MAX], is undefined. *)
Definition msb_index (x : Z) : MA Z :=
  assert_n (x <? INT_MAX / 2) ;;
  if (x <? 0) || (INT_MAX <? 2 * x) then throw UndefinedBehaviour
  else mret (if 2 * x =? 0 then bsr0 else Z.log2 (2 * x)).
Definition get_class (size : Z) : MA Z :=
  assert_n ((1 <=? size) && (size <=? k_max_class_size)) ;;
  msb_index (to_int (Z.shiftr (size_t (size - 1)) k_min_class_bit_shift)).
(** The reference for [get_class]; the loop ends within the width of [size_t]. *)
Fixpoint get_class_loop (fuel : nat) (size size_class class_lim : Z) : outcome Z :=
  match fuel with
  | O => Fault OutOfFuel
  | S fuel => if class_lim <? size then get_class_loop fuel size (size_class + 1) (size_t (class_lim * 2)) else Ok size_class
  end.
Definition get_class_slow (size : Z) : MA Z :=
  assert_n ((1 <=? size) && (size <=? k_max_class_size)) ;;
  lift (get_class_loop 64 size 0 k_min_class_size).

(** ** The lists, vectors with their back at the end *)
Definition free_of (c : Z) : MA (list Buffer) := h ← get; lift (arr_get (freelist_ h) c).
Definition put_free (c : Z) (l : list Buffer) : MA unit :=
  h ← get; fl ← lift (arr_set (freelist_ h) c l); modify (set_freelist fl).
Definition free_push (c : Z) (b : Buffer) : MA unit := l ← free_of c; put_free c (l ++ [b]).
Definition free_pop (c : Z) : MA Buffer :=
  l ← free_of c;
  match last l with None => throw UndefinedBehaviour | Some b => put_free c (take (pred (length l)) l) ;; mret b end.
Definition is_empty (c : Z) : MA bool := l ← free_of c; mret (bool_decide (l = [])).

Definition free_buf (buffer : Buffer) : MA unit :=
  assert_n (negb (buf_ buffer =? 0)) ;;
  size_class ← get_class (class_size_ buffer);
  assert_n (class_max_size (Z.to_nat size_class) =? class_size_ buffer) ;;
  free_push size_class buffer ;;
  modify (λ h, set_user_tot (size_t (user_alloc_tot_ h - class_size_ buffer)) h).

Definition split (size_class : Z) : MA unit :=
  assert_n (1 <=? size_class) ;;
  (if asserts then e ← is_empty size_class; assert_ (negb e) ;; e ← is_empty (size_class - 1); assert_ e else mret tt) ;;
  buffer ← free_pop size_class;
  assert_n (class_size_ buffer =? class_max_size (Z.to_nat size_class)) ;;
  let half := class_size_ buffer / 2 in
  free_push (size_class - 1) (mk_Buffer (buf_ buffer) half (lkey_ buffer)) ;;
  free_push (size_class - 1) (mk_Buffer (buf_ buffer + half) half (lkey_ buffer)).
(** The second assertion of the code is an assignment. *)
Definition alloc_from_class (size_class : Z) : MA Buffer :=
  assert_n (size_class <? Z.of_nat k_num_classes) ;;
  buffer ← free_pop size_class;
  let buffer := if asserts then set_class_size (class_max_size (Z.to_nat size_class)) buffer else buffer in
  modify (λ h, set_user_tot (size_t (user_alloc_tot_ h + class_size_ buffer)) h) ;;
  mret buffer.

(** ** Reserving memory

    The result is [None] when the code throws an exception. *)
Fixpoint shm_loop (os : list shm_answer) : outcome shm_answer :=
  match os with
  | [] => Fault OutOfFuel
  | EEXIST :: os => shm_loop os
  | a :: _ => Ok a
  end.
Definition alloc_raw (os : list shm_answer) (size : Z) (do_register : bool) : MA (option Buffer) :=
  let size := round_up kHugepageSize size in
  a ← lift (shm_loop os);
  match a with
  | Shm key buf mbind_ok =>
      if (buf =? 0) || negb mbind_ok then mret None
      else
        let lkey := if do_register then reg_mr_func buf size else UINT32_MAX in
        modify (λ h, set_shm_list (shm_list_ h ++ [mk_region key buf size do_register lkey]) h) ;;
        modify (λ h, set_reserved (size_t (shm_reserved_ h + size)) h) ;;
        mret (Some (mk_Buffer buf SIZE_MAX lkey))
  | ENOMEM => mret (Some null_buffer)
  | _ => mret None
  end.
Fixpoint add_buffers (n : nat) (buf lkey : Z) : MA unit :=
  match n with
  | O => mret tt
  | S n => free_push (Z.of_nat k_num_classes - 1) (mk_Buffer buf k_max_class_size lkey) ;; add_buffers n (buf + k_max_class_size) lkey
  end.
Definition reserve_hugepages (os : list shm_answer) (size : Z) : MA (option bool) :=
  assert_n (k_max_class_size <=? size) ;;
  b ← alloc_raw os size true;
  match b with
  | None => mret None
  | Some buffer =>
      if buf_ buffer =? 0 then mret (Some false)
      else
        let num_buffers := size / k_max_class_size in
        assert_n (1 <=? num_buffers) ;;
        add_buffers (Z.to_nat num_buffers) (buf_ buffer) (lkey_ buffer) ;;
        mret (Some true)
  end.

(** ** Allocation *)
Fixpoint first_nonempty (n : nat) (c : Z) : MA Z :=
  match n with
  | O => mret c
  | S n => e ← is_empty c; if e : bool then first_nonempty n (c + 1) else mret c
  end.
Fixpoint split_down (n : nat) (next_class : Z) : MA unit :=
  match n with
  | O => mret tt
  | S n => split next_class ;; split_down n (next_class - 1)
  end.
(** At [next_class]: split down to [size_class], and take a buffer there. *)
Definition alloc_by_splitting (next_class size_class : Z) : MA Buffer :=
  assert_n (next_class <? Z.of_nat k_num_classes) ;;
  split_down (Z.to_nat (next_class - size_class)) next_class ;;
  (if asserts then e ← is_empty size_class; assert_ (negb e) else mret tt) ;;
  alloc_from_class size_class.
Definition alloc (os : list shm_answer) (size : Z) : MA (option Buffer) :=
  assert_n (size <=? k_max_class_size) ;;
  size_class ← get_class size;
  assert_n (size_class <? Z.of_nat k_num_classes) ;;
  e ← is_empty size_class;
  if negb e then (b ← alloc_from_class size_class; mret (Some b))
  else
    next_class ← first_nonempty (Z.to_nat (Z.of_nat k_num_classes - (size_class + 1))) (size_class + 1);
    if next_class =? Z.of_nat k_num_classes then
      modify (λ h, set_prev (size_t (prev_allocation_size_ h * 2)) h) ;;
      size ← gets prev_allocation_size_;
      ok ← reserve_hugepages os size;
      match ok with
      | None => mret None
      | Some false => modify (λ h, set_prev (prev_allocation_size_ h / 2) h) ;; mret (Some null_buffer)
      | Some true => b ← alloc_by_splitting (Z.of_nat k_num_classes - 1) size_class; mret (Some b)
      end
    else b ← alloc_by_splitting next_class size_class; mret (Some b).
End huge_alloc.
