(* ===== verification/HugeAllocSpec.v ===== *)
(** * Blocks of memory and size classes

    Free and allocated buffers as one collection of blocks that do not overlap, up to
    order; the class of a size; and the lists of the allocator as that collection. *)

From S2P Require Import Prelude HugeAlloc.

(** ** Blocks *)
Definition disj (b b' : Buffer) : Prop := buf_ b + class_size_ b ≤ buf_ b' ∨ buf_ b' + class_size_ b' ≤ buf_ b.
Fixpoint apart (L : list Buffer) : Prop := match L with [] => True | b :: L => Forall (disj b) L ∧ apart L end.
Definition inside (rs : list shm_region_t) (b : Buffer) : Prop :=
  ∃ rg, rg ∈ rs ∧ rg_buf rg ≤ buf_ b ∧ buf_ b + class_size_ b ≤ rg_buf rg + rg_size rg.
Fixpoint sum {A} (f : A → Z) (L : list A) : Z := match L with [] => 0 | b :: L => f b + sum f L end.

Lemma disj_sym b b' : disj b b' → disj b' b.
Proof. unfold disj. lia. Qed.
Lemma sum_app {A} (f : A → Z) L L' : sum f (L ++ L') = sum f L + sum f L'.
Proof. induction L; cbn; lia. Qed.
#[global] Instance sum_perm {A} (f : A → Z) : Proper ((≡ₚ) ==> (=)) (sum f).
Proof. intros L L' H. induction H; cbn; lia. Qed.
#[global] Instance apart_perm : Proper ((≡ₚ) ==> iff) apart.
Proof.
  assert (H : ∀ L L', L ≡ₚ L' → apart L → apart L'); [|by split; apply H].
  intros L L' H. induction H as [|b L L' HP IH|b b' L|L1 L2 L3 _ IH1 _ IH2]; cbn; [done| | |by auto].
  - intros [H1 H2]. split; [by rewrite <- HP|by apply IH].
  - intros [[H1 H2]%Forall_cons [H3 H4]]. split_and!; try done. constructor; [by apply disj_sym|done].
Qed.
Lemma apart_app L L' : apart (L ++ L') ↔ apart L ∧ apart L' ∧ ∀ b b', b ∈ L → b' ∈ L' → disj b b'.
Proof.
  induction L as [|b L IH]; cbn.
  - split; [|by intros (_ & ? & _)]. intros H. split_and!; [done|done|]. intros ? ? []%elem_of_nil.
  - rewrite IH, Forall_app. split.
    + intros ([H1 H2] & H3 & H4 & H5). split_and!; try done. intros b1 b2 [->|Hb]%elem_of_cons Hb'; [by eapply Forall_forall in H2|by apply H5].
    + intros ([H1 H2] & H3 & H4). split_and!; try done.
      * apply Forall_forall. intros b' Hb'. apply H4; [by left|done].
      * intros b1 b2 Hb Hb'. apply H4; [by right|done].
Qed.

(** Blocks in the given regions that take up [total] bytes. *)
Record blocks (rs : list shm_region_t) (total : Z) (L : list Buffer) : Prop := {
  bl_apart : apart L;
  bl_inside : Forall (inside rs) L;
  bl_sum : sum class_size_ L = total
}.
#[global] Instance blocks_perm rs total : Proper ((≡ₚ) ==> iff) (blocks rs total).
Proof.
  assert (H : ∀ L L', L ≡ₚ L' → blocks rs total L → blocks rs total L'); [|by split; apply H].
  intros L L' H [H1 H2 H3]. split; by rewrite <- H.
Qed.
(** A block is its two halves. *)
Lemma blocks_split rs total b half key L :
  class_size_ b = 2 * half → 0 ≤ half → blocks rs total (b :: L) →
  blocks rs total (mk_Buffer (buf_ b) half key :: mk_Buffer (buf_ b + half) half key :: L).
Proof.
  intros Hs Hh [[H1 H2] [(rg & Hrg & H3 & H4) H5]%Forall_cons H6]. cbn in H6. split.
  - cbn. split_and!; [|by apply (Forall_impl _ _ _ H1); unfold disj; cbn; lia|done].
    constructor; [unfold disj; cbn; lia|]. apply (Forall_impl _ _ _ H1). unfold disj. cbn. lia.
  - constructor; [|constructor; [|done]]; exists rg; cbn; (split; [done|lia]).
  - cbn. lia.
Qed.

(** ** The class of a size *)
Definition class_of (c size : Z) : Prop := 0 ≤ c ∧ size ≤ 64 * 2 ^ c ∧ (0 < c → 64 * 2 ^ (c - 1) < size).
Lemma class_max_size_pow c : class_max_size c = 64 * 2 ^ Z.of_nat c.
Proof. unfold class_max_size, k_min_class_size. rewrite Z.shiftl_mul_pow2 by lia. lia. Qed.
Lemma class_of_unique c c' size : class_of c size → class_of c' size → c = c'.
Proof.
  assert (H : ∀ c c', class_of c size → class_of c' size → c ≤ c').
  { intros d d' (H1 & H2 & H3) (H4 & H5 & H6). destruct (Z.le_gt_cases d d'); [done|]. assert (2 ^ d' ≤ 2 ^ (d - 1)) by (apply Z.pow_le_mono_r; lia). lia. }
  intros H1 H2. apply Z.le_antisymm; by apply H.
Qed.
Lemma class_of_pow k : 0 ≤ k → class_of k (64 * 2 ^ k).
Proof. intros Hk. split_and!; [done|lia|]. intros ?. assert (2 ^ (k - 1) < 2 ^ k) by (apply Z.pow_lt_mono_r; lia). lia. Qed.
Lemma class_of_bound c size n : 0 ≤ n → class_of c size → size ≤ 64 * 2 ^ n → c ≤ n.
Proof.
  intros Hn (H1 & H2 & H3) Hs. destruct (Z.le_gt_cases c n); [done|]. assert (2 ^ n ≤ 2 ^ (c - 1)) by (apply Z.pow_le_mono_r; lia). lia.
Qed.
Lemma get_class_loop_ok fuel size k : 0 ≤ k → k + Z.of_nat fuel ≤ 57 → (0 < k → 64 * 2 ^ (k - 1) < size) → size ≤ 64 * 2 ^ (k + Z.of_nat fuel - 1) → (0 < fuel)%nat →
  ∃ c, get_class_loop fuel size k (64 * 2 ^ k) = Ok c ∧ class_of c size.
Proof.
  revert k. induction fuel as [|fuel IH]; intros k Hk Hf Hlow Hs Hpos; [lia|]. cbn [get_class_loop]. destruct (Z.ltb_spec (64 * 2 ^ k) size).
  - assert (2 ^ k ≤ 2 ^ 56) by (apply Z.pow_le_mono_r; lia). assert (0 < 2 ^ k) by (apply Z.pow_pos_nonneg; lia).
    replace (size_t (64 * 2 ^ k * 2)) with (64 * 2 ^ (k + 1)) by (unfold size_t; rewrite Z.pow_add_r, Z.mod_small by lia; lia).
    destruct (decide (fuel = 0%nat)) as [->|]; [replace (k + Z.of_nat 1 - 1) with k in Hs by lia; lia|].
    apply IH; try lia. + intros _. by replace (k + 1 - 1) with k by lia. + by replace (k + 1 + Z.of_nat fuel - 1) with (k + Z.of_nat (S fuel) - 1) by lia.
  - by exists k.
Qed.
Lemma get_class_loop_more n m size k lim c : get_class_loop n size k lim = Ok c → get_class_loop (n + m) size k lim = Ok c.
Proof. revert k lim. induction n as [|n IH]; intros k lim; cbn [get_class_loop Nat.add]; [done|]. destruct (lim <? size); [apply IH|done]. Qed.
(** The number of bits of [(size - 1) >> 6] is the class. *)
Lemma msb_class size : 1 ≤ size → class_of (if 2 * Z.shiftr (size - 1) 6 =? 0 then 0 else Z.log2 (2 * Z.shiftr (size - 1) 6)) size.
Proof.
  intros Hs. rewrite Z.shiftr_div_pow2 by lia. change (2 ^ 6) with 64. set (q := (size - 1) / 64).
  assert (Hq : 64 * q ≤ size - 1 < 64 * q + 64) by (unfold q; pose proof (Z.div_mod (size - 1) 64); pose proof (Z.mod_pos_bound (size - 1) 64); lia).
  destruct (Z.eqb_spec (2 * q) 0) as [E|E]; [unfold class_of; change (2 ^ 0) with 1; lia|].
  rewrite Z.log2_double by lia. destruct (Z.log2_spec q ltac:(lia)) as [H1 H2]. pose proof (Z.log2_nonneg q). unfold class_of. replace (Z.succ (Z.log2 q) - 1) with (Z.log2 q) by lia. lia.
Qed.

Section classes.
Context (asserts : bool).
Lemma wq_assert_n F b (Q : unit → HugeAlloc → Prop) h : (asserts = true → b = true) → Q tt h → wq F (assert_n asserts b) Q h.
Proof. unfold assert_n. destruct asserts; [|done]. intros H HQ. by rewrite H. Qed.
Lemma wp_get_class size Q h :
  1 ≤ size ≤ k_max_class_size → (∀ c, class_of c size → Q c h) → wp (get_class asserts 0 size) Q h.
Proof.
  intros Hs HQ. unfold k_max_class_size, MB in Hs. unfold get_class. wstep. apply wq_assert_n; [intros _; unfold k_max_class_size, MB; lia|].
  unfold size_t. rewrite Z.mod_small by lia. set (x := Z.shiftr (size - 1) k_min_class_bit_shift).
  assert (Hx : 0 ≤ x < 2 ^ 19). { unfold x, k_min_class_bit_shift. rewrite Z.shiftr_div_pow2 by lia. split; [apply Z.div_pos; lia|apply Z.div_lt_upper_bound; lia]. }
  rewrite to_int_small by (unfold INT_MIN, INT_MAX; lia). unfold msb_index. wstep. apply wq_assert_n; [intros _; change (INT_MAX / 2) with 1073741823; lia|].
  replace ((x <? 0) || (INT_MAX <? 2 * x)) with false by (unfold INT_MAX; lia). apply wq_ret, HQ. unfold x. apply msb_class. lia.
Qed.
Lemma wp_get_class_slow size Q h :
  1 ≤ size ≤ k_max_class_size → (∀ c, class_of c size → Q c h) → wp (get_class_slow asserts size) Q h.
Proof.
  intros Hs HQ. unfold k_max_class_size, MB in Hs. unfold get_class_slow. wstep. apply wq_assert_n; [intros _; unfold k_max_class_size, MB; lia|].
  destruct (get_class_loop_ok 30 size 0) as (c & Hc & Hco); [done|done|done|change (64 * 2 ^ (0 + Z.of_nat 30 - 1)) with (2 ^ 35); lia|lia|]. pose proof (get_class_loop_more 30 34 _ _ _ _ Hc : get_class_loop 64 size 0 k_min_class_size = Ok c) as E.
  rewrite E. apply wq_lift; [done|]. intros ? [= <-]. by apply HQ.
Qed.
End classes.

(** * The allocator's invariant, in a build without assertions

    A buffer of class [c] has the class's maximum size or twice as much: what comes from
    a reservation is [k_max_class_size] bytes, twice the maximum of the largest class.
    Free and allocated buffers together are the reserved memory. *)

Definition sized (c : nat) (b : Buffer) : Prop := class_size_ b = class_max_size c ∨ class_size_ b = 2 * class_max_size c.
Definition lists_ok (fl : list (list Buffer)) : Prop := length fl = k_num_classes ∧ ∀ c l, fl !! c = Some l → Forall (sized c) l.
Record heap_ok (h : HugeAlloc) (live : list Buffer) : Prop := {
  ho_lists : lists_ok (freelist_ h);
  ho_live : Forall (λ b, ∃ c, (c < k_num_classes)%nat ∧ sized c b) live;
  ho_blocks : blocks (shm_list_ h) (sum rg_size (shm_list_ h)) (concat (freelist_ h) ++ live);
  ho_regions : Forall (λ rg, 0 < rg_buf rg) (shm_list_ h);
  ho_user : user_alloc_tot_ h = size_t (sum class_size_ live);
  ho_reserved : shm_reserved_ h = size_t (sum rg_size (shm_list_ h))
}.
Definition prev_ok (p : Z) : Prop := k_max_class_size ≤ p ≤ 2 ^ 47 ∧ p mod MB 8 = 0.
Definition nonempty (h : HugeAlloc) (c : nat) : Prop := ∃ l b, freelist_ h !! c = Some (l ++ [b]).

(** ** One list among the lists *)
Lemma concat_lookup (fl : list (list Buffer)) c l : fl !! c = Some l →
  ∃ rest, concat fl ≡ₚ l ++ rest ∧ ∀ l', concat (<[c := l']> fl) ≡ₚ l' ++ rest.
Proof.
  intros Hl. exists (concat (take c fl) ++ concat (drop (S c) fl)). pose proof (lookup_lt_Some _ _ _ Hl). split.
  - rewrite <- (take_drop_middle fl c l Hl) at 1. rewrite concat_app. cbn. solve_Permutation.
  - intros l'. rewrite insert_take_drop by done. rewrite concat_app. cbn. solve_Permutation.
Qed.
Lemma lists_insert fl c l : lists_ok fl → Forall (sized c) l → lists_ok (<[c := l]> fl).
Proof.
  intros [H1 H2] Hl. split; [by rewrite length_insert|]. intros c' l' [(-> & <- & _)|[_ ?]]%list_lookup_insert_Some; [done|by apply H2].
Qed.
Lemma sized_pos c b : sized c b → 64 ≤ class_size_ b.
Proof. unfold sized. rewrite class_max_size_pow. assert (0 < 2 ^ Z.of_nat c) by (apply Z.pow_pos_nonneg; lia). lia. Qed.
Lemma sized_half c b key a : sized (S c) b → sized c (mk_Buffer a (class_size_ b / 2) key) ∧ class_size_ b = 2 * (class_size_ b / 2).
Proof.
  unfold sized. rewrite !class_max_size_pow, Nat2Z.inj_succ, Z.pow_succ_r by lia. cbn [class_size_]. set (x := 2 ^ Z.of_nat c).
  intros [->| ->]; [replace (64 * (2 * x)) with (64 * x * 2) by lia|replace (2 * (64 * (2 * x))) with (128 * x * 2) by lia]; rewrite Z.div_mul by lia; lia.
Qed.

Section rules.
Implicit Types (h : HugeAlloc) (live : list Buffer) (c : nat) (Q : unit → HugeAlloc → Prop).
Lemma wp_free_of c l (Q : list Buffer → HugeAlloc → Prop) h : freelist_ h !! c = Some l → Q l h → wp (free_of (Z.of_nat c)) Q h.
Proof. intros Hl HQ. unfold free_of. do 2 wstep. eapply wp_lift; [|exact HQ]. apply arr_get_Ok. rewrite Nat2Z.id. split; [lia|done]. Qed.
Lemma wp_put_free c l l0 Q h : freelist_ h !! c = Some l0 → Q tt (set_freelist (<[c := l]> (freelist_ h)) h) → wp (put_free (Z.of_nat c) l) Q h.
Proof.
  intros Hl HQ. apply lookup_lt_Some in Hl. unfold put_free. do 3 wstep. eapply wp_lift; [apply arr_set_in_range; lia|]. rewrite Nat2Z.id. by wstep.
Qed.
Lemma wp_free_push c l b Q h : freelist_ h !! c = Some l → Q tt (set_freelist (<[c := l ++ [b]]> (freelist_ h)) h) → wp (free_push (Z.of_nat c) b) Q h.
Proof. intros Hl HQ. unfold free_push. wstep. eapply wp_free_of; [done|]. by eapply wp_put_free. Qed.
Lemma wp_free_pop c l b (Q : Buffer → HugeAlloc → Prop) h :
  freelist_ h !! c = Some (l ++ [b]) → Q b (set_freelist (<[c := l]> (freelist_ h)) h) → wp (free_pop (Z.of_nat c)) Q h.
Proof.
  intros Hl HQ. unfold free_pop. wstep. eapply wp_free_of; [done|]. rewrite last_snoc. wstep. eapply wp_put_free; [done|]. wstep.
  replace (take _ (l ++ [b])) with l; [done|]. rewrite length_app. cbn. rewrite Nat.add_1_r. cbn. by rewrite take_app_length.
Qed.
Lemma wp_is_empty c l (Q : bool → HugeAlloc → Prop) h : freelist_ h !! c = Some l → Q (bool_decide (l = [])) h → wp (is_empty (Z.of_nat c)) Q h.
Proof. intros Hl HQ. unfold is_empty. wstep. eapply wp_free_of; [done|]. by wstep. Qed.
Lemma has_list h live c : heap_ok h live → (c < k_num_classes)%nat → ∃ l, freelist_ h !! c = Some l.
Proof. intros [[Hl _] _ _ _ _ _] Hc. apply lookup_lt_is_Some_2. lia. Qed.
Lemma list_nonempty h c l : freelist_ h !! c = Some l → l ≠ [] → nonempty h c.
Proof. intros Hl Hne. destruct (exists_last Hne) as (l' & b & ->). by exists l', b. Qed.

(** ** Splitting and taking a buffer *)
Lemma wp_split c h live :
  heap_ok h live → nonempty h (S c) → (S c < k_num_classes)%nat → wp (split false (Z.of_nat (S c))) (λ _ h', heap_ok h' live ∧ nonempty h' c ∧ prev_allocation_size_ h' = prev_allocation_size_ h) h.
Proof.
  intros Hh (l & b & Hl) Hc. destruct (has_list h live c Hh ltac:(lia)) as (l0 & Hl0). destruct Hh as [[Hlen Hcl] Hli Hbl Hrg Hus Hre].
  unfold split, assert_n. do 5 wstep. eapply wp_free_pop; [exact Hl|]. do 2 wstep. set (fl1 := <[S c := l]> (freelist_ h)).
  replace (Z.of_nat (S c) - 1) with (Z.of_nat c) by lia. assert (H0 : fl1 !! c = Some l0) by by (unfold fl1; rewrite list_lookup_insert_ne by lia).
  pose proof (Hcl _ _ Hl) as [Hcl1 [Hb _]%Forall_cons]%Forall_app. destruct (sized_half c b (lkey_ b) (buf_ b) Hb) as [Hs0 Hhalf].
  destruct (sized_half c b (lkey_ b) (buf_ b + class_size_ b / 2) Hb) as [Hs1 _]. set (b0 := mk_Buffer (buf_ b) (class_size_ b / 2) (lkey_ b)) in *. set (b1 := mk_Buffer (buf_ b + class_size_ b / 2) (class_size_ b / 2) (lkey_ b)) in *.
  wstep. eapply wp_free_push; [exact H0|]. cbn [set_freelist freelist_]. eapply wp_free_push; [cbn [set_freelist freelist_]; apply list_lookup_insert_eq; unfold fl1; rewrite length_insert; lia|].
  cbn [set_freelist freelist_]. rewrite list_insert_insert_eq. split_and!; [|exists (l0 ++ [b0]), b1; cbn [set_freelist freelist_]; apply list_lookup_insert_eq; unfold fl1; rewrite length_insert; lia|done].
  pose proof (sized_pos _ _ Hs0). destruct (concat_lookup _ _ _ Hl) as (rest1 & Hp1 & Hp1'). destruct (concat_lookup _ _ _ H0) as (rest2 & Hp2 & Hp2').
  split; cbn [set_freelist freelist_ shm_list_ user_alloc_tot_ shm_reserved_]; try done.
  - apply lists_insert; [by apply lists_insert|]. repeat apply Forall_app_2; [by apply (Hcl c)|by apply Forall_singleton..].
  - rewrite Hp2'. eapply (blocks_perm _ _ (b0 :: b1 :: l0 ++ rest2 ++ live)); [solve_Permutation|]. eapply blocks_split; [exact Hhalf|cbn in *; lia|].
    eapply blocks_perm; [|exact Hbl]. rewrite Hp1, app_assoc, <- Hp2. unfold fl1. rewrite Hp1'. solve_Permutation.
Qed.
Lemma wp_split_down n c h live :
  heap_ok h live → nonempty h (c + n) → (c + n < k_num_classes)%nat →
  wp (split_down false n (Z.of_nat (c + n))) (λ _ h', heap_ok h' live ∧ nonempty h' c ∧ prev_allocation_size_ h' = prev_allocation_size_ h) h.
Proof.
  revert h. induction n as [|n IH]; intros h Hh Hne Hc; cbn [split_down]; [rewrite Nat.add_0_r in Hne; by wstep|].
  rewrite Nat.add_succ_r in *. wstep. eapply wq_mono; [by apply wp_split|]. intros _ h1 (H1 & H2 & H3).
  replace (Z.of_nat (S (c + n)) - 1) with (Z.of_nat (c + n)) by lia. eapply wq_mono; [apply IH; [done|done|lia]|]. cbn. intros _ h2 (? & ? & ?). split_and!; [done|done|congruence].
Qed.
Lemma wp_alloc_from_class c h live :
  heap_ok h live → nonempty h c → (c < k_num_classes)%nat →
  wp (alloc_from_class false (Z.of_nat c)) (λ b h', heap_ok h' (b :: live) ∧ sized c b ∧ prev_allocation_size_ h' = prev_allocation_size_ h) h.
Proof.
  intros [[Hlen Hcl] Hli Hbl Hrg Hus Hre] (l & b & Hl) Hc. unfold alloc_from_class, assert_n. do 2 wstep. wstep. eapply wp_free_pop; [exact Hl|]. do 2 wstep. wstep.
  pose proof (Hcl _ _ Hl) as [Hcl1 [Hb _]%Forall_cons]%Forall_app. destruct (concat_lookup _ _ _ Hl) as (rest & Hp & Hp').
  split_and!; [|done|done]. split; cbn [set_freelist set_user_tot freelist_ shm_list_ user_alloc_tot_ shm_reserved_]; try done.
  - by apply lists_insert.
  - constructor; [by exists c|done].
  - eapply blocks_perm; [|exact Hbl]. rewrite Hp, Hp'. solve_Permutation.
  - rewrite Hus. cbn [sum]. unfold size_t. rewrite Zplus_mod_idemp_l. f_equal. lia.
Qed.
Lemma wp_first_nonempty n c h live (Q : Z → HugeAlloc → Prop) :
  heap_ok h live → (c + n = k_num_classes)%nat → (∀ c', (c ≤ c')%nat → (c' < k_num_classes)%nat → nonempty h c' → Q (Z.of_nat c') h) → Q (Z.of_nat k_num_classes) h →
  wp (first_nonempty n (Z.of_nat c)) Q h.
Proof.
  intros Hh. revert c. induction n as [|n IH]; intros c Hc HQ Hend; cbn [first_nonempty]; [wstep; by replace c with k_num_classes by lia|].
  destruct (has_list h live c Hh ltac:(lia)) as (l & Hl). wstep. eapply wp_is_empty; [done|]. case_bool_decide as E.
  - replace (Z.of_nat c + 1) with (Z.of_nat (S c)) by lia. apply IH; [lia| |done]. intros c' ? ?. apply HQ; lia.
  - wstep. apply HQ; [lia|lia|by eapply list_nonempty].
Qed.
End rules.
