(* ===== verification/HugeAllocTheorems.v ===== *)
(** * What the allocator guarantees

    Reservation, allocation and freeing keep the invariant in a build without
    assertions; with them, and for the largest buffers, the number of classes does not
    fit [k_max_class_size]. *)

From S2P Require Import Prelude HugeAlloc HugeAllocSpec.

(** ** Reserving *)
Fixpoint chunks (n : nat) (buf key : Z) : list Buffer :=
  match n with O => [] | S n => mk_Buffer buf k_max_class_size key :: chunks n (buf + k_max_class_size) key end.
Lemma chunks_in n buf key b : b ∈ chunks n buf key → buf ≤ buf_ b ∧ buf_ b + class_size_ b ≤ buf + Z.of_nat n * k_max_class_size ∧ class_size_ b = k_max_class_size.
Proof.
  unfold k_max_class_size, MB. revert buf. induction n as [|n IH]; intros buf; cbn [chunks]; [by intros ?%elem_of_nil|].
  intros [->|Hb]%elem_of_cons; [cbn; unfold k_max_class_size, MB; lia|]. apply IH in Hb as (? & ? & ?). unfold k_max_class_size, MB in *. lia.
Qed.
Lemma chunks_apart n buf key : apart (chunks n buf key).
Proof.
  revert buf. induction n as [|n IH]; intros buf; cbn [chunks apart]; [done|]. split; [|apply IH].
  apply Forall_forall. intros b (? & _)%chunks_in. left. cbn. lia.
Qed.
Lemma chunks_sum n buf key : sum class_size_ (chunks n buf key) = Z.of_nat n * k_max_class_size.
Proof. revert buf. induction n as [|n IH]; intros buf; cbn [chunks sum]; [done|]. rewrite IH. cbn [class_size_]. lia. Qed.
Lemma round_up_id size : 0 ≤ size < 2 ^ 50 → size mod MB 2 = 0 → round_up kHugepageSize size = size.
Proof.
  intros Hs Hm. unfold round_up, kHugepageSize, size_t. apply Z.mod_divide in Hm as [k ->]; [|done]. unfold MB in *.
  rewrite Z.mod_small by lia. change (2 * 1024 * 1024 - 1) with (Z.ones 21). rewrite Z.ldiff_ones_r, Z.shiftr_div_pow2, Z.shiftl_mul_pow2 by lia.
  change (Z.ones 21) with (2 ^ 21 - 1). replace (k * (2 * 2 ^ 20) + (2 ^ 21 - 1)) with ((2 ^ 21 - 1) + k * 2 ^ 21) by lia.
  rewrite Z.div_add, (Z.div_small (2 ^ 21 - 1)) by lia. lia.
Qed.

Lemma shm_loop_answer os a : shm_loop os = Ok a → a ≠ EEXIST.
Proof. induction os as [|[] os IH]; cbn; try done; by intros [= <-]. Qed.

(** Memory from the operating system is new and in the address space of a process. *)
Definition grants (h : HugeAlloc) (size : Z) (a : shm_answer) : Prop :=
  match a with
  | Shm _ buf _ => buf ≠ 0 → 0 < buf ∧ buf + size ≤ 2 ^ 47 ∧ Forall (λ rg, buf + size ≤ rg_buf rg ∨ rg_buf rg + rg_size rg ≤ buf) (shm_list_ h)
  | _ => True
  end.
Definition throws (a : shm_answer) : Prop :=
  match a with EEXIST | ENOMEM => False | Shm _ buf ok => buf = 0 ∨ ok = false | _ => True end.

Section memory.
Context (reg_mr_func : Z → Z → Z).
Implicit Types (h : HugeAlloc) (live : list Buffer) (os : list shm_answer) (a : shm_answer).

Lemma wp_add_buffers n buf key l (Q : unit → HugeAlloc → Prop) h :
  freelist_ h !! 17%nat = Some l → Q tt (set_freelist (<[17%nat := l ++ chunks n buf key]> (freelist_ h)) h) → wp (add_buffers n buf key) Q h.
Proof.
  revert buf l h. induction n as [|n IH]; intros buf l h Hl HQ; cbn [add_buffers chunks] in *.
  - wstep. rewrite app_nil_r, list_insert_id in HQ by done. by destruct h.
  - wstep. change (Z.of_nat k_num_classes - 1) with (Z.of_nat 17). eapply wp_free_push; [exact Hl|]. pose proof (lookup_lt_Some _ _ _ Hl).
    eapply IH; cbn [set_freelist freelist_]; [by apply list_lookup_insert_eq|]. rewrite list_insert_insert_eq, <- app_assoc. exact HQ.
Qed.
Lemma wp_reserve asserts h live os a size :
  heap_ok h live → shm_loop os = Ok a → grants h size a → k_max_class_size ≤ size ≤ 2 ^ 48 → size mod k_max_class_size = 0 →
  wp (reserve_hugepages asserts reg_mr_func os size) (λ r h', prev_allocation_size_ h' = prev_allocation_size_ h ∧
    match r with
    | None => throws a
    | Some false => h' = h ∧ a = ENOMEM
    | Some true => heap_ok h' live ∧ size ≤ 2 ^ 47 ∧
        ∃ l l', freelist_ h !! 17%nat = Some l ∧ freelist_ h' = <[17%nat := l ++ l']> (freelist_ h) ∧ l' ≠ [] ∧ Forall (λ b, class_size_ b = k_max_class_size) l'
    end) h.
Proof.
  intros Hh Hos Hg Hs Hm. unfold reserve_hugepages, alloc_raw. wstep. apply wq_assert_n; [lia|]. rewrite round_up_id; [|unfold k_max_class_size, MB in Hs; lia|apply Z.mod_divide in Hm as [k ->]; [|done]; apply Z.mod_divide; [done|exists (8 * k); unfold k_max_class_size, MB; lia]].
  do 2 wstep. eapply wp_lift; [exact Hos|]. destruct a as [| | | | |key buf ok]; [by apply shm_loop_answer in Hos|wstep; by apply wq_ret..|].
  destruct (Z.eqb_spec buf 0) as [E|E]; [cbn [orb]; apply wq_ret, wq_ret; split; [done|by left]|]. destruct ok; [|cbn [orb negb]; apply wq_ret, wq_ret; split; [done|by right]]. cbn [orb negb].
  do 4 wstep. set (key' := reg_mr_func buf size). apply wq_ret. cbn [buf_ lkey_]. rewrite (proj2 (Z.eqb_neq _ _) E). wstep. apply wq_assert_n; [intros _; apply Z.leb_le, Z.div_le_lower_bound; unfold k_max_class_size, MB in *; lia|].
  destruct (has_list h live 17 Hh ltac:(unfold k_num_classes; lia)) as (l & Hl). wstep. eapply wp_add_buffers; [exact Hl|]. wstep. cbn [set_freelist set_reserved set_shm_list prev_allocation_size_].
  split; [done|]. destruct (Hg E) as (Hpos & Htop & Hfresh). destruct Hh as [[Hlen Hcl] Hli Hbl Hrg Hus Hre].
  assert (Hn : Z.of_nat (Z.to_nat (size / k_max_class_size)) * k_max_class_size = size).
  { apply Z.mod_divide in Hm as [k Hk]; [|done]. unfold k_max_class_size, MB in *. rewrite Hk, Z.div_mul by lia. rewrite Z2Nat.id by lia. done. }
  set (n := Z.to_nat (size / k_max_class_size)) in *. split_and!; [|lia|exists l, (chunks n buf key'); split_and!; [done|done| |apply Forall_forall; by intros b (_ & _ & ?)%chunks_in]].
  - destruct (concat_lookup _ _ _ Hl) as (rest & Hp & Hp'). destruct Hbl as [Ha Hi Hsum]. set (rg := mk_region key buf size true key').
    split; cbn [set_freelist set_reserved set_shm_list freelist_ shm_list_ user_alloc_tot_ shm_reserved_]; try done.
    + apply lists_insert; [by split|]. apply Forall_app_2; [by apply (Hcl 17%nat)|]. apply Forall_forall. intros b (_ & _ & Hb)%chunks_in. right. rewrite Hb. by vm_compute.
    + eapply (blocks_perm _ _ (chunks n buf key' ++ concat (freelist_ h) ++ live)); [rewrite Hp, Hp'; solve_Permutation|]. split.
      * apply apart_app. split_and!; [apply chunks_apart|done|]. intros b b' (H1 & H2 & _)%chunks_in Hb'. eapply Forall_forall in Hi as (rg' & Hrg' & H3 & H4); [|exact Hb'].
        eapply Forall_forall in Hfresh; [|exact Hrg']. unfold disj. lia.
      * apply Forall_app_2; [|apply (Forall_impl _ _ _ Hi); intros b (rg' & Hin & ?); exists rg'; split; [apply elem_of_app; by left|done]].
        apply Forall_forall. intros b (H1 & H2 & _)%chunks_in. exists rg. split; [apply elem_of_app; right; by apply list_elem_of_singleton|]. cbn. lia.
      * rewrite !sum_app, chunks_sum, <- Hsum, sum_app. cbn. lia.
    + apply Forall_app_2; [done|]. by apply Forall_singleton.
    + rewrite Hre, sum_app. cbn. unfold size_t. rewrite Zplus_mod_idemp_l. f_equal. lia.
  - assert (0 < n)%nat by (destruct n; [unfold k_max_class_size, MB in *; lia|lia]). by destruct n; [lia|].
Qed.

(** ** Allocating and freeing *)
Definition alloc_post h live size a (r : option Buffer) h' : Prop :=
  match r with
  | None => throws a
  | Some b => b = null_buffer ∧ h' = h ∨
      heap_ok h' (b :: live) ∧ prev_ok (prev_allocation_size_ h') ∧ ∃ c, class_of (Z.of_nat c) size ∧ sized c b
  end.
Lemma wp_by_splitting h live c c' size :
  heap_ok h live → prev_ok (prev_allocation_size_ h) → nonempty h c' → (c ≤ c' < k_num_classes)%nat → class_of (Z.of_nat c) size →
  wp (alloc_by_splitting false (Z.of_nat c') (Z.of_nat c)) (λ b h', heap_ok h' (b :: live) ∧ prev_ok (prev_allocation_size_ h') ∧ ∃ c, class_of (Z.of_nat c) size ∧ sized c b) h.
Proof.
  intros Hh Hp Hne Hc Hco. unfold alloc_by_splitting, assert_n. do 2 wstep. replace c' with (c + (c' - c))%nat in * by lia. set (n := (c' - c)%nat) in *.
  replace (Z.to_nat (Z.of_nat (c + n) - Z.of_nat c)) with n by lia. wstep. eapply wq_mono; [apply wp_split_down; [done|done|lia]|]. intros _ h1 (H1 & H2 & H3). do 2 wstep.
  eapply wq_mono; [apply wp_alloc_from_class; [done|done|lia]|]. intros b h2 (H4 & H5 & H6). split_and!; [done|congruence|by exists c].
Qed.
Lemma wp_heap_alloc h live os a size :
  heap_ok h live → prev_ok (prev_allocation_size_ h) → 1 ≤ size ≤ MB 8 → shm_loop os = Ok a → grants h (2 * prev_allocation_size_ h) a →
  wp (alloc false 0 reg_mr_func os size) (alloc_post h live size a) h.
Proof.
  intros Hh Hp Hs Hos Hg. unfold alloc. wstep. unfold assert_n at 1. wstep. wstep. apply wp_get_class; [unfold k_max_class_size, MB in *; lia|]. intros cz Hco.
  pose proof (class_of_bound _ _ 17 ltac:(lia) Hco ltac:(unfold MB in Hs; lia)) as Hc. pose proof (proj1 Hco). unfold assert_n at 1. do 2 wstep.
  rewrite <- (Z2Nat.id cz) in Hco |- * by lia. set (c := Z.to_nat cz) in *. assert (Hcn : (c < k_num_classes)%nat) by (unfold k_num_classes; lia).
  destruct (has_list h live c Hh Hcn) as (l & Hl). wstep. eapply wp_is_empty; [exact Hl|]. case_bool_decide as El; cbn [negb].
  2:{ wstep. eapply wq_mono; [apply wp_alloc_from_class; [done|by eapply list_nonempty|done]|]. intros b h' (H1 & H2 & H3). wstep. right. rewrite H3. split_and!; [done|done|by exists c]. }
  wstep. replace (Z.of_nat c + 1) with (Z.of_nat (S c)) by lia. eapply wp_first_nonempty; [exact Hh|unfold k_num_classes in *; lia|..].
  - intros c' Hc1 Hc2 Hne. rewrite (proj2 (Z.eqb_neq _ _)) by lia. wstep. eapply wq_mono; [apply wp_by_splitting; [done|done|done|lia|done]|]. intros b h' HP. wstep. by right.
  - rewrite Z.eqb_refl. destruct Hp as [Hp1 Hp2]. pose proof Hp1 as Hp1'. unfold k_max_class_size, MB in Hp1'.
    wstep. wstep. replace (set_prev _ h) with (set_prev (2 * prev_allocation_size_ h) h) by (unfold size_t; rewrite Z.mod_small by lia; f_equal; lia).
    do 2 wstep. cbn [set_prev prev_allocation_size_]. set (p2 := 2 * prev_allocation_size_ h) in *. set (h1 := set_prev p2 h).
    assert (Hh1 : heap_ok h1 live) by (destruct Hh; by split).
    assert (Hm : p2 mod k_max_class_size = 0). { apply Z.mod_divide in Hp2 as [k Hk]; [|done]. apply Z.mod_divide; [done|]. exists k. unfold p2. rewrite Hk. unfold k_max_class_size, MB. lia. }
    wstep. eapply wq_mono; [apply (wp_reserve false h1 live os a p2); try done; unfold p2, k_max_class_size, MB in *; lia|].
    intros [[]|] h2 [Hprev HP]; [| |by wstep].
    + destruct HP as (Hh2 & Htop & l1 & l2 & Hl1 & Hl2 & Hne2 & _). wstep.
      assert (Hne : nonempty h2 17) by (eapply list_nonempty; [rewrite Hl2; apply list_lookup_insert_eq; by eapply lookup_lt_Some|by destruct l1]). change (Z.of_nat k_num_classes - 1) with (Z.of_nat 17).
      eapply wq_mono; [apply wp_by_splitting; [exact Hh2| |exact Hne|unfold k_num_classes; lia|exact Hco]|intros b h' HP; wstep; by right].
      rewrite Hprev. cbn [h1 set_prev prev_allocation_size_]. split; [unfold p2 in *; lia|]. apply Z.mod_divide in Hp2 as [k Hk]; [|done]. apply Z.mod_divide; [done|]. exists (2 * k). unfold p2. lia.
    + destruct HP as [-> _]. wstep. wstep. wstep. left. split; [done|]. unfold h1, p2. cbn. replace (2 * _ / 2) with (prev_allocation_size_ h) by (rewrite Z.mul_comm, Z.div_mul by lia; done). by destruct h.
Qed.
Lemma wp_free_buf h live live' b :
  heap_ok h live → live ≡ₚ b :: live' → class_size_ b ≤ MB 8 → wp (free_buf false 0 b) (λ _ h', heap_ok h' live' ∧ prev_allocation_size_ h' = prev_allocation_size_ h ∧
    ∃ c l, freelist_ h' !! c = Some (l ++ [b]) ∧ class_of (Z.of_nat c) (class_size_ b)) h.
Proof.
  intros [[Hlen Hcl] Hli Hbl Hrg Hus Hre] HP Hs. rewrite HP in Hli. apply Forall_cons in Hli as [(cb & Hcb & Hsz) Hli]. pose proof (sized_pos _ _ Hsz). unfold free_buf. wstep. apply wq_assert_n; [done|]. wstep.
  apply wp_get_class; [unfold k_max_class_size, MB in *; lia|]. intros cz Hco. pose proof (class_of_bound _ _ 17 ltac:(lia) Hco ltac:(unfold MB in Hs; lia)). pose proof (proj1 Hco).
  wstep. apply wq_assert_n; [done|]. rewrite <- (Z2Nat.id cz) in Hco |- * by lia. set (c := Z.to_nat cz) in *.
  assert (Hsc : sized c b).
  { left. rewrite class_max_size_pow. destruct Hsz as [E|E]; rewrite class_max_size_pow in E; rewrite E in Hco.
    - by rewrite E, (class_of_unique _ _ _ Hco (class_of_pow _ (Nat2Z.is_nonneg cb))).
    - replace (2 * (64 * 2 ^ Z.of_nat cb)) with (64 * 2 ^ (Z.of_nat cb + 1)) in * by (rewrite Z.pow_add_r by lia; lia).
      by rewrite E, (class_of_unique _ _ _ Hco (class_of_pow (Z.of_nat cb + 1) ltac:(lia))). }
  destruct (lookup_lt_is_Some_2 (freelist_ h) c) as (l & Hl); [unfold k_num_classes in Hlen; lia|]. destruct (concat_lookup _ _ _ Hl) as (rest & Hp & Hp').
  wstep. eapply wp_free_push; [exact Hl|]. wstep.
  split; [|split; [done|exists c, l; split; [cbn [set_user_tot set_freelist freelist_]; apply list_lookup_insert_eq; by apply lookup_lt_Some in Hl|done]]].
  split; cbn [set_freelist set_user_tot freelist_ shm_list_ user_alloc_tot_ shm_reserved_]; try done.
  - apply lists_insert; [by split|]. apply Forall_app_2; [by apply (Hcl c)|by apply Forall_singleton].
  - eapply blocks_perm; [|exact Hbl]. rewrite Hp, Hp', HP. solve_Permutation.
  - rewrite Hus, HP. cbn [sum]. unfold size_t. rewrite Zminus_mod_idemp_l. f_equal. lia.
Qed.
End memory.

(** ** Reachable states: any allocations and frees after creation

    A buffer of [k_max_class_size] cannot be freed (see below), so that only buffers of
    the classes' sizes are. *)
Section reach.
Context (reg_mr_func : Z → Z → Z).
Implicit Types (h : HugeAlloc) (live : list Buffer) (os : list shm_answer).
Inductive reach : HugeAlloc → list Buffer → Prop :=
| reach_new initial_size : initial_size ≤ 2 ^ 47 → initial_size mod MB 8 = 0 ∨ initial_size < k_max_class_size → reach (new_HugeAlloc initial_size) []
| reach_alloc h live os a size b h' :
    reach h live → 1 ≤ size ≤ MB 8 → shm_loop os = Ok a → grants h (2 * prev_allocation_size_ h) a →
    alloc false 0 reg_mr_func os size h = Ok (Some b, h') → buf_ b ≠ 0 → reach h' (b :: live)
| reach_free h live b live' h' :
    reach h live → live ≡ₚ b :: live' → class_size_ b ≤ MB 8 → free_buf false 0 b h = Ok (tt, h') → reach h' live'.

Lemma new_ok initial_size : initial_size ≤ 2 ^ 47 → initial_size mod MB 8 = 0 ∨ initial_size < k_max_class_size →
  heap_ok (new_HugeAlloc initial_size) [] ∧ prev_ok (prev_allocation_size_ (new_HugeAlloc initial_size)).
Proof.
  intros Hi Hm. split; [|unfold prev_ok; cbn; unfold k_max_class_size, MB in *; destruct (Z.ltb_spec initial_size (16 * 2 ^ 20)); [done|split; [lia|by destruct Hm; [|lia]]]].
  split; try done.
  split; [done|]. cbn [new_HugeAlloc freelist_]. intros c l [-> _]%lookup_replicate. constructor.
Qed.
Lemma reach_ok h live : reach h live → heap_ok h live ∧ prev_ok (prev_allocation_size_ h).
Proof.
  induction 1 as [size Hi Hm|h live os a size b h' Hr [IH1 IH2] Hs Hos Hg E Hb|h live b live' h' Hr [IH1 IH2] HP Hs E]; [by apply new_ok| |].
  - destruct (wq_run _ _ _ _ _ _ (wp_heap_alloc reg_mr_func h live os a size IH1 IH2 Hs Hos Hg) E) as [[-> _]|(? & ? & _)]; done.
  - destruct (wq_run _ _ _ _ _ _ (wp_free_buf h live live' b IH1 HP Hs) E) as (? & -> & _). done.
Qed.
Lemma heap_nonzero h b live : heap_ok h (b :: live) → 0 < buf_ b.
Proof.
  intros [_ _ [_ Hi _] Hrg _ _]. apply Forall_app in Hi as [_ [(rg & Hin & ? & _) _]%Forall_cons]. eapply Forall_forall in Hrg; [|exact Hin]. cbn in *. lia.
Qed.

(** C39: in a build without assertions, where [bsrl] of 0 leaves 0 in its destination, with
    an initial size of at most 2^47 that is a multiple of 8 MB or less than 16 MB, and
    with an operating system that gives new memory of the process's address space, or
    refuses, after at most finitely many keys that are in use: after any allocations of up to 8 MB and any frees of buffers of up to 8 MB
    (those of [k_max_class_size] are never freed), another allocation of up to 8 MB ends
    without a fault, or in the exception that [alloc_raw] throws on an error of the system.
    It returns a null buffer when the system has no memory, or a buffer that holds the
    size, at most four times too large (or at most 128 bytes), inside the reserved memory
    and apart from all buffers in use; what is in use and what is free are together the
    reserved memory, and the counters say so. *)
Theorem alloc_gives_new_memory h live os a size :
  reach h live → 1 ≤ size ≤ MB 8 → shm_loop os = Ok a → grants h (2 * prev_allocation_size_ h) a →
  ∃ r h', alloc false 0 reg_mr_func os size h = Ok (r, h') ∧
    match r with
    | None => throws a
    | Some b => b = null_buffer ∧ h' = h ∨
        reach h' (b :: live) ∧ size ≤ class_size_ b ∧ (class_size_ b < 4 * size ∨ class_size_ b ≤ 128) ∧ 0 < buf_ b ∧
        inside (shm_list_ h') b ∧ Forall (disj b) live ∧
        user_alloc_tot_ h' = size_t (class_size_ b + sum class_size_ live) ∧ shm_reserved_ h' = size_t (sum rg_size (shm_list_ h')) ∧
        sum class_size_ (concat (freelist_ h')) + class_size_ b + sum class_size_ live = sum rg_size (shm_list_ h')
    end.
Proof.
  intros Hr Hs Hos Hg. destruct (reach_ok h live Hr) as [Hh Hp]. pose proof (wp_heap_alloc reg_mr_func h live os a size Hh Hp Hs Hos Hg) as H.
  apply wp_iff in H as (r & h' & E & HP). exists r, h'. split; [done|]. destruct r as [b|]; [|done]. destruct HP as [?|(Hh' & Hp' & c & (Hc1 & Hc2 & Hc3) & Hsz)]; [by left|right].
  pose proof (heap_nonzero _ _ _ Hh'). assert (Hr' : reach h' (b :: live)) by (eapply reach_alloc; [done..|lia]). destruct Hh' as [_ _ [Ha Hi Hsum] _ Hus Hre].
  rewrite !sum_app in Hsum. cbn [sum] in Hsum. apply Forall_app in Hi as [_ [Hi _]%Forall_cons]. apply apart_app in Ha as (_ & [Ha _] & _).
  unfold sized in Hsz. rewrite class_max_size_pow in Hsz. assert (0 < 2 ^ Z.of_nat c) by (apply Z.pow_pos_nonneg; lia).
  split_and!; try done; [lia| |lia]. destruct c as [|c]; [right; change (2 ^ Z.of_nat 0) with 1 in *; lia|left].
  specialize (Hc3 ltac:(lia)). rewrite Nat2Z.inj_succ, Z.pow_succ_r in Hsz by lia. replace (Z.of_nat (S c) - 1) with (Z.of_nat c) in Hc3 by lia. lia.
Qed.
(** A buffer in use of at most 8 MB can be given back after any allocations and frees:
    what is free and what is still in use do not overlap, are the reserved memory, and the
    counters say so. *)
Theorem free_takes_memory_back h live b live' :
  reach h live → live ≡ₚ b :: live' → class_size_ b ≤ MB 8 →
  ∃ h', free_buf false 0 b h = Ok (tt, h') ∧ reach h' live' ∧ apart (concat (freelist_ h') ++ live') ∧
    (∃ c l, freelist_ h' !! c = Some (l ++ [b]) ∧ class_of (Z.of_nat c) (class_size_ b)) ∧
    user_alloc_tot_ h' = size_t (sum class_size_ live') ∧
    sum class_size_ (concat (freelist_ h')) + sum class_size_ live' = sum rg_size (shm_list_ h').
Proof.
  intros Hr HP Hs. destruct (reach_ok h live Hr) as [Hh Hp]. pose proof (wp_free_buf h live live' b Hh HP Hs) as H. apply wp_iff in H as ([] & h' & E & Hh' & _ & Hc).
  exists h'. split; [done|]. destruct Hh' as [_ _ [Ha _ Hsum] _ Hus _]. rewrite sum_app in Hsum. split_and!; try done. by eapply reach_free.
Qed.
End reach.

(** ** The classes and [k_max_class_size]

    The maximum of the last class is 8 MB, half of [k_max_class_size]: the assertion that
    compares them at compile time is commented out. *)
Section classes.
Context (reg_mr_func : Z → Z → Z).
Implicit Types (h : HugeAlloc) (os : list shm_answer).

(** The class computed from the position of the highest bit is that of the
    reference function, when [bsrl] of 0 leaves 0. *)
Theorem get_class_is_reference asserts size h : 1 ≤ size ≤ k_max_class_size → get_class asserts 0 size h = get_class_slow asserts size h.
Proof.
  intros Hs. assert (H1 : wp (get_class asserts 0 size) (λ c h', class_of c size ∧ h' = h) h) by by apply wp_get_class.
  assert (H2 : wp (get_class_slow asserts size) (λ c h', class_of c size ∧ h' = h) h) by by apply wp_get_class_slow.
  apply wp_iff in H1 as (c & h1 & -> & Hc & ->). apply wp_iff in H2 as (c' & h2 & -> & Hc' & ->). by rewrite (class_of_unique _ _ _ Hc Hc').
Qed.

Lemma wp_first_nonempty_new n c h (Q : Z → HugeAlloc → Prop) :
  (c + n = k_num_classes)%nat → freelist_ h = replicate k_num_classes [] → Q (Z.of_nat k_num_classes) h → wp (first_nonempty n (Z.of_nat c)) Q h.
Proof.
  intros Hc Hf HQ. revert c Hc. induction n as [|n IH]; intros c Hc; cbn [first_nonempty]; [wstep; by replace c with k_num_classes by lia|].
  wstep. eapply wp_is_empty; [rewrite Hf; apply lookup_replicate_2; lia|]. rewrite bool_decide_eq_true_2 by done. replace (Z.of_nat c + 1) with (Z.of_nat (S c)) by lia. apply IH. lia.
Qed.
(** The first allocation, up to the reservation. *)
Lemma first_alloc F asserts initial_size os key buf size (Q : option Buffer → HugeAlloc → Prop) :
  initial_size ≤ 2 ^ 47 → initial_size mod MB 8 = 0 ∨ initial_size < k_max_class_size →
  shm_loop os = Ok (Shm key buf true) → buf ≠ 0 → grants (new_HugeAlloc initial_size) (2 * prev_allocation_size_ (new_HugeAlloc initial_size)) (Shm key buf true) →
  1 ≤ size ≤ MB 8 →
  (∀ c h l, class_of (Z.of_nat c) size → (c < k_num_classes)%nat → heap_ok h [] → freelist_ h = <[17%nat := l]> (replicate k_num_classes []) → l ≠ [] → Forall (λ b, class_size_ b = k_max_class_size) l →
    wq F (alloc_by_splitting asserts 17 (Z.of_nat c)) (λ b h', Q (Some b) h') h) →
  wq F (alloc asserts 0 reg_mr_func os size) Q (new_HugeAlloc initial_size).
Proof.
  intros Hi Hm Hos Hbuf Hg Hs HQ. destruct (new_ok initial_size Hi Hm) as [Hh [Hp1 Hp2]]. set (h := new_HugeAlloc initial_size) in *. pose proof Hp1 as Hp1'. unfold k_max_class_size, MB in Hp1'.
  unfold alloc. wstep. apply wq_assert_n; [intros _; unfold k_max_class_size, MB in *; lia|]. wstep. eapply (wq_weaken (λ _, False)); [apply (wp_get_class asserts size (λ c h', class_of c size ∧ h' = h)); [unfold k_max_class_size, MB in *; lia|done]| |done].
  intros cz _ [Hco ->]. pose proof (class_of_bound _ _ 17 ltac:(lia) Hco ltac:(unfold MB in Hs; lia)) as Hc. pose proof (proj1 Hco).
  rewrite <- (Z2Nat.id cz) in Hco |- * by lia. set (c := Z.to_nat cz) in *. assert (Hcn : (c < k_num_classes)%nat) by (unfold k_num_classes; lia).
  wstep. apply wq_assert_n; [intros _; lia|]. wstep. eapply (wq_weaken (λ _, False)); [eapply (wp_is_empty c [] (λ b h', b = true ∧ h' = h)); [by apply lookup_replicate_2|by split]| |done]. intros ? ? [-> ->]. cbn [negb].
  wstep. replace (Z.of_nat c + 1) with (Z.of_nat (S c)) by lia. eapply (wq_weaken (λ _, False)); [eapply (wp_first_nonempty_new _ _ h (λ c h', c = Z.of_nat k_num_classes ∧ h' = h)); [unfold k_num_classes in *; lia|done|done]| |done]. intros ? ? [-> ->].
  rewrite Z.eqb_refl. wstep. wstep. replace (set_prev _ h) with (set_prev (2 * prev_allocation_size_ h) h) by (unfold size_t; rewrite Z.mod_small by lia; f_equal; lia).
  do 2 wstep. cbn [set_prev prev_allocation_size_]. set (p2 := 2 * prev_allocation_size_ h) in *. set (h1 := set_prev p2 h).
  assert (Hh1 : heap_ok h1 []) by (destruct Hh; by split).
  assert (Hpm : p2 mod k_max_class_size = 0). { apply Z.mod_divide in Hp2 as [k Hk]; [|done]. apply Z.mod_divide; [done|]. exists k. unfold p2. rewrite Hk. unfold k_max_class_size, MB. lia. }
  wstep. eapply (wq_weaken (λ _, False)); [apply (wp_reserve reg_mr_func asserts h1 [] os (Shm key buf true) p2); try done; unfold p2, k_max_class_size, MB in *; lia| |done].
  intros [[]|] h2 [_ HP].
  - destruct HP as (Hh2 & _ & l & l' & Hl & Hl' & Hne & Hall). wstep. eapply wq_mono; [apply (HQ c h2 l'); [done|done|done| |done|done]|intros b h' HQ'; by wstep]. rewrite Hl'. by apply lookup_replicate in Hl as [-> _].
  - by destruct HP as [_ ?].
  - destruct HP as [?|?]; done.
Qed.
(** A build without assertions gets a buffer of [k_max_class_size] for a first
    allocation of more than 4 MB, and cannot give it back: its class is one past the end
    of the array of lists. *)
Theorem large_buffer_freed_out_of_bounds initial_size os key buf size :
  initial_size ≤ 2 ^ 47 → initial_size mod MB 8 = 0 ∨ initial_size < k_max_class_size →
  shm_loop os = Ok (Shm key buf true) → buf ≠ 0 → grants (new_HugeAlloc initial_size) (2 * prev_allocation_size_ (new_HugeAlloc initial_size)) (Shm key buf true) →
  MB 4 < size ≤ MB 8 →
  ∃ b h, alloc false 0 reg_mr_func os size (new_HugeAlloc initial_size) = Ok (Some b, h) ∧ class_size_ b = k_max_class_size ∧ free_buf false 0 b h = Fault UndefinedBehaviour.
Proof.
  intros Hi Hm Hos Hbuf Hg Hs.
  assert (H : wp (alloc false 0 reg_mr_func os size) (λ r h, ∃ b, r = Some b ∧ class_size_ b = k_max_class_size ∧ length (freelist_ h) = k_num_classes) (new_HugeAlloc initial_size)).
  2:{ apply wp_iff in H as (r & h & E & b & -> & Hb & Hlen). exists b, h. split_and!; [done|done|].
    apply wq_fault.
    unfold free_buf. wstep. apply wq_assert_n; [done|]. wstep. rewrite Hb. eapply (wq_weaken (λ _, False)); [apply (wp_get_class false _ (λ c h', class_of c k_max_class_size ∧ h' = h)); [done|done]| |done].
    intros c _ [Hc ->]. rewrite (class_of_unique _ 18 _ Hc) by done. wstep. apply wq_assert_n; [done|]. wstep. unfold free_push, free_of. do 3 wstep. apply wq_lift; [apply arr_get_fault|].
    intros l (_ & Hl%lookup_lt_Some)%arr_get_Ok. unfold k_num_classes in Hlen. lia. }
  eapply first_alloc; try done; [unfold MB in *; lia|]. intros c h l Hc Hcn Hh Hl Hne Hall.
  assert (c = 17%nat) as ->. { destruct Hc as (_ & Hc & _). destruct (decide (c ≤ 16)%nat); [|unfold k_num_classes in Hcn; lia]. assert (2 ^ Z.of_nat c ≤ 2 ^ 16) by (apply Z.pow_le_mono_r; lia). unfold MB in Hs. lia. }
  unfold alloc_by_splitting. wstep. apply wq_assert_n; [done|]. wstep. change (Z.to_nat (17 - Z.of_nat 17)) with 0%nat. cbn [split_down]. do 3 wstep.
  destruct (exists_last Hne) as (l0 & b & ->). unfold alloc_from_class. wstep. apply wq_assert_n; [done|]. wstep. change 17 with (Z.of_nat 17). eapply wp_free_pop; [rewrite Hl; apply list_lookup_insert_eq; by apply Nat.ltb_lt|].
  do 2 wstep. wstep. exists b. apply Forall_app in Hall as [_ [Hb _]%Forall_cons]. split_and!; [done|done|]. cbn [set_user_tot set_freelist freelist_]. by rewrite Hl, !length_insert, length_replicate.
Qed.
(** A build with assertions fails one in the first allocation of up to 4 MB: the
    buffer to be split is twice as large as its class allows. *)
Theorem split_assertion_fails initial_size os key buf size :
  initial_size ≤ 2 ^ 47 → initial_size mod MB 8 = 0 ∨ initial_size < k_max_class_size →
  shm_loop os = Ok (Shm key buf true) → buf ≠ 0 → grants (new_HugeAlloc initial_size) (2 * prev_allocation_size_ (new_HugeAlloc initial_size)) (Shm key buf true) →
  1 ≤ size ≤ MB 4 →
  alloc true 0 reg_mr_func os size (new_HugeAlloc initial_size) = Fault AssertFailed.
Proof.
  intros Hi Hm Hos Hbuf Hg Hs. apply wq_fault. eapply first_alloc; try done; [unfold MB in *; lia|]. intros c h l Hc Hcn Hh Hl Hne Hall.
  pose proof (class_of_bound _ _ 16 ltac:(lia) Hc ltac:(unfold MB in Hs; lia)) as Hc16.
  unfold alloc_by_splitting. wstep. apply wq_assert_n; [done|]. replace (Z.to_nat (17 - Z.of_nat c)) with (S (16 - c)) by lia. cbn [split_down]. wstep. wstep. unfold split at 1.
  wstep. apply wq_assert_n; [done|]. destruct (exists_last Hne) as (l0 & b & ->). apply Forall_app in Hall as [_ [Hb _]%Forall_cons].
  change 17 with (Z.of_nat 17). wstep. wstep. eapply (wq_weaken (λ _, False)); [eapply (wp_is_empty 17 _ (λ e h', e = false ∧ h' = h)); [rewrite Hl; apply list_lookup_insert_eq; by apply Nat.ltb_lt|split; [|done]; apply bool_decide_eq_false_2; by destruct l0]| |done].
  intros ? ? [-> ->]. wstep. wstep. wstep. change (Z.of_nat 17 - 1) with (Z.of_nat 16). eapply (wq_weaken (λ _, False)); [eapply (wp_is_empty 16 [] (λ e h', e = true ∧ h' = h)); [by rewrite Hl, list_lookup_insert_ne|done]| |done].
  intros ? ? [-> ->]. wstep. wstep. eapply (wq_weaken (λ _, False)); [eapply (wp_free_pop 17 l0 b (λ b' _, b' = b)); [rewrite Hl; apply list_lookup_insert_eq; by apply Nat.ltb_lt|done]| |done].
  intros ? h3 ->. wstep. unfold assert_n. rewrite Hb. wstep. discriminate.
Qed.
End classes.

(** ** The allocator of an endpoint: 200 MB, doubled by the first reservation *)
Definition ex_os : list shm_answer := [EEXIST; Shm 5 4096 true].
Definition ex_heap : HugeAlloc := new_HugeAlloc (MB 200).
Definition ex_key (buf size : Z) : Z := 7.
Lemma ex_grants : grants ex_heap (2 * prev_allocation_size_ ex_heap) (Shm 5 4096 true).
Proof. intros _. split_and!; [done|by vm_compute|constructor]. Qed.
Lemma ex_reach : reach ex_key ex_heap [].
Proof. apply reach_new; [by vm_compute|by left]. Qed.
Definition small_result (o : outcome (option Buffer * HugeAlloc)) : bool :=
  match o with Ok (Some b, _) => negb (buf_ b =? 0) && (class_size_ b <=? MB 8) | _ => false end.
Lemma small_result_some o : small_result o = true → ∃ b h, o = Ok (Some b, h) ∧ buf_ b ≠ 0 ∧ class_size_ b ≤ MB 8.
Proof. destruct o as [[[b|] h]|]; cbn; [|done..]. intros H. exists b, h. by bool_prop. Qed.
Lemma ex_reach_one : ∃ b h, reach ex_key h [b] ∧ class_size_ b ≤ MB 8.
Proof.
  assert (Ht : small_result (alloc false 0 ex_key ex_os 100 ex_heap) = true) by (vm_compute; reflexivity).
  apply small_result_some in Ht as (b & h & E & Hb). exists b, h.
  split; [|apply Hb]. eapply (reach_alloc ex_key ex_heap [] ex_os (Shm 5 4096 true) 100); [apply ex_reach|unfold MB; lia|reflexivity|apply ex_grants|exact E|apply Hb].
Qed.
Lemma alloc_gives_new_memory_witness : ∃ r h', alloc false 0 ex_key ex_os 100 ex_heap = Ok (r, h').
Proof.
  destruct (alloc_gives_new_memory ex_key ex_heap [] ex_os (Shm 5 4096 true) 100) as (r & h' & E & _);
    [apply ex_reach|unfold MB; lia|reflexivity|apply ex_grants|].
  exists r, h'. exact E.
Defined.
Lemma free_takes_memory_back_witness : ∃ b h h', reach ex_key h [b] ∧ free_buf false 0 b h = Ok (tt, h') ∧ reach ex_key h' [].
Proof.
  destruct ex_reach_one as (b & h & Hr & Hb). destruct (free_takes_memory_back ex_key h [b] b []) as (h' & E & Hr' & _); [exact Hr|reflexivity|exact Hb|].
  exists b, h, h'. split_and!; [exact Hr|exact E|exact Hr'].
Defined.
Lemma get_class_is_reference_witness : get_class true 0 1000 ex_heap = get_class_slow true 1000 ex_heap.
Proof. apply get_class_is_reference. by vm_compute. Defined.
Lemma large_buffer_freed_out_of_bounds_witness :
  ∃ b h, alloc false 0 ex_key ex_os (MB 5) ex_heap = Ok (Some b, h) ∧ class_size_ b = k_max_class_size ∧ free_buf false 0 b h = Fault UndefinedBehaviour.
Proof.
  apply (large_buffer_freed_out_of_bounds ex_key (MB 200) ex_os 5 4096); [by vm_compute|by left|reflexivity|done|apply ex_grants|by vm_compute].
Defined.
Lemma split_assertion_fails_witness : alloc true 0 ex_key ex_os 100 ex_heap = Fault AssertFailed.
Proof.
  apply (split_assertion_fails ex_key (MB 200) ex_os 5 4096); [by vm_compute|by left|reflexivity|done|apply ex_grants|by vm_compute].
Defined.
