(* ===== verification/TimingWheel.v ===== *)
(** * The timing wheel ([src/cc/timing_wheel.h], [src/util/mempool.h])

    Packets to be sent at a later time wait in a wheel of slots; a slot is a chain
    of buckets of [kWheelBucketCap] entries, the first in the wheel's own array and
    the others from a pool.  A pointer to a bucket is its position in [mem]: the
    slots of the wheel first, then the buckets the pool has taken from the huge-page
    allocator.  The allocator is [HugeAlloc]'s; the arguments are what the operating
    system answers it and what its memory holds. *)

From S2P Require Import Prelude HugeAlloc.

(** ** Constants and entries *)
Definition kWheelBucketCap : nat := 5.
Definition kSessionCredits : Z := 32.
Definition kMinRate : Z := 15000000.

(** [1 + ceil(kWheelHorizonUs / kWheelSlotWidthUs)] with
    [kWheelHorizonUs = 1000000 * (kSessionCredits * kMTU) / kMinRate] and a slot
    width of half a microsecond, in exact arithmetic. *)
Definition kWheelNumWslots (kMTU : Z) : nat :=
  Z.to_nat (1 + (2 * 1000000 * (kSessionCredits * kMTU) + kMinRate - 1) / kMinRate).
(** [us_to_cycles] of the two durations at a frequency in Hz, in exact arithmetic. *)
Definition wslot_width_cycles (freq_hz : Z) : Z := freq_hz / 2000000.
Definition horizon_cycles (kMTU freq_hz : Z) : Z := kSessionCredits * kMTU * freq_hz / kMinRate.

Record wheel_ent_t : Type := mk_ent { sslot_ : Z; pkt_num_ : Z }.
#[global] Instance wheel_ent_eq_dec : EqDecision wheel_ent_t.
Proof. solve_decision. Defined.
(** The constructor keeps 48 bits of the pointer and 16 of the packet number. *)
Definition wheel_ent (sslot pkt_num : Z) : wheel_ent_t := mk_ent (sslot mod 2 ^ 48) (pkt_num mod 2 ^ 16).
Definition get_dummy_ent : wheel_ent_t := wheel_ent 3735928559 3185.

Record wheel_bkt_t : Type := mk_bkt {
  num_entries_ : Z;
  tx_tsc_ : Z;
  last_ : nat;
  next_ : option nat;
  entry_ : list wheel_ent_t
}.
Definition wheel_bkt_eta (b : wheel_bkt_t) : wheel_bkt_t :=
  mk_bkt (num_entries_ b) (tx_tsc_ b) (last_ b) (next_ b) (entry_ b).
Definition set_num_entries : Z → wheel_bkt_t → wheel_bkt_t := ltac:(field_update wheel_bkt_eta num_entries_).
Definition set_tx_tsc : Z → wheel_bkt_t → wheel_bkt_t := ltac:(field_update wheel_bkt_eta tx_tsc_).
Definition set_last : nat → wheel_bkt_t → wheel_bkt_t := ltac:(field_update wheel_bkt_eta last_).
Definition set_next_bkt : option nat → wheel_bkt_t → wheel_bkt_t := ltac:(field_update wheel_bkt_eta next_).
Definition set_entry : list wheel_ent_t → wheel_bkt_t → wheel_bkt_t := ltac:(field_update wheel_bkt_eta entry_).

(** [num_entries_] has [kNumBktEntriesBits] bits and [tx_tsc_] the other 61. *)
Definition u3 (z : Z) : Z := z mod 2 ^ 3.
Definition u61 (z : Z) : Z := z mod 2 ^ 61.

(** The pool: its vector of free objects, the back of the vector first. *)
Record MemPool : Type := mk_pool { num_to_alloc_ : nat; pool_ : list nat }.

Record TimingWheel : Type := mk_wheel {
  wslot_width_tsc_ : Z;
  horizon_tsc_ : Z;
  mem : list wheel_bkt_t;
  cur_wslot_ : nat;
  bkt_pool_ : MemPool;
  ready_queue_ : list wheel_ent_t;
  huge_alloc_ : HugeAlloc
}.
Definition TimingWheel_eta (w : TimingWheel) : TimingWheel :=
  mk_wheel (wslot_width_tsc_ w) (horizon_tsc_ w) (mem w) (cur_wslot_ w) (bkt_pool_ w) (ready_queue_ w) (huge_alloc_ w).
Definition set_mem : list wheel_bkt_t → TimingWheel → TimingWheel := ltac:(field_update TimingWheel_eta mem).
Definition set_cur_wslot : nat → TimingWheel → TimingWheel := ltac:(field_update TimingWheel_eta cur_wslot_).
Definition set_bkt_pool : MemPool → TimingWheel → TimingWheel := ltac:(field_update TimingWheel_eta bkt_pool_).
Definition set_ready_queue : list wheel_ent_t → TimingWheel → TimingWheel :=
  ltac:(field_update TimingWheel_eta ready_queue_).
Definition set_huge_alloc : HugeAlloc → TimingWheel → TimingWheel := ltac:(field_update TimingWheel_eta huge_alloc_).

Section wheel.
(** What the operating system answers depends on how many buckets it has given. *)
Context (num_wslots : nat) (os : nat → list shm_answer) (reg_mr_func : Z → Z → Z) (raw : nat → wheel_bkt_t).
Abbreviation W := TimingWheel.

Definition deref_bkt (p : nat) : M W wheel_bkt_t :=
  w ← get; match mem w !! p with Some b => mret b | None => throw UndefinedBehaviour end.
Definition update_bkt (p : nat) (f : wheel_bkt_t → wheel_bkt_t) : M W unit :=
  b ← deref_bkt p; modify (λ w, set_mem (<[p := f b]> (mem w)) w).

(** ** [MemPool<wheel_bkt_t>] *)
Definition sizeof_wheel_bkt : Z := 64.

(** [alloc_raw], unregistered; [rt_assert] throws when there is no memory, as
    [alloc_raw] itself does for other errors. *)
Definition new_memory (n_bkts : nat) (size : Z) (h : HugeAlloc) : outcome HugeAlloc :=
  match alloc_raw reg_mr_func (os n_bkts) size false h with
  | Ok (Some b, h) => if buf_ b =? 0 then Fault Thrown else Ok h
  | Ok (None, _) => Fault Thrown
  | Fault f => Fault f
  end.

Definition extend_pool : M W unit :=
  w ← get;
  let n := num_to_alloc_ (bkt_pool_ w) in
  let base := length (mem w) in
  h ← lift (new_memory base (size_t (sizeof_wheel_bkt * Z.of_nat n)) (huge_alloc_ w));
  modify (set_huge_alloc h) ;;
  modify (λ w, set_mem (mem w ++ (raw <$> seq base n)) w) ;;
  modify (set_bkt_pool (mk_pool (n * 2) (reverse (seq base n) ++ pool_ (bkt_pool_ w)))).

Definition pool_alloc : M W nat :=
  w ← get;
  (match pool_ (bkt_pool_ w) with [] => extend_pool | _ :: _ => mret tt end) ;;
  w ← get;
  match pool_ (bkt_pool_ w) with
  | [] => throw UndefinedBehaviour
  | p :: ps => modify (set_bkt_pool (mk_pool (num_to_alloc_ (bkt_pool_ w)) ps)) ;; mret p
  end.

Definition pool_free (p : nat) : M W unit :=
  modify (λ w, set_bkt_pool (mk_pool (num_to_alloc_ (bkt_pool_ w)) (p :: pool_ (bkt_pool_ w))) w).

(** ** The wheel *)
Definition reset_bkt (p : nat) : M W unit := update_bkt p (λ b, set_num_entries 0 (set_next_bkt None b)).

Definition alloc_bkt : M W nat := p ← pool_alloc; reset_bkt p ;; mret p.

Fixpoint reap_wslot_loop (fuel ws_i : nat) (bkt : option nat) : M W unit :=
  match fuel with
  | O => throw OutOfFuel
  | S fuel =>
      match bkt with
      | None => mret tt
      | Some p =>
          b ← deref_bkt p;
          if num_entries_ b <=? Z.of_nat (length (entry_ b)) then
            modify (λ w, set_ready_queue (ready_queue_ w ++ take (Z.to_nat (num_entries_ b)) (entry_ b)) w) ;;
            let tmp_next := next_ b in
            reset_bkt p ;;
            (if bool_decide (p = ws_i) then mret tt else pool_free p) ;;
            reap_wslot_loop fuel ws_i tmp_next
          else throw UndefinedBehaviour
      end
  end.

(** A chain is no longer than the memory. *)
Definition reap_wslot (ws_i : nat) : M W unit :=
  w ← get;
  reap_wslot_loop (S (length (mem w))) ws_i (Some ws_i) ;;
  update_bkt ws_i (set_last ws_i).

Fixpoint reap_loop (fuel : nat) (reap_tsc : Z) : M W unit :=
  match fuel with
  | O => throw OutOfFuel
  | S fuel =>
      w ← get;
      b ← deref_bkt (cur_wslot_ w);
      if tx_tsc_ b <=? reap_tsc then
        reap_wslot (cur_wslot_ w) ;;
        update_bkt (cur_wslot_ w) (λ b, set_tx_tsc (u61 (tx_tsc_ b + wslot_width_tsc_ w * Z.of_nat num_wslots)) b) ;;
        modify (set_cur_wslot (if bool_decide (S (cur_wslot_ w) = num_wslots) then 0%nat else S (cur_wslot_ w))) ;;
        reap_loop fuel reap_tsc
      else mret tt
  end.

(** One iteration per slot width between the current slot and [reap_tsc]. *)
Definition reap (reap_tsc : Z) : M W unit :=
  w ← get;
  b ← deref_bkt (cur_wslot_ w);
  reap_loop (Z.to_nat (Z.max 0 (reap_tsc - tx_tsc_ b) / wslot_width_tsc_ w + 2)) reap_tsc.

(** [while (wheel_[cur_wslot_].tx_tsc_ < rdtsc()) reap(rdtsc())]: the readings of the
    clock, two per iteration. *)
Fixpoint catchup (clock : list (Z * Z)) : M W unit :=
  match clock with
  | [] => throw OutOfFuel
  | (tsc1, tsc2) :: clock =>
      w ← get;
      b ← deref_bkt (cur_wslot_ w);
      if tx_tsc_ b <? tsc1 then reap tsc2 ;; catchup clock else mret tt
  end.

Definition insert_into_wslot (ws_i : nat) (ent : wheel_ent_t) : M W unit :=
  ws ← deref_bkt ws_i;
  let last_bkt := last_ ws in
  b ← deref_bkt last_bkt;
  assert_ (bool_decide (next_ b = None)) ;;
  assert_ (num_entries_ b <? Z.of_nat kWheelBucketCap) ;;
  entries ← lift (arr_set (entry_ b) (num_entries_ b) ent);
  update_bkt last_bkt (λ b, set_num_entries (u3 (num_entries_ b + 1)) (set_entry entries b)) ;;
  b ← deref_bkt last_bkt;
  if num_entries_ b =? Z.of_nat kWheelBucketCap then
    new_bkt ← alloc_bkt;
    update_bkt last_bkt (set_next_bkt (Some new_bkt)) ;;
    update_bkt ws_i (set_last new_bkt)
  else mret tt.

Definition wheel_insert (ent : wheel_ent_t) (ref_tsc desired_tx_tsc : Z) : M W unit :=
  assert_ (ref_tsc <=? desired_tx_tsc) ;;
  w ← get;
  assert_ (desired_tx_tsc - ref_tsc <=? horizon_tsc_ w) ;;
  reap ref_tsc ;;
  w ← get;
  b ← deref_bkt (cur_wslot_ w);
  assert_ (ref_tsc <? tx_tsc_ b) ;;
  dst_wslot ←
    (if desired_tx_tsc <=? tx_tsc_ b then mret (cur_wslot_ w)
     else
       let wslot_delta := 1 + (desired_tx_tsc - tx_tsc_ b) / wslot_width_tsc_ w in
       assert_ (wslot_delta <? Z.of_nat num_wslots) ;;
       let dst := (cur_wslot_ w + Z.to_nat wslot_delta)%nat in
       mret (if bool_decide (num_wslots ≤ dst)%nat then (dst - num_wslots)%nat else dst));
  insert_into_wslot dst_wslot ent.

(** The constructor, at time [base_tsc]. *)
Definition new_wheel (h : HugeAlloc) (wslot_width horizon base_tsc : Z) : outcome W :=
  h ← new_memory 0 (size_t (Z.of_nat num_wslots * sizeof_wheel_bkt)) h;
  Ok (mk_wheel wslot_width horizon
        ((λ ws_i, set_last ws_i (set_tx_tsc (u61 (base_tsc + (Z.of_nat ws_i + 1) * wslot_width))
                     (set_num_entries 0 (set_next_bkt None (raw ws_i))))) <$> seq 0 num_wslots)
        0 (mk_pool (Z.to_nat (MB 2 / sizeof_wheel_bkt)) []) [] h).
End wheel.
