(* ===== verification/TimingWheelSpec.v ===== *)
(** * The timing wheel is a calendar of slots

    The invariant [wheel_inv]: slot [j] from the current one is due at
    [start + j * width] and holds the entries [slots !! j], in the order they were
    inserted, spread over its chain of buckets; the buckets of the pool are shared
    out between the chains and the pool.  Reaping takes slots off the front,
    inserting appends to one slot. *)

From S2P Require Import Prelude FixedTableSpec HugeAlloc TimingWheel.

(** ** Returning a chain, and growing the pool *)
Lemma layout_release_all {nb ne chains free} p c :
  layout nb ne chains free → chains !! p = Some c → layout nb ne (<[p := []]> chains) (reverse c ++ free).
Proof.
  intros L Hc. split; [rewrite length_insert; apply L|]. rewrite <- (lay_own _ _ _ _ L).
  rewrite (concat_insert _ _ [] Hc), (concat_split _ _ Hc), (reverse_Permutation c). cbn.
  by rewrite <- app_assoc, Permutation_app_swap_app.
Qed.
Lemma layout_extend {nb ne chains free} k :
  layout nb ne chains free → layout nb (ne + k) chains (reverse (seq (nb + ne) k) ++ free).
Proof.
  intros L. split; [apply L|]. rewrite seq_app, <- (lay_own _ _ _ _ L), (reverse_Permutation (seq _ _)).
  rewrite <- (app_assoc _ free). by rewrite Permutation_app_comm.
Qed.

(** ** The chain of buckets of one slot: full up to the last bucket. *)
Inductive wchain (m : list wheel_bkt_t) : list nat → list wheel_ent_t → Prop :=
| wchain_last q b :
    m !! q = Some b → next_ b = None → 0 ≤ num_entries_ b < Z.of_nat kWheelBucketCap →
    wchain m [q] (take (Z.to_nat (num_entries_ b)) (entry_ b))
| wchain_cons q b r l es :
    m !! q = Some b → next_ b = Some r → num_entries_ b = Z.of_nat kWheelBucketCap →
    wchain m (r :: l) es → wchain m (q :: r :: l) (take kWheelBucketCap (entry_ b) ++ es).

Definition reset_of (b : wheel_bkt_t) : wheel_bkt_t := set_num_entries 0 (set_next_bkt None b).
Definition entries_ok (m : list wheel_bkt_t) : Prop := ∀ q b, m !! q = Some b → length (entry_ b) = kWheelBucketCap.

(** Agreement on some positions. *)
Definition agree_on (P : nat → Prop) (m m' : list wheel_bkt_t) : Prop := ∀ q, P q → m' !! q = m !! q.
Lemma wchain_agree m m' l es : wchain m l es → agree_on (.∈ l) m m' → wchain m' l es.
Proof.
  induction 1 as [q b Hb Hn Hk|q b r l es Hb Hn Hk Hl IH]; intros Ha.
  - apply wchain_last; [rewrite Ha by set_solver|..]; done.
  - apply wchain_cons; try done; [by rewrite Ha by set_solver|]. apply IH. intros q' Hq'. apply Ha. set_solver.
Qed.
Lemma wchain_lookup m l es q : wchain m l es → q ∈ l → ∃ b, m !! q = Some b.
Proof.
  induction 1 as [q' b Hb|q' b r l es Hb Hn Hk Hl IH]; intros Hq; [|apply elem_of_cons in Hq as [->|Hq]; eauto].
  apply list_elem_of_singleton in Hq as ->. eauto.
Qed.
Lemma wchain_head m l es : wchain m l es → ∃ q l', l = q :: l'.
Proof. inversion 1; eauto. Qed.
(** Changes that keep what the chain is read from. *)
Lemma wchain_touch m l es q b b' :
  wchain m l es → m !! q = Some b → next_ b' = next_ b → num_entries_ b' = num_entries_ b → entry_ b' = entry_ b →
  wchain (<[q := b']> m) l es.
Proof.
  intros H Hb Hn Hk He. assert (Hlt : (q < length m)%nat) by by eapply lookup_lt_Some.
  induction H as [r c Hc Hcn Hck|r c s l es Hc Hcn Hck Hl IH];
    (destruct (decide (q = r)) as [->|Hne]; [simplify_eq|]).
  - rewrite <- Hk, <- He. apply wchain_last; [by apply list_lookup_insert_eq|congruence|by rewrite Hk].
  - apply wchain_last; [by rewrite list_lookup_insert_ne|done..].
  - rewrite <- He. eapply wchain_cons; [by apply list_lookup_insert_eq|congruence..|done].
  - eapply wchain_cons; [by rewrite list_lookup_insert_ne|done..].
Qed.

(** Adding an entry to the last bucket, with room to spare or filling it. *)
Lemma take_insert_snoc {A} n (l : list A) x : (n < length l)%nat → take (S n) (<[n := x]> l) = take n l ++ [x].
Proof.
  intros Hn. rewrite (take_S_r _ _ x) by by apply list_lookup_insert_eq. by rewrite take_insert_ge.
Qed.
Lemma wchain_snoc m m' l es q b b' e :
  wchain m l es → NoDup l → last l = Some q → m !! q = Some b → length (entry_ b) = kWheelBucketCap →
  num_entries_ b + 1 < Z.of_nat kWheelBucketCap →
  m' !! q = Some b' → next_ b' = next_ b → num_entries_ b' = num_entries_ b + 1 →
  entry_ b' = <[Z.to_nat (num_entries_ b) := e]> (entry_ b) →
  (∀ r, r ∈ l → r ≠ q → m' !! r = m !! r) → wchain m' l (es ++ [e]).
Proof.
  intros H HN Hlast Hb Hlen Hroom Hb' Hn Hk He Ha. revert HN Hlast Ha.
  induction H as [r c Hc Hcn Hck|r c s l es Hc Hcn Hck Hl IH]; intros HN Hlast Ha.
  - injection Hlast as ->. simplify_eq. rewrite <- take_insert_snoc by lia.
    replace (S (Z.to_nat (num_entries_ c))) with (Z.to_nat (num_entries_ b')) by lia. rewrite <- He.
    apply wchain_last; [done|congruence|lia].
  - apply NoDup_cons in HN as [Hr HN]. rewrite last_cons_cons in Hlast.
    assert (r ≠ q) by (intros ->; apply last_Some_elem_of in Hlast; done).
    rewrite <- app_assoc. eapply wchain_cons; [rewrite Ha; [done|left|done]|done..|].
    apply IH; [done|done|]. intros u Hu. apply Ha. by right.
Qed.
Lemma wchain_snoc_full m m' l es q b b' e p bp :
  wchain m l es → NoDup l → last l = Some q → m !! q = Some b → length (entry_ b) = kWheelBucketCap →
  num_entries_ b + 1 = Z.of_nat kWheelBucketCap →
  m' !! q = Some b' → next_ b' = Some p → num_entries_ b' = num_entries_ b + 1 →
  entry_ b' = <[Z.to_nat (num_entries_ b) := e]> (entry_ b) →
  m' !! p = Some bp → next_ bp = None → num_entries_ bp = 0 →
  (∀ r, r ∈ l → r ≠ q → m' !! r = m !! r) → wchain m' (l ++ [p]) (es ++ [e]).
Proof.
  intros H HN Hlast Hb Hlen Hroom Hb' Hn Hk He Hbp Hbn Hbk Ha. revert HN Hlast Ha.
  induction H as [r c Hc Hcn Hck|r c s l es Hc Hcn Hck Hl IH]; intros HN Hlast Ha.
  - injection Hlast as ->. simplify_eq. rewrite <- take_insert_snoc by lia. rewrite <- He.
    replace (S (Z.to_nat (num_entries_ c))) with kWheelBucketCap by lia. rewrite <- (app_nil_r (take kWheelBucketCap (entry_ b'))).
    eapply wchain_cons; [done|done|lia|]. replace [] with (take (Z.to_nat (num_entries_ bp)) (entry_ bp)) by by rewrite Hbk.
    apply wchain_last; [done|done|]. rewrite Hbk. cbn. lia.
  - apply NoDup_cons in HN as [Hr HN]. rewrite last_cons_cons in Hlast.
    assert (r ≠ q) by (intros ->; apply last_Some_elem_of in Hlast; done).
    rewrite <- app_assoc. eapply wchain_cons; [rewrite Ha; [done|left|done]|done..|].
    apply IH; [done|done|]. intros u Hu. apply Ha. by right.
Qed.
(** The last bucket has room. *)
Lemma wchain_last_bucket m l es :
  wchain m l es → ∃ q b, last l = Some q ∧ m !! q = Some b ∧ next_ b = None ∧ 0 ≤ num_entries_ b < Z.of_nat kWheelBucketCap.
Proof.
  induction 1 as [r c Hc Hcn Hck|r c s l es Hc Hcn Hck Hl IH]; [by exists r, c|]. by rewrite last_cons_cons.
Qed.

(** The operating system has no memory, or the code throws on its answer. *)
Definition refuses (a : shm_answer) : Prop := match a with Shm _ buf mbind_ok => buf = 0 ∨ mbind_ok = false | _ => True end.
Lemma new_memory_spec os reg n size h a :
  shm_loop (os n) = Ok a → (new_memory os reg n size h = Fault Thrown ∧ refuses a) ∨ ∃ h', new_memory os reg n size h = Ok h'.
Proof.
  intros Ha. unfold new_memory, alloc_raw. cbv [mbind M_bind lift]. rewrite Ha. destruct a as [| | | | |key buf ok]; cbn; try by left.
  destruct (Z.eqb_spec buf 0) as [E|E]; cbn; [by left; split; [|left]|]. destruct ok; cbn; [|by left; split; [|right]].
  rewrite (proj2 (Z.eqb_neq _ _) E). right. by eexists.
Qed.

Section ops.
Context (N : nat) (os : nat → list shm_answer) (reg : Z → Z → Z) (raw : nat → wheel_bkt_t).
Implicit Types (w : TimingWheel) (es : list wheel_ent_t) (q s : nat).

(** ** Primitive steps *)
Lemma wp_deref_bkt q b Q w : mem w !! q = Some b → Q b w → wp (deref_bkt q) Q w.
Proof. intros Hb HQ. unfold deref_bkt. do 2 wstep. by rewrite Hb. Qed.
Lemma wp_update_bkt q b f Q w :
  mem w !! q = Some b → Q tt (set_mem (<[q := f b]> (mem w)) w) → wp (update_bkt q f) Q w.
Proof. intros Hb HQ. unfold update_bkt. wstep. eapply wp_deref_bkt; [done|]. by wstep. Qed.

(** ** Reaping a slot *)

(** The effect of [reap_wslot_loop] along a chain: its buckets are reset, and those
    other than the slot itself go back to the pool. *)
Definition reaped (l freed : list nat) es w w' : Prop :=
  w' = set_ready_queue (ready_queue_ w ++ es)
         (set_bkt_pool (mk_pool (num_to_alloc_ (bkt_pool_ w)) (reverse freed ++ pool_ (bkt_pool_ w)))
            (set_mem (mem w') w)) ∧
  length (mem w') = length (mem w) ∧
  agree_on (.∉ l) (mem w) (mem w') ∧
  ∀ q, q ∈ l → ∃ b, mem w !! q = Some b ∧ mem w' !! q = Some (reset_of b).

Lemma wp_reap_wslot_loop fuel s l es w :
  wchain (mem w) l es → entries_ok (mem w) → NoDup l → (length l < fuel)%nat →
  wp (reap_wslot_loop fuel s (head l)) (λ _ w', reaped l (filter (λ q, q ≠ s) l) es w w') w.
Proof.
  revert l es w. induction fuel as [|fuel IH]; intros l es w Hl Hent HN Hfuel; [lia|].
  assert (∃ q b l' es', l = q :: l' ∧ mem w !! q = Some b ∧ next_ b = head l' ∧
    0 ≤ num_entries_ b ≤ Z.of_nat kWheelBucketCap ∧ es = take (Z.to_nat (num_entries_ b)) (entry_ b) ++ es' ∧
    (l' = [] ∧ es' = [] ∨ wchain (mem w) l' es')) as (q & b & l' & es' & -> & Hb & Hn & Hk & -> & Hrest).
  { inversion Hl as [q b Hb Hn Hk|q b r l1 es1 Hb Hn Hk Hl1]; subst.
    - exists q, b, [], []. rewrite app_nil_r. naive_solver lia.
    - exists q, b, (r :: l1), es1. rewrite Hk, Nat2Z.id. naive_solver lia. }
  apply NoDup_cons in HN as [Hq HN]. cbn [reap_wslot_loop head]. wstep. eapply wp_deref_bkt; [done|].
  rewrite (Hent q b Hb), (proj2 (Z.leb_le _ _)) by lia. do 2 wstep.
  wstep. unfold reset_bkt. eapply wp_update_bkt; [done|]. fold (reset_of b).
  set (w1 := set_mem _ _).
  assert (Hgo : ∀ w2 freed1, w2 = set_bkt_pool (mk_pool (num_to_alloc_ (bkt_pool_ w)) (reverse freed1 ++ pool_ (bkt_pool_ w))) w1 →
    filter (λ q, q ≠ s) (q :: l') = freed1 ++ filter (λ q, q ≠ s) l' →
    wp (reap_wslot_loop fuel s (next_ b))
      (λ _ w', reaped (q :: l') (filter (λ q, q ≠ s) (q :: l')) (take (Z.to_nat (num_entries_ b)) (entry_ b) ++ es') w w') w2).
  { intros w2 freed1 Hw2 Hfreed.
    assert (Hlt : (q < length (mem w))%nat) by by eapply lookup_lt_Some.
    assert (Hm2 : mem w2 = <[q := reset_of b]> (mem w)) by by rewrite Hw2.
    rewrite Hn. destruct Hrest as [[-> ->]|Hrest].
    - destruct fuel; [cbn in Hfuel; lia|]. cbn [head reap_wslot_loop]. wstep. rewrite Hfreed. split_and!.
      + rewrite Hm2. subst w2 w1. by rewrite !app_nil_r.
      + by rewrite Hm2, length_insert.
      + intros r Hr. rewrite Hm2, list_lookup_insert_ne; [done|]. set_solver.
      + intros r ->%list_elem_of_singleton. exists b. by rewrite Hm2, list_lookup_insert_eq.
    - eapply wq_mono; [apply (IH l' es' w2)|].
      + eapply wchain_agree; [done|]. intros r Hr. rewrite Hm2, list_lookup_insert_ne; [done|]. set_solver.
      + intros r c. rewrite Hm2. intros [(-> & <- & _)|[_ Hc]]%list_lookup_insert_Some; [by apply (Hent r b)|by apply (Hent r)].
      + done.
      + cbn in Hfuel. lia.
      + intros [] w' (Hw' & Hlen & Hout & Hin). split_and!.
        * rewrite Hw', Hfreed. subst w2 w1. cbn. by rewrite reverse_app, !app_assoc.
        * by rewrite Hlen, Hm2, length_insert.
        * intros r Hr. rewrite Hout by set_solver. rewrite Hm2, list_lookup_insert_ne; [done|]. set_solver.
        * intros r [->|Hr]%elem_of_cons.
          -- exists b. rewrite Hout by done. by rewrite Hm2, list_lookup_insert_eq.
          -- destruct (Hin r Hr) as (c & Hc & Hc'). rewrite Hm2, list_lookup_insert_ne in Hc by set_solver. eauto. }
  wstep. destruct (decide (q = s)) as [->|Hne].
  - rewrite bool_decide_eq_true_2 by done. apply wq_ret. apply (Hgo w1 []); [by subst w1; destruct w as [? ? ? ? []]|].
    by rewrite filter_cons_False by naive_solver.
  - rewrite bool_decide_eq_false_2 by done. apply wq_modify. apply (Hgo _ [q]); [by subst w1|]. by rewrite filter_cons_True.
Qed.

(** ** The invariant *)

(** The position of slot [j] from the current one. *)
Definition pos (cur j : nat) : nat := if bool_decide (cur + j < N)%nat then (cur + j)%nat else (cur + j - N)%nat.
Lemma pos_lt cur j : (cur < N)%nat → (j < N)%nat → (pos cur j < N)%nat.
Proof. unfold pos. case_bool_decide; lia. Qed.
Lemma pos_0 cur : (cur < N)%nat → pos cur 0 = cur.
Proof. unfold pos. case_bool_decide; lia. Qed.
Lemma pos_inj cur j j' : (cur < N)%nat → (j < N)%nat → (j' < N)%nat → pos cur j = pos cur j' → j = j'.
Proof. unfold pos. repeat case_bool_decide; lia. Qed.

Definition slot_ok (m : list wheel_bkt_t) (chains : list (list nat)) s (tx : Z) es : Prop :=
  ∃ b c, m !! s = Some b ∧ tx_tsc_ b = tx ∧ chains !! s = Some c ∧ last (s :: c) = Some (last_ b) ∧ wchain m (s :: c) es.

Record wheel_inv (P : nat) (start : Z) (slots : list (list wheel_ent_t)) (chains : list (list nat)) w : Prop := {
  wi_width : 0 < wslot_width_tsc_ w;
  wi_layout : layout N P chains (pool_ (bkt_pool_ w));
  wi_mem : length (mem w) = (N + P)%nat;
  wi_entries : entries_ok (mem w);
  wi_cur : (cur_wslot_ w < N)%nat;
  wi_alloc : (0 < num_to_alloc_ (bkt_pool_ w))%nat;
  wi_slots : length slots = N;
  wi_slot j es : slots !! j = Some es →
    slot_ok (mem w) chains (pos (cur_wslot_ w) j) (start + Z.of_nat j * wslot_width_tsc_ w) es
}.

Lemma slot_ok_agree m m' chains chains' s tx es c :
  slot_ok m chains s tx es → chains !! s = Some c → chains' !! s = Some c → agree_on (.∈ s :: c) m m' →
  slot_ok m' chains' s tx es.
Proof.
  intros (b & c' & Hb & Htx & Hc' & Hlast & Hch) Hc Hcs Ha. assert (c' = c) as -> by congruence. exists b, c. split_and!; try done.
  - rewrite Ha; [done|]. left.
  - by eapply wchain_agree.
Qed.

(** Changing what belongs to slot [i] leaves the other slots. *)
Lemma slots_frame P start slots chains w i c m' chains' j es :
  wheel_inv P start slots chains w → (i < N)%nat → chains !! pos (cur_wslot_ w) i = Some c →
  (∀ q, q ≠ pos (cur_wslot_ w) i → q ∉ c → q ∉ pool_ (bkt_pool_ w) → (q < N + P)%nat → m' !! q = mem w !! q) →
  (∀ s, s ≠ pos (cur_wslot_ w) i → chains' !! s = chains !! s) →
  slots !! j = Some es → j ≠ i →
  slot_ok m' chains' (pos (cur_wslot_ w) j) (start + Z.of_nat j * wslot_width_tsc_ w) es.
Proof.
  intros I Hi Hc Hm Hch Hj Hne. pose proof (wi_layout _ _ _ _ _ I) as L. pose proof (wi_cur _ _ _ _ _ I) as Hcur.
  assert (HjN : (j < N)%nat) by (rewrite <- (wi_slots _ _ _ _ _ I); by eapply lookup_lt_Some).
  pose proof (wi_slot _ _ _ _ _ I j es Hj) as Hok. pose proof Hok as (b & cj & _ & _ & Hcj & _ & Hwch).
  assert (Hpos : pos (cur_wslot_ w) j ≠ pos (cur_wslot_ w) i) by (intros E; by apply pos_inj in E).
  eapply slot_ok_agree; [done|done|by rewrite Hch|]. intros q Hq. pose proof (layout_disjoint L _ _ _ _ q Hcj Hc Hpos Hq) as Hd.
  apply not_elem_of_cons in Hd as [Hd1 Hd2]. apply Hm; [done..|by eapply (layout_free L)|].
  rewrite <- (wi_mem _ _ _ _ _ I). destruct (wchain_lookup _ _ _ q Hwch Hq) as [b' Hb']. by eapply lookup_lt_Some.
Qed.

(** ** Reaping the current slot *)
Definition same_conf w w' : Prop :=
  wslot_width_tsc_ w' = wslot_width_tsc_ w ∧ horizon_tsc_ w' = horizon_tsc_ w.

Lemma wp_reap_wslot P start es slots chains w :
  wheel_inv P start (es :: slots) chains w →
  wp (reap_wslot (cur_wslot_ w)) (λ _ w',
    wheel_inv P start ([] :: slots) (<[cur_wslot_ w := []]> chains) w' ∧
    ready_queue_ w' = ready_queue_ w ++ es ∧ cur_wslot_ w' = cur_wslot_ w ∧ same_conf w w') w.
Proof.
  intros I. pose proof (wi_layout _ _ _ _ _ I) as L. pose proof (wi_cur _ _ _ _ _ I) as Hcur.
  pose proof (wi_slot _ _ _ _ _ I 0%nat es eq_refl) as (b & c & Hb & Htx & Hc & Hlast & Hch).
  rewrite pos_0 in Hb, Hc, Hlast, Hch by done. set (s := cur_wslot_ w) in *.
  destruct (layout_chain L s c Hc) as (_ & HN & Hr). unfold reap_wslot. do 3 wstep.
  eapply wq_mono; [apply (wp_reap_wslot_loop _ s (s :: c) es); [done|apply I|done|]|].
  { rewrite (wi_mem _ _ _ _ _ I). pose proof (layout_length L s c Hc). lia. }
  intros [] w1 (Hw1 & Hlen & Hout & Hin). destruct (Hin s) as (b0 & Hb0 & Hb1); [left|]. simplify_eq.
  eapply wp_update_bkt; [done|].
  assert (Hfreed : filter (λ q, q ≠ s) (s :: c) = c).
  { rewrite filter_cons_False by naive_solver. apply filter_all. intros q Hq. apply NoDup_cons in HN as [HN _]. by intros ->. }
  rewrite Hfreed in Hw1. assert (Hlt : (s < length (mem w1))%nat) by by eapply lookup_lt_Some.
  destruct w1 as [ww hz m1 cur1 pool1 rq1]. cbn in Hw1, Hlen, Hout, Hin, Hb1, Hlt. injection Hw1 as -> -> -> -> ->.
  split; [|done]. split; cbn [mem bkt_pool_ wslot_width_tsc_ cur_wslot_ set_mem].
  - apply I.
  - by apply layout_release_all.
  - rewrite length_insert, Hlen. apply I.
  - intros q d [(<- & <- & _)|[_ Hd]]%list_lookup_insert_Some; [by apply (wi_entries _ _ _ _ _ I s b)|].
    destruct (decide (q ∈ s :: c)) as [Hq|Hq].
    + destruct (Hin q Hq) as (d0 & Hd0 & Hd'). cbn in Hd. simplify_eq. by apply (wi_entries _ _ _ _ _ I q d0).
    + rewrite (Hout q Hq) in Hd. by apply (wi_entries _ _ _ _ _ I q d).
  - done.
  - apply I.
  - apply (wi_slots _ _ _ _ _ I).
  - intros [|j] es' Hj.
    + injection Hj as <-. rewrite pos_0 by done. exists (set_last s (reset_of b)), [].
      rewrite list_lookup_insert_eq by done. split_and!; try done.
      * apply list_lookup_insert_eq. by eapply lookup_lt_Some.
      * apply (wchain_last _ _ (set_last s (reset_of b))); [by rewrite list_lookup_insert_eq|done|done].
    + eapply (slots_frame P start (es :: slots) chains w 0 c); try done; [lia|by rewrite pos_0|..].
      * rewrite pos_0 by done. intros q Hq1 Hq2 _ _. rewrite list_lookup_insert_ne by done. apply Hout. set_solver.
      * rewrite pos_0 by done. intros q Hq. by rewrite list_lookup_insert_ne.
Qed.

(** The entries of the wheel with the time their slot is due, in the order of time. *)
Fixpoint flat (width start : Z) (slots : list (list wheel_ent_t)) : list (Z * wheel_ent_t) :=
  match slots with
  | [] => []
  | es :: slots => ((start,.) <$> es) ++ flat width (start + width) slots
  end.
Lemma flat_turn width start slots : flat width start (slots ++ [[]]) = flat width start slots.
Proof. revert start. induction slots as [|es slots IH]; intros start; cbn; [done|]. by rewrite IH. Qed.

(** Moving the current slot, emptied, to the end of the wheel. *)
Lemma inv_turn P start slots chains w b :
  wheel_inv P start ([] :: slots) chains w → mem w !! cur_wslot_ w = Some b →
  wheel_inv P (start + wslot_width_tsc_ w) (slots ++ [[]]) chains
    (set_cur_wslot (if bool_decide (S (cur_wslot_ w) = N) then 0%nat else S (cur_wslot_ w))
       (set_mem (<[cur_wslot_ w := set_tx_tsc (start + wslot_width_tsc_ w * Z.of_nat N) b]> (mem w)) w)).
Proof.
  intros I Hb. pose proof (wi_cur _ _ _ _ _ I) as Hcur. pose proof (wi_slots _ _ _ _ _ I) as Hlen. cbn in Hlen.
  set (s := cur_wslot_ w) in *. set (cur' := if bool_decide (S s = N) then 0%nat else S s).
  assert (Hcur' : (cur' < N)%nat) by (unfold cur'; case_bool_decide; lia).
  assert (Hpos : ∀ j, (j < N)%nat → pos cur' j = if bool_decide (S j = N) then s else pos s (S j)).
  { intros j Hj. unfold cur', pos. repeat case_bool_decide; lia. }
  split; cbn [mem bkt_pool_ wslot_width_tsc_ cur_wslot_ set_mem set_cur_wslot]; try apply I.
  - by rewrite length_insert, (wi_mem _ _ _ _ _ I).
  - intros q d [(<- & <- & _)|[_ Hd]]%list_lookup_insert_Some; [by apply (wi_entries _ _ _ _ _ I s b)|by apply (wi_entries _ _ _ _ _ I q)].
  - done.
  - rewrite length_app. cbn. lia.
  - intros j es Hj. assert (HjN : (j < N)%nat) by (apply lookup_lt_Some in Hj; rewrite length_app in Hj; cbn in Hj; lia).
    rewrite Hpos by done. apply lookup_app_Some in Hj as [Hj|[Hge Hj]].
    + assert (S j ≠ N) by (apply lookup_lt_Some in Hj; lia). rewrite bool_decide_eq_false_2 by done.
      assert (Hj' : ([] :: slots) !! S j = Some es) by done.
      destruct (wi_slot _ _ _ _ _ I (S j) es Hj') as (b' & c & Hb' & Htx & Hc & Hlast & Hch). fold s in Hb', Hc, Hlast, Hch.
      assert (Hne : pos s (S j) ≠ s).
      { rewrite <- (pos_0 s Hcur) at 2. intros E. apply pos_inj in E; lia. }
      exists b', c. rewrite list_lookup_insert_ne by done. split_and!; try done; [lia|]. by eapply wchain_touch.
    + apply list_lookup_singleton_Some in Hj as [Hj <-]. rewrite bool_decide_eq_true_2 by lia.
      destruct (wi_slot _ _ _ _ _ I 0%nat [] eq_refl) as (b' & c & Hb' & Htx & Hc & Hlast & Hch). fold s in Hb', Hc, Hlast, Hch.
      rewrite pos_0 in * by done. simplify_eq.
      exists (set_tx_tsc (start + wslot_width_tsc_ w * Z.of_nat N) b), c.
      rewrite list_lookup_insert_eq by by eapply lookup_lt_Some. assert (Z.of_nat N = Z.of_nat j + 1) as HN by lia. split_and!; try done; [cbn; rewrite HN; lia|by eapply wchain_touch].
Qed.

Lemma wp_reap_loop fuel t P start slots chains w :
  wheel_inv P start slots chains w → 0 ≤ start → t + (Z.of_nat N + 1) * wslot_width_tsc_ w < 2 ^ 61 →
  (0 < fuel)%nat → t < start + (Z.of_nat fuel - 1) * wslot_width_tsc_ w →
  wp (reap_loop N fuel t) (λ _ w', ∃ start' slots' chains' moved,
    wheel_inv P start' slots' chains' w' ∧
    flat (wslot_width_tsc_ w) start slots = moved ++ flat (wslot_width_tsc_ w) start' slots' ∧
    ready_queue_ w' = ready_queue_ w ++ moved.*2 ∧ Forall (λ d, d.1 ≤ t) moved ∧
    t < start' ∧ start ≤ start' ∧ start' ≤ Z.max start (t + wslot_width_tsc_ w) ∧ same_conf w w') w.
Proof.
  revert P start slots chains w. induction fuel as [|fuel IH]; intros P start slots chains w I Hs Hb Hpos Hf; [lia|].
  pose proof (wi_width _ _ _ _ _ I) as Hw. pose proof (wi_cur _ _ _ _ _ I) as Hcur.
  destruct slots as [|es slots]; [pose proof (wi_slots _ _ _ _ _ I); cbn in *; lia|].
  destruct (wi_slot _ _ _ _ _ I 0%nat es eq_refl) as (b & c & Hbk & Htx & Hc & _ & _). rewrite pos_0 in Hbk, Hc by done.
  rewrite Z.add_0_r in Htx. cbn [reap_loop]. do 3 wstep. eapply wp_deref_bkt; [done|]. rewrite Htx.
  destruct (Z.leb_spec start t).
  - wstep. eapply wq_mono; [by eapply wp_reap_wslot|]. intros [] w1 (I1 & Hr1 & Hc1 & Hcw & Hch).
    destruct (wi_slot _ _ _ _ _ I1 0%nat [] eq_refl) as (b1 & c1 & Hb1 & Htx1 & _). rewrite Hc1, pos_0 in Hb1 by done.
    wstep. eapply wp_update_bkt; [done|]. rewrite Htx1, Z.add_0_r. unfold u61. rewrite Z.mod_small by nia. wstep. wstep.
    rewrite <- Hc1 in Hb1. assert (I2 := inv_turn _ _ _ _ _ _ I1 Hb1). rewrite Hc1, Hcw in I2.
    eapply wq_mono; [apply (IH _ _ _ _ _ I2); cbn; rewrite ?Hcw; try lia; nia|].
    intros [] w2 (start' & slots' & chains' & moved & I3 & Hflat & Hr3 & Hmoved & Ht & Hle & Hmax & Hcw3 & Hch3).
    cbn in Hflat, Hr3, Hmax, Hcw3, Hch3. rewrite Hcw in *. rewrite flat_turn in Hflat.
    exists start', slots', chains', (((start,.) <$> es) ++ moved). split_and!; try done; try lia; try congruence.
    + cbn [flat]. by rewrite Hflat, app_assoc.
    + rewrite Hr3, Hr1, fmap_app, <- list_fmap_compose. cbn. rewrite list_fmap_id. by rewrite app_assoc.
    + apply Forall_app. split; [|done]. apply Forall_fmap, Forall_true. intros e. cbn. done.
    + split; congruence.
  - wstep. exists start, (es :: slots), chains, []. split_and!; try done; [by rewrite app_nil_r|lia].
Qed.

Lemma wp_reap t P start slots chains w :
  wheel_inv P start slots chains w → 0 ≤ start → t + (Z.of_nat N + 1) * wslot_width_tsc_ w < 2 ^ 61 →
  wp (reap N t) (λ _ w', ∃ start' slots' chains' moved,
    wheel_inv P start' slots' chains' w' ∧
    flat (wslot_width_tsc_ w) start slots = moved ++ flat (wslot_width_tsc_ w) start' slots' ∧
    ready_queue_ w' = ready_queue_ w ++ moved.*2 ∧ Forall (λ d, d.1 ≤ t) moved ∧
    t < start' ∧ start ≤ start' ∧ start' ≤ Z.max start (t + wslot_width_tsc_ w) ∧ same_conf w w') w.
Proof.
  intros I Hs Hb. pose proof (wi_width _ _ _ _ _ I) as Hw. pose proof (wi_cur _ _ _ _ _ I) as Hcur.
  destruct slots as [|es slots]; [pose proof (wi_slots _ _ _ _ _ I); cbn in *; lia|].
  destruct (wi_slot _ _ _ _ _ I 0%nat es eq_refl) as (b & c & Hbk & Htx & _). rewrite pos_0 in Hbk by done.
  unfold reap. do 3 wstep. eapply wp_deref_bkt; [done|]. rewrite Htx, Z.add_0_r.
  assert (0 ≤ Z.max 0 (t - start) / wslot_width_tsc_ w) by (apply Z.div_pos; lia).
  apply wp_reap_loop with (P := P) (chains := chains); try done; [lia|].
  pose proof (Z.mul_succ_div_gt (Z.max 0 (t - start)) (wslot_width_tsc_ w) Hw). nia.
Qed.

(** ** Inserting *)
(** The system does not say for ever that a key is in use; only its refusals of memory
    end a run. *)
Context (Hos : ∀ n, ∃ a, shm_loop (os n) = Ok a).
Definition out_of_memory (f : fault) : Prop := f = Thrown ∧ ∃ n a, shm_loop (os n) = Ok a ∧ refuses a.
Lemma wq_new_memory n size h (Q : HugeAlloc → TimingWheel → Prop) w :
  (∀ h', Q h' w) → wq out_of_memory (lift (new_memory os reg n size h)) Q w.
Proof.
  intros HQ. destruct (Hos n) as (a & Ha). destruct (new_memory_spec os reg n size h a Ha) as [[E Hr]|(h' & E)]; apply wq_lift; rewrite E.
  - intros f [= <-]. split; [done|]. by exists n, a.
  - done.
  - done.
  - by intros ? [= <-].
Qed.
Context (Hraw : ∀ a, length (entry_ (raw a)) = kWheelBucketCap).

Lemma wp_alloc_bkt P chains w Q :
  layout N P chains (pool_ (bkt_pool_ w)) → length (mem w) = (N + P)%nat → entries_ok (mem w) →
  (0 < num_to_alloc_ (bkt_pool_ w))%nat →
  (∀ P' p free' n m' bp, layout N P' chains (p :: free') → length m' = (N + P')%nat → entries_ok m' → (0 < n)%nat →
     m' !! p = Some bp → next_ bp = None → num_entries_ bp = 0 →
     (∀ q, (q < N + P)%nat → q ≠ p → m' !! q = mem w !! q) →
     ∀ h, Q p (set_bkt_pool (mk_pool n free') (set_mem m' (set_huge_alloc h w)))) →
  wq out_of_memory (alloc_bkt os reg raw) Q w.
Proof.
  intros L Hlen Hent Hn HQ. unfold alloc_bkt. wstep.
  assert (Hpop : ∀ P' m' p free' n h w1, w1 = set_bkt_pool (mk_pool n (p :: free')) (set_mem m' (set_huge_alloc h w)) →
    layout N P' chains (p :: free') → length m' = (N + P')%nat → entries_ok m' → (0 < n)%nat →
    (∀ q, (q < N + P)%nat → m' !! q = mem w !! q) →
    wq out_of_memory (w ← get; match pool_ (bkt_pool_ w) with
        | [] => throw UndefinedBehaviour
        | p :: ps => modify (set_bkt_pool (mk_pool (num_to_alloc_ (bkt_pool_ w)) ps)) ;; mret p
        end) (λ p w', wq out_of_memory (reset_bkt p ;; mret p) Q w') w1).
  { intros P' m' p free' n h w1 -> L' Hlen' Hent' Hn' Hm. do 2 wstep. cbn [pool_ bkt_pool_ set_bkt_pool]. do 3 wstep.
    assert (Hp : (N ≤ p < N + P')%nat) by (apply (layout_range L'); left).
    destruct (lookup_lt_is_Some_2 m' p) as [bp Hbp]; [lia|].
    wstep. unfold reset_bkt. eapply wp_wq, wp_update_bkt; [exact Hbp|]. wstep.
    assert (Hfacts : ∃ m2, m2 = <[p := reset_of bp]> m' ∧ length m2 = (N + P')%nat ∧ entries_ok m2 ∧
      m2 !! p = Some (reset_of bp) ∧ ∀ q, (q < N + P)%nat → q ≠ p → m2 !! q = mem w !! q).
    { eexists. split; [done|]. rewrite length_insert. split_and!; [done| |apply list_lookup_insert_eq; lia|].
      - intros q b [(<- & <- & _)|[_ Hb]]%list_lookup_insert_Some; [by apply (Hent' p bp)|by apply (Hent' q)].
      - intros q Hq Hne. rewrite list_lookup_insert_ne by done. by apply Hm. }
    destruct Hfacts as (m2 & -> & H1 & H2 & H3 & H4).
    exact (HQ P' p free' n _ (reset_of bp) L' H1 H2 Hn' H3 eq_refl eq_refl H4 h). }
  unfold pool_alloc. do 3 wstep. destruct (pool_ (bkt_pool_ w)) as [|p free] eqn:Hpool.
  - unfold extend_pool. do 3 wstep. eapply wq_new_memory. intros h. do 4 wstep.
    set (k := num_to_alloc_ (bkt_pool_ w)) in *. rewrite Hlen, Hpool, app_nil_r.
    assert (L' := layout_extend k L). rewrite app_nil_r in L'.
    destruct (reverse (seq (N + P) k)) as [|p free'] eqn:Hrev.
    { apply (f_equal length) in Hrev. rewrite length_reverse, length_seq in Hrev. cbn in Hrev. lia. }
    apply (Hpop (P + k)%nat (mem w ++ (raw <$> seq (N + P) k)) p free' (k * 2)%nat h); try done; [..|lia|].
    + by rewrite length_app, length_fmap, length_seq, Hlen, Nat.add_assoc.
    + intros q b [Hb|[_ (a & -> & _)%list_lookup_fmap_Some]]%lookup_app_Some; [by apply (Hent q)|apply Hraw].
    + intros q Hq. apply lookup_app_l. lia.
  - wstep. apply (Hpop P (mem w) p free (num_to_alloc_ (bkt_pool_ w)) (huge_alloc_ w)); try done.
    destruct w as [? ? ? ? [] ? ?]. cbn in *. by subst.
Qed.

(** Replacing the contents and the chain of slot [j]. *)
Lemma inv_replace P P' start slots chains chains' w j es es' c m' free' n :
  wheel_inv P start slots chains w → slots !! j = Some es → chains !! pos (cur_wslot_ w) j = Some c →
  layout N P' chains' free' → length m' = (N + P')%nat → entries_ok m' → (0 < n)%nat →
  (∀ r, (r < N + P)%nat → r ≠ pos (cur_wslot_ w) j → r ∉ c → r ∉ pool_ (bkt_pool_ w) → m' !! r = mem w !! r) →
  (∀ s, s ≠ pos (cur_wslot_ w) j → chains' !! s = chains !! s) →
  slot_ok m' chains' (pos (cur_wslot_ w) j) (start + Z.of_nat j * wslot_width_tsc_ w) es' →
  ∀ h, wheel_inv P' start (<[j := es']> slots) chains' (set_bkt_pool (mk_pool n free') (set_mem m' (set_huge_alloc h w))).
Proof.
  intros I Hj Hc L' Hlen Hent Hn Hm Hch Hok h.
  assert (HjN : (j < length slots)%nat) by by eapply lookup_lt_Some.
  split; cbn [mem bkt_pool_ pool_ num_to_alloc_ wslot_width_tsc_ cur_wslot_ set_mem set_bkt_pool]; try apply I; try done.
  - rewrite length_insert. apply I.
  - intros i es2. destruct (decide (j = i)) as [<-|Hne].
    + rewrite list_lookup_insert_eq by done. by intros [= <-].
    + rewrite list_lookup_insert_ne by done. intros Hi. eapply (slots_frame P start slots chains w j c); try done; [|auto].
      by rewrite <- (wi_slots _ _ _ _ _ I).
Qed.
Lemma alloc_was_free P P' chains free free' p :
  layout N P chains free → layout N P' chains (p :: free') → (p < N + P)%nat → p ∈ free.
Proof.
  intros L L' Hp. assert (Hp' : p ∈ free ++ concat chains).
  { apply (layout_range L). split; [|done]. apply (layout_range L'). left. }
  apply elem_of_app in Hp' as [|Hp']; [done|]. pose proof (layout_NoDup L') as HN. cbn in HN.
  apply NoDup_cons in HN as [HN _]. set_solver.
Qed.

(** The bucket an entry is written to. *)
Definition add_entry (e : wheel_ent_t) (b : wheel_bkt_t) : wheel_bkt_t :=
  set_num_entries (u3 (num_entries_ b + 1)) (set_entry (<[Z.to_nat (num_entries_ b) := e]> (entry_ b)) b).
Lemma add_entry_num e b : 0 ≤ num_entries_ b < Z.of_nat kWheelBucketCap → num_entries_ (add_entry e b) = num_entries_ b + 1.
Proof. intros Hk. cbn. unfold u3. apply Z.mod_small. unfold kWheelBucketCap in *. lia. Qed.
Lemma entries_ok_insert m q b : entries_ok m → length (entry_ b) = kWheelBucketCap → entries_ok (<[q := b]> m).
Proof.
  intros Hm Hb r d [(<- & <- & _)|[_ Hd]]%list_lookup_insert_Some; [done|]. by apply (Hm r).
Qed.
Lemma entries_ok_add m q b e : entries_ok m → m !! q = Some b → length (entry_ (add_entry e b)) = kWheelBucketCap.
Proof. intros Hm Hb. cbn. rewrite length_insert. by apply (Hm q). Qed.

(** Slot [s] after an entry was added to its last bucket [q]. *)
Lemma slot_ok_add m chains s tx es c q b e :
  slot_ok m chains s tx es → chains !! s = Some c → NoDup (s :: c) → entries_ok m →
  last (s :: c) = Some q → m !! q = Some b → num_entries_ b + 1 < Z.of_nat kWheelBucketCap → 0 ≤ num_entries_ b →
  slot_ok (<[q := add_entry e b]> m) chains s tx (es ++ [e]).
Proof.
  intros (bs & c' & Hbs & Htx & Hc' & Hlast & Hch) Hc HN Hent Hq Hb Hroom Hpos. assert (c' = c) as -> by congruence.
  assert (Hlt : (q < length m)%nat) by by eapply lookup_lt_Some.
  assert (Hch1 : wchain (<[q := add_entry e b]> m) (s :: c) (es ++ [e])).
  { eapply (wchain_snoc m _ _ _ q b (add_entry e b)); try done; [by eapply Hent|by apply list_lookup_insert_eq|apply add_entry_num; lia|].
    intros r _ Hne. by apply list_lookup_insert_ne. }
  destruct (decide (q = s)) as [->|Hqs].
  - exists (add_entry e b), c. simplify_eq. by rewrite list_lookup_insert_eq.
  - exists bs, c. by rewrite list_lookup_insert_ne.
Qed.
(** The same when the entry fills the bucket and [p] becomes the last one. *)
Lemma slot_ok_grow m m2 chains s tx es c q b e p bp :
  slot_ok m chains s tx es → chains !! s = Some c → NoDup (s :: c) → entries_ok m →
  last (s :: c) = Some q → m !! q = Some b → num_entries_ b + 1 = Z.of_nat kWheelBucketCap →
  m2 !! q = Some (add_entry e b) → m2 !! p = Some bp → next_ bp = None → num_entries_ bp = 0 → p ∉ s :: c →
  (∀ r, r ∈ s :: c → r ≠ q → m2 !! r = m !! r) →
  ∃ bs3, <[q := set_next_bkt (Some p) (add_entry e b)]> m2 !! s = Some bs3 ∧ length (entry_ bs3) = kWheelBucketCap ∧
    slot_ok (<[s := set_last p bs3]> (<[q := set_next_bkt (Some p) (add_entry e b)]> m2)) (<[s := c ++ [p]]> chains) s tx (es ++ [e]).
Proof.
  intros (bs & c' & Hbs & Htx & Hc' & Hlast & Hch) Hc HN Hent Hq Hb Hfull Hm2q Hbp Hbn Hbk Hp Ha.
  assert (c' = c) as -> by congruence. set (m3 := <[q := set_next_bkt (Some p) (add_entry e b)]> m2).
  assert (Hqin : q ∈ s :: c) by by apply last_Some_elem_of.
  assert (Hlt2 : (q < length m2)%nat) by by eapply lookup_lt_Some.
  assert (Hm3q : m3 !! q = Some (set_next_bkt (Some p) (add_entry e b))) by by apply list_lookup_insert_eq.
  assert (Hch3 : wchain m3 ((s :: c) ++ [p]) (es ++ [e])).
  { eapply (wchain_snoc_full m m3 _ _ q b); try done; [by eapply Hent|apply add_entry_num; unfold kWheelBucketCap in *; lia| |].
    - unfold m3. rewrite list_lookup_insert_ne; [done|]. by intros ->.
    - intros r Hr Hne. unfold m3. rewrite list_lookup_insert_ne by done. by apply Ha. }
  destruct (wchain_lookup _ _ _ s Hch3) as [bs3 Hbs3]; [left|].
  assert (H3 : length (entry_ bs3) = kWheelBucketCap ∧ tx_tsc_ bs3 = tx_tsc_ bs).
  { unfold m3 in Hbs3. apply list_lookup_insert_Some in Hbs3 as [(-> & <- & _)|[Hne Hd]].
    - simplify_eq. split; [|done]. by eapply (entries_ok_add m).
    - rewrite Ha in Hd by first [left | done]. simplify_eq. split; [by eapply Hent|done]. }
  exists bs3. split_and!; [done|apply H3|]. exists (set_last p bs3), (c ++ [p]).
  rewrite !list_lookup_insert_eq by by eapply lookup_lt_Some.
  split_and!; try done; [cbn; by rewrite (proj2 H3)|by rewrite app_comm_cons, last_snoc|by eapply wchain_touch].
Qed.

(** Putting an entry in slot [j]. *)
Lemma wp_insert_into_wslot P start slots chains w j es e :
  wheel_inv P start slots chains w → slots !! j = Some es →
  wq out_of_memory (insert_into_wslot os reg raw (pos (cur_wslot_ w) j) e) (λ _ w', ∃ P' chains',
    wheel_inv P' start (<[j := es ++ [e]]> slots) chains' w' ∧
    ready_queue_ w' = ready_queue_ w ∧ cur_wslot_ w' = cur_wslot_ w ∧ same_conf w w') w.
Proof.
  intros I Hj. pose proof (wi_layout _ _ _ _ _ I) as L. pose proof (wi_entries _ _ _ _ _ I) as Hent.
  pose proof (wi_slot _ _ _ _ _ I j es Hj) as Hok. pose proof Hok as (bs & c & Hbs & _ & Hc & Hlast & Hch).
  set (s := pos (cur_wslot_ w) j) in *. destruct (layout_chain L s c Hc) as (_ & HN & _).
  destruct (wchain_last_bucket _ _ _ Hch) as (q & b & Hlq & Hb & Hn & Hk).
  assert (Hq : last_ bs = q) by congruence. rewrite Hq in Hlast. assert (Hqin : q ∈ s :: c) by by apply last_Some_elem_of.
  assert (Hlt : (q < length (mem w))%nat) by by eapply lookup_lt_Some.
  unfold insert_into_wslot. wstep. eapply wp_wq, wp_deref_bkt; [done|]. rewrite Hq. wstep. eapply wp_wq, wp_deref_bkt; [done|].
  wstep. eapply wp_wq, wp_assert; [by apply bool_decide_eq_true_2|]. wstep. eapply wp_wq, wp_assert; [lia|]. wstep.
  eapply wp_wq, wp_lift; [apply arr_set_in_range; rewrite (Hent q b Hb); lia|]. wstep. eapply wp_wq, wp_update_bkt; [done|].
  fold (add_entry e b). set (m1 := <[q := add_entry e b]> (mem w)).
  assert (Hent1 : entries_ok m1) by (apply entries_ok_insert; [done|by eapply entries_ok_add]).
  assert (Hlen1 : length m1 = (N + P)%nat) by (unfold m1; rewrite length_insert; apply I).
  wstep. eapply wp_wq, wp_deref_bkt; [by apply list_lookup_insert_eq|]. rewrite add_entry_num by done.
  destruct (Z.eqb_spec (num_entries_ b + 1) (Z.of_nat kWheelBucketCap)) as [Hfull|Hroom].
  - wstep. eapply (wp_alloc_bkt P chains); [apply L|exact Hlen1|exact Hent1|apply I|].
    intros P' p free' n m2 bp L' Hlen2 Hent2 Hn2 Hbp Hbpn Hbpk Hm2 h.
    assert (Hpc : p ∉ s :: c) by (intros Hin; apply (layout_free L' s c p Hc Hin); left).
    assert (Hm2' : ∀ r, r ∈ s :: c → m2 !! r = m1 !! r).
    { intros r Hr. apply Hm2; [|by intros ->]. destruct (wchain_lookup _ _ _ r Hch Hr) as [d Hd].
      rewrite <- (wi_mem _ _ _ _ _ I). by eapply lookup_lt_Some. }
    assert (Hm2q : m2 !! q = Some (add_entry e b)) by (rewrite Hm2' by done; by apply list_lookup_insert_eq).
    edestruct (slot_ok_grow (mem w) m2 chains s _ es c q b e p bp Hok Hc HN Hent Hlast Hb Hfull Hm2q Hbp Hbpn Hbpk Hpc)
      as (bs3 & Hbs3 & Hbent & Hok3).
    { intros r Hr Hne. rewrite Hm2' by done. by apply list_lookup_insert_ne. }
    wstep. eapply wp_wq, wp_update_bkt; [exact Hm2q|]. eapply wp_wq, wp_update_bkt; [exact Hbs3|].
    exists P', (<[s := c ++ [p]]> chains). split; [|done].
    assert (Hlen4 : length (<[s := set_last p bs3]> (<[q := set_next_bkt (Some p) (add_entry e b)]> m2)) = (N + P')%nat)
      by by rewrite !length_insert.
    assert (Hent4 : entries_ok (<[s := set_last p bs3]> (<[q := set_next_bkt (Some p) (add_entry e b)]> m2))).
    { apply entries_ok_insert; [|done]. apply entries_ok_insert; [done|]. by eapply (entries_ok_add (mem w)). }
    apply (inv_replace P P' start slots chains _ w j es _ c _ free' n I Hj Hc (layout_alloc _ _ L' Hc) Hlen4 Hent4 Hn2); [|..|exact Hok3].
    + fold s. intros r Hr Hrs Hrc Hrf. rewrite !list_lookup_insert_ne by set_solver.
      assert (r ≠ p) by (intros ->; apply Hrf; by eapply alloc_was_free). rewrite (Hm2 r) by done.
      apply list_lookup_insert_ne. set_solver.
    + fold s. intros r Hr. by rewrite list_lookup_insert_ne.
  - wstep. exists P, chains. split; [|done].
    assert (I' := inv_replace P P start slots chains chains w j es (es ++ [e]) c m1 (pool_ (bkt_pool_ w)) (num_to_alloc_ (bkt_pool_ w))).
    destruct w as [ww hz mm cur [k pool] rq hg]. cbn in *. apply (λ H1 H2 H3 H4 H5 H6 H7 H8 H9 H10, I' H1 H2 H3 H4 H5 H6 H7 H8 H9 H10 hg); try done; [apply I|..].
    + intros r _ Hrs Hrc _. apply list_lookup_insert_ne. set_solver.
    + eapply slot_ok_add; try done; lia.
Qed.
End ops.
