(* ===== verification/TimingWheelTheorems.v ===== *)
(** * The timing wheel is a stable priority queue with a bounded delay

    A run of the wheel, from its construction and with non-decreasing times, gives
    each inserted entry a due time at or at most one slot width after the desired
    time; what has reached the ready queue at time [now] is exactly the entries due
    by [now], in the order of their due times and, for equal times, in the order
    they were inserted. *)

From S2P Require Import Prelude FixedTableSpec HugeAlloc TimingWheel TimingWheelSpec FixedTableTheorems.

(** Entries with their due times, sorted by time. *)
Definition due_le (x y : Z * wheel_ent_t) : Prop := x.1 ≤ y.1.
Abbreviation at_time x := (filter (λ y : Z * wheel_ent_t, y.1 = x)).
Abbreviation by_time now := (filter (λ y : Z * wheel_ent_t, y.1 ≤ now)).

(** ** The flattened wheel *)
Lemma flat_ge width start slots : 0 < width → Forall (λ y, start ≤ y.1) (flat width start slots).
Proof.
  intros Hw. revert start. induction slots as [|es slots IH]; intros start; cbn; [done|]. apply Forall_app. split.
  - apply Forall_fmap, Forall_true. intros e. cbn. lia.
  - eapply Forall_impl; [apply IH|]. cbn. intros y ?. lia.
Qed.
Lemma StronglySorted_app_intro {A} (R : relation A) l1 l2 :
  StronglySorted R l1 → StronglySorted R l2 → (∀ x y, x ∈ l1 → y ∈ l2 → R x y) → StronglySorted R (l1 ++ l2).
Proof.
  intros H1 H2 H. induction H1 as [|x l1 H1 IH Hx]; [done|]. cbn. constructor.
  - apply IH. intros y z Hy. apply H. by right.
  - apply Forall_app. split; [done|]. apply Forall_forall. intros y Hy. apply H; [left|done].
Qed.
Lemma flat_sorted width start slots : 0 < width → StronglySorted due_le (flat width start slots).
Proof.
  intros Hw. revert start. induction slots as [|es slots IH]; intros start; cbn; [constructor|].
  apply StronglySorted_app_intro; [|apply IH|].
  - induction es as [|e es IHes]; cbn; constructor; [done|]. apply Forall_fmap, Forall_true. intros ?. unfold due_le. cbn. lia.
  - intros y z (e & -> & _)%list_elem_of_fmap Hz. pose proof (flat_ge width (start + width) slots Hw) as Hge.
    rewrite Forall_forall in Hge. specialize (Hge z Hz). unfold due_le. cbn in *. lia.
Qed.
Lemma at_time_none x l : Forall (λ y : Z * wheel_ent_t, y.1 ≠ x) l → at_time x l = [].
Proof.
  induction 1 as [|y l Hy Hl IH]; [done|]. by rewrite filter_cons_False.
Qed.
(** Adding an entry to slot [j] adds it last among the entries of its time. *)
Lemma at_time_insert width start slots j es e x :
  0 < width → slots !! j = Some es →
  at_time x (flat width start (<[j := es ++ [e]]> slots)) =
  at_time x (flat width start slots) ++ at_time x [(start + Z.of_nat j * width, e)].
Proof.
  intros Hw. revert start j. induction slots as [|es' slots IH]; intros start j Hj; [done|].
  destruct j as [|j].
  - change (<[0%nat := es ++ [e]]> (es' :: slots)) with ((es ++ [e]) :: slots). cbn [flat]. injection Hj as ->. rewrite Z.add_0_r, !filter_app, fmap_app, filter_app, <- !app_assoc. f_equal.
    destruct (decide (start = x)) as [<-|Hne].
    + rewrite (at_time_none start (flat _ _ _)); [by rewrite app_nil_r|].
      eapply Forall_impl; [by apply flat_ge|]. cbn. lia.
    + by rewrite (at_time_none x [_]), (at_time_none x ((start,.) <$> [e])), app_nil_r by by repeat constructor.
  - change (<[S j := es ++ [e]]> (es' :: slots)) with (es' :: <[j := es ++ [e]]> slots). cbn [flat]. cbn in Hj.
    rewrite !filter_app, (IH (start + width) j Hj), <- app_assoc.
    replace (start + width + Z.of_nat j * width) with (start + Z.of_nat (S j) * width) by lia. done.
Qed.

(** ** Runs *)
Inductive wheel_op : Type :=
| WReap (reap_tsc : Z)
| WInsert (ent : wheel_ent_t) (ref_tsc desired_tx_tsc : Z)
| WPop.

Definition op_time (now : Z) (o : wheel_op) : Z :=
  match o with WReap t => t | WInsert _ ref _ => ref | WPop => now end.
Fixpoint end_time (now : Z) (os : list wheel_op) : Z :=
  match os with [] => now | o :: os => end_time (op_time now o) os end.
Definition op_insert (o : wheel_op) : list (wheel_ent_t * Z) :=
  match o with WInsert e _ d => [(e, d)] | _ => [] end.
(** The inserted entries with their desired times. *)
Definition inserted (os : list wheel_op) : list (wheel_ent_t * Z) := os ≫= op_insert.

Section runs.
Context (N : nat) (answers : nat → list shm_answer) (reg : Z → Z → Z) (raw : nat → wheel_bkt_t).
Implicit Types (w : TimingWheel) (now : Z) (o : wheel_op).

(** The consumer takes the front of the ready queue. *)
Definition pop_ready : M TimingWheel (list wheel_ent_t) :=
  w ← get;
  match ready_queue_ w with
  | [] => mret []
  | e :: es => modify (set_ready_queue es) ;; mret [e]
  end.
Definition run_wheel_op o : M TimingWheel (list wheel_ent_t) :=
  match o with
  | WReap t => reap N t ;; mret []
  | WInsert e ref d => wheel_insert N answers reg raw e ref d ;; mret []
  | WPop => pop_ready
  end.
(** The entries popped along a run. *)
Fixpoint run_wheel_ops (os : list wheel_op) : M TimingWheel (list wheel_ent_t) :=
  match os with
  | [] => mret []
  | o :: os => p ← run_wheel_op o; ps ← run_wheel_ops os; mret (p ++ ps)
  end.

(** Times do not decrease and stay clear of the 61-bit counter's end; desired times
    are within the horizon. *)
Definition wheel_op_ok (width horizon now : Z) o : Prop :=
  now ≤ op_time now o ∧ op_time now o + (Z.of_nat N + 1) * width < 2 ^ 61 ∧
  match o with WInsert _ ref d => ref ≤ d ≤ ref + horizon | _ => True end.
Fixpoint wheel_ops_ok (width horizon now : Z) (os : list wheel_op) : Prop :=
  match os with
  | [] => True
  | o :: os => wheel_op_ok width horizon now o ∧ wheel_ops_ok width horizon (op_time now o) os
  end.

(** The due times given to the inserted entries. *)
Definition scheduled (width : Z) (ins : list (wheel_ent_t * Z)) (hist : list (Z * wheel_ent_t)) : Prop :=
  Forall2 (λ i h, h.2 = i.1 ∧ i.2 ≤ h.1 ≤ i.2 + width) ins hist.
(** [G] is [hist] sorted by due time, keeping the order of equal times. *)
Definition stable_sort_of (hist G : list (Z * wheel_ent_t)) : Prop :=
  StronglySorted due_le G ∧ ∀ x, at_time x G = at_time x hist.

(** The state after a run: [out] is what has been popped. *)
Record run_inv now (hist : list (Z * wheel_ent_t)) (out : list wheel_ent_t) w : Prop := {
  run_wheel : ∃ P start slots chains done_, wheel_inv N P start slots chains w ∧
    0 ≤ now < start ∧ start ≤ now + wslot_width_tsc_ w ∧ Forall (λ y, y.1 ≤ now) done_ ∧
    stable_sort_of hist (done_ ++ flat (wslot_width_tsc_ w) start slots) ∧
    out ++ ready_queue_ w = done_.*2;
  run_horizon : horizon_tsc_ w ≤ wslot_width_tsc_ w * (Z.of_nat N - 1)
}.

Lemma run_reap t now hist out w :
  run_inv now hist out w → now ≤ t → t + (Z.of_nat N + 1) * wslot_width_tsc_ w < 2 ^ 61 →
  wp (reap N t) (λ _ w', run_inv t hist out w' ∧ same_conf w w') w.
Proof.
  intros [(P & start & slots & chains & done_ & I & Hnow & Hstart & Hdone & Hsort & Hout) Hhz] Ht Hb.
  eapply wq_mono; [eapply (wp_reap N answers reg raw); [done|lia|done]|].
  intros [] w' (start' & slots' & chains' & moved & I' & Hflat & Hr & Hmoved & Ht' & Hle & Hmax & Hww & Hhh).
  pose proof (wi_width _ _ _ _ _ _ I). split; [|by split]. split; [|by rewrite Hww, Hhh].
  exists P, start', slots', chains', (done_ ++ moved). rewrite Hww. split_and!; try done; try lia.
  - apply Forall_app. split; [|done]. eapply Forall_impl; [done|]. cbn. intros. lia.
  - by rewrite <- app_assoc, <- Hflat.
  - by rewrite Hr, app_assoc, Hout, fmap_app.
Qed.

Context (Hanswers : ∀ n, ∃ a, shm_loop (answers n) = Ok a).
Context (Hraw : ∀ a, length (entry_ (raw a)) = kWheelBucketCap).

(** An insertion into slot [j] at time [ref]. *)
Lemma run_add P start slots chains w w' now hist out done_ j es e d :
  wheel_inv N P start (<[j := es ++ [e]]> slots) chains w' → same_conf w w' → ready_queue_ w' = ready_queue_ w →
  slots !! j = Some es → 0 < wslot_width_tsc_ w →
  0 ≤ now < start → start ≤ now + wslot_width_tsc_ w → Forall (λ y, y.1 ≤ now) done_ →
  stable_sort_of hist (done_ ++ flat (wslot_width_tsc_ w) start slots) → out ++ ready_queue_ w = done_.*2 →
  horizon_tsc_ w ≤ wslot_width_tsc_ w * (Z.of_nat N - 1) →
  d ≤ start + Z.of_nat j * wslot_width_tsc_ w ≤ d + wslot_width_tsc_ w →
  run_inv now (hist ++ [(start + Z.of_nat j * wslot_width_tsc_ w, e)]) out w'.
Proof.
  intros I [Hww Hhh] Hr Hj Hw Hnow Hstart Hdone [Hsort Hat] Hout Hhz Hd. split; [|by rewrite Hww, Hhh].
  exists P, start, (<[j := es ++ [e]]> slots), chains, done_. rewrite Hww, Hr. split_and!; try done; try lia. split.
  - apply StronglySorted_app_intro; [by eapply StronglySorted_app_1_l|by apply flat_sorted|].
    intros x y Hx Hy. rewrite Forall_forall in Hdone. specialize (Hdone x Hx).
    pose proof (flat_ge (wslot_width_tsc_ w) start (<[j := es ++ [e]]> slots) Hw) as Hge. rewrite Forall_forall in Hge.
    specialize (Hge y Hy). unfold due_le. cbn in *. lia.
  - intros x. rewrite !filter_app, (at_time_insert _ _ _ _ es) by done. rewrite app_assoc, <- filter_app, Hat. done.
Qed.

Lemma run_insert e ref d now hist out w :
  run_inv now hist out w → now ≤ ref → ref ≤ d ≤ ref + horizon_tsc_ w →
  ref + (Z.of_nat N + 1) * wslot_width_tsc_ w < 2 ^ 61 →
  wq (out_of_memory answers) (wheel_insert N answers reg raw e ref d) (λ _ w', same_conf w w' ∧
    ∃ x, d ≤ x ≤ d + wslot_width_tsc_ w ∧ run_inv ref (hist ++ [(x, e)]) out w') w.
Proof.
  intros R Hnow Hd Hb. unfold wheel_insert. wstep. apply wp_wq, wp_assert; [lia|]. do 3 wstep. apply wp_wq, wp_assert; [lia|].
  wstep. eapply wq_mono; [by apply wp_wq; eapply run_reap|].
  intros [] w1 [[(P & start & slots & chains & done_ & I & Hs1 & Hs2 & Hdone & Hsort & Hout) Hhz] [Hww Hhh]].
  pose proof (wi_width _ _ _ _ _ _ I) as Hw. pose proof (wi_cur _ _ _ _ _ _ I) as Hcur. pose proof (wi_slots _ _ _ _ _ _ I) as Hlen.
  destruct (lookup_lt_is_Some_2 slots 0) as [es0 Hes0]; [lia|].
  destruct (wi_slot _ _ _ _ _ _ I 0%nat es0 Hes0) as (b & c & Hbk & Htx & _). rewrite pos_0 in Hbk by done. rewrite Z.add_0_r in Htx.
  do 3 wstep. eapply wp_wq, wp_deref_bkt; [done|]. wstep. apply wp_wq, wp_assert; [lia|]. rewrite Htx.
  assert (Hslot : ∃ j, (j < N)%nat ∧ d ≤ start + Z.of_nat j * wslot_width_tsc_ w1 ≤ d + wslot_width_tsc_ w1 ∧
    ∀ Q, Q (pos N (cur_wslot_ w1) j) w1 →
      wq (out_of_memory answers) (if d <=? start then mret (cur_wslot_ w1)
          else
            assert_ (1 + (d - start) / wslot_width_tsc_ w1 <? Z.of_nat N) ;;
            mret (let dst := (cur_wslot_ w1 + Z.to_nat (1 + (d - start) / wslot_width_tsc_ w1))%nat in
                  if bool_decide (N ≤ dst)%nat then (dst - N)%nat else dst)) Q w1).
  { destruct (Z.leb_spec d start).
    - exists 0%nat. split_and!; try lia. intros Q HQ. wstep. by rewrite pos_0 in HQ.
    - pose proof (Z.div_mod (d - start) (wslot_width_tsc_ w1)) as Hdm. pose proof (Z.mod_pos_bound (d - start) (wslot_width_tsc_ w1) Hw).
      set (k := (d - start) / wslot_width_tsc_ w1) in *. assert (0 ≤ k) by (apply Z.div_pos; lia).
      assert (Hk : 1 + k < Z.of_nat N) by nia. exists (Z.to_nat (1 + k)). split_and!; [lia|nia|nia|].
      intros Q HQ. wstep. apply wp_wq, wp_assert; [lia|]. wstep. revert HQ. unfold pos. cbn zeta. repeat case_bool_decide; try lia; done. }
  destruct Hslot as (j & HjN & Hdue & Hslot). wstep. apply Hslot. clear Hslot.
  destruct (lookup_lt_is_Some_2 slots j) as [es Hes]; [lia|].
  eapply wq_mono; [by eapply (wp_insert_into_wslot N answers reg raw Hanswers Hraw)|].
  intros [] w2 (P' & chains' & I' & Hr & _ & Hconf). split.
  { destruct Hconf. split; congruence. }
  exists (start + Z.of_nat j * wslot_width_tsc_ w1). rewrite <- Hww. split; [done|]. by eapply run_add.
Qed.
End runs.

(** * Theorems about the timing wheel

    The constructor establishes the invariant of runs; the wheel is a stable
    priority queue, entries become ready neither early nor more than a slot width
    late; and a frequency at which the truncation of the slot width breaks it. *)

Section theorems.
Context (N : nat) (answers : nat → list shm_answer) (reg : Z → Z → Z) (raw : nat → wheel_bkt_t).
Context (Hanswers : ∀ n, ∃ a, shm_loop (answers n) = Ok a).
Context (Hraw : ∀ a, length (entry_ (raw a)) = kWheelBucketCap).

Lemma run_new h width horizon base :
  (0 < N)%nat → 0 < width → 0 ≤ base → base + (Z.of_nat N + 1) * width < 2 ^ 61 → horizon ≤ width * (Z.of_nat N - 1) →
  match new_wheel N answers reg raw h width horizon base with
  | Ok w => run_inv N base [] [] w ∧ wslot_width_tsc_ w = width ∧ horizon_tsc_ w = horizon
  | Fault f => out_of_memory answers f
  end.
Proof.
  intros HN Hw Hbase Hb Hh. unfold new_wheel. destruct (Hanswers 0) as (a & Ha).
  destruct (new_memory_spec answers reg 0 (size_t (Z.of_nat N * sizeof_wheel_bkt)) h a Ha) as [[-> Hr]|(h' & ->)]; [split; [done|by exists 0%nat, a]|].
  cbn [mbind outcome_bind]. split; [|done]. split; [|done].
  exists 0%nat, (base + width), (replicate N []), (replicate N []), []. cbn [wslot_width_tsc_ ready_queue_].
  assert (Hflat : ∀ n start, flat width start (replicate n []) = []).
  { intros n. induction n as [|n IH]; intros start; cbn; [done|apply IH]. }
  rewrite Hflat. split; [|split_and!; try done; try lia; split; [constructor|done]].
  split; cbn [wslot_width_tsc_ mem cur_wslot_ bkt_pool_ num_to_alloc_ pool_]; try done.
  - split; [by rewrite length_replicate|]. by rewrite concat_nils.
  - by rewrite length_fmap, length_seq, Nat.add_0_r.
  - intros q b (i & -> & _)%list_lookup_fmap_Some. apply Hraw.
  - by apply Nat.ltb_lt.
  - by rewrite length_replicate.
  - intros j es [-> Hj]%lookup_replicate. assert (Hpos : pos N 0 j = j) by (unfold pos; rewrite bool_decide_eq_true_2; lia).
    rewrite Hpos. set (m := _ <$> seq 0 N).
    assert (Hm : m !! j = Some (set_last j (set_tx_tsc (u61 (base + (Z.of_nat j + 1) * width)) (reset_of (raw j))))).
    { unfold m. by rewrite list_lookup_fmap, lookup_seq_lt. }
    eexists _, []. split; [exact Hm|]. split_and!; try done.
    + cbn. unfold u61. rewrite Z.mod_small by nia. lia.
    + by apply lookup_replicate.
    + apply (wchain_last m j _ Hm); done.
Qed.

Lemma run_wheel_op_spec o now hist out w :
  run_inv N now hist out w → wheel_op_ok N (wslot_width_tsc_ w) (horizon_tsc_ w) now o →
  wq (out_of_memory answers) (run_wheel_op N answers reg raw o) (λ p w', same_conf w w' ∧
    ∃ hist', scheduled (wslot_width_tsc_ w) (op_insert o) hist' ∧
      run_inv N (op_time now o) (hist ++ hist') (out ++ p) w') w.
Proof.
  intros R (Hnow & Hb & Ho). destruct o as [t|e ref d|]; cbn [run_wheel_op op_time op_insert] in *.
  - wstep. eapply wq_mono; [by apply wp_wq, (run_reap N answers reg raw t now hist out)|]. intros [] w' [R' Hc]. wstep. split; [done|].
    exists []. rewrite !app_nil_r. split; [constructor|done].
  - wstep. eapply wq_mono; [by apply (run_insert N answers reg raw Hanswers Hraw e ref d now hist out)|].
    intros [] w' [Hc (x & Hx & R')]. wstep. split; [done|]. exists [(x, e)]. rewrite app_nil_r. split; [|done].
    constructor; [by split|constructor].
  - unfold pop_ready. do 2 wstep. destruct (ready_queue_ w) as [|e es] eqn:Hq.
    + wstep. split; [done|]. exists []. rewrite !app_nil_r. split; [constructor|done].
    + do 3 wstep. split; [done|]. exists []. rewrite app_nil_r. split; [constructor|].
      destruct R as [(P & start & slots & chains & done_ & I & ? & ? & ? & ? & Hout) Hh]. split; [|done].
      exists P, start, slots, chains, done_. split_and!; try done; try lia.
      * destruct I. by split.
      * cbn. by rewrite <- app_assoc, <- Hout, Hq.
Qed.

Lemma run_wheel_ops_spec os now hist out w :
  run_inv N now hist out w → wheel_ops_ok N (wslot_width_tsc_ w) (horizon_tsc_ w) now os →
  wq (out_of_memory answers) (run_wheel_ops N answers reg raw os) (λ ps w', wslot_width_tsc_ w' = wslot_width_tsc_ w ∧
    ∃ hist', scheduled (wslot_width_tsc_ w) (inserted os) hist' ∧
      run_inv N (end_time now os) (hist ++ hist') (out ++ ps) w') w.
Proof.
  revert now hist out w. induction os as [|o os IH]; intros now hist out w R Hok; cbn [run_wheel_ops end_time].
  - wstep. split; [done|]. exists []. rewrite !app_nil_r. split; [constructor|done].
  - destruct Hok as [Ho Hos]. wstep. eapply wq_mono; [by apply (run_wheel_op_spec o now hist out)|].
    intros p w1 [[Hw Hh] (hist1 & Hs1 & R1)]. wstep. rewrite <- Hw, <- Hh in Hos. eapply wq_mono; [by apply (IH _ _ _ _ R1)|].
    intros ps w2 [Hw2 (hist2 & Hs2 & R2)]. wstep. rewrite Hw in Hs2, Hw2. split; [done|]. exists (hist1 ++ hist2).
    rewrite !app_assoc. split; [|done]. by apply Forall2_app.
Qed.

(** What a run has made ready. *)
Lemma run_inv_ready now hist out w :
  run_inv N now hist out w → ∃ G, stable_sort_of hist G ∧ out ++ ready_queue_ w = (by_time now G).*2.
Proof.
  intros [(P & start & slots & chains & done_ & I & Hnow & Hs & Hdone & Hsort & Hout) _].
  exists (done_ ++ flat (wslot_width_tsc_ w) start slots). split; [done|]. rewrite Hout, filter_app. f_equal.
  rewrite (filter_all (λ y, y.1 ≤ now) done_) by by rewrite <- Forall_forall.
  assert (Hnone : by_time now (flat (wslot_width_tsc_ w) start slots) = []); [|by rewrite Hnone, app_nil_r].
  assert (Hge := flat_ge (wslot_width_tsc_ w) start slots (wi_width _ _ _ _ _ _ I)).
  clear -Hge Hnow. induction Hge as [|y l Hy _ IH]; [done|]. rewrite filter_cons_False by (cbv beta; lia). exact IH.
Qed.
End theorems.

(** C34: a wheel is made at time [base] with a positive slot width and slots that cover
    the horizon, and is then used by a caller that keeps to its contract: times do not
    decrease and stay clear of the end of the 61-bit time stamps, and each desired time
    is between the reference time of its insertion and one horizon later, as [insert]
    asserts of its arguments.  Then every sequence of reaps, insertions and pops runs to
    its end, or ends in the exception of an allocation for which the operating system
    refused memory; no other assertion of the wheel fails.  A run that ends well gives
    each inserted entry a due time between its desired time and one slot width later,
    and what was popped, followed by the ready queue, is the list of the entries due by
    the end of the run, sorted by due time and, for equal times, in the order of
    insertion.  The system is assumed not to answer for ever that a key is in use. *)
Theorem wheel_is_priority_queue N answers reg raw h width horizon base os :
  (∀ n, ∃ a, shm_loop (answers n) = Ok a) → (∀ a, length (entry_ (raw a)) = kWheelBucketCap) →
  (0 < N)%nat → 0 < width → 0 ≤ base → base + (Z.of_nat N + 1) * width < 2 ^ 61 → horizon ≤ width * (Z.of_nat N - 1) →
  wheel_ops_ok N width horizon base os →
  match (w0 ← new_wheel N answers reg raw h width horizon base; run_wheel_ops N answers reg raw os w0) with
  | Ok (popped, w) => ∃ hist G, scheduled width (inserted os) hist ∧ stable_sort_of hist G ∧
      popped ++ ready_queue_ w = (by_time (end_time base os) G).*2
  | Fault f => out_of_memory answers f
  end.
Proof.
  intros Ha Hr HN Hw Hb Hbound Hh Hos. pose proof (run_new N answers reg raw Ha Hr h width horizon base HN Hw Hb Hbound Hh) as Hnew.
  destruct (new_wheel _ _ _ _ _ _ _ _) as [w0|f]; [|exact Hnew]. destruct Hnew as (R & Hww & Hhh). cbn [mbind outcome_bind].
  rewrite <- Hww, <- Hhh in Hos. pose proof (run_wheel_ops_spec N answers reg raw Ha Hr os base [] [] w0 R Hos) as Hrun.
  unfold wq in Hrun. destruct (run_wheel_ops _ _ _ _ _ _) as [[popped w]|f]; [|exact Hrun]. destruct Hrun as (_ & hist & Hs & R'). rewrite Hww in Hs.
  destruct (run_inv_ready N _ _ _ _ R') as (G & HG & Hready). by exists hist, G.
Qed.

(** A wheel for a 2 GHz clock with 1024-byte packets, memory that holds dummies, and a
    system that has memory to give after one key that is in use. *)
Definition wheel_slots : nat := kWheelNumWslots 1024.
Definition some_memory (n : nat) : list shm_answer := [EEXIST; Shm 77 (2 ^ 30 * (Z.of_nat n + 1)) true].
Definition no_key (_ _ : Z) : Z := 0.
Definition dummy_bkt (_ : nat) : wheel_bkt_t := mk_bkt 7 0 0 (Some 3%nat) (replicate kWheelBucketCap get_dummy_ent).
Definition wheel_run : list wheel_op :=
  [WInsert (wheel_ent 1 0) 5000 9000; WInsert (wheel_ent 1 1) 5500 7200; WReap 7000; WInsert (wheel_ent 2 0) 7100 7100; WReap 9999; WPop].

Lemma wheel_is_priority_queue_witness :
  ∃ popped w, (w0 ← new_wheel wheel_slots some_memory no_key dummy_bkt (new_HugeAlloc 0) 1000 (horizon_cycles 1024 2000000000) 4000;
       run_wheel_ops wheel_slots some_memory no_key dummy_bkt wheel_run w0) = Ok (popped, w) ∧
    ∃ hist G, scheduled 1000 (inserted wheel_run) hist ∧ stable_sort_of hist G ∧
      popped ++ ready_queue_ w = (by_time (end_time 4000 wheel_run) G).*2.
Proof.
  pose proof (wheel_is_priority_queue wheel_slots some_memory no_key dummy_bkt (new_HugeAlloc 0) 1000 (horizon_cycles 1024 2000000000) 4000 wheel_run) as H.
  assert (H1 : wheel_ops_ok wheel_slots 1000 (horizon_cycles 1024 2000000000) 4000 wheel_run).
  { cbn [wheel_ops_ok wheel_run wheel_op_ok op_time]. unfold wheel_op_ok. cbn [op_time].
    repeat split; first [lia | apply Z.leb_le; vm_compute; reflexivity | apply Z.ltb_lt; vm_compute; reflexivity]. }
  specialize (H (λ n, ex_intro _ _ eq_refl) (λ _, eq_refl) ltac:(apply Nat.ltb_lt; vm_compute; reflexivity) ltac:(lia) ltac:(lia) ltac:(vm_compute; reflexivity) ltac:(apply Z.leb_le; vm_compute; reflexivity) H1).
  destruct (w0 ← new_wheel _ _ _ _ _ _ _ _; _) as [[popped w]|f]; [by exists popped, w|].
  destruct H as (_ & n & a & Ha & Hr). cbn in Ha. injection Ha as <-. destruct Hr; [lia|done].
Defined.

(** At a clock frequency that is a multiple of 2 MHz the slots cover the
    horizon, whatever the packet size. *)
Theorem slots_cover_horizon kMTU freq_hz :
  0 ≤ kMTU → 0 ≤ freq_hz → freq_hz mod 2000000 = 0 →
  horizon_cycles kMTU freq_hz ≤ wslot_width_cycles freq_hz * (Z.of_nat (kWheelNumWslots kMTU) - 1).
Proof.
  intros HM Hf Hm. unfold horizon_cycles, wslot_width_cycles, kWheelNumWslots, kSessionCredits, kMinRate.
  assert (Hd : freq_hz = 2000000 * (freq_hz / 2000000)) by (pose proof (Z.div_mod freq_hz 2000000); lia).
  set (k := freq_hz / 2000000) in *. assert (0 ≤ k) by (apply Z.div_pos; lia).
  set (n := 2 * 1000000 * (32 * kMTU)). set (c := (n + 15000000 - 1) / 15000000).
  assert (Hc : n ≤ 15000000 * c) by (pose proof (Z.div_mod (n + 15000000 - 1) 15000000); pose proof (Z.mod_pos_bound (n + 15000000 - 1) 15000000); lia).
  assert (0 ≤ c) by (apply Z.div_pos; lia). rewrite Z2Nat.id by lia.
  apply Z.div_le_upper_bound; [lia|]. rewrite Hd. replace (32 * kMTU * (2000000 * k)) with (n * k) by (unfold n; lia). nia.
Qed.
Lemma slots_cover_horizon_witness :
  horizon_cycles 1024 2000000000 ≤ wslot_width_cycles 2000000000 * (Z.of_nat (kWheelNumWslots 1024) - 1).
Proof. apply (slots_cover_horizon 1024 2000000000); [lia|lia|reflexivity]. Defined.

(** At 2.399999999 GHz the slot width is truncated from 1199.9999995 to 1199
    cycles and the slots no longer cover the horizon: inserting an entry to be sent
    one horizon from now, which the first assertions of [insert] allow, fails the
    assertion that the slot is on the wheel. *)
Theorem truncated_width_misses_horizon :
  (w ← new_wheel wheel_slots some_memory no_key dummy_bkt (new_HugeAlloc 0) (wslot_width_cycles 2399999999) (horizon_cycles 1024 2399999999) 4000;
   wheel_insert wheel_slots some_memory no_key dummy_bkt (wheel_ent 1 0) 4000 (4000 + horizon_cycles 1024 2399999999) w)
  = Fault AssertFailed.
Proof. vm_compute. reflexivity. Qed.
