(* ===== verification/IoVector.v ===== *)
(** * Scatter/gather vectors ([src/huibuffer/iovector.h], [iovector.cpp])

    Byte-addressed memory with [malloc] and [memcpy], the operations of
    [iovector_view] on the iovecs it covers, and the class [iovector]: an array of
    iovecs of which the part from [iov_begin] to [iov_end] is in use.  An operation
    of the class takes the vector and returns it changed, in the monad of the memory
    when it reads or writes the bytes. *)

From S2P Require Import Prelude.

(** ** Memory

    A byte per mapped address; [brk] is above every mapped address, where the next
    allocation goes.  Whether [malloc] can serve a size and what fresh memory holds
    are parameters. *)
Record heap : Type := mk_heap { bytes : gmap Z Z; brk : Z }.

Fixpoint load (m : gmap Z Z) (p : Z) (n : nat) : option (list Z) :=
  match n with
  | O => Some []
  | S n => b ← m !! p; bs ← load m (p + 1) n; Some (b :: bs)
  end.
Fixpoint store (m : gmap Z Z) (p : Z) (bs : list Z) : option (gmap Z Z) :=
  match bs with
  | [] => Some m
  | b :: bs => match m !! p with Some _ => store (<[p := b]> m) (p + 1) bs | None => None end
  end.
Fixpoint map_fresh (junk : Z → Z) (m : gmap Z Z) (p : Z) (n : nat) : gmap Z Z :=
  match n with O => m | S n => map_fresh junk (<[p := junk p]> m) (p + 1) n end.

Definition read_bytes (p n : Z) : M heap (list Z) :=
  h ← get; match load (bytes h) p (Z.to_nat n) with Some bs => mret bs | None => throw UndefinedBehaviour end.
Definition write_bytes (p : Z) (bs : list Z) : M heap unit :=
  h ← get;
  match store (bytes h) p bs with
  | Some m => modify (λ h, mk_heap m (brk h))
  | None => throw UndefinedBehaviour
  end.
(** [memcpy] of overlapping regions is undefined. *)
Definition memcpy (dst src n : Z) : M heap unit :=
  if (dst + n <=? src) || (src + n <=? dst) || (n <=? 0) then bs ← read_bytes src n; write_bytes dst bs
  else throw UndefinedBehaviour.

(** A [size_t] or a pointer in memory, least significant byte first. *)
Fixpoint le_bytes (n : nat) (z : Z) : list Z :=
  match n with O => [] | S n => z mod 256 :: le_bytes n (z / 256) end.
Fixpoint le_value (bs : list Z) : Z :=
  match bs with [] => 0 | b :: bs => b + 256 * le_value bs end.
Definition read_u64 (p : Z) : M heap Z := bs ← read_bytes p 8; mret (le_value bs).
Definition write_u64 (p z : Z) : M heap unit := write_bytes p (le_bytes 8 z).

(** ** Iovecs and views

    A view is the list of the iovecs it covers.  An operation that pops iovecs also
    returns them, as they are left in the array. *)
Record iovec : Type := mk_iovec { iov_base : Z; iov_len : Z }.
#[global] Instance iovec_eq_dec : EqDecision iovec.
Proof. solve_decision. Defined.

Definition view_sum (w : list iovec) : Z := foldr (λ v s, iov_len v + s) 0 w.

(** The bytes found and the shrunk iovecs, or the bytes that are missing. *)
Fixpoint shrink_loop (size : Z) (w : list iovec) : Z + nat * list iovec :=
  match w with
  | [] => inl size
  | v :: w =>
      if size <=? iov_len v then inr (1%nat, mk_iovec (iov_base v) size :: w)
      else match shrink_loop (size - iov_len v) w with
           | inl rem => inl rem
           | inr (n, w') => inr (S n, v :: w')
           end
  end.
(** [shrink_to]: the size reached, the new count and the array. *)
Definition view_shrink_to (size : Z) (w : list iovec) : Z * nat * list iovec :=
  if size =? 0 then (0, 0%nat, w)
  else match shrink_loop size w with
       | inl rem => (size - rem, length w, w)
       | inr (n, w') => (size, n, w')
       end.

(** [shrink_less_than]: the value returned and the new count. *)
Fixpoint shrink_less_loop (size : Z) (w : list iovec) (i : nat) : option (Z * nat) :=
  match w with
  | [] => None
  | v :: w => if size <=? iov_len v then Some (iov_len v - size, S i) else shrink_less_loop (size - iov_len v) w (S i)
  end.
Definition view_shrink_less_than (size : Z) (w : list iovec) : Z * nat :=
  if size =? 0 then match w with v :: _ => (iov_len v, 0%nat) | [] => (0, 0%nat) end
  else match shrink_less_loop size w 0 with Some r => r | None => (0, length w) end.

(** [slice]: [pos] moves only past the iovecs that are taken. *)
Fixpoint slice_loop (n : nat) (count offset pos ret : Z) (out : list iovec) (w : list iovec) : Z * list iovec :=
  match w with
  | [] => (ret, out)
  | p :: w =>
      if negb (count =? 0) && (offset <? pos + iov_len p) then
        let q := if pos <? offset then mk_iovec (iov_base p + (offset - pos)) (iov_len p - (offset - pos)) else p in
        let q := if count <? iov_len q then mk_iovec (iov_base q) count else q in
        let out := out ++ [q] in
        if bool_decide (length out = n) then (ret + iov_len q, out)
        else slice_loop n (count - iov_len q) offset (pos + iov_len p) (ret + iov_len q) out w
      else slice_loop n count offset pos ret out w
  end.
(** Into a view with room for [n] iovecs. *)
Definition view_slice (n : nat) (count offset : Z) (w : list iovec) : Z * list iovec :=
  if bool_decide (n = 0%nat) then (-1, []) else slice_loop n count offset 0 0 [] w.

(** What an extraction leaves: the bytes not found, [None] when the callback failed;
    the callback's state; the popped iovecs and the ones left. *)
Record extraction (C : Type) : Type := mk_ext { ex_left : option Z; ex_acc : C; ex_popped : list iovec; ex_rest : list iovec }.
Arguments mk_ext {C}.
Arguments ex_left {C}.
Arguments ex_acc {C}.
Arguments ex_popped {C}.
Arguments ex_rest {C}.

Section extract.
Context {C : Type} (cb : C → Z → Z → M heap (option C)).

Fixpoint extract_front_loop (c : C) (bytes : Z) (w : list iovec) : M heap (extraction C) :=
  match w with
  | [] => mret (mk_ext (Some bytes) c [] [])
  | v :: w' =>
      if bytes <=? iov_len v then
        r ← cb c (iov_base v) bytes;
        match r with
        | None => mret (mk_ext None c [] w)
        | Some c =>
            if iov_len v - bytes =? 0 then mret (mk_ext (Some 0) c [mk_iovec (iov_base v) 0] w')
            else mret (mk_ext (Some 0) c [] (mk_iovec (iov_base v + bytes) (iov_len v - bytes) :: w'))
        end
      else
        r ← cb c (iov_base v) (iov_len v);
        match r with
        | None => mret (mk_ext None c [] w)
        | Some c =>
            e ← extract_front_loop c (bytes - iov_len v) w';
            mret (mk_ext (ex_left e) (ex_acc e) (v :: ex_popped e) (ex_rest e))
        end
  end.

(** The value returned and what is left. *)
Definition do_extract_front (c : C) (bytes : Z) (w : list iovec) : M heap (Z * extraction C) :=
  if bytes =? 0 then mret (0, mk_ext (Some 0) c [] w)
  else e ← extract_front_loop c bytes w;
       mret (match ex_left e with Some rem => bytes - rem | None => -1 end, e).

(** From the back: the loop sees the iovecs in reverse order. *)
Fixpoint extract_back_loop (c : C) (bytes : Z) (w : list iovec) : M heap (extraction C) :=
  match w with
  | [] => mret (mk_ext (Some bytes) c [] [])
  | v :: w' =>
      if bytes <=? iov_len v then
        r ← cb c (iov_base v + iov_len v - bytes) bytes;
        match r with
        | None => mret (mk_ext None c [] w)
        | Some c =>
            if iov_len v - bytes =? 0 then mret (mk_ext (Some 0) c [mk_iovec (iov_base v) 0] w')
            else mret (mk_ext (Some 0) c [] (mk_iovec (iov_base v) (iov_len v - bytes) :: w'))
        end
      else
        r ← cb c (iov_base v) (iov_len v);
        match r with
        | None => mret (mk_ext None c [] w)
        | Some c =>
            e ← extract_back_loop c (bytes - iov_len v) w';
            mret (mk_ext (ex_left e) (ex_acc e) (v :: ex_popped e) (ex_rest e))
        end
  end.
Definition do_extract_back (c : C) (bytes : Z) (w : list iovec) : M heap (Z * extraction C) :=
  if bytes =? 0 then mret (0, mk_ext (Some 0) c [] w)
  else e ← extract_back_loop c bytes (reverse w);
       mret (match ex_left e with Some rem => bytes - rem | None => -1 end,
             mk_ext (ex_left e) (ex_acc e) (reverse (ex_popped e)) (reverse (ex_rest e))).
End extract.

(** The callbacks: discard, copy to a buffer, or collect into a view with room for [n]. *)
Definition cb_skip (c : unit) (ptr size : Z) : M heap (option unit) := mret (Some tt).
Definition cb_copy_front (buf ptr size : Z) : M heap (option Z) := memcpy buf ptr size ;; mret (Some (buf + size)).
Definition cb_copy_back (buf ptr size : Z) : M heap (option Z) := memcpy (buf - size) ptr size ;; mret (Some (buf - size)).
Definition cb_view_front (n : nat) (out : list iovec) (ptr size : Z) : M heap (option (list iovec)) :=
  mret (if bool_decide (length out = n) then None else Some (out ++ [mk_iovec ptr size])).
Definition cb_view_back (n : nat) (out : list iovec) (ptr size : Z) : M heap (option (list iovec)) :=
  mret (if bool_decide (length out = n) then None else Some (mk_iovec ptr size :: out)).

Fixpoint view_memcpy_to (buf size : Z) (w : list iovec) : M heap Z :=
  match w with
  | [] => mret 0
  | x :: w =>
      let len := if size <? iov_len x then size else iov_len x in
      memcpy buf (iov_base x) len ;;
      if size - len =? 0 then mret len else n ← view_memcpy_to (buf + len) (size - len) w; mret (len + n)
  end.
Fixpoint view_memcpy_from (buf size : Z) (w : list iovec) : M heap Z :=
  match w with
  | [] => mret 0
  | x :: w =>
      let len := if size <? iov_len x then size else iov_len x in
      memcpy (iov_base x) buf len ;;
      if size - len =? 0 then mret len else n ← view_memcpy_from (buf + len) (size - len) w; mret (len + n)
  end.

(** [memcpy_iov]: the bytes copied and the two views, which lose what was copied. *)
Fixpoint memcpy_iov (fuel : nat) (dest src : list iovec) (size : Z) : M heap (Z * list iovec * list iovec) :=
  match fuel with
  | O => throw OutOfFuel
  | S fuel =>
      match dest, src with
      | d :: _, s :: _ =>
          if size =? 0 then mret (0, dest, src)
          else
            let step := if iov_len d <? size then iov_len d else size in
            let step := if iov_len s <? step then iov_len s else step in
            memcpy (iov_base d) (iov_base s) step ;;
            rd ← do_extract_front cb_skip tt step dest;
            rs ← do_extract_front cb_skip tt step src;
            r ← memcpy_iov fuel (ex_rest rd.2) (ex_rest rs.2) (size - step);
            mret (step + r.1.1, r.1.2, r.2)
      | _, _ => mret (0, dest, src)
      end
  end.
(** [memcpy_to] and [memcpy_from] with a view that may change, on a view that may
    change; on a [const] view they work on a copy of fewer than 32 iovecs. *)
Definition memcpy_to_view (fuel : nat) (this iov : list iovec) (size : Z) : M heap (Z * list iovec * list iovec) :=
  r ← memcpy_iov fuel iov this size; mret (r.1.1, r.2, r.1.2).
Definition memcpy_to_const (fuel : nat) (this iov : list iovec) (size : Z) : M heap (Z * list iovec) :=
  assert_ (Z.of_nat (length this) <? 32) ;; r ← memcpy_to_view fuel this iov size; mret (r.1.1, r.2).
(** Both [const]: [co_iov.view().memcpy_from(iov, size)], which is
    [iov->memcpy_to(&co_iov, size)]. *)
Definition memcpy_to_const_const (fuel : nat) (this iov : list iovec) (size : Z) : M heap Z :=
  assert_ (Z.of_nat (length this) <? 32) ;; r ← memcpy_to_const fuel iov this size; mret r.1.
Definition memcpy_from_const_const (fuel : nat) (this iov : list iovec) (size : Z) : M heap Z :=
  assert_ (Z.of_nat (length this) <? 32) ;; r ← memcpy_to_const fuel iov this size; mret r.1.

(** ** The class [iovector] *)
Record iovector : Type := mk_iovector {
  capacity : Z;
  iov_begin : Z;
  iov_end : Z;
  nbases : Z;
  iovs : list iovec
}.
Definition iovector_eta (v : iovector) : iovector := mk_iovector (capacity v) (iov_begin v) (iov_end v) (nbases v) (iovs v).
Definition set_capacity : Z → iovector → iovector := ltac:(field_update iovector_eta capacity).
Definition set_iov_begin : Z → iovector → iovector := ltac:(field_update iovector_eta iov_begin).
Definition set_iov_end : Z → iovector → iovector := ltac:(field_update iovector_eta iov_end).
Definition set_iovs : list iovec → iovector → iovector := ltac:(field_update iovector_eta iovs).

Definition u16 (z : Z) : Z := z mod 65536.
(** [IOVectorEntity<2300, 8>], and the capacity [push_back(void*, size_t)] sets. *)
Definition IOVECTOR_CAPACITY : Z := 2300.
Definition default_preserve : Z := 8.
Definition new_IOVector (iovs : list iovec) : iovector := mk_iovector IOVECTOR_CAPACITY default_preserve default_preserve 0 iovs.

Definition assert_o (b : bool) : outcome unit := if b then Ok tt else Fault AssertFailed.
Definition do_assert (v : iovector) : outcome unit :=
  assert_o (iov_begin v <=? iov_end v) ;; assert_o (iov_end v <=? capacity v) ;; assert_o (nbases v <=? capacity v).

(** The iovecs in use, and the array with them replaced. *)
Definition view (v : iovector) : list iovec := take (Z.to_nat (iov_end v - iov_begin v)) (drop (Z.to_nat (iov_begin v)) (iovs v)).
Definition put_view (w : list iovec) (v : iovector) : iovector :=
  set_iovs (take (Z.to_nat (iov_begin v)) (iovs v) ++ w ++ drop (Z.to_nat (iov_end v)) (iovs v)) v.

Definition iv_front (v : iovector) : outcome iovec := do_assert v ;; arr_get (iovs v) (iov_begin v).
Definition iv_back (v : iovector) : outcome iovec := do_assert v ;; arr_get (iovs v) (iov_end v - 1).
Definition iv_sum (v : iovector) : outcome Z := do_assert v ;; Ok (view_sum (view v)).
Definition iovcnt (v : iovector) : outcome Z := do_assert v ;; Ok (iov_end v - iov_begin v).
Definition front_free_iovcnt (v : iovector) : outcome Z := do_assert v ;; Ok (iov_begin v).
(** A capacity of 0, in zeroed memory, is set to that of [IOVector]. *)
Definition back_free_iovcnt (v : iovector) : outcome (Z * iovector) :=
  do_assert v ;;
  let v := if capacity v =? 0 then set_capacity IOVECTOR_CAPACITY v else v in
  Ok (u16 (capacity v - iov_end v), v).
Definition iv_empty (v : iovector) : outcome bool := do_assert v ;; Ok (iov_end v <=? iov_begin v).
Definition iv_resize (nn : Z) (v : iovector) : outcome iovector :=
  let v := set_iov_end (u16 (iov_begin v + nn)) v in assert_o (iov_end v <=? capacity v) ;; Ok v.
Definition iv_at (v : iovector) (i : Z) : outcome iovec :=
  do_assert v ;; assert_o (iov_begin v + i <? iov_end v) ;; arr_get (iovs v) (iov_begin v + i).
Definition iv_clear (v : iovector) : outcome iovector := do_assert v ;; Ok (set_iov_end (iov_begin v) v).

(** Pushing returns the bytes pushed: 0, with no failed assertion, when there is no room. *)
Definition push_front (x : iovec) (v : iovector) : outcome (Z * iovector) :=
  do_assert v ;;
  if 0 <? iov_begin v then
    l ← arr_set (iovs v) (iov_begin v - 1) x; Ok (iov_len x, set_iovs l (set_iov_begin (iov_begin v - 1) v))
  else Ok (0, v).
Definition push_back (x : iovec) (v : iovector) : outcome (Z * iovector) :=
  do_assert v ;;
  if iov_end v <? capacity v then
    l ← arr_set (iovs v) (iov_end v) x; Ok (iov_len x, set_iovs l (set_iov_end (iov_end v + 1) v))
  else Ok (0, v).
Definition push_back_buf (buf size : Z) (v : iovector) : outcome (Z * iovector) :=
  push_back (mk_iovec buf size) (set_capacity IOVECTOR_CAPACITY v).
Definition pop_front (v : iovector) : outcome (Z * iovector) :=
  do_assert v ;;
  if iov_begin v <? iov_end v then
    x ← arr_get (iovs v) (iov_begin v); Ok (iov_len x, set_iov_begin (iov_begin v + 1) v)
  else Ok (0, v).
Definition pop_back (v : iovector) : outcome (Z * iovector) :=
  do_assert v ;;
  if iov_begin v <? iov_end v then
    x ← arr_get (iovs v) (iov_end v - 1); Ok (iov_len x, set_iov_end (iov_end v - 1) v)
  else Ok (0, v).

Definition iv_shrink_to (size : Z) (v : iovector) : outcome (Z * iovector) :=
  do_assert v ;;
  let '(ret, n, w) := view_shrink_to size (view v) in
  let v := put_view w v in
  Ok (ret, if ret =? size then set_iov_end (iov_begin v + Z.of_nat n) v else v).

(** The array after an extraction from the front, or from the back. *)
Definition after_front {C} (e : extraction C) (v : iovector) : iovector :=
  let v := put_view (ex_popped e ++ ex_rest e) v in set_iov_begin (iov_end v - Z.of_nat (length (ex_rest e))) v.
Definition after_back {C} (e : extraction C) (v : iovector) : iovector :=
  let v := put_view (ex_rest e ++ ex_popped e) v in set_iov_end (iov_begin v + Z.of_nat (length (ex_rest e))) v.

Section class.
Context (malloc_ok : Z → bool) (junk : Z → Z).
Abbreviation MH := (M heap).

(** [malloc] returns fresh memory, or a null pointer. *)
Definition malloc (size : Z) : MH Z :=
  h ← get;
  if malloc_ok size then
    modify (λ h, mk_heap (map_fresh junk (bytes h) (brk h) (Z.to_nat size)) (brk h + Z.max 1 size)) ;; mret (brk h)
  else mret 0.
Definition do_malloc (size : Z) (v : iovector) : MH Z :=
  lift (do_assert v) ;; assert_ (nbases v <? capacity v) ;; assert_ (size <=? INT_MAX) ;; malloc size.
Definition new_iovec (size_ : Z) (v : iovector) : MH iovec :=
  lift (do_assert v) ;; assert_ (nbases v <? capacity v) ;;
  let size := if size_ <=? INT_MAX then size_ else INT_MAX in
  ptr ← malloc size_;
  mret (if ptr =? 0 then mk_iovec 0 0 else mk_iovec ptr size).

(** Into a view with room for [n] iovecs; when it has none, an array is allocated. *)
Definition iv_slice (n : nat) (count offset : Z) (v : iovector) : MH (Z * list iovec) :=
  if count =? 0 then mret (0, [])
  else
    cnt ← lift (iovcnt v);
    ptr ← (if bool_decide (n = 0%nat) then do_malloc (cnt * 16) v else mret 1);
    if ptr =? 0 then mret (0, [])
    else mret (view_slice (if bool_decide (n = 0%nat) then Z.to_nat cnt else n) count offset (view v)).

(** [push_front_more] and [push_back_more], one iteration per [INT_MAX] bytes. *)
Fixpoint push_front_more (fuel : nat) (bytes : Z) (v : iovector) : MH (Z * iovector) :=
  match fuel with
  | O => throw OutOfFuel
  | S fuel =>
      if (bytes =? 0) || (iov_begin v =? 0) then mret (0, v)
      else
        x ← new_iovec bytes v;
        if iov_len x =? 0 then mret (0, v)
        else r ← lift (push_front x v); r ← push_front_more fuel (bytes - iov_len x) r.2; mret (iov_len x + r.1, r.2)
  end.
Fixpoint push_back_more (fuel : nat) (bytes : Z) (v : iovector) : MH (Z * iovector) :=
  match fuel with
  | O => throw OutOfFuel
  | S fuel =>
      if bytes =? 0 then mret (0, v)
      else
        x ← new_iovec bytes v;
        if iov_len x =? 0 then mret (0, v)
        else r ← lift (push_back x v); r ← push_back_more fuel (bytes - iov_len x) r.2; mret (iov_len x + r.1, r.2)
  end.
Definition push_fuel (bytes : Z) : nat := S (S (Z.to_nat (bytes / INT_MAX))).
Definition push_front_alloc (bytes : Z) (v : iovector) : MH (Z * iovector) :=
  x ← new_iovec bytes v;
  if iov_len x =? 0 then mret (0, v)
  else
    r ← lift (push_front x v);
    if r.1 =? bytes then mret r
    else r ← push_front_more (push_fuel bytes) (bytes - iov_len x) r.2; mret (iov_len x + r.1, r.2).
Definition push_back_alloc (bytes : Z) (v : iovector) : MH (Z * iovector) :=
  x ← new_iovec bytes v;
  if iov_len x =? 0 then mret (0, v)
  else
    r ← lift (push_back x v);
    if r.1 =? bytes then mret r
    else r ← push_back_more (push_fuel bytes) (bytes - iov_len x) r.2; mret (iov_len x + r.1, r.2).

Definition truncate (size : Z) (v : iovector) : MH (Z * iovector) :=
  r ← lift (iv_shrink_to size v);
  if r.1 =? size then mret (size, r.2)
  else q ← push_back_alloc (size - r.1) r.2; mret (r.1 + q.1, q.2).

(** The extractions: discarding, copying to a buffer. *)
Definition extract_front (n : Z) (v : iovector) : MH (Z * iovector) :=
  lift (do_assert v) ;; r ← do_extract_front cb_skip tt n (view v); mret (r.1, after_front r.2 v).
Definition extract_front_buf (n buf : Z) (v : iovector) : MH (Z * iovector) :=
  lift (do_assert v) ;; r ← do_extract_front cb_copy_front buf n (view v); mret (r.1, after_front r.2 v).
Definition extract_back (n : Z) (v : iovector) : MH (Z * iovector) :=
  lift (do_assert v) ;; r ← do_extract_back cb_skip tt n (view v); mret (r.1, after_back r.2 v).
Definition extract_back_buf (n buf : Z) (v : iovector) : MH (Z * iovector) :=
  lift (do_assert v) ;; r ← do_extract_back cb_copy_back (buf + n) n (view v); mret (r.1, after_back r.2 v).

(** An iovec in memory, and an array of them. *)
Definition write_iovec (p : Z) (x : iovec) : MH unit := write_u64 p (iov_base x) ;; write_u64 (p + 8) (iov_len x).
Fixpoint write_iovecs (p : Z) (w : list iovec) : MH unit :=
  match w with [] => mret tt | x :: w => write_iovec p x ;; write_iovecs (p + 16) w end.

(** Into an empty view, whose array is allocated: the value returned, the address of
    the array and the count. *)
Definition extract_front_view (n : Z) (v : iovector) : MH (Z * (Z * Z) * iovector) :=
  if n =? 0 then mret (0, (0, 0), v)
  else
    cnt ← lift (iovcnt v);
    ptr ← do_malloc (cnt * 16) v;
    if ptr =? 0 then mret (-1, (0, 0), v)
    else
      r ← do_extract_front (cb_view_front (Z.to_nat cnt)) [] n (view v);
      write_iovecs ptr (ex_acc r.2) ;;
      mret (r.1, (ptr, Z.of_nat (length (ex_acc r.2))), after_front r.2 v).
Definition extract_back_view (n : Z) (v : iovector) : MH (Z * (Z * Z) * iovector) :=
  if n =? 0 then mret (0, (0, 0), v)
  else
    cnt ← lift (iovcnt v);
    ptr ← do_malloc (cnt * 16) v;
    if ptr =? 0 then mret (-1, (0, 0), v)
    else
      r ← do_extract_back (cb_view_back (Z.to_nat cnt)) [] n (view v);
      let at_ := ptr + 16 * (cnt - Z.of_nat (length (ex_acc r.2))) in
      write_iovecs at_ (ex_acc r.2) ;;
      mret (r.1, (at_, Z.of_nat (length (ex_acc r.2))), after_back r.2 v).

(** Contiguous extraction: in place when the first (last) iovec has enough bytes,
    else by copying to a fresh buffer. *)
Definition view_front_continuous (n : Z) (w : list iovec) : option (Z * list iovec) :=
  match w with
  | f :: w => if iov_len f <? n then None else Some (iov_base f, mk_iovec (iov_base f + n) (iov_len f - n) :: w)
  | [] => None
  end.
Definition view_back_continuous (n : Z) (w : list iovec) : option (Z * list iovec) :=
  match reverse w with
  | b :: w => if iov_len b <? n then None else Some (iov_base b + (iov_len b - n), reverse (mk_iovec (iov_base b) (iov_len b - n) :: w))
  | [] => None
  end.
Definition extract_front_continuous (n : Z) (v : iovector) : MH (Z * iovector) :=
  lift (do_assert v) ;;
  let '(ptr, v) := match view_front_continuous n (view v) with Some (ptr, w) => (ptr, put_view w v) | None => (0, v) end in
  if negb (ptr =? 0) then
    f ← lift (iv_front v);
    mret (ptr, if iov_len f =? 0 then set_iov_begin (iov_begin v + 1) v else v)
  else
    buf ← do_malloc n v;
    r ← extract_front_buf n buf v;
    mret (if r.1 =? n then buf else 0, r.2).
Definition extract_back_continuous (n : Z) (v : iovector) : MH (Z * iovector) :=
  lift (do_assert v) ;;
  let '(ptr, v) := match view_back_continuous n (view v) with Some (ptr, w) => (ptr, put_view w v) | None => (0, v) end in
  if negb (ptr =? 0) then mret (ptr, v)
  else
    buf ← do_malloc n v;
    r ← extract_back_buf n buf v;
    mret (if r.1 =? n then buf else 0, r.2).

Definition iv_memcpy_to (buf size : Z) (v : iovector) : MH Z := lift (do_assert v) ;; view_memcpy_to buf size (view v).
Definition iv_memcpy_from (buf size : Z) (v : iovector) : MH Z := lift (do_assert v) ;; view_memcpy_from buf size (view v).
End class.
