(* ===== verification/IoVectorSpec.v ===== *)
(** * Facts about the byte memory and about the data a view denotes

    What loads and stores see of a memory, the frame of a store, fresh memory, words
    in memory, and [data]: the bytes a list of iovecs denotes. *)

From S2P Require Import Prelude IoVector.

Section loads.
Implicit Types (m : gmap Z Z) (p a : Z) (n : nat) (bs : list Z).

Lemma load_spec m p n bs :
  load m p n = Some bs ↔ length bs = n ∧ ∀ i b, bs !! i = Some b → m !! (p + Z.of_nat i) = Some b.
Proof.
  revert p bs. induction n as [|n IH]; intros p bs; cbn.
  - split; [intros [= <-]; split; [done|]; intros i b; by rewrite lookup_nil|]. intros [H _]. by destruct bs.
  - split.
    + destruct (m !! p) as [b|] eqn:Hp; cbn; [|done]. destruct (load m (p + 1) n) as [cs|] eqn:Hl; cbn; [|done].
      intros [= <-]. apply IH in Hl as [Hn Hcs]. cbn. split; [lia|]. intros [|i] c; cbn.
      * intros [= <-]. by rewrite Z.add_0_r.
      * intros Hc%Hcs. by replace (p + Z.of_nat (S i)) with (p + 1 + Z.of_nat i) by lia.
    + intros [Hn Hb]. destruct bs as [|b bs]; [done|]. assert (m !! p = Some b) as -> by (specialize (Hb 0%nat b eq_refl); by rewrite Z.add_0_r in Hb).
      cbn. assert (load m (p + 1) n = Some bs) as ->; [|done]. apply IH. cbn in Hn. split; [lia|].
      intros i c Hi. replace (p + 1 + Z.of_nat i) with (p + Z.of_nat (S i)) by lia. by apply Hb.
Qed.
Lemma load_length m p n bs : load m p n = Some bs → length bs = n.
Proof. by intros [? _]%load_spec. Qed.
Lemma load_ext m m' p n :
  (∀ a, p ≤ a < p + Z.of_nat n → m !! a = m' !! a) → load m p n = load m' p n.
Proof.
  revert p. induction n as [|n IH]; intros p H; cbn; [done|].
  rewrite (H p) by lia. destruct (m' !! p); cbn; [|done]. by rewrite IH by (intros; apply H; lia).
Qed.
Lemma load_app m p n1 n2 bs1 bs2 :
  load m p n1 = Some bs1 → load m (p + Z.of_nat n1) n2 = Some bs2 → load m p (n1 + n2) = Some (bs1 ++ bs2).
Proof.
  intros [L1 H1]%load_spec [L2 H2]%load_spec. apply load_spec. split; [rewrite length_app; lia|].
  intros i b [Hi|[Hi Hb]]%lookup_app_Some; [by apply H1|]. apply H2 in Hb. by replace (p + Z.of_nat i) with (p + Z.of_nat n1 + Z.of_nat (i - length bs1)) by lia.
Qed.
Lemma load_take m p n k bs : load m p n = Some bs → (k ≤ n)%nat → load m p k = Some (take k bs).
Proof.
  intros [L H]%load_spec Hk. apply load_spec. rewrite length_take. split; [lia|].
  intros i b [Hi _]%lookup_take_Some. by apply H.
Qed.
Lemma load_drop m p n k bs :
  load m p n = Some bs → (k ≤ n)%nat → load m (p + Z.of_nat k) (n - k) = Some (drop k bs).
Proof.
  intros [L H]%load_spec Hk. apply load_spec. rewrite length_drop. split; [lia|].
  intros i b. rewrite lookup_drop. intros Hb%H. by replace (p + Z.of_nat k + Z.of_nat i) with (p + Z.of_nat (k + i)) by lia.
Qed.
Lemma load_sub m p n bs k l :
  load m p n = Some bs → (k + l ≤ n)%nat → load m (p + Z.of_nat k) l = Some (take l (drop k bs)).
Proof. intros H Hk. eapply load_take; [eapply load_drop; [exact H|lia]|lia]. Qed.
Lemma load_mapped m p n bs a : load m p n = Some bs → p ≤ a < p + Z.of_nat n → is_Some (m !! a).
Proof.
  intros [L H]%load_spec Ha. destruct (lookup_lt_is_Some_2 bs (Z.to_nat (a - p))) as [b Hb]; [lia|].
  apply H in Hb. rewrite Z2Nat.id in Hb by lia. exists b. by replace a with (p + (a - p)) by lia.
Qed.
Lemma load_total m p n : (∀ a, p ≤ a < p + Z.of_nat n → is_Some (m !! a)) → is_Some (load m p n).
Proof.
  revert p. induction n as [|n IH]; intros p H; cbn; [done|].
  destruct (H p) as [b ->]; [lia|]. destruct (IH (p + 1)) as [bs ->]; [intros; apply H; lia|]. by eexists.
Qed.

Definition in_range (p n a : Z) : bool := (p <=? a) && (a <? p + n).
Lemma in_range_spec (p n a : Z) : reflect (p ≤ a < p + n) (in_range p n a).
Proof. apply iff_reflect. unfold in_range. rewrite andb_true_iff, Z.leb_le, Z.ltb_lt. lia. Qed.

Lemma store_lookup m p bs m' a :
  store m p bs = Some m' →
  m' !! a = if in_range p (Z.of_nat (length bs)) a then bs !! Z.to_nat (a - p) else m !! a.
Proof.
  revert m p. induction bs as [|b bs IH]; intros m p; cbn [store length].
  - intros [= <-]. by destruct (in_range_spec p (Z.of_nat 0) a); [lia|].
  - destruct (m !! p); [|done]. intros ->%IH. rewrite Nat2Z.inj_succ.
    destruct (decide (a = p)) as [->|Hne].
    + destruct (in_range_spec (p + 1) (Z.of_nat (length bs)) p), (in_range_spec p (Z.succ (Z.of_nat (length bs))) p); try lia.
      by rewrite lookup_insert_eq, Z.sub_diag.
    + rewrite lookup_insert_ne by congruence.
      destruct (in_range_spec (p + 1) (Z.of_nat (length bs)) a), (in_range_spec p (Z.succ (Z.of_nat (length bs))) a); try lia; [|done].
      by replace (Z.to_nat (a - p)) with (S (Z.to_nat (a - (p + 1)))) by lia.
Qed.
Lemma store_frame m p bs m' a :
  store m p bs = Some m' → a < p ∨ p + Z.of_nat (length bs) ≤ a → m' !! a = m !! a.
Proof. intros H Ha. rewrite (store_lookup _ _ _ _ _ H). by destruct (in_range_spec p (Z.of_nat (length bs)) a); [lia|]. Qed.
Lemma store_load_same m p bs m' : store m p bs = Some m' → load m' p (length bs) = Some bs.
Proof.
  intros H. apply load_spec. split; [done|]. intros i b Hi. rewrite (store_lookup _ _ _ _ _ H).
  pose proof (lookup_lt_Some _ _ _ Hi). destruct (in_range_spec p (Z.of_nat (length bs)) (p + Z.of_nat i)); [|lia].
  by replace (Z.to_nat (p + Z.of_nat i - p)) with i by lia.
Qed.
Lemma store_load_ne m p bs m' q n :
  store m p bs = Some m' → q + Z.of_nat n ≤ p ∨ p + Z.of_nat (length bs) ≤ q → load m' q n = load m q n.
Proof. intros H Hq. apply load_ext. intros a Ha. apply (store_frame _ _ _ _ _ H). lia. Qed.
Lemma store_total m p bs : (∀ a, p ≤ a < p + Z.of_nat (length bs) → is_Some (m !! a)) → is_Some (store m p bs).
Proof.
  revert m p. induction bs as [|b bs IH]; intros m p H; cbn; [done|].
  destruct (H p) as [c ->]; [cbn; lia|]. apply IH. intros a Ha. destruct (decide (a = p)) as [->|]; [rewrite lookup_insert_eq; by eexists|].
  rewrite lookup_insert_ne by congruence. apply H. cbn. lia.
Qed.
Lemma store_dom m p bs m' a : store m p bs = Some m' → is_Some (m' !! a) ↔ is_Some (m !! a).
Proof.
  revert m p. induction bs as [|b bs IH]; intros m p; cbn; [by intros [= <-]|].
  destruct (m !! p) as [c|] eqn:Hp; [|done]. intros H%IH. rewrite H.
  destruct (decide (a = p)) as [->|]; [rewrite lookup_insert_eq, Hp; split; intros; by eexists|]. by rewrite lookup_insert_ne by congruence.
Qed.

Lemma map_fresh_lookup junk m p n a :
  map_fresh junk m p n !! a = if in_range p (Z.of_nat n) a then Some (junk a) else m !! a.
Proof.
  revert m p. induction n as [|n IH]; intros m p; cbn [map_fresh].
  - by destruct (in_range_spec p (Z.of_nat 0) a); [lia|].
  - rewrite IH, Nat2Z.inj_succ. destruct (decide (a = p)) as [->|Hne].
    + rewrite lookup_insert_eq. by destruct (in_range_spec (p + 1) (Z.of_nat n) p), (in_range_spec p (Z.succ (Z.of_nat n)) p); try lia.
    + rewrite lookup_insert_ne by congruence.
      by destruct (in_range_spec (p + 1) (Z.of_nat n) a), (in_range_spec p (Z.succ (Z.of_nat n)) a); try lia.
Qed.
End loads.

(** ** Words in memory *)
Lemma length_le_bytes n z : length (le_bytes n z) = n.
Proof. revert z. induction n as [|n IH]; intros z; cbn; [done|by rewrite IH]. Qed.
Lemma le_value_bytes n z : 0 ≤ z < 256 ^ Z.of_nat n → le_value (le_bytes n z) = z.
Proof.
  revert z. induction n as [|n IH]; intros z Hz; cbn [le_bytes le_value]; [cbn in Hz; lia|].
  rewrite IH; [pose proof (Z.div_mod z 256); lia|]. rewrite Nat2Z.inj_succ, Z.pow_succ_r in Hz by lia.
  split; [apply Z.div_pos; lia|]. apply Z.div_lt_upper_bound; lia.
Qed.

(** ** The bytes of a view *)
Fixpoint data (m : gmap Z Z) (w : list iovec) : option (list Z) :=
  match w with
  | [] => Some []
  | v :: w => bs ← load m (iov_base v) (Z.to_nat (iov_len v)); ds ← data m w; Some (bs ++ ds)
  end.

Section data.
Implicit Types (m : gmap Z Z) (w : list iovec) (d : list Z).

Lemma data_cons m v w d :
  data m (v :: w) = Some d ↔ ∃ bs ds, load m (iov_base v) (Z.to_nat (iov_len v)) = Some bs ∧ data m w = Some ds ∧ d = bs ++ ds.
Proof. cbn. destruct (load m _ _), (data m w); cbn; naive_solver. Qed.
Lemma data_app m w1 w2 d :
  data m (w1 ++ w2) = Some d ↔ ∃ d1 d2, data m w1 = Some d1 ∧ data m w2 = Some d2 ∧ d = d1 ++ d2.
Proof.
  revert d. induction w1 as [|v w1 IH]; intros d; cbn [app].
  - split; [intros H; by exists [], d|]. by intros (d1 & d2 & [= <-] & ? & ->).
  - rewrite data_cons. setoid_rewrite IH. setoid_rewrite data_cons. split.
    + intros (bs & ds & Hb & (d1 & d2 & H1 & H2 & ->) & ->). exists (bs ++ d1), d2. rewrite <- app_assoc. naive_solver.
    + intros (d1 & d2 & (bs & ds & Hb & H1 & ->) & H2 & ->). exists bs, (ds ++ d2). rewrite <- app_assoc. naive_solver.
Qed.
Lemma data_one m v : data m [v] = load m (iov_base v) (Z.to_nat (iov_len v)).
Proof. cbn. destruct (load m _ _); cbn; [by rewrite app_nil_r|done]. Qed.
Lemma data_length m w d : Forall (λ v, 0 ≤ iov_len v) w → data m w = Some d → Z.of_nat (length d) = view_sum w.
Proof.
  intros Hw. revert d. induction Hw as [|v w Hv Hw IH]; intros d; [by intros [= <-]|].
  intros (bs & ds & Hb & Hd & ->)%data_cons. cbn [view_sum foldr]. rewrite length_app, Nat2Z.inj_add, (IH ds Hd), (load_length _ _ _ _ Hb). unfold view_sum. lia.
Qed.

(** Address [a] lies in the view. *)
Definition covers w (a : Z) : Prop := ∃ v, v ∈ w ∧ iov_base v ≤ a < iov_base v + iov_len v.
Lemma covers_nil a : ¬ covers [] a.
Proof. by intros (v & ?%elem_of_nil & _). Qed.
Lemma covers_cons v w a : covers (v :: w) a ↔ iov_base v ≤ a < iov_base v + iov_len v ∨ covers w a.
Proof. unfold covers. setoid_rewrite elem_of_cons. naive_solver. Qed.
Lemma covers_app w1 w2 a : covers (w1 ++ w2) a ↔ covers w1 a ∨ covers w2 a.
Proof. unfold covers. setoid_rewrite elem_of_app. naive_solver. Qed.
Lemma covers_reverse w a : covers (reverse w) a ↔ covers w a.
Proof. unfold covers. by setoid_rewrite elem_of_reverse. Qed.
Lemma covers_concat ws a : covers (concat ws) a ↔ ∃ w, w ∈ ws ∧ covers w a.
Proof.
  induction ws as [|w ws IH]; cbn; [split; [by intros ?%covers_nil|by intros (? & ?%elem_of_nil & _)]|].
  rewrite covers_app, IH. setoid_rewrite elem_of_cons. naive_solver.
Qed.
Lemma data_ext m m' w : (∀ a, covers w a → m !! a = m' !! a) → data m w = data m' w.
Proof.
  induction w as [|v w IH]; intros H; [done|]. cbn.
  rewrite (load_ext m m') by (intros a Ha; apply H, covers_cons; left; lia).
  destruct (load m' _ _); cbn; [|done]. by rewrite IH by (intros a Ha; apply H, covers_cons; by right).
Qed.
Lemma data_mapped m w d a : data m w = Some d → covers w a → is_Some (m !! a).
Proof.
  revert d. induction w as [|v w IH]; intros d; [by intros _ ?%covers_nil|].
  intros (bs & ds & Hb & Hd & ->)%data_cons [Ha|Ha]%covers_cons; [|by eapply IH].
  apply (load_mapped _ _ _ _ _ Hb). lia.
Qed.
End data.

(** ** Rules of the memory operations *)
Definition heap_store (p : Z) (bs : list Z) (h h' : heap) : Prop :=
  store (bytes h) p bs = Some (bytes h') ∧ brk h' = brk h.

Section rules.
Implicit Types (h : heap) (Q : unit → heap → Prop).

Lemma wp_read_bytes p n bs (Q : list Z → heap → Prop) h :
  load (bytes h) p (Z.to_nat n) = Some bs → Q bs h → wp (read_bytes p n) Q h.
Proof. intros H HQ. unfold read_bytes. do 2 wstep. rewrite H. by wstep. Qed.
Lemma wp_write_bytes p bs Q h :
  (∀ a, p ≤ a < p + Z.of_nat (length bs) → is_Some (bytes h !! a)) →
  (∀ h', heap_store p bs h h' → Q tt h') → wp (write_bytes p bs) Q h.
Proof.
  intros Hm HQ. unfold write_bytes. do 2 wstep. destruct (store_total (bytes h) p bs Hm) as [m' Hm']. rewrite Hm'.
  wstep. by apply HQ.
Qed.
Lemma wp_memcpy dst src n bs Q h :
  0 ≤ n → n = 0 ∨ dst + n ≤ src ∨ src + n ≤ dst →
  load (bytes h) src (Z.to_nat n) = Some bs → (∀ a, dst ≤ a < dst + n → is_Some (bytes h !! a)) →
  (∀ h', heap_store dst bs h h' → Q tt h') → wp (memcpy dst src n) Q h.
Proof.
  intros Hn Hd Hl Hm HQ. unfold memcpy.
  replace ((dst + n <=? src) || (src + n <=? dst) || (n <=? 0)) with true;
    [|destruct (Z.leb_spec (dst + n) src), (Z.leb_spec (src + n) dst); cbn; try done; lia].
  wstep. apply (wp_read_bytes _ _ bs); [done|]. apply wp_write_bytes; [|done].
  intros a Ha. rewrite (load_length _ _ _ _ Hl) in Ha. apply Hm. lia.
Qed.
Lemma wp_read_u64 p z (Q : Z → heap → Prop) h :
  load (bytes h) p 8 = Some (le_bytes 8 z) → 0 ≤ z < 2 ^ 64 → Q z h → wp (read_u64 p) Q h.
Proof.
  intros Hl Hz HQ. unfold read_u64. wstep. apply (wp_read_bytes _ _ (le_bytes 8 z)); [done|]. wstep.
  by rewrite le_value_bytes by (change (256 ^ Z.of_nat 8) with (2 ^ 64); lia).
Qed.
Lemma wp_write_u64 p z Q h :
  (∀ a, p ≤ a < p + 8 → is_Some (bytes h !! a)) → (∀ h', heap_store p (le_bytes 8 z) h h' → Q tt h') → wp (write_u64 p z) Q h.
Proof. intros Hm HQ. unfold write_u64. apply wp_write_bytes; [|done]. rewrite length_le_bytes. intros a Ha. apply Hm. lia. Qed.
End rules.

(** * Extraction from a view

    [cut_front] and [cut_back] are the reference: the pieces an extraction hands to
    its callback, the iovecs it pops and the ones it leaves.  The loops of the code
    run their callback on the pieces in order, and the data of the pieces and of
    what is left are the two parts of the data. *)

Record cutting : Type := mk_cut { pieces : list iovec; popped : list iovec; rest : list iovec; missing : Z }.

Fixpoint cut_front (n : Z) (w : list iovec) : cutting :=
  match w with
  | [] => mk_cut [] [] [] n
  | v :: w' =>
      if n <=? iov_len v then
        if iov_len v - n =? 0 then mk_cut [mk_iovec (iov_base v) n] [mk_iovec (iov_base v) 0] w' 0
        else mk_cut [mk_iovec (iov_base v) n] [] (mk_iovec (iov_base v + n) (iov_len v - n) :: w') 0
      else let c := cut_front (n - iov_len v) w' in mk_cut (v :: pieces c) (v :: popped c) (rest c) (missing c)
  end.
Fixpoint cut_back (n : Z) (w : list iovec) : cutting :=
  match w with
  | [] => mk_cut [] [] [] n
  | v :: w' =>
      if n <=? iov_len v then
        if iov_len v - n =? 0 then mk_cut [mk_iovec (iov_base v + iov_len v - n) n] [mk_iovec (iov_base v) 0] w' 0
        else mk_cut [mk_iovec (iov_base v + iov_len v - n) n] [] (mk_iovec (iov_base v) (iov_len v - n) :: w') 0
      else let c := cut_back (n - iov_len v) w' in mk_cut (v :: pieces c) (v :: popped c) (rest c) (missing c)
  end.

Abbreviation lens_ok := (Forall (λ v, 0 ≤ iov_len v)).

Section cuts.
Implicit Types (m : gmap Z Z) (w : list iovec) (d : list Z).

Lemma cut_front_data m n w d :
  lens_ok w → 0 < n → data m w = Some d →
  let c := cut_front n w in
  data m (pieces c) = Some (take (Z.to_nat n) d) ∧ data m (rest c) = Some (drop (Z.to_nat n) d) ∧
  missing c = Z.max 0 (n - Z.of_nat (length d)).
Proof.
  intros Hw. revert n d. induction Hw as [|v w Hv Hw IH]; intros n d Hn; cbn [cut_front].
  - intros [= <-]. rewrite take_nil, drop_nil. cbn. split_and!; [done..|lia].
  - intros (bs & ds & Hb & Hd & ->)%data_cons. pose proof (load_length _ _ _ _ Hb) as Hlen.
    destruct (Z.leb_spec n (iov_len v)) as [Hle|Hgt].
    + assert (Ht : load m (iov_base v) (Z.to_nat n) = Some (take (Z.to_nat n) (bs ++ ds))).
      { rewrite take_app_le by lia. eapply load_take; [done|lia]. }
      assert (Hmiss : 0 = Z.max 0 (n - Z.of_nat (length (bs ++ ds)))) by (rewrite length_app; lia).
      destruct (Z.eqb_spec (iov_len v - n) 0) as [E|E]; cbn [pieces rest missing]; rewrite data_one; cbn [iov_base iov_len].
      * split_and!; [done| |done]. by rewrite drop_app_ge, (proj2 (Nat.sub_0_le _ _)) by lia.
      * split_and!; [done| |done]. apply data_cons. cbn [iov_base iov_len]. exists (drop (Z.to_nat n) bs), ds.
        split_and!; [|done|by rewrite drop_app_le by lia].
        replace (iov_base v + n) with (iov_base v + Z.of_nat (Z.to_nat n)) by lia.
        replace (Z.to_nat (iov_len v - n)) with (Z.to_nat (iov_len v) - Z.to_nat n)%nat by lia. eapply load_drop; [done|lia].
    + destruct (IH (n - iov_len v) ds) as (Hp & Hr & Hm); [lia|done|]. cbn [pieces rest missing].
      replace (Z.to_nat (n - iov_len v)) with (Z.to_nat n - length bs)%nat in * by lia. split_and!.
      * apply data_cons. exists bs, (take (Z.to_nat n - length bs) ds). by rewrite take_app_ge by lia.
      * by rewrite drop_app_ge by lia.
      * rewrite Hm, length_app. lia.
Qed.
Lemma cut_back_data m n w d :
  lens_ok w → 0 < n → data m (reverse w) = Some d →
  let c := cut_back n w in
  data m (reverse (pieces c)) = Some (drop (length d - Z.to_nat n) d) ∧
  data m (reverse (rest c)) = Some (take (length d - Z.to_nat n) d) ∧
  missing c = Z.max 0 (n - Z.of_nat (length d)).
Proof.
  intros Hw. revert n d. induction Hw as [|v w Hv Hw IH]; intros n d Hn; cbn [cut_back].
  - intros [= <-]. cbn. split_and!; [done..|lia].
  - rewrite reverse_cons. intros (ds & bs & Hd & Hb & ->)%data_app. rewrite data_one in Hb.
    pose proof (load_length _ _ _ _ Hb) as Hlen. destruct (Z.leb_spec n (iov_len v)) as [Hle|Hgt].
    + assert (Hk : (length (ds ++ bs) - Z.to_nat n = length ds + (length bs - Z.to_nat n))%nat) by (rewrite length_app; lia).
      assert (Ht : load m (iov_base v + iov_len v - n) (Z.to_nat n) = Some (drop (length bs - Z.to_nat n) bs)).
      { replace (iov_base v + iov_len v - n) with (iov_base v + Z.of_nat (length bs - Z.to_nat n)) by lia.
        replace (Z.to_nat n) with (Z.to_nat (iov_len v) - (length bs - Z.to_nat n))%nat at 2 by lia. eapply load_drop; [done|lia]. }
      assert (Hmiss : 0 = Z.max 0 (n - Z.of_nat (length (ds ++ bs)))) by (rewrite length_app; lia).
      rewrite Hk, drop_app_ge, Nat.add_sub' by lia. rewrite take_app_ge, Nat.add_sub' by lia.
      destruct (Z.eqb_spec (iov_len v - n) 0) as [E|E]; cbn [pieces rest missing]; rewrite reverse_singleton, data_one; cbn [iov_base iov_len].
      * split_and!; [done| |done]. replace (length bs - Z.to_nat n)%nat with 0%nat by lia. by rewrite take_0, app_nil_r.
      * split_and!; [done| |done]. rewrite reverse_cons. apply data_app. exists ds, (take (length bs - Z.to_nat n) bs).
        split_and!; [done| |done]. rewrite data_one. cbn [iov_base iov_len].
        replace (Z.to_nat (iov_len v - n)) with (length bs - Z.to_nat n)%nat by lia. eapply load_take; [done|lia].
    + destruct (IH (n - iov_len v) ds) as (Hp & Hr & Hm); [lia|done|]. cbn [pieces rest missing].
      replace (length (ds ++ bs) - Z.to_nat n)%nat with (length ds - Z.to_nat (n - iov_len v))%nat by (rewrite length_app; lia). split_and!.
      * rewrite reverse_cons. apply data_app. exists (drop (length ds - Z.to_nat (n - iov_len v)) ds), bs. rewrite data_one.
        by rewrite drop_app_le by lia.
      * by rewrite take_app_le by lia.
      * rewrite Hm, length_app. lia.
Qed.

(** Both keep the number of iovecs, their lengths and the memory they cover. *)
Lemma cut_front_shape n w :
  lens_ok w → 0 < n → let c := cut_front n w in
  length (popped c ++ rest c) = length w ∧ lens_ok (popped c) ∧ lens_ok (pieces c) ∧ lens_ok (rest c) ∧ (length (pieces c) ≤ length w)%nat ∧
  (∀ a, covers (pieces c) a ∨ covers (rest c) a → covers w a).
Proof.
  intros Hw. revert n. induction Hw as [|v w Hv Hw IH]; intros n Hn; cbn [cut_front]; [cbn; split_and!; try done; naive_solver|].
  destruct (Z.leb_spec n (iov_len v)) as [Hle|Hgt]; [destruct (Z.eqb_spec (iov_len v - n) 0) as [E|E]|]; cbn [pieces popped rest app length].
  - split_and!; [done|repeat constructor; cbn; lia|repeat constructor; cbn; lia|done|lia|]. intros a [[Ha|?%covers_nil]%covers_cons|Ha]; [|done|]; apply covers_cons; cbn in *; [left; lia|by right].
  - split_and!; [done|constructor|repeat constructor; cbn; lia|constructor; [cbn; lia|done]|lia|].
    intros a [[Ha|?%covers_nil]%covers_cons|[Ha|Ha]%covers_cons]; [|done| |]; apply covers_cons; cbn in *; [left; lia|left; lia|by right].
  - destruct (IH (n - iov_len v)) as (Hl & Ho & Hp & Hr & Hc & Ha); [lia|]. rewrite Hl. split_and!; [done|by constructor|by constructor|done|lia|].
    intros a. rewrite !covers_cons. naive_solver.
Qed.
Lemma cut_back_shape n w :
  lens_ok w → 0 < n → let c := cut_back n w in
  length (popped c ++ rest c) = length w ∧ lens_ok (popped c) ∧ lens_ok (pieces c) ∧ lens_ok (rest c) ∧ (length (pieces c) ≤ length w)%nat ∧
  (∀ a, covers (pieces c) a ∨ covers (rest c) a → covers w a).
Proof.
  intros Hw. revert n. induction Hw as [|v w Hv Hw IH]; intros n Hn; cbn [cut_back]; [cbn; split_and!; try done; naive_solver|].
  destruct (Z.leb_spec n (iov_len v)) as [Hle|Hgt]; [destruct (Z.eqb_spec (iov_len v - n) 0) as [E|E]|]; cbn [pieces popped rest app length].
  - split_and!; [done|repeat constructor; cbn; lia|repeat constructor; cbn; lia|done|lia|]. intros a [[Ha|?%covers_nil]%covers_cons|Ha]; [|done|]; apply covers_cons; cbn in *; [left; lia|by right].
  - split_and!; [done|constructor|repeat constructor; cbn; lia|constructor; [cbn; lia|done]|lia|].
    intros a [[Ha|?%covers_nil]%covers_cons|[Ha|Ha]%covers_cons]; [|done| |]; apply covers_cons; cbn in *; [left; lia|left; lia|by right].
  - destruct (IH (n - iov_len v)) as (Hl & Ho & Hp & Hr & Hc & Ha); [lia|]. rewrite Hl. split_and!; [done|by constructor|by constructor|done|lia|].
    intros a. rewrite !covers_cons. naive_solver.
Qed.
End cuts.

(** ** The loops run their callback on the pieces

    [I c ps] is an invariant of the callback's state [c] with the pieces [ps] to come. *)
Section loops.
Context {C : Type} (cb : C → Z → Z → M heap (option C)) (I : C → list iovec → heap → Prop).
Hypothesis Hcb : ∀ c v ps h, I c (v :: ps) h →
  wp (cb c (iov_base v) (iov_len v)) (λ r h', ∃ c', r = Some c' ∧ I c' ps h') h.

Definition cut_result (t : cutting) (e : extraction C) (h : heap) : Prop :=
  ex_left e = Some (missing t) ∧ ex_popped e = popped t ∧ ex_rest e = rest t ∧ I (ex_acc e) [] h.

Lemma wp_extract_front_loop n w c h :
  I c (pieces (cut_front n w)) h → wp (extract_front_loop cb c n w) (cut_result (cut_front n w)) h.
Proof.
  revert n c h. induction w as [|v w IH]; intros n c h HI; cbn [extract_front_loop cut_front] in *; [by wstep|].
  destruct (n <=? iov_len v).
  - wstep. destruct (iov_len v - n =? 0); eapply wq_mono; try apply (Hcb _ _ _ _ HI); intros r h' (c' & -> & HI'); by wstep.
  - wstep. eapply wq_mono; [apply (Hcb _ _ _ _ HI)|]. intros r h' (c' & -> & HI'). wstep.
    eapply wq_mono; [by apply IH|]. intros e h'' (? & ? & ? & ?). wstep. split_and!; cbn; congruence || done.
Qed.
Lemma wp_extract_back_loop n w c h :
  I c (pieces (cut_back n w)) h → wp (extract_back_loop cb c n w) (cut_result (cut_back n w)) h.
Proof.
  revert n c h. induction w as [|v w IH]; intros n c h HI; cbn [extract_back_loop cut_back] in *; [by wstep|].
  destruct (n <=? iov_len v).
  - wstep. destruct (iov_len v - n =? 0); eapply wq_mono; try apply (Hcb _ _ _ _ HI); intros r h' (c' & -> & HI'); by wstep.
  - wstep. eapply wq_mono; [apply (Hcb _ _ _ _ HI)|]. intros r h' (c' & -> & HI'). wstep.
    eapply wq_mono; [by apply IH|]. intros e h'' (? & ? & ? & ?). wstep. split_and!; cbn; congruence || done.
Qed.

Lemma wp_do_extract_front n w c h :
  0 < n → I c (pieces (cut_front n w)) h →
  wp (do_extract_front cb c n w) (λ r h', r.1 = n - missing (cut_front n w) ∧ cut_result (cut_front n w) r.2 h') h.
Proof.
  intros Hn HI. unfold do_extract_front. replace (n =? 0) with false by lia. wstep.
  eapply wq_mono; [by apply wp_extract_front_loop|]. intros e h' He. wstep. split; [|done]. destruct He as [-> _]. done.
Qed.
Lemma wp_do_extract_back n w c h :
  0 < n → I c (pieces (cut_back n (reverse w))) h →
  wp (do_extract_back cb c n w) (λ r h',
    r.1 = n - missing (cut_back n (reverse w)) ∧ ex_popped r.2 = reverse (popped (cut_back n (reverse w))) ∧
    ex_rest r.2 = reverse (rest (cut_back n (reverse w))) ∧ I (ex_acc r.2) [] h') h.
Proof.
  intros Hn HI. unfold do_extract_back. replace (n =? 0) with false by lia. wstep.
  eapply wq_mono; [by apply wp_extract_back_loop|]. intros e h' (Hl & Hp & Hr & HI'). wstep. cbn.
  rewrite Hl, Hp, Hr. done.
Qed.
End loops.
