(* ===== verification/IoVectorClass.v ===== *)
(** * The operations of the class [iovector]

    What each operation does to the bytes the vector denotes: pushing, popping and
    shrinking; extraction from either end, discarded, copied or contiguous; and
    which memory the result occupies. *)

From S2P Require Import Prelude IoVector IoVectorSpec.

(** ** Well-formed vectors *)
Record iov_ok (v : iovector) : Prop := {
  io_begin : 0 ≤ iov_begin v;
  io_order : iov_begin v ≤ iov_end v;
  io_end : iov_end v ≤ capacity v;
  io_bases : nbases v = 0;
  io_room : capacity v ≤ Z.of_nat (length (iovs v));
  io_width : capacity v < 65536;
  io_lens : lens_ok (view v)
}.

Section views.
Implicit Types (v : iovector) (w : list iovec).

Lemma view_length v : iov_ok v → Z.of_nat (length (view v)) = iov_end v - iov_begin v.
Proof. intros []. unfold view. rewrite length_take, length_drop. lia. Qed.
Lemma do_assert_ok v : iov_ok v → do_assert v = Ok tt.
Proof.
  intros []. unfold do_assert, assert_o. replace (iov_begin v <=? iov_end v) with true by lia.
  replace (iov_end v <=? capacity v) with true by lia. by replace (nbases v <=? capacity v) with true by lia.
Qed.
Lemma view_put w v : iov_ok v → length w = length (view v) → view (put_view w v) = w.
Proof.
  intros Hv Hl. pose proof (view_length v Hv). destruct Hv. unfold view, put_view. cbn.
  rewrite drop_app_ge by (rewrite length_take; lia). rewrite length_take_le by lia. rewrite Nat.sub_diag, drop_0.
  rewrite take_app_le, take_ge by lia. done.
Qed.
Lemma view_lookup v i : iov_ok v → 0 ≤ i < iov_end v - iov_begin v → iovs v !! Z.to_nat (iov_begin v + i) = view v !! Z.to_nat i.
Proof. intros [] Hi. unfold view. rewrite lookup_take_lt, lookup_drop by lia. f_equal. lia. Qed.
Lemma iv_at_ok v i x : iov_ok v → 0 ≤ i → view v !! Z.to_nat i = Some x → iv_at v i = Ok x.
Proof.
  intros Hv Hi Hx. pose proof (view_length v Hv). pose proof (lookup_lt_Some _ _ _ Hx). unfold iv_at.
  rewrite (do_assert_ok v Hv). unfold assert_o. replace (iov_begin v + i <? iov_end v) with true by lia.
  apply arr_get_Ok. split; [destruct Hv; lia|]. rewrite view_lookup by (done || lia). done.
Qed.
Lemma iv_front_ok v x l : iov_ok v → view v = x :: l → iv_front v = Ok x.
Proof.
  intros Hv Hx. pose proof (view_length v Hv) as Hl. rewrite Hx in Hl. cbn in Hl. unfold iv_front. rewrite (do_assert_ok v Hv).
  apply arr_get_Ok. split; [by destruct Hv|]. rewrite <- (Z.add_0_r (iov_begin v)), view_lookup by (done || lia). by rewrite Hx.
Qed.
Lemma iovs_put_length w v : iov_ok v → length w = length (view v) → length (iovs (put_view w v)) = length (iovs v).
Proof.
  intros Hv Hl. pose proof (view_length v Hv). destruct Hv. unfold put_view. cbn.
  rewrite !length_app, length_take, length_drop. lia.
Qed.
Lemma put_view_ok w v : iov_ok v → length w = length (view v) → lens_ok w → iov_ok (put_view w v).
Proof.
  intros Hv Hl Hw. split; try (destruct Hv; done).
  - rewrite iovs_put_length by done. by destruct Hv.
  - by rewrite view_put.
Qed.
Lemma view_drop_front v k : iov_ok v → 0 ≤ k ≤ iov_end v - iov_begin v → view (set_iov_begin (iov_begin v + k) v) = drop (Z.to_nat k) (view v).
Proof.
  intros [] Hk. unfold view. cbn. rewrite skipn_firstn_comm, drop_drop. f_equal; [lia|]. f_equal. lia.
Qed.
Lemma view_drop_back v k : iov_ok v → 0 ≤ k ≤ iov_end v - iov_begin v → view (set_iov_end (iov_begin v + k) v) = take (Z.to_nat k) (view v).
Proof. intros [] Hk. unfold view. cbn. rewrite take_take. f_equal. lia. Qed.

Lemma set_begin_ok v b : iov_ok v → iov_begin v ≤ b ≤ iov_end v → iov_ok (set_iov_begin b v).
Proof.
  intros Hv Hb. pose proof (view_drop_front v (b - iov_begin v) Hv) as Hview. rewrite Z.add_sub_assoc, Z.add_simpl_l in Hview.
  destruct Hv. split; cbn; try lia. rewrite Hview by lia. by apply Forall_drop.
Qed.
Lemma set_end_ok v e : iov_ok v → iov_begin v ≤ e ≤ iov_end v → iov_ok (set_iov_end e v).
Proof.
  intros Hv Hb. pose proof (view_drop_back v (e - iov_begin v) Hv) as Hview. rewrite Z.add_sub_assoc, Z.add_simpl_l in Hview.
  destruct Hv. split; cbn; try lia. rewrite Hview by lia. by apply Forall_take.
Qed.

Lemma after_front_spec {C} (e : extraction C) v :
  iov_ok v → length (ex_popped e ++ ex_rest e) = length (view v) → lens_ok (ex_popped e) → lens_ok (ex_rest e) →
  iov_ok (after_front e v) ∧ view (after_front e v) = ex_rest e ∧ capacity (after_front e v) = capacity v.
Proof.
  intros Hv Hl Hp Hr. unfold after_front. pose proof (put_view_ok _ v Hv Hl) as Hok.
  assert (Hw : lens_ok (ex_popped e ++ ex_rest e)) by by apply Forall_app. specialize (Hok Hw).
  pose proof (view_length v Hv) as Hn. rewrite length_app in Hl.
  assert (Hb : iov_end (put_view (ex_popped e ++ ex_rest e) v) - Z.of_nat (length (ex_rest e))
    = iov_begin (put_view (ex_popped e ++ ex_rest e) v) + Z.of_nat (length (ex_popped e))) by (cbn; lia).
  rewrite Hb. split_and!.
  - apply set_begin_ok; [done|]. cbn. lia.
  - rewrite view_drop_front by (done || cbn; lia). rewrite view_put by (done || (rewrite length_app; lia)).
    by rewrite Nat2Z.id, drop_app_length.
  - done.
Qed.
Lemma after_back_spec {C} (e : extraction C) v :
  iov_ok v → length (ex_rest e ++ ex_popped e) = length (view v) → lens_ok (ex_popped e) → lens_ok (ex_rest e) →
  iov_ok (after_back e v) ∧ view (after_back e v) = ex_rest e ∧ capacity (after_back e v) = capacity v.
Proof.
  intros Hv Hl Hp Hr. unfold after_back. pose proof (put_view_ok _ v Hv Hl) as Hok.
  assert (Hw : lens_ok (ex_rest e ++ ex_popped e)) by by apply Forall_app. specialize (Hok Hw).
  pose proof (view_length v Hv) as Hn. rewrite length_app in Hl. split_and!.
  - apply set_end_ok; [done|]. cbn. lia.
  - rewrite view_drop_back by (done || cbn; lia). rewrite view_put by (done || (rewrite length_app; lia)).
    by rewrite Nat2Z.id, take_app_length.
  - done.
Qed.
End views.

(** ** Memory shared out among iovecs *)
Fixpoint sep (w : list iovec) : Prop :=
  match w with
  | [] => True
  | v :: w => (∀ a, iov_base v ≤ a < iov_base v + iov_len v → ¬ covers w a) ∧ sep w
  end.

(** Every mapped address is positive and below [brk]. *)
Definition heap_ok (h : heap) : Prop := 0 < brk h ∧ ∀ a, is_Some (bytes h !! a) → 0 < a < brk h.
(** [h'] has everything of [h] below its [brk]. *)
Definition grows (h h' : heap) : Prop := brk h ≤ brk h' ∧ ∀ a, a < brk h → bytes h' !! a = bytes h !! a.

Section seps.
Implicit Types (w : list iovec) (m : gmap Z Z) (h : heap).

Lemma sep_app w1 w2 : sep (w1 ++ w2) ↔ sep w1 ∧ sep w2 ∧ ∀ a, covers w1 a → ¬ covers w2 a.
Proof.
  induction w1 as [|v w1 IH]; cbn [app sep]; [split; [intros; split_and!; try done; by intros a ?%covers_nil|naive_solver]|].
  rewrite IH. setoid_rewrite covers_app. setoid_rewrite covers_cons. naive_solver.
Qed.
Lemma sep_incl_app w1 w2 w2' : sep (w1 ++ w2) → sep w2' → (∀ a, covers w2' a → covers w2 a) → sep (w1 ++ w2').
Proof. rewrite !sep_app. naive_solver. Qed.
Lemma sep_reverse w : sep (reverse w) ↔ sep w.
Proof.
  induction w as [|v w IH]; [done|]. rewrite reverse_cons, sep_app, IH. cbn [sep]. setoid_rewrite covers_reverse.
  setoid_rewrite covers_cons. split.
  - intros (Hw & _ & H). split; [|done]. intros a Ha Hc. apply (H a Hc). by left.
  - intros [H Hw]. split_and!; [done|intros a _; by apply covers_nil|done|]. intros a Hc [Ha|?%covers_nil]; [|done]. by apply (H a).
Qed.
Lemma cut_front_sep n w : lens_ok w → 0 < n → sep w → sep (rest (cut_front n w)) ∧ sep (pieces (cut_front n w)) ∧
  ∀ a, covers (pieces (cut_front n w)) a → ¬ covers (rest (cut_front n w)) a.
Proof.
  intros Hw. revert n. induction Hw as [|v w Hv Hw IH]; intros n Hn; cbn [cut_front sep]; [intros _; split_and!; try done; by intros a ?%covers_nil|].
  intros [Hs Hsw]. destruct (Z.leb_spec n (iov_len v)) as [Hle|Hgt]; [destruct (Z.eqb_spec (iov_len v - n) 0) as [E|E]|]; cbn [pieces rest].
  - split_and!; [done|split; [|done]; intros a _; by apply covers_nil|]. intros a [Ha|?%covers_nil]%covers_cons; [|done]. apply Hs. cbn in Ha. lia.
  - split_and!; [split; [|done]; intros a Ha; apply Hs; cbn in Ha; lia|split; [|done]; intros a _; by apply covers_nil|].
    intros a [Ha|?%covers_nil]%covers_cons [Hc|Hc]%covers_cons; try done; [cbn in *; lia|]. by apply (Hs a); cbn in *; [lia|].
  - destruct (IH (n - iov_len v)) as (Hr & Hp & Hd); [lia|done|]. destruct (cut_front_shape (n - iov_len v) w Hw) as (_ & _ & _ & _ & _ & Hc); [lia|].
    split_and!; [done| |]; [cbn; split; [intros a Ha Hca; apply (Hs a Ha), Hc; by left|done]|].
    intros a [Ha|Ha]%covers_cons Hca; [apply (Hs a Ha), Hc; by right|by apply (Hd a)].
Qed.
Lemma cut_back_sep n w : lens_ok w → 0 < n → sep w → sep (rest (cut_back n w)) ∧
  ∀ a, covers (pieces (cut_back n w)) a → ¬ covers (rest (cut_back n w)) a.
Proof.
  intros Hw. revert n. induction Hw as [|v w Hv Hw IH]; intros n Hn; cbn [cut_back sep]; [intros _; split_and!; try done; by intros a ?%covers_nil|].
  intros [Hs Hsw]. destruct (Z.leb_spec n (iov_len v)) as [Hle|Hgt]; [destruct (Z.eqb_spec (iov_len v - n) 0) as [E|E]|]; cbn [pieces rest].
  - split_and!; [done|]. intros a [Ha|?%covers_nil]%covers_cons; [|done]. apply Hs. cbn in Ha. lia.
  - split_and!; [split; [|done]; intros a Ha; apply Hs; cbn in Ha; lia|].
    intros a [Ha|?%covers_nil]%covers_cons [Hc|Hc]%covers_cons; try done; [cbn in *; lia|]. by apply (Hs a); cbn in *; [lia|].
  - destruct (IH (n - iov_len v)) as (Hr & Hd); [lia|done|]. destruct (cut_back_shape (n - iov_len v) w Hw) as (_ & _ & _ & _ & _ & Hc); [lia|].
    split_and!; [done|]. intros a [Ha|Ha]%covers_cons Hca; [apply (Hs a Ha), Hc; by right|by apply (Hd a)].
Qed.

Lemma grows_refl h : grows h h.
Proof. by split. Qed.
Lemma grows_trans h1 h2 h3 : grows h1 h2 → grows h2 h3 → grows h1 h3.
Proof. intros [? H1] [? H2]. split; [lia|]. intros a Ha. rewrite H2 by lia. by apply H1. Qed.
Lemma grows_data h h' w d : grows h h' → heap_ok h → data (bytes h) w = Some d → data (bytes h') w = Some d.
Proof.
  intros [_ Hg] [_ Hok] Hd. rewrite <- Hd. apply data_ext. intros a Ha. apply Hg, Hok. by eapply data_mapped.
Qed.
Lemma store_heap_ok p bs h h' : heap_store p bs h h' → heap_ok h → heap_ok h'.
Proof. intros [Hs Hb] [H0 H]. split; rewrite Hb; [done|]. intros a Ha. apply H. by rewrite <- (store_dom _ _ _ _ _ Hs). Qed.
Lemma load_base_pos h p n bs : heap_ok h → load (bytes h) p n = Some bs → (0 < n)%nat → 0 < p < brk h.
Proof. intros [_ H] Hl Hn. apply H. eapply load_mapped; [done|lia]. Qed.
End seps.

(** Two intervals without a common address. *)
Lemma intervals_apart p n q k :
  0 < n → 0 < k → (∀ a, p ≤ a < p + n → ¬ (q ≤ a < q + k)) → p + n ≤ q ∨ q + k ≤ p.
Proof.
  intros Hn Hk H. destruct (Z.le_gt_cases (p + n) q); [by left|]. destruct (Z.le_gt_cases (q + k) p); [by right|].
  destruct (Z.le_gt_cases p q); [destruct (H q); lia|destruct (H p); lia].
Qed.

(** ** Copying the pieces *)
Section copy.
Context (h0 : heap) (buf n : Z) (d : list Z).

(** [k] bytes copied to the front of the buffer at [buf] of [n] bytes. *)
Definition copied_front (c : Z) (ps : list iovec) (h : heap) : Prop :=
  ∃ k, c = buf + Z.of_nat k ∧ (k ≤ length d)%nat ∧ brk h = brk h0 ∧
    (∀ a, ¬ (buf ≤ a < buf + n) → bytes h !! a = bytes h0 !! a) ∧
    (∀ a, is_Some (bytes h !! a) ↔ is_Some (bytes h0 !! a)) ∧
    load (bytes h) buf k = Some (take k d) ∧ data (bytes h0) ps = Some (drop k d) ∧ lens_ok ps ∧
    (∀ a, covers ps a → ¬ (buf ≤ a < buf + n)).
(** The last [k] bytes copied to the back of it. *)
Definition copied_back (c : Z) (ps : list iovec) (h : heap) : Prop :=
  ∃ k, c = buf + n - Z.of_nat k ∧ (k ≤ length d)%nat ∧ brk h = brk h0 ∧
    (∀ a, ¬ (buf ≤ a < buf + n) → bytes h !! a = bytes h0 !! a) ∧
    (∀ a, is_Some (bytes h !! a) ↔ is_Some (bytes h0 !! a)) ∧
    load (bytes h) (buf + n - Z.of_nat k) k = Some (drop (length d - k) d) ∧
    data (bytes h0) (reverse ps) = Some (take (length d - k) d) ∧ lens_ok ps ∧
    (∀ a, covers ps a → ¬ (buf ≤ a < buf + n)).
Hypothesis Hd : Z.of_nat (length d) ≤ n.
Hypothesis Hmap : ∀ a, buf ≤ a < buf + n → is_Some (bytes h0 !! a).

Lemma cb_copy_front_ok c v ps h :
  copied_front c (v :: ps) h → wp (cb_copy_front c (iov_base v) (iov_len v)) (λ r h', ∃ c', r = Some c' ∧ copied_front c' ps h') h.
Proof.
  intros (k & -> & Hk & Hb & Hf & Hdom & Hl & Hps & Hlens & Hapart). apply Forall_cons in Hlens as [Hv Hlens].
  apply data_cons in Hps as (bs & ds & Hbs & Hds & Hsplit). pose proof (load_length _ _ _ _ Hbs) as Hlen.
  assert (Hkd : (length d - k = length bs + length ds)%nat) by (rewrite <- length_drop, Hsplit; apply length_app).
  assert (Hap : ∀ a, iov_base v ≤ a < iov_base v + iov_len v → ¬ (buf ≤ a < buf + n)) by (intros a Ha; apply Hapart, covers_cons; by left).
  unfold cb_copy_front. wstep. apply (wp_memcpy _ _ _ bs); [done| | | |].
  - destruct (Z.eq_dec (iov_len v) 0); [by left|]. destruct (intervals_apart (iov_base v) (iov_len v) buf n); solve [exact Hap | lia].
  - rewrite <- Hbs. apply load_ext. intros a Ha. apply Hf, Hap. lia.
  - intros a Ha. apply Hdom, Hmap. lia.
  - intros h' [Hs Hbrk]. wstep. eexists. split; [done|]. exists (k + length bs)%nat. split_and!; [lia|lia|congruence| | | | |done|].
    + intros a Ha. rewrite (store_frame _ _ _ _ _ Hs) by lia. by apply Hf.
    + intros a. rewrite (store_dom _ _ _ _ _ Hs). apply Hdom.
    + assert (Htake : take (k + length bs) d = take k d ++ bs) by (rewrite <- (take_drop k d) at 1; rewrite Hsplit; rewrite <- (length_take_le d k) at 1 by lia; rewrite take_app_add, take_app_length; done).
      rewrite Htake. apply load_app; [|by apply store_load_same in Hs]. rewrite <- Hl. apply (store_load_ne _ _ _ _ _ _ Hs). lia.
    + by rewrite <- drop_drop, Hsplit, drop_app_length.
    + intros a Ha. apply Hapart, covers_cons. by right.
Qed.
Lemma cb_copy_back_ok c v ps h :
  copied_back c (v :: ps) h → wp (cb_copy_back c (iov_base v) (iov_len v)) (λ r h', ∃ c', r = Some c' ∧ copied_back c' ps h') h.
Proof.
  intros (k & -> & Hk & Hb & Hf & Hdom & Hl & Hps & Hlens & Hapart). apply Forall_cons in Hlens as [Hv Hlens].
  rewrite reverse_cons in Hps. apply data_app in Hps as (ds & bs & Hds & Hbs & Hsplit). rewrite data_one in Hbs. pose proof (load_length _ _ _ _ Hbs) as Hlen.
  assert (Hkd : (length d - k = length ds + length bs)%nat) by (rewrite <- length_app, <- Hsplit, length_take; lia).
  assert (Hap : ∀ a, iov_base v ≤ a < iov_base v + iov_len v → ¬ (buf ≤ a < buf + n)) by (intros a Ha; apply Hapart, covers_cons; by left).
  unfold cb_copy_back. wstep. apply (wp_memcpy _ _ _ bs); [done| | | |].
  - destruct (Z.eq_dec (iov_len v) 0); [by left|]. destruct (intervals_apart (iov_base v) (iov_len v) buf n); solve [exact Hap | lia].
  - rewrite <- Hbs. apply load_ext. intros a Ha. apply Hf, Hap. lia.
  - intros a Ha. apply Hdom, Hmap. lia.
  - intros h' [Hs Hbrk]. wstep. eexists. split; [done|]. exists (k + length bs)%nat.
    assert (Hlt : take (length d - k) d = ds ++ bs) by done.
    split_and!; [lia|lia|congruence| | | | |done|].
    + intros a Ha. rewrite (store_frame _ _ _ _ _ Hs) by lia. by apply Hf.
    + intros a. rewrite (store_dom _ _ _ _ _ Hs). apply Hdom.
    + assert (Hdrop : drop (length d - (k + length bs)) d = bs ++ drop (length d - k) d).
      { rewrite <- (take_drop (length d - k) d) at 2. rewrite Hlt. replace (length d - (k + length bs))%nat with (length ds) by lia.
        by rewrite <- app_assoc, drop_app_length. }
      rewrite Hdrop, (Nat.add_comm k). apply load_app.
      * apply store_load_same in Hs. replace (buf + n - Z.of_nat (length bs + k)) with (buf + n - Z.of_nat k - iov_len v) by lia. done.
      * replace (buf + n - Z.of_nat (length bs + k) + Z.of_nat (length bs)) with (buf + n - Z.of_nat k) by lia.
        rewrite <- Hl. apply (store_load_ne _ _ _ _ _ _ Hs). lia.
    + replace (length d - (k + length bs))%nat with (length ds) by lia.
      rewrite <- (take_drop (length d - k) d), Hlt, <- app_assoc, take_app_length. done.
    + intros a Ha. apply Hapart, covers_cons. by right.
Qed.
End copy.
