(* ===== verification/IoVectorOps.v ===== *)
(** * Extraction: functional correctness

    Each extraction takes the wanted bytes off the end it works on, or all there
    are; the bytes taken are where the operation says; and the memory of the result
    is apart from what the vector still covers. *)

From S2P Require Import Prelude IoVector IoVectorSpec IoVectorClass.

(** What an operation that writes only to [buf..buf+n) keeps. *)
Definition writes_to (buf n : Z) (h h' : heap) : Prop :=
  brk h' = brk h ∧ (∀ a, ¬ (buf ≤ a < buf + n) → bytes h' !! a = bytes h !! a) ∧
  (∀ a, is_Some (bytes h' !! a) ↔ is_Some (bytes h !! a)).
Lemma writes_to_data buf n h h' w :
  writes_to buf n h h' → (∀ a, covers w a → ¬ (buf ≤ a < buf + n)) → data (bytes h') w = data (bytes h) w.
Proof. intros (_ & Hf & _) Hw. apply data_ext. intros a Ha. by apply Hf, Hw. Qed.
Lemma writes_to_ok buf n h h' : writes_to buf n h h' → heap_ok h → heap_ok h'.
Proof. intros (Hb & _ & Hd) [H0 H]. split; rewrite Hb; [done|]. intros a Ha. by apply H, Hd. Qed.
Lemma heap_store_writes p bs h h' : heap_store p bs h h' → writes_to p (Z.of_nat (length bs)) h h'.
Proof.
  intros [Hs Hb]. split_and!; [done| |].
  - intros a Ha. apply (store_frame _ _ _ _ _ Hs). lia.
  - intros a. apply (store_dom _ _ _ _ _ Hs).
Qed.

(** What is left after [n] bytes were taken from the front, or the back. *)
Record taken (d' : list Z) (v v' : iovector) (h : heap) : Prop := {
  tk_ok : iov_ok v';
  tk_cap : capacity v' = capacity v;
  tk_data : data (bytes h) (view v') = Some d';
  tk_covers : ∀ a, covers (view v') a → covers (view v) a;
  tk_sep : sep (view v) → sep (view v')
}.

Section extractions.
Implicit Types (v : iovector) (h : heap) (d : list Z).

Lemma taken_front {C} (e : extraction C) n v h d :
  iov_ok v → 0 < n → data (bytes h) (view v) = Some d →
  ex_popped e = popped (cut_front n (view v)) → ex_rest e = rest (cut_front n (view v)) →
  taken (drop (Z.to_nat n) d) v (after_front e v) h.
Proof.
  intros Hv Hn Hd Hp Hr. pose proof (io_lens v Hv) as Hlens.
  destruct (cut_front_shape n (view v) Hlens Hn) as (Hl & Ho & Hpc & Hrs & _ & Hc).
  destruct (cut_front_data (bytes h) n (view v) d Hlens Hn Hd) as (_ & Hrd & _).
  destruct (after_front_spec e v Hv) as (Hok & Hview & Hcap); [by rewrite Hp, Hr|by rewrite Hp|by rewrite Hr|].
  split; rewrite ?Hview, ?Hr; try done.
  - intros a Ha. apply Hc. by right.
  - intros Hs. by apply cut_front_sep.
Qed.
Lemma taken_back {C} (e : extraction C) n v h d :
  iov_ok v → 0 < n → data (bytes h) (view v) = Some d →
  ex_popped e = reverse (popped (cut_back n (reverse (view v)))) → ex_rest e = reverse (rest (cut_back n (reverse (view v)))) →
  taken (take (length d - Z.to_nat n) d) v (after_back e v) h.
Proof.
  intros Hv Hn Hd Hp Hr. pose proof (io_lens v Hv) as Hlens.
  assert (Hlens' : lens_ok (reverse (view v))) by by apply Forall_reverse.
  destruct (cut_back_shape n (reverse (view v)) Hlens' Hn) as (Hl & Ho & Hpc & Hrs & _ & Hc).
  destruct (cut_back_data (bytes h) n (reverse (view v)) d Hlens' Hn) as (_ & Hrd & _); [by rewrite reverse_involutive|].
  destruct (after_back_spec e v Hv) as (Hok & Hview & Hcap).
  { rewrite Hp, Hr, <- reverse_app, length_reverse. by rewrite Hl, length_reverse. }
  { rewrite Hp. by apply Forall_reverse. } { rewrite Hr. by apply Forall_reverse. }
  split; rewrite ?Hview, ?Hr; try done.
  - intros a Ha. rewrite covers_reverse in Ha. rewrite <- covers_reverse. apply Hc. by right.
  - intros Hs. apply sep_reverse. apply cut_back_sep; [done..|]. by apply sep_reverse.
Qed.

Lemma taken_heap d' v v' h h' :
  taken d' v v' h → (∀ a, covers (view v) a → bytes h' !! a = bytes h !! a) → taken d' v v' h'.
Proof. intros [? ? Hd Hc ?] Ha. split; try done. rewrite <- Hd. apply data_ext. intros a Hca. by apply Ha, Hc. Qed.

(** [extract_front] and [extract_back] without a buffer. *)
Lemma wp_extract_front n v h d :
  iov_ok v → 0 < n → data (bytes h) (view v) = Some d →
  wp (extract_front n v) (λ r h', h' = h ∧ r.1 = Z.min n (Z.of_nat (length d)) ∧ taken (drop (Z.to_nat n) d) v r.2 h') h.
Proof.
  intros Hv Hn Hd. unfold extract_front. wstep. apply (wp_lift tt); [by apply do_assert_ok|]. wstep.
  eapply wq_mono; [apply (wp_do_extract_front cb_skip (λ _ _ h', h' = h)); [|done|done]|].
  { intros [] x ps h1 ->. apply wq_ret. by exists tt. }
  intros r h' (Hret & Hl & Hp & Hr & ->). wstep. split_and!; [done| |by apply taken_front].
  destruct (cut_front_data (bytes h) n (view v) d) as (_ & _ & Hm); [by apply io_lens|done..|]. cbn. lia.
Qed.
Lemma wp_extract_back n v h d :
  iov_ok v → 0 < n → data (bytes h) (view v) = Some d →
  wp (extract_back n v) (λ r h', h' = h ∧ r.1 = Z.min n (Z.of_nat (length d)) ∧ taken (take (length d - Z.to_nat n) d) v r.2 h') h.
Proof.
  intros Hv Hn Hd. unfold extract_back. wstep. apply (wp_lift tt); [by apply do_assert_ok|]. wstep.
  eapply wq_mono; [apply (wp_do_extract_back cb_skip (λ _ _ h', h' = h)); [|done|done]|].
  { intros [] x ps h1 ->. apply wq_ret. by exists tt. }
  intros r h' (Hret & Hp & Hr & ->). wstep. split_and!; [done| |by apply taken_back].
  destruct (cut_back_data (bytes h) n (reverse (view v)) d) as (_ & _ & Hm); [apply Forall_reverse, (io_lens v Hv)|done|by rewrite reverse_involutive|]. cbn. lia.
Qed.

(** Copying to a buffer that the vector does not cover. *)
Lemma wp_extract_front_buf n buf v h d :
  iov_ok v → 0 < n → data (bytes h) (view v) = Some d →
  (∀ a, buf ≤ a < buf + n → is_Some (bytes h !! a)) → (∀ a, covers (view v) a → ¬ (buf ≤ a < buf + n)) →
  wp (extract_front_buf n buf v) (λ r h', writes_to buf n h h' ∧ r.1 = Z.min n (Z.of_nat (length d)) ∧
    load (bytes h') buf (Z.to_nat r.1) = Some (take (Z.to_nat n) d) ∧ taken (drop (Z.to_nat n) d) v r.2 h') h.
Proof.
  intros Hv Hn Hd Hmap Hap. pose proof (io_lens v Hv) as Hlens. unfold extract_front_buf. wstep. apply (wp_lift tt); [by apply do_assert_ok|]. wstep.
  destruct (cut_front_shape n (view v) Hlens Hn) as (_ & _ & Hpl & _ & _ & Hc).
  destruct (cut_front_data (bytes h) n (view v) d Hlens Hn Hd) as (Hpd & _ & Hm).
  assert (Hlen : Z.of_nat (length (take (Z.to_nat n) d)) ≤ n) by (rewrite length_take; lia).
  eapply wq_mono; [apply (wp_do_extract_front cb_copy_front (copied_front h buf n (take (Z.to_nat n) d))); [by intros; apply cb_copy_front_ok|done|]|].
  { exists 0%nat. rewrite drop_0. split_and!; [lia|lia|done|done|done|done|done|done|]. intros a Ha. apply Hap, Hc. by left. }
  intros r h' (Hret & Hl & Hp & Hr & (k & Hk & Hkd & Hb & Hf & Hdom & Hload & Hnil & _)). wstep.
  assert (Hk' : k = length (take (Z.to_nat n) d)).
  { cbn in Hnil. injection Hnil as Hnil. apply (f_equal length) in Hnil. rewrite length_drop in Hnil. cbn in Hnil. lia. }
  split_and!; [done|cbn; lia| |].
  - cbn [fst]. rewrite length_take in Hk'. replace (Z.to_nat (r.1)) with k by lia. rewrite Hload. f_equal. apply take_ge. rewrite length_take. lia.
  - eapply (taken_heap _ _ _ h); [by apply taken_front|]. intros a Ha. by apply Hf, Hap.
Qed.
Lemma wp_extract_back_buf n buf v h d :
  iov_ok v → 0 < n → data (bytes h) (view v) = Some d →
  (∀ a, buf ≤ a < buf + n → is_Some (bytes h !! a)) → (∀ a, covers (view v) a → ¬ (buf ≤ a < buf + n)) →
  wp (extract_back_buf n buf v) (λ r h', writes_to buf n h h' ∧ r.1 = Z.min n (Z.of_nat (length d)) ∧
    load (bytes h') (buf + n - r.1) (Z.to_nat r.1) = Some (drop (length d - Z.to_nat n) d) ∧
    taken (take (length d - Z.to_nat n) d) v r.2 h') h.
Proof.
  intros Hv Hn Hd Hmap Hap. pose proof (io_lens v Hv) as Hlens. unfold extract_back_buf. wstep. apply (wp_lift tt); [by apply do_assert_ok|]. wstep.
  assert (Hlens' : lens_ok (reverse (view v))) by by apply Forall_reverse.
  destruct (cut_back_shape n (reverse (view v)) Hlens' Hn) as (_ & _ & Hpl & _ & _ & Hc).
  destruct (cut_back_data (bytes h) n (reverse (view v)) d Hlens' Hn) as (Hpd & _ & Hm); [by rewrite reverse_involutive|].
  set (t := drop (length d - Z.to_nat n) d) in *. assert (Hlt : length t = (length d - (length d - Z.to_nat n))%nat) by apply length_drop.
  eapply wq_mono; [apply (wp_do_extract_back cb_copy_back (copied_back h buf n t)); [by intros; apply cb_copy_back_ok; [lia| |]|done|]|].
  { exists 0%nat. rewrite Nat.sub_0_r, drop_all, take_ge by lia. split_and!; [lia|lia|done|done|done|done|done|done|].
    intros a Ha. apply Hap. rewrite <- covers_reverse. apply Hc. by left. }
  intros r h' (Hret & Hp & Hr & (k & Hk & Hkd & Hb & Hf & Hdom & Hload & Hnil & _)). wstep.
  assert (Hk' : k = length t).
  { cbn in Hnil. injection Hnil as Hnil. apply (f_equal length) in Hnil. rewrite length_take in Hnil. cbn in Hnil. lia. }
  split_and!; [done|cbn; lia| |].
  - cbn [fst]. assert (r.1 = Z.of_nat k) as -> by lia. rewrite Nat2Z.id, Hload. by rewrite Hk', Nat.sub_diag, drop_0.
  - eapply (taken_heap _ _ _ h); [by apply taken_back|]. intros a Ha. by apply Hf, Hap.
Qed.
End extractions.

(** ** Contiguous extraction *)
Section continuous.
Context (malloc_ok : Z → bool) (junk : Z → Z).
Hypothesis Hmalloc : ∀ size, malloc_ok size = true.
Implicit Types (v : iovector) (h : heap) (d : list Z).

Lemma wp_malloc size Q h :
  0 ≤ size → heap_ok h →
  (∀ h', heap_ok h' → grows h h' → brk h' = brk h + Z.max 1 size →
    (∀ a, brk h ≤ a < brk h + size → is_Some (bytes h' !! a)) → Q (brk h) h') →
  wp (malloc malloc_ok junk size) Q h.
Proof.
  intros Hs [H0 Hok] HQ. unfold malloc. do 2 wstep. rewrite Hmalloc. do 3 wstep. apply HQ.
  - split; cbn; [lia|]. intros a. rewrite map_fresh_lookup. destruct (in_range_spec (brk h) (Z.of_nat (Z.to_nat size)) a); [lia|]. intros ?%Hok. lia.
  - split; cbn; [lia|]. intros a Ha. rewrite map_fresh_lookup. by destruct (in_range_spec (brk h) (Z.of_nat (Z.to_nat size)) a); [lia|].
  - done.
  - intros a Ha. cbn. rewrite map_fresh_lookup. destruct (in_range_spec (brk h) (Z.of_nat (Z.to_nat size)) a); [by eexists|lia].
Qed.
Lemma wp_do_malloc size v Q h :
  iov_ok v → 0 < capacity v → 0 ≤ size ≤ INT_MAX → heap_ok h →
  (∀ h', heap_ok h' → grows h h' → brk h' = brk h + Z.max 1 size →
    (∀ a, brk h ≤ a < brk h + size → is_Some (bytes h' !! a)) → Q (brk h) h') →
  wp (do_malloc malloc_ok junk size v) Q h.
Proof.
  intros Hv Hc Hs Hh HQ. pose proof (io_bases v Hv). unfold do_malloc. wstep. apply (wp_lift tt); [by apply do_assert_ok|].
  wstep. apply wp_assert; [lia|]. wstep. apply wp_assert; [lia|]. by apply wp_malloc; [lia| |].
Qed.

(** The bytes at [ptr..ptr+n): taken from the vector, or fresh. *)
Record placed (n ptr : Z) (b : list Z) (v v' : iovector) (h h' : heap) : Prop := {
  pl_heap : heap_ok h';
  pl_grows : grows h h';
  pl_brk : brk h' ≤ brk h + n;
  pl_null : ptr ≠ 0;
  pl_load : load (bytes h') ptr (Z.to_nat n) = Some b;
  pl_where : ∀ a, ptr ≤ a < ptr + n → covers (view v) a ∨ brk h ≤ a < brk h';
  pl_sep : sep (view v) → ∀ a, ptr ≤ a < ptr + n → ¬ covers (view v') a
}.

Lemma covers_mapped h v d a : heap_ok h → data (bytes h) (view v) = Some d → covers (view v) a → 0 < a < brk h.
Proof. intros [_ Hok] Hd Ha. apply Hok. by eapply data_mapped. Qed.

(** By copying to a fresh buffer. *)
Lemma wp_copy_out (extract : Z → Z → iovector → M heap (Z * iovector)) n v h d b d' :
  (∀ buf h, heap_ok h → data (bytes h) (view v) = Some d →
    (∀ a, buf ≤ a < buf + n → is_Some (bytes h !! a)) → (∀ a, covers (view v) a → ¬ (buf ≤ a < buf + n)) →
    wp (extract n buf v) (λ r h', writes_to buf n h h' ∧ r.1 = Z.min n (Z.of_nat (length d)) ∧
      (n ≤ Z.of_nat (length d) → load (bytes h') buf (Z.to_nat n) = Some b) ∧ taken d' v r.2 h') h) →
  iov_ok v → 0 < capacity v → 0 < n ≤ INT_MAX → heap_ok h → data (bytes h) (view v) = Some d →
  wp (buf ← do_malloc malloc_ok junk n v; r ← extract n buf v; mret (if r.1 =? n then buf else 0, r.2))
    (λ r h', heap_ok h' ∧ grows h h' ∧ taken d' v r.2 h' ∧
      if n <=? Z.of_nat (length d) then placed n r.1 b v r.2 h h' else r.1 = 0) h.
Proof.
  intros Hex Hv Hc Hn Hh Hd. wstep. apply wp_do_malloc; [done|done|lia|done|]. intros h1 Hh1 Hg Hb Hm. wstep.
  assert (Hd1 : data (bytes h1) (view v) = Some d) by by eapply grows_data.
  assert (Hap : ∀ a, covers (view v) a → ¬ (brk h ≤ a < brk h + n)) by (intros a Ha; pose proof (covers_mapped h v d a Hh Hd Ha); lia).
  eapply wq_mono; [by apply Hex|]. intros r h2 (Hw & Hr & Hl & Ht). wstep. cbn [fst snd].
  assert (Hh2 : heap_ok h2) by by eapply writes_to_ok.
  assert (Hg2 : grows h h2).
  { destruct Hw as (Hb2 & Hf & _), Hg as [_ Hg]. split; [lia|]. intros a Ha. rewrite Hf by lia. by apply Hg. }
  split_and!; [done..|]. rewrite Hr. destruct (Z.leb_spec n (Z.of_nat (length d))) as [Hle|Hlt].
  - replace (Z.min n (Z.of_nat (length d)) =? n) with true by lia. destruct Hw as (Hb2 & _). split; try done; [lia|destruct Hh; lia|by apply Hl|right; lia|].
    intros _ a Ha Hca%(tk_covers _ _ _ _ Ht). by apply (Hap a).
  - by replace (Z.min n (Z.of_nat (length d)) =? n) with false by lia.
Qed.

(** Enough bytes: a pointer to the first [n], contiguous; too few: null. *)
Lemma wp_extract_front_continuous n v h d :
  iov_ok v → 0 < capacity v → 0 < n ≤ INT_MAX → heap_ok h → data (bytes h) (view v) = Some d →
  wp (extract_front_continuous malloc_ok junk n v) (λ r h', heap_ok h' ∧ grows h h' ∧ taken (drop (Z.to_nat n) d) v r.2 h' ∧
    if n <=? Z.of_nat (length d) then placed n r.1 (take (Z.to_nat n) d) v r.2 h h' else r.1 = 0) h.
Proof.
  intros Hv Hc Hn Hh Hd. unfold extract_front_continuous. wstep. apply (wp_lift tt); [by apply do_assert_ok|].
  destruct (view_front_continuous n (view v)) as [[ptr w]|] eqn:Hvf; cycle 1.
  { replace (negb (0 =? 0)) with false by done. apply (wp_copy_out extract_front_buf); try done. intros buf h1 Hh1 Hd1 Hm Ha.
    eapply wq_mono; [by apply wp_extract_front_buf; [|lia| | |]|]. intros r h2 (? & Hr & Hl & ?). split_and!; [done..| |done].
    intros Hle. rewrite <- Hl. f_equal. rewrite Hr. lia. }
  unfold view_front_continuous in Hvf. destruct (view v) as [|f l] eqn:Hview; [done|].
  destruct (Z.ltb_spec (iov_len f) n) as [|Hlen]; [done|]. injection Hvf as <- <-.
  pose proof (io_lens v Hv) as Hlens. rewrite Hview in Hlens. apply Forall_cons in Hlens as [Hf Hlens].
  pose proof Hd as (bs & ds & Hbs & Hds & Hdd)%data_cons. pose proof (load_length _ _ _ _ Hbs) as Hbl.
  pose proof (load_base_pos h _ _ _ Hh Hbs) as Hpos. replace (negb (iov_base f =? 0)) with true by lia.
  set (w := mk_iovec (iov_base f + n) (iov_len f - n) :: l).
  assert (Hlw : length w = length (view v)) by by rewrite Hview.
  assert (Hok : iov_ok (put_view w v)) by (apply put_view_ok; [done|done|constructor; [cbn; lia|done]]).
  assert (Hpv : view (put_view w v) = w) by by apply view_put.
  assert (Hn0 : iov_begin v < iov_end v) by (pose proof (view_length v Hv) as Hvl; rewrite Hview in Hvl; cbn in Hvl; lia).
  wstep. apply (wp_lift (mk_iovec (iov_base f + n) (iov_len f - n))).
  { by apply (iv_front_ok _ _ l). }
  wstep. set (v' := if _ =? 0 then _ else _).
  assert (Hv' : iov_ok v' ∧ view v' = if iov_len f - n =? 0 then l else w).
  { unfold v'. cbn [iov_len]. destruct (Z.eqb_spec (iov_len f - n) 0); [|done]. split.
    - apply set_begin_ok; [done|]. cbn. lia.
    - rewrite view_drop_front by (done || cbn; lia). by rewrite Hpv. }
  destruct Hv' as [Hok' Hview']. cbn [fst snd]. split_and!; [done|apply grows_refl| |].
  - split; [done|by unfold v'; destruct (_ =? _)| | |].
    + rewrite Hview', Hdd, drop_app_le by lia. destruct (Z.eqb_spec (iov_len f - n) 0).
      * rewrite drop_ge by lia. done.
      * apply data_cons. exists (drop (Z.to_nat n) bs), ds. split_and!; [|done..]. cbn [iov_base iov_len].
        replace (iov_base f + n) with (iov_base f + Z.of_nat (Z.to_nat n)) by lia.
        replace (Z.to_nat (iov_len f - n)) with (Z.to_nat (iov_len f) - Z.to_nat n)%nat by lia. eapply load_drop; [done|lia].
    + intros a. rewrite Hview', Hview. destruct (_ =? 0); [intros; apply covers_cons; by right|].
      intros [Ha|Ha]%covers_cons; apply covers_cons; [left; cbn in *; lia|by right].
    + rewrite Hview', Hview. intros [Hs1 Hs2]. destruct (_ =? 0); [done|]. split; [|done]. intros a Ha. apply Hs1. cbn in Ha. lia.
  - assert (Hle : n ≤ Z.of_nat (length d)) by (rewrite Hdd, length_app; lia). replace (n <=? Z.of_nat (length d)) with true by lia.
    split; [done|apply grows_refl|lia|cbn; lia| | |]; cbn [fst].
    + rewrite Hdd, take_app_le by lia. eapply load_take; [done|lia].
    + intros a Ha. left. rewrite Hview. apply covers_cons. left. lia.
    + rewrite Hview, Hview'. intros [Hs1 Hs2] a Ha. destruct (_ =? 0); [apply Hs1; lia|].
      intros [Hc1|Hc1]%covers_cons; [cbn in *; lia|]. by apply (Hs1 a); [lia|].
Qed.
Lemma wp_extract_back_continuous n v h d :
  iov_ok v → 0 < capacity v → 0 < n ≤ INT_MAX → heap_ok h → data (bytes h) (view v) = Some d →
  wp (extract_back_continuous malloc_ok junk n v) (λ r h', heap_ok h' ∧ grows h h' ∧ taken (take (length d - Z.to_nat n) d) v r.2 h' ∧
    if n <=? Z.of_nat (length d) then placed n r.1 (drop (length d - Z.to_nat n) d) v r.2 h h' else r.1 = 0) h.
Proof.
  intros Hv Hc Hn Hh Hd. unfold extract_back_continuous. wstep. apply (wp_lift tt); [by apply do_assert_ok|].
  destruct (view_back_continuous n (view v)) as [[ptr w]|] eqn:Hvb; cycle 1.
  { replace (negb (0 =? 0)) with false by done. apply (wp_copy_out extract_back_buf); try done. intros buf h1 Hh1 Hd1 Hm Ha.
    eapply wq_mono; [by apply wp_extract_back_buf; [|lia| | |]|]. intros r h2 (? & Hr & Hl & ?). split_and!; [done..| |done].
    intros Hle. rewrite Hr, Z.min_l, Z.add_simpl_r in Hl by lia. done. }
  unfold view_back_continuous in Hvb. destruct (reverse (view v)) as [|b l] eqn:Hrev; [done|].
  destruct (Z.ltb_spec (iov_len b) n) as [|Hlen]; [done|]. injection Hvb as <- <-.
  assert (Hview : view v = reverse l ++ [b]) by by rewrite <- (reverse_involutive (view v)), Hrev, reverse_cons.
  rewrite reverse_cons. pose proof (io_lens v Hv) as Hlens. rewrite Hview in Hlens. apply Forall_app in Hlens as [Hl [Hb _]%Forall_cons].
  pose proof Hd as Hd'. rewrite Hview in Hd'. apply data_app in Hd' as (ds & bs & Hds & Hbs & Hdd). rewrite data_one in Hbs.
  pose proof (load_length _ _ _ _ Hbs) as Hbl. pose proof (load_base_pos h _ _ _ Hh Hbs) as Hpos.
  replace (negb (iov_base b + (iov_len b - n) =? 0)) with true by lia. wstep. cbn [fst snd].
  set (w := reverse l ++ [mk_iovec (iov_base b) (iov_len b - n)]).
  assert (Hlw : length w = length (view v)) by (rewrite Hview; unfold w; by rewrite !length_app).
  assert (Hlensw : lens_ok w) by (apply Forall_app; split; [done|repeat constructor; cbn; lia]).
  assert (Hpv : view (put_view w v) = w) by by apply view_put.
  assert (Hk : (length d - Z.to_nat n = length ds + (length bs - Z.to_nat n))%nat) by (rewrite Hdd, length_app; lia).
  rewrite Hk, Hdd. split_and!; [done|apply grows_refl| |].
  - split; [by apply put_view_ok|done| | |]; rewrite Hpv.
    + apply data_app. exists ds, (take (length bs - Z.to_nat n) bs). rewrite data_one, take_app_add. split_and!; [done| |done].
      cbn [iov_base iov_len]. replace (Z.to_nat (iov_len b - n)) with (length bs - Z.to_nat n)%nat by lia. eapply load_take; [done|lia].
    + intros a. unfold w. rewrite Hview, !covers_app, !covers_cons. cbn [iov_base iov_len]. intros [?|[?|?]]; [by left|right; left; lia|by right; right].
    + rewrite Hview. intros (Hs1 & _ & Hs3)%sep_app. apply sep_app. split_and!; [done|split; [|done]; intros a _; apply covers_nil|].
      intros a Ha. specialize (Hs3 a Ha). rewrite !covers_cons in *. cbn [iov_base iov_len]. intros [?|?]; apply Hs3; [left; lia|by right].
  - assert (Hle : n ≤ Z.of_nat (length (ds ++ bs))) by (rewrite length_app; lia). replace (n <=? Z.of_nat (length (ds ++ bs))) with true by lia.
    split; [done|apply grows_refl|lia|lia| | |].
    + rewrite drop_app_add. replace (iov_base b + (iov_len b - n)) with (iov_base b + Z.of_nat (length bs - Z.to_nat n)) by lia.
      replace (Z.to_nat n) with (Z.to_nat (iov_len b) - (length bs - Z.to_nat n))%nat at 2 by lia. eapply load_drop; [done|lia].
    + intros a Ha. left. rewrite Hview, covers_app, covers_cons. right; left. lia.
    + rewrite Hview, Hpv. intros (_ & _ & Hs3)%sep_app a Ha [Hca|[Hca|?%covers_nil]%covers_cons]%covers_app; [|cbn in *; lia|done].
      apply (Hs3 a Hca), covers_cons. left. lia.
Qed.

(** ** Extraction into a fresh array of iovecs *)
Definition enc_iovec (x : iovec) : list Z := le_bytes 8 (iov_base x) ++ le_bytes 8 (iov_len x).
Definition enc_iovecs (w : list iovec) : list Z := w ≫= enc_iovec.
Lemma length_enc_iovecs w : length (enc_iovecs w) = (16 * length w)%nat.
Proof. unfold enc_iovecs. induction w as [|x w IH]; [done|]. rewrite bind_cons, length_app, IH. cbn. lia. Qed.

Lemma wp_write_iovecs p w Q h :
  (∀ a, p ≤ a < p + 16 * Z.of_nat (length w) → is_Some (bytes h !! a)) →
  (∀ h', writes_to p (16 * Z.of_nat (length w)) h h' → load (bytes h') p (16 * length w) = Some (enc_iovecs w) → Q tt h') →
  wp (write_iovecs p w) Q h.
Proof.
  revert p h Q. induction w as [|x w IH]; intros p h Q Hm HQ; cbn [write_iovecs]; [wstep; by apply HQ|].
  cbn [length] in Hm, HQ. unfold write_iovec. do 2 wstep. apply wp_write_u64; [intros a Ha; apply Hm; lia|]. intros h1 Hs1.
  pose proof (heap_store_writes _ _ _ _ Hs1) as (Hb1 & Hf1 & Hd1). rewrite length_le_bytes in *.
  apply wp_write_u64; [intros a Ha; apply Hd1, Hm; lia|]. intros h2 Hs2.
  pose proof (heap_store_writes _ _ _ _ Hs2) as (Hb2 & Hf2 & Hd2). rewrite length_le_bytes in *.
  apply IH; [intros a Ha; apply Hd2, Hd1, Hm; lia|]. intros h3 (Hb3 & Hf3 & Hd3) Hl3. apply HQ.
  - split_and!; [congruence| |intros a; by rewrite Hd3, Hd2, Hd1]. intros a Ha. rewrite Hf3, Hf2, Hf1 by lia. done.
  - change (enc_iovecs (x :: w)) with ((le_bytes 8 (iov_base x) ++ le_bytes 8 (iov_len x)) ++ enc_iovecs w).
    replace (16 * S (length w))%nat with ((8 + 8) + 16 * length w)%nat by lia. destruct Hs1 as [Hs1 _], Hs2 as [Hs2 _].
    apply load_app; [|by replace (p + Z.of_nat (8 + 8)) with (p + 16) by lia]. apply load_app.
    + rewrite <- (store_load_same _ _ _ _ Hs1), length_le_bytes. apply load_ext. intros a Ha. rewrite Hf3, Hf2 by lia. done.
    + rewrite <- (store_load_same _ _ _ _ Hs2), length_le_bytes. apply load_ext. intros a Ha. rewrite Hf3 by lia. done.
Qed.

(** The pieces [ps] that an extraction into a view gives. *)
Record viewed (n : Z) (d : list Z) (ps : list iovec) (v v' : iovector) (h h' : heap) : Prop := {
  vw_heap : heap_ok h';
  vw_grows : grows h h';
  vw_brk : brk h' ≤ brk h + 16 * 65536;
  vw_array : load (bytes h') (brk h) (16 * length ps) = Some (enc_iovecs ps);
  vw_data : data (bytes h') ps = Some (take (Z.to_nat n) d);
  vw_lens : lens_ok ps;
  vw_count : Z.of_nat (length ps) < 65536;
  vw_covers : ∀ a, covers ps a → covers (view v) a;
  vw_sep : sep (view v) → sep (ps ++ view v');
  vw_fresh : brk h + 16 * Z.of_nat (length ps) ≤ brk h'
}.
Lemma wp_extract_front_view n v h d :
  iov_ok v → 0 < capacity v → 0 < n → heap_ok h → data (bytes h) (view v) = Some d →
  wp (extract_front_view malloc_ok junk n v) (λ r h', ∃ ps, r.1.1 = Z.min n (Z.of_nat (length d)) ∧
    r.1.2 = (brk h, Z.of_nat (length ps)) ∧ viewed n d ps v r.2 h h' ∧ taken (drop (Z.to_nat n) d) v r.2 h') h.
Proof.
  intros Hv Hc Hn Hh Hd. pose proof (io_lens v Hv) as Hlens. pose proof (view_length v Hv) as Hvl. pose proof (io_width v Hv).
  pose proof (io_begin v Hv). pose proof (io_end v Hv). unfold extract_front_view. replace (n =? 0) with false by lia.
  wstep. apply (wp_lift (iov_end v - iov_begin v)); [by unfold iovcnt; rewrite do_assert_ok|]. wstep.
  apply wp_do_malloc; [done|done|unfold INT_MAX; lia|done|]. intros h1 Hh1 Hg Hb Hm.
  replace (brk h =? 0) with false by (destruct Hh; lia). wstep.
  destruct (cut_front_shape n (view v) Hlens Hn) as (_ & _ & Hpl & _ & Hcnt & Hcov).
  set (ps := pieces (cut_front n (view v))) in *.
  eapply wq_mono; [apply (wp_do_extract_front (cb_view_front (Z.to_nat (iov_end v - iov_begin v))) (λ out qs h', h' = h1 ∧ out ++ qs = ps)); [|done|by split]|].
  { intros out x qs h2 [-> Ho]. apply wq_ret. assert (Hlo : (length out < Z.to_nat (iov_end v - iov_begin v))%nat).
    { apply (f_equal length) in Ho. rewrite length_app in Ho. cbn in Ho. lia. }
    rewrite bool_decide_eq_false_2 by lia. eexists. split; [done|]. split; [done|]. rewrite <- Ho. destruct x. by rewrite <- app_assoc. }
  intros r h2 (Hret & Hl & Hp & Hr & -> & Hacc). rewrite app_nil_r in Hacc. wstep. rewrite Hacc.
  apply wp_write_iovecs; [intros a Ha; apply Hm; lia|]. intros h3 Hw Hload. wstep. exists ps. cbn [fst snd].
  assert (Hd1 : data (bytes h1) (view v) = Some d) by by eapply grows_data.
  destruct (cut_front_data (bytes h1) n (view v) d Hlens Hn Hd1) as (Hpd & _ & Hmiss).
  assert (Hap : ∀ a, covers (view v) a → ¬ (brk h ≤ a < brk h + 16 * Z.of_nat (length ps))) by (intros a Ha; pose proof (covers_mapped h v d a Hh Hd Ha); lia).
  assert (Ht : taken (drop (Z.to_nat n) d) v (after_front r.2 v) h3).
  { eapply (taken_heap _ _ _ h1); [by apply taken_front|]. intros a Ha. destruct Hw as (_ & Hf & _). by apply Hf, Hap. }
  split_and!; [lia|done| |done]. destruct Hw as (Hb3 & Hf3 & Hdom3). split; try done.
  - by eapply writes_to_ok.
  - destruct Hg as [_ Hg]. split; [lia|]. intros a Ha. rewrite Hf3 by lia. by apply Hg.
  - lia.
  - rewrite <- Hpd. apply data_ext. intros a Ha. apply Hf3, Hap, Hcov. by left.
  - lia.
  - intros a Ha. apply Hcov. by left.
  - intros Hs. destruct (cut_front_sep n (view v) Hlens Hn Hs) as (Hs1 & Hs2 & Hs3). apply sep_app.
    destruct (after_front_spec r.2 v Hv) as (_ & -> & _); rewrite ?Hp, ?Hr; try by apply cut_front_shape. done.
  - lia.
Qed.
End continuous.

(** * Behaviours of the vectors that depart from their documentation

    What [slice], [memcpy_iov], [memcpy_to] between constant views and
    [push_back(size_t)] do where they do not do what their comments and names say. *)

(** [slice] of a view at an offset that no single iovec reaches is empty, however
    many bytes the view has: the position does not move past the iovecs it skips. *)
Theorem slice_past_first_is_empty n count offset w :
  (0 < n)%nat → Forall (λ v, iov_len v ≤ offset) w → view_slice n count offset w = (0, []).
Proof.
  intros Hn Hw. unfold view_slice. rewrite bool_decide_eq_false_2 by lia.
  induction Hw as [|v w Hv _ IH]; [done|]. cbn [slice_loop]. rewrite (proj2 (Z.ltb_ge offset _)) by lia. by rewrite andb_false_r.
Qed.
(** Eight bytes in two iovecs: the last four cannot be had. *)
Lemma slice_past_first_is_empty_witness : view_slice 2 4 4 [mk_iovec 100 4; mk_iovec 200 4] = (0, []).
Proof. apply slice_past_first_is_empty; [lia|]. repeat constructor; cbn; lia. Defined.

(** [memcpy_iov] does not return when the first iovec of either view is empty:
    nothing is copied and nothing is taken from either. *)
Theorem memcpy_iov_empty_diverges fuel d dest s src size h :
  0 < size → 0 ≤ iov_len d → 0 ≤ iov_len s → iov_len d = 0 ∨ iov_len s = 0 →
  memcpy_iov fuel (d :: dest) (s :: src) size h = Fault OutOfFuel.
Proof.
  intros Hs Hd0 Hs0 He. revert h. induction fuel as [|fuel IH]; intros h; [done|]. cbn [memcpy_iov].
  rewrite (proj2 (Z.eqb_neq size 0)) by lia. set (step := if iov_len d <? size then iov_len d else size).
  assert (Hstep : (if iov_len s <? step then iov_len s else step) = 0) by (unfold step; destruct (iov_len d <? size) eqn:?; case_match; lia).
  rewrite Hstep. unfold memcpy. replace (0 <=? 0) with true by done. rewrite orb_true_r.
  unfold mbind, M_bind, read_bytes, write_bytes, do_extract_front. 
  change (Z.to_nat 0) with 0%nat. cbn [load store get modify mret M_ret Z.eqb ex_rest fst snd]. unfold mret, M_ret, get, modify. cbn [snd ex_rest].
  unfold mbind, M_bind. rewrite Z.sub_0_r. cbn [store]. by rewrite IH.
Qed.
(** Copying to a view whose first iovec was used up. *)
Lemma memcpy_iov_empty_diverges_witness : memcpy_iov 1000 [mk_iovec 100 0; mk_iovec 200 4] [mk_iovec 300 4] 4 (mk_heap ∅ 1) = Fault OutOfFuel.
Proof. apply memcpy_iov_empty_diverges; cbn; lia. Defined.

(** [memcpy_to] from a constant view to a constant view writes the view it should
    read: the bytes of the argument are copied to [this]. *)
Theorem memcpy_to_const_copies_backwards :
  let h := mk_heap (<[100 := 1]> (<[200 := 2]> ∅)) 300 in
  memcpy_to_const_const 8 [mk_iovec 100 1] [mk_iovec 200 1] 1 h = Ok (1, mk_heap (<[100 := 2]> (<[200 := 2]> ∅)) 300).
Proof. vm_compute. reflexivity. Qed.

(** [push_back(bytes)] on a full vector allocates the bytes, stores nothing, and
    reports that all of them were pushed. *)
Theorem push_back_full_reports_success malloc_ok junk size v h :
  (∀ n, malloc_ok n = true) → heap_ok h → iov_ok v → 0 < iov_end v → iov_end v = capacity v → 0 < size ≤ INT_MAX →
  ∃ h', push_back_alloc malloc_ok junk size v h = Ok ((size, v), h') ∧ brk h' = brk h + size.
Proof.
  intros Hm Hh Hv Hpos Hend Hby. pose proof (do_assert_ok v Hv) as Ha. pose proof (io_bases v Hv). pose proof (proj1 Hh).
  cut (wp (push_back_alloc malloc_ok junk size v) (λ r h', r = (size, v) ∧ brk h' = brk h + size) h); [by intros (a & h' & Hr & -> & ?)%wp_iff; exists h'|].
  unfold push_back_alloc, new_iovec. do 2 wstep. apply (wp_lift tt); [done|]. wstep. apply wp_assert; [lia|]. wstep.
  apply wp_malloc; [done|lia|done|]. intros h' _ _ Hbrk _. rewrite (proj2 (Z.eqb_neq (brk h) 0)), (proj2 (Z.leb_le size _)) by lia. wstep.
  cbn [iov_len]. rewrite (proj2 (Z.eqb_neq size 0)) by lia. wstep. apply (wp_lift (0, v)).
  { unfold push_back. rewrite Ha. cbn. by rewrite (proj2 (Z.ltb_ge _ _)) by lia. }
  cbn [fst snd]. rewrite (proj2 (Z.eqb_neq 0 size)) by lia. rewrite Z.sub_diag. wstep. unfold push_fuel. cbn [push_back_more Z.eqb]. do 2 wstep.
  cbn [fst snd]. rewrite Z.add_0_r. split; [done|lia].
Qed.
Definition full_vector : iovector := mk_iovector 2 0 2 0 [mk_iovec 100 4; mk_iovec 200 4].
Lemma push_back_full_reports_success_witness :
  ∃ h', push_back_alloc (λ _, true) (λ _, 0) 16 full_vector (mk_heap ∅ 1) = Ok ((16, full_vector), h') ∧ brk h' = 17.
Proof.
  apply (push_back_full_reports_success (λ _, true) (λ _, 0) 16 full_vector (mk_heap ∅ 1)); [done| | |done|done|done].
  - split; [done|]. intros a [? Hx]. cbn [bytes] in Hx. by rewrite lookup_empty in Hx.
  - split; try done. repeat constructor; cbn; lia.
Defined.
