(* ===== verification/Serializer.v ===== *)
(** * Serialization without copying ([src/huibuffer/serialization.h])

    A message is a struct in memory with fields that point to data elsewhere.  The
    serializer collects the addresses of the data and of the struct in an
    [iovector]; [init_data_iov] cuts it into packets; the deserializer takes the
    struct from the back of a received [iovector] and the fields' data from the
    front, and writes the new addresses into the struct. *)

From S2P Require Import Prelude IoVector.

(** ** Messages

    A field [buffer] (or [string]) is a pointer and a length; an [iovec_array] is a
    pointer to iovecs, the length of that array in bytes, and [summed_size]; each
    member is a word of 8 bytes.  [aligned_iovec_array]s go first. *)
Inductive field_kind : Type := FBuffer | FIovecArray | FAlignedIovecArray.
#[global] Instance field_kind_eq_dec : EqDecision field_kind.
Proof. solve_decision. Defined.
(** A field and its offset in the struct. *)
Record field : Type := mk_field { f_kind : field_kind; f_off : Z }.
Record message_type : Type := mk_message { msg_size : Z; msg_fields : list field }.

(** [_FilterAlignedFields]: the fields that a pass processes. *)
Definition filter_aligned (flag : bool) (fs : list field) : list field :=
  filter (λ f, bool_decide (f_kind f = FAlignedIovecArray) = flag) fs.

Definition off_ptr (x : Z) (f : field) : Z := x + f_off f.
Definition off_len (x : Z) (f : field) : Z := x + f_off f + 8.
Definition off_summed (x : Z) (f : field) : Z := x + f_off f + 16.
Definition sizeof_iovec : Z := 16.

(** ** The serializer *)
Record Serializer : Type := mk_ser {
  iov : iovector;
  total_pkg : Z;
  t_iov : iovector;
  data_pkg_index : list Z;
  iovfull : bool;
  is_sick : bool;
  used_size : Z;
  new_buff : Z
}.
Definition Serializer_eta (s : Serializer) : Serializer :=
  mk_ser (iov s) (total_pkg s) (t_iov s) (data_pkg_index s) (iovfull s) (is_sick s) (used_size s) (new_buff s).
Definition set_iov : iovector → Serializer → Serializer := ltac:(field_update Serializer_eta iov).
Definition set_total_pkg : Z → Serializer → Serializer := ltac:(field_update Serializer_eta total_pkg).
Definition set_t_iov : iovector → Serializer → Serializer := ltac:(field_update Serializer_eta t_iov).
Definition set_data_pkg_index : list Z → Serializer → Serializer := ltac:(field_update Serializer_eta data_pkg_index).
Definition set_iovfull : bool → Serializer → Serializer := ltac:(field_update Serializer_eta iovfull).
Definition set_is_sick : bool → Serializer → Serializer := ltac:(field_update Serializer_eta is_sick).
Definition set_used_size : Z → Serializer → Serializer := ltac:(field_update Serializer_eta used_size).
Definition set_new_buff : Z → Serializer → Serializer := ltac:(field_update Serializer_eta new_buff).

(** A new serializer, whose arrays hold [a], [b] and [idx]. *)
Definition new_Serializer (a b : list iovec) (idx : list Z) : Serializer :=
  mk_ser (new_IOVector a) 0 (new_IOVector b) idx false false 0 0.

(** [clear] leaves room for one header and gives the buffer of a large response
    back, of which the model keeps no track. *)
Definition ser_clear (s : Serializer) : Serializer :=
  set_new_buff 0 (set_is_sick false (set_used_size 0 (set_iov (set_iov_end 1 (set_iov_begin 1 (iov s))) s))).

Definition ser_push (addr size : Z) (s : Serializer) : outcome Serializer :=
  r ← push_back_buf addr size (iov s); Ok (set_iov r.2 s).

Definition ser_buffer (addr size : Z) (s : Serializer) : outcome Serializer :=
  r ← back_free_iovcnt (iov s);
  let s := set_iov r.2 s in
  if 0 <? r.1 then (if 0 <? size then ser_push addr size s else Ok s) else Ok (set_iovfull true s).

(** The iovecs at [ptr], with [summed_size] at [sum_at] updated for each. *)
Fixpoint ser_iovecs (n : nat) (ptr sum_at acc : Z) (s : Serializer) : M heap Serializer :=
  match n with
  | O => mret s
  | S n =>
      base ← read_u64 ptr;
      len ← read_u64 (ptr + 8);
      let acc := (acc + len) mod 2 ^ 64 in
      write_u64 sum_at acc ;;
      s ← lift (ser_buffer base len s);
      ser_iovecs n (ptr + sizeof_iovec) sum_at acc s
  end.

Definition ser_iovec_array (x : Z) (f : field) (s : Serializer) : M heap Serializer :=
  write_u64 (off_summed x f) 0 ;;
  ptr ← read_u64 (off_ptr x f);
  len ← read_u64 (off_len x f);
  ser_iovecs (Z.to_nat (len / sizeof_iovec)) ptr (off_summed x f) 0 s.
Definition ser_field (x : Z) (f : field) (s : Serializer) : M heap Serializer :=
  match f_kind f with
  | FBuffer =>
      addr ← read_u64 (off_ptr x f);
      size ← read_u64 (off_len x f);
      lift (ser_buffer addr size s)
  | _ => ser_iovec_array x f s
  end.
Fixpoint ser_fields (x : Z) (fs : list field) (s : Serializer) : M heap Serializer :=
  match fs with [] => mret s | f :: fs => s ← ser_field x f s; ser_fields x fs s end.

(** [serialize]: aligned fields, the other fields, the struct itself. *)
Definition serialize (T : message_type) (x : Z) (s : Serializer) : M heap Serializer :=
  s ← ser_fields x (filter_aligned true (msg_fields T)) s;
  s ← ser_fields x (filter_aligned false (msg_fields T)) s;
  lift (ser_buffer x (msg_size T) s).

(** ** Cutting into packets *)

(** [data_pkg_index[data_index++] = _iov.iovcnt()] *)
Definition record_pkt (s : Serializer) : outcome Serializer :=
  n ← iovcnt (iov s);
  l ← arr_set (data_pkg_index s) (total_pkg s) n;
  Ok (set_total_pkg (total_pkg s + 1) (set_data_pkg_index l s)).

(** The loop over the bytes of one iovec; [temp] is the room left in the packet. *)
Fixpoint split_loop (fuel : nat) (maxDataPerPkt temp base len : Z) (s : Serializer) : outcome (Z * Z * Serializer) :=
  match fuel with
  | O => Fault OutOfFuel
  | S fuel =>
      if 0 <? len then
        s ← (if temp =? maxDataPerPkt then record_pkt s else Ok s);
        if len <? temp then
          s ← ser_push base len s; split_loop fuel maxDataPerPkt (temp - len) (base + len) 0 s
        else if temp <? len then
          s ← ser_push base temp s; split_loop fuel maxDataPerPkt maxDataPerPkt (base + temp) (len - temp) s
        else
          s ← ser_push base len s; split_loop fuel maxDataPerPkt maxDataPerPkt (base + len) 0 s
      else Ok (temp, base, s)
  end.
Definition set_t_iov_at (i : Z) (x : iovec) (s : Serializer) : outcome Serializer :=
  l ← arr_set (iovs (t_iov s)) (iov_begin (t_iov s) + i) x; Ok (set_t_iov (set_iovs l (t_iov s)) s).

(** The loop over the iovecs of the message. *)
Fixpoint split_iovecs (n : nat) (i maxDataPerPkt temp : Z) (s : Serializer) : outcome Serializer :=
  match n with
  | O => Ok s
  | S n =>
      v ← iv_at (t_iov s) i;
      if iov_len v <=? 0 then split_iovecs n (i + 1) maxDataPerPkt temp s
      else
        r ← split_loop (S (S (S (Z.to_nat (iov_len v / maxDataPerPkt))))) maxDataPerPkt temp (iov_base v) (iov_len v) s;
        s ← set_t_iov_at i (mk_iovec r.1.2 0) r.2;
        split_iovecs n (i + 1) maxDataPerPkt r.1.1 s
  end.

Fixpoint copy_to_t_iov (n : nat) (i : Z) (s : Serializer) : outcome Serializer :=
  match n with
  | O => Ok s
  | S n => v ← iv_at (iov s) i; r ← push_back v (t_iov s); copy_to_t_iov n (i + 1) (set_t_iov r.2 s)
  end.

Definition init_data_iov (maxDataPerPkt : Z) (s : Serializer) : outcome (Z * Serializer) :=
  sum ← iv_sum (iov s);
  cnt ← iovcnt (iov s);
  if sum <=? maxDataPerPkt then
    l ← arr_set (data_pkg_index s) 0 0;
    l ← arr_set l 1 cnt;
    Ok (1, set_data_pkg_index l (set_total_pkg 1 s))
  else if maxDataPerPkt =? 0 then Fault UndefinedBehaviour
  else
    t ← iv_clear (t_iov s);
    s ← copy_to_t_iov (Z.to_nat cnt) 0 (set_t_iov t s);
    tsum ← iv_sum (t_iov s);
    let n := tsum / maxDataPerPkt + (if tsum mod maxDataPerPkt =? 0 then 0 else 1) in
    v ← iv_clear (iov s);
    let s := set_total_pkg 0 (set_iov (set_iov_end (u16 n) (set_iov_begin (u16 n) v)) s) in
    tcnt ← iovcnt (t_iov s);
    s ← split_iovecs (Z.to_nat tcnt) 0 maxDataPerPkt maxDataPerPkt s;
    cnt ← iovcnt (iov s);
    l ← arr_set (data_pkg_index s) (total_pkg s) cnt;
    Ok (total_pkg s, set_data_pkg_index l s).

(** [Rpc::data_size_to_num_pkts] *)
Definition data_size_to_num_pkts (kMaxDataPerPkt data_size : Z) : Z :=
  if data_size <=? kMaxDataPerPkt then 1 else (data_size + kMaxDataPerPkt - 1) / kMaxDataPerPkt.

(** The loop of [enqueue_request] and [enqueue_response] that pushes the headers,
    the last one first. *)
Fixpoint push_headers (hdrs : list iovec) (s : Serializer) : outcome Serializer :=
  match hdrs with
  | [] => Ok s
  | x :: hdrs => s ← push_headers hdrs s; r ← push_front x (iov s); Ok (set_iov r.2 s)
  end.

(** The iovecs of packet [n], once the headers are in front. *)
Definition get_n_data (n : Z) (s : Serializer) : outcome (list iovec) :=
  assert_o (n <? total_pkg s) ;;
  a ← arr_get (data_pkg_index s) n;
  b ← arr_get (data_pkg_index s) (n + 1);
  let at_ := iov_begin (iov s) + total_pkg s + a in
  iv_at (iov s) (total_pkg s + a) ;;
  Ok (take (Z.to_nat (b - a)) (drop (Z.to_nat at_) (iovs (iov s)))).

(** ** The deserializer *)
Record Deserializer : Type := mk_des { des_iov : iovector; failed : bool }.

Section deserializer.
Context (malloc_ok : Z → bool) (junk : Z → Z).

Definition des_buffer (x : Z) (f : field) (d : Deserializer) : M heap Deserializer :=
  size ← read_u64 (off_len x f);
  if size =? 0 then mret d
  else
    r ← extract_front_continuous malloc_ok junk size (des_iov d);
    write_u64 (off_ptr x f) r.1 ;;
    mret (mk_des r.2 (failed d || (r.1 =? 0))).

(** [iovec_array::sum] over the iovecs at [ptr]. *)
Fixpoint sum_iovecs (n : nat) (ptr sum_at acc : Z) : M heap unit :=
  match n with
  | O => mret tt
  | S n =>
      len ← read_u64 (ptr + 8);
      let acc := (acc + len) mod 2 ^ 64 in
      write_u64 sum_at acc ;;
      sum_iovecs n (ptr + sizeof_iovec) sum_at acc
  end.
Definition iovec_array_assign (x : Z) (f : field) (ptr cnt : Z) : M heap unit :=
  write_u64 (off_ptr x f) ptr ;;
  write_u64 (off_len x f) (sizeof_iovec * cnt) ;;
  write_u64 (off_summed x f) 0 ;;
  sum_iovecs (Z.to_nat cnt) ptr (off_summed x f) 0.

Definition des_iovec_array (x : Z) (f : field) (d : Deserializer) : M heap Deserializer :=
  summed ← read_u64 (off_summed x f);
  r ← extract_front_view malloc_ok junk summed (des_iov d);
  if r.1.1 =? summed then
    iovec_array_assign x f r.1.2.1 r.1.2.2 ;; mret (mk_des r.2 (failed d))
  else mret (mk_des r.2 true).

Definition des_field (x : Z) (f : field) (d : Deserializer) : M heap Deserializer :=
  match f_kind f with FBuffer => des_buffer x f d | _ => des_iovec_array x f d end.
Fixpoint des_fields (x : Z) (fs : list field) (d : Deserializer) : M heap Deserializer :=
  match fs with [] => mret d | f :: fs => d ← des_field x f d; des_fields x fs d end.

(** The address of the struct, null when the bytes do not suffice. *)
Definition deserialize (T : message_type) (v : iovector) (failed0 : bool) : M heap (Z * Deserializer) :=
  r ← extract_back_continuous malloc_ok junk (msg_size T) v;
  let d := mk_des r.2 failed0 in
  if r.1 =? 0 then mret (0, mk_des (des_iov d) true)
  else
    d ← des_fields r.1 (filter_aligned true (msg_fields T)) d;
    d ← des_fields r.1 (filter_aligned false (msg_fields T)) d;
    mret (r.1, d).
End deserializer.
