(* ===== verification/SerializerSpec.v ===== *)
(** * What a message means

    The value of a field, in the memory of either side; the bytes a message is sent
    as; and the invariant of the deserializer's pass over the fields. *)

From S2P Require Import Prelude IoVector IoVectorSpec IoVectorClass IoVectorOps Serializer.

(** ** Layout *)
Definition f_size (f : field) : Z := match f_kind f with FBuffer => 16 | _ => 24 end.
(** The word that holds the number of bytes of the field's value. *)
Definition f_len_off (f : field) : Z := f_off f + match f_kind f with FBuffer => 8 | _ => 16 end.
Definition f_range (f : field) : iovec := mk_iovec (f_off f) (f_size f).
(** The fields in the order they are processed. *)
Definition send_order (T : message_type) : list field :=
  filter_aligned true (msg_fields T) ++ filter_aligned false (msg_fields T).
(** The fields lie in the struct, apart from each other. *)
Definition layout_ok (T : message_type) : Prop :=
  sep (f_range <$> send_order T) ∧ (∀ f, f ∈ msg_fields T → 0 ≤ f_off f ∧ f_off f + f_size f ≤ msg_size T) ∧ 0 < msg_size T.

(** ** Values *)
Definition word_at (m : gmap Z Z) (p z : Z) : Prop := load m p 8 = Some (le_bytes 8 z) ∧ 0 ≤ z < 2 ^ 64.

(** Field [f] of the struct at [x] has the bytes [val]; [rs] is the memory outside the
    struct that holds them.  An empty buffer's pointer is not read. *)
Definition buffer_holds (m : gmap Z Z) (x : Z) (f : field) (val : list Z) (rs : list iovec) : Prop :=
  if bool_decide (val = []) then rs = [] else
    ∃ ptr, word_at m (off_ptr x f) ptr ∧ ptr ≠ 0 ∧ rs = [mk_iovec ptr (Z.of_nat (length val))] ∧ data m rs = Some val.
Definition array_holds (m : gmap Z Z) (x : Z) (f : field) (val : list Z) (rs : list iovec) : Prop :=
  ∃ ptr ps, word_at m (off_ptr x f) ptr ∧ word_at m (off_len x f) (16 * Z.of_nat (length ps)) ∧
    rs = mk_iovec ptr (16 * Z.of_nat (length ps)) :: ps ∧ lens_ok ps ∧
    load m ptr (16 * length ps) = Some (enc_iovecs ps) ∧ data m ps = Some val.
Definition field_holds (m : gmap Z Z) (x : Z) (f : field) (val : list Z) (rs : list iovec) : Prop :=
  word_at m (x + f_len_off f) (Z.of_nat (length val)) ∧
  match f_kind f with FBuffer => buffer_holds m x f val rs | _ => array_holds m x f val rs end.
Lemma field_holds_array m x f val rs :
  f_kind f ≠ FBuffer → field_holds m x f val rs ↔ word_at m (x + f_off f + 16) (Z.of_nat (length val)) ∧ array_holds m x f val rs.
Proof. unfold field_holds, f_len_off. rewrite Z.add_assoc. by destruct (f_kind f). Qed.
Lemma f_size_array f : f_kind f ≠ FBuffer → f_size f = 24.
Proof. unfold f_size. by destruct (f_kind f). Qed.

Lemma word_at_ext m m' p z : (∀ a, p ≤ a < p + 8 → m' !! a = m !! a) → word_at m p z → word_at m' p z.
Proof. intros H [Hl Hz]. split; [|done]. rewrite <- Hl. apply load_ext. intros a Ha. apply H. lia. Qed.
Lemma array_holds_ext m m' x f val rs :
  (∀ a, x + f_off f ≤ a < x + f_off f + 24 → m' !! a = m !! a) → (∀ a, covers rs a → m' !! a = m !! a) →
  array_holds m x f val rs → array_holds m' x f val rs.
Proof.
  intros Hs Hr (ptr & ps & Hp & Hl & -> & Hle & Ha & Hd). unfold array_holds, off_ptr, off_len in *. exists ptr, ps. split_and!; try done.
  - eapply word_at_ext; [|done]. intros a Hb. apply Hs. lia.
  - eapply word_at_ext; [|done]. intros a Hb. apply Hs. lia.
  - rewrite <- Ha. apply load_ext. intros a Hb. apply Hr, covers_cons. left. cbn. lia.
  - rewrite <- Hd. apply data_ext. intros a Hb. apply Hr, covers_cons. by right.
Qed.
Lemma field_holds_ext m m' x f val rs :
  (∀ a, x + f_off f ≤ a < x + f_off f + f_size f → m' !! a = m !! a) → (∀ a, covers rs a → m' !! a = m !! a) →
  field_holds m x f val rs → field_holds m' x f val rs.
Proof.
  intros Hs Hr [Hw Hf]. unfold f_size in Hs. split.
  - eapply word_at_ext; [|done]. intros a Ha. apply Hs. revert Ha. unfold f_len_off. destruct (f_kind f); lia.
  - destruct (f_kind f); [|by eapply array_holds_ext..]. unfold buffer_holds, off_ptr in *.
    destruct (bool_decide _); [done|]. destruct Hf as (ptr & Hp & H0 & Hrs & Hd). exists ptr. split_and!; [|done|done|].
    + eapply word_at_ext; [|done]. intros a Ha. apply Hs. lia.
    + rewrite <- Hd. apply data_ext. intros a Ha. by apply Hr.
Qed.

(** ** Deserialization

    A field with its value, and one already read with the memory that holds it. *)
Record vfield : Type := mk_vf { vf_field : field; vf_val : list Z }.
Record dfield : Type := mk_df { df_field : field; df_val : list Z; df_regions : list iovec }.
Definition values (vs : list vfield) : list Z := vs ≫= vf_val.
Definition regions (ds : list dfield) : list iovec := ds ≫= df_regions.

Lemma regions_snoc ds e : regions (ds ++ [e]) = regions ds ++ df_regions e.
Proof. unfold regions. rewrite bind_app. cbn. by rewrite app_nil_r. Qed.

Section des_inv.
Context (T : message_type) (x : Z) (body : list Z).

Definition in_fields (i : Z) (fs : list field) : Prop := ∃ f, f ∈ fs ∧ f_off f ≤ i < f_off f + f_size f.

Record des_inv (ds : list dfield) (vs : list vfield) (d : Deserializer) (h : heap) : Prop := {
  di_failed : failed d = false;
  di_heap : heap_ok h;
  di_iov : iov_ok (des_iov d);
  di_cap : 0 < capacity (des_iov d);
  di_data : data (bytes h) (view (des_iov d)) = Some (values vs);
  di_struct : ∀ i, 0 ≤ i < msg_size T → is_Some (bytes h !! (x + i));
  di_todo : Forall (λ v, word_at (bytes h) (x + f_len_off (vf_field v)) (Z.of_nat (length (vf_val v)))) vs;
  di_done : Forall (λ e, field_holds (bytes h) x (df_field e) (df_val e) (df_regions e)) ds;
  di_other : ∀ i b, body !! i = Some b → ¬ in_fields (Z.of_nat i) (msg_fields T) → bytes h !! (x + Z.of_nat i) = Some b;
  di_sep : sep (mk_iovec x (msg_size T) :: regions ds ++ view (des_iov d));
  di_below : ∀ a, covers (mk_iovec x (msg_size T) :: regions ds) a → a < brk h;
  di_layout : sep (f_range <$> ((df_field <$> ds) ++ (vf_field <$> vs)));
  di_inside : Forall (λ f, f ∈ msg_fields T ∧ 0 ≤ f_off f ∧ f_off f + f_size f ≤ msg_size T) ((df_field <$> ds) ++ (vf_field <$> vs));
  di_room : brk h + Z.of_nat (length (values vs)) + 16 * 65536 * Z.of_nat (length vs) < 2 ^ 64;
  di_small : Z.of_nat (length (values vs)) ≤ INT_MAX
}.
End des_inv.

(** Memory taken from the vector or fresh is apart from what was owned before. *)
Lemma sep_extend (S w w' R : list iovec) (b : Z) :
  sep (S ++ w) → (∀ a, covers S a → a < b) → sep w' → (∀ a, covers w' a → covers w a) →
  sep R → (∀ a, covers R a → ¬ covers w' a) → (∀ a, covers R a → covers w a ∨ b ≤ a) → sep (S ++ R ++ w').
Proof.
  intros (HS & Hw & HSw)%sep_app Hb Hw' Hinc HR HRw HRb. apply sep_app. split_and!; [done|by apply sep_app|].
  intros a Ha [Hr|Hr]%covers_app; [|by apply (HSw a Ha), Hinc]. destruct (HRb a Hr) as [?|?]; [by apply (HSw a)|]. specialize (Hb a Ha). lia.
Qed.

Lemma sep_mid (w1 w2 : list iovec) v a : sep (w1 ++ v :: w2) → iov_base v ≤ a < iov_base v + iov_len v → ¬ covers w1 a ∧ ¬ covers w2 a.
Proof.
  intros (_ & [Hv _] & H12)%sep_app Ha. split; [|by apply Hv]. intros H1. apply (H12 a H1), covers_cons. by left.
Qed.
(** Addresses of a field are not addresses of another. *)
Lemma layout_apart (fs1 fs2 : list field) f g i :
  sep (f_range <$> (fs1 ++ f :: fs2)) → g ∈ fs1 ∨ g ∈ fs2 → f_off f ≤ i < f_off f + f_size f → ¬ (f_off g ≤ i < f_off g + f_size g).
Proof.
  rewrite fmap_app, fmap_cons. intros Hs Hg Hi Hgi. destruct (sep_mid _ _ _ i Hs) as [H1 H2]; [done|].
  destruct Hg; [apply H1|apply H2]; exists (f_range g); (split; [by apply list_elem_of_fmap_2|done]).
Qed.

Section des_step.
Context (T : message_type) (x : Z) (body : list Z).
Implicit Types (ds : list dfield) (vs : list vfield) (h : heap).

Lemma des_inv_step ds f val vs d h d' h1 h' R :
  des_inv T x body ds (mk_vf f val :: vs) d h →
  heap_ok h1 → grows h h1 → brk h1 ≤ brk h + Z.of_nat (length val) + 16 * 65536 →
  taken (values vs) (des_iov d) (des_iov d') h1 → failed d' = false →
  (sep (view (des_iov d)) → sep R ∧ ∀ a, covers R a → ¬ covers (view (des_iov d')) a) →
  (∀ a, covers R a → covers (view (des_iov d)) a ∨ brk h ≤ a < brk h1) →
  writes_to (x + f_off f) (f_size f) h1 h' → field_holds (bytes h') x f val R →
  des_inv T x body (ds ++ [mk_df f val R]) vs d' h'.
Proof.
  intros I Hh1 Hg Hb1 Ht Hf HR HRw Hw Hfh.
  assert (Hsv : sep (view (des_iov d))) by (destruct (di_sep _ _ _ _ _ _ _ I) as [_ Hs]; by apply sep_app in Hs as (_ & ? & _)).
  destruct (HR Hsv) as [HRs HRv]. pose proof (di_inside _ _ _ _ _ _ _ I) as [_ Hin]%Forall_app.
  apply Forall_cons in Hin as [(Hfin & Hoff & Hsz) _]. cbn [vf_field] in *.
  assert (Hstruct : ∀ a, x + f_off f ≤ a < x + f_off f + f_size f → covers [mk_iovec x (msg_size T)] a).
  { intros a Ha. apply covers_cons. left. cbn. lia. }
  assert (Hold : ∀ a, a < brk h → ¬ (x + f_off f ≤ a < x + f_off f + f_size f) → bytes h' !! a = bytes h !! a).
  { intros a Ha Hna. destruct Hw as (_ & Hwf & _), Hg as [_ Hg]. rewrite Hwf by done. by apply Hg. }
  assert (Hown : ∀ a, covers (regions ds) a → bytes h' !! a = bytes h !! a).
  { intros a Ha. apply Hold; [apply (di_below _ _ _ _ _ _ _ I), covers_cons; by right|]. intros Hfa.
    destruct (di_sep _ _ _ _ _ _ _ I) as [Hs _]. apply (Hs a); [cbn; lia|]. apply covers_app. by left. }
  assert (Hother : ∀ i, 0 ≤ i < msg_size T → ¬ (f_off f ≤ i < f_off f + f_size f) → bytes h' !! (x + i) = bytes h !! (x + i)).
  { intros i Hi Hni. apply Hold; [|lia]. apply (di_below _ _ _ _ _ _ _ I), covers_cons. left. cbn. lia. }
  assert (Hfield : ∀ g, g ∈ (df_field <$> ds) ∨ g ∈ (vf_field <$> vs) → ∀ a, x + f_off g ≤ a < x + f_off g + f_size g → bytes h' !! a = bytes h !! a).
  { intros g Hg' a Ha. pose proof (di_layout _ _ _ _ _ _ _ I) as Hl. cbn [fmap list_fmap vf_field] in Hl.
    assert (Hgin : 0 ≤ f_off g ∧ f_off g + f_size g ≤ msg_size T).
    { pose proof (di_inside _ _ _ _ _ _ _ I) as Hi. rewrite Forall_forall in Hi. apply (Hi g). apply elem_of_app. destruct Hg'; [by left|right; by right]. }
    replace a with (x + (a - x)) by lia. apply Hother; [lia|]. intros Hfa. apply (layout_apart _ _ f g (a - x) Hl); [done|done|lia]. }
  destruct I as [? Hheap ? ? Hdata Hmap Htodo Hdone Hoth Hsep Hbelow Hlay Hins Hroom Hsmall]. cbn [values mbind list_bind vf_val] in Hroom, Hsmall. cbn [length] in Hroom.
  change (vs ≫= vf_val) with (values vs) in *. rewrite length_app in Hroom, Hsmall. apply Forall_cons in Htodo as [_ Htodo]. split; try done.
  - by eapply writes_to_ok.
  - apply Ht.
  - by rewrite (tk_cap _ _ _ _ Ht).
  - rewrite (writes_to_data _ _ _ _ _ Hw); [apply Ht|]. intros a Hca Hfa. destruct Hsep as [Hs _]. apply (Hs a); [cbn; lia|].
    apply covers_app. right. by apply (tk_covers _ _ _ _ Ht).
  - intros i Hi. destruct Hw as (_ & _ & Hdom), Hg as [_ Hg]. apply Hdom. rewrite Hg; [by apply Hmap|].
    apply Hbelow, covers_cons. left. cbn. lia.
  - apply Forall_forall. intros v Hv. rewrite Forall_forall in Htodo. eapply word_at_ext; [|by apply Htodo]. intros a Ha.
    apply (Hfield (vf_field v)); [right; by apply list_elem_of_fmap_2|]. unfold f_len_off, f_size in *. destruct (f_kind (vf_field v)); lia.
  - apply Forall_app. split; [|by apply Forall_singleton]. apply Forall_forall. intros e He. rewrite Forall_forall in Hdone.
    eapply field_holds_ext; [| |by apply Hdone].
    + apply Hfield. left. by apply list_elem_of_fmap_2.
    + intros a Ha. apply Hown. destruct Ha as (v & Hv & Ha). exists v. split; [|done]. apply list_elem_of_bind. by exists e.
  - intros i b Hi Hni. rewrite <- (Hoth i b Hi Hni). destruct (decide (Z.of_nat i < msg_size T)) as [Hlt|Hge].
    + apply Hother; [lia|]. intros Hfi. apply Hni. by exists f.
    + pose proof (Hoth i b Hi Hni). apply Hold; [|lia]. apply (proj2 Hheap). by exists b.
  - rewrite regions_snoc, <- app_assoc. cbn [df_regions].
    eapply (sep_extend (mk_iovec x (msg_size T) :: regions ds) (view (des_iov d)) _ _ (brk h)); try done.
    + by apply (tk_sep _ _ _ _ Ht).
    + apply Ht.
    + intros a Ha. destruct (HRw a Ha); [by left|right; lia].
  - intros a. rewrite regions_snoc. cbn [df_regions]. rewrite app_comm_cons, covers_app.
    destruct Hw as (Hbw & _), Hg as [Hbg _]. rewrite Hbw. intros [Ha%Hbelow|Ha]; [lia|]. destruct (HRw a Ha) as [Hv|?]; [|lia].
    pose proof (covers_mapped h (des_iov d) _ a Hheap Hdata Hv). lia.
  - rewrite (fmap_app df_field), <- app_assoc. done.
  - rewrite (fmap_app df_field), <- app_assoc. done.
  - destruct Hw as (Hbw & _). lia.
  - lia.
Qed.
End des_step.

(** * The deserializer reads what was sent

    Each field of the pass preserves the invariant, so that a received vector that
    denotes a message, however it is cut, is read back into the struct. *)

Lemma word_at_writes p q n z h h' : writes_to q n h h' → (∀ a, p ≤ a < p + 8 → ¬ (q ≤ a < q + n)) → word_at (bytes h) p z → word_at (bytes h') p z.
Proof. intros (_ & Hf & _) Hp. apply word_at_ext. intros a Ha. by apply Hf, Hp. Qed.
Lemma word_at_store p z h h' : heap_store p (le_bytes 8 z) h h' → 0 ≤ z < 2 ^ 64 → word_at (bytes h') p z.
Proof. intros [Hs _] Hz. split; [|done]. by apply store_load_same in Hs. Qed.
Lemma writes_to_trans p n q k r l h1 h2 h3 :
  writes_to p n h1 h2 → writes_to q k h2 h3 → (∀ a, p ≤ a < p + n ∨ q ≤ a < q + k → r ≤ a < r + l) → writes_to r l h1 h3.
Proof.
  intros (Hb1 & Hf1 & Hd1) (Hb2 & Hf2 & Hd2) Hin. split_and!; [congruence| |intros a; by rewrite Hd2, Hd1].
  intros a Ha. rewrite Hf2, Hf1; [done|intros ?; apply Ha, Hin; by left|intros ?; apply Ha, Hin; by right].
Qed.
Lemma writes_to_refl p n h : writes_to p n h h.
Proof. by split_and!. Qed.
Lemma wp_read_word p z (Q : Z → heap → Prop) h : word_at (bytes h) p z → Q z h → wp (read_u64 p) Q h.
Proof. intros [Hl Hz] HQ. by apply (wp_read_u64 p z). Qed.
Lemma wp_write_word p z (Q : unit → heap → Prop) h :
  0 ≤ z < 2 ^ 64 → (∀ a, p ≤ a < p + 8 → is_Some (bytes h !! a)) →
  (∀ h', writes_to p 8 h h' → word_at (bytes h') p z → Q tt h') → wp (write_u64 p z) Q h.
Proof.
  intros Hz Hm HQ. apply wp_write_u64; [done|]. intros h' Hs. apply HQ; [|by eapply word_at_store].
  apply heap_store_writes in Hs. by rewrite length_le_bytes in Hs.
Qed.
Lemma word_at_grows p z h h' : grows h h' → heap_ok h → word_at (bytes h) p z → word_at (bytes h') p z.
Proof.
  intros [_ Hg] [_ Hok] [Hl Hz]. split; [|done]. rewrite <- Hl. apply load_ext. intros a Ha. apply Hg, Hok. by eapply load_mapped.
Qed.

Section des.
Context (malloc_ok : Z → bool) (junk : Z → Z).
Hypothesis Hmalloc : ∀ size, malloc_ok size = true.
Context (T : message_type) (x : Z) (body : list Z).
Implicit Types (ds : list dfield) (vs : list vfield).
Abbreviation I := (des_inv T x body).

(** What the invariant says about the field to be read next. *)
Lemma des_inv_next ds f val vs d h :
  I ds (mk_vf f val :: vs) d h →
  word_at (bytes h) (x + f_len_off f) (Z.of_nat (length val)) ∧
  (∀ i, f_off f ≤ i < f_off f + f_size f → is_Some (bytes h !! (x + i)) ∧ x + i < brk h ∧ ¬ covers (view (des_iov d)) (x + i)) ∧
  Z.of_nat (length val) ≤ INT_MAX ∧ brk h + Z.of_nat (length val) + 16 * 65536 < 2 ^ 64.
Proof.
  intros [? ? ? ? Hdata Hmap Htodo Hdone Hoth Hsep Hbelow Hlay Hins Hroom Hsmall].
  apply Forall_app in Hins as [_ ((Hin & Hoff & Hsz) & _)%Forall_cons]. cbn [vf_field] in *. split_and!.
  - by apply Forall_cons in Htodo as [Hw _].
  - intros i Hi. split_and!; [apply Hmap; lia|apply Hbelow, covers_cons; left; cbn; lia|].
    destruct Hsep as [Hs _]. intros Hc. apply (Hs (x + i)); [cbn; lia|]. apply covers_app. by right.
  - cbn [values mbind list_bind vf_val] in Hsmall. rewrite length_app in Hsmall. lia.
  - cbn [values mbind list_bind vf_val] in Hroom. rewrite length_app in Hroom. cbn [length] in Hroom. lia.
Qed.

Lemma des_buffer_ok ds f val vs d h :
  f_kind f = FBuffer → I ds (mk_vf f val :: vs) d h →
  wp (des_buffer malloc_ok junk x f d) (λ d' h', ∃ R, I (ds ++ [mk_df f val R]) vs d' h') h.
Proof.
  intros Hk HI. destruct (des_inv_next _ _ _ _ _ _ HI) as (Hw & Hfld & Hsm & Hroom).
  unfold f_len_off, f_size in Hw, Hfld. rewrite Hk in Hw, Hfld. unfold des_buffer. wstep.
  replace (off_len x f) with (x + (f_off f + 8)) by (unfold off_len; lia). apply (wp_read_word _ (Z.of_nat (length val))); [done|].
  destruct (Z.eqb_spec (Z.of_nat (length val)) 0) as [E|E].
  - wstep. exists []. destruct val; [|done]. eapply (des_inv_step T x body ds f [] vs d h d h h); [done|apply HI|apply grows_refl|lia| |apply HI| | | |].
    + split; try done; by destruct HI.
    + intros _. split; [done|]. intros a ?%covers_nil. done.
    + intros a ?%covers_nil. done.
    + apply writes_to_refl.
    + split; [|by rewrite Hk]. unfold f_len_off. rewrite Hk. done.
  - wstep. pose proof (di_heap _ _ _ _ _ _ _ HI) as Hh.
    eapply wq_mono; [apply (wp_extract_front_continuous malloc_ok junk Hmalloc (Z.of_nat (length val)) (des_iov d) h (val ++ values vs)); [apply (di_iov _ _ _ _ _ _ _ HI)|apply (di_cap _ _ _ _ _ _ _ HI)|lia|done|apply (di_data _ _ _ _ _ _ _ HI)]|].
    intros r h1 (Hh1 & Hg & Ht & Hp). rewrite Nat2Z.id, drop_app_length, take_app_length in *.
    assert (Hle : Z.of_nat (length val) ≤ Z.of_nat (length (val ++ values vs))) by (rewrite length_app; lia).
    rewrite (proj2 (Z.leb_le _ _) Hle) in Hp.
    destruct Hp as [_ _ Hbrk Hnull Hload Hwhere Hsep]. rewrite Nat2Z.id in Hload. wstep.
    pose proof (load_base_pos h1 _ _ _ Hh1 Hload) as Hpos. assert (Hgm : ∀ i, f_off f ≤ i < f_off f + 16 → is_Some (bytes h1 !! (x + i))).
    { intros i Hi. destruct (Hfld i Hi) as (? & ? & _), Hg as [_ Hg]. by rewrite Hg. }
    apply wp_write_word; [lia|unfold off_ptr; intros a Ha; replace a with (x + (a - x)) by lia; apply Hgm; lia|].
    intros h2 Hw2 Hptr. wstep. exists [mk_iovec r.1 (Z.of_nat (length val))].
    assert (Hout : ∀ a, r.1 ≤ a < r.1 + Z.of_nat (length val) → ¬ (off_ptr x f ≤ a < off_ptr x f + 8)).
    { intros a Ha Hoa. unfold off_ptr in Hoa. destruct (Hfld (a - x)) as (_ & Hb & Hc); [lia|]. replace (x + (a - x)) with a in * by lia.
      destruct (Hwhere a Ha); [done|lia]. }
    eapply (des_inv_step T x body ds f val vs d h _ h1 h2); try done; cbn [des_iov failed].
    + lia.
    + rewrite (di_failed _ _ _ _ _ _ _ HI). by apply Z.eqb_neq.
    + intros Hs. split; [split; [intros a _; apply covers_nil|done]|]. intros a [Ha|?%covers_nil]%covers_cons; [|done]. by apply Hsep.
    + intros a [Ha|?%covers_nil]%covers_cons; [|done]. by apply Hwhere.
    + eapply (writes_to_trans _ 8 (off_ptr x f) 8); [apply Hw2|apply writes_to_refl|]. unfold off_ptr, f_size. rewrite Hk. intros a Ha. lia.
    + split; unfold f_len_off; rewrite Hk.
      * eapply word_at_writes; [done| |by eapply word_at_grows]. unfold off_ptr. intros a Ha. lia.
      * unfold buffer_holds. rewrite bool_decide_eq_false_2 by (by intros ->). exists r.1. split_and!; [done..|]. rewrite data_one. cbn. rewrite Nat2Z.id, <- Hload.
        apply load_ext. intros a Ha. destruct Hw2 as (_ & Hf & _). by apply Hf, Hout.
Qed.

(** [iovec_array::sum] over an array that holds [ps]. *)
Lemma enc_cons_load m ptr y ps :
  load m ptr (16 * length (y :: ps)) = Some (enc_iovecs (y :: ps)) →
  load m ptr 8 = Some (le_bytes 8 (iov_base y)) ∧ load m (ptr + 8) 8 = Some (le_bytes 8 (iov_len y)) ∧
  load m (ptr + 16) (16 * length ps) = Some (enc_iovecs ps).
Proof.
  intros Hl. change (enc_iovecs (y :: ps)) with (enc_iovec y ++ enc_iovecs ps) in Hl. unfold enc_iovec in Hl.
  cbn [length] in Hl. split_and!.
  - by rewrite (load_take _ _ _ 8 _ Hl) by lia.
  - by apply (load_sub _ _ _ _ 8 8 Hl); lia.
  - pose proof (load_drop _ _ _ 16 _ Hl) as H. replace (16 * S (length ps) - 16)%nat with (16 * length ps)%nat in H by lia. apply H. lia.
Qed.

Lemma wp_sum_iovecs ps ptr sum_at acc h :
  load (bytes h) ptr (16 * length ps) = Some (enc_iovecs ps) → lens_ok ps → 0 ≤ acc → acc + view_sum ps < 2 ^ 64 →
  (∀ a, sum_at ≤ a < sum_at + 8 → is_Some (bytes h !! a)) →
  (∀ a, ptr ≤ a < ptr + 16 * Z.of_nat (length ps) → ¬ (sum_at ≤ a < sum_at + 8)) →
  word_at (bytes h) sum_at acc →
  wp (sum_iovecs (length ps) ptr sum_at acc) (λ _ h', writes_to sum_at 8 h h' ∧ word_at (bytes h') sum_at (acc + view_sum ps)) h.
Proof.
  revert ptr acc h. induction ps as [|y ps IH]; intros ptr acc h Hl Hlens Hacc Hsum Hm Hap Hw.
  - apply wq_ret. unfold view_sum. cbn [foldr]. rewrite Z.add_0_r. split; [apply writes_to_refl|done].
  - apply enc_cons_load in Hl as (_ & Hl2 & Hl3). apply Forall_cons in Hlens as [Hy Hlens].
    assert (Hvs : 0 ≤ view_sum ps) by (clear -Hlens; induction Hlens; cbn; [lia|unfold view_sum in *; lia]).
    change (view_sum (y :: ps)) with (iov_len y + view_sum ps) in *. cbn [length sum_iovecs] in *.
    wstep. apply (wp_read_u64 _ (iov_len y)); [done|lia|]. wstep. rewrite (Z.mod_small (acc + iov_len y)) by lia.
    apply wp_write_word; [lia|done|]. intros h1 Hw1 Hword.
    assert (Hl4 : load (bytes h1) (ptr + sizeof_iovec) (16 * length ps) = Some (enc_iovecs ps)).
    { rewrite <- Hl3. apply load_ext. intros a Ha. destruct Hw1 as (_ & Hf & _). apply Hf, Hap. unfold sizeof_iovec in Ha. lia. }
    eapply wq_mono; [apply IH; try done; try lia|].
    + intros a Ha. destruct Hw1 as (_ & _ & Hd). by apply Hd, Hm.
    + intros a Ha. apply Hap. unfold sizeof_iovec in Ha. lia.
    + intros [] h2 [Hw2 Hword2]. rewrite Z.add_assoc. split; [|done]. by eapply (writes_to_trans _ 8 _ 8); [done|done|intros a; tauto].
Qed.

Lemma wp_iovec_array_assign f ps ptr val h :
  f_kind f ≠ FBuffer → (∀ i, f_off f ≤ i < f_off f + f_size f → is_Some (bytes h !! (x + i))) →
  0 ≤ ptr < 2 ^ 64 → load (bytes h) ptr (16 * length ps) = Some (enc_iovecs ps) → lens_ok ps → data (bytes h) ps = Some val →
  Z.of_nat (length ps) < 65536 → Z.of_nat (length val) < 2 ^ 64 →
  (∀ a, covers (mk_iovec ptr (16 * Z.of_nat (length ps)) :: ps) a → ¬ (x + f_off f ≤ a < x + f_off f + f_size f)) →
  wp (iovec_array_assign x f ptr (Z.of_nat (length ps))) (λ _ h', writes_to (x + f_off f) (f_size f) h h' ∧
    field_holds (bytes h') x f val (mk_iovec ptr (16 * Z.of_nat (length ps)) :: ps)) h.
Proof.
  intros Hk Hm Hptr Hl Hlens Hd Hcnt Hval Hap. pose proof (data_length _ _ _ Hlens Hd) as Hsum.
  pose proof (f_size_array f Hk) as Hsz. rewrite Hsz in *.
  assert (Hm' : ∀ a, x + f_off f ≤ a < x + f_off f + 24 → is_Some (bytes h !! a)) by (intros a Ha; replace a with (x + (a - x)) by lia; apply Hm; lia).
  assert (Harr : ∀ a, ptr ≤ a < ptr + 16 * Z.of_nat (length ps) → ¬ (x + f_off f ≤ a < x + f_off f + 24)) by (intros a Ha; apply Hap, covers_cons; by left).
  unfold iovec_array_assign, off_ptr, off_len, off_summed, sizeof_iovec. rewrite Nat2Z.id.
  wstep. apply wp_write_word; [lia|intros a Ha; apply Hm'; lia|]. intros h1 Hw1 Hp1.
  wstep. apply wp_write_word; [lia|intros a Ha; apply Hw1, Hm'; lia|]. intros h2 Hw2 Hp2.
  wstep. apply wp_write_word; [lia|intros a Ha; apply Hw2, Hw1, Hm'; lia|]. intros h3 Hw3 Hp3.
  assert (Hw13 : writes_to (x + f_off f) 24 h h3).
  { eapply writes_to_trans; [exact Hw1| |]; [eapply (writes_to_trans _ _ _ _ (x + f_off f + 8) 16); [exact Hw2|exact Hw3|]|]; intros a Ha; lia. }
  pose proof Hw13 as (_ & Hf13 & Hd13).
  eapply wq_mono; [apply (wp_sum_iovecs ps ptr (x + f_off f + 16) 0); try done; try lia|].
  - rewrite <- Hl. apply load_ext. intros a Ha. apply Hf13, Harr. lia.
  - intros a Ha. apply Hd13, Hm'. lia.
  - intros a Ha ?. apply (Harr a Ha). lia.
  - intros [] h4 [Hw4 Hp4].
    assert (Hw : writes_to (x + f_off f) 24 h h4) by (eapply (writes_to_trans _ _ _ _ _ _ _ _ _ Hw13 Hw4); intros a Ha; lia).
    split; [done|]. pose proof Hw as (_ & Hf & _). apply field_holds_array; [done|]. split; [by rewrite <- Hsum in Hp4|].
    exists ptr, ps. split_and!; try done.
    + eapply word_at_writes; [exact Hw4|intros a Ha; unfold off_ptr in Ha; lia|]. eapply word_at_writes; [exact Hw3|intros a Ha; unfold off_ptr in Ha; lia|].
      eapply word_at_writes; [exact Hw2|intros a Ha; unfold off_ptr in Ha; lia|done].
    + eapply word_at_writes; [exact Hw4|intros a Ha; unfold off_len in Ha; lia|]. eapply word_at_writes; [exact Hw3|intros a Ha; unfold off_len in Ha; lia|done].
    + rewrite <- Hl. apply load_ext. intros a Ha. apply Hf, Harr. lia.
    + rewrite <- Hd. apply data_ext. intros a Ha. apply Hf, Hap, covers_cons. by right.
Qed.

Lemma des_iovec_array_ok ds f val vs d h :
  f_kind f ≠ FBuffer → I ds (mk_vf f val :: vs) d h →
  wp (des_iovec_array malloc_ok junk x f d) (λ d' h', ∃ R, I (ds ++ [mk_df f val R]) vs d' h') h.
Proof.
  intros Hk HI. destruct (des_inv_next _ _ _ _ _ _ HI) as (Hw & Hfld & Hsm & Hroom). pose proof (di_heap _ _ _ _ _ _ _ HI) as Hh.
  assert (Hoff : off_summed x f = x + f_len_off f) by (unfold off_summed, f_len_off; destruct (f_kind f); [done|lia..]).
  unfold des_iovec_array. wstep. rewrite Hoff. apply (wp_read_word _ (Z.of_nat (length val))); [done|]. wstep. unfold INT_MAX in Hsm.
  destruct (Z.eqb_spec (Z.of_nat (length val)) 0) as [E|E].
  - destruct val; [|done]. unfold extract_front_view. apply wq_ret. cbn [fst snd]. change (0 =? Z.of_nat (length [])) with true. cbv beta iota. wstep.
    eapply wq_mono; [apply (wp_iovec_array_assign f [] 0 [] h); try done; try lia|].
    + intros i Hi. by apply Hfld.
    + intros a [Ha|?%covers_nil]%covers_cons; [cbn in Ha; lia|done].
    + intros [] h' [Hw' Hfh]. wstep. eexists. eapply (des_inv_step T x body ds f [] vs d h _ h h'); [done|done|apply grows_refl|cbn; lia| |apply HI| | |done|done].
      * split; try done; by destruct HI.
      * intros _. split; [split; [intros a _; apply covers_nil|done]|]. intros a [Ha|?%covers_nil]%covers_cons; [cbn in Ha; lia|done].
      * intros a [Ha|?%covers_nil]%covers_cons; [cbn in Ha; lia|done].
  - eapply wq_mono; [apply (wp_extract_front_view malloc_ok junk Hmalloc (Z.of_nat (length val)) (des_iov d) h (val ++ values vs));
      [apply (di_iov _ _ _ _ _ _ _ HI)|apply (di_cap _ _ _ _ _ _ _ HI)|lia|done|apply (di_data _ _ _ _ _ _ _ HI)]|].
    intros [[ret pc] v'] h1 (ps & Hret & Hpc & Hv & Ht). cbn [fst snd] in *. subst pc. cbn [fst snd].
    rewrite length_app in Hret. assert (ret = Z.of_nat (length val)) as -> by lia. rewrite Z.eqb_refl. clear Hret.
    rewrite Nat2Z.id, drop_app_length in Ht. destruct Hv as [Hh1 Hg Hb1 Harr Hdat Hlens Hcnt Hcov Hsep Hfresh]. rewrite Nat2Z.id, take_app_length in Hdat.
    assert (Hap : ∀ a, covers (mk_iovec (brk h) (16 * Z.of_nat (length ps)) :: ps) a → ¬ (x + f_off f ≤ a < x + f_off f + f_size f)).
    { intros a Ha Hfa. destruct (Hfld (a - x)) as (_ & Hb & Hc); [lia|]. replace (x + (a - x)) with a in * by lia.
      apply covers_cons in Ha as [Ha|Ha]; [cbn in Ha; lia|by apply Hc, Hcov]. }
    wstep. eapply wq_mono; [apply (wp_iovec_array_assign f ps (brk h) val h1); try done; try lia|].
    + intros i Hi. destruct (Hfld i Hi) as (? & ? & _), Hg as [_ Hg]. by rewrite Hg.
    + destruct Hh. lia.
    + intros [] h2 [Hw2 Hfh]. wstep. eexists. eapply (des_inv_step T x body ds f val vs d h _ h1 h2); [done|done|done|lia|done|apply HI| | |done|done].
      * intros Hs. specialize (Hsep Hs). apply sep_app in Hsep as (Hs1 & Hs2 & Hs3). split; [split; [|done]|].
        -- intros a Ha Hca%Hcov. pose proof (covers_mapped h (des_iov d) _ a Hh (di_data _ _ _ _ _ _ _ HI) Hca). cbn in Ha. lia.
        -- intros a [Ha|Ha]%covers_cons; [|by apply Hs3]. intros Hca%(tk_covers _ _ _ _ Ht).
           pose proof (covers_mapped h (des_iov d) _ a Hh (di_data _ _ _ _ _ _ _ HI) Hca). cbn in Ha. lia.
      * intros a [Ha|Ha]%covers_cons; [right; cbn in Ha; lia|left; by apply Hcov].
Qed.

Lemma des_fields_ok fs ds vs vs' d h :
  fs = vf_field <$> vs → I ds (vs ++ vs') d h →
  wp (des_fields malloc_ok junk x fs d) (λ d' h', ∃ ds', I (ds ++ ds') vs' d' h' ∧ df_field <$> ds' = fs ∧ df_val <$> ds' = vf_val <$> vs) h.
Proof.
  intros ->. revert ds d h. induction vs as [|[f val] vs IH]; intros ds d h HI; cbn [fmap list_fmap des_fields vf_field].
  - wstep. exists []. by rewrite app_nil_r.
  - wstep. assert (Hstep : wp (des_field malloc_ok junk x f d) (λ d' h', ∃ R, I (ds ++ [mk_df f val R]) (vs ++ vs') d' h') h).
    { unfold des_field. destruct (f_kind f) eqn:Hk; [by apply des_buffer_ok|apply des_iovec_array_ok; [by rewrite Hk|done]..]. }
    eapply wq_mono; [exact Hstep|]. intros d1 h1 (R & HI1). eapply wq_mono; [by apply IH|].
    intros d2 h2 (ds' & HI2 & Hf & Hv). exists (mk_df f val R :: ds'). rewrite <- app_assoc in HI2. cbn. rewrite Hf, Hv. done.
Qed.
End des.
