(* ===== verification/SerializerSer.v ===== *)
(** * The serializer collects the message

    The iovecs the serializer collects denote the values of the fields, in the order
    of the two passes, followed by the struct. *)

From S2P Require Import Prelude IoVector IoVectorSpec IoVectorClass IoVectorOps Serializer SerializerSpec.

(** A field ready to be sent: as [field_holds], but [summed_size] is not set yet. *)
Definition field_src (m : gmap Z Z) (x : Z) (f : field) (val : list Z) (rs : list iovec) : Prop :=
  match f_kind f with
  | FBuffer => field_holds m x f val rs
  | _ => array_holds m x f val rs ∧ Z.of_nat (length val) < 2 ^ 64 ∧ Forall (λ v, 0 ≤ iov_base v < 2 ^ 64 ∧ 0 ≤ iov_len v < 2 ^ 64) rs
  end.

Record ser_ok (s : Serializer) : Prop := {
  so_iov : iov_ok (iov s);
  so_cap : capacity (iov s) = IOVECTOR_CAPACITY;
  so_full : iovfull s = false
}.
(** [s'] is [s] with the iovecs [w] appended. *)
Record ser_added (w : list iovec) (s s' : Serializer) : Prop := {
  sa_ok : ser_ok s';
  sa_view : view (iov s') = view (iov s) ++ w;
  sa_begin : iov_begin (iov s') = iov_begin (iov s)
}.
Lemma ser_added_end w s s' : ser_ok s → ser_added w s s' → iov_end (iov s') = iov_end (iov s) + Z.of_nat (length w).
Proof.
  intros [Hs _ _] [[Hs' _ _] Hv Hb]. pose proof (view_length _ Hs). pose proof (view_length _ Hs') as H'.
  rewrite Hv, length_app in H'. lia.
Qed.
Lemma ser_added_trans w1 w2 s1 s2 s3 : ser_added w1 s1 s2 → ser_added w2 s2 s3 → ser_added (w1 ++ w2) s1 s3.
Proof. intros [_ Hv1 Hb1] [Hok Hv2 Hb2]. split; [done| |congruence]. by rewrite Hv2, Hv1, app_assoc. Qed.
Lemma ser_added_nil s : ser_ok s → ser_added [] s s.
Proof. intros Hs. split; [done|by rewrite app_nil_r|done]. Qed.

(** The iovecs that are pushed: the empty ones are not. *)
Abbreviation nonempty := (filter (λ v, 0 < iov_len v)).
Lemma data_nonempty m w : lens_ok w → data m (nonempty w) = data m w.
Proof.
  induction 1 as [|v w Hv Hw IH]; [done|]. rewrite filter_cons. destruct (decide (0 < iov_len v)).
  - cbn. by rewrite IH.
  - cbn [data]. rewrite IH. replace (Z.to_nat (iov_len v)) with 0%nat by lia. cbn. by destruct (data m w).
Qed.

Lemma push_back_ok v y :
  iov_ok v → 0 ≤ iov_len y → iov_end v < capacity v →
  ∃ v', push_back y v = Ok (iov_len y, v') ∧ iov_ok v' ∧ view v' = view v ++ [y] ∧ iov_begin v' = iov_begin v ∧ capacity v' = capacity v.
Proof.
  intros Hv Hy He. unfold push_back. rewrite (do_assert_ok v Hv). cbn. replace (iov_end v <? capacity v) with true by lia.
  destruct Hv as [Hb Ho Hec Hn Hr Hwd Hl]. rewrite arr_set_in_range by lia. cbn. eexists. split; [done|].
  assert (Hview : view (set_iovs (<[Z.to_nat (iov_end v):=y]> (iovs v)) (set_iov_end (iov_end v + 1) v)) = view v ++ [y]).
  { unfold view. cbn [iov_end iov_begin iovs set_iovs set_iov_end]. replace (Z.to_nat (iov_end v + 1 - iov_begin v)) with (S (Z.to_nat (iov_end v - iov_begin v))) by lia.
    assert (Hnth : drop (Z.to_nat (iov_begin v)) (<[Z.to_nat (iov_end v):=y]> (iovs v)) !! Z.to_nat (iov_end v - iov_begin v) = Some y).
    { rewrite lookup_drop. replace (Z.to_nat (iov_begin v) + Z.to_nat (iov_end v - iov_begin v))%nat with (Z.to_nat (iov_end v)) by lia.
      apply list_lookup_insert_eq. lia. }
    rewrite (take_S_r _ _ _ Hnth). f_equal. rewrite drop_insert_ge by lia. rewrite take_insert_ge; [done|lia]. }
  split_and!; [|done..]. split; cbn [iov_begin iov_end capacity nbases iovs set_iovs set_iov_end]; try lia.
  - by rewrite length_insert.
  - rewrite Hview. apply Forall_app. split; [done|by apply Forall_singleton].
Qed.

Lemma ser_buffer_ok addr size s :
  ser_ok s → 0 ≤ size → iov_end (iov s) < IOVECTOR_CAPACITY →
  ∃ s', ser_buffer addr size s = Ok s' ∧ ser_added (nonempty [mk_iovec addr size]) s s'.
Proof.
  intros [Hv Hc Hf] Hs He. unfold ser_buffer, back_free_iovcnt. rewrite (do_assert_ok _ Hv). cbn [mbind outcome_bind].
  replace (capacity (iov s) =? 0) with false by (rewrite Hc; done). cbn [fst snd].
  assert (Hid : set_iov (iov s) s = s) by by destruct s. rewrite Hid.
  assert (Hu : u16 (capacity (iov s) - iov_end (iov s)) = IOVECTOR_CAPACITY - iov_end (iov s)).
  { unfold u16. rewrite Hc. apply Z.mod_small. destruct Hv. unfold IOVECTOR_CAPACITY in *. lia. }
  rewrite Hu. replace (0 <? IOVECTOR_CAPACITY - iov_end (iov s)) with true by lia.
  rewrite filter_cons, filter_nil. cbn [iov_len]. destruct (Z.ltb_spec 0 size) as [Hpos|Hz], (decide (0 < size)); try lia.
  - unfold ser_push, push_back_buf.
    assert (Hcap : set_capacity IOVECTOR_CAPACITY (iov s) = iov s) by (rewrite <- Hc; by destruct (iov s)). rewrite Hcap.
    destruct (push_back_ok (iov s) (mk_iovec addr size) Hv) as (v' & -> & Hok & Hview & Hb & Hcp); [done|lia|]. cbn.
    eexists. split; [done|]. split; cbn; [split; cbn; congruence || done|done|done].
  - exists s. split; [done|]. by apply ser_added_nil.
Qed.

Lemma wp_read_any p bs (Q : Z → heap → Prop) h : load (bytes h) p 8 = Some bs → Q (le_value bs) h → wp (read_u64 p) Q h.
Proof. intros Hl HQ. unfold read_u64. wstep. apply (wp_read_bytes _ _ bs); [done|]. by wstep. Qed.

Section ser.
Context (x : Z).

Lemma ser_iovecs_ok ps ptr sum_at acc s h :
  ser_ok s → load (bytes h) ptr (16 * length ps) = Some (enc_iovecs ps) →
  Forall (λ v, 0 ≤ iov_base v < 2 ^ 64 ∧ 0 ≤ iov_len v < 2 ^ 64) ps → 0 ≤ acc → acc + view_sum ps < 2 ^ 64 →
  iov_end (iov s) + Z.of_nat (length ps) < IOVECTOR_CAPACITY →
  (∀ a, sum_at ≤ a < sum_at + 8 → is_Some (bytes h !! a)) →
  (∀ a, ptr ≤ a < ptr + 16 * Z.of_nat (length ps) → ¬ (sum_at ≤ a < sum_at + 8)) → word_at (bytes h) sum_at acc →
  wp (ser_iovecs (length ps) ptr sum_at acc s) (λ s' h', ser_added (nonempty ps) s s' ∧ writes_to sum_at 8 h h' ∧
    word_at (bytes h') sum_at (acc + view_sum ps)) h.
Proof.
  revert ptr acc s h. induction ps as [|y ps IH]; intros ptr acc s h Hs Hl Hps Hacc Hsum Hroom Hm Hap Hw.
  - apply wq_ret. unfold view_sum. cbn [foldr]. rewrite Z.add_0_r. split_and!; [by apply ser_added_nil|apply writes_to_refl|done].
  - apply enc_cons_load in Hl as (Hl1 & Hl2 & Hl3). apply Forall_cons in Hps as [[Hy1 Hy2] Hps].
    assert (Hvs : 0 ≤ view_sum ps) by (clear -Hps; induction Hps; cbn; [lia|unfold view_sum in *; lia]).
    change (view_sum (y :: ps)) with (iov_len y + view_sum ps) in *. cbn [length ser_iovecs] in *.
    wstep. apply (wp_read_u64 _ (iov_base y)); [done|done|]. wstep. apply (wp_read_u64 _ (iov_len y)); [done|done|].
    wstep. rewrite (Z.mod_small (acc + iov_len y)) by lia. apply wp_write_word; [lia|done|]. intros h1 Hw1 Hword.
    destruct (ser_buffer_ok (iov_base y) (iov_len y) s Hs) as (s1 & Hs1 & Ha1); [lia|lia|]. pose proof (ser_added_end _ _ _ Hs Ha1) as He1.
    assert (Hn1 : (length (nonempty [mk_iovec (iov_base y) (iov_len y)]) ≤ 1)%nat) by apply (length_filter (λ v, 0 < iov_len v) [_]).
    wstep. apply (wp_lift s1); [done|].
    assert (Hl4 : load (bytes h1) (ptr + sizeof_iovec) (16 * length ps) = Some (enc_iovecs ps)).
    { rewrite <- Hl3. apply load_ext. intros a Ha. destruct Hw1 as (_ & Hf & _). apply Hf, Hap. unfold sizeof_iovec in Ha. lia. }
    eapply wq_mono; [apply IH; try done; try lia; [apply Ha1|..]|].
    + intros a Ha. destruct Hw1 as (_ & _ & Hd). by apply Hd, Hm.
    + intros a Ha. apply Hap. unfold sizeof_iovec in Ha. lia.
    + intros s2 h2 (Ha2 & Hw2 & Hword2). rewrite Z.add_assoc. split_and!; [|by eapply (writes_to_trans _ 8 _ 8); [done|done|intros a; tauto]|done].
      assert (Hne : nonempty (y :: ps) = nonempty [mk_iovec (iov_base y) (iov_len y)] ++ nonempty ps) by (destruct y; apply (filter_app _ [_] ps)).
      rewrite Hne. by eapply ser_added_trans.
Qed.

(** What is appended for a field denotes its value, and the length word is set. *)
Definition ser_field_post (f : field) (val : list Z) (rs : list iovec) (s : Serializer) (h : heap) (s' : Serializer) (h' : heap) : Prop :=
  ∃ w, ser_added w s s' ∧ writes_to (x + f_off f) (f_size f) h h' ∧ field_holds (bytes h') x f val rs ∧
    data (bytes h') w = Some val ∧ (∀ a, covers w a → covers rs a) ∧ (length w ≤ length rs)%nat.

Lemma ser_iovec_array_ok f val rs s h :
  f_kind f ≠ FBuffer → ser_ok s → array_holds (bytes h) x f val rs → Z.of_nat (length val) < 2 ^ 64 →
  Forall (λ v, 0 ≤ iov_base v < 2 ^ 64 ∧ 0 ≤ iov_len v < 2 ^ 64) rs →
  iov_end (iov s) + Z.of_nat (length rs) + 1 ≤ IOVECTOR_CAPACITY →
  (∀ a, x + f_off f ≤ a < x + f_off f + f_size f → is_Some (bytes h !! a)) →
  (∀ a, covers rs a → ¬ (x + f_off f ≤ a < x + f_off f + f_size f)) →
  wp (ser_iovec_array x f s) (ser_field_post f val rs s h) h.
Proof.
  intros Hk Hs Harr Hval Hrs Hroom Hm Hap. pose proof (f_size_array f Hk) as Hsz. unfold ser_field_post. rewrite Hsz in *.
  pose proof Harr as (ptr & ps & Hp & Hl & -> & Hlens & Hload & Hd). apply Forall_cons in Hrs as [_ Hps]. cbn [length] in Hroom.
  pose proof (data_length _ _ _ Hlens Hd) as Hsum. unfold ser_iovec_array, off_summed, off_ptr, off_len in *.
  wstep. apply wp_write_word; [lia|intros a Ha; apply Hm; lia|]. intros h1 Hw1 Hword. pose proof Hw1 as (_ & Hf1 & Hd1).
  wstep. apply (wp_read_word _ ptr); [eapply word_at_writes; [exact Hw1|intros a Ha; lia|done]|].
  wstep. apply (wp_read_word _ (16 * Z.of_nat (length ps))); [eapply word_at_writes; [exact Hw1|intros a Ha; lia|done]|].
  unfold sizeof_iovec. rewrite (Z.mul_comm 16 (Z.of_nat (length ps))), Z.div_mul, Nat2Z.id by lia.
  assert (Harr1 : ∀ a, ptr ≤ a < ptr + 16 * Z.of_nat (length ps) → ¬ (x + f_off f ≤ a < x + f_off f + 24)) by (intros a Ha; apply Hap, covers_cons; by left).
  eapply wq_mono; [apply (ser_iovecs_ok ps ptr (x + f_off f + 16) 0 s h1); try done; try lia|].
  - rewrite <- Hload. apply load_ext. intros a Ha. apply Hf1. specialize (Harr1 a). lia.
  - intros a Ha. apply Hd1, Hm. lia.
  - intros a Ha. specialize (Harr1 a Ha). lia.
  - intros s' h2 (Ha & Hw2 & Hword2). exists (nonempty ps). pose proof Hw2 as (_ & Hf2 & _).
    assert (Hsame : ∀ a, ¬ (x + f_off f + 16 ≤ a < x + f_off f + 24) → bytes h2 !! a = bytes h !! a) by (intros a Hna; rewrite Hf2, Hf1 by lia; done).
    assert (Harr2 : array_holds (bytes h2) x f val (mk_iovec ptr (Z.of_nat (length ps) * 16) :: ps)).
    { rewrite (Z.mul_comm _ 16). exists ptr, ps. unfold off_ptr, off_len. split_and!; try done.
      - eapply word_at_ext; [|exact Hp]. intros a Hb. apply Hsame. lia.
      - eapply word_at_ext; [|exact Hl]. intros a Hb. apply Hsame. lia.
      - rewrite <- Hload. apply load_ext. intros a Hb. apply Hsame. specialize (Harr1 a). lia.
      - rewrite <- Hd. apply data_ext. intros a Hb. apply Hsame. specialize (Hap a). rewrite covers_cons in Hap. naive_solver lia. }
    split_and!; [done|eapply (writes_to_trans _ _ _ _ _ _ _ _ _ Hw1 Hw2); intros a; lia| | | |].
    + apply field_holds_array; [done|]. by rewrite Hsum.
    + rewrite data_nonempty by done. destruct Harr2 as (ptr' & ps' & _ & _ & [= _ _ <-] & _ & _ & Hd2). done.
    + intros a (v & [_ Hv]%list_elem_of_filter & Hva). apply covers_cons. right. by exists v.
    + cbn. pose proof (length_filter (λ v, 0 < iov_len v) ps). lia.
Qed.

Lemma ser_field_ok f val rs s h :
  ser_ok s → field_src (bytes h) x f val rs → iov_end (iov s) + Z.of_nat (length rs) + 1 ≤ IOVECTOR_CAPACITY →
  (∀ a, x + f_off f ≤ a < x + f_off f + f_size f → is_Some (bytes h !! a)) →
  (∀ a, covers rs a → ¬ (x + f_off f ≤ a < x + f_off f + f_size f)) →
  wp (ser_field x f s) (ser_field_post f val rs s h) h.
Proof.
  intros Hs Hsrc Hroom Hm Hap. unfold ser_field, field_src in *.
  destruct (f_kind f) eqn:Hk; [|destruct Hsrc as (? & ? & ?); apply ser_iovec_array_ok; congruence || done..].
  destruct Hsrc as [Hw Hf]. rewrite Hk in Hf. pose proof Hw as Hw'. unfold f_len_off in Hw. rewrite Hk, Z.add_assoc in Hw.
  destruct (load_total (bytes h) (off_ptr x f) 8) as [bs Hbs]; [intros a Ha; apply Hm; unfold off_ptr, f_size in *; rewrite Hk; lia|].
  wstep. apply (wp_read_any _ bs); [done|]. wstep. unfold off_len. apply (wp_read_word _ (Z.of_nat (length val))); [done|].
  destruct (ser_buffer_ok (le_value bs) (Z.of_nat (length val)) s Hs) as (s' & Hs' & Ha); [lia|lia|]. apply (wp_lift s'); [done|].
  eexists. split; [exact Ha|]. split; [apply writes_to_refl|]. split; [split; [done|by rewrite Hk]|].
  rewrite filter_cons, filter_nil. cbn [iov_len]. unfold buffer_holds in Hf. destruct (bool_decide_reflect (val = [])) as [->|Hne].
  - rewrite decide_False by (cbn; lia). split_and!; [done|by intros a ?%covers_nil|cbn; lia].
  - rewrite decide_True by (destruct val; [done|cbn; lia]). destruct Hf as (ptr & [Hp Hpr] & Hnz & -> & Hd).
    assert (bs = le_bytes 8 ptr) as -> by congruence. rewrite le_value_bytes by done. split_and!; done.
Qed.

(** The pass over the fields: [ds] are done, [es] to come. *)
Context (size : Z).
Record ser_inv (ds es : list dfield) (h : heap) : Prop := {
  si_done : Forall (λ e, field_holds (bytes h) x (df_field e) (df_val e) (df_regions e)) ds;
  si_todo : Forall (λ e, field_src (bytes h) x (df_field e) (df_val e) (df_regions e)) es;
  si_struct : ∀ a, x ≤ a < x + size → is_Some (bytes h !! a);
  si_outside : ∀ e a, e ∈ ds ++ es → covers (df_regions e) a → ¬ (x ≤ a < x + size);
  si_layout : sep (f_range <$> (df_field <$> ds ++ es));
  si_inside : ∀ e, e ∈ ds ++ es → 0 ≤ f_off (df_field e) ∧ f_off (df_field e) + f_size (df_field e) ≤ size
}.
Lemma field_src_ext m m' f val rs :
  (∀ a, x + f_off f ≤ a < x + f_off f + f_size f → m' !! a = m !! a) → (∀ a, covers rs a → m' !! a = m !! a) →
  field_src m x f val rs → field_src m' x f val rs.
Proof.
  intros Hs Hr. unfold field_src. destruct (f_kind f) eqn:Hk; [by apply field_holds_ext|..];
    (intros (Ha & ? & ?); split_and!; [eapply array_holds_ext; [|exact Hr|exact Ha]; intros a Hb; apply Hs; unfold f_size; by rewrite Hk|done|done]).
Qed.
Lemma ser_inv_step ds e es h h' :
  ser_inv ds (e :: es) h → writes_to (x + f_off (df_field e)) (f_size (df_field e)) h h' →
  field_holds (bytes h') x (df_field e) (df_val e) (df_regions e) → ser_inv (ds ++ [e]) es h'.
Proof.
  intros [Hdone Htodo Hstr Hout Hlay Hin] (_ & Hf & Hdom) Hfh. apply Forall_cons in Htodo as [_ Htodo].
  destruct (Hin e) as [Hi1 Hi2]; [apply elem_of_app; right; by left|].
  assert (Hother : ∀ g, g ∈ ds ∨ g ∈ es → (∀ a, x + f_off (df_field g) ≤ a < x + f_off (df_field g) + f_size (df_field g) → bytes h' !! a = bytes h !! a) ∧
    (∀ a, covers (df_regions g) a → bytes h' !! a = bytes h !! a)).
  { intros g Hg. assert (Hg' : g ∈ ds ++ e :: es) by (apply elem_of_app; destruct Hg; [by left|right; by right]). split.
    - intros a Ha. apply Hf. intros Hfa. rewrite fmap_app, fmap_cons in Hlay.
      apply (layout_apart _ _ (df_field e) (df_field g) (a - x) Hlay); [|lia|lia]. destruct Hg; [left|right]; by apply list_elem_of_fmap_2.
    - intros a Ha. apply Hf. specialize (Hout g a Hg' Ha). lia. }
  split; rewrite <- ?app_assoc; try done.
  - apply Forall_app. split; [|by apply Forall_singleton]. rewrite Forall_forall in *. intros g Hg.
    destruct (Hother g) as [H1 H2]; [by left|]. by eapply field_holds_ext; [| |apply Hdone].
  - rewrite Forall_forall in *. intros g Hg. destruct (Hother g) as [H1 H2]; [by right|]. by eapply field_src_ext; [| |apply Htodo].
  - intros a Ha. by apply Hdom, Hstr.
Qed.

Lemma ser_fields_ok es : ∀ ds s0 w0 s h,
  ser_inv ds es h → ser_added w0 s0 s → data (bytes h) w0 = Some (ds ≫= df_val) → (∀ a, covers w0 a → covers (regions ds) a) →
  iov_end (iov s) + Z.of_nat (length (regions es)) + 1 ≤ IOVECTOR_CAPACITY →
  wp (ser_fields x (df_field <$> es) s) (λ s' h', ∃ w, ser_inv (ds ++ es) [] h' ∧ ser_added w s0 s' ∧ writes_to x size h h' ∧
    data (bytes h') w = Some ((ds ++ es) ≫= df_val) ∧ (∀ a, covers w a → covers (regions (ds ++ es)) a) ∧ iov_end (iov s') + 1 ≤ IOVECTOR_CAPACITY) h.
Proof.
  induction es as [|e es IH]; intros ds s0 w0 s h HI Ha Hd Hc Hroom; cbn [fmap list_fmap ser_fields].
  - wstep. exists w0. rewrite app_nil_r. split_and!; try done. cbn in Hroom. lia.
  - pose proof (si_todo _ _ _ HI) as [Hsrc _]%Forall_cons. destruct (si_inside _ _ _ HI e) as [Hi1 Hi2]; [apply elem_of_app; right; by left|].
    change (regions (e :: es)) with (df_regions e ++ regions es) in Hroom. rewrite length_app in Hroom.
    assert (Hout : ∀ g a, g ∈ ds ++ e :: es → covers (df_regions g) a → ¬ (x + f_off (df_field e) ≤ a < x + f_off (df_field e) + f_size (df_field e))).
    { intros g a Hg Hca. pose proof (si_outside _ _ _ HI g a Hg Hca). lia. }
    wstep. eapply wq_mono; [apply (ser_field_ok _ _ _ _ _ (sa_ok _ _ _ Ha) Hsrc)|].
    + lia.
    + intros a Hb. apply (si_struct _ _ _ HI). lia.
    + intros a Hca. apply (Hout e); [apply elem_of_app; right; by left|done].
    + intros s1 h1 (w1 & Ha1 & Hw1 & Hfh & Hd1 & Hc1 & Hl1). pose proof (ser_added_end _ _ _ (sa_ok _ _ _ Ha) Ha1).
      assert (Hd0 : data (bytes h1) w0 = Some (ds ≫= df_val)).
      { rewrite (writes_to_data _ _ _ _ _ Hw1); [done|]. intros a Hca%Hc. destruct Hca as (v & (g & Hv & Hg)%list_elem_of_bind & Hva).
        apply (Hout g); [apply elem_of_app; by left|by exists v]. }
      eapply wq_mono; [apply (IH (ds ++ [e]) s0 (w0 ++ w1) s1 h1); [by eapply ser_inv_step|by eapply ser_added_trans| | |]|].
      * rewrite bind_app. cbn. rewrite app_nil_r. apply data_app. by eexists _, _.
      * intros a [Hca%Hc|Hca%Hc1]%covers_app; rewrite regions_snoc; apply covers_app; [by left|by right].
      * lia.
      * intros s2 h2 (w & HI2 & Ha2 & Hw2 & Hd2 & Hc2 & He2). rewrite <- app_assoc in *. cbn [app] in *. exists w. split; [done|]. split; [done|].
        split; [|done]. eapply (writes_to_trans _ _ _ _ _ _ _ _ _ Hw1 Hw2). intros a. lia.
Qed.
Lemma ser_fields_app fs1 fs2 s h : ser_fields x (fs1 ++ fs2) s h = (s ← ser_fields x fs1 s; ser_fields x fs2 s) h.
Proof.
  revert s h. induction fs1 as [|f fs1 IH]; intros s h; [done|]. cbn [app ser_fields]. unfold mbind, M_bind.
  destruct (ser_field x f s h) as [[s1 h1]|]; [|done]. apply IH.
Qed.
End ser.
