(* ===== verification/SerializerTheorems.v ===== *)
(** * Theorems about serialization

    A message survives serialization, any cutting on the way, and deserialization in
    another memory. *)

From S2P Require Import Prelude IoVector IoVectorSpec IoVectorClass IoVectorOps Serializer SerializerSpec SerializerSer.

Lemma send_order_incl T f : f ∈ send_order T → f ∈ msg_fields T.
Proof. intros [[_ ?]%list_elem_of_filter|[_ ?]%list_elem_of_filter]%elem_of_app; done. Qed.

(** ** Sending *)

(** A message at [x] with the fields [es] and an empty serializer with room for it. *)
Record sendable (T : message_type) (x : Z) (es : list dfield) (s : Serializer) (h : heap) : Prop := {
  sd_layout : layout_ok T;
  sd_fields : df_field <$> es = send_order T;
  sd_struct : ∀ a, x ≤ a < x + msg_size T → is_Some (bytes h !! a);
  sd_values : Forall (λ e, field_src (bytes h) x (df_field e) (df_val e) (df_regions e)) es;
  sd_outside : ∀ e a, e ∈ es → covers (df_regions e) a → ¬ (x ≤ a < x + msg_size T);
  sd_ser : ser_ok s;
  sd_empty : view (iov s) = [];
  sd_room : iov_end (iov s) + Z.of_nat (length (regions es)) + 1 ≤ IOVECTOR_CAPACITY
}.

Lemma serialize_ok T x es s h :
  sendable T x es s h →
  wp (serialize T x s) (λ s' h', ∃ body, load (bytes h') x (Z.to_nat (msg_size T)) = Some body ∧
    data (bytes h') (view (iov s')) = Some ((es ≫= df_val) ++ body) ∧ iovfull s' = false ∧
    Forall (λ e, field_holds (bytes h') x (df_field e) (df_val e) (df_regions e)) es ∧ writes_to x (msg_size T) h h') h.
Proof.
  intros [(Hsep & Hin & Hsz) Hf Hstr Hval Hout Hs Hemp Hroom].
  assert (HI : ser_inv x (msg_size T) [] es h).
  { split; try done; [by rewrite app_nil_l, Hf|]. intros e He. apply Hin, send_order_incl. rewrite <- Hf. by apply list_elem_of_fmap_2. }
  pose proof (ser_fields_ok x (msg_size T) es [] s [] s h HI (ser_added_nil s Hs) eq_refl) as Hfs. cbn [app] in Hfs.
  specialize (Hfs (λ a (H : covers [] a), H) Hroom). rewrite Hf in Hfs. apply (wq_eq _ _ _ _ _ (ser_fields_app _ _ _ _ _)), wq_bind_inv in Hfs.
  unfold serialize. wstep. eapply wq_mono; [exact Hfs|]. intros s1 h1 Hfs1. wstep. eapply wq_mono; [exact Hfs1|].
  intros s2 h2 (w & HI2 & Ha & Hw & Hd & Hc & He). destruct (ser_buffer_ok x (msg_size T) s2 (sa_ok _ _ _ Ha)) as (s3 & Hs3 & Ha3); [lia|lia|].
  apply (wp_lift s3); [done|]. rewrite filter_cons, filter_nil in Ha3. cbn [iov_len] in Ha3. rewrite decide_True in Ha3 by done.
  destruct (load_total (bytes h2) x (Z.to_nat (msg_size T))) as [body Hbody]; [intros a Hb; apply (si_struct _ _ _ _ _ HI2); lia|].
  exists body. rewrite (sa_view _ _ _ Ha3), (sa_view _ _ _ Ha), Hemp. cbn [app]. split_and!; try done.
  - apply data_app. exists (es ≫= df_val), body. rewrite data_one. done.
  - apply Ha3.
  - apply HI2.
Qed.

(** ** Receiving *)

(** A vector that denotes [wire], in a memory with room for copies of it. *)
Record receivable (T : message_type) (wire : list Z) (v : iovector) (g : heap) : Prop := {
  rc_heap : heap_ok g;
  rc_iov : iov_ok v;
  rc_cap : 0 < capacity v;
  rc_sep : sep (view v);
  rc_data : data (bytes g) (view v) = Some wire;
  rc_small : Z.of_nat (length wire) ≤ INT_MAX;
  rc_room : brk g + Z.of_nat (length wire) + 16 * 65536 * Z.of_nat (length (msg_fields T)) < 2 ^ 64
}.

Section receive.
Context (malloc_ok : Z → bool) (junk : Z → Z).
Hypothesis Hmalloc : ∀ size, malloc_ok size = true.

(** The bytes of a struct, seen through its length words. *)
Definition body_of (T : message_type) (vs : list vfield) (body : list Z) : Prop :=
  Z.of_nat (length body) = msg_size T ∧
  Forall (λ v, take 8 (drop (Z.to_nat (f_len_off (vf_field v))) body) = le_bytes 8 (Z.of_nat (length (vf_val v)))) vs.

Lemma length_filter_aligned fs : (length (filter_aligned true fs) + length (filter_aligned false fs) = length fs)%nat.
Proof.
  unfold filter_aligned. induction fs as [|f fs IH]; [done|]. rewrite !filter_cons.
  destruct (bool_decide (f_kind f = FAlignedIovecArray)); cbn [decide]; simpl; lia.
Qed.

Lemma deserialize_ok T vs body v g :
  layout_ok T → vf_field <$> vs = send_order T → body_of T vs body → receivable T (values vs ++ body) v g →
  wp (deserialize malloc_ok junk T v false) (λ r g', r.1 ≠ 0 ∧ failed r.2 = false ∧ ∃ ds, df_field <$> ds = send_order T ∧ df_val <$> ds = vf_val <$> vs ∧
    Forall (λ e, field_holds (bytes g') r.1 (df_field e) (df_val e) (df_regions e)) ds ∧
    (∀ i b, body !! i = Some b → ¬ in_fields (Z.of_nat i) (msg_fields T) → bytes g' !! (r.1 + Z.of_nat i) = Some b)) g.
Proof.
  intros (Hsep & Hin & Hsz) Hf [Hbl Hlens] [Hh Hv Hcap Hsv Hd Hsm Hroom]. rewrite length_app in Hsm, Hroom.
  unfold deserialize. wstep. eapply wq_mono; [apply (wp_extract_back_continuous malloc_ok junk Hmalloc (msg_size T) v g (values vs ++ body)); [done|done|lia|done|exact Hd]|].
  intros [x v1] g1 (Hh1 & Hg & Ht & Hp). cbn [fst snd] in *. assert (Hle : msg_size T ≤ Z.of_nat (length (values vs ++ body))) by (rewrite length_app; lia).
  rewrite (proj2 (Z.leb_le _ _) Hle) in Hp. assert (Hk : (length (values vs ++ body) - Z.to_nat (msg_size T))%nat = length (values vs)) by (rewrite length_app; lia).
  rewrite Hk in Ht, Hp. rewrite take_app_length in Ht. rewrite drop_app_length in Hp. destruct Hp as [_ _ Hbrk Hnull Hload Hwhere Hapart].
  replace (x =? 0) with false by lia.
  assert (Hnf : (length vs = length (msg_fields T))%nat).
  { rewrite <- (length_fmap vf_field vs), Hf. unfold send_order. rewrite length_app. apply length_filter_aligned. }
  assert (HI : des_inv T x body [] vs (mk_des v1 false) g1).
  { split; cbn [failed des_iov]; try done; try apply Ht.
    - by rewrite (tk_cap _ _ _ _ Ht).
    - intros i Hi. eapply load_mapped; [exact Hload|lia].
    - rewrite Forall_forall in *. intros w Hw. destruct (Hin (vf_field w)) as [Ho1 Ho2]; [apply send_order_incl; rewrite <- Hf; by apply list_elem_of_fmap_2|].
      assert (Hoff : 0 ≤ f_len_off (vf_field w) ∧ f_len_off (vf_field w) + 8 ≤ msg_size T) by (unfold f_len_off, f_size in *; destruct (f_kind (vf_field w)); lia).
      assert (Hwl : (length (vf_val w) ≤ length (values vs))%nat).
      { apply list_elem_of_split in Hw as (l1 & l2 & ->). unfold values. rewrite bind_app, bind_cons, !length_app. lia. }
      split; [|unfold INT_MAX in *; lia]. rewrite <- (Hlens w Hw). replace (x + f_len_off (vf_field w)) with (x + Z.of_nat (Z.to_nat (f_len_off (vf_field w)))) by lia.
      eapply load_sub; [exact Hload|lia].
    - intros i b Hi _. apply load_spec in Hload as [_ Hl]. by apply Hl.
    - cbn [regions mbind list_bind app]. split; [|by apply (tk_sep _ _ _ _ Ht)]. intros a Ha. by apply Hapart.
    - intros a [Ha|?%covers_nil]%covers_cons; [|done]. cbn in Ha. destruct (Hwhere a Ha) as [Hc|?]; [|lia].
      pose proof (covers_mapped g v _ a Hh Hd Hc). destruct Hg. lia.
    - cbn [fmap list_fmap app]. by rewrite Hf.
    - cbn [fmap list_fmap app]. rewrite Hf. apply Forall_forall. intros f Hfm%send_order_incl. by split; [|apply Hin].
    - rewrite Hnf. lia.
    - lia. }
  set (nA := length (filter_aligned true (msg_fields T))).
  assert (Hsplit : vs = take nA vs ++ drop nA vs) by by rewrite take_drop. rewrite Hsplit in HI.
  assert (HA : filter_aligned true (msg_fields T) = vf_field <$> take nA vs) by (rewrite fmap_take, Hf; unfold send_order, nA; by rewrite take_app_length).
  assert (HB : filter_aligned false (msg_fields T) = vf_field <$> drop nA vs) by (rewrite fmap_drop, Hf; unfold send_order, nA; by rewrite drop_app_length).
  wstep. eapply wq_mono; [by apply (des_fields_ok malloc_ok junk Hmalloc T x body _ [] (take nA vs) (drop nA vs))|].
  intros d1 g2 (ds1 & HI1 & Hf1 & Hv1). cbn [app] in HI1. wstep. rewrite <- (app_nil_r (drop nA vs)) in HI1.
  eapply wq_mono; [by apply (des_fields_ok malloc_ok junk Hmalloc T x body _ ds1 (drop nA vs) [])|].
  intros d2 g3 (ds2 & HI2 & Hf2 & Hv2). wstep. cbn [fst snd]. split_and!; [done|apply HI2|]. exists (ds1 ++ ds2). split_and!.
  - by rewrite fmap_app, Hf1, Hf2.
  - by rewrite fmap_app, Hv1, Hv2, <- fmap_app, take_drop.
  - apply HI2.
  - apply HI2.
Qed.

(** When fewer bytes arrive than the struct of the message has, [deserialize]
    returns a null pointer and sets [failed]; it does not fault. *)
Theorem deserialize_short T wire v g failed0 :
  receivable T wire v g → Z.of_nat (length wire) < msg_size T ≤ INT_MAX →
  wp (deserialize malloc_ok junk T v failed0) (λ r g', r.1 = 0 ∧ failed r.2 = true) g.
Proof.
  intros [Hh Hv Hcap Hsv Hd Hsm Hroom] Hlt. unfold deserialize. wstep.
  eapply wq_mono; [apply (wp_extract_back_continuous malloc_ok junk Hmalloc (msg_size T) v g wire); [done|done|lia|done|done]|].
  intros r g1 (_ & _ & _ & Hp). rewrite (proj2 (Z.leb_gt _ _)) in Hp by lia. rewrite Hp. apply wq_ret. done.
Qed.
End receive.

(** C35: a message with any buffer and iovec-array fields, whose lengths and memory are as
    its struct says and lie outside the struct, is serialized with an empty serializer
    whose vector has room: the regions of the fields, and one for the struct, are no more
    than the entries left of its 2300.  The call succeeds and the vector denotes the
    fields' bytes followed by the struct.  These bytes, at most [INT_MAX], can reach a
    receiver in any memory, cut in any way into disjoint regions of a vector; if its heap
    has address space left and every [malloc] there succeeds, deserializing them gives a struct whose fields hold the bytes
    that were sent, and whose other members are the sender's. *)
Theorem message_round_trip malloc_ok junk T x es s h :
  (∀ size, malloc_ok size = true) → sendable T x es s h →
  ∃ s' h' wire, serialize T x s h = Ok (s', h') ∧ iovfull s' = false ∧ data (bytes h') (view (iov s')) = Some wire ∧
    ∀ v g, receivable T wire v g →
      ∃ t d g' ds, deserialize malloc_ok junk T v false g = Ok ((t, d), g') ∧ t ≠ 0 ∧ failed d = false ∧
        df_field <$> ds = send_order T ∧ df_val <$> ds = df_val <$> es ∧
        Forall (λ e, field_holds (bytes g') t (df_field e) (df_val e) (df_regions e)) ds ∧
        (∀ i b, 0 ≤ i < msg_size T → ¬ in_fields i (msg_fields T) → bytes h' !! (x + i) = Some b → bytes g' !! (t + i) = Some b).
Proof.
  intros Hm Hsd. pose proof (serialize_ok T x es s h Hsd) as Hser. apply wp_iff in Hser as (s' & h' & Hser & body & Hbody & Hd & Hfull & Hfh & Hw).
  destruct Hsd as [(Hsep & Hin & Hsz) Hf Hstr Hval Hout Hs Hemp Hroom].
  exists s', h', ((es ≫= df_val) ++ body). split_and!; [done..|]. intros v g Hrc.
  set (vs := (λ e, mk_vf (df_field e) (df_val e)) <$> es).
  assert (Hvs : values vs = es ≫= df_val) by (unfold values, vs; clear; induction es as [|e es IH]; [done|]; cbn; f_equal; done). rewrite <- Hvs in Hrc.
  assert (Hvf : vf_field <$> vs = send_order T) by (unfold vs; rewrite <- list_fmap_compose; done).
  assert (Hbo : body_of T vs body).
  { pose proof (load_length _ _ _ _ Hbody). split; [lia|]. apply Forall_fmap. rewrite Forall_forall in *. intros e He. cbn [compose vf_field vf_val].
    destruct (Hin (df_field e)) as [Ho1 Ho2]; [apply send_order_incl; rewrite <- Hf; by apply list_elem_of_fmap_2|].
    assert (Hoff : 0 ≤ f_len_off (df_field e) ∧ f_len_off (df_field e) + 8 ≤ msg_size T) by (unfold f_len_off, f_size in *; destruct (f_kind (df_field e)); lia).
    destruct (Hfh e He) as [[Hl _] _]. replace (x + f_len_off (df_field e)) with (x + Z.of_nat (Z.to_nat (f_len_off (df_field e)))) in Hl by lia.
    pose proof (load_sub _ _ _ _ (Z.to_nat (f_len_off (df_field e))) 8 Hbody) as Hl2. rewrite Hl in Hl2. injection (Hl2 ltac:(lia)) as Hl3. done. }
  pose proof (deserialize_ok malloc_ok junk Hm T vs body v g (conj Hsep (conj Hin Hsz)) Hvf Hbo Hrc) as Hdes.
  apply wp_iff in Hdes as ([t d] & g' & Hdes & Hnull & Hfail & ds & Hf' & Hv' & Hfh' & Hoth). exists t, d, g', ds.
  split_and!; try done; [rewrite Hv'; unfold vs; rewrite <- list_fmap_compose; done|].
  intros i b Hi Hni Hb. replace (t + i) with (t + Z.of_nat (Z.to_nat i)) by lia. apply Hoth; [|by rewrite Z2Nat.id by lia].
  pose proof Hbody as [Hbl Hbs]%load_spec. destruct (lookup_lt_is_Some_2 body (Z.to_nat i)) as [c Hc]; [lia|]. rewrite Hc. f_equal.
  apply Hbs in Hc. rewrite Z2Nat.id in Hc by lia. congruence.
Qed.

(** ** A concrete message: [ctrl_buffer], an [int] and a [string] *)
Fixpoint place (p : Z) (bs : list Z) (m : gmap Z Z) : gmap Z Z :=
  match bs with [] => m | b :: bs => <[p := b]> (place (p + 1) bs m) end.
Definition any_malloc (_ : Z) : bool := true.
Definition zero_junk (_ : Z) : Z := 0.
Definition ctrl_buffer : message_type := mk_message 24 [mk_field FBuffer 8].
Definition hello : list Z := [104; 101; 108; 108; 111].
Definition ctrl_struct : list Z := le_bytes 8 7 ++ le_bytes 8 1000 ++ le_bytes 8 5.
Definition sender : heap := mk_heap (place 2000 ctrl_struct (place 1000 hello ∅)) 3000.
Definition hello_field : dfield := mk_df (mk_field FBuffer 8) hello [mk_iovec 1000 5].
Definition dummy_iovecs : list iovec := replicate 2300 (mk_iovec 0 0).
Definition empty_ser : Serializer := new_Serializer dummy_iovecs dummy_iovecs (replicate 2000 0).
(** The bytes as they arrive, in two packets of a receiver. *)
Definition arrived : list Z := hello ++ ctrl_struct.
Definition receiver : heap := mk_heap (place 100 (take 10 arrived) (place 300 (drop 10 arrived) ∅)) 400.
Definition received : iovector := mk_iovector 2300 0 2 0 ([mk_iovec 100 10; mk_iovec 300 19] ++ replicate 2298 (mk_iovec 0 0)).

Lemma empty_ser_ok : ser_ok empty_ser ∧ view (iov empty_ser) = [].
Proof.
  assert (Hv : view (iov empty_ser) = []) by done. split; [|done]. split; [|done|done].
  by split.
Qed.
Lemma heap_ok_check m b : 0 < b → bool_decide (map_Forall (λ k _, 0 < k ∧ k < b) m) = true → heap_ok (mk_heap m b).
Proof. intros Hb Hm%bool_decide_eq_true. split; [done|]. intros a [v Hv]. apply (Hm a v Hv). Qed.
Lemma one_range_sep p n : sep [mk_iovec p n].
Proof. split; [|done]. intros a _. apply covers_nil. Qed.

Lemma sender_ready : sendable ctrl_buffer 2000 [hello_field] empty_ser sender.
Proof.
  split; try done; try apply empty_ser_ok.
  - split_and!; [apply one_range_sep| |done]. intros f [->|?%elem_of_nil]%elem_of_cons; [cbn; lia|done].
  - intros a Ha. eapply (load_mapped (bytes sender) 2000 24); [vm_compute; reflexivity|exact Ha].
  - apply Forall_singleton. split; [split; [vm_compute; reflexivity|cbn; lia]|]. cbn [hello_field f_kind df_field df_val df_regions]. unfold buffer_holds.
    rewrite bool_decide_eq_false_2 by done. exists 1000. split_and!; [split; [vm_compute; reflexivity|lia]|done|done|vm_compute; reflexivity].
  - intros e a [->|?%elem_of_nil]%elem_of_cons; [|done]. intros [Ha|?%covers_nil]%covers_cons; [cbn in Ha; lia|done].
Qed.
Lemma receiver_ready : receivable ctrl_buffer arrived received receiver.
Proof.
  split; try (vm_compute; reflexivity).
  - apply heap_ok_check; [done|vm_compute; reflexivity].
  - split; try done. by repeat constructor.
  - split; [|apply one_range_sep]. intros a Ha [Hc|?%covers_nil]%covers_cons; [cbn in *; lia|done].
  - cbn. unfold INT_MAX. lia.
Qed.
Lemma arrived_is_sent s' h' : serialize ctrl_buffer 2000 empty_ser sender = Ok (s', h') → data (bytes h') (view (iov s')) = Some arrived.
Proof.
  assert (Hrun : match serialize ctrl_buffer 2000 empty_ser sender with Ok (s', h') => data (bytes h') (view (iov s')) | _ => None end = Some arrived) by (vm_compute; reflexivity).
  intros Hs. rewrite Hs in Hrun. done.
Qed.

Lemma message_round_trip_witness :
  ∃ s' h', serialize ctrl_buffer 2000 empty_ser sender = Ok (s', h') ∧
    ∃ t d g' ds, deserialize any_malloc zero_junk ctrl_buffer received false receiver = Ok ((t, d), g') ∧ failed d = false ∧
      df_val <$> ds = [hello] ∧ Forall (λ e, field_holds (bytes g') t (df_field e) (df_val e) (df_regions e)) ds.
Proof.
  destruct (message_round_trip any_malloc zero_junk ctrl_buffer 2000 [hello_field] empty_ser sender (λ _, eq_refl) sender_ready)
    as (s' & h' & wire & Hs & _ & Hd & Hrc).
  exists s', h'. split; [exact Hs|]. rewrite (arrived_is_sent s' h' Hs) in Hd. injection Hd as <-.
  destruct (Hrc received receiver receiver_ready) as (t & d & g' & ds & Hdes & _ & Hf & _ & Hv & Hfh & _). exists t, d, g', ds.
  split; [exact Hdes|]. split; [exact Hf|]. split; [exact Hv|exact Hfh].
Defined.

(** Twenty-nine bytes for a struct of forty. *)
Definition larger_message : message_type := mk_message 40 [mk_field FBuffer 8].
Lemma deserialize_short_witness :
  wp (deserialize any_malloc zero_junk larger_message received false) (λ r g', r.1 = 0 ∧ failed r.2 = true) receiver.
Proof.
  apply (deserialize_short any_malloc zero_junk (λ _, eq_refl) larger_message arrived received receiver false); [|cbn; unfold INT_MAX; lia].
  destruct receiver_ready as [Hh Hv Hc Hs Hd Hsm Hr]. by split.
Defined.
