(* ===== verification/SerializerPkts.v ===== *)
(** * Cutting a message into packets

    [init_data_iov] cuts the bytes of a message into packets of [maxDataPerPkt]
    bytes, the last of which may be shorter, and [get_n_data] finds the iovecs of
    each packet once the headers are pushed in front. *)

From S2P Require Import Prelude IoVector IoVectorSpec IoVectorClass IoVectorOps Serializer SerializerSer SerializerTheorems.

(** [pk] are packets of [max] bytes each, with the bytes [d]. *)
Inductive full_pkts (m : gmap Z Z) (max : Z) : list (list iovec) → list Z → Prop :=
| fp_nil : full_pkts m max [] []
| fp_snoc pk d p dp : full_pkts m max pk d → data m p = Some dp → Z.of_nat (length dp) = max → full_pkts m max (pk ++ [p]) (d ++ dp).

Section packets.
Context (m : gmap Z Z) (max N : Z).
Hypothesis Hmax : 0 < max.

Lemma full_pkts_length pk d : full_pkts m max pk d → Z.of_nat (length d) = Z.of_nat (length pk) * max.
Proof. induction 1 as [|pk d p dp _ IH _ Hp]; [done|]. rewrite !length_app. cbn [length]. lia. Qed.

(** [ix] records where each of the packets [pk] starts. *)
Definition indexed (ix : list Z) (pk : list (list iovec)) : Prop :=
  ∀ k, (k < length pk)%nat → ix !! k = Some (Z.of_nat (length (concat (take k pk)))).

(** The state of the cutting: packets [pk] are full; when [temp] is less than [max]
    there is an open packet [c] with that much room. *)
Record cutting_inv (pk : list (list iovec)) (c : list iovec) (temp : Z) (d : list Z) (s : Serializer) : Prop := {
  ci_ser : ser_ok s;
  ci_begin : iov_begin (iov s) = N;
  ci_temp : 0 < temp ≤ max;
  ci_pkts : ∃ d0 dc, full_pkts m max pk d0 ∧ data m c = Some dc ∧ d = d0 ++ dc ∧ Z.of_nat (length dc) = max - temp;
  ci_open : temp = max → c = [];
  ci_view : view (iov s) = concat pk ++ c;
  ci_total : total_pkg s = Z.of_nat (length pk) + (if temp =? max then 0 else 1);
  ci_index : indexed (data_pkg_index s) (pk ++ (if temp =? max then [] else [c]));
  ci_size : length (data_pkg_index s) = 2000%nat
}.
(** The same with the open packet already recorded. *)
Record opened_inv (pk : list (list iovec)) (c : list iovec) (temp : Z) (d : list Z) (s : Serializer) : Prop := {
  oi_ser : ser_ok s;
  oi_begin : iov_begin (iov s) = N;
  oi_temp : 0 < temp ≤ max;
  oi_pkts : ∃ d0 dc, full_pkts m max pk d0 ∧ data m c = Some dc ∧ d = d0 ++ dc ∧ Z.of_nat (length dc) = max - temp;
  oi_view : view (iov s) = concat pk ++ c;
  oi_total : total_pkg s = Z.of_nat (length pk) + 1;
  oi_index : indexed (data_pkg_index s) (pk ++ [c]);
  oi_size : length (data_pkg_index s) = 2000%nat
}.

Lemma indexed_last ix pk c c' : indexed ix (pk ++ [c]) → indexed ix (pk ++ [c']).
Proof.
  intros H k Hk. rewrite length_app in *. cbn [length] in *. rewrite (H k) by (rewrite length_app; cbn; lia).
  by rewrite !take_app_le by lia.
Qed.
Lemma indexed_snoc ix pk c :
  indexed ix pk → (length pk < length ix)%nat → indexed (<[length pk := Z.of_nat (length (concat pk))]> ix) (pk ++ [c]).
Proof.
  intros H Hl k Hk. rewrite length_app in Hk. cbn in Hk. destruct (decide (k = length pk)) as [->|Hne].
  - rewrite list_lookup_insert_eq by done. by rewrite take_app_length.
  - rewrite list_lookup_insert_ne by done. rewrite take_app_le by lia. apply H. lia.
Qed.

Lemma open_pkt pk c temp d s L :
  cutting_inv pk c temp d s → Z.of_nat (length d) < L → L ≤ N * max → N < 2000 →
  ∃ s', (if temp =? max then record_pkt s else Ok s) = Ok s' ∧ opened_inv pk c temp d s' ∧
    iov s' = iov s ∧ t_iov s' = t_iov s.
Proof.
  intros [Hs Hb Ht Hp Ho Hv Htot Hix Hsz] HL HN H2000. destruct (Z.eqb_spec temp max) as [->|Hne].
  - rewrite (Ho eq_refl), app_nil_r in *. destruct Hp as (d0 & dc & Hfp & Hdc & -> & Hlc). injection Hdc as <-. rewrite app_nil_r in *.
    pose proof (full_pkts_length _ _ Hfp) as Hfl. assert (Hlt : Z.of_nat (length pk) < N) by nia. pose proof (so_iov _ Hs) as Hiov.
    unfold record_pkt, iovcnt. rewrite (do_assert_ok _ Hiov). cbn [mbind outcome_bind].
    rewrite arr_set_in_range by lia. cbn [mbind outcome_bind]. eexists. split; [done|]. split; [|done].
    pose proof (view_length _ Hiov) as Hvl. rewrite Hv in Hvl. rewrite <- Hvl.
    rewrite Htot, Z.add_0_r, Nat2Z.id. split; try done.
    + split; by destruct Hs.
    + exists d0, []. rewrite app_nil_r. split_and!; try done.
    + cbn. rewrite app_nil_r. done.
    + apply indexed_snoc; [done|lia].
    + cbn [data_pkg_index set_total_pkg set_data_pkg_index]. by rewrite length_insert.
  - exists s. split; [done|]. split; [|done]. split; try done; lia.
Qed.

(** Pushing [n] bytes into the open packet. *)
Lemma push_pkt pk c temp d s base n bs :
  opened_inv pk c temp d s → 0 < n ≤ temp → load m base (Z.to_nat n) = Some bs → iov_end (iov s) < IOVECTOR_CAPACITY →
  ∃ s', ser_push base n s = Ok s' ∧ iov_end (iov s') = iov_end (iov s) + 1 ∧ t_iov s' = t_iov s ∧
    if n =? temp then cutting_inv (pk ++ [c ++ [mk_iovec base n]]) [] max (d ++ bs) s'
    else cutting_inv pk (c ++ [mk_iovec base n]) (temp - n) (d ++ bs) s'.
Proof.
  intros [Hs Hb Ht (d0 & dc & Hfp & Hdc & -> & Hlc) Hv Htot Hix Hsz] Hn Hbs Hend. pose proof (load_length _ _ _ _ Hbs) as Hbl.
  unfold ser_push, push_back_buf. pose proof Hs as [Hiov Hcap Hfull].
  assert (Hsc : set_capacity IOVECTOR_CAPACITY (iov s) = iov s) by (rewrite <- Hcap; by destruct (iov s)). rewrite Hsc.
  destruct (push_back_ok (iov s) (mk_iovec base n) Hiov) as (v' & -> & Hok & Hview & Hb' & Hcp); [cbn; lia|lia|]. cbn [mbind outcome_bind fst snd].
  eexists. split; [done|]. pose proof (view_length _ Hiov) as Hl1. pose proof (view_length _ Hok) as Hl2. rewrite Hview, length_app in Hl2. cbn in Hl2.
  split; [cbn; lia|]. split; [done|].
  assert (Hs' : ser_ok (set_iov v' s)) by (split; cbn; congruence || done).
  assert (Hc' : data m (c ++ [mk_iovec base n]) = Some (dc ++ bs)) by (apply data_app; exists dc, bs; rewrite data_one; done).
  destruct (Z.eqb_spec n temp) as [->|Hne].
  - split; try done.
    + cbn. congruence.
    + exists ((d0 ++ dc) ++ bs), []. rewrite app_nil_r, <- app_assoc. split_and!; [|done|done|cbn; lia].
      apply fp_snoc; [done|done|]. rewrite length_app. lia.
    + cbn [iov set_iov]. rewrite Hview, Hv, concat_app. cbn. by rewrite !app_nil_r, app_assoc.
    + cbn. rewrite Z.eqb_refl, length_app. cbn. lia.
    + cbn. rewrite Z.eqb_refl, app_nil_r. by eapply indexed_last.
  - replace (temp - n =? max) with false in * by lia. split; try done; cbn [iov set_iov total_pkg data_pkg_index].
    + congruence. + lia.
    + exists d0, (dc ++ bs). rewrite <- app_assoc. split_and!; [done|done|done|]. rewrite length_app. lia.
    + lia.
    + by rewrite Hview, Hv, app_assoc.
    + by replace (temp - n =? max) with false by lia.
    + replace (temp - n =? max) with false by lia. by eapply indexed_last.
Qed.

(** One iovec: [R] iovecs with [B] bytes are still to be cut, this one included. *)
Lemma split_loop_ok fuel pk c temp d s base len bs L R B :
  cutting_inv pk c temp d s → 0 ≤ len ≤ B → load m base (Z.to_nat len) = Some bs →
  Z.of_nat (length d) + len ≤ L → L ≤ N * max → N < 2000 → (0 < len → 1 ≤ R) →
  iov_end (iov s) + R + (B + max - temp) / max ≤ IOVECTOR_CAPACITY →
  (len + max - temp) / max + 2 ≤ Z.of_nat fuel →
  ∃ temp' s' pk' c', split_loop fuel max temp base len s = Ok (temp', base + len, s') ∧ cutting_inv pk' c' temp' (d ++ bs) s' ∧
    t_iov s' = t_iov s ∧ iov_end (iov s') + (if 0 <? len then R - 1 else R) + (B - len + max - temp') / max ≤ IOVECTOR_CAPACITY.
Proof.
  revert pk c temp d s base len bs B. induction fuel as [|fuel IH]; intros pk c temp d s base len bs B HI Hlen Hbs HL HN H2 HR Hroom Hfuel.
  { pose proof (Z.div_pos (len + max - temp) max). pose proof (ci_temp _ _ _ _ _ HI). lia. }
  pose proof (ci_temp _ _ _ _ _ HI) as Ht. pose proof (load_length _ _ _ _ Hbs) as Hbl. cbn [split_loop]. destruct (Z.ltb_spec 0 len) as [Hpos|Hz]; cycle 1.
  { assert (len = 0) as -> by lia. cbn in Hbs. injection Hbs as <-. exists temp, s, pk, c. rewrite app_nil_r, Z.add_0_r, Z.sub_0_r. done. }
  destruct (open_pkt pk c temp d s L HI) as (s1 & Hs1 & HO & Hv1 & Ht1); [lia|lia|lia|]. rewrite Hs1. cbn [mbind outcome_bind]. clear Hs1.
  assert (Hend : iov_end (iov s1) < IOVECTOR_CAPACITY).
  { rewrite Hv1. assert (0 ≤ (B + max - temp) / max) by (apply Z.div_pos; lia). specialize (HR Hpos). destruct (Z.eq_dec (iov_end (iov s)) IOVECTOR_CAPACITY); lia. }
  destruct (Z.ltb_spec len temp) as [Hlt|Hge]; [|destruct (Z.ltb_spec temp len) as [Hgt|Hle]].
  - destruct (push_pkt pk c temp d s1 base len bs HO) as (s2 & Hs2 & He2 & Ht2 & HI2); [lia|done|done|]. rewrite Hs2. cbn [mbind outcome_bind].
    replace (len =? temp) with false in HI2 by lia. destruct fuel as [|fuel]; [assert (0 ≤ (len + max - temp) / max) by (apply Z.div_pos; lia); lia|].
    cbn [split_loop]. change (0 <? 0) with false. exists (temp - len), s2, pk, (c ++ [mk_iovec base len]). split_and!; [done|done|congruence|].
    rewrite He2, Hv1. replace (B - len + max - (temp - len)) with (B + max - temp) by lia. lia.
  - destruct (push_pkt pk c temp d s1 base temp (take (Z.to_nat temp) bs) HO) as (s2 & Hs2 & He2 & Ht2 & HI2); [lia|eapply load_take; [done|lia]|done|].
    rewrite Hs2. cbn [mbind outcome_bind]. rewrite Z.eqb_refl in HI2.
    assert (Hdiv : ∀ y, (y - temp + max - max) / max = (y + max - temp) / max - 1).
    { intros y. replace (y - temp + max - max) with (y + max - temp + (-1) * max) by lia. rewrite Z.div_add by lia. lia. }
    destruct (IH _ _ _ _ _ (base + temp) (len - temp) (drop (Z.to_nat temp) bs) (B - temp) HI2) as (temp' & s' & pk' & c' & Hrun & HI' & Ht' & Hroom').
    + lia.
    + replace (base + temp) with (base + Z.of_nat (Z.to_nat temp)) by lia. replace (Z.to_nat (len - temp)) with (Z.to_nat len - Z.to_nat temp)%nat by lia. eapply load_drop; [done|lia].
    + rewrite length_app, length_take. lia.
    + done. + done. + intros _. by apply HR.
    + rewrite He2, Hv1, Hdiv. lia.
    + rewrite Hdiv. lia.
    + exists temp', s', pk', c'. rewrite Hrun. rewrite <- app_assoc, take_drop in HI'. replace (base + temp + (len - temp)) with (base + len) by lia.
      split_and!; [done|done|congruence|]. replace (0 <? len - temp) with true in Hroom' by lia. replace (B - temp - (len - temp)) with (B - len) in Hroom' by lia. done.
  - assert (temp = len) as -> by lia. destruct (push_pkt pk c len d s1 base len bs HO) as (s2 & Hs2 & He2 & Ht2 & HI2); [lia|done|done|]. rewrite Hs2. cbn [mbind outcome_bind].
    rewrite Z.eqb_refl in HI2. destruct fuel as [|fuel]; [assert (0 ≤ (len + max - len) / max) by (apply Z.div_pos; lia); lia|].
    cbn [split_loop]. change (0 <? 0) with false. exists max, s2, (pk ++ [c ++ [mk_iovec base len]]), []. split_and!; [done|done|congruence|].
    rewrite He2, Hv1. replace (B + max - len) with (B - len + max - max + 1 * max) in Hroom by lia. rewrite Z.div_add in Hroom by lia. lia.
Qed.

(** The copy of the message's iovecs, from index [i] on. *)
Definition t_holds (i : Z) (w : list iovec) (s : Serializer) : Prop :=
  iov_ok (t_iov s) ∧ 0 ≤ i ∧ drop (Z.to_nat i) (view (t_iov s)) = w.
Lemma t_holds_next i x w s base : t_holds i (x :: w) s → ∃ s', set_t_iov_at i (mk_iovec base 0) s = Ok s' ∧ t_holds (i + 1) w s' ∧
  iov s' = iov s ∧ total_pkg s' = total_pkg s ∧ data_pkg_index s' = data_pkg_index s ∧ iovfull s' = iovfull s.
Proof.
  intros (Hok & Hi & Hd). pose proof (view_length _ Hok) as Hvl. assert (Hx : view (t_iov s) !! Z.to_nat i = Some x).
  { rewrite <- (Nat.add_0_r (Z.to_nat i)), <- lookup_drop, Hd. done. }
  pose proof (lookup_lt_Some _ _ _ Hx) as Hlt. pose proof (io_begin _ Hok). pose proof (io_end _ Hok). pose proof (io_room _ Hok).
  unfold set_t_iov_at. rewrite arr_set_in_range by lia. cbn [mbind outcome_bind]. eexists. split; [done|]. split; [|done].
  set (v' := set_iovs _ (t_iov s)).
  assert (Hv' : view v' = <[Z.to_nat i := mk_iovec base 0]> (view (t_iov s))).
  { unfold v', view. cbn [iov_end iov_begin iovs set_iovs]. rewrite drop_insert_ge, take_insert_lt by lia. f_equal. lia. }
  split_and!; [|lia|].
  - destruct Hok. split; try done; [cbn [iovs set_iovs v' t_iov set_t_iov]; by rewrite length_insert|]. change (lens_ok (view v')). rewrite Hv'.
    apply Forall_insert; [done|cbn; lia].
  - change (drop (Z.to_nat (i + 1)) (view v') = w). rewrite Hv', drop_insert_lt by lia. replace (Z.to_nat (i + 1)) with (Z.to_nat i + 1)%nat by lia.
    by rewrite <- drop_drop, Hd.
Qed.
Lemma cutting_inv_same pk c temp d s s' :
  iov s' = iov s → total_pkg s' = total_pkg s → data_pkg_index s' = data_pkg_index s → iovfull s' = iovfull s →
  cutting_inv pk c temp d s → cutting_inv pk c temp d s'.
Proof.
  intros H1 H2 H3 H4 [Hs ? ? ? ? ? ? ? ?]. split; rewrite ?H1, ?H2, ?H3; try done.
  destruct Hs. split; rewrite ?H1, ?H4; done.
Qed.

Lemma split_iovecs_ok w : ∀ i temp pk c d s ds L,
  cutting_inv pk c temp d s → t_holds i w s → lens_ok w → data m w = Some ds →
  Z.of_nat (length d) + Z.of_nat (length ds) ≤ L → L ≤ N * max → N < 2000 →
  iov_end (iov s) + Z.of_nat (length w) + (Z.of_nat (length ds) + max - temp) / max ≤ IOVECTOR_CAPACITY →
  ∃ temp' s' pk' c', split_iovecs (length w) i max temp s = Ok s' ∧ cutting_inv pk' c' temp' (d ++ ds) s'.
Proof.
  induction w as [|x w IH]; intros i temp pk c d s ds L HI Hth Hlens Hds HL HN H2 Hroom.
  - injection Hds as <-. exists temp, s, pk, c. by rewrite app_nil_r.
  - apply data_cons in Hds as (bs & ds' & Hbs & Hds' & ->). apply Forall_cons in Hlens as [Hx Hlens]. pose proof (load_length _ _ _ _ Hbs) as Hbl.
    pose proof Hth as (Hok & Hi & Hd). assert (Hat : iv_at (t_iov s) i = Ok x).
    { apply iv_at_ok; [done|done|]. rewrite <- (Nat.add_0_r (Z.to_nat i)), <- lookup_drop, Hd. done. }
    rewrite length_app in HL, Hroom. cbn [length split_iovecs] in *. rewrite Hat. cbn [mbind outcome_bind]. destruct (Z.leb_spec (iov_len x) 0) as [Hz|Hpos].
    + assert (bs = []) as -> by (destruct bs; [done|cbn in Hbl; lia]). cbn [app length Nat.add] in *.
      apply (IH (i + 1) temp pk c d s ds' L); try done; [|lia]. split_and!; [done|lia|]. replace (Z.to_nat (i + 1)) with (Z.to_nat i + 1)%nat by lia. by rewrite <- drop_drop, Hd.
    + pose proof (ci_temp _ _ _ _ _ HI) as Ht.
      destruct (split_loop_ok (S (S (S (Z.to_nat (iov_len x / max))))) pk c temp d s (iov_base x) (iov_len x) bs L (Z.of_nat (S (length w))) (Z.of_nat (length bs + length ds')))
        as (temp' & s1 & pk' & c' & Hrun & HI1 & Ht1 & Hroom1); [done|lia|done|lia|done|done|lia|lia| |].
      { assert ((iov_len x + max - temp) / max ≤ (iov_len x + 1 * max) / max) by (apply Z.div_le_mono; lia). rewrite Z.div_add in H by lia.
        pose proof (Z.div_pos (iov_len x) max). lia. }
      rewrite Hrun. cbn [mbind outcome_bind fst snd].
      destruct (t_holds_next i x w s1 (iov_base x + iov_len x)) as (s2 & Hs2 & Hth2 & E1 & E2 & E3 & E4); [unfold t_holds; by rewrite Ht1|].
      rewrite Hs2. cbn [mbind outcome_bind].
      destruct (IH (i + 1) temp' pk' c' (d ++ bs) s2 ds' L) as (t3 & s3 & pk3 & c3 & Hrun3 & HI3); try done.
      * by eapply cutting_inv_same.
      * rewrite length_app. lia.
      * rewrite E1. replace (0 <? iov_len x) with true in Hroom1 by lia. replace (Z.of_nat (length bs + length ds') - iov_len x) with (Z.of_nat (length ds')) in Hroom1 by lia. lia.
      * exists t3, s3, pk3, c3. by rewrite app_assoc.
Qed.
End packets.

(** ** The packets of a message *)
Lemma full_pkts_lookup m max pk d k p :
  0 < max → full_pkts m max pk d → pk !! k = Some p → data m p = Some (take (Z.to_nat max) (drop (k * Z.to_nat max) d)).
Proof.
  intros Hmax. induction 1 as [|pk d q dq Hfp IH Hq Hlq]; [done|]. pose proof (full_pkts_length m max pk d Hfp) as Hl.
  intros [Hk|[Hk Hp]]%lookup_app_Some.
  - pose proof (lookup_lt_Some _ _ _ Hk). rewrite (IH Hk). f_equal. rewrite drop_app_le by nia. rewrite take_app_le; [done|]. rewrite length_drop. nia.
  - apply list_lookup_singleton_Some in Hp as [Hk0 <-]. rewrite Hq. f_equal. assert (k * Z.to_nat max = length d)%nat as -> by nia.
    rewrite drop_app_length, take_ge by lia. done.
Qed.

Lemma num_pkts_spec max len : 0 < max → max < len → let n := data_size_to_num_pkts max len in (n - 1) * max < len ≤ n * max ∧
  n = len / max + (if len mod max =? 0 then 0 else 1).
Proof.
  intros Hmax Hlen. unfold data_size_to_num_pkts. replace (len <=? max) with false by lia. cbv zeta.
  pose proof (Z.div_mod len max ltac:(lia)) as Hd. pose proof (Z.mod_pos_bound len max Hmax) as Hm.
  assert (Hn : (len + max - 1) / max = len / max + (if len mod max =? 0 then 0 else 1)).
  { destruct (Z.eqb_spec (len mod max) 0) as [E|E].
    - symmetry. apply (Z.div_unique_pos _ _ _ (max - 1)); nia.
    - symmetry. apply (Z.div_unique_pos _ _ _ (len mod max - 1)); nia. }
  rewrite Hn. split; [|done]. destruct (Z.eqb_spec (len mod max) 0); nia.
Qed.

(** [pkts] are the packets of the bytes [d]. *)
Record packets_of (m : gmap Z Z) (max : Z) (d : list Z) (pkts : list (list iovec)) (s : Serializer) : Prop := {
  po_count : Z.of_nat (length pkts) = data_size_to_num_pkts max (Z.of_nat (length d));
  po_total : total_pkg s = Z.of_nat (length pkts);
  po_data : ∀ k p, pkts !! k = Some p → data m p = Some (take (Z.to_nat max) (drop (k * Z.to_nat max) d)) ∧ p ≠ [];
  po_ser : ser_ok s;
  po_view : view (iov s) = concat pkts;
  po_index : ∀ k, (k ≤ length pkts)%nat → data_pkg_index s !! k = Some (Z.of_nat (length (concat (take k pkts))));
  po_hdrs : Z.of_nat (length pkts) ≤ iov_begin (iov s)
}.

Lemma packets_of_cut m max N pk c temp d s :
  0 < max → max < Z.of_nat (length d) → N = data_size_to_num_pkts max (Z.of_nat (length d)) → N < 2000 →
  cutting_inv m max N pk c temp d s →
  ∃ l, arr_set (data_pkg_index s) (total_pkg s) (iov_end (iov s) - iov_begin (iov s)) = Ok l ∧ total_pkg s = N ∧
    ∃ pkts, packets_of m max d pkts (set_data_pkg_index l s).
Proof.
  intros Hmax Hd HN H2 [Hs Hb Ht (d0 & dc & Hfp & Hdc & -> & Hlc) Ho Hv Htot Hix Hsz].
  destruct (num_pkts_spec max (Z.of_nat (length (d0 ++ dc))) Hmax Hd) as [Hn _]. rewrite <- HN in Hn.
  pose proof (full_pkts_length m max _ _ Hfp) as Hfl. rewrite length_app in Hn.
  set (pkts := pk ++ (if temp =? max then [] else [c])) in *.
  assert (Hlen : Z.of_nat (length pkts) = N ∧ total_pkg s = Z.of_nat (length pkts)).
  { unfold pkts. rewrite length_app, Htot. destruct (Z.eqb_spec temp max); cbn; split; nia. }
  destruct Hlen as [Hlen Htot']. rewrite Htot', arr_set_in_range by lia. eexists. split; [done|]. split; [done|]. exists pkts.
  assert (Hvp : view (iov s) = concat pkts).
  { rewrite Hv. unfold pkts. rewrite concat_app. f_equal. destruct (Z.eqb_spec temp max) as [E|E]; [by rewrite (Ho E)|cbn; by rewrite app_nil_r]. }
  split; try done; cbn [data_pkg_index set_data_pkg_index iov].
  - lia.
  - intros k p Hk. assert (Hdata : data m p = Some (take (Z.to_nat max) (drop (k * Z.to_nat max) (d0 ++ dc)))).
    { apply lookup_app_Some in Hk as [Hk|[Hk Hp]].
      - pose proof (lookup_lt_Some _ _ _ Hk). rewrite (full_pkts_lookup _ _ _ _ _ _ Hmax Hfp Hk). f_equal.
        rewrite drop_app_le by nia. rewrite take_app_le; [done|]. rewrite length_drop. nia.
      - destruct (Z.eqb_spec temp max); [done|]. apply list_lookup_singleton_Some in Hp as [Hk0 <-]. rewrite Hdc. f_equal.
        assert (k * Z.to_nat max = length d0)%nat as -> by nia. rewrite drop_app_length, take_ge by lia. done. }
    split; [done|]. intros ->. injection Hdata as Hdata. apply (f_equal length) in Hdata. rewrite length_take, length_drop, length_app in Hdata. cbn in Hdata.
    apply lookup_lt_Some in Hk. nia.
  - by split; destruct Hs.
  - intros k Hk. pose proof (view_length _ (so_iov _ Hs)) as Hvl. rewrite Hvp in Hvl. destruct (decide (k = length pkts)) as [->|Hne].
    + rewrite Nat2Z.id, list_lookup_insert_eq by lia. by rewrite firstn_all, Hvl.
    + rewrite list_lookup_insert_ne by lia. apply Hix. lia.
  - lia.
Qed.

(** The copy to [t_iov]. *)
Lemma copy_to_t_iov_ok n : ∀ i s, iov_ok (iov s) → iov_ok (t_iov s) → 0 ≤ i → Z.of_nat n + i = Z.of_nat (length (view (iov s))) →
  iov_end (t_iov s) + Z.of_nat n ≤ capacity (t_iov s) →
  ∃ t, copy_to_t_iov n i s = Ok (set_t_iov t s) ∧ iov_ok t ∧ view t = view (t_iov s) ++ drop (Z.to_nat i) (view (iov s)).
Proof.
  induction n as [|n IH]; intros i s Hv Ht Hi Hn Hroom.
  - exists (t_iov s). split_and!; [by destruct s|done|]. by rewrite drop_ge, app_nil_r by lia.
  - destruct (lookup_lt_is_Some_2 (view (iov s)) (Z.to_nat i)) as [x Hx]; [lia|]. cbn [copy_to_t_iov]. rewrite (iv_at_ok _ _ x Hv Hi Hx). cbn [mbind outcome_bind].
    pose proof (Forall_lookup_1 _ _ _ _ (io_lens _ Hv) Hx) as Hxl.
    destruct (push_back_ok (t_iov s) x Ht Hxl) as (t1 & -> & Ht1 & Hview & Hb & Hc); [lia|]. cbn [mbind outcome_bind fst snd].
    pose proof (view_length _ Ht). pose proof (view_length _ Ht1) as Hl1. rewrite Hview, length_app in Hl1. cbn in Hl1.
    destruct (IH (i + 1) (set_t_iov t1 s)) as (t & Hrun & Hok & Hvt); [done|done|lia|cbn [iov set_t_iov]; lia|cbn [t_iov set_t_iov]; lia|].
    exists t. rewrite Hrun. split_and!; [done|done|]. rewrite Hvt. cbn [t_iov iov set_t_iov]. rewrite Hview, <- app_assoc. f_equal.
    replace (Z.to_nat (i + 1)) with (S (Z.to_nat i)) by lia. by rewrite (drop_S _ _ _ Hx).
Qed.

(** A serializer whose message [d] fits: in packets of [max] bytes, with a header in
    front for each. *)
Record cuttable (m : gmap Z Z) (max : Z) (d : list Z) (s : Serializer) : Prop := {
  cu_max : 0 < max;
  cu_ser : ser_ok s;
  cu_temp : iov_ok (t_iov s);
  cu_index : length (data_pkg_index s) = 2000%nat;
  cu_data : data m (view (iov s)) = Some d;
  cu_some : 0 < Z.of_nat (length d);
  cu_front : 1 ≤ iov_begin (iov s);
  cu_count : data_size_to_num_pkts max (Z.of_nat (length d)) < 2000;
  cu_copy : iov_begin (t_iov s) + Z.of_nat (length (view (iov s))) ≤ capacity (t_iov s);
  cu_room : 2 * data_size_to_num_pkts max (Z.of_nat (length d)) + Z.of_nat (length (view (iov s))) ≤ IOVECTOR_CAPACITY
}.

Lemma init_data_iov_ok m max d s :
  cuttable m max d s → ∃ s' pkts, init_data_iov max s = Ok (data_size_to_num_pkts max (Z.of_nat (length d)), s') ∧ packets_of m max d pkts s'.
Proof.
  intros [Hmax Hs Ht Hix Hd Hpos Hfront Hcount Hcopy Hroom]. pose proof Hs as [Hv Hcap Hfull]. pose proof (view_length _ Hv) as Hvl.
  pose proof (data_length _ _ _ (io_lens _ Hv) Hd) as Hsum. unfold init_data_iov, iv_sum, iovcnt. rewrite !(do_assert_ok _ Hv).
  cbn [mbind outcome_bind]. rewrite <- Hsum. destruct (Z.leb_spec (Z.of_nat (length d)) max) as [Hle|Hgt].
  - assert (Hn1 : data_size_to_num_pkts max (Z.of_nat (length d)) = 1) by (unfold data_size_to_num_pkts; by rewrite (proj2 (Z.leb_le _ _) Hle)).
    rewrite arr_set_in_range by lia. cbn [mbind outcome_bind]. rewrite arr_set_in_range by (rewrite length_insert; lia). cbn [mbind outcome_bind].
    rewrite Hn1. eexists _, [view (iov s)]. split; [done|]. split; try done; cbn [total_pkg set_total_pkg data_pkg_index set_data_pkg_index iov].
    + intros [|k] p; cbn; [|done]. intros [= <-]. rewrite drop_0, take_ge by lia. split; [done|]. intros E. rewrite E in Hd. injection Hd as <-. done.
    + cbn. by rewrite app_nil_r.
    + change (Z.to_nat 0) with 0%nat. change (Z.to_nat 1) with 1%nat. intros [|[|k]] Hk; cbn [length] in Hk; [| |lia].
      * rewrite list_lookup_insert_ne, list_lookup_insert_eq by lia. done.
      * rewrite list_lookup_insert_eq by (rewrite length_insert; lia). cbn. by rewrite app_nil_r, Hvl.
  - destruct (num_pkts_spec max (Z.of_nat (length d)) Hmax Hgt) as [Hn Hnn]. set (N := data_size_to_num_pkts max (Z.of_nat (length d))) in *.
    replace (max =? 0) with false by lia. unfold iv_clear.
    rewrite (do_assert_ok _ Ht). cbn [mbind outcome_bind].
    set (t0 := set_iov_end (iov_begin (t_iov s)) (t_iov s)).
    assert (Ht0 : iov_ok t0 ∧ view t0 = []).
    { split; [apply set_end_ok; [done|split; [lia|apply (io_order _ Ht)]]|]. unfold t0, view. cbn. by rewrite Z.sub_diag. }
    destruct Ht0 as [Ht0 Hv0]. destruct (copy_to_t_iov_ok (Z.to_nat (iov_end (iov s) - iov_begin (iov s))) 0 (set_t_iov t0 s)) as (t1 & Hrun & Ht1 & Hvt1).
    { done. } { done. } { lia. } { cbn [iov set_t_iov]. lia. } { cbn. lia. }
    rewrite Hrun. cbn [mbind outcome_bind t_iov iov set_t_iov]. rewrite (do_assert_ok _ Ht1). cbn [mbind outcome_bind t_iov iov set_t_iov] in *.
    rewrite Hv0, app_nil_l, drop_0 in Hvt1. rewrite Hvt1, <- Hsum, <- Hnn. rewrite (do_assert_ok _ Hv). cbn [mbind outcome_bind].
    set (v1 := set_iov_end (u16 N) _). cbn [t_iov set_total_pkg set_iov set_t_iov]. rewrite (do_assert_ok _ Ht1). cbn [mbind outcome_bind].
    pose proof (view_length _ Ht1) as Hl1. rewrite Hvt1 in Hl1. replace (Z.to_nat (iov_end t1 - iov_begin t1)) with (length (view (iov s))) by lia.
    assert (HuN : u16 N = N) by (unfold u16; apply Z.mod_small; nia). set (s1 := set_total_pkg 0 _).
    assert (Hv1 : iov_ok v1 ∧ view v1 = [] ∧ iov_begin v1 = N ∧ iov_end v1 = N).
    { assert (view v1 = []) as Hvv by (unfold v1, view; cbn; by rewrite Z.sub_diag). split_and!; [|done|exact HuN|exact HuN].
      destruct Hv. split; cbn [v1 iov_begin iov_end capacity nbases iovs set_iov_begin set_iov_end]; rewrite ?HuN; try lia. by rewrite Hvv. }
    destruct Hv1 as (Hv1 & Hvv1 & Hb1 & He1).
    assert (HI : cutting_inv m max N [] [] max [] s1).
    { split; try done.
      - exists [], []. split_and!; [constructor|done|done|cbn; lia].
      - cbn. by rewrite Z.eqb_refl.
      - rewrite Z.eqb_refl. intros k Hk. cbn in Hk. lia. }
    destruct (split_iovecs_ok m max N Hmax (view (iov s)) 0 max [] [] [] s1 d (Z.of_nat (length d))) as (temp & s2 & pk & c & Hrun2 & HI2); try done.
    + apply (io_lens _ Hv).
    + lia.
    + cbn [iov s1 set_total_pkg set_iov set_t_iov]. rewrite He1. replace (Z.of_nat (length d) + max - max) with (Z.of_nat (length d)) by lia.
      assert (Z.of_nat (length d) / max ≤ N) by (apply Z.div_le_upper_bound; lia). lia.
    + rewrite Hrun2. cbn [mbind outcome_bind]. rewrite (do_assert_ok _ (so_iov _ (ci_ser _ _ _ _ _ _ _ _ HI2))). cbn [mbind outcome_bind]. cbn [app] in HI2.
      destruct (packets_of_cut m max N pk c temp d s2 Hmax Hgt eq_refl Hcount HI2) as (l & -> & HtN & pkts & Hpk). cbn [mbind outcome_bind].
      eexists _, pkts. split; [by rewrite HtN|done].
Qed.

(** ** Headers in front *)
Lemma push_front_ok v y :
  iov_ok v → 0 ≤ iov_len y → 0 < iov_begin v →
  ∃ v', push_front y v = Ok (iov_len y, v') ∧ iov_ok v' ∧ view v' = y :: view v ∧ iov_begin v' = iov_begin v - 1 ∧ capacity v' = capacity v.
Proof.
  intros Hv Hy Hb. unfold push_front. rewrite (do_assert_ok v Hv). cbn [mbind outcome_bind]. replace (0 <? iov_begin v) with true by lia.
  destruct Hv as [Hb0 Ho Hec Hn Hr Hwd Hl]. rewrite arr_set_in_range by lia. cbn [mbind outcome_bind]. eexists. split; [done|].
  assert (Hview : view (set_iovs (<[Z.to_nat (iov_begin v - 1):=y]> (iovs v)) (set_iov_begin (iov_begin v - 1) v)) = y :: view v).
  { unfold view. cbn [iov_end iov_begin iovs set_iovs set_iov_begin]. rewrite insert_take_drop by lia. rewrite drop_app_ge by (rewrite length_take; lia).
    rewrite length_take_le by lia. rewrite Nat.sub_diag, drop_0. replace (Z.to_nat (iov_end v - (iov_begin v - 1))) with (S (Z.to_nat (iov_end v - iov_begin v))) by lia.
    cbn [take]. f_equal. f_equal. f_equal. lia. }
  split_and!; [|done..]. split; cbn [iov_begin iov_end capacity nbases iovs set_iovs set_iov_begin]; try lia.
  - by rewrite length_insert.
  - rewrite Hview. by constructor.
Qed.
Lemma push_headers_ok hdrs s :
  ser_ok s → lens_ok hdrs → Z.of_nat (length hdrs) ≤ iov_begin (iov s) →
  ∃ s', push_headers hdrs s = Ok s' ∧ ser_ok s' ∧ view (iov s') = hdrs ++ view (iov s) ∧
    total_pkg s' = total_pkg s ∧ data_pkg_index s' = data_pkg_index s ∧ iov_begin (iov s') = iov_begin (iov s) - Z.of_nat (length hdrs).
Proof.
  intros Hs Hl. induction Hl as [|y hdrs Hy Hl IH]; intros Hn.
  - exists s. split_and!; try done. cbn. lia.
  - cbn [length] in Hn. destruct IH as (s1 & Hrun & [Hv Hc Hf] & Hview & Ht & Hi & Hb); [lia|]. cbn [push_headers]. rewrite Hrun. cbn [mbind outcome_bind].
    destruct (push_front_ok (iov s1) y Hv Hy) as (v' & -> & Hok & Hv' & Hb' & Hc'); [lia|]. cbn [mbind outcome_bind fst snd].
    eexists. split; [done|]. cbn [iov set_iov total_pkg data_pkg_index length]. split_and!; [split; cbn; congruence || done|by rewrite Hv', Hview|done|done|lia].
Qed.

Lemma concat_lookup_slice {A} (pkts : list (list A)) k p :
  pkts !! k = Some p → take (length p) (drop (length (concat (take k pkts))) (concat pkts)) = p ∧
    (length (concat (take k pkts)) + length p ≤ length (concat pkts))%nat ∧ length (concat (take (S k) pkts)) = (length (concat (take k pkts)) + length p)%nat.
Proof.
  intros Hk. rewrite (take_S_r _ _ _ Hk), concat_app, length_app. cbn. rewrite app_nil_r.
  assert (Hc : concat pkts = concat (take k pkts) ++ p ++ concat (drop (S k) pkts)) by (rewrite <- (take_drop_middle _ _ _ Hk) at 1; by rewrite concat_app).
  rewrite Hc, drop_app_length, take_app_length, !length_app. split_and!; [done|lia|done].
Qed.

(** With the headers in front, [iov[k]] is header [k], and [get_n_data] finds packet [k]. *)
Lemma headers_in_front m max d pkts s1 hdrs :
  packets_of m max d pkts s1 → lens_ok hdrs → length hdrs = length pkts →
  ∃ s2, push_headers hdrs s1 = Ok s2 ∧ ser_ok s2 ∧ total_pkg s2 = Z.of_nat (length pkts) ∧
    ∀ k x p, hdrs !! k = Some x → pkts !! k = Some p → iv_at (iov s2) (Z.of_nat k) = Ok x ∧ get_n_data (Z.of_nat k) s2 = Ok p.
Proof.
  intros [Hcnt Htot Hdat Hs1 Hv1 Hi1 Hb1] Hh Hn.
  destruct (push_headers_ok hdrs s1 Hs1 Hh) as (s2 & Hrun2 & [Hv2 Hc2 Hf2] & Hview2 & Ht2 & Hi2 & Hb2); [lia|]. exists s2. split_and!; [done|done|lia|].
  intros k x p Hx Hp. pose proof (lookup_lt_Some _ _ _ Hx) as Hk. rewrite Hv1 in Hview2. split.
  { apply iv_at_ok; [done|lia|]. rewrite Hview2, Nat2Z.id, lookup_app_l by lia. done. }
  destruct (Hdat k p Hp) as [Hpd Hne].
  destruct (concat_lookup_slice pkts k p Hp) as (Hsl & Hle & HS). pose proof (view_length _ Hv2) as Hvl. rewrite Hview2, length_app in Hvl.
  assert (Hp0 : (0 < length p)%nat) by (destruct p; [done|cbn; lia]).
  unfold get_n_data, assert_o. rewrite Ht2, Htot, Hi2. replace (Z.of_nat k <? Z.of_nat (length pkts)) with true by lia. cbn [mbind outcome_bind].
  assert (E1 : arr_get (data_pkg_index s1) (Z.of_nat k) = Ok (Z.of_nat (length (concat (take k pkts))))) by (apply arr_get_Ok; rewrite Nat2Z.id; split; [lia|apply Hi1; lia]).
  assert (E2 : arr_get (data_pkg_index s1) (Z.of_nat k + 1) = Ok (Z.of_nat (length (concat (take (S k) pkts)))))
    by (apply arr_get_Ok; replace (Z.to_nat (Z.of_nat k + 1)) with (S k) by lia; split; [lia|apply Hi1; lia]).
  rewrite E1, E2. cbn [mbind outcome_bind].
  destruct (lookup_lt_is_Some_2 (view (iov s2)) (length pkts + length (concat (take k pkts)))) as [y Hy]; [rewrite Hview2, length_app; lia|].
  rewrite (iv_at_ok (iov s2) _ y Hv2); [|lia|by rewrite <- Nat2Z.inj_add, Nat2Z.id]. cbn [mbind outcome_bind]. f_equal.
  rewrite HS. replace (Z.to_nat (Z.of_nat (length (concat (take k pkts)) + length p) - Z.of_nat (length (concat (take k pkts))))) with (length p) by lia.
  rewrite <- Hsl at 2. assert (Hcat : concat pkts = drop (length hdrs) (view (iov s2))) by (rewrite Hview2; by rewrite drop_app_length).
  rewrite Hcat, drop_drop. unfold view. rewrite skipn_firstn_comm, drop_drop, take_take. destruct Hv2. f_equal; [lia|]. f_equal. lia.
Qed.

(** The packets together hold the message. *)
Lemma concat_chunks {A} (n max : nat) (d : list A) :
  concat ((λ k, take max (drop (k * max) d)) <$> seq 0 n) = take (n * max) d.
Proof.
  induction n as [|n IH]; [done|]. rewrite seq_S, fmap_app, concat_app, IH. cbn. rewrite app_nil_r.
  rewrite (Nat.add_comm max), <- take_take_drop. done.
Qed.
Lemma data_concat m pkts ds : Forall2 (λ p d, data m p = Some d) pkts ds → data m (concat pkts) = Some (concat ds).
Proof. induction 1; [done|]. cbn. apply data_app. naive_solver. Qed.
Lemma num_pkts_cover max n : 0 < max → 0 ≤ n → n ≤ data_size_to_num_pkts max n * max.
Proof.
  intros Hm Hn. unfold data_size_to_num_pkts. destruct (Z.leb_spec n max); [lia|].
  pose proof (Z.div_mod (n + max - 1) max ltac:(lia)). pose proof (Z.mod_pos_bound (n + max - 1) max Hm). nia.
Qed.
Lemma packets_of_data m max d pkts s : 0 < max → packets_of m max d pkts s → data m (view (iov s)) = Some d.
Proof.
  intros Hm [Hcnt _ Hdat _ -> _ _]. rewrite (data_concat m pkts ((λ k, take (Z.to_nat max) (drop (k * Z.to_nat max) d)) <$> seq 0 (length pkts))).
  - rewrite concat_chunks, take_ge; [done|]. pose proof (num_pkts_cover max (Z.of_nat (length d)) Hm ltac:(lia)). nia.
  - apply Forall2_same_length_lookup. split; [by rewrite length_fmap, length_seq|]. intros k p c Hp Hc.
    apply list_lookup_fmap_Some in Hc as (k' & -> & [-> Hk]%lookup_seq). by apply Hdat.
Qed.

(** C36: cutting a message of [d] bytes into packets succeeds when the headers and
    the pieces fit in the vector and there are fewer than 2000 packets; it reports
    [data_size_to_num_pkts] packets; and once the headers are pushed, header [k] is
    iovec [k] and [get_n_data] finds for packet [k] the bytes from [k * max] on, [max]
    of them or what is left. *)
Theorem packets_partition_message m max d s hdrs :
  cuttable m max d s → lens_ok hdrs → Z.of_nat (length hdrs) = data_size_to_num_pkts max (Z.of_nat (length d)) →
  ∃ s1 s2, init_data_iov max s = Ok (Z.of_nat (length hdrs), s1) ∧ push_headers hdrs s1 = Ok s2 ∧
    ∀ k x, hdrs !! k = Some x → iv_at (iov s2) (Z.of_nat k) = Ok x ∧
      ∃ p, get_n_data (Z.of_nat k) s2 = Ok p ∧ data m p = Some (take (Z.to_nat max) (drop (k * Z.to_nat max) d)).
Proof.
  intros Hc Hh Hn. destruct (init_data_iov_ok m max d s Hc) as (s1 & pkts & Hrun & Hpk). pose proof (po_count _ _ _ _ _ Hpk) as Hcnt.
  destruct (headers_in_front m max d pkts s1 hdrs Hpk Hh) as (s2 & Hrun2 & _ & _ & Hat); [lia|]. exists s1, s2. rewrite Hn. split_and!; [done..|].
  intros k x Hx. pose proof (lookup_lt_Some _ _ _ Hx) as Hk. destruct (lookup_lt_is_Some_2 pkts k) as [p Hp]; [lia|].
  destruct (Hat k x p Hx Hp) as [Ha Hg]. split; [done|]. exists p. split; [done|]. apply (po_data _ _ _ _ _ Hpk k p Hp).
Qed.

(** Twenty-nine bytes in two places, as four packets of at most eight. *)
Definition two_places : iovector :=
  mk_iovector 2300 8 10 0 (replicate 8 (mk_iovec 0 0) ++ [mk_iovec 100 10; mk_iovec 300 19] ++ replicate 2290 (mk_iovec 0 0)).
Definition long_message : Serializer := set_iov two_places empty_ser.
Definition four_headers : list iovec := (λ i, mk_iovec (5000 + 36 * i) 36) <$> [0; 1; 2; 3].

Lemma long_message_cuttable : cuttable (bytes receiver) 8 arrived long_message.
Proof.
  assert (Hv : view two_places = [mk_iovec 100 10; mk_iovec 300 19]) by (vm_compute; reflexivity).
  split; try done; try (vm_compute; reflexivity).
  - split; try done. split; try done. cbn [iov long_message set_iov]. rewrite Hv. repeat constructor; cbn; lia.
Qed.
Lemma packets_partition_message_witness :
  ∃ s1 s2, init_data_iov 8 long_message = Ok (4, s1) ∧ push_headers four_headers s1 = Ok s2 ∧
    ∀ k x, four_headers !! k = Some x → iv_at (iov s2) (Z.of_nat k) = Ok x ∧
      ∃ p, get_n_data (Z.of_nat k) s2 = Ok p ∧ data (bytes receiver) p = Some (take 8 (drop (k * 8) arrived)).
Proof.
  apply (packets_partition_message (bytes receiver) 8 arrived long_message four_headers).
  - apply long_message_cuttable.
  - repeat constructor; cbn; lia.
  - vm_compute. reflexivity.
Defined.
