(* ===== verification/SmTypes.v ===== *)
(** * Session management packets ([src/sm_types.h])

    Endpoints of sessions and the packets that create and destroy sessions.  The
    contents of a transport's routing info are a number. *)

From S2P Require Import Prelude.

Inductive TransportType : Type := kInfiniBand | kRaw | kDPDK | kFake | kInvalid.
#[global] Instance TransportType_eq_dec : EqDecision TransportType.
Proof. solve_decision. Defined.
Inductive SmPktType : Type := kUnblock | kPingReq | kPingResp | kConnectReq | kConnectResp | kDisconnectReq | kDisconnectResp.
#[global] Instance SmPktType_eq_dec : EqDecision SmPktType.
Proof. solve_decision. Defined.
Inductive SmErrType : Type :=
| kNoError | kSrvDisconnected | kRingExhausted | kOutOfMemory | kRoutingResolutionFailure | kInvalidRemoteRpcId | kInvalidTransport.
#[global] Instance SmErrType_eq_dec : EqDecision SmErrType.
Proof. solve_decision. Defined.
Inductive SmEventType : Type := kEvConnected | kConnectFailed | kDisconnected | kDisconnectFailed.

Definition kInvalidSessionNum : Z := 2 ^ 16 - 1.
Definition kInvalidRpcId : Z := 255.
Definition kMaxHostnameLen : Z := 128.

(** [strcpy] of a host name into its array of [kMaxHostnameLen] bytes: it copies up to the first null
    character, and one more; past the end of the array this is undefined. *)
Fixpoint c_str (s : string) : string :=
  match s with
  | EmptyString => EmptyString
  | String c s => if (Ascii.nat_of_ascii c =? 0)%nat then EmptyString else String c (c_str s)
  end.
Definition strcpy_hostname (s : string) : outcome string :=
  if Z.of_nat (String.length (c_str s)) + 1 <=? kMaxHostnameLen then Ok (c_str s) else Fault UndefinedBehaviour.
Lemma c_str_length s : (String.length (c_str s) ≤ String.length s)%nat.
Proof. induction s as [|c s IH]; cbn; [done|]. case_match; cbn; lia. Qed.
Lemma strcpy_shorter s : Z.of_nat (String.length s) < kMaxHostnameLen → strcpy_hostname s = Ok (c_str s).
Proof. intros Hs. unfold strcpy_hostname. pose proof (c_str_length s). by rewrite (proj2 (Z.leb_le _ _)) by lia. Qed.

Record SessionEndpoint : Type := mk_ep {
  transport_type_ : TransportType;
  hostname_ : string;
  sm_udp_port_ : Z;
  rpc_id_ : Z;
  session_num_ : Z;
  routing_info_ : Z
}.
Definition SessionEndpoint_eta (e : SessionEndpoint) : SessionEndpoint :=
  mk_ep (transport_type_ e) (hostname_ e) (sm_udp_port_ e) (rpc_id_ e) (session_num_ e) (routing_info_ e).
Definition set_session_num : Z → SessionEndpoint → SessionEndpoint := ltac:(field_update SessionEndpoint_eta session_num_).
Definition set_routing_info : Z → SessionEndpoint → SessionEndpoint := ltac:(field_update SessionEndpoint_eta routing_info_).
(** The constructor leaves the transport as it finds it. *)
Definition new_endpoint (t : TransportType) : SessionEndpoint := mk_ep t "" 0 kInvalidRpcId kInvalidSessionNum 0.
(** [operator==] leaves out the routing info. *)
Definition ep_eqb (a b : SessionEndpoint) : bool :=
  bool_decide (transport_type_ a = transport_type_ b) && bool_decide (hostname_ a = hostname_ b) && (sm_udp_port_ a =? sm_udp_port_ b) &&
  (rpc_id_ a =? rpc_id_ b) && (session_num_ a =? session_num_ b).

Record SmPkt : Type := mk_SmPkt {
  sm_pkt_type_ : SmPktType;
  err_type_ : SmErrType;
  pkt_token_ : Z;
  pkt_client_ : SessionEndpoint;
  pkt_server_ : SessionEndpoint
}.
Definition SmPkt_eta (p : SmPkt) : SmPkt := mk_SmPkt (sm_pkt_type_ p) (err_type_ p) (pkt_token_ p) (pkt_client_ p) (pkt_server_ p).
Definition set_pkt_server : SessionEndpoint → SmPkt → SmPkt := ltac:(field_update SmPkt_eta pkt_server_).

Definition sm_pkt_type_is_req (t : SmPktType) : bool :=
  match t with kPingReq | kConnectReq | kDisconnectReq => true | _ => false end.
(** The response to a request; other types throw an exception. *)
Definition sm_pkt_type_req_to_resp (t : SmPktType) : option SmPktType :=
  match t with kPingReq => Some kPingResp | kConnectReq => Some kConnectResp | kDisconnectReq => Some kDisconnectResp | _ => None end.
Definition sm_construct_resp (req : SmPkt) (err : SmErrType) : option SmPkt :=
  t ← sm_pkt_type_req_to_resp (sm_pkt_type_ req); Some (mk_SmPkt t err (pkt_token_ req) (pkt_client_ req) (pkt_server_ req)).

(** What the management thread of a Nexus does with a packet: the queue of the [Rpc] that
    it is for, an error response when there is no such [Rpc], or nothing. *)
Inductive sm_action : Type := Push (rpc_id : Z) (p : SmPkt) | SendErr (p : SmPkt) | Drop.
Definition sm_thread_rx (registered : Z → bool) (p : SmPkt) : sm_action :=
  match sm_pkt_type_ p with
  | kUnblock => Drop
  | t =>
      let target := if sm_pkt_type_is_req t then rpc_id_ (pkt_server_ p) else rpc_id_ (pkt_client_ p) in
      if registered target then Push target p
      else match sm_construct_resp p kInvalidRemoteRpcId with Some r => SendErr r | None => Drop end
  end.
