(* ===== verification/RpcTypes.v ===== *)
(** * Data of an RPC endpoint ([src/pkthdr.h], [sslot.h], [session.h], [rpc.h])

    Packet headers with the widths of their bit fields, session slots, sessions and
    the state of an [Rpc] object, with the memory it works on.  The transport is a
    template parameter of the code and a type class here. *)

From S2P Require Import Prelude IoVector Serializer SmTypes.

(** ** The transport's constants

    [kNumSge] is the length of a row of [send_sgl]. *)
Class Transport : Type := {
  kMaxDataPerPkt : Z;
  kPostlist : nat;
  kUnsigBatch : nat;
  kNumSge : Z;
  sizeof_pkthdr_t : Z
}.
(** InfiniBand over RoCE, for the size the compiler gives a header. *)
Definition kMTU : Z := 4096.
Definition IBTransport (sizeof : Z) : Transport :=
  {| kMaxDataPerPkt := kMTU - sizeof; kPostlist := 16; kUnsigBatch := 64; kNumSge := 16; sizeof_pkthdr_t := sizeof |}.
Definition k_max_class_size : Z := 16 * 1024 * 1024.
Definition kMaxMsgSize `{Transport} : Z := k_max_class_size - k_max_class_size / kMaxDataPerPkt * sizeof_pkthdr_t.

(** ** Packet headers *)
Definition bits (w z : Z) : Z := z mod 2 ^ w.
Definition kMsgSizeBits : Z := 24.
Definition kReqNumBits : Z := 32.
Definition k_pkt_hdr_magic_bits : Z := 16.
Definition kPktHdrMagic : Z := 11.

Inductive PktType : Type := kReq | kRFR | kExplCR | kResp.
#[global] Instance PktType_eq_dec : EqDecision PktType.
Proof. solve_decision. Defined.

Record pkthdr_t : Type := mk_pkthdr {
  req_type_ : Z;
  msg_size_ : Z;
  dest_session_num_ : Z;
  pkt_type_ : PktType;
  pkt_num_ : Z;
  req_num_ : Z;
  magic_ : Z;
  lkey : Z;
  total_pkt : Z;
  this_msg_size : Z
}.
Definition pkthdr_eta (h : pkthdr_t) : pkthdr_t :=
  mk_pkthdr (req_type_ h) (msg_size_ h) (dest_session_num_ h) (pkt_type_ h) (pkt_num_ h) (req_num_ h) (magic_ h) (lkey h) (total_pkt h) (this_msg_size h).
Definition put_pkt_num : Z → pkthdr_t → pkthdr_t := ltac:(field_update pkthdr_eta pkt_num_).
Definition put_this_msg_size : Z → pkthdr_t → pkthdr_t := ltac:(field_update pkthdr_eta this_msg_size).
(** Assignments to the bit fields. *)
Definition set_pkt_num (z : Z) : pkthdr_t → pkthdr_t := put_pkt_num (bits 16 z).
Definition set_this_msg_size (z : Z) : pkthdr_t → pkthdr_t := put_this_msg_size (bits 16 z).
(** The assignments that fill a header in, which keep [total_pkt]. *)
Definition fill_hdr (req_type msg_size dest : Z) (ty : PktType) (pkt_num req_num key this_size : Z) (h : pkthdr_t) : pkthdr_t :=
  mk_pkthdr (bits 8 req_type) (bits kMsgSizeBits msg_size) (bits 4 dest) ty (bits 16 pkt_num) (bits kReqNumBits req_num)
            (bits k_pkt_hdr_magic_bits kPktHdrMagic) (bits 32 key) (total_pkt h) (bits 16 this_size).

(** ** Slots and sessions *)
Definition kSessionReqWindow : Z := 32.
Definition kSessionCredits : Z := 32.
Definition kInvalidReqType : Z := 255.
Definition kInvalidBgETid : Z := 8.

Inductive ReqFuncType : Type := kForeground | kBackground.
Record ReqFunc : Type := mk_reqfunc { req_func_ : Z; req_func_type_ : ReqFuncType }.
Definition is_background (f : ReqFunc) : bool := match req_func_type_ f with kBackground => true | kForeground => false end.

Inductive SessionState : Type := kConnectInProgress | kConnected | kDisconnectInProgress | kResetInProgress.
#[global] Instance SessionState_eq_dec : EqDecision SessionState.
Proof. solve_decision. Defined.

(** A slot is named by its session and its index; the list of active RPCs also has
    two sentinels. *)
Definition sslot_ptr : Type := nat * nat.
Inductive link : Type := Root | Tail | Slot (p : sslot_ptr).
#[global] Instance link_eq_dec : EqDecision link.
Proof. solve_decision. Defined.

Record client_info : Type := mk_ci {
  ci_resp_msgbuf : Z;
  ci_cont_func : Z;
  ci_tag : Z;
  ci_num_tx : Z;
  ci_num_rx : Z;
  ci_progress_tsc : Z;
  ci_cont_etid : Z;
  ci_prev : option link;
  ci_next : option link;
  ci_wheel_count : Z
}.
Definition client_info_eta (c : client_info) : client_info :=
  mk_ci (ci_resp_msgbuf c) (ci_cont_func c) (ci_tag c) (ci_num_tx c) (ci_num_rx c) (ci_progress_tsc c) (ci_cont_etid c) (ci_prev c) (ci_next c) (ci_wheel_count c).
Definition set_ci_num_tx : Z → client_info → client_info := ltac:(field_update client_info_eta ci_num_tx).
Definition set_ci_num_rx : Z → client_info → client_info := ltac:(field_update client_info_eta ci_num_rx).
Definition set_ci_progress : Z → client_info → client_info := ltac:(field_update client_info_eta ci_progress_tsc).
Definition set_ci_prev : option link → client_info → client_info := ltac:(field_update client_info_eta ci_prev).
Definition set_ci_next : option link → client_info → client_info := ltac:(field_update client_info_eta ci_next).
(** What [enqueue_request] fills in. *)
Definition set_ci_request (resp_msgbuf cont_func tag tsc cont_etid : Z) (c : client_info) : client_info :=
  mk_ci resp_msgbuf cont_func tag 0 0 tsc cont_etid (ci_prev c) (ci_next c) (ci_wheel_count c).

Record server_info : Type := mk_si {
  si_req_type : Z;
  si_req_func_type : ReqFuncType;
  si_num_rx : Z;
  si_sav_num_req_pkts : Z
}.
Definition server_info_eta (s : server_info) : server_info :=
  mk_si (si_req_type s) (si_req_func_type s) (si_num_rx s) (si_sav_num_req_pkts s).
Definition set_si_req_type : Z → server_info → server_info := ltac:(field_update server_info_eta si_req_type).
Definition set_si_req_func_type : ReqFuncType → server_info → server_info := ltac:(field_update server_info_eta si_req_func_type).
Definition set_si_num_rx : Z → server_info → server_info := ltac:(field_update server_info_eta si_num_rx).
Definition set_si_sav : Z → server_info → server_info := ltac:(field_update server_info_eta si_sav_num_req_pkts).

(** The two structs share their memory: a slot has one of them. *)
Inductive slot_info : Type := ClientInfo (c : client_info) | ServerInfo (s : server_info).

Record SSlot : Type := mk_sslot {
  pre_req : Z;
  dyn_resp_msgbuf_ : Serializer;
  sslot_c : Z;
  is_client_ : bool;
  index_ : Z;
  tx_msgbuf_ : Z;
  cur_req_num_ : Z;
  info_ : slot_info
}.
Definition SSlot_eta (s : SSlot) : SSlot :=
  mk_sslot (pre_req s) (dyn_resp_msgbuf_ s) (sslot_c s) (is_client_ s) (index_ s) (tx_msgbuf_ s) (cur_req_num_ s) (info_ s).
Definition set_dyn_resp : Serializer → SSlot → SSlot := ltac:(field_update SSlot_eta dyn_resp_msgbuf_).
Definition set_sslot_c : Z → SSlot → SSlot := ltac:(field_update SSlot_eta sslot_c).
Definition set_tx_msgbuf : Z → SSlot → SSlot := ltac:(field_update SSlot_eta tx_msgbuf_).
Definition set_cur_req_num : Z → SSlot → SSlot := ltac:(field_update SSlot_eta cur_req_num_).
Definition set_info : slot_info → SSlot → SSlot := ltac:(field_update SSlot_eta info_).

Record enq_req_args_t : Type := mk_args {
  ea_session_num : Z;
  ea_req_type : Z;
  ea_req_msgbuf : Z;
  ea_resp_msgbuf : Z;
  ea_cont_func : Z;
  ea_tag : Z;
  ea_cont_etid : Z
}.

(** [sslot_free_vec_] is a stack, its top first. *)
Record Session : Type := mk_session {
  is_client : bool;
  state_ : SessionState;
  sslot_arr_ : list SSlot;
  local_session_num_ : Z;
  remote_session_num_ : Z;
  credits_ : Z;
  sslot_free_vec_ : list Z;
  enq_req_backlog_ : list enq_req_args_t;
  num_re_tx_ : Z;
  uniq_token_ : Z;
  client_ : SessionEndpoint;
  server_ : SessionEndpoint
}.
Definition Session_eta (s : Session) : Session :=
  mk_session (is_client s) (state_ s) (sslot_arr_ s) (local_session_num_ s) (remote_session_num_ s) (credits_ s) (sslot_free_vec_ s) (enq_req_backlog_ s) (num_re_tx_ s)
    (uniq_token_ s) (client_ s) (server_ s).
Definition set_sslot_arr : list SSlot → Session → Session := ltac:(field_update Session_eta sslot_arr_).
Definition set_credits : Z → Session → Session := ltac:(field_update Session_eta credits_).
Definition set_free_vec : list Z → Session → Session := ltac:(field_update Session_eta sslot_free_vec_).
Definition set_backlog : list enq_req_args_t → Session → Session := ltac:(field_update Session_eta enq_req_backlog_).
Definition set_num_re_tx : Z → Session → Session := ltac:(field_update Session_eta num_re_tx_).
Definition set_session_state : SessionState → Session → Session := ltac:(field_update Session_eta state_).
Definition set_remote_num : Z → Session → Session := ltac:(field_update Session_eta remote_session_num_).
Definition set_server : SessionEndpoint → Session → Session := ltac:(field_update Session_eta server_).
Definition is_connected (s : Session) : bool := bool_decide (state_ s = kConnected).

(** The constructor: zeroed slots, request numbers from the index, and the free
    slots in an order that pops them from 0. *)
Definition zero_iovector : iovector := mk_iovector 0 0 0 0 (replicate 2300 (mk_iovec 0 0)).
Definition zero_Serializer : Serializer := mk_ser zero_iovector 0 zero_iovector (replicate 2000 0) false false 0 0.
Definition new_sslot (client : bool) (i : nat) : SSlot :=
  mk_sslot 0 zero_Serializer 0 client (Z.of_nat i) 0 (Z.of_nat i)
    (if client then ClientInfo (mk_ci 0 0 0 0 0 0 0 None None 0) else ServerInfo (mk_si kInvalidReqType kForeground 0 0)).
Definition new_Session (client : bool) (st : SessionState) (lnum rnum token : Z) (cl sv : SessionEndpoint) : Session :=
  mk_session client st (new_sslot client <$> seq 0 (Z.to_nat kSessionReqWindow)) lnum rnum kSessionCredits
    (Z.of_nat <$> seq 0 (Z.to_nat kSessionReqWindow)) [] 0 token cl sv.
