(* ===== verification/Rpc.v ===== *)
(** * The datapath of an RPC endpoint ([src/rpc.h], [src/rpc_impl])

    The state of an [Rpc] object and the functions that send and receive packets:
    requests, responses, credit returns, requests for response, the stall queue and
    retransmission.  Functions keep the names they have in the code. *)

From S2P Require Import Prelude IoVector Serializer RpcTypes.

(** ** The endpoint

    A packet of the transmit batch names the buffer it is cut from when it is sent:
    a message of the user, or one of the control buffers of the endpoint. *)
Inductive ser_ref : Type := UserSer (p : Z) | CtrlSer (i : nat).
Record tx_burst_item_t : Type := mk_item { tx_route : nat; tx_buffer : ser_ref; pkt_idx_ : Z }.
Record wire_pkt : Type := mk_wire { w_route : nat; w_hdr : pkthdr_t; w_body : list Z }.

(** Calls of code outside the library: a request handler, a continuation, or work
    for a background thread. *)
Inductive event : Type :=
| Invoke (f : Z) (p : sslot_ptr)
| SubmitBgReq (p : sslot_ptr)
| Continue (cont_func : Z) (tag : Z) (p : sslot_ptr)
| SubmitBgResp (cont_func tag etid : Z).

Record Rpc : Type := mk_rpc {
  session_vec_ : list (option Session);
  tx_burst_arr_ : list tx_burst_item_t;
  rx_ring_ : list Z;
  rx_ring_head_ : Z;
  stallq_ : list sslot_ptr;
  ev_loop_tsc_ : Z;
  rpc_rto_cycles_ : Z;
  root_next : option link;
  tail_prev : option link;
  ctrl_msgbufs_hdr : Z;
  ctrl_serialization : list Serializer;
  ctrl_msgbuf_head_ : Z;
  req_func_arr_ : Z → ReqFunc;
  stat_num_re_tx_ : Z;
  mem : heap;
  hdrs : gmap Z pkthdr_t;
  msgbufs : gmap Z Serializer;
  resp_ptrs : gmap Z sslot_ptr;
  wire : list wire_pkt;
  events : list event
}.
Definition Rpc_eta (r : Rpc) : Rpc :=
  mk_rpc (session_vec_ r) (tx_burst_arr_ r) (rx_ring_ r) (rx_ring_head_ r) (stallq_ r) (ev_loop_tsc_ r) (rpc_rto_cycles_ r) (root_next r) (tail_prev r)
    (ctrl_msgbufs_hdr r) (ctrl_serialization r) (ctrl_msgbuf_head_ r) (req_func_arr_ r) (stat_num_re_tx_ r) (mem r) (hdrs r) (msgbufs r) (resp_ptrs r) (wire r) (events r).
Definition set_session_vec : list (option Session) → Rpc → Rpc := ltac:(field_update Rpc_eta session_vec_).
Definition set_tx_burst_arr : list tx_burst_item_t → Rpc → Rpc := ltac:(field_update Rpc_eta tx_burst_arr_).
Definition set_rx_ring_head : Z → Rpc → Rpc := ltac:(field_update Rpc_eta rx_ring_head_).
Definition set_stallq : list sslot_ptr → Rpc → Rpc := ltac:(field_update Rpc_eta stallq_).
Definition set_ev_loop_tsc : Z → Rpc → Rpc := ltac:(field_update Rpc_eta ev_loop_tsc_).
Definition set_root_next : option link → Rpc → Rpc := ltac:(field_update Rpc_eta root_next).
Definition set_tail_prev : option link → Rpc → Rpc := ltac:(field_update Rpc_eta tail_prev).
Definition set_ctrl_msgbuf_head : Z → Rpc → Rpc := ltac:(field_update Rpc_eta ctrl_msgbuf_head_).
Definition set_stat_num_re_tx : Z → Rpc → Rpc := ltac:(field_update Rpc_eta stat_num_re_tx_).
Definition set_mem : heap → Rpc → Rpc := ltac:(field_update Rpc_eta mem).
Definition set_hdrs : gmap Z pkthdr_t → Rpc → Rpc := ltac:(field_update Rpc_eta hdrs).
Definition set_msgbufs : gmap Z Serializer → Rpc → Rpc := ltac:(field_update Rpc_eta msgbufs).
Definition set_resp_ptrs : gmap Z sslot_ptr → Rpc → Rpc := ltac:(field_update Rpc_eta resp_ptrs).
Definition set_wire : list wire_pkt → Rpc → Rpc := ltac:(field_update Rpc_eta wire).
Definition set_events : list event → Rpc → Rpc := ltac:(field_update Rpc_eta events).

Section rpc.
(** [asserts] tells a build with assertions from one with [NDEBUG]; [malloc_ok] and
    [junk] are the allocator's. *)
Context `{TTr : Transport} (asserts : bool) (malloc_ok : Z → bool) (junk : Z → Z).
Abbreviation MR := (M Rpc).

Definition assert_d (b : bool) : MR unit := if asserts then assert_ b else mret tt.
Definition in_mem {A} (m : M heap A) : MR A := λ r,
  match m (mem r) with Ok (a, h) => Ok (a, set_mem h r) | Fault e => Fault e end.
Definition emit (e : event) : MR unit := modify (λ r, set_events (events r ++ [e]) r).

(** ** Access to sessions, slots, headers and messages *)
Definition get_session (s : nat) : MR Session :=
  r ← get; match session_vec_ r !! s with Some (Some x) => mret x | _ => throw UndefinedBehaviour end.
Definition put_session (s : nat) (x : Session) : MR unit := modify (λ r, set_session_vec (<[s := Some x]> (session_vec_ r)) r).
Definition upd_session (s : nat) (f : Session → Session) : MR unit := x ← get_session s; put_session s (f x).
Definition get_sslot (p : sslot_ptr) : MR SSlot :=
  x ← get_session p.1; match sslot_arr_ x !! p.2 with Some sl => mret sl | None => throw UndefinedBehaviour end.
Definition upd_sslot (p : sslot_ptr) (f : SSlot → SSlot) : MR unit :=
  sl ← get_sslot p; upd_session p.1 (λ x, set_sslot_arr (<[p.2 := f sl]> (sslot_arr_ x)) x).
Definition get_ci (p : sslot_ptr) : MR client_info :=
  sl ← get_sslot p; match info_ sl with ClientInfo c => mret c | ServerInfo _ => throw UndefinedBehaviour end.
Definition upd_ci (p : sslot_ptr) (f : client_info → client_info) : MR unit :=
  c ← get_ci p; upd_sslot p (set_info (ClientInfo (f c))).
Definition get_si (p : sslot_ptr) : MR server_info :=
  sl ← get_sslot p; match info_ sl with ServerInfo s => mret s | ClientInfo _ => throw UndefinedBehaviour end.
Definition upd_si (p : sslot_ptr) (f : server_info → server_info) : MR unit :=
  s ← get_si p; upd_sslot p (set_info (ServerInfo (f s))).

Definition get_hdr (a : Z) : MR pkthdr_t :=
  r ← get; match hdrs r !! a with Some h => mret h | None => throw UndefinedBehaviour end.
Definition put_hdr (a : Z) (h : pkthdr_t) : MR unit := get_hdr a ;; modify (λ r, set_hdrs (<[a := h]> (hdrs r)) r).
Definition get_msgbuf (p : Z) : MR Serializer :=
  r ← get; match msgbufs r !! p with Some s => mret s | None => throw UndefinedBehaviour end.
Definition put_msgbuf (p : Z) (s : Serializer) : MR unit := modify (λ r, set_msgbufs (<[p := s]> (msgbufs r)) r).
Definition get_ser (b : ser_ref) : MR Serializer :=
  match b with
  | UserSer p => get_msgbuf p
  | CtrlSer i => r ← get; match ctrl_serialization r !! i with Some s => mret s | None => throw UndefinedBehaviour end
  end.
Definition hdr_at (a i : Z) : Z := a + i * sizeof_pkthdr_t.
(** [Serializer::get_n_hdr] *)
Definition get_n_hdr (s : Serializer) (n : Z) : MR pkthdr_t :=
  x ← lift (iv_at (iov s) 0);
  h ← get_hdr (iov_base x);
  assert_d (n <=? total_pkt h) ;;
  x ← lift (iv_at (iov s) n);
  get_hdr (iov_base x).

(** ** The list of active RPCs

    The previous slot of the root and the next of the tail are never read. *)
Definition set_next (l : option link) (x : option link) : MR unit :=
  match l with
  | Some Root => modify (set_root_next x)
  | Some Tail => mret tt
  | Some (Slot p) => upd_ci p (set_ci_next x)
  | None => throw UndefinedBehaviour
  end.
Definition set_prev (l : option link) (x : option link) : MR unit :=
  match l with
  | Some Tail => modify (set_tail_prev x)
  | Some Root => mret tt
  | Some (Slot p) => upd_ci p (set_ci_prev x)
  | None => throw UndefinedBehaviour
  end.
Definition add_to_active_rpc_list (p : sslot_ptr) : MR unit :=
  prev_tail ← gets tail_prev;
  set_next prev_tail (Some (Slot p)) ;;
  set_prev (Some (Slot p)) prev_tail ;;
  set_next (Some (Slot p)) (Some Tail) ;;
  set_prev (Some Tail) (Some (Slot p)).
Definition delete_from_active_rpc_list (p : sslot_ptr) : MR unit :=
  c ← get_ci p;
  set_next (ci_prev c) (ci_next c) ;;
  c ← get_ci p;
  set_prev (ci_next c) (ci_prev c).

(** ** Sending: the transmit batch

    [tx_burst] sends a header and the data of its packet; a row of scatter/gather
    entries holds [kNumSge] of them. *)
Fixpoint gather (ps : list iovec) : MR (list Z) :=
  match ps with
  | [] => mret []
  | x :: ps => b ← in_mem (read_bytes (iov_base x) (iov_len x)); bs ← gather ps; mret (b ++ bs)
  end.
Definition tx_packet (it : tx_burst_item_t) : MR wire_pkt :=
  s ← get_ser (tx_buffer it);
  x ← lift (iv_front (iov s));
  get_hdr (iov_base x) ;;
  h ← get_n_hdr s (pkt_idx_ it);
  if this_msg_size h =? 0 then mret (mk_wire (tx_route it) h [])
  else
    ps ← lift (get_n_data (pkt_idx_ it) s);
    if Z.of_nat (length ps) <? kNumSge then bs ← gather ps; mret (mk_wire (tx_route it) h bs)
    else throw UndefinedBehaviour.
Fixpoint tx_burst (items : list tx_burst_item_t) : MR unit :=
  match items with
  | [] => mret tt
  | it :: items => w ← tx_packet it; modify (λ r, set_wire (wire r ++ [w]) r) ;; tx_burst items
  end.
Definition do_tx_burst_st : MR unit :=
  b ← gets tx_burst_arr_;
  assert_d (negb (bool_decide (b = []))) ;;
  tx_burst b ;;
  modify (set_tx_burst_arr []).
Definition enqueue_tx_burst (route : nat) (b : ser_ref) (pkt_idx : Z) : MR unit :=
  modify (λ r, set_tx_burst_arr (tx_burst_arr_ r ++ [mk_item route b pkt_idx]) r) ;;
  b ← gets tx_burst_arr_;
  if bool_decide (length b = kPostlist) then do_tx_burst_st else mret tt.
Definition enqueue_pkt_tx_burst_st (p : sslot_ptr) (pkt_idx : Z) : MR unit :=
  sl ← get_sslot p; enqueue_tx_burst p.1 (UserSer (tx_msgbuf_ sl)) pkt_idx.
Definition enqueue_hdr_tx_burst_st (p : sslot_ptr) (i : nat) : MR unit := enqueue_tx_burst p.1 (CtrlSer i) 0.

(** ** Helpers on packet counts *)
Definition u64 (z : Z) : Z := z mod 2 ^ 64.
Definition resp_ntoi (pkt_num num_req_pkts : Z) : Z := u64 (pkt_num - u64 (num_req_pkts - 1)).
Definition wire_pkts (req_pkg_num resp_pkg_num : Z) : Z := u64 (req_pkg_num + resp_pkg_num - 1).
Definition tx_msgbuf (p : sslot_ptr) : MR Serializer := sl ← get_sslot p; get_msgbuf (tx_msgbuf_ sl).
Definition req_pkts_pending (p : sslot_ptr) : MR bool :=
  c ← get_ci p; s ← tx_msgbuf p; mret (ci_num_tx c <? total_pkg s).
Definition bump_credits (s : nat) : MR unit :=
  x ← get_session s;
  assert_d (is_client x) ;;
  assert_d (credits_ x <? kSessionCredits) ;;
  put_session s (set_credits (u64 (credits_ x + 1)) x).
(** The slot of the control header to use, and the next one. *)
Definition next_ctrl : MR Z :=
  index ← gets ctrl_msgbuf_head_;
  let head := index + 1 in
  modify (set_ctrl_msgbuf_head (if head =? 2 * Z.of_nat kUnsigBatch then 0 else head)) ;;
  mret index.

(** ** Using credits *)
Fixpoint kick_req_loop (sending : nat) (p : sslot_ptr) : MR unit :=
  match sending with
  | O => mret tt
  | S n =>
      c ← get_ci p;
      enqueue_pkt_tx_burst_st p (ci_num_tx c) ;;
      upd_ci p (λ c, set_ci_num_tx (u64 (ci_num_tx c + 1)) c) ;;
      upd_session p.1 (λ x, set_credits (u64 (credits_ x - 1)) x) ;;
      kick_req_loop n p
  end.
Definition kick_req_st (p : sslot_ptr) : MR unit :=
  x ← get_session p.1;
  assert_d (0 <? credits_ x) ;;
  c ← get_ci p;
  s ← tx_msgbuf p;
  v ← lift (iv_at (iov s) 0);
  h ← get_hdr (iov_base v);
  let sending := Z.min (credits_ x) (u64 (total_pkt h - ci_num_tx c)) in
  kick_req_loop (Z.to_nat sending) p.

(** [enqueue_rfr_st], [resp_pkthdr] read before. *)
Definition enqueue_rfr_st (p : sslot_ptr) (resp_pkthdr : pkthdr_t) : MR unit :=
  index ← next_ctrl;
  r ← get;
  let a := hdr_at (ctrl_msgbufs_hdr r) index in
  x ← get_session p.1;
  c ← get_ci p;
  s ← tx_msgbuf p;
  h0 ← get_n_hdr s 0;
  h ← get_hdr a;
  put_hdr a (fill_hdr (req_type_ resp_pkthdr) 0 (remote_session_num_ x) kRFR (ci_num_tx c - total_pkt h0 + 1) (req_num_ resp_pkthdr) (lkey h) 0 h) ;;
  enqueue_hdr_tx_burst_st p (Z.to_nat index).
Fixpoint kick_rfr_loop (sending : nat) (p : sslot_ptr) (pkthdr : pkthdr_t) : MR unit :=
  match sending with
  | O => mret tt
  | S n =>
      enqueue_rfr_st p pkthdr ;;
      upd_ci p (λ c, set_ci_num_tx (u64 (ci_num_tx c + 1)) c) ;;
      upd_session p.1 (λ x, set_credits (u64 (credits_ x - 1)) x) ;;
      kick_rfr_loop n p pkthdr
  end.
(** Without a header, as the stall queue calls it, the header is a null pointer. *)
Definition kick_rfr_st (p : sslot_ptr) (pkthdr : option pkthdr_t) : MR unit :=
  x ← get_session p.1;
  assert_d (0 <? credits_ x) ;;
  c ← get_ci p;
  s ← tx_msgbuf p;
  h0 ← get_n_hdr s 0;
  match pkthdr with
  | None => throw UndefinedBehaviour
  | Some h =>
      let rfr_pndng := u64 (wire_pkts (total_pkt h0) (total_pkt h) - ci_num_tx c) in
      kick_rfr_loop (Z.to_nat (Z.min (credits_ x) rfr_pndng)) p h
  end.

Fixpoint stall_queue_loop (q : list sslot_ptr) : MR (list sslot_ptr) :=
  match q with
  | [] => mret []
  | p :: q =>
      x ← get_session p.1;
      if 0 <? credits_ x then
        pending ← req_pkts_pending p;
        (if pending : bool then kick_req_st p else kick_rfr_st p None) ;;
        stall_queue_loop q
      else rest ← stall_queue_loop q; mret (p :: rest)
  end.
Definition process_credit_stall_queue_st : MR unit :=
  q ← gets stallq_; q ← stall_queue_loop q; modify (set_stallq q).

(** ** Requests: the client's side

    The headers of the packets of a message, from the first one. *)
Fixpoint copy_headers (n : nat) (pkthdr i : Z) : MR unit :=
  match n with
  | O => mret tt
  | S n => h ← get_hdr pkthdr; put_hdr (hdr_at pkthdr i) (set_pkt_num i h) ;; copy_headers n pkthdr (i + 1)
  end.
(** Headers for all packets, the size of the last one, and their iovecs in front of
    the message.  A header that finds no room is only reported. *)
Definition add_headers (msgbuf pkthdr : Z) : MR unit :=
  h ← get_hdr pkthdr;
  copy_headers (Z.to_nat (total_pkt h - 1)) pkthdr 1 ;;
  h ← get_hdr pkthdr;
  let last := hdr_at pkthdr (total_pkt h - 1) in
  hl ← get_hdr last;
  put_hdr last (set_this_msg_size (msg_size_ h mod kMaxDataPerPkt) hl) ;;
  h ← get_hdr pkthdr;
  s ← get_msgbuf msgbuf;
  s ← lift (push_headers ((λ i, mk_iovec (hdr_at pkthdr (Z.of_nat i)) sizeof_pkthdr_t) <$> seq 0 (Z.to_nat (total_pkt h))) s);
  put_msgbuf msgbuf s.

(** [sslot_free_vec_], a vector of at most [kSessionReqWindow] indexes. *)
Definition pop_free (s : nat) : MR nat :=
  x ← get_session s;
  match sslot_free_vec_ x with
  | [] => throw UndefinedBehaviour
  | i :: l => put_session s (set_free_vec l x) ;; mret (Z.to_nat i)
  end.
Definition push_free (s : nat) (i : Z) : MR unit :=
  x ← get_session s;
  if Z.of_nat (length (sslot_free_vec_ x)) <? kSessionReqWindow then put_session s (set_free_vec (i :: sslot_free_vec_ x) x)
  else if asserts then throw AssertFailed else throw UndefinedBehaviour.

Definition enqueue_request (session_num req_type req_msgbuf resp_msgbuf cont_func tag _lkey pkthdr context cont_etid : Z) : MR unit :=
  let s := Z.to_nat session_num in
  x ← get_session s;
  assert_d (is_connected x) ;;
  if bool_decide (sslot_free_vec_ x = []) then
    put_session s (set_backlog (enq_req_backlog_ x ++ [mk_args session_num req_type req_msgbuf resp_msgbuf cont_func tag cont_etid]) x)
  else
    i ← pop_free s;
    let p := (s, i) in
    sl ← get_sslot p;
    assert_d (tx_msgbuf_ sl =? 0) ;;
    upd_sslot p (λ sl, set_cur_req_num (u64 (cur_req_num_ sl + kSessionReqWindow)) (set_tx_msgbuf req_msgbuf sl)) ;;
    (if context =? 0 then mret tt else upd_sslot p (set_sslot_c context)) ;;
    tsc ← gets ev_loop_tsc_;
    upd_ci p (set_ci_request resp_msgbuf cont_func tag tsc cont_etid) ;;
    add_to_active_rpc_list p ;;
    h ← get_hdr pkthdr;
    m ← get_msgbuf req_msgbuf;
    size ← lift (iv_sum (iov m));
    sl ← get_sslot p;
    put_hdr pkthdr (fill_hdr req_type size (remote_session_num_ x) kReq 0 (cur_req_num_ sl) _lkey kMaxDataPerPkt h) ;;
    add_headers req_msgbuf pkthdr ;;
    x ← get_session s;
    if 0 <? credits_ x then kick_req_st p else modify (λ r, set_stallq (stallq_ r ++ [p]) r).

(** ** Credit returns *)
Definition sizeof_ctrl_buffer : Z := 24.
Definition enqueue_cr_st (p : sslot_ptr) (req_pkthdr : pkthdr_t) : MR unit :=
  index ← next_ctrl;
  r ← get;
  let a := hdr_at (ctrl_msgbufs_hdr r) index in
  x ← get_session p.1;
  h ← get_hdr a;
  put_hdr a (fill_hdr (req_type_ req_pkthdr) sizeof_ctrl_buffer (remote_session_num_ x) kExplCR (pkt_num_ req_pkthdr) (req_num_ req_pkthdr) (lkey h) 0 h) ;;
  enqueue_hdr_tx_burst_st p (Z.to_nat index).
Definition process_expl_cr_st (p : sslot_ptr) (pkthdr : pkthdr_t) : MR unit :=
  sl ← get_sslot p;
  assert_d (req_num_ pkthdr <=? cur_req_num_ sl) ;;
  bump_credits p.1 ;;
  tsc ← gets ev_loop_tsc_;
  upd_ci p (set_ci_progress tsc) ;;
  pending ← req_pkts_pending p;
  if pending : bool then kick_req_st p else mret tt.

(** ** Requests: the server's side

    The request is kept as iovecs of the receive ring in [dyn_resp_msgbuf_]. *)
Definition upd_dyn_iov (p : sslot_ptr) (v : iovector) : MR unit :=
  upd_sslot p (λ sl, set_dyn_resp (set_iov v (dyn_resp_msgbuf_ sl)) sl).
Definition reset_dyn_iov (p : sslot_ptr) : MR unit :=
  sl ← get_sslot p; upd_dyn_iov p (set_iov_end 0 (set_iov_begin 0 (iov (dyn_resp_msgbuf_ sl)))).
Definition dyn_push_back (p : sslot_ptr) (body size : Z) : MR Z :=
  sl ← get_sslot p;
  q ← lift (push_back_buf body size (iov (dyn_resp_msgbuf_ sl)));
  upd_dyn_iov p q.2 ;; mret q.1.
(** Request metadata for [enqueue_response], then the handler. *)
Definition set_req_type (p : sslot_ptr) (req_type : Z) : MR ReqFunc :=
  r ← get;
  let f := req_func_arr_ r req_type in
  i ← get_si p;
  assert_d (si_req_type i =? kInvalidReqType) ;;
  upd_si p (λ i, set_si_req_func_type (req_func_type_ f) (set_si_req_type req_type i)) ;;
  mret f.
Definition process_small_req_st (p : sslot_ptr) (pkthdr : pkthdr_t) (body : Z) : MR unit :=
  sl ← get_sslot p;
  assert_d (req_num_ pkthdr =? u64 (cur_req_num_ sl + kSessionReqWindow)) ;;
  upd_sslot p (set_cur_req_num (req_num_ pkthdr)) ;;
  upd_si p (set_si_num_rx 1) ;;
  f ← set_req_type p (req_type_ pkthdr);
  if is_background f then mret tt
  else
    reset_dyn_iov p ;;
    dyn_push_back p body (msg_size_ pkthdr) ;;
    emit (Invoke (req_func_ f) p).

(** [req_msgbuf.iov.back()] of an empty vector is what lies before its array: the
    pointer [pre_req] and the four counters of the vector itself. *)
Definition stray_back (sl : SSlot) : iovec :=
  let v := iov (dyn_resp_msgbuf_ sl) in
  mk_iovec (pre_req sl) (capacity v + 2 ^ 16 * iov_begin v + 2 ^ 32 * iov_end v + 2 ^ 48 * nbases v).
Definition back_or_stray (sl : SSlot) : outcome iovec :=
  let v := iov (dyn_resp_msgbuf_ sl) in
  if iov_end v =? 0 then do_assert v ;; Ok (stray_back sl) else iv_back v.
Definition grow_back (size : Z) (v : iovector) : outcome iovector :=
  if iov_end v =? 0 then Fault UndefinedBehaviour
  else x ← iv_back v; l ← arr_set (iovs v) (iov_end v - 1) (mk_iovec (iov_base x) (iov_len x + size)); Ok (set_iovs l v).
(** The data of a packet joins the request; false when there is no room for it. *)
Definition append_req_pkt (p : sslot_ptr) (body size : Z) : MR bool :=
  sl ← get_sslot p;
  b ← lift (back_or_stray sl);
  if iov_base b + iov_len b =? body then v ← lift (grow_back size (iov (dyn_resp_msgbuf_ sl))); upd_dyn_iov p v ;; mret true
  else n ← dyn_push_back p body size; mret (n =? size).
Definition process_large_req_one_st (p : sslot_ptr) (pkthdr : pkthdr_t) (body : Z) : MR unit :=
  (if pkt_num_ pkthdr =? 0 then
     reset_dyn_iov p ;; upd_sslot p (set_cur_req_num (req_num_ pkthdr)) ;; upd_si p (set_si_num_rx 1)
   else upd_si p (λ i, set_si_num_rx (u64 (si_num_rx i + 1)) i)) ;;
  (if pkt_num_ pkthdr =? total_pkt pkthdr - 1 then mret tt else enqueue_cr_st p pkthdr) ;;
  ok ← append_req_pkt p body (this_msg_size pkthdr);
  if negb ok then mret tt
  else
    i ← get_si p;
    if negb (si_num_rx i =? total_pkt pkthdr) then mret tt
    else
      f ← set_req_type p (req_type_ pkthdr);
      if is_background f then emit (SubmitBgReq p) else emit (Invoke (req_func_ f) p).

(** ** Responses: the server's side *)
Definition enqueue_response (p : sslot_ptr) (resp_msgbuf _lkey pkthdr context : Z) : MR unit :=
  (if context =? 0 then mret tt else upd_sslot p (set_sslot_c context)) ;;
  upd_si p (set_si_sav 1) ;;
  x ← get_session p.1;
  if negb (is_connected x) then
    assert_d (bool_decide (state_ x = kResetInProgress)) ;;
    i ← get_si p;
    assert_d (negb (si_req_type i =? kInvalidReqType)) ;;
    upd_si p (set_si_req_type kInvalidReqType)
  else
    h ← get_hdr pkthdr;
    m ← get_msgbuf resp_msgbuf;
    size ← lift (iv_sum (iov m));
    i ← get_si p;
    sl ← get_sslot p;
    put_hdr pkthdr (fill_hdr (si_req_type i) size (remote_session_num_ x) kResp (si_sav_num_req_pkts i - 1) (cur_req_num_ sl) _lkey kMaxDataPerPkt h) ;;
    add_headers resp_msgbuf pkthdr ;;
    assert_d (tx_msgbuf_ sl =? 0) ;;
    upd_sslot p (set_tx_msgbuf resp_msgbuf) ;;
    assert_d (negb (si_req_type i =? kInvalidReqType)) ;;
    upd_si p (set_si_req_type kInvalidReqType) ;;
    enqueue_pkt_tx_burst_st p 0.
Definition process_rfr_st (p : sslot_ptr) (pkthdr : pkthdr_t) : MR unit :=
  sl ← get_sslot p;
  assert_d (negb (is_client_ sl)) ;;
  assert_d (req_num_ pkthdr <=? cur_req_num_ sl) ;;
  upd_si p (λ i, set_si_num_rx (u64 (si_num_rx i + 1)) i) ;;
  i ← get_si p;
  enqueue_pkt_tx_burst_st p (resp_ntoi (pkt_num_ pkthdr) (si_sav_num_req_pkts i)).

(** ** Responses: the client's side

    [new uint8_t[n]], which ends the program when there is no memory. *)
Definition new_array (n : Z) : MR Z :=
  a ← in_mem (malloc malloc_ok junk n); if a =? 0 then throw AssertFailed else mret a.
(** A packet of a large response is copied to a buffer that the first one allocates. *)
Definition copy_resp_pkt (p : sslot_ptr) (pkthdr : pkthdr_t) (body : Z) : MR unit :=
  (if pkt_num_ pkthdr =? 0 then upd_sslot p (λ sl, set_dyn_resp (ser_clear (dyn_resp_msgbuf_ sl)) sl) ;; reset_dyn_iov p else mret tt) ;;
  sl ← get_sslot p;
  let v := iov (dyn_resp_msgbuf_ sl) in
  if (iov_begin v =? 0) && (iov_end v =? 0) then
    buff ← new_array (msg_size_ pkthdr);
    upd_sslot p (λ sl, set_dyn_resp (set_new_buff buff (dyn_resp_msgbuf_ sl)) sl) ;;
    dyn_push_back p body (this_msg_size pkthdr) ;;
    upd_sslot p (λ sl, set_dyn_resp (set_used_size (this_msg_size pkthdr) (dyn_resp_msgbuf_ sl)) sl) ;;
    sl ← get_sslot p;
    x ← lift (iv_front (iov (dyn_resp_msgbuf_ sl)));
    in_mem (memcpy buff (iov_base x) (this_msg_size pkthdr)) ;;
    l ← lift (arr_set (iovs (iov (dyn_resp_msgbuf_ sl))) (iov_begin (iov (dyn_resp_msgbuf_ sl))) (mk_iovec buff (msg_size_ pkthdr)));
    upd_dyn_iov p (set_iovs l (iov (dyn_resp_msgbuf_ sl)))
  else
    let d := dyn_resp_msgbuf_ sl in
    in_mem (memcpy (new_buff d + used_size d) body (this_msg_size pkthdr)) ;;
    upd_sslot p (set_dyn_resp (set_used_size (bits 32 (used_size d + this_msg_size pkthdr)) d)).
(** The whole response is here: the slot is free, a request of the backlog takes it,
    and the continuation runs.  The backlog has no header and passes [cont_etid] in
    the place of the key.  (The response pointer it passes is the address of its own
    copy of the user's; the call ends at the null header before a response could be
    written there.) *)
Definition complete_response (p : sslot_ptr) : MR unit :=
  upd_ci p (set_ci_num_rx 0) ;;
  c ← get_ci p;
  (if ci_resp_msgbuf c =? 0 then throw UndefinedBehaviour else modify (λ r, set_resp_ptrs (<[ci_resp_msgbuf c := p]> (resp_ptrs r)) r)) ;;
  assert_d (ci_wheel_count c =? 0) ;;
  upd_sslot p (set_tx_msgbuf 0) ;;
  delete_from_active_rpc_list p ;;
  sl ← get_sslot p;
  push_free p.1 (index_ sl) ;;
  x ← get_session p.1;
  match enq_req_backlog_ x with
  | [] => mret tt
  | a :: _ =>
      assert_d (bool_decide (length (sslot_free_vec_ x) = 1%nat)) ;;
      enqueue_request (ea_session_num a) (ea_req_type a) (ea_req_msgbuf a) (ea_resp_msgbuf a) (ea_cont_func a) (ea_tag a) (ea_cont_etid a) 0 0 kInvalidBgETid ;;
      upd_session p.1 (λ x, set_backlog (tail (enq_req_backlog_ x)) x)
  end ;;
  emit (if ci_cont_etid c =? kInvalidBgETid then Continue (ci_cont_func c) (ci_tag c) p
        else SubmitBgResp (ci_cont_func c) (ci_tag c) (ci_cont_etid c)).
Definition process_resp_one_st (p : sslot_ptr) (pkthdr : pkthdr_t) (body : Z) : MR unit :=
  sl ← get_sslot p;
  assert_d (req_num_ pkthdr <=? cur_req_num_ sl) ;;
  bump_credits p.1 ;;
  tsc ← gets ev_loop_tsc_;
  upd_ci p (λ c, set_ci_progress tsc (set_ci_num_rx (u64 (ci_num_rx c + 1)) c)) ;;
  if msg_size_ pkthdr <=? kMaxDataPerPkt then
    reset_dyn_iov p ;;
    dyn_push_back p body (this_msg_size pkthdr) ;;
    complete_response p
  else
    c ← get_ci p;
    s ← tx_msgbuf p;
    h0 ← get_n_hdr s 0;
    (if ci_num_tx c =? wire_pkts (total_pkt h0) (total_pkt pkthdr) then mret tt else kick_rfr_st p (Some pkthdr)) ;;
    copy_resp_pkt p pkthdr body ;;
    c ← get_ci p;
    if ci_num_rx c =? total_pkt pkthdr then complete_response p else mret tt.

(** ** Receiving

    The transport has put the data of a packet into the next entry of the receive
    ring. *)
Definition rx_body (bs : list Z) : MR Z :=
  r ← get;
  body ← lift (arr_get (rx_ring_ r) (rx_ring_head_ r));
  in_mem (write_bytes body bs) ;;
  let head := rx_ring_head_ r + 1 in
  modify (set_rx_ring_head (if head =? Z.of_nat (length (rx_ring_ r)) then 0 else head)) ;;
  mret body.
Definition dispatch (p : sslot_ptr) (pkthdr : pkthdr_t) (body : Z) : MR unit :=
  match pkt_type_ pkthdr with
  | kReq => if msg_size_ pkthdr <=? kMaxDataPerPkt then process_small_req_st p pkthdr body else process_large_req_one_st p pkthdr body
  | kResp => process_resp_one_st p pkthdr body
  | kRFR => process_rfr_st p pkthdr
  | kExplCR => process_expl_cr_st p pkthdr
  end.
Definition process_pkt (pkthdr : pkthdr_t) (bs : list Z) : MR unit :=
  body ← rx_body bs;
  assert_d (msg_size_ pkthdr <=? kMaxMsgSize) ;;
  r ← get;
  let s := Z.to_nat (dest_session_num_ pkthdr) in
  match session_vec_ r !! s with
  | Some (Some x) =>
      if is_connected x then dispatch (s, Z.to_nat (req_num_ pkthdr mod kSessionReqWindow)) pkthdr body else mret tt
  | _ => mret tt
  end.
Definition process_comps_st (pkts : list (pkthdr_t * list Z)) : MR unit := for_each pkts (λ q, process_pkt q.1 q.2).

(** One iteration of the event loop, at time [tsc], when the transport delivers
    [pkts]. *)
Definition run_event_loop_do_one_st (tsc : Z) (pkts : list (pkthdr_t * list Z)) : MR unit :=
  modify (set_ev_loop_tsc tsc) ;;
  process_comps_st pkts ;;
  process_credit_stall_queue_st ;;
  b ← gets tx_burst_arr_;
  if bool_decide (b = []) then mret tt else do_tx_burst_st.

(** ** Packet loss *)
Definition drain_tx_batch : MR unit :=
  b ← gets tx_burst_arr_; if bool_decide (b = []) then mret tt else do_tx_burst_st.
Definition pkt_loss_retransmit_st (p : sslot_ptr) : MR unit :=
  sl ← get_sslot p;
  assert_d (negb (tx_msgbuf_ sl =? 0)) ;;
  c ← get_ci p;
  x ← get_session p.1;
  let delta := u64 (ci_num_tx c - ci_num_rx c) in
  assert_d (u64 (credits_ x + delta) <=? kSessionCredits) ;;
  if delta =? 0 then mret tt
  else
    q ← gets stallq_;
    assert_d (negb (bool_decide (p ∈ q))) ;;
    if 0 <? ci_wheel_count c then mret tt
    else
      modify (λ r, set_stat_num_re_tx (stat_num_re_tx_ r + 1) r) ;;
      upd_session p.1 (λ x, set_credits (u64 (credits_ x + delta)) (set_num_re_tx (num_re_tx_ x + 1) x)) ;;
      tsc ← gets ev_loop_tsc_;
      upd_ci p (λ c, set_ci_progress tsc (set_ci_num_tx (ci_num_rx c) c)) ;;
      pending ← req_pkts_pending p;
      if pending : bool then kick_req_st p else mret tt.
(** The scan over the active RPCs; the part for session management is left out. *)
Fixpoint pkt_loss_scan_loop (fuel : nat) (cur : option link) : MR unit :=
  match fuel with
  | O => throw OutOfFuel
  | S fuel =>
      match cur with
      | Some Tail => mret tt
      | Some (Slot p) =>
          c ← get_ci p;
          r ← get;
          (if negb (ci_num_tx c =? ci_num_rx c) && (rpc_rto_cycles_ r <? u64 (ev_loop_tsc_ r - ci_progress_tsc c)) then
             pkt_loss_retransmit_st p ;; drain_tx_batch
           else mret tt) ;;
          c ← get_ci p;
          pkt_loss_scan_loop fuel (ci_next c)
      | _ => throw UndefinedBehaviour
      end
  end.
Definition pkt_loss_scan_st (fuel : nat) : MR unit := cur ← gets root_next; pkt_loss_scan_loop fuel cur.
End rpc.

(** ** Creation

    Control headers, of which only [lkey] is set, and a control buffer in front of
    each; the arrays are those of zeroed vectors. *)
Fixpoint ctrl_headers `{Transport} (n : nat) (a key : Z) (fresh : pkthdr_t) : gmap Z pkthdr_t :=
  match n with
  | O => ∅
  | S n => <[a := mk_pkthdr (req_type_ fresh) (msg_size_ fresh) (dest_session_num_ fresh) (pkt_type_ fresh) (pkt_num_ fresh) (req_num_ fresh) (magic_ fresh)
                    (bits 32 key) (total_pkt fresh) (this_msg_size fresh)]> (ctrl_headers n (a + sizeof_pkthdr_t) key fresh)
  end.
Definition ctrl_serializer `{Transport} (a : Z) : outcome Serializer :=
  let s := new_Serializer (iovs zero_iovector) (iovs zero_iovector) (replicate 2000 0) in
  r ← push_front (mk_iovec a sizeof_pkthdr_t) (set_iov_end 1 (set_iov_begin 1 (iov s)));
  Ok (set_iov r.2 s).
Fixpoint ctrl_serializers `{Transport} (n : nat) (a : Z) : outcome (list Serializer) :=
  match n with
  | O => Ok []
  | S n => s ← ctrl_serializer a; l ← ctrl_serializers n (a + sizeof_pkthdr_t); Ok (s :: l)
  end.
(** For a transport with the ring [ring], request handlers [funcs], a retransmission
    timeout [rto], and control headers at [hdr]. *)
Definition new_Rpc `{Transport} (ring : list Z) (funcs : Z → ReqFunc) (rto hdr key : Z) (fresh : pkthdr_t) (m : heap) : outcome Rpc :=
  l ← ctrl_serializers (2 * kUnsigBatch) hdr;
  Ok (mk_rpc [] [] ring 0 [] 0 rto (Some Tail) (Some Root) hdr l 0 funcs 0 m (ctrl_headers (2 * kUnsigBatch) hdr key fresh) ∅ ∅ [] []).
