(* ===== verification/RpcState.v ===== *)
(** * Rules for the primitives of an endpoint

    Reading and writing sessions, slots, headers and messages; what a packet of the
    transmit batch stands for, and how the batch grows and is sent. *)

From S2P Require Import Prelude IoVector IoVectorSpec IoVectorClass IoVectorOps Serializer RpcTypes Rpc.

(** ** Slots in a state *)
Definition at_session (r : Rpc) (s : nat) (x : Session) : Prop := session_vec_ r !! s = Some (Some x).
Definition at_slot (r : Rpc) (p : sslot_ptr) (x : Session) (sl : SSlot) : Prop := at_session r p.1 x ∧ sslot_arr_ x !! p.2 = Some sl.
Definition at_client (r : Rpc) (p : sslot_ptr) (x : Session) (sl : SSlot) (c : client_info) : Prop := at_slot r p x sl ∧ info_ sl = ClientInfo c.
Definition at_server (r : Rpc) (p : sslot_ptr) (x : Session) (sl : SSlot) (i : server_info) : Prop := at_slot r p x sl ∧ info_ sl = ServerInfo i.

(** A session, or a slot of it, replaced. *)
Definition st_session (s : nat) (x : Session) (r : Rpc) : Rpc := set_session_vec (<[s := Some x]> (session_vec_ r)) r.
Definition with_slot (i : nat) (sl : SSlot) (x : Session) : Session := set_sslot_arr (<[i := sl]> (sslot_arr_ x)) x.
Definition st_slot (p : sslot_ptr) (x : Session) (sl : SSlot) (r : Rpc) : Rpc := st_session p.1 (with_slot p.2 sl x) r.

Section states.
Implicit Types (r : Rpc) (p : sslot_ptr) (x : Session) (sl : SSlot) (c : client_info) (i : server_info).

Lemma at_st_session r s x y : at_session r s y → at_session (st_session s x r) s x.
Proof. intros H. unfold at_session, st_session. cbn. apply list_lookup_insert_eq. by eapply lookup_lt_Some. Qed.
Lemma at_st_slot r p x sl sl' : at_slot r p x sl → at_slot (st_slot p x sl' r) p (with_slot p.2 sl' x) sl'.
Proof.
  intros [H1 H2]. split; [by eapply at_st_session|]. cbn. apply list_lookup_insert_eq. by eapply lookup_lt_Some.
Qed.
Lemma at_client_slot r p x sl c c' : at_client r p x sl c →
  at_client (st_slot p x (set_info (ClientInfo c') sl) r) p (with_slot p.2 (set_info (ClientInfo c') sl) x) (set_info (ClientInfo c') sl) c'.
Proof. intros [H _]. split; [by eapply at_st_slot|done]. Qed.
Lemma at_server_slot r p x sl i i' : at_server r p x sl i →
  at_server (st_slot p x (set_info (ServerInfo i') sl) r) p (with_slot p.2 (set_info (ServerInfo i') sl) x) (set_info (ServerInfo i') sl) i'.
Proof. intros [H _]. split; [by eapply at_st_slot|done]. Qed.
Lemma at_client_session r p x sl c y : at_client r p x sl c → sslot_arr_ y = sslot_arr_ x → at_client (st_session p.1 y r) p y sl c.
Proof. intros [[H1 H2] H3] Hy. split; [|done]. split; [by eapply at_st_session|by rewrite Hy]. Qed.
Lemma at_slot_eq r r' p x sl : session_vec_ r' = session_vec_ r → at_slot r p x sl → at_slot r' p x sl.
Proof. unfold at_slot, at_session. by intros ->. Qed.

(** ** Rules *)
Context `{TTr : Transport} (asserts : bool) (F : fault → Prop).
Implicit Types (Q : unit → Rpc → Prop).

Lemma wq_assert_d (b : bool) Q r : (asserts = true → b = true) → Q tt r → wq F (assert_d asserts b) Q r.
Proof. unfold assert_d. intros Hb HQ. destruct asserts; [|done]. by rewrite Hb. Qed.
Lemma wq_get_session s x (Q : Session → Rpc → Prop) r : at_session r s x → Q x r → wq F (get_session s) Q r.
Proof. intros H HQ. unfold get_session. wstep. wstep. rewrite H. by wstep. Qed.
Lemma wq_put_session s x Q r : Q tt (st_session s x r) → wq F (put_session s x) Q r.
Proof. intros HQ. unfold put_session. by wstep. Qed.
Lemma wq_upd_session s x f Q r : at_session r s x → Q tt (st_session s (f x) r) → wq F (upd_session s f) Q r.
Proof. intros H HQ. unfold upd_session. wstep. eapply wq_get_session; [done|]. by apply wq_put_session. Qed.
Lemma wq_get_sslot p x sl (Q : SSlot → Rpc → Prop) r : at_slot r p x sl → Q sl r → wq F (get_sslot p) Q r.
Proof. intros [H1 H2] HQ. unfold get_sslot. wstep. eapply wq_get_session; [done|]. rewrite H2. by wstep. Qed.
Lemma wq_upd_sslot p x sl f Q r : at_slot r p x sl → Q tt (st_slot p x (f sl) r) → wq F (upd_sslot p f) Q r.
Proof.
  intros H HQ. unfold upd_sslot. wstep. eapply wq_get_sslot; [done|]. destruct H as [H1 H2].
  eapply wq_upd_session; [done|]. exact HQ.
Qed.
Lemma wq_get_ci p x sl c (Q : client_info → Rpc → Prop) r : at_client r p x sl c → Q c r → wq F (get_ci p) Q r.
Proof. intros [H1 H2] HQ. unfold get_ci. wstep. eapply wq_get_sslot; [done|]. rewrite H2. by wstep. Qed.
Lemma wq_upd_ci p x sl c f Q r : at_client r p x sl c → Q tt (st_slot p x (set_info (ClientInfo (f c)) sl) r) → wq F (upd_ci p f) Q r.
Proof. intros H HQ. unfold upd_ci. wstep. eapply wq_get_ci; [done|]. eapply wq_upd_sslot; [apply H|]. done. Qed.
Lemma wq_get_si p x sl i (Q : server_info → Rpc → Prop) r : at_server r p x sl i → Q i r → wq F (get_si p) Q r.
Proof. intros [H1 H2] HQ. unfold get_si. wstep. eapply wq_get_sslot; [done|]. rewrite H2. by wstep. Qed.
Lemma wq_upd_si p x sl i f Q r : at_server r p x sl i → Q tt (st_slot p x (set_info (ServerInfo (f i)) sl) r) → wq F (upd_si p f) Q r.
Proof. intros H HQ. unfold upd_si. wstep. eapply wq_get_si; [done|]. eapply wq_upd_sslot; [apply H|]. done. Qed.

Lemma wq_get_hdr a h (Q : pkthdr_t → Rpc → Prop) r : hdrs r !! a = Some h → Q h r → wq F (get_hdr a) Q r.
Proof. intros H HQ. unfold get_hdr. wstep. wstep. rewrite H. by wstep. Qed.
Lemma wq_put_hdr a h Q r : is_Some (hdrs r !! a) → Q tt (set_hdrs (<[a := h]> (hdrs r)) r) → wq F (put_hdr a h) Q r.
Proof. intros [h' H] HQ. unfold put_hdr. wstep. eapply wq_get_hdr; [done|]. by wstep. Qed.
Lemma wq_get_msgbuf a s (Q : Serializer → Rpc → Prop) r : msgbufs r !! a = Some s → Q s r → wq F (get_msgbuf a) Q r.
Proof. intros H HQ. unfold get_msgbuf. wstep. wstep. rewrite H. by wstep. Qed.
Lemma wq_in_mem {A} (m : M heap A) (Q : A → Rpc → Prop) r : wq F m (λ a h, Q a (set_mem h r)) (mem r) → wq F (in_mem m) Q r.
Proof. unfold wq, in_mem. by destruct (m (mem r)) as [[]|]. Qed.
Lemma wq_tx_msgbuf p x sl s (Q : Serializer → Rpc → Prop) r :
  at_slot r p x sl → msgbufs r !! tx_msgbuf_ sl = Some s → Q s r → wq F (tx_msgbuf p) Q r.
Proof. intros H Hs HQ. unfold tx_msgbuf. wstep. eapply wq_get_sslot; [done|]. by eapply wq_get_msgbuf. Qed.
Lemma wq_lift_ok {A} (o : outcome A) a (Q : A → Rpc → Prop) r : o = Ok a → Q a r → wq F (lift o) Q r.
Proof. by intros ->. Qed.
Lemma wq_get_n_hdr s n (v0 vn : iovec) h0 h (Q : pkthdr_t → Rpc → Prop) r :
  iv_at (iov s) 0 = Ok v0 → hdrs r !! iov_base v0 = Some h0 → n ≤ total_pkt h0 →
  iv_at (iov s) n = Ok vn → hdrs r !! iov_base vn = Some h → Q h r → wq F (get_n_hdr asserts s n) Q r.
Proof.
  intros H0 Hh0 Hn Hx Hh HQ. unfold get_n_hdr. wstep. eapply wq_lift_ok; [done|]. wstep. eapply wq_get_hdr; [done|].
  wstep. apply wq_assert_d; [intros _; by apply Z.leb_le|]. wstep. eapply wq_lift_ok; [done|]. by eapply wq_get_hdr.
Qed.
End states.

(** ** Packets of the batch

    The packet an item stands for in a state. *)
Definition ser_of (r : Rpc) (b : ser_ref) : option Serializer :=
  match b with UserSer p => msgbufs r !! p | CtrlSer i => ctrl_serialization r !! i end.
Definition item_pkt `{Transport} (r : Rpc) (it : tx_burst_item_t) (w : wire_pkt) : Prop :=
  ∃ s v0 h0 vn, ser_of r (tx_buffer it) = Some s ∧ iv_at (iov s) 0 = Ok v0 ∧ hdrs r !! iov_base v0 = Some h0 ∧ pkt_idx_ it ≤ total_pkt h0 ∧
    iv_at (iov s) (pkt_idx_ it) = Ok vn ∧ hdrs r !! iov_base vn = Some (w_hdr w) ∧ w_route w = tx_route it ∧
    (if this_msg_size (w_hdr w) =? 0 then w_body w = []
     else ∃ ps, get_n_data (pkt_idx_ it) s = Ok ps ∧ Z.of_nat (length ps) < kNumSge ∧ data (bytes (mem r)) ps = Some (w_body w)).
(** What was sent and what is about to be. *)
Definition out `{Transport} (r : Rpc) (l : list wire_pkt) : Prop :=
  ∃ ws, Forall2 (item_pkt r) (tx_burst_arr_ r) ws ∧ l = wire r ++ ws.
Definition st_tx (b : list tx_burst_item_t) (w : list wire_pkt) (r : Rpc) : Rpc := set_wire w (set_tx_burst_arr b r).

Section batch.
Context `{TTr : Transport} (asserts : bool).
Implicit Types (r : Rpc) (w : wire_pkt) (l : list wire_pkt).

(** An item depends on its message, on the headers and on the bytes of its data. *)
Lemma item_pkt_ext r r' it w :
  ser_of r' (tx_buffer it) = ser_of r (tx_buffer it) → hdrs r' = hdrs r → mem r' = mem r → item_pkt r it w → item_pkt r' it w.
Proof.
  intros Hs Hh Hm (s & v0 & h0 & vn & H1 & H2 & H3 & H4 & H5 & H6 & H7 & H8). exists s, v0, h0, vn.
  rewrite Hs, Hh, Hm. done.
Qed.
Lemma gather_ok ps bs r : data (bytes (mem r)) ps = Some bs → gather ps r = Ok (bs, r).
Proof.
  revert bs. induction ps as [|v ps IH]; intros bs Hd; [by injection Hd as <-|].
  apply data_cons in Hd as (b & ds & Hb & Hd & ->). cbn [gather]. unfold mbind, M_bind, in_mem, read_bytes, get. unfold mbind, M_bind. rewrite Hb. cbn.
  destruct r; cbn in *. unfold set_mem; cbn. by rewrite (IH ds Hd).
Qed.
Lemma iv_at_front v x : iv_at v 0 = Ok x → iv_front v = Ok x.
Proof.
  unfold iv_at, iv_front, assert_o. destruct (do_assert v) as [[]|]; [|done]. cbn. rewrite Z.add_0_r. by destruct (iov_begin v <? iov_end v).
Qed.
Lemma tx_packet_ok r it w : item_pkt r it w → tx_packet asserts it r = Ok (w, r).
Proof.
  intros (s & v0 & h0 & vn & H1 & H2 & H3 & H4 & H5 & H6 & H7 & H8).
  cut (wp (tx_packet asserts it) (λ w' r', w' = w ∧ r' = r) r); [by intros (w' & r' & -> & -> & ->)%wp_iff|].
  unfold tx_packet. wstep. assert (Hser : wp (get_ser (tx_buffer it)) (λ s' r', s' = s ∧ r' = r) r).
  { unfold get_ser, ser_of in *. destruct (tx_buffer it); [by eapply wq_get_msgbuf|]. do 2 wstep. rewrite H1. by wstep. }
  eapply wq_mono; [exact Hser|]. intros ? ? [-> ->]. wstep. eapply wq_lift_ok; [by apply iv_at_front|]. wstep.
  eapply wq_get_hdr; [done|]. wstep. eapply wq_get_n_hdr; [done..|]. destruct w as [rt h bs]. cbn in *. destruct (this_msg_size h =? 0).
  { wstep. by subst. }
  destruct H8 as (ps & Hps & Hlen & Hd). wstep. eapply wq_lift_ok; [done|]. rewrite (proj2 (Z.ltb_lt _ _) Hlen). wstep.
  unfold wq. rewrite (gather_ok ps bs r Hd). by subst.
Qed.
Lemma tx_burst_ok r items ws : Forall2 (item_pkt r) items ws → tx_burst asserts items r = Ok (tt, set_wire (wire r ++ ws) r).
Proof.
  revert r ws. induction items as [|it items IH]; intros r ws Hf; inversion Hf as [|? w ? ws' Hi Hf']; subst.
  - cbn. rewrite app_nil_r. by destruct r.
  - cbn [tx_burst]. unfold mbind, M_bind. rewrite (tx_packet_ok r it w Hi). unfold modify.
    rewrite (IH _ ws'); [|by eapply Forall2_impl; [exact Hf'|intros ? ?; by apply item_pkt_ext]]. cbn. by rewrite <- app_assoc.
Qed.
Lemma out_nil r l : out r l → tx_burst_arr_ r = [] → l = wire r.
Proof. intros (ws & Hf & ->) Hb. rewrite Hb in Hf. inversion Hf; subst. apply app_nil_r. Qed.

Lemma wp_drain r l Q : out r l → Q tt (st_tx [] l r) → wp (drain_tx_batch asserts) Q r.
Proof.
  intros (ws & Hf & ->) HQ. unfold drain_tx_batch, do_tx_burst_st. do 2 wstep.
  destruct (decide (tx_burst_arr_ r = [])) as [Hb|Hb].
  - rewrite bool_decide_eq_true_2 by done. wstep. rewrite Hb in Hf. inversion Hf; subst. rewrite app_nil_r in HQ. unfold st_tx in HQ. rewrite <- Hb in HQ. by destruct r.
  - rewrite bool_decide_eq_false_2 by done. do 2 wstep. wstep. apply wq_assert_d; [by rewrite bool_decide_eq_false_2|]. wstep.
    unfold wq at 1. rewrite (tx_burst_ok r _ ws Hf). wstep. exact HQ.
Qed.
(** One more packet: it waits in the batch, or fills it. *)
Lemma wp_enqueue_tx r l route b idx w Q :
  out r l → item_pkt r (mk_item route b idx) w → (length (tx_burst_arr_ r) < kPostlist)%nat →
  (∀ bt wr, out (st_tx bt wr r) (l ++ [w]) → (length bt < kPostlist)%nat → bt = tx_burst_arr_ r ++ [mk_item route b idx] ∨ bt = [] → Q tt (st_tx bt wr r)) →
  wp (enqueue_tx_burst asserts route b idx) Q r.
Proof.
  intros (ws & Hf & ->) Hi Hlen HQ. unfold enqueue_tx_burst. do 4 wstep. cbn [set_tx_burst_arr tx_burst_arr_].
  set (bt := tx_burst_arr_ r ++ [mk_item route b idx]). set (r1 := set_tx_burst_arr bt r).
  assert (Hf1 : Forall2 (item_pkt r1) bt (ws ++ [w])).
  { apply Forall2_app; [|constructor; [|constructor]; [by apply item_pkt_ext with r]]. eapply Forall2_impl; [exact Hf|]. intros. by apply item_pkt_ext with r. }
  case_bool_decide as Hl.
  - unfold do_tx_burst_st. do 2 wstep. wstep. apply wq_assert_d; [intros _; rewrite bool_decide_eq_false_2; [done|]; cbn; unfold bt; by destruct (tx_burst_arr_ r)|].
    wstep. unfold wq at 1. change (tx_burst_arr_ r1) with bt. rewrite (tx_burst_ok r1 bt _ Hf1). wstep.
    apply (HQ [] (wire r ++ ws ++ [w])); [|cbn; lia|by right]. exists []. split; [constructor|]. cbn. by rewrite app_nil_r, <- app_assoc.
  - wstep. replace r1 with (st_tx bt (wire r) r) by by destruct r. apply HQ; [|unfold bt in *; rewrite length_app in *; cbn in *; lia|by left].
    exists (ws ++ [w]). split; [|cbn; by rewrite app_assoc]. eapply Forall2_impl; [exact Hf1|]. intros. by apply item_pkt_ext with r1.
Qed.
End batch.

(** * What an endpoint has sent and called stays

    The packets on the wire and the calls of user code are histories: every operation
    of the datapath only adds to them. *)

Definition extends (r r' : Rpc) : Prop := wire r `prefix_of` wire r' ∧ events r `prefix_of` events r'.
Definition keeps {A} (m : M Rpc A) : Prop := ∀ r a r', m r = Ok (a, r') → extends r r'.
#[global] Instance extends_preorder : PreOrder extends.
Proof. split; [by split|]. intros r1 r2 r3 [? ?] [? ?]. split; by etrans. Qed.

Create HintDb trace.

Section rules.
Lemma keeps_ret {A} (a : A) : keeps (mret a).
Proof. intros r a' r' H. injection H as <- <-. reflexivity. Qed.
Lemma keeps_bind {A B} (m : M Rpc A) (f : A → M Rpc B) : keeps m → (∀ a, keeps (f a)) → keeps (m ≫= f).
Proof.
  intros Hm Hf r b r' H. unfold mbind, M_bind in H. destruct (m r) as [[a r1]|e] eqn:E; [|done]. etrans; [by eapply Hm|by eapply Hf].
Qed.
Lemma keeps_get : keeps get.
Proof. intros r a r' H. injection H as <- <-. reflexivity. Qed.
Lemma keeps_gets {A} (f : Rpc → A) : keeps (gets f).
Proof. intros r a r' H. injection H as <- <-. reflexivity. Qed.
Lemma keeps_modify f : (∀ r, extends r (f r)) → keeps (modify f).
Proof. intros Hf r a r' H. injection H as <- <-. apply Hf. Qed.
Lemma keeps_throw {A} e : keeps (throw (A := A) e).
Proof. intros r a r' H. discriminate H. Qed.
Lemma keeps_lift {A} (o : outcome A) : keeps (lift o).
Proof. intros r a r' H. unfold lift in H. destruct o; [|done]. injection H as <- <-. reflexivity. Qed.
Lemma keeps_in_mem {A} (m : M heap A) : keeps (in_mem m).
Proof. intros r a r' H. unfold in_mem in H. destruct (m (mem r)) as [[b h]|]; [|done]. injection H as <- <-. by split. Qed.
Lemma keeps_assert asserts b : keeps (assert_d asserts b).
Proof. unfold assert_d, assert_. destruct asserts, b; (apply keeps_ret || apply keeps_throw). Qed.
End rules.
#[export] Hint Resolve keeps_ret keeps_get keeps_gets keeps_throw keeps_lift keeps_in_mem keeps_assert : trace.

(** Follows the structure of an operation; what is left are its loops. *)
Ltac keeps_tac :=
  repeat first
    [ solve [eauto with trace]
    | apply keeps_bind; [|intros ?]
    | apply keeps_modify; intros ?; split; cbn; solve [reflexivity | apply prefix_app_r; reflexivity]
    | match goal with
      | |- keeps (if ?b then _ else _) => destruct b
      | |- keeps (match ?x with _ => _ end) => destruct x
      end ].

Section trace.
Context `{TTr : Transport} (asserts : bool) (malloc_ok : Z → bool) (junk : Z → Z).

Lemma keeps_get_session s : keeps (get_session s).
Proof. unfold get_session. keeps_tac. Qed.
Lemma keeps_put_session s x : keeps (put_session s x).
Proof. unfold put_session. keeps_tac. Qed.
#[local] Hint Resolve keeps_get_session keeps_put_session : trace.
Lemma keeps_upd_session s f : keeps (upd_session s f).
Proof. unfold upd_session. keeps_tac. Qed.
Lemma keeps_get_sslot p : keeps (get_sslot p).
Proof. unfold get_sslot. keeps_tac. Qed.
#[local] Hint Resolve keeps_upd_session keeps_get_sslot : trace.
Lemma keeps_upd_sslot p f : keeps (upd_sslot p f).
Proof. unfold upd_sslot. keeps_tac. Qed.
Lemma keeps_get_ci p : keeps (get_ci p).
Proof. unfold get_ci. keeps_tac. Qed.
Lemma keeps_get_si p : keeps (get_si p).
Proof. unfold get_si. keeps_tac. Qed.
#[local] Hint Resolve keeps_upd_sslot keeps_get_ci keeps_get_si : trace.
Lemma keeps_upd_ci p f : keeps (upd_ci p f).
Proof. unfold upd_ci. keeps_tac. Qed.
Lemma keeps_upd_si p f : keeps (upd_si p f).
Proof. unfold upd_si. keeps_tac. Qed.
Lemma keeps_get_hdr a : keeps (get_hdr a).
Proof. unfold get_hdr. keeps_tac. Qed.
Lemma keeps_get_msgbuf a : keeps (get_msgbuf a).
Proof. unfold get_msgbuf. keeps_tac. Qed.
#[local] Hint Resolve keeps_upd_ci keeps_upd_si keeps_get_hdr keeps_get_msgbuf : trace.
Lemma keeps_put_hdr a h : keeps (put_hdr a h).
Proof. unfold put_hdr. keeps_tac. Qed.
Lemma keeps_get_ser b : keeps (get_ser b).
Proof. unfold get_ser. keeps_tac. Qed.
Lemma keeps_get_n_hdr s n : keeps (get_n_hdr asserts s n).
Proof. unfold get_n_hdr. keeps_tac. Qed.
Lemma keeps_tx_msgbuf p : keeps (tx_msgbuf p).
Proof. unfold tx_msgbuf. keeps_tac. Qed.
Lemma keeps_gather ps : keeps (gather ps).
Proof. induction ps; cbn [gather]; keeps_tac. Qed.
#[local] Hint Resolve keeps_put_hdr keeps_get_ser keeps_get_n_hdr keeps_tx_msgbuf keeps_gather : trace.
Lemma keeps_tx_packet it : keeps (tx_packet asserts it).
Proof. unfold tx_packet. keeps_tac. Qed.
#[local] Hint Resolve keeps_tx_packet : trace.
Lemma keeps_tx_burst l : keeps (tx_burst asserts l).
Proof. induction l; cbn [tx_burst]; keeps_tac. Qed.
#[local] Hint Resolve keeps_tx_burst : trace.
Lemma keeps_do_tx_burst : keeps (do_tx_burst_st asserts).
Proof. unfold do_tx_burst_st. keeps_tac. Qed.
#[local] Hint Resolve keeps_do_tx_burst : trace.
Lemma keeps_enqueue_tx route b i : keeps (enqueue_tx_burst asserts route b i).
Proof. unfold enqueue_tx_burst. keeps_tac. Qed.
#[local] Hint Resolve keeps_enqueue_tx : trace.
Lemma keeps_set_next l x : keeps (set_next l x).
Proof. unfold set_next. keeps_tac. Qed.
Lemma keeps_set_prev l x : keeps (set_prev l x).
Proof. unfold set_prev. keeps_tac. Qed.
#[local] Hint Resolve keeps_set_next keeps_set_prev : trace.
Lemma keeps_kick_req_loop n p : keeps (kick_req_loop asserts n p).
Proof. induction n; cbn [kick_req_loop]; unfold enqueue_pkt_tx_burst_st; keeps_tac. Qed.
#[local] Hint Resolve keeps_kick_req_loop : trace.
Lemma keeps_kick_req p : keeps (kick_req_st asserts p).
Proof. unfold kick_req_st. keeps_tac. Qed.
Lemma keeps_kick_rfr_loop n p h : keeps (kick_rfr_loop asserts n p h).
Proof. induction n; cbn [kick_rfr_loop]; unfold enqueue_rfr_st, next_ctrl, enqueue_hdr_tx_burst_st; keeps_tac. Qed.
#[local] Hint Resolve keeps_kick_req keeps_kick_rfr_loop : trace.
Lemma keeps_kick_rfr p h : keeps (kick_rfr_st asserts p h).
Proof. unfold kick_rfr_st. keeps_tac. Qed.
Lemma keeps_pending p : keeps (req_pkts_pending p).
Proof. unfold req_pkts_pending. keeps_tac. Qed.
#[local] Hint Resolve keeps_kick_rfr keeps_pending : trace.
Lemma keeps_stall_loop q : keeps (stall_queue_loop asserts q).
Proof. induction q; cbn [stall_queue_loop]; keeps_tac. Qed.
#[local] Hint Resolve keeps_stall_loop : trace.
Lemma keeps_stall_queue : keeps (process_credit_stall_queue_st asserts).
Proof. unfold process_credit_stall_queue_st. keeps_tac. Qed.
Lemma keeps_copy_headers n a i : keeps (copy_headers n a i).
Proof. revert i. induction n; intros i; cbn [copy_headers]; keeps_tac. Qed.
#[local] Hint Resolve keeps_copy_headers : trace.
Lemma keeps_add_headers m a : keeps (add_headers m a).
Proof. unfold add_headers, put_msgbuf. keeps_tac. Qed.
#[local] Hint Resolve keeps_add_headers : trace.
Lemma keeps_enqueue_request s rt m rb cf tg k h c e : keeps (enqueue_request asserts s rt m rb cf tg k h c e).
Proof. unfold enqueue_request, pop_free, add_to_active_rpc_list. keeps_tac. Qed.
Lemma keeps_enqueue_response p m k h c : keeps (enqueue_response asserts p m k h c).
Proof. unfold enqueue_response, enqueue_pkt_tx_burst_st. keeps_tac. Qed.
#[local] Hint Resolve keeps_enqueue_request : trace.
Lemma keeps_complete p : keeps (complete_response asserts p).
Proof. unfold complete_response, delete_from_active_rpc_list, push_free, emit. keeps_tac. Qed.
Lemma keeps_copy_resp p h b : keeps (copy_resp_pkt malloc_ok junk p h b).
Proof. unfold copy_resp_pkt, new_array, dyn_push_back, reset_dyn_iov, upd_dyn_iov. keeps_tac. Qed.
#[local] Hint Resolve keeps_complete keeps_copy_resp : trace.
Lemma keeps_dispatch p h b : keeps (dispatch asserts malloc_ok junk p h b).
Proof.
  unfold dispatch, process_small_req_st, process_large_req_one_st, process_resp_one_st, process_rfr_st, process_expl_cr_st, enqueue_cr_st, append_req_pkt, next_ctrl,
    set_req_type, dyn_push_back, reset_dyn_iov, upd_dyn_iov, bump_credits, enqueue_pkt_tx_burst_st, enqueue_hdr_tx_burst_st, emit. keeps_tac.
Qed.
#[local] Hint Resolve keeps_dispatch : trace.
Lemma keeps_process_pkt h bs : keeps (process_pkt asserts malloc_ok junk h bs).
Proof. unfold process_pkt, rx_body. keeps_tac. Qed.
Lemma keeps_drain : keeps (drain_tx_batch asserts).
Proof. unfold drain_tx_batch. keeps_tac. Qed.
End trace.
#[export] Hint Resolve keeps_enqueue_request keeps_enqueue_response keeps_process_pkt keeps_drain keeps_stall_queue : trace.
