(* ===== verification/Sm.v ===== *)
(** * Session management ([src/rpc_impl/rpc_sm_api.cc], [rpc_sm_helpers.cc], the connect,
    disconnect and reset handlers)

    The endpoint of the datapath with what session management keeps next to it.  Packets
    go out over UDP; calls of the user's handler are recorded.  All functions run in the
    dispatch thread. *)

From S2P Require Import Prelude IoVector Serializer SmTypes RpcTypes Rpc.

(** What does not change: the Nexus's address, the id, and the transport with the size of
    its receive ring and its resolution of routing info. *)
Record ident : Type := mk_ident {
  my_hostname : string;
  my_sm_port : Z;
  my_rpc_id : Z;
  my_transport : TransportType;
  my_rinfo : Z;
  resolve_remote_routing_info : Z → option Z;
  kNumRxRingEntries : Z;
  retry_connect_on_invalid_rpc_id_ : bool
}.
(** [sm_pending_reqs_] is kept in order. *)
Record Sm : Type := mk_sm {
  dp : Rpc;
  ring_entries_available_ : Z;
  conn_req_token_map_ : gmap Z Z;
  sm_pending_reqs_ : list Z;
  udp : list SmPkt;
  sm_calls : list (Z * SmEventType * SmErrType)
}.
Definition Sm_eta (m : Sm) : Sm := mk_sm (dp m) (ring_entries_available_ m) (conn_req_token_map_ m) (sm_pending_reqs_ m) (udp m) (sm_calls m).
Definition set_dp : Rpc → Sm → Sm := ltac:(field_update Sm_eta dp).
Definition set_ring : Z → Sm → Sm := ltac:(field_update Sm_eta ring_entries_available_).
Definition set_token_map : gmap Z Z → Sm → Sm := ltac:(field_update Sm_eta conn_req_token_map_).
Definition set_pending : list Z → Sm → Sm := ltac:(field_update Sm_eta sm_pending_reqs_).
Definition set_udp : list SmPkt → Sm → Sm := ltac:(field_update Sm_eta udp).
Definition set_sm_calls : list (Z * SmEventType * SmErrType) → Sm → Sm := ltac:(field_update Sm_eta sm_calls).

Definition EPERM : Z := 1.
Definition ENOMEM : Z := 12.
Definition EBUSY : Z := 16.
Definition EINVAL : Z := 22.
Definition EALREADY : Z := 114.

Fixpoint set_insert (z : Z) (l : list Z) : list Z :=
  match l with [] => [z] | x :: l' => if z <? x then z :: l else if z =? x then l else x :: set_insert z l' end.
Definition set_erase (z : Z) (l : list Z) : list Z := filter (λ x, x ≠ z) l.

Section sm.
Context (asserts : bool) (me : ident).
Abbreviation MS := (M Sm).

Definition assert_s (b : bool) : MS unit := if asserts then assert_ b else mret tt.
Definition in_dp {A} (m : M Rpc A) : MS A := λ s, match m (dp s) with Ok (a, r) => Ok (a, set_dp r s) | Fault e => Fault e end.
Definition sm_handler (num : Z) (ev : SmEventType) (err : SmErrType) : MS unit := modify (λ s, set_sm_calls (sm_calls s ++ [(num, ev, err)]) s).
Definition sm_pkt_udp_tx_st (p : SmPkt) : MS unit := modify (λ s, set_udp (udp s ++ [p]) s).
Definition num_sessions : MS Z := s ← get; mret (Z.of_nat (length (session_vec_ (dp s)))).
(** The session of a number, or a null pointer; reading past the end is undefined. *)
Definition session_at (num : Z) : MS (option Session) := s ← get; lift (arr_get (session_vec_ (dp s)) num).
Definition put_session_at (num : Z) (x : option Session) : MS unit :=
  s ← get; l ← lift (arr_set (session_vec_ (dp s)) num x); in_dp (modify (set_session_vec l)).
Definition push_session (x : Session) : MS unit := in_dp (modify (λ r, set_session_vec (session_vec_ r ++ [Some x]) r)).

(** ** Receive-ring entries *)
Definition have_ring_entries : MS bool := s ← get; mret (kSessionCredits <=? ring_entries_available_ s).
Definition alloc_ring_entries : MS unit :=
  h ← have_ring_entries; assert_s h ;; modify (λ s, set_ring (u64 (ring_entries_available_ s - kSessionCredits)) s).
Definition free_ring_entries : MS unit :=
  modify (λ s, set_ring (u64 (ring_entries_available_ s + kSessionCredits)) s) ;;
  s ← get; assert_s (ring_entries_available_ s <=? kNumRxRingEntries me).

(** ** Helpers *)
(** An unknown type throws an exception, which nothing catches. *)
Definition construct_resp (p : SmPkt) (err : SmErrType) : MS SmPkt :=
  match sm_construct_resp p err with Some r => mret r | None => throw AssertFailed end.
Definition reply_err (p : SmPkt) (err : SmErrType) : MS unit := r ← construct_resp p err; sm_pkt_udp_tx_st r.
Definition bury_session_st (x : Session) : MS unit := put_session_at (local_session_num_ x) None.
Definition send_sm_req_st (x : Session) : MS unit :=
  modify (λ s, set_pending (set_insert (local_session_num_ x) (sm_pending_reqs_ s)) s) ;;
  sm_pkt_udp_tx_st (mk_SmPkt (if bool_decide (state_ x = kConnectInProgress) then kConnectReq else kDisconnectReq) kNoError (uniq_token_ x) (client_ x) (server_ x)).

(** ** The user's functions

    The host name and the port have been taken from the URI; the token is random. *)
Definition create_session_st (rem_hostname : string) (rem_sm_udp_port rem_rpc_id token : Z) : MS Z :=
  if (Z.of_nat (String.length rem_hostname) =? 0) || (kMaxHostnameLen <? Z.of_nat (String.length rem_hostname)) then mret (- EINVAL)
  else if bool_decide (rem_hostname = my_hostname me) && (rem_rpc_id =? my_rpc_id me) && (rem_sm_udp_port =? my_sm_port me) then mret (- EINVAL)
  else
    h ← have_ring_entries;
    if negb h then mret (- ENOMEM)
    else
      n ← num_sessions;
      let num := bits 16 n in
      client_name ← lift (strcpy_hostname (my_hostname me));
      server_name ← lift (strcpy_hostname rem_hostname);
      let client_endpoint := mk_ep (my_transport me) client_name (my_sm_port me) (my_rpc_id me) num (my_rinfo me) in
      let server_endpoint := mk_ep (my_transport me) server_name rem_sm_udp_port rem_rpc_id kInvalidSessionNum 0 in
      let session := new_Session true kConnectInProgress num 0 token client_endpoint server_endpoint in
      alloc_ring_entries ;;
      push_session session ;;
      send_sm_req_st session ;;
      mret num.
Definition destroy_session_st (session_num : Z) : MS Z :=
  n ← num_sessions;
  if negb ((0 <=? session_num) && (session_num <? n)) then mret (- EINVAL)
  else
    x ← session_at session_num;
    match x with
    | None => mret (- EPERM)
    | Some x =>
        if negb (is_client x) then mret (- EINVAL)
        else if negb (Z.of_nat (length (sslot_free_vec_ x)) =? kSessionReqWindow) then mret (- EBUSY)
        else
          for_each (sslot_arr_ x) (λ sl, assert_s (tx_msgbuf_ sl =? 0)) ;;
          match state_ x with
          | kConnectInProgress => mret (- EPERM)
          | kConnected =>
              let x := set_session_state kDisconnectInProgress x in
              put_session_at session_num (Some x) ;; send_sm_req_st x ;; mret 0
          | kDisconnectInProgress => mret (- EALREADY)
          | kResetInProgress => mret 0
          end
    end.
Definition num_active_sessions_st : MS Z := s ← get; mret (Z.of_nat (length (filter is_Some (session_vec_ (dp s))))).

(** ** Connecting *)
Definition handle_connect_req_st (p : SmPkt) : MS unit :=
  assert_s (bool_decide (sm_pkt_type_ p = kConnectReq) && (rpc_id_ (pkt_server_ p) =? my_rpc_id me)) ;;
  s ← get;
  match conn_req_token_map_ s !! pkt_token_ p with
  | Some srv_session_num =>
      n ← num_sessions;
      assert_s (srv_session_num <? n) ;;
      x ← session_at srv_session_num;
      match x with
      | Some x =>
          if bool_decide (state_ x = kConnected) then
            r ← construct_resp p kNoError; sm_pkt_udp_tx_st (set_pkt_server (server_ x) r)
          else mret tt
      | None => mret tt
      end
  | None =>
      if negb (bool_decide (transport_type_ (pkt_server_ p) = my_transport me)) then reply_err p kInvalidTransport
      else
        h ← have_ring_entries;
        if negb h then reply_err p kRingExhausted
        else
          match resolve_remote_routing_info me (routing_info_ (pkt_client_ p)) with
          | None => reply_err p kRoutingResolutionFailure
          | Some client_rinfo =>
              n ← num_sessions;
              let num := bits 16 n in
              let sv := set_routing_info (my_rinfo me) (set_session_num num (pkt_server_ p)) in
              modify (λ s, set_token_map (<[pkt_token_ p := num]> (conn_req_token_map_ s)) s) ;;
              let cl := set_routing_info client_rinfo (pkt_client_ p) in
              let session := new_Session false kConnected num (session_num_ cl) (pkt_token_ p) cl sv in
              alloc_ring_entries ;;
              push_session session ;;
              r ← construct_resp p kNoError; sm_pkt_udp_tx_st (set_pkt_server sv r)
          end
  end.
Definition handle_connect_resp_st (p : SmPkt) : MS unit :=
  assert_s (bool_decide (sm_pkt_type_ p = kConnectResp) && (rpc_id_ (pkt_client_ p) =? my_rpc_id me)) ;;
  let num := session_num_ (pkt_client_ p) in
  n ← num_sessions;
  assert_s (num <? n) ;;
  x ← session_at num;
  match x with
  | None => mret tt
  | Some x =>
      if negb (bool_decide (state_ x = kConnectInProgress)) then mret tt
      else
        assert_s (is_client x && ep_eqb (client_ x) (pkt_client_ p)) ;;
        assert_s (bool_decide (hostname_ (server_ x) = hostname_ (pkt_server_ p))) ;;
        assert_s (rpc_id_ (server_ x) =? rpc_id_ (pkt_server_ p)) ;;
        assert_s (session_num_ (server_ x) =? kInvalidSessionNum) ;;
        if bool_decide (err_type_ p = kInvalidRemoteRpcId) && retry_connect_on_invalid_rpc_id_ me then
          modify (λ s, set_pending (set_insert (local_session_num_ x) (sm_pending_reqs_ s)) s)
        else if negb (bool_decide (err_type_ p = kNoError)) then
          free_ring_entries ;; sm_handler (local_session_num_ x) kConnectFailed (err_type_ p) ;; bury_session_st x
        else
          match resolve_remote_routing_info me (routing_info_ (pkt_server_ p)) with
          | None =>
              let x := set_session_state kDisconnectInProgress (set_server (pkt_server_ p) x) in
              put_session_at num (Some x) ;; send_sm_req_st x
          | Some srv_rinfo =>
              let sv := set_routing_info srv_rinfo (pkt_server_ p) in
              put_session_at num (Some (set_session_state kConnected (set_remote_num (session_num_ sv) (set_server sv x)))) ;;
              sm_handler (local_session_num_ x) kEvConnected kNoError
          end
  end.

(** ** Disconnecting *)
Definition req_type_of (sl : SSlot) : Z := match info_ sl with ServerInfo i => si_req_type i | ClientInfo _ => kInvalidReqType end.
Definition handle_disconnect_req_st (p : SmPkt) : MS unit :=
  assert_s (bool_decide (sm_pkt_type_ p = kDisconnectReq) && (rpc_id_ (pkt_server_ p) =? my_rpc_id me)) ;;
  let num := session_num_ (pkt_server_ p) in
  n ← num_sessions;
  assert_s (num <? n) ;;
  x ← session_at num;
  match x with
  | None => reply_err p kNoError
  | Some x =>
      assert_s (negb (is_client x) && is_connected x) ;;
      assert_s (ep_eqb (server_ x) (pkt_server_ p)) ;;
      assert_s (ep_eqb (client_ x) (pkt_client_ p)) ;;
      for_each (sslot_arr_ x) (λ sl, assert_s (req_type_of sl =? kInvalidReqType)) ;;
      free_ring_entries ;;
      reply_err p kNoError ;;
      bury_session_st x
  end.
Definition handle_disconnect_resp_st (p : SmPkt) : MS unit :=
  assert_s (bool_decide (sm_pkt_type_ p = kDisconnectResp) && (rpc_id_ (pkt_client_ p) =? my_rpc_id me)) ;;
  assert_s (bool_decide (err_type_ p = kNoError)) ;;
  let num := session_num_ (pkt_client_ p) in
  n ← num_sessions;
  assert_s (num <? n) ;;
  x ← session_at num;
  match x with
  | None => mret tt
  | Some x =>
      assert_s (is_client x) ;;
      assert_s (bool_decide (state_ x = kDisconnectInProgress)) ;;
      assert_s (ep_eqb (client_ x) (pkt_client_ p)) ;;
      assert_s (ep_eqb (server_ x) (pkt_server_ p)) ;;
      free_ring_entries ;;
      sm_handler (local_session_num_ x) kDisconnected kNoError ;;
      bury_session_st x
  end.

(** ** Receiving and retransmitting *)
Definition handle_sm_pkt (p : SmPkt) : MS unit :=
  (if negb (sm_pkt_type_is_req (sm_pkt_type_ p)) then modify (λ s, set_pending (set_erase (session_num_ (pkt_client_ p)) (sm_pending_reqs_ s)) s) else mret tt) ;;
  match sm_pkt_type_ p with
  | kConnectReq => handle_connect_req_st p
  | kDisconnectReq => handle_disconnect_req_st p
  | kConnectResp => handle_connect_resp_st p
  | kDisconnectResp => handle_disconnect_resp_st p
  | _ => throw AssertFailed
  end.
Definition handle_sm_rx_st (queue : list SmPkt) : MS unit := for_each queue handle_sm_pkt.
(** The part of [pkt_loss_scan_st] for management packets: [expired] tells the sessions
    whose last request is older than the timeout. *)
Definition sm_pkt_loss_scan (expired : Z → bool) : MS unit :=
  s ← get;
  for_each (sm_pending_reqs_ s) (λ num,
    x ← session_at num;
    match x with
    | None => mret tt
    | Some x =>
        match state_ x with
        | kConnectInProgress | kDisconnectInProgress => if expired num then send_sm_req_st x else mret tt
        | _ => mret tt
        end
    end).

(** ** Resets *)
Definition reset_client_slot (p : sslot_ptr) : M Rpc unit :=
  sl ← get_sslot p;
  if tx_msgbuf_ sl =? 0 then
    upd_sslot p (set_tx_msgbuf 0) ;;
    delete_from_active_rpc_list p ;;
    push_free asserts p.1 (index_ sl) ;;
    c ← get_ci p;
    emit (Continue (ci_cont_func c) (ci_tag c) p)
  else mret tt.
Definition handle_reset_client_st (s : nat) : MS bool :=
  in_dp (modify (λ r, set_stallq (filter (λ p, p.1 ≠ s) (stallq_ r)) r)) ;;
  x ← in_dp (get_session s);
  for_each (seq 0 (length (sslot_arr_ x))) (λ i, in_dp (reset_client_slot (s, i))) ;;
  x ← in_dp (get_session s);
  assert_s (Z.of_nat (length (sslot_free_vec_ x)) =? kSessionReqWindow) ;;
  in_dp (upd_session s (set_session_state kDisconnectInProgress)) ;;
  free_ring_entries ;;
  sm_handler (local_session_num_ x) kDisconnected kSrvDisconnected ;;
  bury_session_st x ;;
  mret true.
Definition handle_reset_server_st (s : nat) : MS bool :=
  x ← in_dp (get_session s);
  assert_s (negb (is_client x)) ;;
  in_dp (upd_session s (set_session_state kResetInProgress)) ;;
  if bool_decide (filter (λ sl, req_type_of sl ≠ kInvalidReqType) (sslot_arr_ x) = []) then
    free_ring_entries ;; bury_session_st x ;; mret true
  else mret false.
End sm.
Definition new_Sm (me : ident) (r : Rpc) : Sm := mk_sm r (kNumRxRingEntries me) ∅ [] [] [].
