(* ===== verification/SmInv.v ===== *)
(** * A client and a server that manage sessions

    Two endpoints and the UDP packets between them: a packet that was sent may be
    delivered any number of times, at any time, in any order, or never. *)

From S2P Require Import Prelude IoVector Serializer SmTypes RpcTypes Rpc Sm.

Record net : Type := mk_net { na : Sm; nb : Sm }.
(** The client creates and destroys sessions and sends requests again; the deliveries
    name a packet by its position among the packets sent. *)
Inductive sm_label : Type :=
| Create (token : Z)
| Destroy (num : Z)
| Resend (expired : Z → bool)
| ToServer (i : nat)
| ToClient (i : nat).

Section system.
Context (asserts : bool) (A B : ident).
Definition sm_exec {T} (m : M Sm T) (s : Sm) : outcome Sm := match m s with Ok (_, s) => Ok s | Fault e => Fault e end.
Definition net_step (l : sm_label) (s : net) : outcome net :=
  match l with
  | Create token => a ← sm_exec (create_session_st asserts A (my_hostname B) (my_sm_port B) (my_rpc_id B) token) (na s); Ok (mk_net a (nb s))
  | Destroy num => a ← sm_exec (destroy_session_st asserts num) (na s); Ok (mk_net a (nb s))
  | Resend expired => a ← sm_exec (sm_pkt_loss_scan expired) (na s); Ok (mk_net a (nb s))
  | ToServer i => match udp (na s) !! i with None => Ok s | Some p => b ← sm_exec (handle_sm_pkt asserts B p) (nb s); Ok (mk_net (na s) b) end
  | ToClient i => match udp (nb s) !! i with None => Ok s | Some p => a ← sm_exec (handle_sm_pkt asserts A p) (na s); Ok (mk_net a (nb s)) end
  end.
Fixpoint net_run (ls : list sm_label) (s : net) : outcome net :=
  match ls with [] => Ok s | l :: ls => s ← net_step l s; net_run ls s end.
Lemma net_run_app ls1 ls2 s : net_run (ls1 ++ ls2) s = (s ← net_run ls1 s; net_run ls2 s).
Proof. revert s. induction ls1 as [|l ls1 IH]; intros s; cbn; [done|]. unfold mbind, outcome_bind. destruct (net_step l s); [apply IH|done]. Qed.
End system.

(** * The invariant of session management

    Sessions, packets and the map of tokens agree, whatever happens to the packets. *)

(** ** Counting sessions *)
Fixpoint alive (v : list (option Session)) : Z :=
  match v with [] => 0 | None :: v => alive v | Some _ :: v => 1 + alive v end.
Definition one (o : option Session) : Z := if o is Some _ then 1 else 0.
Lemma alive_app v v' : alive (v ++ v') = alive v + alive v'.
Proof. induction v as [|[] v IH]; cbn; lia. Qed.
Lemma alive_nonneg v : 0 ≤ alive v.
Proof. induction v as [|[] v IH]; cbn; lia. Qed.
Lemma alive_insert v n o o' : v !! n = Some o → alive (<[n := o']> v) = alive v - one o + one o'.
Proof.
  revert n. induction v as [|a v IH]; intros [|n]; [done..| |].
  - intros [= ->]. change (<[0%nat := o']> (o :: v)) with (o' :: v). destruct o, o'; cbn [alive one]; lia.
  - intros Hn. change (<[S n := o']> (a :: v)) with (a :: <[n := o']> v). specialize (IH n Hn). destruct a; cbn [alive]; lia.
Qed.
Lemma alive_one v n o : v !! n = Some o → one o ≤ alive v.
Proof. intros H. pose proof (alive_nonneg (<[n := None]> v)). rewrite (alive_insert _ _ _ None H) in H0. cbn in H0. lia. Qed.

(** The user's calls for one session. *)
Definition calls_of (n : nat) (l : list (Z * SmEventType * SmErrType)) : list (SmEventType * SmErrType) :=
  omap (λ c, if c.1.1 =? Z.of_nat n then Some (c.1.2, c.2) else None) l.
Lemma calls_of_app n l l' : calls_of n (l ++ l') = calls_of n l ++ calls_of n l'.
Proof. apply omap_app. Qed.
Lemma calls_of_map n k (l : list (SmEventType * SmErrType)) : calls_of k ((λ c, (Z.of_nat n, c.1, c.2)) <$> l) = if bool_decide (k = n) then l else [].
Proof.
  unfold calls_of. case_bool_decide as E; induction l as [|[] l IH]; try done; cbn; [subst; by rewrite Z.eqb_refl, IH|]. by rewrite (proj2 (Z.eqb_neq _ _)) by lia.
Qed.

Section inv.
Context (A B : ident).
Implicit Types (s : net) (toks : list Z) (T : gmap Z Z) (n m : nat) (x y : Session) (p : SmPkt) (v w : list (option Session)).

(** ** Endpoints, as the handlers fill them in *)
Definition EA n : SessionEndpoint := mk_ep (my_transport A) (my_hostname A) (my_sm_port A) (my_rpc_id A) (Z.of_nat n) (my_rinfo A).
Definition ES : SessionEndpoint := mk_ep (my_transport A) (my_hostname B) (my_sm_port B) (my_rpc_id B) kInvalidSessionNum 0.
Definition SB m (ρ : Z) : SessionEndpoint := mk_ep (my_transport A) (my_hostname B) (my_sm_port B) (my_rpc_id B) (Z.of_nat m) ρ.

(** ** Sessions *)
Inductive client_sess T n t : Session → Prop :=
| cs_connecting : client_sess T n t (new_Session true kConnectInProgress (Z.of_nat n) 0 t (EA n) ES)
| cs_connected m ρ : T !! t = Some (Z.of_nat m) → resolve_remote_routing_info A (my_rinfo B) = Some ρ →
    client_sess T n t (new_Session true kConnected (Z.of_nat n) (Z.of_nat m) t (EA n) (SB m ρ))
| cs_disconnecting m ρ r : T !! t = Some (Z.of_nat m) → client_sess T n t (new_Session true kDisconnectInProgress (Z.of_nat n) r t (EA n) (SB m ρ)).
Definition server_sess toks T m y : Prop :=
  ∃ n t ρ, toks !! n = Some t ∧ T !! t = Some (Z.of_nat m) ∧ resolve_remote_routing_info B (my_rinfo A) = Some ρ ∧
    y = new_Session false kConnected (Z.of_nat m) (Z.of_nat n) t (set_routing_info ρ (EA n)) (SB m (my_rinfo B)).
(** The client has given the session up: it is null, or being disconnected. *)
Definition closing_opt (o : option (option Session)) : Prop :=
  match o with Some None => True | Some (Some x) => state_ x = kDisconnectInProgress | None => False end.
Definition closing v n : Prop := closing_opt (v !! n).

(** ** Packets *)
Inductive req_pkt toks T v : SmPkt → Prop :=
| rp_connect n t : toks !! n = Some t → req_pkt toks T v (mk_SmPkt kConnectReq kNoError t (EA n) ES)
| rp_disconnect n t m ρ : toks !! n = Some t → T !! t = Some (Z.of_nat m) → closing v n → req_pkt toks T v (mk_SmPkt kDisconnectReq kNoError t (EA n) (SB m ρ)).
Inductive resp_pkt toks T v w : SmPkt → Prop :=
| pp_connected n t m : toks !! n = Some t → T !! t = Some (Z.of_nat m) → resp_pkt toks T v w (mk_SmPkt kConnectResp kNoError t (EA n) (SB m (my_rinfo B)))
| pp_refused n t err : toks !! n = Some t → err ≠ kNoError → err ≠ kInvalidRemoteRpcId → resp_pkt toks T v w (mk_SmPkt kConnectResp err t (EA n) ES)
| pp_disconnected n t m ρ : toks !! n = Some t → T !! t = Some (Z.of_nat m) → closing v n → w !! m = Some None →
    resp_pkt toks T v w (mk_SmPkt kDisconnectResp kNoError t (EA n) (SB m ρ)).

(** ** The user's calls, by the state of the session *)
Definition calls_ok (o : option (option Session)) (l : list (SmEventType * SmErrType)) : Prop :=
  match o with
  | None => l = []
  | Some (Some x) =>
      match state_ x with
      | kConnectInProgress => l = []
      | kConnected => l = [(kEvConnected, kNoError)]
      | _ => l = [] ∨ l = [(kEvConnected, kNoError)]
      end
  | Some None =>
      (∃ err, err ≠ kNoError ∧ l = [(kConnectFailed, err)]) ∨ l = [(kDisconnected, kNoError)] ∨ l = [(kEvConnected, kNoError); (kDisconnected, kNoError)]
  end.

Abbreviation va s := (session_vec_ (dp (na s))).
Abbreviation vb s := (session_vec_ (dp (nb s))).
Abbreviation tmap s := (conn_req_token_map_ (nb s)).
Definition ring_inv (me : ident) (a : Sm) : Prop := 0 ≤ ring_entries_available_ a ∧ ring_entries_available_ a + kSessionCredits * alive (session_vec_ (dp a)) = kNumRxRingEntries me.
(** A session that is being connected is waiting for a response, but for the session
    [ex] whose response is being handled. *)
Record net_inv (ex : option nat) toks s : Prop := {
  ni_len : length toks = length (va s);
  ni_nodup : NoDup toks;
  ni_map t z : tmap s !! t = Some z → t ∈ toks ∧ ∃ m, z = Z.of_nat m ∧ (m < length (vb s))%nat;
  ni_inj t t' z : tmap s !! t = Some z → tmap s !! t' = Some z → t = t';
  ni_size : length (vb s) = size (tmap s);
  ni_client n t x : va s !! n = Some (Some x) → toks !! n = Some t → client_sess (tmap s) n t x;
  ni_server m y : vb s !! m = Some (Some y) → server_sess toks (tmap s) m y;
  ni_buried n t m : toks !! n = Some t → tmap s !! t = Some (Z.of_nat m) → vb s !! m = Some None → closing (va s) n;
  ni_req : Forall (req_pkt toks (tmap s) (va s)) (udp (na s));
  ni_resp : Forall (resp_pkt toks (tmap s) (va s) (vb s)) (udp (nb s));
  ni_ringA : ring_inv A (na s);
  ni_ringB : ring_inv B (nb s);
  ni_calls n : calls_ok (va s !! n) (calls_of n (sm_calls (na s)));
  ni_pending z : z ∈ sm_pending_reqs_ (na s) → 0 ≤ z < Z.of_nat (length (va s));
  ni_waiting n x : va s !! n = Some (Some x) → state_ x = kConnectInProgress → Z.of_nat n ∈ sm_pending_reqs_ (na s) ∨ ex = Some n
}.

(** ** What the packets say stays true *)
Lemma client_sess_mono T T' n t x : T ⊆ T' → client_sess T n t x → client_sess T' n t x.
Proof. intros HT [|m ρ H1 H2|m ρ r H1]; econstructor; try done; by eapply lookup_weaken. Qed.
Lemma server_sess_mono toks toks' T T' m y : toks `prefix_of` toks' → T ⊆ T' → server_sess toks T m y → server_sess toks' T' m y.
Proof. intros Hp HT (n & t & ρ & H1 & H2 & H). exists n, t, ρ. split_and!; [by eapply prefix_lookup_Some|by eapply lookup_weaken|apply H..]. Qed.
Lemma req_pkt_mono toks toks' T T' v v' p : toks `prefix_of` toks' → T ⊆ T' → (∀ n, closing v n → closing v' n) → req_pkt toks T v p → req_pkt toks' T' v' p.
Proof. intros Hp HT Hv [n t H1|n t m ρ H1 H2 H3]; econstructor; eauto using prefix_lookup_Some, lookup_weaken. Qed.
Lemma resp_pkt_mono toks toks' T T' v v' w w' p : toks `prefix_of` toks' → T ⊆ T' → (∀ n, closing v n → closing v' n) → (∀ m, w !! m = Some None → w' !! m = Some None) →
  resp_pkt toks T v w p → resp_pkt toks' T' v' w' p.
Proof. intros Hp HT Hv Hw [n t m H1 H2|n t err H1 H2 H3|n t m ρ H1 H2 H3 H4]; econstructor; eauto using prefix_lookup_Some, lookup_weaken. Qed.
Lemma closing_insert v n o k : (closing v n → closing_opt (Some o)) → closing v k → closing (<[n := o]> v) k.
Proof.
  unfold closing. intros Ho Hk. destruct (decide (k = n)) as [->|]; [|by rewrite list_lookup_insert_ne].
  destruct (decide (n < length v)%nat) as [Hn|Hn]; [rewrite list_lookup_insert_eq by done; auto|by rewrite list_insert_ge by lia].
Qed.

(** A session of the client changes. *)
Lemma inv_client ex toks s n o0 o a :
  net_inv ex toks s → (ex = None ∨ ex = Some n) → va s !! n = Some o0 → session_vec_ (dp a) = <[n := o]> (va s) →
  (closing (va s) n → closing_opt (Some o)) → (∀ t x, toks !! n = Some t → o = Some x → client_sess (tmap s) n t x) →
  (∃ l, udp a = udp (na s) ++ l ∧ Forall (req_pkt toks (tmap s) (<[n := o]> (va s))) l) →
  ring_entries_available_ a = ring_entries_available_ (na s) + kSessionCredits * (one o0 - one o) → 0 ≤ ring_entries_available_ a →
  (∃ l, sm_calls a = sm_calls (na s) ++ ((λ c, (Z.of_nat n, c.1, c.2)) <$> l) ∧ calls_ok (Some o) (calls_of n (sm_calls (na s)) ++ l)) →
  (∀ z, z ∈ sm_pending_reqs_ a → z ∈ sm_pending_reqs_ (na s) ∨ z = Z.of_nat n) → sm_pending_reqs_ (na s) ⊆ sm_pending_reqs_ a →
  (∀ x, o = Some x → state_ x ≠ kConnectInProgress) → net_inv None toks (mk_net a (nb s)).
Proof.
  intros Hi Hex Hn Ha Hcl Hcs (l & Hu & Hl) Hr Hr0 (cs & Hc & Hcs') Hp Hp' Hnc. pose proof (lookup_lt_Some _ _ _ Hn) as Hlt. destruct Hi. split; cbn [na nb]; try done.
  - by rewrite Ha, length_insert.
  - rewrite Ha. intros k t x [(-> & -> & _)|[_ Hk]]%list_lookup_insert_Some Ht; eauto.
  - intros k t m Ht Hm Hb. rewrite Ha. apply closing_insert; [done|eauto].
  - rewrite Hu, Ha. apply Forall_app. split; [|done]. eapply Forall_impl; [done|]. intros p. apply req_pkt_mono; [done..|]. intros k. by apply closing_insert.
  - rewrite Ha. eapply Forall_impl; [done|]. intros p. apply resp_pkt_mono; [done..| |done]. intros k. by apply closing_insert.
  - destruct ni_ringA0 as [_ Hs]. split; [done|]. rewrite Ha, (alive_insert _ _ _ _ Hn), Hr. lia.
  - intros k. rewrite Ha, Hc, calls_of_app. destruct (decide (k = n)) as [->|Hk].
    + by rewrite list_lookup_insert_eq, calls_of_map, bool_decide_eq_true_2.
    + by rewrite list_lookup_insert_ne, calls_of_map, bool_decide_eq_false_2, app_nil_r.
  - intros z. rewrite Ha, length_insert. intros [Hz| ->]%Hp; [auto|lia].
  - intros k x. rewrite Ha. intros [(-> & -> & _)|[Hk Hx]]%list_lookup_insert_Some Hst; [by destruct (Hnc x)|]. left. apply Hp'. destruct (ni_waiting0 _ _ Hx Hst) as [?|Hex']; [done|]. destruct Hex; congruence.
Qed.
(** Only packets, or what is not in the invariant, change. *)
Lemma inv_client_same ex ex' toks s a :
  net_inv ex toks s → session_vec_ (dp a) = va s → (∃ l, udp a = udp (na s) ++ l ∧ Forall (req_pkt toks (tmap s) (va s)) l) →
  ring_entries_available_ a = ring_entries_available_ (na s) → sm_calls a = sm_calls (na s) → (∀ z, z ∈ sm_pending_reqs_ a → 0 ≤ z < Z.of_nat (length (va s))) →
  (∀ n x, va s !! n = Some (Some x) → state_ x = kConnectInProgress → Z.of_nat n ∈ sm_pending_reqs_ a ∨ ex' = Some n) → net_inv ex' toks (mk_net a (nb s)).
Proof.
  intros [] Ha (l & Hu & Hl) Hr Hc Hp Hw. split; cbn [na nb]; try rewrite Ha; try rewrite Hc; try done; [rewrite Hu; by apply Forall_app|]. unfold ring_inv. by rewrite Hr, Ha.
Qed.
Lemma inv_server_same ex toks s b :
  net_inv ex toks s → session_vec_ (dp b) = vb s → conn_req_token_map_ b = tmap s → (∃ l, udp b = udp (nb s) ++ l ∧ Forall (resp_pkt toks (tmap s) (va s) (vb s)) l) →
  ring_entries_available_ b = ring_entries_available_ (nb s) → net_inv ex toks (mk_net (na s) b).
Proof.
  intros [] Hb HT (l & Hu & Hl) Hr. split; cbn [na nb]; try rewrite Hb; try rewrite HT; try done; [rewrite Hu; by apply Forall_app|]. unfold ring_inv. by rewrite Hr, Hb.
Qed.
(** The client creates a session. *)
Lemma inv_create toks s t a :
  net_inv None toks s → t ∉ toks →
  session_vec_ (dp a) = va s ++ [Some (new_Session true kConnectInProgress (Z.of_nat (length toks)) 0 t (EA (length toks)) ES)] →
  udp a = udp (na s) ++ [mk_SmPkt kConnectReq kNoError t (EA (length toks)) ES] → sm_calls a = sm_calls (na s) →
  ring_entries_available_ a = ring_entries_available_ (na s) - kSessionCredits → 0 ≤ ring_entries_available_ a →
  (∀ z, z ∈ sm_pending_reqs_ a → z ∈ sm_pending_reqs_ (na s) ∨ z = Z.of_nat (length toks)) → sm_pending_reqs_ (na s) ⊆ sm_pending_reqs_ a → Z.of_nat (length toks) ∈ sm_pending_reqs_ a →
  net_inv None (toks ++ [t]) (mk_net a (nb s)).
Proof.
  intros [] Ht Ha Hu Hc Hr Hr0 Hp Hp' Hpin. assert (Hpre : toks `prefix_of` toks ++ [t]) by by eexists.
  assert (Hcl : ∀ k, closing (va s) k → closing (session_vec_ (dp a)) k). { intros k Hk. rewrite Ha. unfold closing in *. destruct (va s !! k) eqn:E; [by rewrite (lookup_app_l_Some _ _ _ _ E)|done]. }
  split; cbn [na nb]; try done.
  - rewrite Ha, !length_app. cbn. lia.
  - apply NoDup_app. split_and!; [done| |apply NoDup_singleton]. intros x Hx ->%list_elem_of_singleton. done.
  - intros t' z Hz. destruct (ni_map0 t' z Hz) as [? ?]. split; [apply elem_of_app; by left|done].
  - intros k t' x. rewrite Ha. intros [Hk|[Hk Hx]]%lookup_app_Some Ht'.
    + eapply ni_client0; [done|]. rewrite lookup_app_l in Ht'; [done|]. apply lookup_lt_Some in Hk. lia.
    + assert (k = length toks) as -> by (apply lookup_lt_Some in Ht'; rewrite length_app in Ht'; cbn in Ht'; lia).
      replace (length toks - length (va s))%nat with 0%nat in Hx by lia. injection Hx as <-. rewrite lookup_app_r, Nat.sub_diag in Ht' by lia. injection Ht' as <-. apply cs_connecting.
  - intros m y Hy. eapply server_sess_mono; [done..|eauto].
  - intros k t' m Ht' Hm Hb. apply Hcl. eapply ni_buried0; [|done..]. apply lookup_app_Some in Ht' as [?|[_ Ht']]; [done|].
    destruct (ni_map0 _ _ Hm) as [Hin _]. apply list_lookup_singleton_Some in Ht' as [_ <-]. done.
  - rewrite Hu. apply Forall_app. split; [eapply Forall_impl; [done|]; intros p; by apply req_pkt_mono|]. apply Forall_singleton, rp_connect. by apply list_lookup_middle.
  - eapply Forall_impl; [done|]. intros p. by apply resp_pkt_mono.
  - destruct ni_ringA0 as [_ ?]. split; [done|]. rewrite Ha, Hr, alive_app. cbn. lia.
  - intros k. rewrite Ha, Hc. specialize (ni_calls0 k). destruct (decide (k < length (va s))%nat); [by rewrite lookup_app_l|].
    rewrite lookup_ge_None_2 in ni_calls0 by lia. rewrite lookup_app_r by lia. destruct (k - length (va s))%nat as [|[|]]; done.
  - intros z. rewrite Ha, length_app. cbn. intros [Hz%ni_pending0| ->]%Hp; lia.
  - intros k x. rewrite Ha. intros [Hx|[Hk [Hk' _]%list_lookup_singleton_Some]]%lookup_app_Some Hst; left; [destruct (ni_waiting0 _ _ Hx Hst); [by apply Hp'|done]|]. replace k with (length toks) by lia. done.
Qed.
(** The server accepts a request, or buries a session. *)
Lemma inv_accept ex toks s n t ρ b :
  net_inv ex toks s → toks !! n = Some t → tmap s !! t = None → resolve_remote_routing_info B (my_rinfo A) = Some ρ → let m := length (vb s) in
  session_vec_ (dp b) = vb s ++ [Some (new_Session false kConnected (Z.of_nat m) (Z.of_nat n) t (set_routing_info ρ (EA n)) (SB m (my_rinfo B)))] →
  conn_req_token_map_ b = <[t := Z.of_nat m]> (tmap s) → udp b = udp (nb s) ++ [mk_SmPkt kConnectResp kNoError t (EA n) (SB m (my_rinfo B))] →
  ring_entries_available_ b = ring_entries_available_ (nb s) - kSessionCredits → 0 ≤ ring_entries_available_ b → net_inv ex toks (mk_net (na s) b).
Proof.
  intros [] Ht Hnone Hρ m Hb HT Hu Hr Hr0. assert (Hsub : tmap s ⊆ conn_req_token_map_ b) by (rewrite HT; by apply insert_subseteq).
  assert (Hw : ∀ k, vb s !! k = Some None → session_vec_ (dp b) !! k = Some None) by (intros k Hk; rewrite Hb; by apply lookup_app_l_Some).
  assert (Hnew : ∀ t', tmap s !! t' ≠ Some (Z.of_nat m)). { intros t' Hz. destruct (ni_map0 _ _ Hz) as (_ & m' & ? & ?). unfold m in *. lia. }
  split; cbn [na nb]; try done.
  - intros t' z. rewrite HT, Hb, length_app. cbn. intros [[<- <-]|[_ Hz]]%lookup_insert_Some.
    + split; [by eapply list_elem_of_lookup_2|]. exists m. unfold m. lia.
    + destruct (ni_map0 _ _ Hz) as (? & m' & ? & ?). split; [done|]. exists m'. lia.
  - intros t1 t2 z. rewrite HT. intros [[<- <-]|[_ H1]]%lookup_insert_Some [[<- E]|[_ H2]]%lookup_insert_Some; [done|by destruct (Hnew t2)|subst z; by destruct (Hnew t1)|eauto].
  - rewrite Hb, HT, length_app, map_size_insert_None by done. cbn. lia.
  - intros k t' x Hk Ht'. eapply client_sess_mono; [done|eauto].
  - intros k y. rewrite Hb. intros [Hk|[Hk Hy]]%lookup_app_Some; [eapply server_sess_mono; [done..|eauto]|].
    apply list_lookup_singleton_Some in Hy as [Hk' [= <-]]. assert (k = m) as -> by (unfold m in *; lia). exists n, t, ρ. split_and!; [done| |done|done]. rewrite HT. apply lookup_insert_eq.
  - intros k t' m'. rewrite HT, Hb. intros Ht' [[<- Hm']|[_ Hm']]%lookup_insert_Some Hbur.
    + assert (m' = m) as -> by lia. unfold m in Hbur. rewrite lookup_app_r, Nat.sub_diag in Hbur by lia. done.
    + eapply ni_buried0; [done..|]. apply lookup_app_Some in Hbur as [?|[? [_ [=]]%list_lookup_singleton_Some]]. done.
  - eapply Forall_impl; [done|]. intros p. by apply req_pkt_mono.
  - rewrite Hu. apply Forall_app. split; [eapply Forall_impl; [done|]; intros p; by apply resp_pkt_mono|]. apply Forall_singleton. constructor; [done|]. rewrite HT. apply lookup_insert_eq.
  - destruct ni_ringB0 as [_ ?]. split; [done|]. rewrite Hb, Hr, alive_app. cbn. lia.
Qed.
Lemma inv_bury ex toks s n t m ρ y b :
  net_inv ex toks s → toks !! n = Some t → tmap s !! t = Some (Z.of_nat m) → closing (va s) n → vb s !! m = Some (Some y) →
  session_vec_ (dp b) = <[m := None]> (vb s) → conn_req_token_map_ b = tmap s → udp b = udp (nb s) ++ [mk_SmPkt kDisconnectResp kNoError t (EA n) (SB m ρ)] →
  ring_entries_available_ b = ring_entries_available_ (nb s) + kSessionCredits → net_inv ex toks (mk_net (na s) b).
Proof.
  intros [] Ht Hm Hcl Hy Hb HT Hu Hr. pose proof (lookup_lt_Some _ _ _ Hy) as Hlt.
  assert (Hw : ∀ k, vb s !! k = Some None → session_vec_ (dp b) !! k = Some None).
  { intros k Hk. rewrite Hb. destruct (decide (k = m)) as [->|]; [by apply list_lookup_insert_eq|by rewrite list_lookup_insert_ne]. }
  split; cbn [na nb]; rewrite ?HT; try done.
  - intros t' z Hz. rewrite Hb, length_insert. eauto.
  - by rewrite Hb, length_insert.
  - intros k y'. rewrite Hb. intros [(_ & [=] & _)|[_ Hk]]%list_lookup_insert_Some. eauto.
  - intros k t' m' Ht' Hm' Hbur. rewrite Hb in Hbur. apply list_lookup_insert_Some in Hbur as [(<- & _ & _)|[_ Hbur]]; [|eauto].
    assert (t' = t) as -> by by eapply ni_inj0. assert (k = n) as -> by by eapply NoDup_lookup. done.
  - rewrite Hu. apply Forall_app. split; [eapply Forall_impl; [done|]; intros p; by apply resp_pkt_mono|]. apply Forall_singleton. constructor; [done..|]. rewrite Hb. by apply list_lookup_insert_eq.
  - destruct ni_ringB0 as [? ?]. unfold ring_inv. rewrite Hb, Hr, (alive_insert _ _ _ _ Hy). cbn. unfold kSessionCredits in *. lia.
Qed.
End inv.
