(* ===== verification/SmStep.v ===== *)
(** * Every step keeps the invariant

    No handler faults or fails an assertion, for any step of the client and any delivery
    of a packet that was sent. *)

From S2P Require Import Prelude IoVector Serializer SmTypes RpcTypes Rpc Sm SmInv.

(** ** Rules for the primitives *)
Definition with_sessions (v : list (option Session)) (a : Sm) : Sm := set_dp (set_session_vec v (dp a)) a.
Section rules.
Context (asserts : bool).
Implicit Types (a : Sm) (n : nat).
Lemma wq_assert_s F b (Q : unit → Sm → Prop) a : (asserts = true → b = true) → Q tt a → wq F (assert_s asserts b) Q a.
Proof. unfold assert_s. destruct asserts; [|done]. intros H HQ. by rewrite H. Qed.
Lemma wp_assert_all {T} (test : T → bool) l (Q : unit → Sm → Prop) a : Forall (λ x, test x = true) l → Q tt a → wp (for_each l (λ x, assert_s asserts (test x))) Q a.
Proof. intros Hl HQ. induction Hl as [|x l Hx _ IH]; cbn [for_each]; [by wstep|]. wstep. by apply wq_assert_s. Qed.
Lemma wp_session_at n o (Q : option Session → Sm → Prop) a : session_vec_ (dp a) !! n = Some o → Q o a → wp (session_at (Z.of_nat n)) Q a.
Proof. intros Ho HQ. unfold session_at. do 2 wstep. eapply wp_lift; [|exact HQ]. apply arr_get_Ok. rewrite Nat2Z.id. split; [lia|done]. Qed.
Lemma wp_put_session_at n o (Q : unit → Sm → Prop) a :
  (n < length (session_vec_ (dp a)))%nat → Q tt (with_sessions (<[n := o]> (session_vec_ (dp a))) a) → wp (put_session_at (Z.of_nat n) o) Q a.
Proof. intros Hn HQ. unfold put_session_at. do 3 wstep. eapply wp_lift; [apply arr_set_in_range; lia|]. rewrite Nat2Z.id. exact HQ. Qed.
Lemma wp_num_sessions (Q : Z → Sm → Prop) a : Q (Z.of_nat (length (session_vec_ (dp a)))) a → wp num_sessions Q a.
Proof. done. Qed.
Lemma wp_free_ring me (Q : unit → Sm → Prop) a :
  0 ≤ ring_entries_available_ a → ring_entries_available_ a + kSessionCredits ≤ kNumRxRingEntries me < 2 ^ 64 →
  Q tt (set_ring (ring_entries_available_ a + kSessionCredits) a) → wp (free_ring_entries asserts me) Q a.
Proof.
  intros H0 HK HQ. unfold free_ring_entries, u64. do 2 wstep. rewrite Z.mod_small by (unfold kSessionCredits in *; lia). do 2 wstep.
  apply wq_assert_s; [intros _; cbn [set_ring ring_entries_available_]; lia|done].
Qed.
Lemma wp_alloc_ring (Q : unit → Sm → Prop) a :
  kSessionCredits ≤ ring_entries_available_ a < 2 ^ 64 → Q tt (set_ring (ring_entries_available_ a - kSessionCredits) a) → wp (alloc_ring_entries asserts) Q a.
Proof.
  intros HK HQ. unfold alloc_ring_entries, have_ring_entries. do 5 wstep. apply wq_assert_s; [intros _; lia|]. wstep. unfold u64. by rewrite Z.mod_small by (unfold kSessionCredits in *; lia).
Qed.
Lemma wp_have_ring (Q : bool → Sm → Prop) a : Q (kSessionCredits <=? ring_entries_available_ a) a → wp have_ring_entries Q a.
Proof. done. Qed.
Lemma wp_push x (Q : unit → Sm → Prop) a : Q tt (with_sessions (session_vec_ (dp a) ++ [Some x]) a) → wp (push_session x) Q a.
Proof. done. Qed.
Definition req_of (x : Session) : SmPkt :=
  mk_SmPkt (if bool_decide (state_ x = kConnectInProgress) then kConnectReq else kDisconnectReq) kNoError (uniq_token_ x) (client_ x) (server_ x).
Definition sent_req (x : Session) a : Sm := set_udp (udp a ++ [req_of x]) (set_pending (set_insert (local_session_num_ x) (sm_pending_reqs_ a)) a).
Lemma wp_send_req x (Q : unit → Sm → Prop) a : Q tt (sent_req x a) → wp (send_sm_req_st x) Q a.
Proof. done. Qed.
Lemma wp_reply p err r (Q : unit → Sm → Prop) a : sm_construct_resp p err = Some r → Q tt (set_udp (udp a ++ [r]) a) → wp (reply_err p err) Q a.
Proof. intros Hr HQ. unfold reply_err, construct_resp. by rewrite Hr. Qed.
Lemma wp_bury n x (Q : unit → Sm → Prop) a :
  local_session_num_ x = Z.of_nat n → (n < length (session_vec_ (dp a)))%nat → Q tt (with_sessions (<[n := None]> (session_vec_ (dp a))) a) → wp (bury_session_st x) Q a.
Proof. intros Hx Hn HQ. unfold bury_session_st. rewrite Hx. by apply wp_put_session_at. Qed.
End rules.
Lemma elem_set_insert z x l : z ∈ set_insert x l → z ∈ l ∨ z = x.
Proof.
  induction l as [|y l IH]; cbn [set_insert]; [intros ->%list_elem_of_singleton; by right|]. destruct (x <? y); [intros [->|?]%elem_of_cons; auto|].
  destruct (Z.eqb_spec x y); [auto|]. intros [->|[?| ->]%IH]%elem_of_cons; [left; by left|left; by right|by right].
Qed.
Lemma set_insert_elem x l : x ∈ set_insert x l.
Proof. induction l as [|y l IH]; cbn [set_insert]; [by left|]. destruct (x <? y); [by left|]. destruct (Z.eqb_spec x y) as [->|]; [by left|by right]. Qed.
Lemma set_insert_subseteq x l : l ⊆ set_insert x l.
Proof.
  intros z. induction l as [|y l IH]; [by intros ?%not_elem_of_nil|]. cbn [set_insert]. intros Hz. destruct (x <? y); [by right|]. destruct (x =? y); [done|].
  apply elem_of_cons in Hz as [Hz|Hz]; [rewrite Hz; by left|right; auto].
Qed.
Lemma elem_set_erase z x l : z ∈ set_erase x l ↔ z ≠ x ∧ z ∈ l.
Proof. unfold set_erase. by rewrite list_elem_of_filter. Qed.
Lemma new_slots_ok (P : SSlot → Prop) client st a b t c d : (∀ i, P (new_sslot client i)) → Forall P (sslot_arr_ (new_Session client st a b t c d)).
Proof. intros H. unfold new_Session. cbn [sslot_arr_]. apply Forall_fmap, Forall_true. auto. Qed.
Lemma ep_eqb_fields a b : transport_type_ a = transport_type_ b → hostname_ a = hostname_ b → sm_udp_port_ a = sm_udp_port_ b → rpc_id_ a = rpc_id_ b → session_num_ a = session_num_ b → ep_eqb a b = true.
Proof. unfold ep_eqb. intros -> -> -> -> ->. by rewrite !bool_decide_eq_true_2, !Z.eqb_refl. Qed.

Section steps.
Context (asserts : bool) (A B : ident) (HKA : kNumRxRingEntries A < 2 ^ 64) (HKB : kNumRxRingEntries B < 2 ^ 64).
Implicit Types (s : net) (toks : list Z) (n m : nat) (x y : Session) (p : SmPkt).
#[local] Abbreviation va s := (session_vec_ (dp (na s))).
#[local] Abbreviation vb s := (session_vec_ (dp (nb s))).
#[local] Abbreviation tmap s := (conn_req_token_map_ (nb s)).
#[local] Abbreviation inv := (net_inv A B None).
#[local] Abbreviation invx := (net_inv A B).
#[local] Abbreviation EA := (EA A).
#[local] Abbreviation ES := (ES A B).
#[local] Abbreviation SB := (SB A B).

Lemma inv_small toks s : inv toks s → (length (vb s) ≤ length toks)%nat.
Proof.
  intros []. rewrite ni_size. replace (size (tmap s)) with (size (dom (tmap s))) by apply size_dom.
  trans (size (list_to_set toks : gset Z)); [|rewrite size_list_to_set by done; done]. apply subseteq_size. intros t [z Hz]%elem_of_dom. apply elem_of_list_to_set. by destruct (ni_map _ _ Hz).
Qed.
Lemma bits16 n : Z.of_nat n < kInvalidSessionNum → bits 16 (Z.of_nat n) = Z.of_nat n.
Proof. intros. unfold bits, kInvalidSessionNum in *. apply Z.mod_small. change (2 ^ 16) with 65536 in *. lia. Qed.

(** ** The user's calls *)
Context (HnA : strcpy_hostname (my_hostname A) = Ok (my_hostname A)) (HnB : strcpy_hostname (my_hostname B) = Ok (my_hostname B)).
Lemma step_create toks s t : inv toks s → t ∉ toks → Z.of_nat (length toks) < kInvalidSessionNum →
  wp (create_session_st asserts A (my_hostname B) (my_sm_port B) (my_rpc_id B) t) (λ _ a, ∃ toks', (toks' = toks ∨ toks' = toks ++ [t]) ∧ inv toks' (mk_net a (nb s))) (na s).
Proof.
  intros Hi Ht Hlen. assert (Hsame : ∃ toks', (toks' = toks ∨ toks' = toks ++ [t]) ∧ inv toks' (mk_net (na s) (nb s))) by (exists toks; split; [by left|by destruct s]).
  unfold create_session_st. wsplit; [by wstep|]. wsplit; [by wstep|]. wstep. apply wp_have_ring. wsplit; [by wstep|]. bool_prop.
  pose proof (ni_ringA _ _ _ _ _ Hi) as [Hr0 Hr]. wstep. apply wp_num_sessions. rewrite bits16 by (rewrite <- (ni_len _ _ _ _ _ Hi); lia).
  do 2 (wstep; eapply wp_lift; [done|]).
  pose proof (alive_nonneg (va s)). unfold kSessionCredits in *. wstep. apply wp_alloc_ring; [unfold kSessionCredits; lia|]. wstep. apply wp_push. wstep. apply wp_send_req. wstep.
  exists (toks ++ [t]). split; [by right|]. rewrite <- (ni_len _ _ _ _ _ Hi). apply inv_create; try done; cbn; unfold kSessionCredits; [lia|intros z; apply elem_set_insert|apply set_insert_subseteq|apply set_insert_elem].
Qed.
(** The client's session, if it is not null. *)
Lemma client_at ex toks s n x : invx ex toks s → va s !! n = Some (Some x) → ∃ t, toks !! n = Some t ∧ client_sess A B (tmap s) n t x.
Proof. intros [] Hx. destruct (lookup_lt_is_Some_2 toks n) as [t Ht]; [rewrite ni_len; by eapply lookup_lt_Some|]. eauto. Qed.
Lemma client_sess_common T n t x : client_sess A B T n t x →
  is_client x = true ∧ local_session_num_ x = Z.of_nat n ∧ Forall (λ sl, (tx_msgbuf_ sl =? 0) = true) (sslot_arr_ x) ∧ client_ x = EA n ∧ uniq_token_ x = t.
Proof. intros [|m ρ H1 H2|m ρ r H1]; (split_and!; [done|done|by apply new_slots_ok|done|done]). Qed.
Lemma inv_ref ex toks s : invx ex toks s → invx ex toks (mk_net (na s) (nb s)).
Proof. by destruct s. Qed.

(** A session of the client starts to be disconnected. *)
Lemma inv_disconnecting ex toks s n t m ρ r x (x' := new_Session true kDisconnectInProgress (Z.of_nat n) r t (EA n) (SB m ρ)) :
  invx ex toks s → (ex = None ∨ ex = Some n) → va s !! n = Some (Some x) → toks !! n = Some t → tmap s !! t = Some (Z.of_nat m) → (state_ x = kConnectInProgress ∨ state_ x = kConnected) →
  inv toks (mk_net (sent_req x' (with_sessions (<[n := Some x']> (va s)) (na s))) (nb s)).
Proof.
  intros Hi Hex Hn Ht Hm Hst. pose proof (lookup_lt_Some _ _ _ Hn). pose proof (ni_ringA _ _ _ _ _ Hi) as [Hr0 _].
  apply inv_client with ex n (Some x) (Some x'); try done.
  - intros t' y Ht' [= <-]. rewrite Ht in Ht'. injection Ht' as <-. by constructor.
  - eexists. split; [done|]. apply Forall_singleton. apply (rp_disconnect A B _ _ _ n t m ρ); [done..|]. unfold closing. by rewrite list_lookup_insert_eq.
  - cbn. lia.
  - exists []. split; [by rewrite app_nil_r|]. rewrite app_nil_r. pose proof (ni_calls _ _ _ _ _ Hi n) as Hc. rewrite Hn in Hc. cbn in Hc. cbn. destruct Hst as [Hst|Hst]; rewrite Hst in Hc; auto.
  - intros z. cbn. apply elem_set_insert.
  - apply set_insert_subseteq.
  - by intros ? [= <-].
Qed.

Lemma step_destroy toks s num : inv toks s → wp (destroy_session_st asserts num) (λ _ a, inv toks (mk_net a (nb s))) (na s).
Proof.
  intros Hi. pose proof (inv_ref _ _ _ Hi) as Hi'. unfold destroy_session_st. wstep. apply wp_num_sessions. wsplit; [by wstep|]. bool_prop. rewrite <- (Z2Nat.id num) by lia.
  destruct (lookup_lt_is_Some_2 (va s) (Z.to_nat num)) as [o Ho]; [lia|]. wstep. apply wp_session_at with o; [done|]. destruct o as [x|]; [|by wstep].
  destruct (client_at _ _ _ _ _ Hi Ho) as (t & Ht & Hx). destruct (client_sess_common _ _ _ _ Hx) as (Hc & Hloc & Hsl & _). do 2 (wsplit; [by wstep|]). wstep. apply wp_assert_all; [done|].
  destruct (state_ x) eqn:Hst; try by wstep. pose proof (lookup_lt_Some _ _ _ Ho). wstep. apply wp_put_session_at; [done|]. wstep. apply wp_send_req. wstep.
  destruct Hx as [|m ρ Hm Hρ|m ρ r Hm]; try discriminate.
  apply (inv_disconnecting None toks s (Z.to_nat num) t m ρ (Z.of_nat m) (new_Session true kConnected (Z.of_nat (Z.to_nat num)) (Z.of_nat m) t (EA (Z.to_nat num)) (SB m ρ))); auto.
Qed.

(** ** Requests are sent again *)
Lemma inv_resend toks s n x : inv toks s → va s !! n = Some (Some x) → state_ x = kConnectInProgress ∨ state_ x = kDisconnectInProgress → inv toks (mk_net (sent_req x (na s)) (nb s)).
Proof.
  intros Hi Hn Hst. destruct (client_at _ _ _ _ _ Hi Hn) as (t & Ht & Hx). apply inv_client_same with None; try done.
  - eexists. split; [done|]. apply Forall_singleton. destruct Hx as [|m ρ Hm Hρ|m ρ r Hm]; [by constructor|by destruct Hst|].
    apply (rp_disconnect A B _ _ _ n t m ρ); [done..|]. unfold closing. by rewrite Hn.
  - intros z [Hz| ->]%elem_set_insert; [by apply (ni_pending _ _ _ _ _ Hi)|]. destruct (client_sess_common _ _ _ _ Hx) as (_ & -> & _). apply lookup_lt_Some in Hn. lia.
  - intros k y Hk Hst'. destruct (ni_waiting _ _ _ _ _ Hi _ _ Hk Hst'); [left; by apply set_insert_subseteq|done].
Qed.
Lemma step_resend toks s expired : inv toks s → wp (sm_pkt_loss_scan expired) (λ _ a, inv toks (mk_net a (nb s))) (na s).
Proof.
  intros Hi. unfold sm_pkt_loss_scan. do 2 wstep.
  apply (wq_for_each _ (λ l a, inv toks (mk_net a (nb s)) ∧ ∀ z, z ∈ l → 0 ≤ z < Z.of_nat (length toks))); [|clear Hi; intros z l a [Hi Hl]|by intros a []].
  { split; [by apply inv_ref|]. rewrite (ni_len _ _ _ _ _ Hi). apply Hi. }
  pose proof (ni_len _ _ _ _ _ Hi) as Hlen. cbn [na] in Hlen. destruct (Hl z) as [Hz0 Hz]; [by left|]. assert (Hl' : ∀ z, z ∈ l → 0 ≤ z < Z.of_nat (length toks)) by (intros; apply Hl; by right).
  rewrite <- (Z2Nat.id z) by done. destruct (lookup_lt_is_Some_2 (session_vec_ (dp a)) (Z.to_nat z)) as [o Ho]; [lia|].
  wstep. apply wp_session_at with o; [done|]. destruct o as [x|]; [|by wstep].
  destruct (state_ x) eqn:Hst; try by wstep.
  all: destruct (expired _); [|by wstep]; apply wp_send_req; split; [|done]; apply (inv_resend toks (mk_net a (nb s)) (Z.to_nat z) x); auto.
Qed.

(** ** The server's handlers *)
Definition refused n t err : SmPkt := mk_SmPkt kConnectResp err t (EA n) ES.
Lemma inv_reply toks s r : inv toks s → resp_pkt A B toks (tmap s) (va s) (vb s) r → inv toks (mk_net (na s) (set_udp (udp (nb s) ++ [r]) (nb s))).
Proof. intros Hi Hr. apply inv_server_same; try done. eexists. split; [done|]. by apply Forall_singleton. Qed.
Lemma step_connect_req toks s n t : inv toks s → toks !! n = Some t → Z.of_nat (length toks) < kInvalidSessionNum →
  wp (handle_connect_req_st asserts B (mk_SmPkt kConnectReq kNoError t (EA n) ES)) (λ _ b, inv toks (mk_net (na s) b)) (nb s).
Proof.
  intros Hi Ht Hlen. pose proof (inv_ref _ _ _ Hi) as Hi'. unfold handle_connect_req_st. wstep. apply wq_assert_s; [intros _; cbn; by rewrite Z.eqb_refl|]. do 2 wstep. cbn [pkt_token_].
  assert (Href : ∀ err, err ≠ kNoError → err ≠ kInvalidRemoteRpcId → wp (reply_err (mk_SmPkt kConnectReq kNoError t (EA n) ES) err) (λ _ b, inv toks (mk_net (na s) b)) (nb s)).
  { intros err H1 H2. apply wp_reply with (refused n t err); [done|]. apply inv_reply; [done|]. by constructor. }
  destruct (tmap s !! t) as [z|] eqn:Hm.
  - destruct (ni_map _ _ _ _ _ Hi _ _ Hm) as (_ & m & -> & Hlt). wstep. apply wp_num_sessions. wstep. apply wq_assert_s; [intros _; lia|].
    destruct (lookup_lt_is_Some_2 (vb s) m) as [o Ho]; [done|]. wstep. apply wp_session_at with o; [done|]. destruct o as [y|]; [|by wstep].
    destruct (ni_server _ _ _ _ _ Hi _ _ Ho) as (n' & t' & ρ & Ht' & Hm' & _ & ->). cbn [state_ new_Session]. rewrite bool_decide_eq_true_2 by done. unfold construct_resp. cbn [sm_construct_resp sm_pkt_type_req_to_resp sm_pkt_type_ mbind option_bind]. wstep. apply wq_ret.
    apply inv_reply; [done|]. constructor; [done|]. done.
  - cbn [pkt_server_ pkt_client_]. wsplit; [by apply Href|]. wstep. apply wp_have_ring. wsplit; [by apply Href|]. cbn [routing_info_ SmInv.EA]. destruct (resolve_remote_routing_info B (my_rinfo A)) as [ρ|] eqn:Hρ; [|by apply Href].
    bool_prop. pose proof (ni_ringB _ _ _ _ _ Hi) as [Hr0 Hr]. pose proof (alive_nonneg (vb s)). pose proof (inv_small _ _ Hi). unfold kSessionCredits in *.
    wstep. apply wp_num_sessions. rewrite bits16 by lia. wstep. apply wq_modify. wstep. apply wp_alloc_ring; [unfold kSessionCredits; cbn; lia|]. wstep. apply wp_push. unfold construct_resp. cbn [sm_construct_resp sm_pkt_type_req_to_resp sm_pkt_type_ mbind option_bind]. wstep. apply wq_ret.
    apply inv_accept with n t ρ; try done. cbn. unfold kSessionCredits. lia.
Qed.
Lemma ep_eqb_client n ρ : ep_eqb (set_routing_info ρ (EA n)) (EA n) = true.
Proof. by apply ep_eqb_fields. Qed.
Lemma ep_eqb_server m ρ ρ' : ep_eqb (SB m ρ) (SB m ρ') = true.
Proof. by apply ep_eqb_fields. Qed.
Lemma ep_eqb_refl e : ep_eqb e e = true.
Proof. by apply ep_eqb_fields. Qed.
Lemma step_disconnect_req toks s n t m ρ : inv toks s → toks !! n = Some t → tmap s !! t = Some (Z.of_nat m) → closing (va s) n →
  wp (handle_disconnect_req_st asserts B (mk_SmPkt kDisconnectReq kNoError t (EA n) (SB m ρ))) (λ _ b, inv toks (mk_net (na s) b)) (nb s).
Proof.
  intros Hi Ht Hm Hcl. unfold handle_disconnect_req_st. wstep. apply wq_assert_s; [intros _; cbn; by rewrite Z.eqb_refl|]. cbn [pkt_server_ session_num_ SmInv.SB].
  destruct (ni_map _ _ _ _ _ Hi _ _ Hm) as (_ & m' & ->%Nat2Z.inj & Hlt). wstep. apply wp_num_sessions. wstep. apply wq_assert_s; [intros _; lia|].
  destruct (lookup_lt_is_Some_2 (vb s) m') as [o Ho]; [done|]. wstep. apply wp_session_at with o; [done|]. set (r := mk_SmPkt kDisconnectResp kNoError t (EA n) (SB m' ρ)). destruct o as [y|].
  - destruct (ni_server _ _ _ _ _ Hi _ _ Ho) as (n' & t' & ρ' & Ht' & Hm' & _ & ->).
    assert (t' = t) as -> by by eapply (ni_inj _ _ _ _ _ Hi). assert (n' = n) as -> by by eapply NoDup_lookup; [eapply (ni_nodup _ _ _ _ _ Hi)|..].
    wstep. apply wq_assert_s; [done|]. wstep. apply wq_assert_s; [intros _; apply ep_eqb_server|]. wstep. apply wq_assert_s; [intros _; apply ep_eqb_client|].
    wstep. apply wp_assert_all; [by apply new_slots_ok|]. pose proof (ni_ringB _ _ _ _ _ Hi) as [Hr0 Hr]. pose proof (alive_one _ _ _ Ho) as H1. cbn [one] in H1.
    wstep. apply wp_free_ring; [done|unfold kSessionCredits in *; lia|]. wstep. apply wp_reply with r; [done|]. apply wp_bury with m'; [done|done|].
    eapply inv_bury; try done.
  - apply wp_reply with r; [done|]. apply inv_reply; [done|]. by constructor.
Qed.

(** ** The client's handlers *)
Lemma inv_erase toks s n : inv toks s → invx (Some n) toks (mk_net (set_pending (set_erase (Z.of_nat n) (sm_pending_reqs_ (na s))) (na s)) (nb s)).
Proof.
  intros Hi. apply inv_client_same with None; try done; [exists []; split; [symmetry; apply app_nil_r|done]|..].
  - intros z [_ Hz]%elem_set_erase. by apply (ni_pending _ _ _ _ _ Hi).
  - intros k x Hk Hst. destruct (decide (k = n)) as [->|Hkn]; [by right|]. destruct (ni_waiting _ _ _ _ _ Hi _ _ Hk Hst); [left; apply elem_set_erase; split; [lia|done]|done].
Qed.
(** The exception ends when the session is not being connected. *)
Lemma inv_not_connecting toks s n : invx (Some n) toks s → (∀ x, va s !! n = Some (Some x) → state_ x ≠ kConnectInProgress) → inv toks (mk_net (na s) (nb s)).
Proof.
  intros Hi Hn. apply inv_client_same with (Some n); try done; [exists []; split; [symmetry; apply app_nil_r|done]|apply Hi|].
  intros k x Hk Hst. left. destruct (ni_waiting _ _ _ _ _ Hi _ _ Hk Hst) as [?|[= ->]]; [done|]. by destruct (Hn x).
Qed.
Lemma inv_client_bury ex toks s n x ev err : invx ex toks s → (ex = None ∨ ex = Some n) → va s !! n = Some (Some x) → calls_ok (Some None) (calls_of n (sm_calls (na s)) ++ [(ev, err)]) →
  wp (free_ring_entries asserts A ;; sm_handler (local_session_num_ x) ev err ;; bury_session_st x) (λ _ a, inv toks (mk_net a (nb s))) (na s).
Proof.
  intros Hi Hex Hn Hc. pose proof (ni_ringA _ _ _ _ _ Hi) as [Hr0 Hr]. pose proof (alive_one _ _ _ Hn) as H1. cbn [one] in H1. destruct (client_at _ _ _ _ _ Hi Hn) as (t & Ht & Hx).
  destruct (client_sess_common _ _ _ _ Hx) as (_ & Hloc & _). pose proof (lookup_lt_Some _ _ _ Hn).
  wstep. apply wp_free_ring; [done|unfold kSessionCredits in *; lia|]. wstep. unfold sm_handler. apply wq_modify. apply wp_bury with n; [done|done|]. rewrite Hloc.
  apply inv_client with ex n (Some x) None; try done; cbn; unfold kSessionCredits in *; [| | |auto]; try lia.
  - exists []. split; [by rewrite app_nil_r|done].
  - exists [(ev, err)]. split; [done|]. exact Hc.
Qed.
Lemma step_connect_resp toks s n t err e : invx (Some n) toks s → toks !! n = Some t →
  (err = kNoError ∧ (∃ m, tmap s !! t = Some (Z.of_nat m) ∧ e = SB m (my_rinfo B)) ∨ err ≠ kNoError ∧ err ≠ kInvalidRemoteRpcId ∧ e = ES) →
  wp (handle_connect_resp_st asserts A (mk_SmPkt kConnectResp err t (EA n) e)) (λ _ a, inv toks (mk_net a (nb s))) (na s).
Proof.
  intros Hi Ht Hp. unfold handle_connect_resp_st. wstep. apply wq_assert_s; [intros _; cbn; by rewrite Z.eqb_refl|]. cbn [pkt_client_ session_num_ SmInv.EA pkt_server_ err_type_].
  pose proof (lookup_lt_Some _ _ _ Ht) as Hlt. rewrite (ni_len _ _ _ _ _ Hi) in Hlt. wstep. apply wp_num_sessions. wstep. apply wq_assert_s; [intros _; lia|].
  destruct (lookup_lt_is_Some_2 (va s) n Hlt) as [o Ho]. wstep. apply wp_session_at with o; [done|]. destruct o as [x|]; [|wstep; apply (inv_not_connecting _ _ _ Hi); by rewrite Ho].
  pose proof (ni_client _ _ _ _ _ Hi _ _ _ Ho Ht) as Hx. pose proof (ni_calls _ _ _ _ _ Hi n) as Hc. rewrite Ho in Hc. cbn [calls_ok] in Hc. destruct Hx as [|m ρ Hm Hρ|m ρ r Hm]; [|eapply (inv_not_connecting _ _ _ Hi); rewrite Ho; by intros ? [= <-]..].
  cbn [state_ new_Session] in Hc |- *. rewrite bool_decide_eq_true_2 by done. cbn [negb client_ server_ is_client new_Session].
  wstep. apply wq_assert_s; [intros _; by rewrite ep_eqb_refl|]. wstep. apply wq_assert_s; [intros _; apply bool_decide_eq_true; by destruct Hp as [(_ & m & _ & ->)|(_ & _ & ->)]|].
  wstep. apply wq_assert_s; [intros _; apply Z.eqb_eq; by destruct Hp as [(_ & m & _ & ->)|(_ & _ & ->)]|]. wstep. apply wq_assert_s; [done|].
  destruct Hp as [(-> & m & Hm & ->)|(H1 & H2 & ->)].
  - rewrite bool_decide_eq_false_2, bool_decide_eq_true_2 by done. cbn [negb andb SmInv.SB routing_info_]. destruct (resolve_remote_routing_info A (my_rinfo B)) as [ρ|] eqn:Hρ.
    + wstep. apply wp_put_session_at; [done|]. unfold sm_handler. apply wq_modify.
      apply inv_client with (Some n) n (Some (new_Session true kConnectInProgress (Z.of_nat n) 0 t (EA n) ES)) (Some (new_Session true kConnected (Z.of_nat n) (Z.of_nat m) t (EA n) (SB m ρ))); try done.
      * by right.
      * unfold closing. by rewrite Ho.
      * intros t' x Ht' [= <-]. rewrite Ht in Ht'. injection Ht' as <-. by constructor.
      * exists []. split; [symmetry; apply app_nil_r|done].
      * cbn. lia.
      * apply Hi.
      * exists [(kEvConnected, kNoError)]. split; [done|]. by rewrite Hc.
      * by left.
      * by intros ? [= <-].
    + wstep. apply wp_put_session_at; [done|]. apply wp_send_req.
      apply (inv_disconnecting (Some n) toks s n t m (my_rinfo B) 0 (new_Session true kConnectInProgress (Z.of_nat n) 0 t (EA n) ES)); auto.
  - rewrite bool_decide_eq_false_2, bool_decide_eq_false_2 by done. cbn [negb andb]. eapply inv_client_bury; [done|by right|exact Ho|]. rewrite Hc. left. eauto.
Qed.
Lemma step_disconnect_resp toks s n t m ρ : invx (Some n) toks s → toks !! n = Some t → tmap s !! t = Some (Z.of_nat m) → closing (va s) n →
  wp (handle_disconnect_resp_st asserts A (mk_SmPkt kDisconnectResp kNoError t (EA n) (SB m ρ))) (λ _ a, inv toks (mk_net a (nb s))) (na s).
Proof.
  intros Hi Ht Hm Hcl. unfold handle_disconnect_resp_st. wstep. apply wq_assert_s; [intros _; cbn; by rewrite Z.eqb_refl|]. cbn [pkt_client_ session_num_ SmInv.EA pkt_server_ err_type_].
  pose proof (lookup_lt_Some _ _ _ Ht) as Hlt. rewrite (ni_len _ _ _ _ _ Hi) in Hlt. wstep. apply wq_assert_s; [done|]. wstep. apply wp_num_sessions. wstep. apply wq_assert_s; [intros _; lia|].
  destruct (lookup_lt_is_Some_2 (va s) n Hlt) as [o Ho]. wstep. apply wp_session_at with o; [done|]. destruct o as [x|]; [|wstep; apply (inv_not_connecting _ _ _ Hi); by rewrite Ho].
  pose proof (ni_client _ _ _ _ _ Hi _ _ _ Ho Ht) as Hx. pose proof (ni_calls _ _ _ _ _ Hi n) as Hc. rewrite Ho in Hc. unfold closing in Hcl. rewrite Ho in Hcl.
  destruct Hx as [|m' ρ' Hm' Hρ|m' ρ' r Hm']; [done|done|]. rewrite Hm in Hm'. injection Hm' as <-%Nat2Z.inj.
  do 2 (wstep; apply wq_assert_s; [done|]). wstep. apply wq_assert_s; [intros _; apply ep_eqb_refl|]. wstep. apply wq_assert_s; [intros _; apply ep_eqb_server|].
  eapply inv_client_bury; [done|by right|exact Ho|]. right. destruct Hc as [-> | ->]; auto.
Qed.

(** ** Every step *)
Definition created (l : sm_label) : list Z := match l with Create t => [t] | _ => [] end.
Lemma step_to_server toks s p : inv toks s → Z.of_nat (length toks) < kInvalidSessionNum → p ∈ udp (na s) → wp (handle_sm_pkt asserts B p) (λ _ b, inv toks (mk_net (na s) b)) (nb s).
Proof.
  intros Hi Hlen Hp. pose proof (proj1 (Forall_forall _ _) (ni_req _ _ _ _ _ Hi) _ Hp) as [n t Ht|n t m ρ Ht Hm Hcl]; unfold handle_sm_pkt; wstep; apply wq_ret.
  - by apply step_connect_req.
  - by apply step_disconnect_req.
Qed.
Lemma step_to_client toks s p : inv toks s → p ∈ udp (nb s) → wp (handle_sm_pkt asserts A p) (λ _ a, inv toks (mk_net a (nb s))) (na s).
Proof.
  intros Hi Hp. pose proof (λ n, inv_erase _ _ n Hi) as Hi'.
  pose proof (proj1 (Forall_forall _ _) (ni_resp _ _ _ _ _ Hi) _ Hp) as [n t m Ht Hm|n t err Ht H1 H2|n t m ρ Ht Hm Hcl Hb]; unfold handle_sm_pkt; wstep; apply wq_modify.
  - eapply (step_connect_resp toks (mk_net (set_pending _ (na s)) (nb s))); [apply Hi'|done|]. left. eauto.
  - eapply (step_connect_resp toks (mk_net (set_pending _ (na s)) (nb s))); [apply Hi'|done|]. auto.
  - by eapply (step_disconnect_resp toks (mk_net (set_pending _ (na s)) (nb s))); [apply Hi'|..].
Qed.
Lemma wp_exec {T} (m : M Sm T) Q a : wp m (λ _ a', Q a') a → ∃ a', sm_exec m a = Ok a' ∧ Q a'.
Proof. unfold sm_exec. intros (x & a' & -> & HQ)%wp_iff. eauto. Qed.
Lemma net_step_ok toks s l : inv toks s → NoDup (toks ++ created l) → Z.of_nat (length (toks ++ created l)) < kInvalidSessionNum →
  ∃ s' toks', net_step asserts A B l s = Ok s' ∧ inv toks' s' ∧ (toks' = toks ∨ toks' = toks ++ created l).
Proof.
  intros Hi Hnd Hlen. rewrite length_app in Hlen. destruct l as [t|num|expired|i|i]; cbn [created length net_step] in *.
  - destruct (wp_exec _ _ _ (step_create toks s t Hi ltac:(intros Ht; apply NoDup_app in Hnd as (_ & H & _); by eapply H; [done|left]) ltac:(lia))) as (a & -> & toks' & Ht & Ha). exists (mk_net a (nb s)), toks'. auto.
  - destruct (wp_exec _ _ _ (step_destroy toks s num Hi)) as (a & -> & Ha). exists (mk_net a (nb s)), toks. auto.
  - destruct (wp_exec _ _ _ (step_resend toks s expired Hi)) as (a & -> & Ha). exists (mk_net a (nb s)), toks. auto.
  - destruct (udp (na s) !! i) as [p|] eqn:Hp; [|eauto 6]. apply list_elem_of_lookup_2 in Hp.
    destruct (wp_exec _ _ _ (step_to_server toks s p Hi ltac:(lia) Hp)) as (b & -> & Hb). exists (mk_net (na s) b), toks. auto.
  - destruct (udp (nb s) !! i) as [p|] eqn:Hp; [|eauto 6]. apply list_elem_of_lookup_2 in Hp.
    destruct (wp_exec _ _ _ (step_to_client toks s p Hi Hp)) as (a & -> & Ha). exists (mk_net a (nb s)), toks. auto.
Qed.
(** Runs, from what holds of steps. *)
Lemma net_run_ind (P : list Z → net → Prop) (good : sm_label → Prop) :
  (∀ toks s l, P toks s → good l → NoDup (toks ++ created l) → Z.of_nat (length (toks ++ created l)) < kInvalidSessionNum →
    ∃ s' toks', net_step asserts A B l s = Ok s' ∧ P toks' s' ∧ (toks' = toks ∨ toks' = toks ++ created l)) →
  ∀ ls toks rest s, P toks s → Forall good ls → NoDup (toks ++ (ls ≫= created) ++ rest) → Z.of_nat (length (toks ++ (ls ≫= created) ++ rest)) < kInvalidSessionNum →
  ∃ s' toks', net_run asserts A B ls s = Ok s' ∧ P toks' s' ∧ NoDup (toks' ++ rest) ∧ Z.of_nat (length (toks' ++ rest)) < kInvalidSessionNum.
Proof.
  intros Hstep ls toks rest s Hs Hls. revert toks s Hs. induction Hls as [|l ls Hl _ IH]; intros toks s Hs; [cbn; intros; by exists s, toks|]. cbn [mbind list_bind net_run]. fold (mbind (M := list) created ls). rewrite <- app_assoc. intros Hnd Hlen. rewrite app_assoc in Hnd, Hlen.
  pose proof Hnd as [Hnd1 _]%NoDup_app. rewrite length_app in Hlen. destruct (Hstep toks s l) as (s1 & toks1 & -> & Hs1 & Htoks); [done..|lia|].
  change (net_run asserts A B (l :: ls) s) with (net_run asserts A B ls s1). apply (IH toks1); [done|..].
  - destruct Htoks as [-> | ->]; [|done]. eapply sublist_NoDup; [exact Hnd|]. apply sublist_app; [by apply sublist_inserts_r|done].
  - rewrite !length_app in *. destruct Htoks as [-> | ->]; rewrite ?length_app in *; lia.
Qed.
Lemma net_run_ok toks rest s ls : inv toks s → NoDup (toks ++ (ls ≫= created) ++ rest) → Z.of_nat (length (toks ++ (ls ≫= created) ++ rest)) < kInvalidSessionNum →
  ∃ s' toks', net_run asserts A B ls s = Ok s' ∧ inv toks' s' ∧ NoDup (toks' ++ rest) ∧ Z.of_nat (length (toks' ++ rest)) < kInvalidSessionNum.
Proof. intros Hi. apply (net_run_ind inv (λ _, True)); [intros; by apply net_step_ok|done|by apply Forall_true]. Qed.
End steps.
