(* ===== verification/SmTheorems.v ===== *)
(** * Handshakes that succeed

    A request that is sent again and its response, delivered in this order, connect or
    disconnect the session, whatever was lost before. *)

From S2P Require Import Prelude IoVector Serializer SmTypes RpcTypes Rpc Sm SmInv SmStep.

Definition in_progress (x : Session) : Prop := state_ x = kConnectInProgress ∨ state_ x = kDisconnectInProgress.

Lemma wp_wlp {T} (m : M Sm T) Q a : wp m Q a → wlp m Q a.
Proof. intros H. by eapply wq_weaken. Qed.

(** ** The scan *)
Lemma wlp_session_at num (Q : option Session → Sm → Prop) a : (∀ o, 0 ≤ num → session_vec_ (dp a) !! Z.to_nat num = Some o → Q o a) → wlp (session_at num) Q a.
Proof. intros HQ. unfold session_at. do 2 wstep. wstep. match goal with H : arr_get _ _ = Ok _ |- _ => apply arr_get_Ok in H as [? ?] end. auto. Qed.
Lemma wlp_assert_s b asserts (Q : unit → Sm → Prop) a : Q tt a → wlp (assert_s asserts b) Q a.
Proof. intros HQ. unfold assert_s. destruct asserts; [|done]. by wstep. Qed.
Lemma wlp_scan expired a : wlp (sm_pkt_loss_scan expired) (λ _ a', dp a' = dp a ∧ ∃ l, udp a' = udp a ++ l ∧
  ∀ n x, expired (Z.of_nat n) = true → Z.of_nat n ∈ sm_pending_reqs_ a → session_vec_ (dp a) !! n = Some (Some x) → in_progress x → req_of x ∈ l) a.
Proof.
  unfold sm_pkt_loss_scan. do 2 wstep.
  apply (wq_for_each _ (λ zs a', dp a' = dp a ∧ ∃ l, udp a' = udp a ++ l ∧
    ∀ n x, expired (Z.of_nat n) = true → Z.of_nat n ∈ sm_pending_reqs_ a → session_vec_ (dp a) !! n = Some (Some x) → in_progress x → Z.of_nat n ∈ zs ∨ req_of x ∈ l)).
  - split; [done|]. exists []. split; [by rewrite app_nil_r|auto].
  - intros z zs a' (Hdp & l & Hl & Hin). wstep. apply wlp_session_at. intros o Hz Ho. rewrite Hdp in Ho.
    assert (Hskip : (∀ x, o = Some x → ¬ (expired z = true ∧ in_progress x)) → dp a' = dp a ∧ ∃ l, udp a' = udp a ++ l ∧
      ∀ n x, expired (Z.of_nat n) = true → Z.of_nat n ∈ sm_pending_reqs_ a → session_vec_ (dp a) !! n = Some (Some x) → in_progress x → Z.of_nat n ∈ zs ∨ req_of x ∈ l).
    { intros Hno. split; [done|]. exists l. split; [done|]. intros n x He Hn Hx Hp. destruct (Hin n x He Hn Hx Hp) as [[<-|?]%elem_of_cons|?]; [|by left|by right].
      rewrite Nat2Z.id, Hx in Ho. injection Ho as <-. by destruct (Hno x). }
    destruct o as [x|]; [|wstep; apply Hskip; naive_solver].
    assert (Hsend : wlp (send_sm_req_st x) (λ _ a', dp a' = dp a ∧ ∃ l, udp a' = udp a ++ l ∧
      ∀ n x, expired (Z.of_nat n) = true → Z.of_nat n ∈ sm_pending_reqs_ a → session_vec_ (dp a) !! n = Some (Some x) → in_progress x → Z.of_nat n ∈ zs ∨ req_of x ∈ l) a').
    { eapply wq_weaken; [apply (wp_send_req x (λ _ b, b = sent_req x a')); done| |done]. intros _ b ->. split; [done|]. exists (l ++ [req_of x]). split; [cbn; by rewrite Hl, app_assoc|].
      intros n y He Hn Hy Hp. destruct (Hin n y He Hn Hy Hp) as [[E|?]%elem_of_cons|?]; [|by left|right; apply elem_of_app; by left].
      right. apply elem_of_app. right. rewrite <- E, Nat2Z.id, Hy in Ho. injection Ho as <-. by left. }
    destruct (state_ x) eqn:Hst, (expired z) eqn:He; try done; wstep; apply Hskip; intros ? [= <-] [? [Hp|Hp]]; congruence.
  - intros a' (Hdp & l & Hl & Hin). split; [done|]. exists l. split; [done|]. intros n x He Hn Hx Hp. destruct (Hin n x He Hn Hx Hp) as [?%not_elem_of_nil|?]; done.
Qed.

Section progress.
Context (asserts : bool) (A B : ident).
Implicit Types (s : net) (toks : list Z) (n m : nat) (x y : Session).
#[local] Abbreviation va s := (session_vec_ (dp (na s))).
#[local] Abbreviation vb s := (session_vec_ (dp (nb s))).
#[local] Abbreviation tmap s := (conn_req_token_map_ (nb s)).
#[local] Abbreviation EA := (EA A).
#[local] Abbreviation ES := (ES A B).
#[local] Abbreviation SB := (SB A B).

(** ** What the handlers do on these packets *)
Lemma wlp_connect_req toks s n t : net_inv A B None toks s → Z.of_nat (length toks) < kInvalidSessionNum → toks !! n = Some t → ¬ closing (va s) n → kSessionCredits ≤ ring_entries_available_ (nb s) → is_Some (resolve_remote_routing_info B (my_rinfo A)) →
  my_transport B = my_transport A →
  wlp (handle_sm_pkt asserts B (mk_SmPkt kConnectReq kNoError t (EA n) ES)) (λ _ b, ∃ m, conn_req_token_map_ b !! t = Some (Z.of_nat m) ∧ udp b = udp (nb s) ++ [mk_SmPkt kConnectResp kNoError t (EA n) (SB m (my_rinfo B))]) (nb s).
Proof.
  intros Hi Hlen Ht Hcl Hring [ρ Hρ] Htr. unfold handle_sm_pkt. wstep. apply wq_ret. cbn [sm_pkt_type_]. unfold handle_connect_req_st. wstep. apply wlp_assert_s. do 2 wstep. cbn [pkt_token_].
  destruct (tmap s !! t) as [z|] eqn:Hm.
  - destruct (ni_map _ _ _ _ _ Hi _ _ Hm) as (_ & m & -> & Hlt). wstep. apply wp_wlp, wp_num_sessions. wstep. apply wlp_assert_s. wstep. apply wlp_session_at. rewrite Nat2Z.id. intros o _ Ho.
    destruct o as [y|]; [|by destruct Hcl; eapply (ni_buried _ _ _ _ _ Hi)]. destruct (ni_server _ _ _ _ _ Hi _ _ Ho) as (n' & t' & ρ' & Ht' & Hm' & _ & ->).
    cbn [state_ new_Session]. rewrite bool_decide_eq_true_2 by done. unfold construct_resp. cbn [sm_construct_resp sm_pkt_type_req_to_resp sm_pkt_type_ mbind option_bind]. wstep. apply wq_ret. exists m. done.
  - cbn [pkt_server_ pkt_client_ transport_type_]. rewrite bool_decide_eq_true_2 by (cbn; congruence). cbn [negb]. wstep. apply wp_wlp, wp_have_ring. rewrite (proj2 (Z.leb_le _ _)) by done. cbn [negb routing_info_ SmInv.EA]. rewrite Hρ.
    wstep. apply wp_wlp, wp_num_sessions. assert (Hbits : bits 16 (Z.of_nat (length (vb s))) = Z.of_nat (length (vb s))).
    { apply bits16. pose proof (inv_small A B _ _ Hi). lia. }
    rewrite Hbits. wstep. apply wq_modify. unfold alloc_ring_entries. wstep. wstep. apply wp_wlp, wp_have_ring. wstep. apply wlp_assert_s. apply wq_modify. wstep. apply wp_wlp, wp_push.
    unfold construct_resp. cbn [sm_construct_resp sm_pkt_type_req_to_resp sm_pkt_type_ mbind option_bind]. wstep. apply wq_ret. exists (length (vb s)). split; [apply lookup_insert_eq|done].
Qed.
Lemma wlp_free_ring me (Q : unit → Sm → Prop) a : Q tt (set_ring (u64 (ring_entries_available_ a + kSessionCredits)) a) → wlp (free_ring_entries asserts me) Q a.
Proof. intros HQ. unfold free_ring_entries. wstep. apply wq_modify. do 2 wstep. by apply wlp_assert_s. Qed.
Lemma wlp_connect_resp s n t m ρ x : va s !! n = Some (Some x) → client_sess A B (tmap s) n t x → state_ x = kConnectInProgress → resolve_remote_routing_info A (my_rinfo B) = Some ρ →
  wlp (handle_sm_pkt asserts A (mk_SmPkt kConnectResp kNoError t (EA n) (SB m (my_rinfo B)))) (λ _ a, ∃ x', session_vec_ (dp a) !! n = Some (Some x') ∧ state_ x' = kConnected) (na s).
Proof.
  intros Hn Hx Hst Hρ. unfold handle_sm_pkt. wstep. apply wq_modify. cbn [sm_pkt_type_]. unfold handle_connect_resp_st. wstep. apply wlp_assert_s. cbn [pkt_client_ session_num_ SmInv.EA].
  wstep. apply wp_wlp, wp_num_sessions. wstep. apply wlp_assert_s. wstep. apply wlp_session_at. rewrite Nat2Z.id. cbn [dp set_pending]. intros o _ Ho. rewrite Hn in Ho. injection Ho as <-.
  rewrite Hst, bool_decide_eq_true_2 by done. cbn [negb]. do 4 (wstep; apply wlp_assert_s). cbn [err_type_]. rewrite bool_decide_eq_false_2, bool_decide_eq_true_2 by done. cbn [negb andb pkt_server_ routing_info_ SmInv.SB]. rewrite Hρ.
  wstep. apply wp_wlp, wp_put_session_at; [by eapply lookup_lt_Some|]. apply wq_modify. eexists. split; [cbn; apply list_lookup_insert_eq; by eapply lookup_lt_Some|done].
Qed.
Lemma wlp_disconnect_req s n t m ρ : wlp (handle_sm_pkt asserts B (mk_SmPkt kDisconnectReq kNoError t (EA n) (SB m ρ)))
  (λ _ b, udp b = udp (nb s) ++ [mk_SmPkt kDisconnectResp kNoError t (EA n) (SB m ρ)] ∧ conn_req_token_map_ b = tmap s) (nb s).
Proof.
  unfold handle_sm_pkt. wstep. apply wq_ret. cbn [sm_pkt_type_]. unfold handle_disconnect_req_st. wstep. apply wlp_assert_s. wstep. apply wp_wlp, wp_num_sessions. wstep. apply wlp_assert_s.
  wstep. apply wlp_session_at. intros o _ _. destruct o as [y|]; [|by apply wp_wlp; eapply wp_reply].
  do 3 (wstep; apply wlp_assert_s). wstep. apply (wq_for_each _ (λ _ b, b = nb s)); [done|intros sl _ b ->; by apply wlp_assert_s|intros b ->].
  wstep. apply wlp_free_ring. wstep. apply wp_wlp. eapply wp_reply; [done|]. unfold bury_session_st, put_session_at. do 2 wstep. wstep. wstep. apply wq_modify. done.
Qed.
Lemma disconnected_buried toks T v w n t m ρ : resp_pkt A B toks T v w (mk_SmPkt kDisconnectResp kNoError t (EA n) (SB m ρ)) → w !! m = Some None.
Proof. inversion 1 as [| |n' t' m' ρ' H1 H2 H3 Hw]. by replace m with m' by lia. Qed.
Lemma wlp_disconnect_resp s n t m ρ x : va s !! n = Some (Some x) → client_sess A B (tmap s) n t x →
  wlp (handle_sm_pkt asserts A (mk_SmPkt kDisconnectResp kNoError t (EA n) (SB m ρ))) (λ _ a, session_vec_ (dp a) !! n = Some None) (na s).
Proof.
  intros Hn Hx. destruct (client_sess_common _ _ _ _ _ _ Hx) as (_ & Hloc & _).
  unfold handle_sm_pkt. wstep. apply wq_modify. cbn [sm_pkt_type_]. unfold handle_disconnect_resp_st. do 2 (wstep; apply wlp_assert_s). cbn [pkt_client_ session_num_ SmInv.EA].
  wstep. apply wp_wlp, wp_num_sessions. wstep. apply wlp_assert_s. wstep. apply wlp_session_at. rewrite Nat2Z.id. cbn [dp set_pending]. intros o _ Ho. rewrite Hn in Ho. injection Ho as <-.
  do 4 (wstep; apply wlp_assert_s). wstep. apply wlp_free_ring. wstep. apply wq_modify. pose proof (lookup_lt_Some _ _ _ Hn). apply wp_wlp, wp_bury with n; [done|done|]. cbn. by apply list_lookup_insert_eq.
Qed.

(** ** The request again, then its response *)
Context (HKA : kNumRxRingEntries A < 2 ^ 64) (HKB : kNumRxRingEntries B < 2 ^ 64).
Lemma run_three expired i j s a b a' p q :
  sm_exec (sm_pkt_loss_scan expired) (na s) = Ok a → udp a !! i = Some p → sm_exec (handle_sm_pkt asserts B p) (nb s) = Ok b → udp b !! j = Some q → sm_exec (handle_sm_pkt asserts A q) a = Ok a' →
  net_run asserts A B [Resend expired; ToServer i; ToClient j] s = Ok (mk_net a' b).
Proof. intros Ha Hp Hb Hq Ha'. cbn. rewrite Ha. cbn. rewrite Hp, Hb. cbn. by rewrite Hq, Ha'. Qed.
(** The scan sends the request of a session again. *)
Lemma scan_sends expired toks s n x : expired (Z.of_nat n) = true → net_inv A B None toks s → va s !! n = Some (Some x) → in_progress x → Z.of_nat n ∈ sm_pending_reqs_ (na s) →
  ∃ a i, sm_exec (sm_pkt_loss_scan expired) (na s) = Ok a ∧ net_inv A B None toks (mk_net a (nb s)) ∧ dp a = dp (na s) ∧ (length (udp (na s)) ≤ i)%nat ∧ udp a !! i = Some (req_of x).
Proof.
  intros He Hi Hn Hp Hpend. destruct (wp_exec _ _ _ (wq_and _ _ _ _ _ _ (step_resend A B toks s expired Hi) (wlp_scan expired (na s)))) as (a & Ha & Hia & Hdp & l & Hl & Hin).
  destruct (proj1 (list_elem_of_lookup _ _) (Hin n x He Hpend Hn Hp)) as [k Hk]. exists a, (length (udp (na s)) + k)%nat. split_and!; [done|done|done|lia|]. rewrite Hl, lookup_app_r by lia. by replace (_ + k - _)%nat with k by lia.
Qed.
Lemma handshake_connects expired toks s n x : expired (Z.of_nat n) = true → net_inv A B None toks s → Z.of_nat (length toks) < kInvalidSessionNum →
  va s !! n = Some (Some x) → state_ x = kConnectInProgress → kSessionCredits ≤ ring_entries_available_ (nb s) → my_transport B = my_transport A →
  is_Some (resolve_remote_routing_info B (my_rinfo A)) → is_Some (resolve_remote_routing_info A (my_rinfo B)) →
  ∃ i j s' x', (length (udp (na s)) ≤ i)%nat ∧ (length (udp (nb s)) ≤ j)%nat ∧ net_run asserts A B [Resend expired; ToServer i; ToClient j] s = Ok s' ∧
    net_inv A B None toks s' ∧ va s' !! n = Some (Some x') ∧ state_ x' = kConnected.
Proof.
  intros He Hi Hlen Hn Hst Hring Htr HρB [ρ HρA]. destruct (ni_waiting _ _ _ _ _ Hi _ _ Hn Hst) as [Hpend|]; [|done].
  destruct (scan_sends _ _ _ _ _ He Hi Hn ltac:(by left) Hpend) as (a & i & Ha & Hia & Hdp & Hlei & Hp). destruct (client_at _ _ _ _ _ _ _ Hi Hn) as (t & Ht & Hx).
  destruct Hx as [|m ρ' Hm _|m ρ' r Hm]; [|done|done]. set (x0 := new_Session _ _ _ _ _ _ _) in *. change (req_of x0) with (mk_SmPkt kConnectReq kNoError t (EA n) ES) in Hp.
  assert (Hcl : ¬ closing (session_vec_ (dp a)) n) by (unfold closing; by rewrite Hdp, Hn).
  destruct (wp_exec _ _ _ (wq_and _ _ _ _ _ _ (step_to_server asserts A B HKB toks _ _ Hia Hlen (list_elem_of_lookup_2 _ _ _ Hp)) (wlp_connect_req toks _ n t Hia Hlen Ht Hcl Hring HρB Htr))) as (b & Hb & Hib & m & Hm & Hub). cbn [na nb] in *.
  set (q := mk_SmPkt kConnectResp kNoError t (EA n) (SB m (my_rinfo B))) in *. assert (Hq : udp b !! length (udp (nb s)) = Some q) by (rewrite Hub; by apply list_lookup_middle).
  assert (Hx' : client_sess A B (conn_req_token_map_ b) n t x0) by constructor.
  assert (Hn' : session_vec_ (dp a) !! n = Some (Some x0)) by by rewrite Hdp.
  destruct (wp_exec _ _ _ (wq_and _ _ _ _ _ _ (step_to_client asserts A B HKA toks (mk_net a b) q Hib (list_elem_of_lookup_2 _ _ _ Hq)) (wlp_connect_resp (mk_net a b) n t m ρ x0 Hn' Hx' eq_refl HρA))) as (a' & Ha' & Hia' & x' & Hx1 & Hx2).
  exists i, (length (udp (nb s))), (mk_net a' b), x'. split_and!; [done|done|by eapply run_three|done..].
Qed.
Lemma handshake_disconnects expired toks s n x : expired (Z.of_nat n) = true → net_inv A B None toks s → Z.of_nat (length toks) < kInvalidSessionNum →
  va s !! n = Some (Some x) → state_ x = kDisconnectInProgress → Z.of_nat n ∈ sm_pending_reqs_ (na s) →
  ∃ i j s' m, (length (udp (na s)) ≤ i)%nat ∧ (length (udp (nb s)) ≤ j)%nat ∧ net_run asserts A B [Resend expired; ToServer i; ToClient j] s = Ok s' ∧
    net_inv A B None toks s' ∧ va s' !! n = Some None ∧ session_num_ (server_ x) = Z.of_nat m ∧ vb s' !! m = Some None.
Proof.
  intros He Hi Hlen Hn Hst Hpend. destruct (scan_sends _ _ _ _ _ He Hi Hn ltac:(by right) Hpend) as (a & i & Ha & Hia & Hdp & Hlei & Hp). destruct (client_at _ _ _ _ _ _ _ Hi Hn) as (t & Ht & Hx).
  destruct Hx as [|m ρ' Hm _|m ρ r Hm]; [done|done|]. set (x0 := new_Session _ _ _ _ _ _ _) in *. change (req_of x0) with (mk_SmPkt kDisconnectReq kNoError t (EA n) (SB m ρ)) in Hp.
  destruct (wp_exec _ _ _ (wq_and _ _ _ _ _ _ (step_to_server asserts A B HKB toks _ _ Hia Hlen (list_elem_of_lookup_2 _ _ _ Hp)) (wlp_disconnect_req (mk_net a (nb s)) n t m ρ))) as (b & Hb & Hib & Hub & HT). cbn [na nb] in *.
  set (q := mk_SmPkt kDisconnectResp kNoError t (EA n) (SB m ρ)) in *. assert (Hq : udp b !! length (udp (nb s)) = Some q) by (rewrite Hub; by apply list_lookup_middle).
  assert (Hx' : client_sess A B (conn_req_token_map_ b) n t x0) by (constructor; by rewrite HT).
  assert (Hn' : session_vec_ (dp a) !! n = Some (Some x0)) by by rewrite Hdp.
  destruct (wp_exec _ _ _ (wq_and _ _ _ _ _ _ (step_to_client asserts A B HKA toks (mk_net a b) q Hib (list_elem_of_lookup_2 _ _ _ Hq)) (wlp_disconnect_resp (mk_net a b) n t m ρ x0 Hn' Hx'))) as (a' & Ha' & Hia' & Hx1).
  exists i, (length (udp (nb s))), (mk_net a' b), m. split_and!; [done|done|by eapply run_three|done..|].
  pose proof (proj1 (Forall_forall _ _) (ni_resp _ _ _ _ _ Hib) q (list_elem_of_lookup_2 _ _ _ Hq)) as Hr. by apply disconnected_buried in Hr.
Qed.
End progress.

(** * Session management, from the outside

    Whatever happens to the packets between a client and a server, their sessions agree. *)

(** Two sessions that are ready for the datapath: each knows the other's number. *)
Record paired (A B : ident) (t : Z) (n m : nat) (x y : Session) : Prop := {
  pr_client : ∃ ρ, resolve_remote_routing_info A (my_rinfo B) = Some ρ ∧ x = new_Session true kConnected (Z.of_nat n) (Z.of_nat m) t (EA A n) (SB A B m ρ);
  pr_server : ∃ ρ, resolve_remote_routing_info B (my_rinfo A) = Some ρ ∧ y = new_Session false kConnected (Z.of_nat m) (Z.of_nat n) t (set_routing_info ρ (EA A n)) (SB A B m (my_rinfo B))
}.
Section ok.
Context (A B : ident).
#[local] Abbreviation va s := (session_vec_ (dp (na s))).
#[local] Abbreviation vb s := (session_vec_ (dp (nb s))).
(** A connected session of the client has its session of the server; a session of the
    server belongs to one session of the client; receive-ring entries are neither lost nor
    used twice; the user is told about each session once. *)
Record sm_ok (s : net) : Prop := {
  so_connected n x : va s !! n = Some (Some x) → state_ x = kConnected → ∃ t m y, vb s !! m = Some (Some y) ∧ paired A B t n m x y;
  so_server m y : vb s !! m = Some (Some y) → ∃ n, (n < length (va s))%nat ∧ remote_session_num_ y = Z.of_nat n ∧ ∀ m' y', vb s !! m' = Some (Some y') → remote_session_num_ y' = Z.of_nat n → m' = m;
  so_ringA : ring_inv A (na s);
  so_ringB : ring_inv B (nb s);
  so_calls n : calls_ok (va s !! n) (calls_of n (sm_calls (na s)))
}.
Lemma inv_sm_ok toks s : net_inv A B None toks s → sm_ok s.
Proof.
  intros Hi. split; try apply Hi.
  - intros n x Hn Hst. destruct (client_at _ _ _ _ _ _ _ Hi Hn) as (t & Ht & Hx). destruct Hx as [|m ρ Hm Hρ|m ρ r Hm]; [done| |done].
    destruct (ni_map _ _ _ _ _ Hi _ _ Hm) as (_ & m' & ->%Nat2Z.inj & Hlt). destruct (lookup_lt_is_Some_2 (vb s) m' Hlt) as [[y|] Hy].
    + destruct (ni_server _ _ _ _ _ Hi _ _ Hy) as (n' & t' & ρ' & Ht' & Hm' & Hρ' & ->). assert (t' = t) as -> by by eapply (ni_inj _ _ _ _ _ Hi).
      assert (n' = n) as -> by by eapply NoDup_lookup; [apply Hi|..]. exists t, m'. eexists. split; [done|]. split; eauto.
    + pose proof (ni_buried _ _ _ _ _ Hi _ _ _ Ht Hm Hy) as Hcl. unfold closing in Hcl. by rewrite Hn in Hcl.
  - intros m y Hy. destruct (ni_server _ _ _ _ _ Hi _ _ Hy) as (n & t & ρ & Ht & Hm & Hρ & ->). exists n. split_and!; [rewrite <- (ni_len _ _ _ _ _ Hi); by eapply lookup_lt_Some|done|].
    intros m' y' Hy' Hn. destruct (ni_server _ _ _ _ _ Hi _ _ Hy') as (n' & t' & ρ' & Ht' & Hm' & _ & ->). cbn in Hn. assert (n' = n) as -> by lia. apply Nat2Z.inj. congruence.
Qed.
(** Two endpoints without sessions. *)
Definition sm_start (ra rb : Rpc) : net := mk_net (new_Sm A ra) (new_Sm B rb).
(** What the two hosts are: the sizes of their receive rings are 64-bit numbers, and their names fit the
    array of an endpoint, with the null character at its end. *)
Record hosts_ok : Prop := {
  ho_ringA : 0 ≤ kNumRxRingEntries A < 2 ^ 64;
  ho_ringB : 0 ≤ kNumRxRingEntries B < 2 ^ 64;
  ho_nameA : strcpy_hostname (my_hostname A) = Ok (my_hostname A);
  ho_nameB : strcpy_hostname (my_hostname B) = Ok (my_hostname B)
}.
Lemma sm_start_inv ra rb : hosts_ok → session_vec_ ra = [] → session_vec_ rb = [] → net_inv A B None [] (sm_start ra rb).
Proof.
  intros [] Ha Hb. split; cbn [sm_start na nb new_Sm dp conn_req_token_map_ udp sm_calls sm_pending_reqs_]; rewrite ?Ha, ?Hb; try done.
  - apply NoDup_nil_2.
  - split; cbn; [lia|]. rewrite Ha. cbn. lia.
  - split; cbn; [lia|]. rewrite Hb. cbn. lia.
  - by intros z ?%not_elem_of_nil.
Qed.
(** The tokens of the sessions are different, and the numbers of the sessions fit. *)
Definition tokens_ok (ls : list sm_label) : Prop := NoDup (ls ≫= created) ∧ Z.of_nat (length (ls ≫= created)) < kInvalidSessionNum.
Lemma run_from_start asserts ra rb ls ls' : hosts_ok → session_vec_ ra = [] → session_vec_ rb = [] → tokens_ok (ls ++ ls') →
  ∃ s toks, net_run asserts A B ls (sm_start ra rb) = Ok s ∧ net_inv A B None toks s ∧
    NoDup (toks ++ (ls' ≫= created)) ∧ Z.of_nat (length (toks ++ (ls' ≫= created))) < kInvalidSessionNum.
Proof.
  unfold tokens_ok. rewrite bind_app. intros Hr Ha Hb [Ht Hlen]. pose proof Hr as [[_ ?] [_ ?] ? ?].
  apply (net_run_ok asserts A B) with (toks := @nil Z); [done..|by apply sm_start_inv|done|done].
Qed.
Lemma tokens_ok_nil ls : tokens_ok ls → tokens_ok (ls ++ []).
Proof. by rewrite app_nil_r. Qed.
Lemma reached asserts ra rb ls s : hosts_ok → session_vec_ ra = [] → session_vec_ rb = [] → tokens_ok ls → net_run asserts A B ls (sm_start ra rb) = Ok s →
  ∃ toks, net_inv A B None toks s ∧ Z.of_nat (length toks) < kInvalidSessionNum.
Proof.
  intros Hr Ha Hb Ht%tokens_ok_nil Hrun. destruct (run_from_start asserts ra rb ls [] Hr Ha Hb Ht) as (s' & toks & Hrun' & Hi & _ & Hl).
  rewrite Hrun in Hrun'. injection Hrun' as <-. cbn in Hl. rewrite app_nil_r in Hl. eauto.
Qed.

(** C14: a client that creates sessions to a server and destroys them, and that server, never fault or fail an
    assertion, for any order, loss and repetition of their packets, and [sm_ok] holds at
    every point: a connected session of the client has its counterpart at the server with the numbers of both, a
    session of the server belongs to one of the client, receive-ring entries are neither lost nor used twice,
    and the user is told about each session once.  Assumed are host names that fit their array (fewer than 128
    characters, no null character), ring sizes below 2^64, different tokens for different sessions (they are
    random numbers), and fewer than 65535 sessions in all; both start without sessions. *)
Theorem sm_runs_safely asserts ra rb ls : hosts_ok → session_vec_ ra = [] → session_vec_ rb = [] → tokens_ok ls →
  ∃ s, net_run asserts A B ls (sm_start ra rb) = Ok s ∧ sm_ok s.
Proof.
  intros Hr Ha Hb Ht%tokens_ok_nil. destruct (run_from_start asserts ra rb ls [] Hr Ha Hb Ht) as (s & toks & Hrun & Hi & _).
  exists s. split; [done|]. by eapply inv_sm_ok.
Qed.
(** C15: in any state that [sm_runs_safely] speaks of, whatever was lost, a session that is being connected and whose last request has timed
    out has its request sent again by the next scan, and the delivery of this request and of its response
    connects it on both sides, when the server has the ring entries of a session, both sides have the same
    transport, and each resolves the routing info of the other. *)
Theorem connect_completes asserts ra rb ls s n x expired : hosts_ok → session_vec_ ra = [] → session_vec_ rb = [] → tokens_ok ls → net_run asserts A B ls (sm_start ra rb) = Ok s →
  va s !! n = Some (Some x) → state_ x = kConnectInProgress → expired (Z.of_nat n) = true → kSessionCredits ≤ ring_entries_available_ (nb s) → my_transport B = my_transport A →
  is_Some (resolve_remote_routing_info B (my_rinfo A)) → is_Some (resolve_remote_routing_info A (my_rinfo B)) →
  ∃ i j s', (length (udp (na s)) ≤ i)%nat ∧ (length (udp (nb s)) ≤ j)%nat ∧ net_run asserts A B [Resend expired; ToServer i; ToClient j] s = Ok s' ∧
    ∃ t m x' y, va s' !! n = Some (Some x') ∧ vb s' !! m = Some (Some y) ∧ paired A B t n m x' y.
Proof.
  intros Hr Ha Hb Ht Hrun Hn Hst He Hring Htr HB HA. pose proof Hr as [[_ ?] [_ ?] ? ?]. destruct (reached asserts ra rb ls s) as (toks & Hi & Hlen); [done..|].
  destruct (handshake_connects asserts A B) with (expired := expired) (toks := toks) (s := s) (n := n) (x := x) as (i & j & s' & x' & Hi1 & Hj & Hrun' & Hi' & Hx' & Hst'); [done..|].
  exists i, j, s'. split_and!; [done..|]. destruct (so_connected _ (inv_sm_ok _ _ Hi') _ _ Hx' Hst') as (t & m & y & Hy & Hp). by exists t, m, x', y.
Qed.
(** C16: a session that is being disconnected and still waits for its response goes away on
    both sides in the same way. *)
Theorem disconnect_completes asserts ra rb ls s n x expired : hosts_ok → session_vec_ ra = [] → session_vec_ rb = [] → tokens_ok ls → net_run asserts A B ls (sm_start ra rb) = Ok s →
  va s !! n = Some (Some x) → state_ x = kDisconnectInProgress → expired (Z.of_nat n) = true → Z.of_nat n ∈ sm_pending_reqs_ (na s) →
  ∃ i j s', (length (udp (na s)) ≤ i)%nat ∧ (length (udp (nb s)) ≤ j)%nat ∧ net_run asserts A B [Resend expired; ToServer i; ToClient j] s = Ok s' ∧
    va s' !! n = Some None ∧ ∃ m, session_num_ (server_ x) = Z.of_nat m ∧ vb s' !! m = Some None.
Proof.
  intros Hr Ha Hb Ht Hrun Hn Hst He Hp. pose proof Hr as [[_ ?] [_ ?] ? ?]. destruct (reached asserts ra rb ls s) as (toks & Hi & Hlen); [done..|].
  destruct (handshake_disconnects asserts A B) with (expired := expired) (toks := toks) (s := s) (n := n) (x := x) as (i & j & s' & m & Hi1 & Hj & Hrun' & Hi' & Hx' & Hm & Hb'); [done..|].
  exists i, j, s'. split_and!; [done..|]. eauto.
Qed.
End ok.

(** ** An example

    The client has receive-ring entries for two sessions, the server for one. *)
Definition sm_rpc : Rpc := mk_rpc [] [] [] 0 [] 0 0 None None 0 [] 0 (λ _, mk_reqfunc 7 kForeground) 0 (mk_heap ∅ 0) ∅ ∅ ∅ [] [].
Definition exA : ident := mk_ident "a" 31850 0 kInfiniBand 5 Some 64 false.
Definition exB : ident := mk_ident "b" 31850 0 kInfiniBand 6 Some 32 false.
Definition sm_run (ls : list sm_label) : outcome net := net_run true exA exB ls (sm_start exA exB sm_rpc sm_rpc).
Lemma ex_hosts : hosts_ok exA exB.
Proof. split; cbn; try lia; reflexivity. Qed.
Lemma ex_tokens ls : bool_decide (NoDup (ls ≫= created)) && (Z.of_nat (length (ls ≫= created)) <? 65535) = true → tokens_ok ls.
Proof. intros [?%bool_decide_eq_true ?%Z.ltb_lt]%andb_true_iff. by split. Qed.

Lemma sm_runs_safely_witness : ∃ s, sm_run [Create 100; ToServer 0; ToServer 0; ToClient 1; Destroy 0; ToClient 0] = Ok s ∧ sm_ok exA exB s.
Proof. apply (sm_runs_safely exA exB true sm_rpc sm_rpc); [apply ex_hosts|done|done|by apply ex_tokens]. Defined.
Definition sm_state (ls : list sm_label) : net := match sm_run ls with Ok s => s | Fault _ => sm_start exA exB sm_rpc sm_rpc end.
Lemma sm_state_run ls : match sm_run ls with Ok _ => true | Fault _ => false end = true → net_run true exA exB ls (sm_start exA exB sm_rpc sm_rpc) = Ok (sm_state ls).
Proof. unfold sm_state, sm_run. by destruct (net_run _ _ _ _ _). Qed.
Lemma connect_completes_witness : ∃ i j s', net_run true exA exB [Resend (λ _, true); ToServer i; ToClient j] (sm_state [Create 100]) = Ok s' ∧
  ∃ t m x' y, session_vec_ (dp (na s')) !! 0%nat = Some (Some x') ∧ session_vec_ (dp (nb s')) !! m = Some (Some y) ∧ paired exA exB t 0 m x' y.
Proof.
  destruct (connect_completes exA exB true sm_rpc sm_rpc [Create 100] (sm_state [Create 100]) 0 (new_Session true kConnectInProgress 0 0 100 (EA exA 0) (ES exA exB)) (λ _, true)) as (i & j & s' & _ & _ & H);
    [apply ex_hosts|reflexivity|reflexivity|by apply ex_tokens|apply sm_state_run; reflexivity|reflexivity|reflexivity|reflexivity|apply Z.leb_le; reflexivity|reflexivity|by eexists|by eexists|by exists i, j, s'].
Defined.
Lemma disconnect_completes_witness : ∃ i j s', net_run true exA exB [Resend (λ _, true); ToServer i; ToClient j] (sm_state [Create 100; ToServer 0; ToClient 0; Destroy 0]) = Ok s' ∧
  session_vec_ (dp (na s')) !! 0%nat = Some None.
Proof.
  destruct (disconnect_completes exA exB true sm_rpc sm_rpc [Create 100; ToServer 0; ToClient 0; Destroy 0] (sm_state [Create 100; ToServer 0; ToClient 0; Destroy 0]) 0 (new_Session true kDisconnectInProgress 0 0 100 (EA exA 0) (SB exA exB 0 6)) (λ _, true)) as (i & j & s' & _ & _ & Hr & Hn & _);
    [apply ex_hosts|reflexivity|reflexivity|by apply ex_tokens|apply sm_state_run; reflexivity|reflexivity|reflexivity|reflexivity|left|by exists i, j, s'].
Defined.
