(* ===== verification/SmFindings.v ===== *)
(** * Where session management does not do what it means to

    A late response stops the retransmission of a disconnect request, a delayed request
    leaves a session that nobody destroys, the reset of a client faults, and a host name of the
    longest length that is accepted does not fit. *)

From S2P Require Import Prelude IoVector Serializer SmTypes RpcTypes Rpc RpcState Sm SmInv SmStep SmTheorems.

(** ** A late response

    After a late copy of a connect response has arrived, nothing on the client's side touches the
    session that is being disconnected, and nothing on the server's side touches its counterpart
    as long as the disconnect requests that have been sent stay lost. *)
Definition disconnects (n : nat) (p : SmPkt) : Prop := sm_pkt_type_ p = kDisconnectReq ∧ session_num_ (pkt_client_ p) = Z.of_nat n.

(** What a step keeps: a session, that no request of it waits for a response, and a property of
    the packets it sends. *)
Definition passes_by (Q : SmPkt → Prop) (n : nat) : relation Sm := λ a a',
  (∀ o, session_vec_ (dp a) !! n = Some o → session_vec_ (dp a') !! n = Some o) ∧
  (Z.of_nat n ∉ sm_pending_reqs_ a → Z.of_nat n ∉ sm_pending_reqs_ a') ∧
  ∃ l, udp a' = udp a ++ l ∧ Forall Q l.
#[global] Instance passes_by_preorder Q n : PreOrder (passes_by Q n).
Proof.
  split.
  - intros a. split_and!; [done|done|]. exists []. by rewrite app_nil_r.
  - intros a b c (H1 & H2 & l & El & Hl) (H3 & H4 & l' & El' & Hl'). split_and!; [auto|auto|].
    exists (l ++ l'). rewrite El', El, app_assoc. split; [done|]. by apply Forall_app.
Qed.
Lemma passes_by_same Q n a a' : dp a' = dp a → sm_pending_reqs_ a' = sm_pending_reqs_ a → udp a' = udp a → passes_by Q n a a'.
Proof. intros E1 E2 E3. unfold passes_by. rewrite E1, E2, E3. split_and!; [done|done|]. exists []. by rewrite app_nil_r. Qed.

Section passing.
Context (asserts : bool) (Q : SmPkt → Prop) (n : nat).
Implicit Types (a : Sm) (x : Session).
Abbreviation Passes m := (Preserves (passes_by Q n) m).
#[local] Instance passes_assert b : Passes (assert_s asserts b).
Proof. unfold assert_s. destruct asserts; apply _. Qed.
#[local] Instance passes_num_sessions : Passes num_sessions.
Proof. unfold num_sessions. pres. Qed.
#[local] Instance passes_session_at z : Passes (session_at z).
Proof. unfold session_at. pres. Qed.
#[local] Instance passes_have_ring : Passes have_ring_entries.
Proof. unfold have_ring_entries. pres. Qed.
#[local] Instance passes_construct p err : Passes (construct_resp p err).
Proof. unfold construct_resp. pres. Qed.
Lemma passes_modify f : (∀ a, dp (f a) = dp a ∧ sm_pending_reqs_ (f a) = sm_pending_reqs_ a ∧ udp (f a) = udp a) → Passes (modify f).
Proof. intros Hf. apply preserves_modify. intros a. destruct (Hf a) as (? & ? & ?). by apply passes_by_same. Qed.
#[local] Hint Extern 1 (Preserves _ (modify _)) => by apply passes_modify : pres.
#[local] Instance passes_alloc_ring : Passes (alloc_ring_entries asserts).
Proof. unfold alloc_ring_entries. pres. Qed.
#[local] Instance passes_free_ring me : Passes (free_ring_entries asserts me).
Proof. unfold free_ring_entries. pres. Qed.
#[local] Instance passes_handler num ev err : Passes (sm_handler num ev err).
Proof. unfold sm_handler. pres. Qed.
#[local] Instance passes_push x : Passes (push_session x).
Proof.
  intros a. unfold push_session. cbn. split_and!; [|done|].
  - intros o Ho. cbn. by apply lookup_app_l_Some.
  - exists []. by rewrite app_nil_r.
Qed.
Lemma passes_tx p : Q p → Passes (sm_pkt_udp_tx_st p).
Proof. intros Hp a. unfold wq. cbn. split_and!; [done|done|]. eexists. split; [done|]. by apply Forall_singleton. Qed.
Lemma passes_put z o : z ≠ Z.of_nat n → Passes (put_session_at z o).
Proof.
  intros Hz a. unfold put_session_at. do 4 wstep. match goal with H : arr_set _ _ _ = Ok ?l |- _ => apply arr_set_Ok in H as [? ->] end.
  cbn. split_and!; [|done|].
  - intros o' Ho. cbn. rewrite list_lookup_insert_ne by lia. done.
  - exists []. by rewrite app_nil_r.
Qed.
Lemma passes_send x : local_session_num_ x ≠ Z.of_nat n → Q (req_of x) → Passes (send_sm_req_st x).
Proof.
  intros Hx Hd a. unfold wq. cbn. split_and!; [done| |].
  - cbn. intros Hn [?|E]%elem_set_insert; [done|]. congruence.
  - eexists. split; [done|]. by apply Forall_singleton.
Qed.
Lemma passes_erase z : Passes (modify (λ s, set_pending (set_erase z (sm_pending_reqs_ s)) s)).
Proof.
  apply preserves_modify. intros a. split_and!; [done| |].
  - cbn. intros Hn [_ Hin]%elem_set_erase. done.
  - exists []. by rewrite app_nil_r.
Qed.

Lemma passes_pend z : z ≠ Z.of_nat n → Passes (modify (λ s, set_pending (set_insert z (sm_pending_reqs_ s)) s)).
Proof.
  intros Hz. apply preserves_modify. intros a. split_and!; [done| |].
  - cbn. intros Hn [?|E]%elem_set_insert; [done|]. congruence.
  - exists []. by rewrite app_nil_r.
Qed.
End passing.
#[local] Hint Extern 1 (Preserves (passes_by _ _) (modify _)) => by apply passes_modify : pres.
#[local] Existing Instances passes_assert passes_num_sessions passes_session_at passes_have_ring passes_construct passes_alloc_ring passes_free_ring passes_handler passes_push.

Lemma wlp_preserves {T} (R : relation Sm) (m : M Sm T) a : Preserves R m → wlp m (λ _ a', R a a') a.
Proof. intros Hm. apply Hm. Qed.
Lemma wlp_num_sessions (Q : Z → Sm → Prop) a : Q (Z.of_nat (length (session_vec_ (dp a)))) a → wlp num_sessions Q a.
Proof. done. Qed.

Section late.
Context (asserts : bool) (A B : ident).
Implicit Types (s : net) (toks : list Z) (n m k : nat) (x y : Session) (p : SmPkt).
#[local] Abbreviation va s := (session_vec_ (dp (na s))).
#[local] Abbreviation vb s := (session_vec_ (dp (nb s))).
#[local] Abbreviation tmap s := (conn_req_token_map_ (nb s)).
#[local] Abbreviation inv := (net_inv A B None).
#[local] Abbreviation client_passes n := (passes_by (λ p, ¬ disconnects n p) n).

(** The sessions of the client know their numbers. *)
Definition numbered (v : list (option Session)) : Prop := ∀ k x, v !! k = Some (Some x) → local_session_num_ x = Z.of_nat k ∧ client_ x = EA A k.
Lemma inv_numbered toks s : inv toks s → numbered (va s).
Proof. intros Hi k x Hx. destruct (client_at _ _ _ _ _ _ _ Hi Hx) as (t & _ & Hs). destruct (client_sess_common _ _ _ _ _ _ Hs) as (_ & ? & _ & ? & _). done. Qed.
Lemma not_disconnects n k x : client_ x = EA A k → k ≠ n → ¬ disconnects n (req_of x).
Proof. intros Hc Hk [_ E]. cbn in E. rewrite Hc in E. cbn in E. lia. Qed.

Lemma create_passes toks s n t : inv toks s → Z.of_nat (length toks) < kInvalidSessionNum → (n < length (va s))%nat →
  wlp (create_session_st asserts A (my_hostname B) (my_sm_port B) (my_rpc_id B) t) (λ _ a, client_passes n (na s) a) (na s).
Proof.
  intros Hi Hlen Hn. unfold create_session_st. wsplit; [by wstep|]. wsplit; [by wstep|]. wstep. apply wp_wlp, wp_have_ring. wsplit; [by wstep|].
  wstep. apply wlp_num_sessions. rewrite bits16 by (rewrite <- (ni_len _ _ _ _ _ Hi); done).
  apply wlp_preserves. pres. apply passes_send; [cbn; lia|]. by intros [? _].
Qed.
Lemma destroy_passes toks s n x num : inv toks s → va s !! n = Some (Some x) → state_ x = kDisconnectInProgress →
  wlp (destroy_session_st asserts num) (λ _ a, client_passes n (na s) a) (na s).
Proof.
  intros Hi Hn Hst. unfold destroy_session_st. wstep. apply wlp_num_sessions. wsplit; [by wstep|]. bool_prop.
  wstep. apply wlp_session_at. intros o Hz0 Ho. destruct o as [x'|]; [|by wstep]. destruct (inv_numbered _ _ Hi _ _ Ho) as [Hloc Hcl].
  destruct (decide (Z.to_nat num = n)) as [E|E].
  - rewrite E, Hn in Ho. injection Ho as <-. rewrite Hst. apply wlp_preserves. pres.
  - apply wlp_preserves. pres; try (apply passes_put; lia). apply passes_send; [cbn; lia|]. by eapply not_disconnects.
Qed.
Lemma resend_passes toks s n expired : inv toks s → Z.of_nat n ∉ sm_pending_reqs_ (na s) →
  wlp (sm_pkt_loss_scan expired) (λ _ a, client_passes n (na s) a) (na s).
Proof.
  intros Hi Hn. unfold sm_pkt_loss_scan. do 2 wstep.
  apply (wq_for_each _ (λ zs a, client_passes n (na s) a ∧ dp a = dp (na s) ∧ Z.of_nat n ∉ zs)); [by split_and!; try reflexivity| |by intros a (? & _)].
  intros z zs a (Hp & Hdp & Hz). apply not_elem_of_cons in Hz as [Hz Hzs]. wstep. apply wlp_session_at. intros o Hz0 Ho. rewrite Hdp in Ho.
  destruct o as [x|]; [|by wstep]. destruct (inv_numbered _ _ Hi _ _ Ho) as [Hloc Hcl].
  assert (Hsend : wlp (send_sm_req_st x) (λ _ b, client_passes n (na s) b ∧ dp b = dp (na s) ∧ Z.of_nat n ∉ zs) a).
  { eapply wq_mono with (P := λ _ b, client_passes n a b ∧ dp b = dp a).
    - apply (wq_and _ (λ _, True)); [apply wlp_preserves, passes_send; [lia|]|done]. eapply not_disconnects; [done|]. lia.
    - intros _ b [? ->]. split_and!; [by etrans|done..]. }
  destruct (state_ x), (expired z); try (by wstep); exact Hsend.
Qed.
Lemma to_client_passes toks s n x p : inv toks s → va s !! n = Some (Some x) → state_ x = kDisconnectInProgress → p ∈ udp (nb s) →
  (sm_pkt_type_ p = kDisconnectResp → session_num_ (pkt_client_ p) ≠ Z.of_nat n) →
  wlp (handle_sm_pkt asserts A p) (λ _ a, client_passes n (na s) a) (na s).
Proof.
  intros Hi Hn Hst Hp Hnd. pose proof (inv_numbered _ _ Hi) as Hnum.
  assert (∃ k, session_num_ (pkt_client_ p) = Z.of_nat k ∧ (k ≠ n ∨ sm_pkt_type_ p = kConnectResp) ∧ (sm_pkt_type_ p = kConnectResp ∨ sm_pkt_type_ p = kDisconnectResp)) as (k & Hk & Hkn & Hty).
  { revert Hnd. pose proof (proj1 (Forall_forall _ _) (ni_resp _ _ _ _ _ Hi) _ Hp) as [k t m Ht Hm|k t err Ht H1 H2|k t m ρ Ht Hm Hcl Hb]; intros Hnd; exists k; cbn in *; split_and!; auto.
    left. intros ->. by apply Hnd. }
  unfold handle_sm_pkt. wstep. eapply wq_mono with (P := λ _ a, client_passes n (na s) a ∧ dp a = dp (na s)).
  { destruct Hty as [-> | ->]; cbn [sm_pkt_type_is_req negb]; (apply (wq_and _ (λ _, True)); [apply wlp_preserves, passes_erase|done]). }
  intros _ a [Ha Hdp]. rewrite <- Hdp in Hnum, Hn. apply wq_mono with (P := λ _ a', client_passes n a a'); [|intros; by etrans]. clear Ha.
  destruct Hty as [Hty|Hty]; rewrite Hty.
  - unfold handle_connect_resp_st. wstep. apply wlp_assert_s. wstep. apply wlp_num_sessions. wstep. apply wlp_assert_s. wstep. apply wlp_session_at. intros o Hz0 Ho. rewrite Hk, Nat2Z.id in Ho.
    destruct o as [x'|]; [|by wstep]. destruct (Hnum _ _ Ho) as [Hloc Hcl]. destruct (decide (k = n)) as [->|E].
    + rewrite Hn in Ho. injection Ho as <-. rewrite Hst, bool_decide_eq_false_2 by done. cbn [negb]. by wstep.
    + apply wlp_preserves. unfold bury_session_st. pres; rewrite ?Hk; try (apply passes_put; lia); try (apply passes_pend; lia).
      apply passes_send; [cbn; lia|]. by eapply not_disconnects.
  - destruct Hkn as [E|E]; [|congruence].
    unfold handle_disconnect_resp_st. wstep. apply wlp_assert_s. wstep. apply wlp_assert_s. wstep. apply wlp_num_sessions. wstep. apply wlp_assert_s. wstep. apply wlp_session_at. intros o Hz0 Ho. rewrite Hk, Nat2Z.id in Ho.
    destruct o as [x'|]; [|by wstep]. destruct (Hnum _ _ Ho) as [Hloc Hcl]. apply wlp_preserves. unfold bury_session_st. pres. apply passes_put. lia.
Qed.
(** The server leaves a session alone until its disconnect request arrives. *)
Lemma to_server_passes toks s n x m y p : inv toks s → va s !! n = Some (Some x) → state_ x = kDisconnectInProgress → session_num_ (server_ x) = Z.of_nat m → vb s !! m = Some (Some y) →
  p ∈ udp (na s) → ¬ disconnects n p → wlp (handle_sm_pkt asserts B p) (λ _ b, passes_by (λ _, True) m (nb s) b) (nb s).
Proof.
  intros Hi Hn Hst Hm Hy Hp Hnd. destruct (client_at _ _ _ _ _ _ _ Hi Hn) as (t & Ht & Hx). destruct Hx as [|m1 ρ Hm1 _|m1 ρ r Hm1]; [done|done|]. cbn in Hm. apply Nat2Z.inj in Hm as ->.
  revert Hnd. pose proof (proj1 (Forall_forall _ _) (ni_req _ _ _ _ _ Hi) _ Hp) as [k t' Ht'|k t' m' ρ' Ht' Hm' Hcl]; intros Hnd; unfold handle_sm_pkt; wstep; apply wq_ret; cbn [sm_pkt_type_].
  - apply wlp_preserves. unfold handle_connect_req_st, reply_err. pres; by apply passes_tx.
  - assert (m' ≠ m). { intros ->. assert (t' = t) as -> by by eapply (ni_inj _ _ _ _ _ Hi). assert (k = n) as -> by by eapply NoDup_lookup; [apply Hi|..]. by apply Hnd. }
    unfold handle_disconnect_req_st, reply_err. wstep. apply wlp_assert_s. wstep. apply wlp_num_sessions. wstep. apply wlp_assert_s. wstep. apply wlp_session_at. cbn [session_num_ pkt_server_ SB]. rewrite Nat2Z.id. intros o _ Ho.
    destruct o as [y'|]; [|apply wlp_preserves; pres; by apply passes_tx]. destruct (ni_server _ _ _ _ _ Hi _ _ Ho) as (n' & t1 & ρ1 & _ & _ & _ & ->).
    apply wlp_preserves. unfold bury_session_st. pres; [by apply passes_tx|]. apply passes_put. cbn. lia.
Qed.
End late.

(** The invariant of what follows: the session [n] of the client and [m] of the server stay, the client does not wait for
    a response, and [U] has the disconnect requests that there will ever be. *)
Section stuck.
Context (asserts : bool) (A B : ident) (HKA : kNumRxRingEntries A < 2 ^ 64) (HKB : kNumRxRingEntries B < 2 ^ 64).
Context (HnA : strcpy_hostname (my_hostname A) = Ok (my_hostname A)) (HnB : strcpy_hostname (my_hostname B) = Ok (my_hostname B)).
Context (n m : nat) (x y : Session) (U : list SmPkt) (Hst : state_ x = kDisconnectInProgress) (Hsv : session_num_ (server_ x) = Z.of_nat m).
Implicit Types (s : net) (toks : list Z).
#[local] Abbreviation va s := (session_vec_ (dp (na s))).
#[local] Abbreviation vb s := (session_vec_ (dp (nb s))).

Record half_closed toks s : Prop := {
  hc_inv : net_inv A B None toks s;
  hc_client : va s !! n = Some (Some x);
  hc_server : vb s !! m = Some (Some y);
  hc_quiet : Z.of_nat n ∉ sm_pending_reqs_ (na s);
  hc_sent : ∃ l, udp (na s) = U ++ l ∧ Forall (λ p, ¬ disconnects n p) l
}.
(** The step does not deliver one of the lost requests. *)
Definition stays_lost (l : sm_label) : Prop := ∀ i p, l = ToServer i → U !! i = Some p → ¬ disconnects n p.

Lemma wlp_exec (mm : M Sm unit) (P : Sm → Prop) a a' : wlp mm (λ _, P) a → sm_exec mm a = Ok a' → P a'.
Proof. unfold wq, sm_exec. destruct (mm a) as [[]|]; [|done]. by intros ? [= <-]. Qed.
Lemma wlp_exec_Z (mm : M Sm Z) (P : Sm → Prop) a a' : wlp mm (λ _, P) a → sm_exec mm a = Ok a' → P a'.
Proof. unfold wq, sm_exec. destruct (mm a) as [[]|]; [|done]. by intros ? [= <-]. Qed.
Lemma half_closed_client toks toks' s a : half_closed toks s → net_inv A B None toks' (mk_net a (nb s)) →
  passes_by (λ p, ¬ disconnects n p) n (na s) a → half_closed toks' (mk_net a (nb s)).
Proof.
  intros [Hi Hc Hs Hq (l & Hu & Hl)] Hi' (H1 & H2 & l' & Hu' & Hl'). split; cbn; auto. exists (l ++ l'). rewrite Hu', Hu, app_assoc. split; [done|]. by apply Forall_app.
Qed.
Lemma half_closed_step toks s l : half_closed toks s → stays_lost l → NoDup (toks ++ created l) → Z.of_nat (length (toks ++ created l)) < kInvalidSessionNum →
  ∃ s' toks', net_step asserts A B l s = Ok s' ∧ half_closed toks' s' ∧ (toks' = toks ∨ toks' = toks ++ created l).
Proof.
  intros Hh Hl Hnd Hlen. destruct (net_step_ok asserts A B HKA HKB HnA HnB toks s l (hc_inv _ _ Hh) Hnd Hlen) as (s' & toks' & E & Hi' & Ht). exists s', toks'. split; [exact E|]. split; [|exact Ht].
  pose proof Hh as [Hi Hc Hs Hq (lu & Hu & Hlu)]. rewrite length_app in Hlen.
  destruct l as [t|num|expired|i|i]; cbn [net_step created length] in *.
  - destruct (sm_exec _ _) as [a|] eqn:Ea; [|done]. injection E as <-. eapply half_closed_client; [done|done|]. eapply (wlp_exec_Z _ _ _ _ (create_passes asserts A B toks s n t Hi ltac:(lia) ltac:(by eapply lookup_lt_Some)) Ea).
  - destruct (sm_exec _ _) as [a|] eqn:Ea; [|done]. injection E as <-. eapply half_closed_client; [done|done|]. eapply (wlp_exec_Z _ _ _ _ (destroy_passes asserts A B toks s n x num Hi Hc Hst) Ea).
  - destruct (sm_exec _ _) as [a|] eqn:Ea; [|done]. injection E as <-. eapply half_closed_client; [done|done|]. eapply (wlp_exec _ _ _ _ (resend_passes A B toks s n expired Hi Hq) Ea).
  - destruct (udp (na s) !! i) as [p|] eqn:Hp; [|injection E as <-; destruct Ht as [-> | ->]; [done|by rewrite app_nil_r]].
    destruct (sm_exec _ _) as [b|] eqn:Eb; [|done]. injection E as <-.
    assert (Hd : ¬ disconnects n p). { rewrite Hu in Hp. apply lookup_app_Some in Hp as [Hp|[_ Hp]]; [by apply (Hl i p)|]. exact (Forall_lookup_1 _ _ _ _ Hlu Hp). }
    pose proof (list_elem_of_lookup_2 _ _ _ Hp) as Hin.
    destruct (wlp_exec _ _ _ _ (to_server_passes asserts A B toks s n x m y p Hi Hc Hst Hsv Hs Hin Hd) Eb) as (Hb & _). split; cbn; eauto.
  - destruct (udp (nb s) !! i) as [p|] eqn:Hp; [|injection E as <-; destruct Ht as [-> | ->]; [done|by rewrite app_nil_r]].
    destruct (sm_exec _ _) as [a|] eqn:Ea; [|done]. injection E as <-. apply list_elem_of_lookup_2 in Hp. eapply half_closed_client; [done|done|].
    eapply (wlp_exec _ _ _ _ (to_client_passes asserts A B toks s n x p Hi Hc Hst Hp _) Ea). Unshelve.
    intros Hty Hk. destruct (client_at _ _ _ _ _ _ _ Hi Hc) as (t & Htk & Hx). destruct Hx as [|m1 ρ Hm1 _|m1 ρ r Hm1]; [done|done|]. cbn in Hsv. apply Nat2Z.inj in Hsv as ->.
    revert Hty Hk. destruct (proj1 (Forall_forall _ _) (ni_resp _ _ _ _ _ Hi) _ Hp) as [k t' m' Ht' Hm'|k t' err Ht' H1 H2|k t' m' ρ' Ht' Hm' Hcl Hb]; [done|done|]. cbn. intros _ ->%Nat2Z.inj.
    rewrite Htk in Ht'. injection Ht' as <-. rewrite Hm1 in Hm'. apply (inj Some) in Hm'. apply Nat2Z.inj in Hm' as ->. congruence.
Qed.
End stuck.

(** C37: a connect response that arrives late ends the retransmission of a disconnect request. Take any state
    that a client and a server reach (as in [sm_runs_safely]) in which a session [n] of the client is being disconnected and the
    server still has the counterpart [m], and let any connect response for session [n] arrive, a copy that
    was delayed, say.  From then on, whatever else happens, new sessions and retransmissions of others
    included, as long as the disconnect requests for [n] that have been sent so far stay lost: the client sends no other
    disconnect request for [n], the session of the client stays half closed, and that of the server stays
    connected, with the receive-ring entries of both. *)
Theorem late_response_cancels_retransmission asserts A B ra rb ls s n m x y j p ls' :
  hosts_ok A B → session_vec_ ra = [] → session_vec_ rb = [] → tokens_ok (ls ++ ToClient j :: ls') →
  net_run asserts A B ls (sm_start A B ra rb) = Ok s →
  session_vec_ (dp (na s)) !! n = Some (Some x) → state_ x = kDisconnectInProgress →
  session_num_ (server_ x) = Z.of_nat m → session_vec_ (dp (nb s)) !! m = Some (Some y) →
  udp (nb s) !! j = Some p → sm_pkt_type_ p = kConnectResp → session_num_ (pkt_client_ p) = Z.of_nat n →
  Forall (stays_lost n (udp (na s))) ls' →
  ∃ s' l, net_run asserts A B (ls ++ ToClient j :: ls') (sm_start A B ra rb) = Ok s' ∧
    session_vec_ (dp (na s')) !! n = Some (Some x) ∧ session_vec_ (dp (nb s')) !! m = Some (Some y) ∧
    udp (na s') = udp (na s) ++ l ∧ Forall (λ q, ¬ disconnects n q) l.
Proof.
  intros Hr Ha Hb Ht Hrun Hn Hst Hsv Hy Hp Hty Hk Hlost. pose proof Hr as [[_ ?] [_ ?] ? ?].
  destruct (run_from_start A B asserts ra rb ls (ToClient j :: ls') Hr Ha Hb Ht) as (s0 & toks & Hrun0 & Hi & Hnd & Hlen).
  rewrite Hrun in Hrun0. injection Hrun0 as <-. cbn [mbind list_bind created app] in Hnd, Hlen. fold (mbind (M := list) created ls') in Hnd, Hlen.
  pose proof (list_elem_of_lookup_2 _ _ _ Hp) as Hin.
  (* the response is ignored, but it ends the wait *)
  assert (Hlate : sm_exec (handle_sm_pkt asserts A p) (na s) = Ok (set_pending (set_erase (Z.of_nat n) (sm_pending_reqs_ (na s))) (na s))).
  { destruct (wp_exec _ _ _ (step_to_client asserts A B ltac:(done) toks s p Hi Hin)) as (a & Ea & _). rewrite Ea. f_equal.
    assert (Hw : wlp (handle_sm_pkt asserts A p) (λ _ a, a = set_pending (set_erase (Z.of_nat n) (sm_pending_reqs_ (na s))) (na s)) (na s)).
    { unfold handle_sm_pkt. rewrite Hty, Hk. wstep. apply wq_modify. unfold handle_connect_resp_st. rewrite Hk. wstep. apply wlp_assert_s. wstep. apply wlp_num_sessions. wstep. apply wlp_assert_s. wstep. apply wlp_session_at.
      rewrite Nat2Z.id. cbn [dp set_pending]. intros o _ Ho. rewrite Hn in Ho. injection Ho as <-. rewrite Hst, bool_decide_eq_false_2 by done. cbn [negb]. by wstep. }
    exact (wlp_exec _ _ _ _ Hw Ea). }
  set (s1 := mk_net (set_pending (set_erase (Z.of_nat n) (sm_pending_reqs_ (na s))) (na s)) (nb s)).
  assert (Hstep : net_step asserts A B (ToClient j) s = Ok s1) by (cbn; by rewrite Hp, Hlate).
  assert (Hi1 : net_inv A B None toks s1).
  { apply (inv_not_connecting A B toks s1 n); [by apply inv_erase|]. cbn. rewrite Hn. intros ? [= <-]. congruence. }
  destruct (net_run_ind asserts A B (half_closed A B n m x y (udp (na s))) (stays_lost n (udp (na s)))) with (ls := ls') (toks := toks) (rest := @nil Z) (s := s1) as (s' & toks' & Hrun' & Hh & _).
  - intros. by apply half_closed_step.
  - split; cbn; try done; [intros [? _]%elem_set_erase; done|]. exists []. by rewrite app_nil_r.
  - done.
  - by rewrite app_nil_r.
  - by rewrite app_nil_r.
  - destruct (hc_sent _ _ _ _ _ _ _ _ _ Hh) as (l & Hu & Hl). exists s', l. split_and!; [|apply Hh|apply Hh|done|done].
    rewrite net_run_app, Hrun. cbn [mbind outcome_bind net_run]. by rewrite Hstep.
Qed.
Definition late_run : list sm_label := [Create 100; ToServer 0; ToServer 0; ToClient 0; Destroy 0].
Definition late_session : Session := new_Session true kDisconnectInProgress 0 0 100 (EA exA 0) (SB exA exB 0 6).
Definition late_server : Session := new_Session false kConnected 0 0 100 (set_routing_info 5 (EA exA 0)) (SB exA exB 0 6).
Definition late_resp : SmPkt := mk_SmPkt kConnectResp kNoError 100 (EA exA 0) (SB exA exB 0 6).
Lemma late_response_cancels_retransmission_witness :
  ∃ s, sm_run (late_run ++ ToClient 1 :: [Create 200; Resend (λ _, true); ToServer 0; Destroy 0]) = Ok s ∧ session_vec_ (dp (na s)) !! 0%nat = Some (Some late_session).
Proof.
  destruct (late_response_cancels_retransmission true exA exB sm_rpc sm_rpc late_run (sm_state late_run) 0 0 late_session late_server 1 late_resp [Create 200; Resend (λ _, true); ToServer 0; Destroy 0])
    as (s & l & Hs & Hn & _); [apply ex_hosts|reflexivity|reflexivity|by apply ex_tokens|apply sm_state_run; reflexivity|reflexivity..| |exact (ex_intro _ s (conj Hs Hn))].
  repeat constructor; intros i p [=]; subst. by intros [= <-] [? _].
Defined.


(** ** States that nothing changes

    The client stays as it is and the server only answers. *)
Section frozen.
Context (asserts : bool) (A B : ident) (s0 : net) (allowed : nat → Prop) (resps : SmPkt → Prop).
Definition frozen (s : net) : Prop := ∃ u, s = mk_net (na s0) (set_udp u (nb s0)) ∧ Forall resps u.
Definition harmless (l : sm_label) : Prop := match l with Create _ => False | ToServer i => allowed i | _ => True end.
Context (Hpend : sm_pending_reqs_ (na s0) = [])
  (Hdestroy : ∀ num, sm_exec (destroy_session_st asserts num) (na s0) = Ok (na s0))
  (Hresp : ∀ p, resps p → sm_exec (handle_sm_pkt asserts A p) (na s0) = Ok (na s0))
  (Hreq : ∀ i p, allowed i → udp (na s0) !! i = Some p → ∃ rs, Forall resps rs ∧ ∀ u, sm_exec (handle_sm_pkt asserts B p) (set_udp u (nb s0)) = Ok (set_udp (u ++ rs) (nb s0))).
Lemma frozen_step l s : harmless l → frozen s → ∃ s', net_step asserts A B l s = Ok s' ∧ frozen s'.
Proof.
  intros Hl (u & -> & Hu). destruct l as [t|num|expired|i|i]; cbn [net_step na nb harmless] in *; [done|..].
  - rewrite Hdestroy. cbn. eexists. split; [done|]. by exists u.
  - assert (E : sm_exec (sm_pkt_loss_scan expired) (na s0) = Ok (na s0)). { unfold sm_exec, sm_pkt_loss_scan, mbind, M_bind, get. rewrite Hpend. done. }
    rewrite E. cbn. eexists. split; [done|]. by exists u.
  - destruct (udp (na s0) !! i) as [p|] eqn:Hp; [|eexists; split; [done|by exists u]]. destruct (Hreq _ _ Hl Hp) as (rs & Hrs & E). rewrite E. cbn. eexists. split; [done|].
    exists (u ++ rs). split; [done|]. by apply Forall_app.
  - cbn [udp set_udp]. destruct (u !! i) as [p|] eqn:Hp; [|eexists; split; [done|by exists u]]. rewrite Hresp by by eapply Forall_lookup_1. cbn. eexists. split; [done|]. by exists u.
Qed.
Lemma frozen_run ls s : Forall harmless ls → frozen s → ∃ s', net_run asserts A B ls s = Ok s' ∧ frozen s'.
Proof.
  intros Hls. revert s. induction Hls as [|l ls Hl _ IH]; intros s Hs; [by exists s|]. destruct (frozen_step l s Hl Hs) as (s1 & E & Hs1). cbn. rewrite E. cbn. by apply IH.
Qed.
End frozen.

(** ** A delayed request *)
Lemma destroy_out_of_range num a : ¬ (0 ≤ num < Z.of_nat (length (session_vec_ (dp a)))) → sm_exec (destroy_session_st true num) a = Ok a.
Proof.
  intros Hn. unfold sm_exec, destroy_session_st. change (num_sessions ≫= ?f) with (λ a : Sm, f (Z.of_nat (length (session_vec_ (dp a)))) a). cbv beta.
  destruct ((0 <=? num) && (num <? Z.of_nat (length (session_vec_ (dp a))))) eqn:E; [|done]. apply andb_true_iff in E as [?%Z.leb_le ?%Z.ltb_lt]. lia.
Qed.
Definition leak_run : list sm_label := [Create 100; ToServer 0; ToClient 0; Create 200; ToServer 1; Destroy 0; ToServer 2; ToClient 1; ToClient 2; ToServer 1].
Definition leaked : Session := new_Session false kConnected 1 1 200 (set_routing_info 5 (EA exA 1)) (SB exA exB 1 6).
Definition leak_resps : list SmPkt :=
  [late_resp; mk_SmPkt kConnectResp kRingExhausted 200 (EA exA 1) (ES exA exB); mk_SmPkt kDisconnectResp kNoError 100 (EA exA 0) (SB exA exB 0 6);
   mk_SmPkt kConnectResp kNoError 200 (EA exA 1) (SB exA exB 1 6)].
Definition leak_state : net := mk_net
  (mk_sm (set_session_vec [None; None] sm_rpc) 64 ∅ []
    [mk_SmPkt kConnectReq kNoError 100 (EA exA 0) (ES exA exB); mk_SmPkt kConnectReq kNoError 200 (EA exA 1) (ES exA exB); req_of late_session]
    [(0, kEvConnected, kNoError); (1, kConnectFailed, kRingExhausted); (0, kDisconnected, kNoError)])
  (mk_sm (set_session_vec [None; Some leaked] sm_rpc) 0 (<[200 := 1]> {[100 := 0]}) [] leak_resps []).
Lemma leak_run_ok : sm_run leak_run = Ok leak_state.
Proof. reflexivity. Qed.
Lemma leak_frozen : frozen leak_state (λ p, p ∈ leak_resps) leak_state.
Proof. exists leak_resps. split; [done|]. by apply Forall_forall. Qed.

(** A request is refused while the server has no ring entries, and its copy is accepted
    after an entry has been freed.  The client's user has been told that the session
    failed; the server keeps a session, and the ring entries of it, that no request ever
    destroys. *)
Theorem refused_request_leaks_session ls : Forall (harmless (λ _, True)) ls → ∃ s, sm_run (leak_run ++ ls) = Ok s ∧
  session_vec_ (dp (na s)) = [None; None] ∧ session_vec_ (dp (nb s)) = [None; Some leaked] ∧ ring_entries_available_ (nb s) = 0.
Proof.
  intros Hls. unfold sm_run. rewrite net_run_app. change (net_run true exA exB leak_run _) with (sm_run leak_run). rewrite leak_run_ok. cbn [mbind outcome_bind].
  destruct (frozen_run true exA exB leak_state (λ _, True) (λ p, p ∈ leak_resps)) with (ls := ls) (s := leak_state) as (s & Hs & u & -> & _); [done|..|exact Hls|exact leak_frozen|by eexists].
  - intros num. destruct (decide (num = 0)) as [->|]; [reflexivity|]. destruct (decide (num = 1)) as [->|]; [reflexivity|]. apply destroy_out_of_range. cbn. lia.
  - intros p Hp. repeat (apply elem_of_cons in Hp as [->|Hp]; [reflexivity|]). by apply not_elem_of_nil in Hp.
  - intros [|[|[|i]]] p _ Hp; [..|done]; injection Hp as <-.
    + exists []. split; [done|]. intros u. rewrite app_nil_r. reflexivity.
    + exists [mk_SmPkt kConnectResp kNoError 200 (EA exA 1) (SB exA exB 1 6)]. split; [apply Forall_singleton; do 3 right; by left|]. intros u. reflexivity.
    + exists [mk_SmPkt kDisconnectResp kNoError 100 (EA exA 0) (SB exA exB 0 6)]. split; [apply Forall_singleton; do 2 right; by left|]. intros u. reflexivity.
Qed.
Lemma refused_request_leaks_session_witness : ∃ s, sm_run (leak_run ++ [ToServer 0; ToServer 1; ToServer 2; Resend (λ _, true); ToClient 3]) = Ok s ∧ session_vec_ (dp (nb s)) = [None; Some leaked].
Proof. destruct (refused_request_leaks_session [ToServer 0; ToServer 1; ToServer 2; Resend (λ _, true); ToClient 3]) as (s & Hs & _ & Hb & _); [by repeat constructor|exact (ex_intro _ s (conj Hs Hb))]. Defined.

(** ** The reset of a client *)
Lemma wq_in_dp {T} F (m : M Rpc T) (Q : T → Sm → Prop) a : wq F m (λ v r, Q v (set_dp r a)) (dp a) → wq F (in_dp m) Q a.
Proof. unfold in_dp, wq. by destruct (m (dp a)) as [[]|]. Qed.
(** The slots of an idle session have no request, and are the ones that the reset takes
    out of the active list: it follows their null pointers. *)
Theorem client_reset_faults asserts me a s lnum rnum token cl sv :
  session_vec_ (dp a) !! s = Some (Some (new_Session true kConnected lnum rnum token cl sv)) → handle_reset_client_st asserts me s a = Fault UndefinedBehaviour.
Proof.
  intros Hs. apply wq_fault. unfold handle_reset_client_st.
  set (x := new_Session true kConnected lnum rnum token cl sv) in *. set (r := set_stallq (filter (λ p, p.1 ≠ s) (stallq_ (dp a))) (dp a)).
  assert (Hx : at_session r s x) by exact Hs. assert (Hsl : at_slot r (s, 0%nat) x (new_sslot true 0)) by done.
  wstep. apply wq_in_dp, wq_modify. fold r. wstep. apply wq_in_dp. cbn [dp set_dp]. eapply wq_get_session; [exact Hx|]. wstep.
  change (seq 0 (length (sslot_arr_ x))) with (0%nat :: seq 1 31). cbn [for_each]. wstep. apply wq_in_dp. cbn [dp set_dp]. unfold reset_client_slot.
  wstep. eapply wq_get_sslot; [exact Hsl|]. change (tx_msgbuf_ (new_sslot true 0) =? 0) with true. cbv iota. wstep. eapply wq_upd_sslot; [exact Hsl|].
  wstep. unfold delete_from_active_rpc_list. wstep.
  apply (wq_get_ci _ (s, 0%nat) (with_slot 0 (set_tx_msgbuf 0 (new_sslot true 0)) x) (set_tx_msgbuf 0 (new_sslot true 0)) (mk_ci 0 0 0 0 0 0 0 None None 0)); [split; [by apply at_st_slot with (new_sslot true 0)|done]|].
  wstep. by apply wq_throw.
Qed.
Lemma client_reset_faults_witness :
  handle_reset_client_st true exA 0 (set_dp (set_session_vec [Some (new_Session true kConnected 0 0 100 (EA exA 0) (SB exA exB 0 6))] sm_rpc) (new_Sm exA sm_rpc)) = Fault UndefinedBehaviour.
Proof. apply (client_reset_faults true exA _ 0 0 0 100 (EA exA 0) (SB exA exB 0 6)). reflexivity. Defined.

(** ** A host name that fills its array

    The check of [create_session_st] lets a name of [kMaxHostnameLen] characters pass, and [strcpy] writes the
    null character behind the array. *)
Lemma long_hostname_overflows asserts me h port rid token a :
  Z.of_nat (String.length h) = kMaxHostnameLen → c_str h = h → h ≠ my_hostname me → kSessionCredits ≤ ring_entries_available_ a →
  create_session_st asserts me h port rid token a = Fault UndefinedBehaviour.
Proof.
  intros Hlen Hnul Hne Hring. apply wq_fault. unfold create_session_st. rewrite Hlen.
  rewrite (bool_decide_eq_false_2 _ Hne). change ((kMaxHostnameLen =? 0) || (kMaxHostnameLen <? kMaxHostnameLen)) with false. cbn [andb].
  wstep. unfold have_ring_entries. wstep. wstep. wstep. rewrite (proj2 (Z.leb_le _ _) Hring). cbn [negb].
  wstep. unfold num_sessions. wstep. wstep. wstep. wstep. apply wq_lift; [|intros n _].
  { unfold strcpy_hostname. intros f. case_match; naive_solver. }
  wstep. apply wq_lift; unfold strcpy_hostname; rewrite Hnul, Hlen; cbn; naive_solver.
Qed.
