(* ===== verification/Heartbeat.v ===== *)
(** * Heartbeats ([src/heartbeat_mgr.h]) and URIs ([src/util/autorun_helpers.h])

    The manager sends heartbeats to the remote processes that it tracks and reports those
    that it has not heard from.  Time is the sequence of the counter's readings; the times
    that only messages print are left out of it. *)

From Stdlib Require Import Ascii.
From S2P Require Import Prelude SmTypes RpcTypes Rpc.

(** ** URIs *)
Fixpoint str_split (delimiter : ascii) (input : string) : list string :=
  match input with
  | EmptyString => []
  | String c s =>
      if bool_decide (c = delimiter) then "" :: str_split delimiter s
      else match str_split delimiter s with [] => [String c ""] | t :: ts => String c t :: ts end
  end.
Definition is_valid_uri (uri : string) : bool :=
  match str_split ":" uri with [a; b] => negb (bool_decide (a = "")) && negb (bool_decide (b = "")) | _ => false end.
(** The text before and after the first colon; all of it when there is none. *)
Fixpoint before_colon (s : string) : string :=
  match s with EmptyString => "" | String c s => if bool_decide (c = ":"%char) then "" else String c (before_colon s) end.
Fixpoint after_colon (s : string) : string :=
  match s with EmptyString => "" | String c s' => if bool_decide (c = ":"%char) then s' else after_colon s' end.

(** [std::stoi]: white space, a sign, and digits up to the first other character; without a
    digit, or beyond [int], it throws an exception. *)
Definition is_space (c : ascii) : bool := let n := nat_of_ascii c in (n =? 32)%nat || ((9 <=? n) && (n <=? 13))%nat.
Definition digit_of (c : ascii) : option Z := let n := Z.of_nat (nat_of_ascii c) in if (48 <=? n) && (n <=? 57) then Some (n - 48) else None.
Fixpoint skip_spaces (s : string) : string := match s with String c s' => if is_space c then skip_spaces s' else s | _ => s end.
Fixpoint digits (v : Z) (s : string) : Z :=
  match s with EmptyString => v | String c s => match digit_of c with Some d => digits (10 * v + d) s | None => v end end.
Definition unsigned_of (s : string) : option Z := match s with String c _ => if digit_of c then Some (digits 0 s) else None | _ => None end.
Definition stoi (s : string) : option Z :=
  let r := match skip_spaces s with
    | String "-" s => z ← unsigned_of s; Some (- z)
    | String "+" s => unsigned_of s
    | s => unsigned_of s
    end in
  z ← r; if (INT_MIN <=? z) && (z <=? INT_MAX) then Some z else None.
(** [std::to_string] of a port. *)
Definition digit_char (d : Z) : ascii := ascii_of_nat (Z.to_nat (48 + d)).
Fixpoint decimal (fuel : nat) (n : Z) (acc : string) : string :=
  match fuel with
  | O => acc
  | S fuel => if n <? 10 then String (digit_char n) acc else decimal fuel (n / 10) (String (digit_char (n mod 10)) acc)
  end.
Definition to_string (n : Z) : string := decimal 5 n "".
Definition uri (e : SessionEndpoint) : string := hostname_ e +:+ ":" +:+ to_string (sm_udp_port_ e).
Definition split_uri (u : string) : option (string * Z) := z ← stoi (after_colon u); Some (before_colon u, bits 16 z).
Definition extract_hostname_from_uri (u : string) : string := before_colon u.
Definition extract_udp_port_from_uri (u : string) : option Z := z ← stoi (after_colon u); Some (bits 16 z).

(** ** The manager *)
Inductive EventType : Type := kSend | kCheck.
#[global] Instance EventType_eq_dec : EqDecision EventType.
Proof. solve_decision. Defined.
Record Event : Type := mk_event { ev_type : EventType; rem_uri_ : string; tsc_ : Z }.
(** [reads] counts the readings of the counter. *)
Record HeartbeatMgr : Type := mk_hb {
  hb_event_pqueue_ : list Event;
  map_last_hb_rx_ : gmap string Z;
  hb_sent : list SmPkt;
  failed_uris : list string;
  reads : nat
}.
Definition HeartbeatMgr_eta (m : HeartbeatMgr) : HeartbeatMgr := mk_hb (hb_event_pqueue_ m) (map_last_hb_rx_ m) (hb_sent m) (failed_uris m) (reads m).
Definition set_pqueue : list Event → HeartbeatMgr → HeartbeatMgr := ltac:(field_update HeartbeatMgr_eta hb_event_pqueue_).
Definition set_last_rx : gmap string Z → HeartbeatMgr → HeartbeatMgr := ltac:(field_update HeartbeatMgr_eta map_last_hb_rx_).
Definition set_hb_sent : list SmPkt → HeartbeatMgr → HeartbeatMgr := ltac:(field_update HeartbeatMgr_eta hb_sent).
Definition set_failed : list string → HeartbeatMgr → HeartbeatMgr := ltac:(field_update HeartbeatMgr_eta failed_uris).
Definition set_reads : nat → HeartbeatMgr → HeartbeatMgr := ltac:(field_update HeartbeatMgr_eta reads).

Section manager.
(** [tie] is what the priority queue does with events of the same time; [stray] is what an
    endpoint that is not given a transport holds. *)
Context (tie : Event → Event → bool) (clock : nat → Z) (stray : TransportType) (local_hostname : string) (local_port failure_timeout_tsc_ : Z).
Abbreviation MH := (M HeartbeatMgr).
Definition hb_send_delta_tsc_ : Z := failure_timeout_tsc_ / 10.
Definition hb_check_delta_tsc_ : Z := failure_timeout_tsc_ / 2.
Definition new_HeartbeatMgr : HeartbeatMgr := mk_hb [] ∅ [] [] 0.
Definition rdtsc : MH Z := s ← get; modify (set_reads (S (reads s))) ;; mret (clock (reads s)).

Fixpoint pq_push (e : Event) (q : list Event) : list Event :=
  match q with
  | [] => [e]
  | x :: q' => if (tsc_ e <? tsc_ x) || ((tsc_ e =? tsc_ x) && tie e x) then e :: q else x :: pq_push e q'
  end.
Definition emplace (u : string) (t : Z) (m : gmap string Z) : gmap string Z := match m !! u with Some _ => m | None => <[u := t]> m end.
Definition schedule_hb_send (u : string) : MH unit :=
  t ← rdtsc; modify (λ s, set_pqueue (pq_push (mk_event kSend u (u64 (t + hb_send_delta_tsc_))) (hb_event_pqueue_ s)) s).
Definition schedule_hb_check (u : string) : MH unit :=
  t ← rdtsc; modify (λ s, set_pqueue (pq_push (mk_event kCheck u (u64 (t + hb_check_delta_tsc_))) (hb_event_pqueue_ s)) s).
Definition make_heartbeat (remote_uri : string) : MH SmPkt :=
  assert_ (is_valid_uri remote_uri) ;;
  match split_uri remote_uri with
  | None => throw AssertFailed
  | Some (h, p) =>
      client_name ← lift (strcpy_hostname local_hostname);
      server_name ← lift (strcpy_hostname h);
      mret (mk_SmPkt kPingReq kNoError 0 (mk_ep stray client_name local_port kInvalidRpcId kInvalidSessionNum 0)
        (mk_ep stray server_name p kInvalidRpcId kInvalidSessionNum 0))
  end.

Definition unlocked_add_remote (u : string) : MH unit :=
  cur_tsc ← rdtsc;
  modify (λ s, set_last_rx (emplace u cur_tsc (map_last_hb_rx_ s)) s) ;;
  schedule_hb_send u ;;
  schedule_hb_check u.
Definition unlocked_receive_hb (p : SmPkt) : MH unit :=
  s ← get;
  match map_last_hb_rx_ s !! uri (pkt_client_ p) with
  | None => mret tt
  | Some _ => t ← rdtsc; modify (λ s, set_last_rx (emplace (uri (pkt_client_ p)) t (map_last_hb_rx_ s)) s)
  end.
Definition handle_event (e : Event) : MH unit :=
  match ev_type e with
  | kSend =>
      p ← make_heartbeat (rem_uri_ e);
      modify (λ s, set_hb_sent (hb_sent s ++ [p]) s) ;;
      schedule_hb_send (rem_uri_ e)
  | kCheck =>
      s ← get;
      let last_ping_rx := default 0 (map_last_hb_rx_ s !! rem_uri_ e) in
      t ← rdtsc;
      if failure_timeout_tsc_ <? u64 (t - last_ping_rx) then
        modify (λ s, set_failed (failed_uris s ++ [rem_uri_ e]) s) ;;
        modify (λ s, set_last_rx (delete (rem_uri_ e) (map_last_hb_rx_ s)) s)
      else schedule_hb_check (rem_uri_ e)
  end.
Fixpoint do_one (fuel : nat) : MH unit :=
  match fuel with
  | O => throw OutOfFuel
  | S fuel =>
      s ← get;
      match hb_event_pqueue_ s with
      | [] => mret tt
      | next_ev :: q =>
          t ← rdtsc;
          if t <? tsc_ next_ev then mret tt
          else match map_last_hb_rx_ s !! rem_uri_ next_ev with
          | None => mret tt
          | Some _ => modify (set_pqueue q) ;; handle_event next_ev ;; do_one fuel
          end
      end
  end.
End manager.
