(* ===== verification/HeartbeatSpec.v ===== *)
(** * URIs, events and one scan of the heartbeat manager

    URIs come back as they were written.  The invariant of the manager: its events are in
    order, and each remote that is tracked has its two events.  A scan keeps it, ends, and
    reports only remotes that have been silent. *)

From Stdlib Require Import Ascii.
From S2P Require Import Prelude SmTypes RpcTypes Rpc Heartbeat.

(** ** URIs *)
(** A property of the ten digits is tested on each. *)
Lemma digit_ind (P : Z → Prop) d : 0 ≤ d < 10 → Forall P [0; 1; 2; 3; 4; 5; 6; 7; 8; 9] → P d.
Proof. intros Hd HP. eapply Forall_forall; [done|]. change [0; 1; 2; 3; 4; 5; 6; 7; 8; 9] with (seqZ 0 10). apply elem_of_seqZ. lia. Qed.
Lemma digit_of_char d : 0 ≤ d < 10 → digit_of (digit_char d) = Some d.
Proof. intros Hd. apply (digit_ind (λ d, digit_of (digit_char d) = Some d)); [done|]. by repeat constructor. Qed.
(** A text that starts with a digit has no spaces and no sign to skip. *)
Lemma stoi_digit d s : 0 ≤ d < 10 → stoi (String (digit_char d) s) = (z ← unsigned_of (String (digit_char d) s); if (INT_MIN <=? z) && (z <=? INT_MAX) then Some z else None).
Proof. intros Hd. apply (digit_ind (λ d, stoi (String (digit_char d) s) = (z ← unsigned_of (String (digit_char d) s); if (INT_MIN <=? z) && (z <=? INT_MAX) then Some z else None))); [done|]. by repeat constructor. Qed.
Lemma digits_decimal fuel n acc : 0 ≤ n < 10 ^ Z.of_nat fuel → (fuel ≠ 0)%nat → digits 0 (decimal fuel n acc) = digits n acc.
Proof.
  revert n acc. induction fuel as [|fuel IH]; intros n acc Hn Hf; [done|]. cbn [decimal]. destruct (Z.ltb_spec n 10).
  - cbn [digits]. rewrite digit_of_char by lia. f_equal.
  - rewrite Nat2Z.inj_succ, Z.pow_succ_r in Hn by lia. pose proof (Z.mod_pos_bound n 10 ltac:(lia)). pose proof (Z.div_mod n 10 ltac:(lia)).
    assert (0 < n / 10 < 10 ^ Z.of_nat fuel) by nia. rewrite IH by (try lia; intros ->; cbn in *; lia). cbn [digits]. rewrite digit_of_char by lia. f_equal. lia.
Qed.
Lemma decimal_unsigned fuel n acc : 0 ≤ n → (fuel ≠ 0)%nat → ∃ d s, 0 ≤ d < 10 ∧ decimal fuel n acc = String (digit_char d) s.
Proof.
  revert n acc. induction fuel as [|fuel IH]; intros n acc Hn Hf; [done|]. cbn [decimal]. destruct (Z.ltb_spec n 10); [by exists n, acc|].
  destruct (decide (fuel = 0%nat)) as [->|Hf']; [|apply IH; [apply Z.div_pos; lia|done]]. exists (n mod 10), acc. split; [apply Z.mod_pos_bound; lia|done].
Qed.
Lemma stoi_to_string n : 0 ≤ n < 65536 → stoi (to_string n) = Some n.
Proof.
  intros Hn. unfold to_string. pose proof (digits_decimal 5 n "" ltac:(cbn; lia) ltac:(done)) as Hd. destruct (decimal_unsigned 5 n "" ltac:(lia) ltac:(done)) as (d & s & Hd' & E).
  rewrite E in *. rewrite stoi_digit by done. unfold unsigned_of. rewrite digit_of_char, Hd by done. cbn. unfold INT_MIN, INT_MAX. by rewrite (proj2 (Z.leb_le _ _)), (proj2 (Z.leb_le _ _)) by lia.
Qed.
Fixpoint no_colon (s : string) : bool := match s with EmptyString => true | String c s => negb (bool_decide (c = ":"%char)) && no_colon s end.
Lemma before_after_colon h s : no_colon h = true → before_colon (h +:+ ":" +:+ s) = h ∧ after_colon (h +:+ ":" +:+ s) = s.
Proof.
  intros Hh. induction h as [|c h IH]; [done|]. cbn [no_colon] in Hh. apply andb_true_iff in Hh as [Hc Hh]. apply negb_true_iff, bool_decide_eq_false in Hc. destruct (IH Hh) as [H1 H2].
  change (String c h +:+ ":" +:+ s) with (String c (h +:+ ":" +:+ s)). cbn [before_colon after_colon]. rewrite bool_decide_eq_false_2 by done. by rewrite H1.
Qed.
Lemma split_no_colon s : no_colon s = true → s ≠ "" → str_split ":" s = [s].
Proof.
  induction s as [|c s IH]; [done|]. cbn [no_colon str_split]. intros [Hc Hs]%andb_true_iff _. apply negb_true_iff, bool_decide_eq_false in Hc. rewrite bool_decide_eq_false_2 by done.
  destruct s as [|c' s]; [done|]. by rewrite IH.
Qed.
Lemma split_one_colon h s : no_colon h = true → no_colon s = true → s ≠ "" → str_split ":" (h +:+ ":" +:+ s) = [h; s].
Proof.
  intros Hh Hs Hne. induction h as [|c h IH]; [change (str_split ":" ("" +:+ ":" +:+ s)) with ("" :: str_split ":" s); by rewrite split_no_colon|].
  cbn [no_colon] in Hh. apply andb_true_iff in Hh as [Hc Hh]. apply negb_true_iff, bool_decide_eq_false in Hc.
  change (String c h +:+ ":" +:+ s) with (String c (h +:+ ":" +:+ s)). cbn [str_split]. rewrite bool_decide_eq_false_2 by done. by rewrite IH.
Qed.
Lemma decimal_no_colon fuel n acc : 0 ≤ n → no_colon acc = true → no_colon (decimal fuel n acc) = true.
Proof.
  assert (Hd : ∀ d, 0 ≤ d < 10 → negb (bool_decide (digit_char d = ":"%char)) = true).
  { intros d Hd. rewrite bool_decide_eq_false_2; [done|]. apply (digit_ind (λ d, digit_char d ≠ ":"%char)); [done|]. by repeat constructor. }
  revert n acc. induction fuel as [|fuel IH]; intros n acc Hn Hacc; [done|]. cbn [decimal]. destruct (Z.ltb_spec n 10); [cbn [no_colon]; by rewrite Hd by lia|].
  apply IH; [apply Z.div_pos; lia|]. cbn [no_colon]. rewrite Hd by (apply Z.mod_pos_bound; lia). done.
Qed.

(** C38: the URI of an endpoint is valid, and splits into its host name and its port. *)
Theorem uri_round_trip e : no_colon (hostname_ e) = true → hostname_ e ≠ "" → 0 ≤ sm_udp_port_ e < 65536 →
  is_valid_uri (uri e) = true ∧ split_uri (uri e) = Some (hostname_ e, sm_udp_port_ e) ∧
  extract_hostname_from_uri (uri e) = hostname_ e ∧ extract_udp_port_from_uri (uri e) = Some (sm_udp_port_ e).
Proof.
  intros Hh Hne Hp. set (p := to_string (sm_udp_port_ e)). assert (Hpne : p ≠ "") by (unfold p, to_string; destruct (decimal_unsigned 5 (sm_udp_port_ e) "" ltac:(lia) ltac:(done)) as (d & s & _ & ->); done).
  assert (Hpc : no_colon p = true) by (apply decimal_no_colon; [lia|done]). unfold uri, split_uri, extract_hostname_from_uri, extract_udp_port_from_uri. fold p.
  destruct (before_after_colon (hostname_ e) p Hh) as [-> ->]. unfold p. rewrite stoi_to_string by done. fold p. cbn [mbind option_bind]. unfold bits. rewrite Z.mod_small by (change (2 ^ 16) with 65536; lia).
  split_and!; try done. unfold is_valid_uri. rewrite split_one_colon by done. by rewrite !bool_decide_eq_false_2 by done.
Qed.

(** ** The priority queue *)
Lemma pq_push_perm tie e q : pq_push tie e q ≡ₚ e :: q.
Proof. induction q as [|x q IH]; cbn [pq_push]; [done|]. destruct (_ || _); [done|]. rewrite IH. apply Permutation_swap. Qed.
Lemma elem_of_pq_push tie e x q : x ∈ pq_push tie e q ↔ x = e ∨ x ∈ q.
Proof. by rewrite pq_push_perm, elem_of_cons. Qed.
Definition earlier (a b : Event) : Prop := tsc_ a ≤ tsc_ b.
Lemma pq_push_sorted tie e q : StronglySorted earlier q → StronglySorted earlier (pq_push tie e q).
Proof.
  induction 1 as [|x q Hq IH Hx]; cbn [pq_push]; [by repeat constructor|]. destruct (_ || _) eqn:E.
  - assert (He : earlier e x). { unfold earlier. apply orb_true_iff in E as [E%Z.ltb_lt|[E%Z.eqb_eq _]%andb_true_iff]; lia. }
    constructor; [by constructor|]. constructor; [done|]. eapply Forall_impl; [done|]. unfold earlier in *. lia.
  - apply orb_false_iff in E as [E%Z.ltb_ge _]. constructor; [done|]. rewrite pq_push_perm. constructor; [exact E|done].
Qed.

Section manager.
Context (tie : Event → Event → bool) (clock : nat → Z) (stray : TransportType) (lh : string) (lp timeout : Z).
Implicit Types (s : HeartbeatMgr) (u : string) (e : Event) (q : list Event) (p : SmPkt).
#[local] Abbreviation δs := (hb_send_delta_tsc_ timeout).
#[local] Abbreviation δc := (hb_check_delta_tsc_ timeout).
#[local] Abbreviation scan := (do_one tie clock stray lh lp timeout).
(** The counter does not go back and does not wrap. *)
Record clock_ok : Prop := {
  ck_timeout : 10 ≤ timeout;
  ck_zero i : 0 ≤ clock i;
  ck_mono i j : (i ≤ j)%nat → clock i ≤ clock j;
  ck_wrap i : clock i + timeout < 2 ^ 64
}.
Definition uri_ok u : Prop := is_valid_uri u = true ∧ ∃ h port, split_uri u = Some (h, port) ∧ Z.of_nat (String.length h) < kMaxHostnameLen.
(** A remote that was last heard at [l] is checked before this time. *)
Definition check_before (l : Z) : Z := l + timeout + δs + δc.
Record hb_inv s : Prop := {
  hi_sorted : StronglySorted earlier (hb_event_pqueue_ s);
  hi_uris : Forall (λ e, uri_ok (rem_uri_ e)) (hb_event_pqueue_ s);
  hi_send u l : map_last_hb_rx_ s !! u = Some l → ∃ e, e ∈ hb_event_pqueue_ s ∧ ev_type e = kSend ∧ rem_uri_ e = u;
  hi_check u l : map_last_hb_rx_ s !! u = Some l → ∃ e, e ∈ hb_event_pqueue_ s ∧ ev_type e = kCheck ∧ rem_uri_ e = u ∧ tsc_ e < check_before l;
  hi_past u l : map_last_hb_rx_ s !! u = Some l → 0 ≤ l ≤ clock (reads s)
}.
(** The time of the last reading. *)
Definition now s : Z := clock (reads s - 1).
Definition blocked s : Prop := ∃ e q, hb_event_pqueue_ s = e :: q ∧ tsc_ e ≤ now s ∧ map_last_hb_rx_ s !! rem_uri_ e = None.
Definition due (t : Z) q : list Event := filter (λ e, tsc_ e < t) q.
Lemma due_push t e q : t ≤ tsc_ e → length (due t (pq_push tie e q)) = length (due t q).
Proof. intros Ht. unfold due. rewrite pq_push_perm, filter_cons_False by lia. done. Qed.

Context (Hclock : clock_ok) (Hlh : Z.of_nat (String.length lh) < kMaxHostnameLen).
Lemma wp_rdtsc (Q : Z → HeartbeatMgr → Prop) s : Q (clock (reads s)) (set_reads (S (reads s)) s) → wp (rdtsc clock) Q s.
Proof. done. Qed.
Lemma u64_id z : 0 ≤ z < 2 ^ 64 → u64 z = z.
Proof. apply Z.mod_small. Qed.
Lemma deltas : 0 < δs ≤ δc ∧ δc ≤ timeout.
Proof. destruct Hclock. unfold hb_send_delta_tsc_, hb_check_delta_tsc_. pose proof (Z.div_mod timeout 10 ltac:(lia)). pose proof (Z.mod_pos_bound timeout 10 ltac:(lia)). pose proof (Z.div_mod timeout 2 ltac:(lia)). pose proof (Z.mod_pos_bound timeout 2 ltac:(lia)). lia. Qed.
Lemma u64_later i d : 0 ≤ d ≤ timeout → u64 (clock i + d) = clock i + d.
Proof. intros Hd. apply u64_id. pose proof (ck_zero Hclock i). pose proof (ck_wrap Hclock i). lia. Qed.
(** The state after an event is scheduled. *)
Definition scheduled (ty : EventType) (d : Z) u s : HeartbeatMgr := set_pqueue (pq_push tie (mk_event ty u (clock (reads s) + d)) (hb_event_pqueue_ s)) (set_reads (S (reads s)) s).
Lemma wp_schedule_send u (Q : unit → HeartbeatMgr → Prop) s : Q tt (scheduled kSend δs u s) → wp (schedule_hb_send tie clock timeout u) Q s.
Proof. intros HQ. unfold schedule_hb_send. wstep. apply wp_rdtsc. apply wq_modify. pose proof deltas. by rewrite u64_later by lia. Qed.
Lemma wp_schedule_check u (Q : unit → HeartbeatMgr → Prop) s : Q tt (scheduled kCheck δc u s) → wp (schedule_hb_check tie clock timeout u) Q s.
Proof. intros HQ. unfold schedule_hb_check. wstep. apply wp_rdtsc. apply wq_modify. pose proof deltas. by rewrite u64_later by lia. Qed.
Lemma wp_make_heartbeat u (Q : SmPkt → HeartbeatMgr → Prop) s : uri_ok u → (∀ p, Q p s) → wp (make_heartbeat stray lh lp u) Q s.
Proof. intros (Hv & h & port & Hs & Hh) HQ. unfold make_heartbeat. wstep. apply wp_assert; [exact Hv|]. rewrite Hs. do 2 (wstep; eapply wp_lift; [by apply strcpy_shorter|]). apply wq_ret, HQ. Qed.

(** What a scan does to what is tracked and reported. *)
Definition scanned s s' : Prop := (reads s ≤ reads s')%nat ∧ ∃ fs, failed_uris s' = failed_uris s ++ fs ∧
  (∀ u, u ∈ fs → ∃ l, map_last_hb_rx_ s !! u = Some l ∧ map_last_hb_rx_ s' !! u = None ∧ timeout < now s' - l) ∧
  (∀ u, map_last_hb_rx_ s' !! u = map_last_hb_rx_ s !! u ∨ u ∈ fs).
Lemma scanned_refl s : scanned s s.
Proof. split; [done|]. exists []. split_and!; [by rewrite app_nil_r|by intros u ?%not_elem_of_nil|by left]. Qed.
Lemma scanned_trans s1 s2 s3 : scanned s1 s2 → scanned s2 s3 → scanned s1 s3.
Proof.
  intros (Hr & fs & Hf & Hin & Hm) (Hr' & fs' & Hf' & Hin' & Hm'). split; [lia|]. exists (fs ++ fs'). split_and!; [by rewrite Hf', Hf, app_assoc| |].
  - intros u [Hu|Hu]%elem_of_app.
    + destruct (Hin u Hu) as (l & Hl & Hn & Ht). exists l. split_and!; [done| |].
      * destruct (Hm' u) as [->|Hu']; [done|]. destruct (Hin' u Hu') as (l' & Hl' & _). congruence.
      * unfold now in *. pose proof (ck_mono Hclock (reads s2 - 1) (reads s3 - 1) ltac:(lia)). lia.
    + destruct (Hin' u Hu) as (l & Hl & Hn & Ht). exists l. split_and!; [|done|done]. destruct (Hm u) as [<-|Hu']; [done|]. destruct (Hin u Hu') as (l' & _ & Hn' & _). congruence.
  - intros u. destruct (Hm' u) as [->|Hu]; [|right; apply elem_of_app; by right]. destruct (Hm u) as [->|Hu]; [by left|right; apply elem_of_app; by left].
Qed.

(** ** One event

    [popped] is the state after the time has been read and the event removed. *)
Definition popped q s : HeartbeatMgr := set_pqueue q (set_reads (S (reads s)) s).
(** The counter advances less than the time between heartbeats in [n] readings. *)
Definition quick (i n : nat) : Prop := ∀ j, (i ≤ j < i + n)%nat → clock j < clock i + δs.

Lemma sorted_tail e q : StronglySorted earlier (e :: q) → StronglySorted earlier q.
Proof. by inversion 1. Qed.
(** Scheduling again an event of a tracked remote. *)
Lemma inv_reschedule s s1 e q ty d : hb_inv s → hb_event_pqueue_ s = e :: q → map_last_hb_rx_ s1 = map_last_hb_rx_ s → hb_event_pqueue_ s1 = q → (reads s ≤ reads s1)%nat → ev_type e = ty →
  (∀ l, ty = kCheck → map_last_hb_rx_ s !! rem_uri_ e = Some l → clock (reads s1) + d < check_before l) → hb_inv (scheduled ty d (rem_uri_ e) s1).
Proof.
  intros [] Hq Hm Hq1 Hr Hty Hd. rewrite Hq in *. set (e' := mk_event ty (rem_uri_ e) (clock (reads s1) + d)).
  assert (Hnew : ∀ x, x ∈ e :: q → ev_type x = ty ∧ rem_uri_ x = rem_uri_ e ∨ ev_type x ≠ ty ∨ rem_uri_ x ≠ rem_uri_ e) by (intros x _; destruct (decide (ev_type x = ty)), (decide (rem_uri_ x = rem_uri_ e)); auto).
  split; cbn [scheduled hb_event_pqueue_ map_last_hb_rx_ reads set_pqueue set_reads]; rewrite ?Hm, ?Hq1; fold e'.
  - apply pq_push_sorted. by eapply sorted_tail.
  - rewrite pq_push_perm. inversion hi_uris0. by constructor.
  - intros u l Hu. destruct (hi_send0 u l Hu) as (x & Hx & Htx & Hux). apply elem_of_cons in Hx as [->|Hx]; [|exists x; rewrite elem_of_pq_push; auto].
    exists e'. rewrite elem_of_pq_push. cbn. split_and!; [by left|congruence|done].
  - intros u l Hu. destruct (hi_check0 u l Hu) as (x & Hx & Htx & Hux & Hb). apply elem_of_cons in Hx as [->|Hx]; [|exists x; rewrite elem_of_pq_push; auto].
    exists e'. rewrite elem_of_pq_push. cbn. split_and!; [by left|congruence|done|]. apply Hd; congruence.
  - intros u l Hu. destruct (hi_past0 u l Hu). pose proof (ck_mono Hclock (reads s) (S (reads s1)) ltac:(lia)). lia.
Qed.
Lemma wp_event s e q l t : hb_inv s → hb_event_pqueue_ s = e :: q → map_last_hb_rx_ s !! rem_uri_ e = Some l → quick (reads s) 3 → t ≤ clock (reads s) + δs →
  wp (handle_event tie clock stray lh lp timeout e) (λ _ s', hb_inv s' ∧ scanned s s' ∧ (S (reads s) ≤ reads s' ≤ reads s + 3)%nat ∧ length (due t (hb_event_pqueue_ s')) = length (due t q) ∧ (length (hb_event_pqueue_ s') ≤ S (length q))%nat) (popped q s).
Proof.
  intros Hi Hq Hl Hquick Ht. pose proof deltas as Hδ. pose proof (λ i j, ck_mono Hclock i j) as Hmono. pose proof (Hmono (reads s) (S (reads s)) ltac:(lia)). pose proof (Hmono (reads s) (S (S (reads s))) ltac:(lia)).
  unfold handle_event. destruct (ev_type e) eqn:Hty.
  - wstep. apply wp_make_heartbeat; [pose proof (hi_uris _ Hi) as Hu; rewrite Hq in Hu; by inversion Hu|]. intros p. wstep. apply wq_modify. apply wp_schedule_send. split_and!.
    + eapply (inv_reschedule s _ e q kSend); [done..|cbn; lia|done|done].
    + split; [cbn; lia|]. exists []. split_and!; [by rewrite app_nil_r|by intros u ?%not_elem_of_nil|by left].
    + cbn. lia.
    + cbn. lia.
    + cbn [scheduled hb_event_pqueue_ set_pqueue set_reads]. apply due_push. cbn. lia.
    + cbn [scheduled hb_event_pqueue_ set_pqueue set_reads]. by rewrite pq_push_perm.
  - do 2 wstep. wstep. apply wp_rdtsc. cbn [popped map_last_hb_rx_ set_pqueue set_reads reads]. rewrite Hl. cbn [default from_option]. unfold id. destruct (hi_past _ Hi _ _ Hl) as [Hl0 Hl1].
    rewrite u64_id by (pose proof (ck_wrap Hclock (S (reads s))); pose proof (ck_timeout Hclock); lia).
    destruct (Z.ltb_spec timeout (clock (S (reads s)) - l)) as [Hlate|Hok].
    + wstep. apply wq_modify. apply wq_modify. split_and!.
      * destruct Hi. rewrite Hq in *. split; cbn [hb_event_pqueue_ map_last_hb_rx_ reads set_pqueue set_reads set_failed set_last_rx]; [by eapply sorted_tail|by inversion hi_uris0|..].
        -- intros u l' [Hne Hu]%lookup_delete_Some. destruct (hi_send0 u l' Hu) as (x & [->|Hx]%elem_of_cons & ? & ?); [congruence|eauto].
        -- intros u l' [Hne Hu]%lookup_delete_Some. destruct (hi_check0 u l' Hu) as (x & [->|Hx]%elem_of_cons & ? & ? & ?); [congruence|eauto 6].
        -- intros u l' [Hne Hu]%lookup_delete_Some. destruct (hi_past0 u l' Hu). lia.
      * split; [cbn; lia|]. exists [rem_uri_ e]. split_and!; [done| |].
        -- intros u ->%list_elem_of_singleton. exists l. split_and!; [done|apply lookup_delete_eq|]. unfold now. cbn [reads set_failed set_last_rx set_reads set_pqueue]. rewrite Nat.sub_succ, Nat.sub_0_r. lia.
        -- intros u. destruct (decide (u = rem_uri_ e)) as [->|Hne]; [right; by left|left; by apply lookup_delete_ne].
      * cbn. lia.
      * cbn. lia.
      * done.
      * cbn. lia.
    + apply wp_schedule_check. split_and!.
      * eapply (inv_reschedule s _ e q kCheck); [done..|cbn; lia|done|]. intros l' _ Hl'. rewrite Hl in Hl'. injection Hl' as <-. cbn [reads set_reads]. pose proof (Hquick (S (S (reads s))) ltac:(lia)). unfold check_before. lia.
      * split; [cbn; lia|]. exists []. split_and!; [by rewrite app_nil_r|by intros u ?%not_elem_of_nil|by left].
      * cbn. lia.
      * cbn. lia.
      * cbn [scheduled hb_event_pqueue_ set_pqueue set_reads]. apply due_push. cbn. lia.
      * cbn [scheduled hb_event_pqueue_ set_pqueue set_reads]. by rewrite pq_push_perm.
Qed.

(** ** A scan *)
Definition watched s : Prop := ∀ u l, map_last_hb_rx_ s !! u = Some l → now s < check_before l.
Lemma inv_reads s n : hb_inv s → (reads s ≤ n)%nat → hb_inv (set_reads n s).
Proof. intros [] Hn. split; cbn [hb_event_pqueue_ map_last_hb_rx_ reads set_reads]; try done. intros u l Hu. destruct (hi_past0 u l Hu). pose proof (ck_mono Hclock (reads s) n Hn). lia. Qed.
Lemma scanned_reads s n : (reads s ≤ n)%nat → scanned s (set_reads n s).
Proof. intros Hn. split; [done|]. exists []. split_and!; [by rewrite app_nil_r|by intros u ?%not_elem_of_nil|by left]. Qed.
Lemma due_le t q : (length (due t q) ≤ length q)%nat.
Proof. apply length_filter. Qed.
Lemma future_watched s e q : hb_inv s → hb_event_pqueue_ s = e :: q → now s < tsc_ e → watched s.
Proof.
  intros Hi Hq He u l Hu. destruct (hi_check _ Hi u l Hu) as (x & Hx & _ & _ & Hb). pose proof (hi_sorted _ Hi) as Hs. rewrite Hq in Hs, Hx.
  apply elem_of_cons in Hx as [->|Hx]; [lia|]. inversion Hs as [|? ? _ Hall]. pose proof (proj1 (Forall_forall _ _) Hall x Hx) as Hle. unfold earlier in Hle. lia.
Qed.
Lemma wp_scan r0 N fuel s (t := clock r0 + δs) : quick r0 (N - r0) → hb_inv s → (r0 ≤ reads s)%nat → (reads s + 3 * S (length (due t (hb_event_pqueue_ s))) ≤ N)%nat → (length (due t (hb_event_pqueue_ s)) < fuel)%nat →
  wp (scan fuel) (λ _ s', hb_inv s' ∧ scanned s s' ∧ (blocked s' ∨ watched s') ∧ (length (hb_event_pqueue_ s') ≤ length (hb_event_pqueue_ s))%nat) s.
Proof.
  intros Hquick. revert s. induction fuel as [|fuel IH]; intros s Hi Hr HN Hfuel; [lia|]. cbn [do_one]. do 2 wstep.
  destruct (hb_event_pqueue_ s) as [|e q] eqn:Hq.
  { wstep. split_and!; [done|apply scanned_refl| |by rewrite Hq]. right. intros u l Hu. destruct (hi_send _ Hi u l Hu) as (x & Hx & _). rewrite Hq in Hx. by apply not_elem_of_nil in Hx. }
  wstep. apply wp_rdtsc. set (s1 := set_reads (S (reads s)) s). assert (Hi1 : hb_inv s1) by (apply inv_reads; [done|lia]). assert (Hs1 : scanned s s1) by (apply scanned_reads; lia).
  assert (Hnow : now s1 = clock (reads s)) by (unfold now, s1; cbn [reads set_reads]; by rewrite Nat.sub_succ, Nat.sub_0_r).
  destruct (Z.ltb_spec (clock (reads s)) (tsc_ e)) as [Hlt|Hle].
  { wstep. split_and!; [done|done| |by rewrite <- Hq]. right. eapply future_watched; [done|exact Hq|lia]. }
  destruct (map_last_hb_rx_ s !! rem_uri_ e) as [l|] eqn:Hl.
  2:{ wstep. split_and!; [done|done| |by rewrite <- Hq]. left. exists e, q. rewrite Hnow. done. }
  assert (Ht : clock (reads s) < t) by (apply Hquick; lia).
  assert (Hq3 : quick (reads s) 3) by (intros j Hj; pose proof (Hquick j ltac:(lia)); pose proof (ck_mono Hclock r0 (reads s) Hr); lia).
  assert (Hdue : length (due t (e :: q)) = S (length (due t q))) by (assert (He : tsc_ e < t) by lia; unfold due; by rewrite filter_cons_True by exact He). rewrite Hdue in *.
  wstep. apply wq_modify. wstep. eapply wq_mono; [apply (wp_event s e q l t); [done..|]; pose proof (ck_mono Hclock r0 (reads s) Hr); unfold t; lia|].
  intros _ s2 (Hi2 & Hs2 & Hr2 & Hd2 & Hl2). eapply wq_mono; [apply IH; [done|lia|lia|lia]|]. intros _ s3 (Hi3 & Hs3 & Hb & Hlen). split_and!; [done|by eapply scanned_trans|done|cbn; lia].
Qed.

(** ** Adding a remote, and receiving *)
Lemma wp_add u s : hb_inv s → uri_ok u → quick (reads s) 3 →
  wp (unlocked_add_remote tie clock timeout u) (λ _ s', hb_inv s' ∧ length (hb_event_pqueue_ s') = S (S (length (hb_event_pqueue_ s)))) s.
Proof.
  intros Hi Hu Hquick. pose proof deltas as Hδ. pose proof (ck_zero Hclock (reads s)). pose proof (λ i j, ck_mono Hclock i j) as Hmono. unfold unlocked_add_remote.
  wstep. apply wp_rdtsc. wstep. apply wq_modify. wstep. apply wp_schedule_send. apply wp_schedule_check.
  set (e1 := mk_event kSend u (clock (S (reads s)) + δs)). set (e2 := mk_event kCheck u (clock (S (S (reads s))) + δc)). set (q := pq_push tie e2 (pq_push tie e1 (hb_event_pqueue_ s))).
  assert (Hin : ∀ x, x ∈ q ↔ x = e2 ∨ x = e1 ∨ x ∈ hb_event_pqueue_ s) by (intros x; unfold q; by rewrite !elem_of_pq_push).
  assert (Hmap : ∀ u' l, emplace u (clock (reads s)) (map_last_hb_rx_ s) !! u' = Some l → u' = u ∧ l = clock (reads s) ∨ map_last_hb_rx_ s !! u' = Some l).
  { intros u' l. unfold emplace. destruct (map_last_hb_rx_ s !! u) eqn:E; [auto|]. intros [[<- <-]|[_ ?]]%lookup_insert_Some; auto. }
  split; [|cbn; by rewrite !pq_push_perm]. destruct Hi. split; cbn [scheduled hb_event_pqueue_ map_last_hb_rx_ reads set_pqueue set_reads set_last_rx]; fold e1 e2; fold q.
  - by apply pq_push_sorted, pq_push_sorted.
  - unfold q. rewrite !pq_push_perm. apply Forall_cons. split; [exact Hu|]. apply Forall_cons. split; [exact Hu|done].
  - intros u' l [[-> _]|Hl]%Hmap; [exists e1; rewrite Hin; auto|]. destruct (hi_send0 _ _ Hl) as (x & ? & ?). exists x. rewrite Hin. auto.
  - intros u' l [[-> ->]|Hl]%Hmap.
    + exists e2. rewrite Hin. split_and!; [auto|done|done|]. cbn. unfold check_before. pose proof (Hquick (S (S (reads s))) ltac:(lia)). lia.
    + destruct (hi_check0 _ _ Hl) as (x & ? & ?). exists x. rewrite Hin. auto.
  - intros u' l [[-> ->]|Hl]%Hmap; [split; [done|apply Hmono; lia]|]. destruct (hi_past0 _ _ Hl). pose proof (Hmono (reads s) (S (S (S (reads s)))) ltac:(lia)). lia.
Qed.
Lemma emplace_present u t m : is_Some (m !! u) → emplace u t m = m.
Proof. unfold emplace. by intros [l ->]. Qed.
Lemma wp_receive p s : hb_inv s → wp (unlocked_receive_hb clock p) (λ _ s', hb_inv s' ∧ hb_event_pqueue_ s' = hb_event_pqueue_ s) s.
Proof.
  intros Hi. unfold unlocked_receive_hb. do 2 wstep. destruct (_ !! _) as [l|] eqn:Hl; [|by wstep]. wstep. apply wp_rdtsc. apply wq_modify. split; [|done].
  cbn [map_last_hb_rx_ set_reads]. rewrite emplace_present by (by exists l). apply (inv_reads s (S (reads s))) in Hi; [|lia]. by destruct Hi.
Qed.
End manager.
Lemma uri_round_trip_witness : split_uri (uri (mk_ep kInvalid "10.0.0.1" 31850 0 0 0)) = Some ("10.0.0.1", 31850).
Proof. apply (uri_round_trip (mk_ep kInvalid "10.0.0.1" 31850 0 0 0)); [reflexivity|discriminate|split; [discriminate|reflexivity]]. Defined.
