(* ===== verification/HeartbeatTheorems.v ===== *)
(** * What the heartbeat manager does and does not do

    A scan reports the remotes that were added longer than the timeout ago, unless an event of a remote that is
    no longer tracked stops it, for good; and a heartbeat that arrives changes nothing. *)

From S2P Require Import Prelude SmTypes RpcTypes Rpc Heartbeat HeartbeatSpec.

Inductive hb_label : Type := HbAdd (u : string) | HbReceive (p : SmPkt) | HbScan.
Definition is_add (l : hb_label) : bool := match l with HbAdd _ => true | _ => false end.

Section runs.
Context (tie : Event → Event → bool) (clock : nat → Z) (stray : TransportType) (lh : string) (lp timeout : Z).
Implicit Types (s : HeartbeatMgr) (u : string) (e : Event) (q : list Event).
#[local] Abbreviation scan := (do_one tie clock stray lh lp timeout).
(** One call; the fuel of a scan is one more than the events there are. *)
Definition hb_step (l : hb_label) : M HeartbeatMgr unit :=
  match l with
  | HbAdd u => unlocked_add_remote tie clock timeout u
  | HbReceive p => unlocked_receive_hb clock p
  | HbScan => s ← get; scan (S (length (hb_event_pqueue_ s)))
  end.
Definition hb_run (ls : list hb_label) : M HeartbeatMgr unit := for_each ls hb_step.
Definition adds (ls : list hb_label) : nat := length (filter (λ l, is_add l = true) ls).
Lemma hb_run_app ls1 ls2 s s1 : hb_run ls1 s = Ok (tt, s1) → hb_run (ls1 ++ ls2) s = hb_run ls2 s1.
Proof.
  revert s. induction ls1 as [|l ls1 IH]; intros s; unfold hb_run in *; cbn [app for_each]; [by intros [= ->]|]. unfold mbind, M_bind. destruct (hb_step l s) as [[[] s']|]; [apply IH|done].
Qed.
Lemma adds_cons l ls : adds (l :: ls) = ((if is_add l then 1 else 0) + adds ls)%nat.
Proof. unfold adds. rewrite filter_cons. by destruct (is_add l). Qed.
(** Host names fit, remotes have valid URIs, and a call takes less than the time between
    heartbeats. *)
Record hb_env (ls : list hb_label) : Prop := {
  he_clock : clock_ok clock timeout;
  he_host : Z.of_nat (String.length lh) < kMaxHostnameLen;
  he_uris u : HbAdd u ∈ ls → uri_ok u;
  he_quick i : quick clock timeout i (3 * S (2 * adds ls))
}.
Lemma quick_le i n m : (n ≤ m)%nat → quick clock timeout i m → quick clock timeout i n.
Proof. intros Hn H j Hj. apply H. lia. Qed.
Lemma wp_scan_all n s : clock_ok clock timeout → Z.of_nat (String.length lh) < kMaxHostnameLen → hb_inv clock timeout s → (length (hb_event_pqueue_ s) ≤ n)%nat → quick clock timeout (reads s) (3 * S n) →
  wp (scan (S (length (hb_event_pqueue_ s)))) (λ _ s', hb_inv clock timeout s' ∧ scanned clock timeout s s' ∧ (blocked clock s' ∨ watched clock timeout s') ∧ (length (hb_event_pqueue_ s') ≤ n)%nat) s.
Proof.
  intros Hc Hlh Hi Hn Hq. pose proof (due_le (clock (reads s) + hb_send_delta_tsc_ timeout) (hb_event_pqueue_ s)) as Hdue.
  eapply wq_mono; [apply (wp_scan tie clock stray lh lp timeout Hc Hlh (reads s) (reads s + 3 * S n)); [by replace (_ - _)%nat with (3 * S n)%nat by lia|done|done|lia|lia]|].
  intros _ s' (H1 & H2 & H3 & H4). split_and!; [done..|lia].
Qed.
Lemma wp_hb_run ls k s : hb_env ls → hb_inv clock timeout s → (length (hb_event_pqueue_ s) ≤ 2 * k)%nat →
  (∀ i, quick clock timeout i (3 * S (2 * (k + adds ls)))) → wp (hb_run ls) (λ _ s', hb_inv clock timeout s' ∧ (length (hb_event_pqueue_ s') ≤ 2 * (k + adds ls))%nat) s.
Proof.
  intros [Hc Hlh Hu _] Hi Hlen. revert k s Hi Hlen. induction ls as [|l ls IH]; intros k s Hi Hlen Hq; [apply wq_ret; cbn; split; [done|lia]|].
  unfold hb_run in *. cbn [for_each]. wstep.
  assert (IH' : ∀ k', (k' + adds ls = k + adds (l :: ls))%nat → ∀ s', hb_inv clock timeout s' → (length (hb_event_pqueue_ s') ≤ 2 * k')%nat → wp (for_each ls hb_step) (λ _ s', hb_inv clock timeout s' ∧ (length (hb_event_pqueue_ s') ≤ 2 * (k + adds (l :: ls)))%nat) s').
  { intros k' Hk s' Hi' Hlen'. rewrite <- Hk. apply IH; [intros; apply Hu; by right|done|done|by rewrite Hk]. }
  destruct l as [u|p|].
  - eapply wq_mono; [apply (wp_add tie clock lh timeout Hc u s Hi); [apply Hu; by left|eapply quick_le; [|apply Hq]; lia]|]. intros _ s' [Hi' Hlen']. apply (IH' (S k)); [rewrite adds_cons; cbn [is_add]; lia|done|lia].
  - eapply wq_mono; [by apply (wp_receive clock lh timeout Hc)|]. intros _ s' [Hi' Hlen']. apply (IH' k); [by rewrite adds_cons|done|by rewrite Hlen'].
  - cbn [hb_step]. do 2 wstep. eapply wq_mono; [apply (wp_scan_all (2 * k)); [done..|eapply quick_le; [|apply Hq]; lia]|]. intros _ s' (Hi' & _ & _ & Hlen'). apply (IH' k); [by rewrite adds_cons|done|done].
Qed.
Lemma new_hb_inv : hb_inv clock timeout new_HeartbeatMgr.
Proof. split; cbn; [constructor|constructor|by intros u l []%lookup_empty_Some..]. Qed.

(** ** A heartbeat that arrives

    [kept]: the time at which a remote was last heard does not change until it is reported. *)
Definition kept s s' : Prop := failed_uris s `prefix_of` failed_uris s' ∧ ∀ u l, map_last_hb_rx_ s !! u = Some l → map_last_hb_rx_ s' !! u = Some l ∨ u ∈ failed_uris s'.
#[local] Instance kept_preorder : PreOrder kept.
Proof.
  split; [split; auto|]. intros s1 s2 s3 [Hf Hm] [Hf' Hm']. split; [by trans (failed_uris s2)|]. intros u l Hu. destruct (Hm u l Hu) as [Hu'|Hu']; [auto|]. right. by eapply elem_of_prefix.
Qed.
Lemma kept_modify f : (∀ s, kept s (f s)) → Preserves kept (modify f).
Proof. intros H s. apply wq_modify, H. Qed.
Lemma kept_same s s' : failed_uris s' = failed_uris s → map_last_hb_rx_ s' = map_last_hb_rx_ s → kept s s'.
Proof. intros Hf Hm. split; [by rewrite Hf|]. intros u l Hu. left. by rewrite Hm. Qed.
#[local] Instance rdtsc_kept : Preserves kept (rdtsc clock).
Proof. unfold rdtsc. pres. apply kept_modify. intros s'. by apply kept_same. Qed.
#[local] Instance schedule_send_kept u : Preserves kept (schedule_hb_send tie clock timeout u).
Proof. unfold schedule_hb_send. pres. apply kept_modify. intros s. by apply kept_same. Qed.
#[local] Instance schedule_check_kept u : Preserves kept (schedule_hb_check tie clock timeout u).
Proof. unfold schedule_hb_check. pres. apply kept_modify. intros s. by apply kept_same. Qed.
#[local] Instance make_heartbeat_kept u : Preserves kept (make_heartbeat stray lh lp u).
Proof. unfold make_heartbeat. pres. Qed.
#[local] Instance report_kept u : Preserves kept (modify (λ s, set_failed (failed_uris s ++ [u]) s) ;; modify (λ s, set_last_rx (delete u (map_last_hb_rx_ s)) s)).
Proof.
  intros s. wstep. apply wq_modify. apply wq_modify. split; [by eexists|]. intros v l Hv. cbn [map_last_hb_rx_ failed_uris set_failed set_last_rx].
  destruct (decide (v = u)) as [->|Hne]; [right; apply elem_of_app; right; by left|left; by rewrite lookup_delete_ne].
Qed.
#[local] Instance handle_event_kept e : Preserves kept (handle_event tie clock stray lh lp timeout e).
Proof.
  unfold handle_event. destruct (ev_type e); [pres; apply kept_modify; intros s; by apply kept_same|].
  pres_step; [pres|]. pres_step; [pres|]. pres_step; [apply report_kept|pres].
Qed.
#[local] Instance scan_kept fuel : Preserves kept (scan fuel).
Proof. induction fuel as [|fuel IH]; cbn [do_one]; pres. apply kept_modify. intros s. by apply kept_same. Qed.
#[local] Instance receive_kept p : Preserves kept (unlocked_receive_hb clock p).
Proof.
  intros s. unfold unlocked_receive_hb. do 2 wstep. destruct (_ !! _) as [l|] eqn:Hl; [|wstep; reflexivity]. wstep. unfold rdtsc. do 3 wstep. wstep. apply wq_modify.
  apply kept_same; [done|]. apply emplace_present. by exists l.
Qed.
Lemma run_kept ls : adds ls = 0%nat → Preserves kept (hb_run ls).
Proof.
  unfold hb_run. induction ls as [|l ls IH]; cbn [for_each]; intros H; [pres|]. rewrite adds_cons in H. destruct l as [u|p|]; cbn [is_add] in H; [lia|..]; specialize (IH H); (pres_step; [cbn [hb_step]|exact IH]); pres.
Qed.

(** ** An event of a remote that is not tracked

    When it is the first of the queue, and due, nothing but adding its remote again moves it. *)
Definition stuck e s : Prop := (∃ q, hb_event_pqueue_ s = e :: q) ∧ map_last_hb_rx_ s !! rem_uri_ e = None ∧ tsc_ e ≤ clock (reads s).
Definition silent e s s' : Prop := stuck e s' ∧ hb_sent s' = hb_sent s ∧ failed_uris s' = failed_uris s.
Lemma stuck_reads e s n : clock_ok clock timeout → stuck e s → (reads s ≤ n)%nat → stuck e (set_reads n s).
Proof. intros Hc (Hq & Hm & Ht) Hn. split_and!; [done|done|]. pose proof (ck_mono _ _ Hc _ _ Hn). cbn. lia. Qed.
Lemma stuck_scheduled e ty d u s : clock_ok clock timeout → 0 < d → stuck e s → stuck e (scheduled tie clock ty d u s).
Proof.
  intros Hc Hd Hs. pose proof (stuck_reads e s (S (reads s)) Hc Hs ltac:(lia)) as (_ & Hm & Ht). destruct Hs as ([q Hq] & _ & Ht0). split_and!; [|exact Hm|exact Ht].
  cbn [scheduled hb_event_pqueue_ set_pqueue]. rewrite Hq. cbn [pq_push tsc_]. rewrite (proj2 (Z.ltb_ge _ _)), (proj2 (Z.eqb_neq _ _)) by lia. by eexists.
Qed.
Lemma wp_stuck_step l e s : clock_ok clock timeout → (∀ u, l = HbAdd u → u ≠ rem_uri_ e) → stuck e s → wp (hb_step l) (λ _ s', silent e s s') s.
Proof.
  intros Hc Hl Hs. pose proof Hs as ([q Hq] & Hm & Ht). pose proof (deltas clock lh timeout Hc). destruct l as [u|p|]; cbn [hb_step].
  - unfold unlocked_add_remote. wstep. apply wp_rdtsc. wstep. apply wq_modify. wstep. apply (wp_schedule_send tie clock lh timeout Hc), (wp_schedule_check tie clock lh timeout Hc). split_and!; [|done..].
    apply stuck_scheduled; [done|lia|]. apply stuck_scheduled; [done|lia|]. apply (stuck_reads e s (S (reads s)) Hc) in Hs as (H1 & _ & H2); [|lia]. split_and!; [exact H1| |exact H2].
    cbn [map_last_hb_rx_ set_reads set_last_rx]. unfold emplace. destruct (_ !! u); [done|]. rewrite lookup_insert_ne; [done|]. by apply Hl.
  - unfold unlocked_receive_hb. do 2 wstep. destruct (_ !! uri _) as [l|] eqn:Hu; [|by wstep]. wstep. apply wp_rdtsc. apply wq_modify. split_and!; [|done..].
    rewrite emplace_present by (by exists l). by apply (stuck_reads e s (S (reads s))); [..|lia].
  - do 2 wstep. rewrite Hq. cbn [length do_one]. do 2 wstep. rewrite Hq. wstep. apply wp_rdtsc. rewrite (proj2 (Z.ltb_ge _ _)) by lia. rewrite Hm. wstep. split_and!; [|done..]. by apply stuck_reads; [..|lia].
Qed.
Lemma wp_stuck_run ls e s : clock_ok clock timeout → (∀ u, HbAdd u ∈ ls → u ≠ rem_uri_ e) → stuck e s → wp (hb_run ls) (λ _ s', silent e s s') s.
Proof.
  intros Hc Hls. unfold hb_run. revert s. induction ls as [|l ls IH]; intros s Hs; cbn [for_each]; [by wstep|]. wstep. eapply wq_mono; [apply wp_stuck_step; [done| |done]|].
  - intros u ->. apply Hls. by left.
  - intros _ s1 (Hs1 & Hse & Hf). eapply wq_mono; [apply IH; [intros; apply Hls; by right|done]|]. intros _ s2 (Hs2 & Hse' & Hf'). split_and!; [done|congruence|congruence].
Qed.

(** ** The time of a remote

    The map has, for a remote that is tracked, the reading of the counter when a call added it. *)
Definition added_at (ls : list hb_label) u (t : Z) : Prop :=
  ∃ ls1 ls2 s, ls = ls1 ++ HbAdd u :: ls2 ∧ hb_run ls1 new_HeartbeatMgr = Ok (tt, s) ∧ t = clock (reads s).
Definition times_of_addition (ls : list hb_label) s : Prop := ∀ u t, map_last_hb_rx_ s !! u = Some t → added_at ls u t.
Lemma added_at_app ls l u t : added_at ls u t → added_at (ls ++ [l]) u t.
Proof. intros (ls1 & ls2 & s & -> & Hs & Ht). exists ls1, (ls2 ++ [l]), s. by rewrite <- app_assoc. Qed.
Lemma times_scanned ls s s' : scanned clock timeout s s' → times_of_addition ls s → times_of_addition ls s'.
Proof.
  intros (_ & fs & _ & Hfs & Hm) Ht u t Hu. destruct (Hm u) as [E|Hin]; [apply Ht; by rewrite <- E|].
  destruct (Hfs u Hin) as (? & _ & Hn & _). congruence.
Qed.
Lemma times_step ls l s s' : hb_run ls new_HeartbeatMgr = Ok (tt, s) → hb_step l s = Ok (tt, s') → (l = HbScan → scanned clock timeout s s') →
  times_of_addition ls s → times_of_addition (ls ++ [l]) s'.
Proof.
  intros Hrun Hstep Hscan Ht. assert (Hold : times_of_addition (ls ++ [l]) s) by (intros u t Hu; by apply added_at_app, Ht).
  destruct l as [v|p|]; cbn [hb_step] in Hstep; [| |by eapply times_scanned; [apply Hscan|]].
  - unfold unlocked_add_remote, rdtsc, schedule_hb_send, schedule_hb_check in Hstep. cbn in Hstep. injection Hstep as <-.
    intros u t. cbn. unfold emplace. destruct (map_last_hb_rx_ s !! v) eqn:E; [apply Hold|].
    intros [[<- <-]|[_ Hu]]%lookup_insert_Some; [|by apply Hold]. by exists ls, [], s.
  - assert (Hw : wlp (unlocked_receive_hb clock p) (λ _ s', times_of_addition (ls ++ [HbReceive p]) s') s); [|exact (wq_run _ _ _ _ _ _ Hw Hstep)].
    unfold unlocked_receive_hb. do 2 wstep. destruct (_ !! _) as [t0|] eqn:E; [|by wstep]. wstep. unfold rdtsc. do 3 wstep. wstep. apply wq_modify.
    intros u t. cbn. rewrite emplace_present by (by exists t0). apply Hold.
Qed.
Lemma hb_env_app ls l : hb_env (ls ++ [l]) → hb_env ls.
Proof.
  intros [? ? Hu Hq]. split; [done|done|intros u Hin; apply Hu, elem_of_app; by left|]. intros i. eapply quick_le; [|apply Hq].
  unfold adds. rewrite filter_app, length_app. lia.
Qed.
Lemma run_times ls s : hb_env ls → hb_run ls new_HeartbeatMgr = Ok (tt, s) → times_of_addition ls s.
Proof.
  revert s. induction ls as [|l ls IH] using rev_ind; intros s He Hrun; [unfold hb_run in Hrun; cbn in Hrun; injection Hrun as <-; intros u t Hu; cbn in Hu; by rewrite lookup_empty in Hu|].
  pose proof (hb_env_app _ _ He) as He'. pose proof He' as [Hc Hlh _ Hq].
  destruct (proj1 (wp_iff _ _ _) (wp_hb_run ls 0 new_HeartbeatMgr He' new_hb_inv ltac:(cbn; lia) Hq)) as ([] & s1 & Hs1 & Hi & Hlen).
  rewrite (hb_run_app ls [l] _ s1 Hs1) in Hrun. unfold hb_run in Hrun. cbn [for_each] in Hrun. unfold mbind, M_bind in Hrun. destruct (hb_step l s1) as [[[] s2]|] eqn:El; [|done]. injection Hrun as ->.
  eapply times_step; [exact Hs1|exact El| |by apply IH]. intros ->. cbn [hb_step] in El.
  pose proof (wp_scan_all (2 * adds ls) s1 Hc Hlh Hi Hlen (Hq (reads s1))) as Hw. by destruct (wq_run _ _ _ _ _ _ Hw El) as (_ & ? & _).
Qed.

(** A remote is reported although its heartbeats arrive: they do not change the time at
    which it was last heard, which stays that of its addition. *)
Theorem live_remote_is_reported ls1 ls2 s1 s2 s3 u l : hb_env (ls1 ++ ls2) → adds ls2 = 0%nat →
  hb_run ls1 new_HeartbeatMgr = Ok (tt, s1) → map_last_hb_rx_ s1 !! u = Some l → hb_run ls2 s1 = Ok (tt, s2) → scan (S (length (hb_event_pqueue_ s2))) s2 = Ok (tt, s3) →
  check_before timeout l ≤ now clock s3 → ¬ blocked clock s3 → u ∈ failed_uris s3.
Proof.
  intros He H2 Hr1 Hu Hr2 Hr3 Hlate Hnb. pose proof He as [Hc Hlh _ Hq]. pose proof (wp_hb_run (ls1 ++ ls2) 0 new_HeartbeatMgr He new_hb_inv ltac:(cbn; lia) Hq) as Hrun.
  rewrite <- (hb_run_app ls1 ls2 _ s1 Hr1) in Hr2 at 1. pose proof (wq_run _ _ _ _ _ _ Hrun Hr2) as [Hi2 Hlen]. rewrite (hb_run_app ls1 ls2 _ s1 Hr1) in Hr2.
  pose proof (wq_run _ _ _ _ _ _ (wp_scan_all _ s2 Hc Hlh Hi2 Hlen (Hq (reads s2))) Hr3) as (_ & _ & [Hb|Hw] & _); [done|].
  assert (Hk : kept s1 s3) by (trans s2; [exact (wq_run _ _ _ _ _ _ (run_kept ls2 H2 s1) Hr2)|exact (wq_run _ _ _ _ _ _ (scan_kept _ s2) Hr3)]).
  destruct Hk as [_ Hk]. destruct (Hk u l Hu) as [Hu3|Hu3]; [|done]. pose proof (Hw u l Hu3). lia.
Qed.
(** When the first event is due and its remote is not tracked (it has been reported), no
    call sends a heartbeat or reports a remote any more, whatever is added, until that
    remote is added again. *)
Theorem untracked_event_stops_manager ls e s : clock_ok clock timeout → (∀ u, HbAdd u ∈ ls → u ≠ rem_uri_ e) → stuck e s →
  ∃ s', hb_run ls s = Ok (tt, s') ∧ hb_sent s' = hb_sent s ∧ failed_uris s' = failed_uris s.
Proof. intros Hc Hls Hs. destruct (proj1 (wp_iff _ _ _) (wp_stuck_run ls e s Hc Hls Hs)) as ([] & s' & Hr & _ & H1 & H2). by exists s'. Qed.
End runs.

(** ** An example

    The counter advances by ten between readings; heartbeats have 1000 cycles. *)
Definition ex_clock (i : nat) : Z := Z.min (10 * Z.of_nat i) (2 ^ 62).
Definition ex_uri : string := "10.0.0.1:31850".
Definition ex_hb : SmPkt := mk_SmPkt kPingReq kNoError 0 (mk_ep kInvalid "10.0.0.1" 31850 255 65535 0) (mk_ep kInvalid "10.0.0.9" 31850 255 65535 0).
Abbreviation ex_run := (hb_run (λ _ _, false) ex_clock kInvalid "10.0.0.9" 31850 1000).
Definition ex_state (ls : list hb_label) : HeartbeatMgr := match ex_run ls new_HeartbeatMgr with Ok (_, s) => s | Fault _ => new_HeartbeatMgr end.
Definition is_ok (ls : list hb_label) : bool := match ex_run ls new_HeartbeatMgr with Ok _ => true | Fault _ => false end.
Lemma ex_run_state ls : is_ok ls = true → ex_run ls new_HeartbeatMgr = Ok (tt, ex_state ls).
Proof. unfold is_ok, ex_state. by destruct (ex_run ls new_HeartbeatMgr) as [[[] s]|]. Qed.
Lemma ex_clock_ok : clock_ok ex_clock 1000.
Proof. unfold ex_clock. split; intros; lia. Qed.
Lemma ex_env ls : (∀ u, HbAdd u ∈ ls → u = ex_uri) → (adds ls ≤ 1)%nat → hb_env ex_clock "10.0.0.9" 1000 ls.
Proof.
  intros Hu Ha. split; [apply ex_clock_ok|done| |].
  - intros u ->%Hu. split; [done|]. by exists "10.0.0.1", 31850.
  - intros i j Hj. unfold ex_clock. change (hb_send_delta_tsc_ 1000) with 100. lia.
Qed.
(** A heartbeat every ten cycles, and the remote is reported. *)
Lemma live_remote_is_reported_witness : ex_uri ∈ failed_uris (ex_state (HbAdd ex_uri :: replicate 170 (HbReceive ex_hb) ++ [HbScan])).
Proof.
  apply (live_remote_is_reported (λ _ _, false) ex_clock kInvalid "10.0.0.9" 31850 1000 [HbAdd ex_uri] (replicate 170 (HbReceive ex_hb)) (ex_state [HbAdd ex_uri]) (ex_state (HbAdd ex_uri :: replicate 170 (HbReceive ex_hb))) _ ex_uri 0).
  - apply ex_env; [|exact (le_n 1)].
    intros u [[= ->]%list_elem_of_singleton|Hu%elem_of_replicate]%elem_of_app; [done|]. by destruct Hu.
  - reflexivity.
  - by apply ex_run_state.
  - reflexivity.
  - vm_compute. reflexivity.
  - vm_compute. reflexivity.
  - apply Z.leb_le. vm_compute. reflexivity.
  - intros (e & q & Hq & He & _). revert He. assert (E : hd_error (hb_event_pqueue_ (ex_state (HbAdd ex_uri :: replicate 170 (HbReceive ex_hb) ++ [HbScan]))) = Some e) by (rewrite Hq; reflexivity).
    vm_compute in E. injection E as <-. intros He%Z.leb_le. vm_compute in He. discriminate He.
Defined.
(** After the report, the event for the next heartbeat of the reported remote stops the manager. *)
Lemma untracked_event_stops_manager_witness : ∃ s', ex_run [HbAdd "10.0.0.2:31850"; HbScan] (ex_state (HbAdd ex_uri :: replicate 170 (HbReceive ex_hb) ++ replicate 15 HbScan)) = Ok (tt, s') ∧ hb_sent s' = hb_sent (ex_state (HbAdd ex_uri :: replicate 170 (HbReceive ex_hb) ++ replicate 15 HbScan)).
Proof.
  assert (E : hd_error (hb_event_pqueue_ (ex_state (HbAdd ex_uri :: replicate 170 (HbReceive ex_hb) ++ replicate 15 HbScan))) = Some (mk_event kSend ex_uri 1840)) by (vm_compute; reflexivity).
  destruct (hb_event_pqueue_ (ex_state (HbAdd ex_uri :: replicate 170 (HbReceive ex_hb) ++ replicate 15 HbScan))) as [|e q] eqn:Hq; [discriminate E|]. injection E as ->.
  destruct (untracked_event_stops_manager (λ _ _, false) ex_clock kInvalid "10.0.0.9" 31850 1000 [HbAdd "10.0.0.2:31850"; HbScan] (mk_event kSend ex_uri 1840) (ex_state (HbAdd ex_uri :: replicate 170 (HbReceive ex_hb) ++ replicate 15 HbScan))) as (s' & Hs & H1 & _).
  - exact ex_clock_ok.
  - intros u [[= ->]|[[=]|[]%not_elem_of_nil]%elem_of_cons]%elem_of_cons. discriminate.
  - split_and!; [eexists; exact Hq|vm_compute; reflexivity|apply Z.leb_le; vm_compute; reflexivity].
  - exists s'. split; [exact Hs|exact H1].
Defined.
