(* ===== verification/RpcTx.v ===== *)
(** * Messages ready to be sent

    What [enqueue_request] and [enqueue_response] make of a serialized message: a
    header for each packet in front of the packets, and what the transport then
    sends for packet [k]. *)

From S2P Require Import Prelude IoVector IoVectorSpec IoVectorClass IoVectorOps Serializer SerializerSer SerializerPkts RpcTypes Rpc RpcState.

(** What the transports guarantee of their constants. *)
Class TransportOk `{Transport} : Prop := {
  kmax_pos : 0 < kMaxDataPerPkt;
  kmax_width : kMaxDataPerPkt < 2 ^ 16;
  postlist_pos : (0 < kPostlist)%nat;
  postlist_unsig : (kPostlist ≤ 2 * kUnsigBatch)%nat;
  sizeof_pos : 0 < sizeof_pkthdr_t
}.

Section message.
Context `{TTr : Transport} `{!TransportOk} (asserts : bool).
Implicit Types (r : Rpc) (d : list Z) (pkts : list (list iovec)) (h : pkthdr_t).

Definition chunk (k : nat) (d : list Z) : list Z := take (Z.to_nat kMaxDataPerPkt) (drop (k * Z.to_nat kMaxDataPerPkt) d).
Definition npkts (d : list Z) : Z := data_size_to_num_pkts kMaxDataPerPkt (Z.of_nat (length d)).

Lemma hdr_at_inj a i j : hdr_at a i = hdr_at a j → i = j.
Proof. unfold hdr_at. pose proof sizeof_pos. nia. Qed.

(** The message [d] at [ptr], cut into [pkts], with room for its headers at [hdr]. *)
Record prepared (r : Rpc) (ptr hdr : Z) (d : list Z) (pkts : list (list iovec)) : Prop := {
  pr_ser : ∃ s, msgbufs r !! ptr = Some s ∧ packets_of (bytes (mem r)) kMaxDataPerPkt d pkts s;
  pr_hdrs : ∀ k, (k < length pkts)%nat → is_Some (hdrs r !! hdr_at hdr (Z.of_nat k));
  pr_total : ∃ h, hdrs r !! hdr = Some h ∧ total_pkt h = Z.of_nat (length pkts);
  pr_sge : ∀ k p, pkts !! k = Some p → Z.of_nat (length p) < kNumSge;
  pr_pos : 0 < Z.of_nat (length d) < 2 ^ 24;
  pr_tail : Z.of_nat (length d) mod kMaxDataPerPkt ≠ 0
}.

(** Header [k] of a message whose first header was filled in as [h]. *)
Definition nth_hdr (h : pkthdr_t) (n : nat) (k : nat) : pkthdr_t :=
  let h := if bool_decide (k = 0%nat) then h else set_pkt_num (Z.of_nat k) h in
  if bool_decide (S k = n) then set_this_msg_size (msg_size_ h mod kMaxDataPerPkt) h else h.
(** The message with its headers in place. *)
Record message (r : Rpc) (ptr hdr : Z) (d : list Z) (pkts : list (list iovec)) (h : pkthdr_t) : Prop := {
  me_total : total_pkt h = Z.of_nat (length pkts);
  me_some : (0 < length pkts)%nat;
  me_ser : ∃ s, msgbufs r !! ptr = Some s ∧ total_pkg s = Z.of_nat (length pkts) ∧
    ∀ k p, pkts !! k = Some p → iv_at (iov s) (Z.of_nat k) = Ok (mk_iovec (hdr_at hdr (Z.of_nat k)) sizeof_pkthdr_t) ∧ get_n_data (Z.of_nat k) s = Ok p;
  me_hdrs : ∀ k, (k < length pkts)%nat → hdrs r !! hdr_at hdr (Z.of_nat k) = Some (nth_hdr h (length pkts) k);
  me_sge : ∀ k p, pkts !! k = Some p → Z.of_nat (length p) < kNumSge;
  me_data : ∀ k p, pkts !! k = Some p → data (bytes (mem r)) p = Some (chunk k d);
  me_this : ∀ k, (k < length pkts)%nat → this_msg_size (nth_hdr h (length pkts) k) ≠ 0
}.

Lemma wp_copy_headers n hdr i h r Q :
  1 ≤ i → hdrs r !! hdr = Some h → (∀ k, i ≤ k < i + Z.of_nat n → is_Some (hdrs r !! hdr_at hdr k)) →
  (∀ hs, (∀ k, i ≤ k < i + Z.of_nat n → hs !! hdr_at hdr k = Some (set_pkt_num k h)) →
     (∀ a, (∀ k, i ≤ k < i + Z.of_nat n → a ≠ hdr_at hdr k) → hs !! a = hdrs r !! a) → Q tt (set_hdrs hs r)) →
  wp (copy_headers n hdr i) Q r.
Proof.
  revert i r. induction n as [|n IH]; intros i r Hi Hh Hall HQ.
  - apply wq_ret. replace r with (set_hdrs (hdrs r) r) by by destruct r. apply HQ; intros; [lia|done].
  - cbn [copy_headers]. wstep. eapply wq_get_hdr; [done|]. wstep. apply wq_put_hdr; [apply Hall; lia|].
    assert (H0 : hdr_at hdr i ≠ hdr). { intros E. assert (i = 0); [|lia]. apply (hdr_at_inj hdr). rewrite E. unfold hdr_at. lia. }
    apply IH; [lia| | |]; cbn [hdrs set_hdrs].
    + by rewrite lookup_insert_ne.
    + intros k Hk. destruct (decide (hdr_at hdr k = hdr_at hdr i)) as [->|Hne]; [by rewrite lookup_insert_eq|]. rewrite lookup_insert_ne by done. apply Hall. lia.
    + intros hs Hs1 Hs2. cbn [set_hdrs] in *. apply HQ.
      * intros k Hk. destruct (decide (k = i)) as [->|Hne]; [|apply Hs1; lia]. rewrite Hs2; [by rewrite lookup_insert_eq|].
        intros k Hk' E%hdr_at_inj. lia.
      * intros a Ha. rewrite Hs2; [|intros k Hk; apply Ha; lia]. rewrite lookup_insert_ne; [done|]. intros E. apply (Ha i); [lia|done].
Qed.

(** Headers for every packet, in front of the packets. *)
Lemma wp_add_headers_raw r ptr hdr d pkts s h Q :
  msgbufs r !! ptr = Some s → packets_of (bytes (mem r)) kMaxDataPerPkt d pkts s → (∀ k, (k < length pkts)%nat → is_Some (hdrs r !! hdr_at hdr (Z.of_nat k))) → (0 < length pkts)%nat →
  hdrs r !! hdr = Some h → total_pkt h = Z.of_nat (length pkts) →
  (∀ hs s', (∀ a, (∀ k, (k < length pkts)%nat → a ≠ hdr_at hdr (Z.of_nat k)) → hs !! a = hdrs r !! a) →
     (∀ k, (k < length pkts)%nat → hs !! hdr_at hdr (Z.of_nat k) = Some (nth_hdr h (length pkts) k)) → total_pkg s' = Z.of_nat (length pkts) →
     (∀ k p, pkts !! k = Some p → iv_at (iov s') (Z.of_nat k) = Ok (mk_iovec (hdr_at hdr (Z.of_nat k)) sizeof_pkthdr_t) ∧ get_n_data (Z.of_nat k) s' = Ok p) →
     Q tt (set_msgbufs (<[ptr := s']> (msgbufs r)) (set_hdrs hs r))) →
  wp (add_headers ptr hdr) Q r.
Proof.
  intros Hs Hpk Hhd Hn Hh Htot HQ. pose proof (po_count _ _ _ _ _ Hpk) as Hcnt. pose proof kmax_pos.
  unfold add_headers. wstep. eapply wq_get_hdr; [done|]. wstep. rewrite Htot. apply wp_copy_headers with h; [lia|done|intros k Hk; replace k with (Z.of_nat (Z.to_nat k)) by lia; apply Hhd; lia|].
  intros hs Hs1 Hs2. set (n := length pkts) in *. set (r1 := set_hdrs hs r).
  assert (Hhs0 : hs !! hdr = Some h). { rewrite Hs2; [done|]. intros k Hk E. assert (0 = k); [|lia]. apply (hdr_at_inj hdr). rewrite <- E. unfold hdr_at. lia. }
  assert (Hk : ∀ k, (k < n)%nat → hs !! hdr_at hdr (Z.of_nat k) = Some (if bool_decide (k = 0%nat) then h else set_pkt_num (Z.of_nat k) h)).
  { intros k Hk. case_bool_decide as E; [subst k; unfold hdr_at; by rewrite Z.add_0_r|]. apply Hs1. lia. }
  wstep. eapply wq_get_hdr; [exact Hhs0|]. wstep. rewrite Htot. replace (Z.of_nat n - 1) with (Z.of_nat (n - 1)) by lia. eapply wq_get_hdr; [apply Hk; lia|].
  wstep. apply wq_put_hdr; [eexists; apply Hk; lia|]. set (hl := set_this_msg_size _ _). set (hs' := <[hdr_at hdr (Z.of_nat (n - 1)) := hl]> hs).
  change (hdrs r1) with hs. fold hs'. set (r2 := set_hdrs hs' r1).
  assert (Hk' : ∀ k, (k < n)%nat → hs' !! hdr_at hdr (Z.of_nat k) = Some (nth_hdr h n k)).
  { intros k Hkn. unfold hs', nth_hdr. destruct (decide (S k = n)) as [E|E].
    - rewrite bool_decide_eq_true_2 by done. replace (n - 1)%nat with k by lia. rewrite lookup_insert_eq. unfold hl. replace (n - 1)%nat with k by lia. by case_bool_decide.
    - rewrite bool_decide_eq_false_2 by done. rewrite lookup_insert_ne; [by apply Hk|]. intros E'%hdr_at_inj. lia. }
  pose proof (Hk' 0%nat Hn) as Hh0. unfold hdr_at in Hh0. rewrite Z.add_0_r in Hh0.
  wstep. eapply wq_get_hdr; [exact Hh0|]. wstep. eapply wq_get_msgbuf; [exact Hs|].
  replace (total_pkt (nth_hdr h n 0)) with (Z.of_nat n) by (unfold nth_hdr; cbn; by case_bool_decide). rewrite Nat2Z.id.
  destruct (headers_in_front _ _ _ _ _ ((λ i, mk_iovec (hdr_at hdr (Z.of_nat i)) sizeof_pkthdr_t) <$> seq 0 n) Hpk) as (s2 & Hpush & _ & Ht2 & Hat).
  { apply Forall_fmap, Forall_forall. intros i _. cbn. pose proof sizeof_pos. lia. }
  { by rewrite length_fmap, length_seq. }
  wstep. eapply wq_lift_ok; [exact Hpush|]. unfold put_msgbuf. wstep.
  change (set_msgbufs (<[ptr:=s2]> (msgbufs r2)) r2) with (set_msgbufs (<[ptr:=s2]> (msgbufs r)) (set_hdrs hs' r)). apply HQ; [|done|done|].
  - intros a Ha. unfold hs'. rewrite lookup_insert_ne; [|intros E; apply (Ha (n - 1)%nat); [lia|done]]. apply Hs2. intros k Hkr. replace k with (Z.of_nat (Z.to_nat k)) by lia. apply Ha. lia.
  - intros k p Hp. apply Hat; [|done]. rewrite list_lookup_fmap, lookup_seq_lt by (by eapply lookup_lt_Some). done.
Qed.
(** The message, when its last packet is not full. *)
Lemma wp_add_headers r ptr hdr d pkts h Q :
  prepared r ptr hdr d pkts → hdrs r !! hdr = Some h → total_pkt h = Z.of_nat (length pkts) →
  msg_size_ h = Z.of_nat (length d) → this_msg_size h = kMaxDataPerPkt →
  (∀ hs s, (∀ a, (∀ k, (k < length pkts)%nat → a ≠ hdr_at hdr (Z.of_nat k)) → hs !! a = hdrs r !! a) →
     message (set_msgbufs (<[ptr := s]> (msgbufs r)) (set_hdrs hs r)) ptr hdr d pkts h → Q tt (set_msgbufs (<[ptr := s]> (msgbufs r)) (set_hdrs hs r))) →
  wp (add_headers ptr hdr) Q r.
Proof.
  intros [(s & Hs & Hpk) Hhd _ Hsge Hpos Htail] Hh Htot Hms Hthis HQ. pose proof (po_count _ _ _ _ _ Hpk) as Hcnt. pose proof kmax_pos.
  assert (Hn : (0 < length pkts)%nat).
  { pose proof (num_pkts_cover kMaxDataPerPkt (Z.of_nat (length d)) ltac:(done) ltac:(lia)). nia. }
  eapply wp_add_headers_raw; [exact Hs|exact Hpk|done|done|exact Hh|done|]. intros hs s2 Hfr Hk Ht Hat. apply HQ; [done|]. split; [done|done| |done|done| |].
  - exists s2. cbn [msgbufs set_msgbufs]. by rewrite lookup_insert_eq.
  - intros k p Hp. apply (po_data _ _ _ _ _ Hpk k p Hp).
  - intros k Hkn. unfold nth_hdr. pose proof (Z.mod_pos_bound (Z.of_nat (length d)) kMaxDataPerPkt ltac:(done)). pose proof kmax_width.
    case_bool_decide; case_bool_decide; cbn; rewrite ?Hms, ?Hthis; try lia; unfold bits; rewrite Z.mod_small by lia; done.
Qed.
End message.

(** * The transmit side of an endpoint

    The batch of an endpoint that serves one message: every item is a packet of the
    message or a control header that has not been reused, so that what is about to be
    sent stays what it was when it was put into the batch. *)

Section tx.
Context `{TTr : Transport} `{!TransportOk} (asserts : bool).
Implicit Types (r : Rpc) (d : list Z) (pkts : list (list iovec)) (h : pkthdr_t) (l : list wire_pkt).

(** A message of the user, and whether the endpoint has it. *)
Record umsg : Type := mk_umsg { u_ptr : Z; u_hdr : Z; u_data : list Z; u_pkts : list (list iovec); u_head : pkthdr_t }.
Definition ctrl_count : Z := 2 * Z.of_nat kUnsigBatch.
Definition ctrl_addr (r : Rpc) (i : Z) : Z := hdr_at (ctrl_msgbufs_hdr r) i.
Definition has_msg (r : Rpc) (T : option umsg) : Prop :=
  match T with
  | None => True
  | Some u => message r (u_ptr u) (u_hdr u) (u_data u) (u_pkts u) (u_head u) ∧
      ∀ k i, (k < length (u_pkts u))%nat → 0 ≤ i < ctrl_count → hdr_at (u_hdr u) (Z.of_nat k) ≠ ctrl_addr r i
  end.
Definition user_pkt (route : nat) (u : umsg) (k : nat) : wire_pkt :=
  mk_wire route (nth_hdr (u_head u) (length (u_pkts u)) k) (chunk k (u_data u)).
Definition item_ok (head len : Z) (route : nat) (T : option umsg) (it : tx_burst_item_t) : Prop :=
  (∃ u k, T = Some u ∧ (k < length (u_pkts u))%nat ∧ it = mk_item route (UserSer (u_ptr u)) (Z.of_nat k)) ∨
  (∃ e, 1 ≤ e ≤ len ∧ it = mk_item route (CtrlSer (Z.to_nat ((head - e) mod ctrl_count))) 0).

Record tx_inv (r : Rpc) (route : nat) (T : option umsg) (l : list wire_pkt) : Prop := {
  ti_out : out r l;
  ti_room : (length (tx_burst_arr_ r) < kPostlist)%nat;
  ti_items : Forall (item_ok (ctrl_msgbuf_head_ r) (Z.of_nat (length (tx_burst_arr_ r))) route T) (tx_burst_arr_ r);
  ti_head : 0 ≤ ctrl_msgbuf_head_ r < ctrl_count;
  ti_sers : ∀ i, 0 ≤ i < ctrl_count → ∃ s v, ctrl_serialization r !! Z.to_nat i = Some s ∧ iv_at (iov s) 0 = Ok v ∧ iov_base v = ctrl_addr r i;
  ti_hdrs : ∀ i, 0 ≤ i < ctrl_count → ∃ h, hdrs r !! ctrl_addr r i = Some h ∧ 0 ≤ total_pkt h;
  ti_zero : ∀ i h, mk_item route (CtrlSer i) 0 ∈ tx_burst_arr_ r → hdrs r !! ctrl_addr r (Z.of_nat i) = Some h → this_msg_size h = 0;
  ti_msg : has_msg r T
}.

Lemma ctrl_count_pos : 0 < ctrl_count.
Proof. unfold ctrl_count. pose proof postlist_pos. pose proof postlist_unsig. lia. Qed.
Lemma item_pkt_det r it w w' : item_pkt r it w → item_pkt r it w' → w = w'.
Proof.
  intros (s & v0 & h0 & vn & H1 & _ & _ & _ & H5 & H6 & H7 & H8) (s' & v0' & h0' & vn' & G1 & _ & _ & _ & G5 & G6 & G7 & G8).
  rewrite H1 in G1. injection G1 as <-. rewrite H5 in G5. injection G5 as <-. rewrite H6 in G6. injection G6 as G6.
  destruct w as [rt h b], w' as [rt' h' b']. cbn in *. subst h' rt rt'. destruct (this_msg_size h =? 0); [by subst|].
  destruct H8 as (ps & E & _ & D), G8 as (ps' & E' & _ & D'). rewrite E in E'. injection E' as <-. rewrite D in D'. by injection D' as <-.
Qed.
Lemma user_item_pkt r route u k :
  has_msg r (Some u) → (k < length (u_pkts u))%nat → item_pkt r (mk_item route (UserSer (u_ptr u)) (Z.of_nat k)) (user_pkt route u k).
Proof.
  intros [[Ht H0 (s & Hs & _ & Hat) Hh Hsge Hd Hth] _] Hk. destruct (lookup_lt_is_Some_2 (u_pkts u) k Hk) as [p Hp].
  destruct (lookup_lt_is_Some_2 (u_pkts u) 0 H0) as [p0 Hp0]. destruct (Hat k p Hp) as [Ha Hg]. destruct (Hat 0%nat p0 Hp0) as [Ha0 _].
  exists s, (mk_iovec (hdr_at (u_hdr u) 0) sizeof_pkthdr_t), (nth_hdr (u_head u) (length (u_pkts u)) 0), (mk_iovec (hdr_at (u_hdr u) (Z.of_nat k)) sizeof_pkthdr_t).
  cbn [tx_buffer ser_of pkt_idx_ iov_base w_hdr user_pkt w_route tx_route w_body]. split_and!; try done; [by apply (Hh 0%nat)| |by apply Hh|].
  - replace (total_pkt _) with (total_pkt (u_head u)); [lia|]. unfold nth_hdr. cbn. by case_bool_decide.
  - rewrite (proj2 (Z.eqb_neq _ _) (Hth k Hk)). exists p. split_and!; [done|by eapply Hsge|by apply Hd].
Qed.

(** Items keep their packets when their message and the control headers stay. *)
Lemma out_stable r r' route T l :
  tx_inv r route T l → has_msg r' T →
  tx_burst_arr_ r' = tx_burst_arr_ r → wire r' = wire r → ctrl_serialization r' = ctrl_serialization r → ctrl_msgbufs_hdr r' = ctrl_msgbufs_hdr r →
  (∀ e, 1 ≤ e ≤ Z.of_nat (length (tx_burst_arr_ r)) → hdrs r' !! ctrl_addr r ((ctrl_msgbuf_head_ r - e) mod ctrl_count) = hdrs r !! ctrl_addr r ((ctrl_msgbuf_head_ r - e) mod ctrl_count)) →
  out r' l.
Proof.
  intros [(ws & Hf & ->) _ Hit Hhd Hser _ Hz Hmsg] Hmsg' Hb Hw Hs Hc Hctl. exists ws. rewrite Hb, Hw. split; [|done].
  apply Forall2_same_length_lookup. split; [by eapply Forall2_length|]. intros k it w Hk Hkw.
  pose proof (proj1 (Forall_lookup _ _) Hit k it Hk) as Hok. pose proof (Forall2_lookup_lr _ _ _ _ _ _ Hf Hk Hkw) as Hi.
  destruct Hok as [(u & j & -> & Hj & ->)|(e & He & ->)].
  - rewrite (item_pkt_det r _ w (user_pkt route u j) Hi); [by apply user_item_pkt|by apply user_item_pkt].
  - pose proof ctrl_count_pos. pose proof (Z.mod_pos_bound (ctrl_msgbuf_head_ r - e) ctrl_count ltac:(done)) as Hm.
    destruct (Hser _ Hm) as (s & v & Hsl & Hv & Hva). destruct Hi as (s' & v0 & h0 & vn & H1 & H2 & H3 & H4 & H5 & H6 & H7 & H8).
    cbn [tx_buffer ser_of pkt_idx_ tx_route] in *. rewrite Hsl in H1. injection H1 as <-. rewrite Hv in H2, H5. injection H2 as <-. injection H5 as <-.
    assert (Hz0 : this_msg_size (w_hdr w) = 0) by (eapply Hz; [by eapply list_elem_of_lookup_2|]; by rewrite Z2Nat.id, <- Hva by lia).
    exists s, v, h0, v. cbn [tx_buffer ser_of pkt_idx_ tx_route]. rewrite Hs, Hva, (Hctl e He), <- Hva. split_and!; try done. rewrite Hz0 in *. done.
Qed.

(** What a step that does not touch the transmit side has to keep. *)
Record tx_same (r r' : Rpc) (T : option umsg) : Prop := {
  ts_batch : tx_burst_arr_ r' = tx_burst_arr_ r;
  ts_wire : wire r' = wire r;
  ts_sers : ctrl_serialization r' = ctrl_serialization r;
  ts_base : ctrl_msgbufs_hdr r' = ctrl_msgbufs_hdr r;
  ts_head : ctrl_msgbuf_head_ r' = ctrl_msgbuf_head_ r;
  ts_hdrs : hdrs r' = hdrs r;
  ts_bufs : msgbufs r' = msgbufs r;
  ts_mem : ∀ u a, T = Some u → covers (concat (u_pkts u)) a → bytes (mem r') !! a = bytes (mem r) !! a
}.
Lemma message_same r r' ptr hdr d pkts h :
  msgbufs r' !! ptr = msgbufs r !! ptr → (∀ k, (k < length pkts)%nat → hdrs r' !! hdr_at hdr (Z.of_nat k) = hdrs r !! hdr_at hdr (Z.of_nat k)) →
  (∀ a, covers (concat pkts) a → bytes (mem r') !! a = bytes (mem r) !! a) →
  message r ptr hdr d pkts h → message r' ptr hdr d pkts h.
Proof.
  intros Hb Hh Hm [H1 H2 H3 H4 H5 H6 H7]. split; try done.
  - by rewrite Hb.
  - intros k Hk. rewrite Hh by done. by apply H4.
  - intros k p Hp. rewrite <- (H6 k p Hp). apply data_ext. intros a Ha. apply Hm. apply covers_concat. exists p. split; [by eapply list_elem_of_lookup_2|done].
Qed.
Lemma tx_inv_same r r' route T l : tx_same r r' T → tx_inv r route T l → tx_inv r' route T l.
Proof.
  intros [Hb Hw Hs Hc Hhd Hh Hm Hmem] HI. pose proof HI as [Ho Hr Hi Hd Hser Hhs Hz Hmsg].
  assert (Hmsg' : has_msg r' T).
  { destruct T as [u|]; [|done]. destruct Hmsg as [Hmsg Hap]. split; [|by unfold ctrl_addr; rewrite Hc]. eapply message_same; [by rewrite Hm|by rewrite Hh| |done]. intros a Ha. by eapply Hmem. }
  split; unfold ctrl_addr; rewrite ?Hb, ?Hw, ?Hs, ?Hc, ?Hhd, ?Hh; try done.
  apply (out_stable r r' route T l HI Hmsg' Hb Hw Hs Hc). by rewrite Hh.
Qed.
(** Sending what is there. *)
Lemma tx_inv_sent r route T l : tx_inv r route T l → tx_inv (st_tx [] l r) route T l.
Proof.
  intros [Ho Hr Hi Hd Hser Hhs Hz Hmsg]. split; cbn; try done.
  - exists []. split; [constructor|]. by rewrite app_nil_r.
  - pose proof postlist_pos. lia.
  - by intros ? ? ?%elem_of_nil.
  - destruct T as [u|]; [|done]. destruct Hmsg as [Hmsg Hap]. split; [|done]. by apply (message_same r).
Qed.
(** A packet of the message. *)
Lemma wp_send_user r route u l k Q :
  tx_inv r route (Some u) l → (k < length (u_pkts u))%nat →
  (∀ bt wr, tx_inv (st_tx bt wr r) route (Some u) (l ++ [user_pkt route u k]) → Q tt (st_tx bt wr r)) →
  wp (enqueue_tx_burst asserts route (UserSer (u_ptr u)) (Z.of_nat k)) Q r.
Proof.
  intros HI Hk HQ. pose proof HI as [Ho Hr Hi Hd Hser Hhs Hz [Hmsg Hap]].
  eapply wp_enqueue_tx; [done|by apply user_item_pkt|done|]. intros bt wr Ho' Hlen Hbt. apply HQ.
  assert (Hmsg' : message (st_tx bt wr r) (u_ptr u) (u_hdr u) (u_data u) (u_pkts u) (u_head u)) by by apply (message_same r).
  split; cbn; try done.
  - destruct Hbt as [->| ->]; [|constructor]. rewrite length_app. cbn. apply Forall_app. split.
    + eapply Forall_impl; [exact Hi|]. intros it [?|(e & ? & ->)]; [by left|right]. exists e. split; [lia|done].
    + constructor; [|constructor]. left. by exists u, k.
  - intros i h Hin. apply Hz. destruct Hbt as [->| ->]; [|by apply elem_of_nil in Hin]. apply elem_of_app in Hin as [?|Hin]; [done|]. apply list_elem_of_singleton in Hin. done.
Qed.

(** A control header: the next one is filled in and put into the batch. *)
Definition st_ctrl (a : Z) (h : pkthdr_t) (r : Rpc) : Rpc :=
  let head := ctrl_msgbuf_head_ r + 1 in
  set_hdrs (<[a := h]> (hdrs r)) (set_ctrl_msgbuf_head (if head =? ctrl_count then 0 else head) r).
Lemma next_head_mod head : 0 ≤ head < ctrl_count → (if head + 1 =? ctrl_count then 0 else head + 1) = (head + 1) mod ctrl_count.
Proof.
  intros Hh. destruct (Z.eqb_spec (head + 1) ctrl_count) as [E|E]; [by rewrite E, Z_mod_same_full|]. rewrite Z.mod_small; lia.
Qed.
Lemma ctrl_addr_inj r i j : ctrl_addr r i = ctrl_addr r j → i = j.
Proof. apply hdr_at_inj. Qed.

Lemma tx_inv_ctrl r route T l h :
  tx_inv r route T l → this_msg_size h = 0 → 0 ≤ total_pkt h →
  let r' := st_ctrl (ctrl_addr r (ctrl_msgbuf_head_ r)) h r in
  out r' l ∧ has_msg r' T ∧ item_pkt r' (mk_item route (CtrlSer (Z.to_nat (ctrl_msgbuf_head_ r))) 0) (mk_wire route h []).
Proof.
  intros HI Hz Ht r'. pose proof HI as [Ho Hr Hi Hd Hser Hhs Hzz Hmsg].
  assert (Hmsg' : has_msg r' T).
  { destruct T as [u|]; [|done]. destruct Hmsg as [Hmsg Hap]. split; [|done]. apply (message_same r); [done| |done|done].
    intros k Hk. cbn. rewrite lookup_insert_ne; [done|]. intros E. by apply (Hap k (ctrl_msgbuf_head_ r)). }
  split_and!; [|done|].
  - eapply out_stable; try done. intros e He. cbn. rewrite lookup_insert_ne; [done|]. intros E%ctrl_addr_inj.
    pose proof postlist_unsig. unfold ctrl_count in *. destruct (decide (e ≤ ctrl_msgbuf_head_ r)) as [Hle|Hgt].
    + rewrite Z.mod_small in E by lia. lia.
    + rewrite <- (Z.mod_add _ 1) in E by lia. rewrite Z.mod_small in E by lia. lia.
  - destruct (Hser _ Hd) as (s & v & Hs & Hv & Hva). exists s, v, h, v. cbn. rewrite Hva, lookup_insert_eq, Hz. done.
Qed.
Lemma wp_send_ctrl r route T l h Q :
  tx_inv r route T l → this_msg_size h = 0 → 0 ≤ total_pkt h →
  let r' := st_ctrl (ctrl_addr r (ctrl_msgbuf_head_ r)) h r in
  (∀ bt wr, tx_inv (st_tx bt wr r') route T (l ++ [mk_wire route h []]) → Q tt (st_tx bt wr r')) →
  wp (enqueue_tx_burst asserts route (CtrlSer (Z.to_nat (ctrl_msgbuf_head_ r))) 0) Q r'.
Proof.
  intros HI Hz Ht r' HQ. destruct (tx_inv_ctrl r route T l h HI Hz Ht) as (Ho & Hm & Hit). pose proof HI as [_ Hr Hi Hd Hser Hhs Hzz _]. pose proof ctrl_count_pos.
  assert (Hhead : ctrl_msgbuf_head_ r' = (ctrl_msgbuf_head_ r + 1) mod ctrl_count) by by apply next_head_mod.
  eapply wp_enqueue_tx; [exact Ho|exact Hit|done|]. intros bt wr Ho' Hlen Hbt. apply HQ.
  split; cbn [st_tx set_wire set_tx_burst_arr tx_burst_arr_ ctrl_msgbuf_head_ ctrl_serialization hdrs].
  - done.
  - done.
  - destruct Hbt as [->| ->]; [|constructor]. rewrite length_app. cbn [length tx_burst_arr_ r' st_ctrl set_hdrs set_ctrl_msgbuf_head].
    fold r'. rewrite Hhead. apply Forall_app. split.
    + eapply Forall_impl; [exact Hi|]. intros it [?|(e & ? & ->)]; [by left|right]. exists (e + 1). split; [lia|]. do 3 f_equal.
      rewrite Zminus_mod_idemp_l. f_equal. lia.
    + constructor; [|constructor]. right. exists 1. split; [lia|]. do 3 f_equal. rewrite Zminus_mod_idemp_l. rewrite Z.mod_small; lia.
  - rewrite Hhead. apply Z.mod_pos_bound. lia.
  - exact Hser.
  - intros i Hir. unfold ctrl_addr. cbn. destruct (decide (i = ctrl_msgbuf_head_ r)) as [->|Hne].
    + exists h. by rewrite lookup_insert_eq.
    + destruct (Hhs i Hir) as (h' & Hh' & ?). exists h'. rewrite lookup_insert_ne; [done|]. by intros ?%ctrl_addr_inj.
  - intros i h' Hin. unfold ctrl_addr. cbn. destruct (decide (Z.of_nat i = ctrl_msgbuf_head_ r)) as [E|E].
    + rewrite E, lookup_insert_eq. by intros [= <-].
    + rewrite lookup_insert_ne by (intros ?%ctrl_addr_inj; done). apply Hzz. destruct Hbt as [->| ->]; [|by apply elem_of_nil in Hin].
      apply elem_of_app in Hin as [?|Hin]; [done|]. apply list_elem_of_singleton in Hin. injection Hin as ->. lia.
  - destruct T as [u|]; [|done]. destruct Hm as [Hm Hap]. split; [|done]. by apply (message_same r').
Qed.

(** A new message: nothing of it is in the batch yet. *)
Definition hdrs_apart (r : Rpc) (hdr : Z) (n : nat) : Prop := ∀ k i, (k < n)%nat → 0 ≤ i < ctrl_count → hdr_at hdr (Z.of_nat k) ≠ ctrl_addr r i.
Lemma tx_inv_new r route l hs mb u :
  tx_inv r route None l → (∀ i, 0 ≤ i < ctrl_count → hs !! ctrl_addr r i = hdrs r !! ctrl_addr r i) →
  has_msg (set_msgbufs mb (set_hdrs hs r)) (Some u) → tx_inv (set_msgbufs mb (set_hdrs hs r)) route (Some u) l.
Proof.
  intros HI Hhs Hm. pose proof HI as [Ho Hr Hi Hd Hser Hh Hz _]. pose proof ctrl_count_pos. split; try done.
  - apply (out_stable r (set_msgbufs mb (set_hdrs hs r)) route None l HI); try done. intros e He. cbn. apply Hhs. by apply Z.mod_pos_bound.
  - eapply Forall_impl; [exact Hi|]. intros it [(? & ? & ? & _)|?]; [done|by right].
  - intros i Hir. change (∃ h, hs !! ctrl_addr r i = Some h ∧ 0 ≤ total_pkt h). rewrite Hhs by done. by apply Hh.
  - intros i h Hin Hl. change (hs !! ctrl_addr r (Z.of_nat i) = Some h) in Hl. apply (Hz i h Hin). rewrite <- Hhs; [done|].
    pose proof (proj1 (Forall_forall _ _) Hi _ Hin) as [(? & ? & ? & _)|(e & He & [= ->])]; [done|]. pose proof (Z.mod_pos_bound (ctrl_msgbuf_head_ r - e) ctrl_count ltac:(done)). lia.
Qed.
Lemma prepared_put r ptr hdr d pkts h :
  prepared r ptr hdr d pkts → total_pkt h = Z.of_nat (length pkts) → prepared (set_hdrs (<[hdr := h]> (hdrs r)) r) ptr hdr d pkts.
Proof.
  intros [H1 H2 H3 H4 H5 H6] Ht. split; try done; cbn.
  - intros k Hk. destruct (decide (hdr_at hdr (Z.of_nat k) = hdr)) as [->|E]; [by rewrite lookup_insert_eq|]. rewrite lookup_insert_ne by done. by apply H2.
  - exists h. by rewrite lookup_insert_eq.
Qed.
Lemma prepared_sum r ptr hdr d pkts s :
  prepared r ptr hdr d pkts → msgbufs r !! ptr = Some s → iv_sum (iov s) = Ok (Z.of_nat (length d)).
Proof.
  intros [(s' & Hs & Hpk) _ _ _ _ _] Hs'. rewrite Hs in Hs'. injection Hs' as ->. pose proof (packets_of_data _ _ _ _ _ kmax_pos Hpk) as Hd.
  destruct (po_ser _ _ _ _ _ Hpk) as [Hv _ _]. unfold iv_sum. rewrite (do_assert_ok _ Hv). cbn. by rewrite (data_length _ _ _ (io_lens _ Hv) Hd).
Qed.
Lemma wp_new_message r route l ptr hdr d pkts h Q :
  prepared r ptr hdr d pkts → tx_inv r route None l → hdrs_apart r hdr (length pkts) →
  total_pkt h = Z.of_nat (length pkts) → msg_size_ h = Z.of_nat (length d) → this_msg_size h = kMaxDataPerPkt →
  (∀ hs s, (∀ a, (∀ k, (k < length pkts)%nat → a ≠ hdr_at hdr (Z.of_nat k)) → hs !! a = hdrs r !! a) →
     tx_inv (set_msgbufs (<[ptr := s]> (msgbufs r)) (set_hdrs hs r)) route (Some (mk_umsg ptr hdr d pkts h)) l →
     Q tt (set_msgbufs (<[ptr := s]> (msgbufs r)) (set_hdrs hs r))) →
  wp (add_headers ptr hdr) Q (set_hdrs (<[hdr := h]> (hdrs r)) r).
Proof.
  intros Hp HI Hap Ht Hs Hth HQ. eapply wp_add_headers; [by apply prepared_put|cbn; by rewrite lookup_insert_eq|done|done|done|].
  intros hs s Hfr Hm. change (set_msgbufs _ (set_hdrs hs _)) with (set_msgbufs (<[ptr := s]> (msgbufs r)) (set_hdrs hs r)) in *.
  assert (Hn : (0 < length pkts)%nat) by apply (me_some _ _ _ _ _ _ Hm).
  assert (Hfr' : ∀ a, (∀ k, (k < length pkts)%nat → a ≠ hdr_at hdr (Z.of_nat k)) → hs !! a = hdrs r !! a).
  { intros a Ha. rewrite (Hfr a Ha). cbn. rewrite lookup_insert_ne; [done|]. intros <-. apply (Ha 0%nat Hn). unfold hdr_at. lia. }
  apply HQ; [done|]. apply tx_inv_new; [done| |by split].
  intros i Hi. apply Hfr'. intros k Hk E. by apply (Hap k i Hk Hi).
Qed.
End tx.
