(* ===== verification/RpcKick.v ===== *)
(** * Endpoints seen from one slot

    A state written as a session, a slot of it and the slot's info over the rest of
    the endpoint.  Handlers of the slot rewrite these three parts, and the rules below
    follow them. *)

From S2P Require Import Prelude IoVector IoVectorSpec Serializer RpcTypes Rpc RpcState SerializerSer SerializerPkts RpcTx IoVectorClass IoVectorOps.

Definition st_at (p : sslot_ptr) (x : Session) (sl : SSlot) (inf : slot_info) (r : Rpc) : Rpc :=
  st_slot p x (set_info inf sl) r.
Definition slot_valid (r : Rpc) (p : sslot_ptr) (x : Session) : Prop := (p.1 < length (session_vec_ r))%nat ∧ (p.2 < length (sslot_arr_ x))%nat.
(** Updates that leave the slots, or the info, alone. *)
Definition over_slots (f : Session → Session) : Prop := ∀ i sl x, f (with_slot i sl x) = with_slot i sl (f x).
Definition over_info (f : SSlot → SSlot) : Prop := ∀ inf sl, f (set_info inf sl) = set_info inf (f sl).

Section slot.
Context `{TTr : Transport} (F : fault → Prop) (p : sslot_ptr).
Implicit Types (r : Rpc) (x : Session) (sl : SSlot) (c : client_info) (i : server_info) (inf : slot_info) (Q : unit → Rpc → Prop).

Lemma st_session_session s x y r : st_session s x (st_session s y r) = st_session s x r.
Proof. unfold st_session. cbn. by rewrite list_insert_insert_eq. Qed.
Lemma with_slot_twice k a b x : with_slot k a (with_slot k b x) = with_slot k a x.
Proof. unfold with_slot. cbn. by rewrite list_insert_insert_eq. Qed.
Lemma st_at_self r x sl inf : at_slot r p x sl → info_ sl = inf → st_at p x sl inf r = r.
Proof.
  intros [H1 H2] <-. unfold st_at, st_slot, with_slot, st_session. replace (set_info (info_ sl) sl) with sl by by destruct sl. rewrite (list_insert_id _ _ _ H2).
  replace (set_sslot_arr (sslot_arr_ x) x) with x by by destruct x. rewrite (list_insert_id _ _ _ H1). by destruct r.
Qed.
Lemma at_st_at r x sl inf : slot_valid r p x → at_slot (st_at p x sl inf r) p (with_slot p.2 (set_info inf sl) x) (set_info inf sl).
Proof. intros [H1 H2]. split; cbn; by apply list_lookup_insert_eq. Qed.

Lemma wq_at_get_session x sl inf (Q : Session → Rpc → Prop) r :
  slot_valid r p x → Q (with_slot p.2 (set_info inf sl) x) (st_at p x sl inf r) → wq F (get_session p.1) Q (st_at p x sl inf r).
Proof. intros H HQ. eapply wq_get_session; [apply (at_st_at r x sl inf H)|done]. Qed.
Lemma wq_at_put_session x sl inf y Q r :
  Q tt (st_at p y sl inf r) → wq F (put_session p.1 (with_slot p.2 (set_info inf sl) y)) Q (st_at p x sl inf r).
Proof. intros HQ. apply wq_put_session. unfold st_at, st_slot. by rewrite st_session_session. Qed.
Lemma wq_at_upd_session x sl inf f Q r :
  slot_valid r p x → over_slots f → Q tt (st_at p (f x) sl inf r) → wq F (upd_session p.1 f) Q (st_at p x sl inf r).
Proof.
  intros H Hf HQ. eapply wq_upd_session; [apply (at_st_at r x sl inf H)|]. rewrite Hf. unfold st_at, st_slot. by rewrite st_session_session.
Qed.
Lemma wq_at_get_sslot x sl inf (Q : SSlot → Rpc → Prop) r :
  slot_valid r p x → Q (set_info inf sl) (st_at p x sl inf r) → wq F (get_sslot p) Q (st_at p x sl inf r).
Proof. intros H HQ. eapply wq_get_sslot; [apply (at_st_at r x sl inf H)|done]. Qed.
Lemma st_at_slot x sl inf sl' r : st_slot p (with_slot p.2 (set_info inf sl) x) sl' (st_at p x sl inf r) = st_slot p x sl' r.
Proof. unfold st_at, st_slot. by rewrite with_slot_twice, st_session_session. Qed.
Lemma wq_at_upd_sslot x sl inf f Q r :
  slot_valid r p x → over_info f → Q tt (st_at p x (f sl) inf r) → wq F (upd_sslot p f) Q (st_at p x sl inf r).
Proof. intros H Hf HQ. eapply wq_upd_sslot; [apply (at_st_at r x sl inf H)|]. rewrite st_at_slot, Hf. exact HQ. Qed.
Lemma wq_at_get_ci x sl c (Q : client_info → Rpc → Prop) r :
  slot_valid r p x → Q c (st_at p x sl (ClientInfo c) r) → wq F (get_ci p) Q (st_at p x sl (ClientInfo c) r).
Proof. intros H HQ. eapply wq_get_ci; [split; [apply (at_st_at r x sl (ClientInfo c) H)|done]|done]. Qed.
Lemma wq_at_upd_ci x sl c f Q r :
  slot_valid r p x → Q tt (st_at p x sl (ClientInfo (f c)) r) → wq F (upd_ci p f) Q (st_at p x sl (ClientInfo c) r).
Proof. intros H HQ. eapply wq_upd_ci; [split; [apply (at_st_at r x sl (ClientInfo c) H)|done]|]. rewrite st_at_slot. exact HQ. Qed.
Lemma wq_at_get_si x sl i (Q : server_info → Rpc → Prop) r :
  slot_valid r p x → Q i (st_at p x sl (ServerInfo i) r) → wq F (get_si p) Q (st_at p x sl (ServerInfo i) r).
Proof. intros H HQ. eapply wq_get_si; [split; [apply (at_st_at r x sl (ServerInfo i) H)|done]|done]. Qed.
Lemma wq_at_upd_si x sl i f Q r :
  slot_valid r p x → Q tt (st_at p x sl (ServerInfo (f i)) r) → wq F (upd_si p f) Q (st_at p x sl (ServerInfo i) r).
Proof. intros H HQ. eapply wq_upd_si; [split; [apply (at_st_at r x sl (ServerInfo i) H)|done]|]. rewrite st_at_slot. exact HQ. Qed.
Lemma wq_at_tx_msgbuf x sl inf s (Q : Serializer → Rpc → Prop) r :
  slot_valid r p x → msgbufs r !! tx_msgbuf_ sl = Some s → Q s (st_at p x sl inf r) → wq F (tx_msgbuf p) Q (st_at p x sl inf r).
Proof. intros H Hs HQ. eapply wq_tx_msgbuf; [apply (at_st_at r x sl inf H)|done|done]. Qed.

(** The buffer of a slot. *)
Lemma wq_at_upd_dyn x sl inf v Q r :
  slot_valid r p x → Q tt (st_at p x (set_dyn_resp (set_iov v (dyn_resp_msgbuf_ sl)) sl) inf r) → wq F (upd_dyn_iov p v) Q (st_at p x sl inf r).
Proof. intros H HQ. unfold upd_dyn_iov. by apply wq_at_upd_sslot. Qed.
Lemma wq_at_reset_dyn x sl inf Q r :
  slot_valid r p x →
  Q tt (st_at p x (set_dyn_resp (set_iov (set_iov_end 0 (set_iov_begin 0 (iov (dyn_resp_msgbuf_ sl)))) (dyn_resp_msgbuf_ sl)) sl) inf r) →
  wq F (reset_dyn_iov p) Q (st_at p x sl inf r).
Proof. intros H HQ. unfold reset_dyn_iov. wstep. apply wq_at_get_sslot; [done|]. by apply wq_at_upd_dyn. Qed.
Lemma wq_at_dyn_push x sl inf body size n v (Q : Z → Rpc → Prop) r :
  slot_valid r p x → push_back_buf body size (iov (dyn_resp_msgbuf_ sl)) = Ok (n, v) →
  Q n (st_at p x (set_dyn_resp (set_iov v (dyn_resp_msgbuf_ sl)) sl) inf r) → wq F (dyn_push_back p body size) Q (st_at p x sl inf r).
Proof.
  intros H Hp HQ. unfold dyn_push_back. wstep. apply wq_at_get_sslot; [done|]. wstep. eapply wq_lift_ok; [exact Hp|]. wstep.
  apply wq_at_upd_dyn; [done|]. by wstep.
Qed.
End slot.

(** Parts of the rest change under a slot. *)
Section rest.
Context (p : sslot_ptr) (x : Session) (sl : SSlot) (inf : slot_info) (r : Rpc).
Lemma st_at_tx bt wr : st_tx bt wr (st_at p x sl inf r) = st_at p x sl inf (st_tx bt wr r).
Proof. done. Qed.
Lemma st_at_mem h : set_mem h (st_at p x sl inf r) = st_at p x sl inf (set_mem h r).
Proof. done. Qed.
Lemma st_at_hdrs m : set_hdrs m (st_at p x sl inf r) = st_at p x sl inf (set_hdrs m r).
Proof. done. Qed.
Lemma st_at_events e : set_events e (st_at p x sl inf r) = st_at p x sl inf (set_events e r).
Proof. done. Qed.
End rest.

(** * Using credits: the packets [kick_req_st] and [kick_rfr_st] send

    For a slot whose request is the message [u]: request packets and requests for
    response in order, a credit for each. *)

(** The transmit side of [r] replaced. *)
Definition st_ct (bt : list tx_burst_item_t) (wr : list wire_pkt) (hs : gmap Z pkthdr_t) (hd : Z) (r : Rpc) : Rpc :=
  st_tx bt wr (set_hdrs hs (set_ctrl_msgbuf_head hd r)).
(** A control packet of type [ty] and number [k] for request [q] at session [rs]. *)
Record is_ctrl_pkt (ty : PktType) (route : nat) (rs q k : Z) (w : wire_pkt) : Prop := {
  ic_route : w_route w = route;
  ic_body : w_body w = [];
  ic_type : pkt_type_ (w_hdr w) = ty;
  ic_num : pkt_num_ (w_hdr w) = k;
  ic_req : req_num_ (w_hdr w) = q;
  ic_dest : dest_session_num_ (w_hdr w) = rs;
  ic_size : msg_size_ (w_hdr w) ≤ sizeof_ctrl_buffer
}.

Section kick.
Context `{TTr : Transport} `{!TransportOk} (asserts : bool) (p : sslot_ptr).
Implicit Types (r : Rpc) (x : Session) (sl : SSlot) (c : client_info) (l : list wire_pkt).

Lemma tx_inv_at x sl inf r T l : tx_inv (st_at p x sl inf r) p.1 T l ↔ tx_inv r p.1 T l.
Proof. split; apply tx_inv_same; by split. Qed.
Lemma u64_small z : 0 ≤ z < 2 ^ 64 → u64 z = z.
Proof. apply Z.mod_small. Qed.
Lemma has_msg_first r u : has_msg r (Some u) →
  ∃ s, msgbufs r !! u_ptr u = Some s ∧ total_pkg s = Z.of_nat (length (u_pkts u)) ∧ ∃ v h, iv_at (iov s) 0 = Ok v ∧ hdrs r !! iov_base v = Some h ∧ total_pkt h = Z.of_nat (length (u_pkts u)).
Proof.
  intros [[Ht H0 (s & Hs & Htp & Hat) Hh _ _ _] _]. exists s. split_and!; [done..|]. destruct (lookup_lt_is_Some_2 (u_pkts u) 0 H0) as [p0 Hp0].
  destruct (Hat 0%nat p0 Hp0) as [Ha _]. eexists _, _. split_and!; [exact Ha|apply (Hh 0%nat); done|]. unfold nth_hdr. cbn. by case_bool_decide.
Qed.

Definition next_head (r : Rpc) : Z := if ctrl_msgbuf_head_ r + 1 =? ctrl_count then 0 else ctrl_msgbuf_head_ r + 1.
Lemma wp_next_ctrl (Q : Z → Rpc → Prop) r : Q (ctrl_msgbuf_head_ r) (set_ctrl_msgbuf_head (next_head r) r) → wp next_ctrl Q r.
Proof. intros HQ. unfold next_ctrl. do 5 wstep. exact HQ. Qed.
Lemma st_at_head x sl inf hd r : set_ctrl_msgbuf_head hd (st_at p x sl inf r) = st_at p x sl inf (set_ctrl_msgbuf_head hd r).
Proof. done. Qed.

Lemma wp_kick_req_loop u k x sl c r l Q :
  slot_valid r p x → tx_msgbuf_ sl = u_ptr u → tx_inv r p.1 (Some u) l → Z.of_nat (length (u_pkts u)) < 2 ^ 32 →
  0 ≤ ci_num_tx c → ci_num_tx c + Z.of_nat k ≤ Z.of_nat (length (u_pkts u)) → Z.of_nat k ≤ credits_ x ≤ kSessionCredits →
  (∀ bt wr, tx_inv (st_tx bt wr r) p.1 (Some u) (l ++ (user_pkt p.1 u <$> seq (Z.to_nat (ci_num_tx c)) k)) →
     Q tt (st_at p (set_credits (credits_ x - Z.of_nat k) x) sl (ClientInfo (set_ci_num_tx (ci_num_tx c + Z.of_nat k) c)) (st_tx bt wr r))) →
  wp (kick_req_loop asserts k p) Q (st_at p x sl (ClientInfo c) r).
Proof.
  intros Hv Hm HI Hn H0 Hk Hc HQ. unfold kSessionCredits in *. revert x c r l Hv HI H0 Hk Hc HQ. induction k as [|k IH]; intros x c r l Hv HI H0 Hk Hc HQ.
  - apply wq_ret. specialize (HQ (tx_burst_arr_ r) (wire r)). rewrite Z.sub_0_r, Z.add_0_r in HQ. replace (st_tx (tx_burst_arr_ r) (wire r) r) with r in HQ by by destruct r.
    replace (set_credits (credits_ x) x) with x in HQ by by destruct x. replace (set_ci_num_tx (ci_num_tx c) c) with c in HQ by by destruct c.
    apply HQ. cbn. by rewrite app_nil_r.
  - cbn [kick_req_loop]. wstep. apply wq_at_get_ci; [done|]. wstep. unfold enqueue_pkt_tx_burst_st. wstep. apply wq_at_get_sslot; [done|].
    cbn [tx_msgbuf_ set_info]. rewrite Hm. replace (ci_num_tx c) with (Z.of_nat (Z.to_nat (ci_num_tx c))) by lia.
    eapply wp_send_user; [by apply tx_inv_at|lia|]. intros bt wr HI1. rewrite st_at_tx in *. apply tx_inv_at in HI1.
    wstep. apply wq_at_upd_ci; [done|]. wstep. apply wq_at_upd_session; [done|done|]. cbv beta. rewrite (u64_small (ci_num_tx c + 1)), (u64_small (credits_ x - 1)) by lia.
    apply (IH _ _ _ (l ++ [user_pkt p.1 u (Z.to_nat (ci_num_tx c))])); cbn [ci_num_tx set_ci_num_tx credits_ set_credits]; [done|done|lia|lia|lia|].
    intros bt' wr' HI2. replace (credits_ x - 1 - Z.of_nat k) with (credits_ x - Z.of_nat (S k)) by lia.
    replace (ci_num_tx c + 1 + Z.of_nat k) with (ci_num_tx c + Z.of_nat (S k)) by lia. apply (HQ bt' wr'). cbn [seq fmap list_fmap].
    rewrite cons_middle, app_assoc. replace (Z.to_nat (ci_num_tx c + 1)) with (S (Z.to_nat (ci_num_tx c))) in HI2 by lia. exact HI2.
Qed.

Lemma wp_kick_req u x sl c r l Q :
  slot_valid r p x → tx_msgbuf_ sl = u_ptr u → tx_inv r p.1 (Some u) l → Z.of_nat (length (u_pkts u)) < 2 ^ 32 →
  0 ≤ ci_num_tx c ≤ Z.of_nat (length (u_pkts u)) → 0 < credits_ x ≤ kSessionCredits →
  (∀ k bt wr, Z.of_nat k = Z.min (credits_ x) (Z.of_nat (length (u_pkts u)) - ci_num_tx c) →
     tx_inv (st_tx bt wr r) p.1 (Some u) (l ++ (user_pkt p.1 u <$> seq (Z.to_nat (ci_num_tx c)) k)) →
     Q tt (st_at p (set_credits (credits_ x - Z.of_nat k) x) sl (ClientInfo (set_ci_num_tx (ci_num_tx c + Z.of_nat k) c)) (st_tx bt wr r))) →
  wp (kick_req_st asserts p) Q (st_at p x sl (ClientInfo c) r).
Proof.
  intros Hv Hm HI Hn Htx Hc HQ. destruct (has_msg_first r u (ti_msg _ _ _ _ HI)) as (s & Hs & _ & v & h & Hat & Hh & Ht).
  unfold kick_req_st. wstep. apply wq_at_get_session; [done|]. cbn [credits_ with_slot set_sslot_arr]. wstep. apply wq_assert_d; [intros; lia|].
  wstep. apply wq_at_get_ci; [done|]. wstep. eapply wq_at_tx_msgbuf; [done|by rewrite Hm|]. wstep. eapply wq_lift_ok; [done|]. wstep. eapply wq_get_hdr; [exact Hh|].
  rewrite Ht, u64_small by lia. set (k := Z.min _ _). eapply wp_kick_req_loop; [done|done|done|done|lia|lia|lia|].
  intros bt wr HI'. apply HQ; [lia|done].
Qed.

(** Requests for response. *)
Lemma wp_enqueue_rfr u x sl c r l h Q :
  slot_valid r p x → tx_msgbuf_ sl = u_ptr u → tx_inv r p.1 (Some u) l → 0 ≤ remote_session_num_ x < 16 → 0 ≤ req_num_ h < 2 ^ 32 →
  0 ≤ ci_num_tx c - Z.of_nat (length (u_pkts u)) + 1 < 2 ^ 16 →
  (∀ bt wr hs hd w, is_ctrl_pkt kRFR p.1 (remote_session_num_ x) (req_num_ h) (ci_num_tx c - Z.of_nat (length (u_pkts u)) + 1) w →
     tx_inv (st_ct bt wr hs hd r) p.1 (Some u) (l ++ [w]) → Q tt (st_at p x sl (ClientInfo c) (st_ct bt wr hs hd r))) →
  wp (enqueue_rfr_st asserts p h) Q (st_at p x sl (ClientInfo c) r).
Proof.
  intros Hv Hm HI Hrs Hq Hnum HQ. destruct (has_msg_first r u (ti_msg _ _ _ _ HI)) as (s & Hs & _ & v & h0 & Hat & Hh & Ht).
  unfold enqueue_rfr_st. wstep. apply wp_next_ctrl. rewrite st_at_head. do 2 wstep. cbn [ctrl_msgbufs_hdr ctrl_msgbuf_head_ st_at st_slot st_session set_session_vec set_ctrl_msgbuf_head].
  wstep. apply wq_at_get_session; [done|]. wstep. apply wq_at_get_ci; [done|]. wstep. eapply wq_at_tx_msgbuf; [done|by rewrite Hm|]. wstep.
  eapply wq_get_n_hdr; [exact Hat|exact Hh|lia|exact Hat|exact Hh|]. destruct (ti_hdrs _ _ _ _ HI _ (ti_head _ _ _ _ HI)) as (hc & Hhc & Hpc).
  wstep. eapply wq_get_hdr; [exact Hhc|]. wstep. apply wq_put_hdr; [by eexists|]. cbn [remote_session_num_ with_slot set_sslot_arr].
  set (hn := fill_hdr _ _ _ _ _ _ _ _ _). set (r0 := st_at p x sl (ClientInfo c) r).
  change (wp (enqueue_tx_burst asserts p.1 (CtrlSer (Z.to_nat (ctrl_msgbuf_head_ r0))) 0) Q (st_ctrl (ctrl_addr r0 (ctrl_msgbuf_head_ r0)) hn r0)).
  apply (wp_send_ctrl asserts _ p.1 (Some u) l hn); [by apply tx_inv_at|done|done|]. intros bt wr HI'.
  apply (HQ bt wr (<[ctrl_addr r (ctrl_msgbuf_head_ r) := hn]> (hdrs r)) (next_head r) (mk_wire p.1 hn [])); [|by apply (tx_inv_at x sl (ClientInfo c))].
  split; cbn; try done; unfold bits; rewrite ?Z.mod_small; try done; cbn; lia.
Qed.

(** [ws] are control packets numbered from [k]. *)
Definition ctrl_run (ty : PktType) (rs q k : Z) (ws : list wire_pkt) : Prop := ∀ j w, ws !! j = Some w → is_ctrl_pkt ty p.1 rs q (k + Z.of_nat j) w.
Lemma ctrl_run_cons ty rs q k w ws : is_ctrl_pkt ty p.1 rs q k w → ctrl_run ty rs q (k + 1) ws → ctrl_run ty rs q k (w :: ws).
Proof.
  intros Hw Hr [|j] y; cbn; [intros [= <-]; by rewrite Z.add_0_r|]. intros Hj%Hr. by replace (k + Z.of_nat (S j)) with (k + 1 + Z.of_nat j) by lia.
Qed.
Lemma wp_kick_rfr_loop u k x sl c r l h Q :
  slot_valid r p x → tx_msgbuf_ sl = u_ptr u → tx_inv r p.1 (Some u) l → 0 ≤ remote_session_num_ x < 16 → 0 ≤ req_num_ h < 2 ^ 32 →
  Z.of_nat (length (u_pkts u)) < 2 ^ 16 → Z.of_nat (length (u_pkts u)) ≤ ci_num_tx c → ci_num_tx c + Z.of_nat k - Z.of_nat (length (u_pkts u)) + 1 < 2 ^ 16 → Z.of_nat k ≤ credits_ x ≤ kSessionCredits →
  (∀ bt wr hs hd ws, length ws = k → ctrl_run kRFR (remote_session_num_ x) (req_num_ h) (ci_num_tx c - Z.of_nat (length (u_pkts u)) + 1) ws →
     tx_inv (st_ct bt wr hs hd r) p.1 (Some u) (l ++ ws) →
     Q tt (st_at p (set_credits (credits_ x - Z.of_nat k) x) sl (ClientInfo (set_ci_num_tx (ci_num_tx c + Z.of_nat k) c)) (st_ct bt wr hs hd r))) →
  wp (kick_rfr_loop asserts k p h) Q (st_at p x sl (ClientInfo c) r).
Proof.
  intros Hv Hm HI Hrs Hq Hn H0 Hk Hc HQ. unfold kSessionCredits in *. revert x c r l Hv HI Hrs H0 Hk Hc HQ. induction k as [|k IH]; intros x c r l Hv HI Hrs H0 Hk Hc HQ.
  - apply wq_ret. specialize (HQ (tx_burst_arr_ r) (wire r) (hdrs r) (ctrl_msgbuf_head_ r) []). rewrite Z.sub_0_r, Z.add_0_r in HQ.
    replace (st_ct _ _ _ _ r) with r in HQ by by destruct r.
    replace (set_credits (credits_ x) x) with x in HQ by by destruct x. replace (set_ci_num_tx (ci_num_tx c) c) with c in HQ by by destruct c.
    apply HQ; [done|by intros ? ? ?|]. by rewrite app_nil_r.
  - cbn [kick_rfr_loop]. wstep. eapply wp_enqueue_rfr; [done..|lia|]. intros bt wr hs hd w Hw HI1.
    wstep. apply wq_at_upd_ci; [done|]. wstep. apply wq_at_upd_session; [done|done|]. cbv beta. rewrite (u64_small (ci_num_tx c + 1)), (u64_small (credits_ x - 1)) by lia.
    apply (IH _ _ _ (l ++ [w])); cbn [ci_num_tx set_ci_num_tx credits_ set_credits remote_session_num_]; [done|done|done|lia|lia|lia|].
    intros bt' wr' hs' hd' ws Hlen Hws HI2. replace (credits_ x - 1 - Z.of_nat k) with (credits_ x - Z.of_nat (S k)) by lia.
    replace (ci_num_tx c + 1 + Z.of_nat k) with (ci_num_tx c + Z.of_nat (S k)) by lia. apply (HQ bt' wr' hs' hd' (w :: ws)); [cbn; lia| |].
    + apply ctrl_run_cons; [done|]. by replace (ci_num_tx c - Z.of_nat (length (u_pkts u)) + 1 + 1) with (ci_num_tx c + 1 - Z.of_nat (length (u_pkts u)) + 1) by lia.
    + rewrite cons_middle, app_assoc. exact HI2.
Qed.
Lemma wp_kick_rfr u x sl c r l h Q :
  slot_valid r p x → tx_msgbuf_ sl = u_ptr u → tx_inv r p.1 (Some u) l → 0 ≤ remote_session_num_ x < 16 → 0 ≤ req_num_ h < 2 ^ 32 →
  let n := Z.of_nat (length (u_pkts u)) in
  n < 2 ^ 16 → 0 < total_pkt h < 2 ^ 16 → n ≤ ci_num_tx c ≤ n + total_pkt h - 1 → 0 < credits_ x ≤ kSessionCredits →
  (∀ k bt wr hs hd ws, Z.of_nat k = Z.min (credits_ x) (n + total_pkt h - 1 - ci_num_tx c) → length ws = k →
     ctrl_run kRFR (remote_session_num_ x) (req_num_ h) (ci_num_tx c - n + 1) ws → tx_inv (st_ct bt wr hs hd r) p.1 (Some u) (l ++ ws) →
     Q tt (st_at p (set_credits (credits_ x - Z.of_nat k) x) sl (ClientInfo (set_ci_num_tx (ci_num_tx c + Z.of_nat k) c)) (st_ct bt wr hs hd r))) →
  wp (kick_rfr_st asserts p (Some h)) Q (st_at p x sl (ClientInfo c) r).
Proof.
  intros Hv Hm HI Hrs Hq n Hn Ht Htx Hc HQ. destruct (has_msg_first r u (ti_msg _ _ _ _ HI)) as (s & Hs & _ & v & h0 & Hat & Hh & Ht0).
  unfold kick_rfr_st. wstep. apply wq_at_get_session; [done|]. cbn [credits_ with_slot set_sslot_arr]. wstep. apply wq_assert_d; [intros; lia|].
  wstep. apply wq_at_get_ci; [done|]. wstep. eapply wq_at_tx_msgbuf; [done|by rewrite Hm|]. wstep. eapply wq_get_n_hdr; [exact Hat|exact Hh|lia|exact Hat|exact Hh|].
  unfold wire_pkts. rewrite Ht0, (u64_small (_ + _ - 1)), u64_small by lia. set (k := Z.min _ _).
  eapply wp_kick_rfr_loop; [done..|lia|lia|lia|lia|]. intros bt wr hs hd ws Hlen Hws HI'. eapply HQ; [|done..]. lia.
Qed.
End kick.

(** * Receiving: the ring and the buffer of a slot

    The entries of the receive ring are memory of their own, which no message of the
    endpoint uses; a packet's data goes to the next entry.  The vector of a slot's
    buffer, empty or growing at its end. *)

(** ** The vector of a buffer

    Its capacity is 0 until the first push sets it. *)
Definition dyn_ok (v : iovector) : Prop := iov_ok (set_capacity IOVECTOR_CAPACITY v) ∧ length (iovs v) = 2300%nat.
Definition dyn_empty (v : iovector) : iovector := set_iov_end 0 (set_iov_begin 0 v).

Lemma dyn_empty_ok v : dyn_ok v → dyn_ok (dyn_empty v) ∧ view (dyn_empty v) = [].
Proof.
  intros [[Hb Ho He Hn Hr Hw Hl] Hlen]. cbn in *. split; [|done]. split; [|done]. unfold IOVECTOR_CAPACITY. split; cbn; try done.
Qed.
Lemma dyn_push_ok v body size :
  dyn_ok v → 0 ≤ size → iov_end v < IOVECTOR_CAPACITY →
  ∃ v', push_back_buf body size v = Ok (size, v') ∧ dyn_ok v' ∧ view v' = view v ++ [mk_iovec body size] ∧
    iov_begin v' = iov_begin v ∧ iov_end v' = iov_end v + 1 ∧ capacity v' = IOVECTOR_CAPACITY.
Proof.
  intros [Hv Hlen] Hs He. unfold push_back_buf. destruct (push_back_ok _ (mk_iovec body size) Hv Hs He) as (v' & Hp & Hok & Hview & Hb & Hc).
  exists v'. cbn in Hc. assert (Hid : set_capacity IOVECTOR_CAPACITY v' = v') by (rewrite <- Hc; by destruct v').
  assert (Hlen' : length (iovs v') = 2300%nat).
  { unfold push_back in Hp. rewrite (do_assert_ok _ Hv) in Hp. cbn in Hp. rewrite (proj2 (Z.ltb_lt _ _) He) in Hp. rewrite arr_set_in_range in Hp.
    - cbn in Hp. injection Hp as <-. cbn. by rewrite length_insert.
    - destruct Hv. cbn in *. lia. }
  split_and!; try done; [by rewrite <- Hid in Hok|].
  pose proof (view_length _ Hok) as Hl'. rewrite Hview, length_app in Hl'. pose proof (view_length _ Hv) as Hl. cbn in Hl, Hl', Hb. unfold view in *. cbn in *. lia.
Qed.
(** The last iovec grows when the next packet lies behind it. *)
Lemma dyn_grow_ok v w body size n :
  dyn_ok v → capacity v = IOVECTOR_CAPACITY → view v = w ++ [mk_iovec body n] → 0 ≤ size → 0 ≤ n →
  ∃ v', grow_back size v = Ok v' ∧ dyn_ok v' ∧ view v' = w ++ [mk_iovec body (n + size)] ∧ iov_begin v' = iov_begin v ∧ iov_end v' = iov_end v ∧ capacity v' = capacity v.
Proof.
  intros [Hv Hlen] Hc Hview Hs Hn. assert (Hid : set_capacity IOVECTOR_CAPACITY v = v) by (rewrite <- Hc; by destruct v). rewrite Hid in Hv.
  pose proof (view_length _ Hv) as Hl. rewrite Hview, length_app in Hl. cbn in Hl. pose proof Hv as [Hb Ho He Hnb Hr Hw Hlens].
  unfold grow_back. rewrite (proj2 (Z.eqb_neq _ _)) by lia. unfold iv_back. rewrite (do_assert_ok _ Hv). cbn [mbind outcome_bind].
  assert (Hlast : iovs v !! Z.to_nat (iov_end v - 1) = Some (mk_iovec body n)).
  { replace (iov_end v - 1) with (iov_begin v + (iov_end v - 1 - iov_begin v)) by lia. rewrite view_lookup by (done || lia). rewrite Hview.
    rewrite lookup_app_r by lia. by replace (Z.to_nat _ - length w)%nat with 0%nat by lia. }
  assert (Hpos : 0 ≤ iov_end v - 1) by lia. rewrite (proj2 (arr_get_Ok _ _ _) (conj Hpos Hlast)). cbn [mbind outcome_bind]. rewrite arr_set_in_range by lia. cbn [mbind outcome_bind iov_base iov_len].
  eexists. split; [done|].
  assert (Hview' : view (set_iovs (<[Z.to_nat (iov_end v - 1) := mk_iovec body (n + size)]> (iovs v)) v) = w ++ [mk_iovec body (n + size)]).
  { unfold view in *. cbn. rewrite drop_insert_ge by lia. rewrite take_insert_lt by lia. rewrite Hview. rewrite insert_app_r_alt by lia. by replace (Z.to_nat (iov_end v - 1) - Z.to_nat (iov_begin v) - length w)%nat with 0%nat by lia. }
  split_and!; try done. split; cbn; [|by rewrite length_insert]. unfold IOVECTOR_CAPACITY in *.
  split; cbn [iov_begin iov_end capacity nbases iovs set_iovs set_capacity]; rewrite ?length_insert; try lia.
  change (lens_ok (view (set_iovs (<[Z.to_nat (iov_end v - 1) := mk_iovec body (n + size)]> (iovs v)) v))). rewrite Hview'. rewrite Hview in Hlens.
  apply Forall_app in Hlens as [H1 _]. apply Forall_app. split; [done|]. apply Forall_singleton. cbn. lia.
Qed.

(** ** The ring *)
Record ring_ok `{Transport} (r : Rpc) (avoid : Z → Prop) : Prop := {
  ri_heap : heap_ok (mem r);
  ri_head : 0 ≤ rx_ring_head_ r < Z.of_nat (length (rx_ring_ r));
  ri_map : ∀ j b, rx_ring_ r !! j = Some b → ∀ a, b ≤ a < b + kMaxDataPerPkt → is_Some (bytes (mem r) !! a) ∧ ¬ avoid a
}.
Section ring.
Context `{TTr : Transport} `{!TransportOk}.
Implicit Types (r : Rpc) (avoid : Z → Prop).

Definition next_rx (r : Rpc) : Z := let head := rx_ring_head_ r + 1 in if head =? Z.of_nat (length (rx_ring_ r)) then 0 else head.
Definition st_rx (h : heap) (r : Rpc) : Rpc := set_rx_ring_head (next_rx r) (set_mem h r).
Lemma wp_rx_body r avoid bs (Q : Z → Rpc → Prop) :
  ring_ok r avoid → Z.of_nat (length bs) ≤ kMaxDataPerPkt →
  (∀ body h, rx_ring_ r !! Z.to_nat (rx_ring_head_ r) = Some body → heap_store body bs (mem r) h → Q body (st_rx h r)) →
  wp (rx_body bs) Q r.
Proof.
  intros [Hh Hhd Hmap] Hlen HQ. destruct (lookup_lt_is_Some_2 (rx_ring_ r) (Z.to_nat (rx_ring_head_ r))) as [b Hb]; [lia|].
  unfold rx_body. do 3 wstep. eapply wq_lift_ok; [apply arr_get_Ok; split; [lia|exact Hb]|]. wstep. apply wq_in_mem.
  apply wp_write_bytes; [intros a Ha; apply (Hmap _ _ Hb); lia|]. intros h Hst. do 3 wstep. by apply HQ.
Qed.
(** After a packet arrived. *)
Lemma store_outside p bs h h' a : heap_store p bs h h' → ¬ (p ≤ a < p + Z.of_nat (length bs)) → bytes h' !! a = bytes h !! a.
Proof. intros [Hs _] Ha. eapply store_frame; [exact Hs|lia]. Qed.
Lemma ring_ok_store r avoid p bs h :
  ring_ok r avoid → heap_store p bs (mem r) h → ring_ok (set_mem h r) avoid.
Proof.
  intros [Hh Hhd Hmap] Hst. split; cbn; [by eapply store_heap_ok|done|]. intros j b Hb a Ha. destruct (Hmap j b Hb a Ha) as [Hm Ha2]. split; [|done].
  destruct Hst as [Hs _]. by rewrite (store_dom _ _ _ _ _ Hs).
Qed.
Lemma ring_ok_next r avoid : ring_ok r avoid → ring_ok (set_rx_ring_head (next_rx r) r) avoid.
Proof. intros [Hh Hhd Hmap]. split; cbn; [done| |done]. unfold next_rx. cbn. case_match eqn:E; lia. Qed.
Lemma ring_ok_rx r avoid p bs h : ring_ok r avoid → heap_store p bs (mem r) h → ring_ok (st_rx h r) avoid.
Proof. intros HR Hst. apply (ring_ok_next (set_mem h r)). by eapply ring_ok_store. Qed.
Lemma store_load p bs h h' : heap_store p bs h h' → load (bytes h') p (length bs) = Some bs.
Proof. intros [Hs _]. by eapply store_load_same. Qed.
Lemma ring_ok_ext r r' (avoid avoid' : Z → Prop) :
  ring_ok r avoid → mem r' = mem r → rx_ring_ r' = rx_ring_ r → rx_ring_head_ r' = rx_ring_head_ r → (∀ a, avoid' a → avoid a) → ring_ok r' avoid'.
Proof.
  intros [Hh Hhd Hmap] Hm Hr Hrh Hw. split; rewrite ?Hm, ?Hr, ?Hrh; [done|done|]. intros j b Hb a Ha. destruct (Hmap j b Hb a Ha) as [? Hn]. split; [done|]. by intros ?%Hw.
Qed.
Lemma rx_outside r avoid b bs h a :
  ring_ok r avoid → rx_ring_ r !! Z.to_nat (rx_ring_head_ r) = Some b → heap_store b bs (mem r) h → Z.of_nat (length bs) ≤ kMaxDataPerPkt → avoid a →
  bytes h !! a = bytes (mem r) !! a.
Proof. intros [_ _ Hmap] Hb Hst Hlen Ha. eapply store_outside; [exact Hst|]. intros Hin. by apply (Hmap _ _ Hb a ltac:(lia)). Qed.
Lemma tx_inv_rx r avoid route T l b bs h :
  tx_inv r route T l → ring_ok r avoid → (∀ u a, T = Some u → covers (concat (u_pkts u)) a → avoid a) →
  rx_ring_ r !! Z.to_nat (rx_ring_head_ r) = Some b → heap_store b bs (mem r) h → Z.of_nat (length bs) ≤ kMaxDataPerPkt → tx_inv (st_rx h r) route T l.
Proof.
  intros HI HR Hav Hb Hst Hlen. apply (tx_inv_same r); [|done]. split; try done. intros u a HT Ha. cbn. eapply rx_outside; [exact HR|exact Hb|exact Hst|done|]. by eapply Hav.
Qed.

(** A packet for a slot of a connected session reaches the handler of its type. *)
Lemma wp_process_pkt asserts malloc_ok junk p x sl inf r avoid w Q :
  ring_ok r avoid → slot_valid r p x → is_connected x = true → dest_session_num_ (w_hdr w) = Z.of_nat p.1 → req_num_ (w_hdr w) mod kSessionReqWindow = Z.of_nat p.2 →
  msg_size_ (w_hdr w) ≤ kMaxMsgSize → Z.of_nat (length (w_body w)) ≤ kMaxDataPerPkt →
  (∀ b h, rx_ring_ r !! Z.to_nat (rx_ring_head_ r) = Some b → heap_store b (w_body w) (mem r) h → ring_ok (st_rx h r) avoid →
     wp (dispatch asserts malloc_ok junk p (w_hdr w) b) Q (st_at p x sl inf (st_rx h r))) →
  wp (process_pkt asserts malloc_ok junk (w_hdr w) (w_body w)) Q (st_at p x sl inf r).
Proof.
  intros HR Hv Hconn Hdest Hreq Hsize Hlen HQ. unfold process_pkt. wstep. eapply (wp_rx_body (st_at p x sl inf r) avoid); [by destruct HR|done|]. intros b h Hb Hst.
  wstep. apply wq_assert_d; [intros _; by apply Z.leb_le|]. do 2 wstep. rewrite Hdest, Hreq, !Nat2Z.id.
  assert (Hs : session_vec_ (st_rx h (st_at p x sl inf r)) !! p.1 = Some (Some (with_slot p.2 (set_info inf sl) x))).
  { destruct Hv as [Hv _]. cbn. by apply list_lookup_insert_eq. }
  rewrite Hs. change (is_connected (with_slot p.2 (set_info inf sl) x)) with (is_connected x). rewrite Hconn. destruct p. apply HQ; [done|done|]. by eapply ring_ok_rx.
Qed.
End ring.
