(* ===== verification/RpcHandlers.v ===== *)
(** * The server's side of an RPC

    What the handlers of the server do with the packets of a request in order, with
    the response, and with the requests for the rest of it. *)

From S2P Require Import Prelude IoVector IoVectorSpec IoVectorClass IoVectorOps Serializer SerializerSer SerializerPkts RpcTypes Rpc RpcState RpcTx RpcKick.

(** ** Data packets *)
Record is_data_pkt `{Transport} (ty : PktType) (rt rs q n : Z) (d : list Z) (k : nat) (h : pkthdr_t) : Prop := {
  id_type : pkt_type_ h = ty;
  id_req_type : req_type_ h = rt;
  id_dest : dest_session_num_ h = rs;
  id_req : req_num_ h = q;
  id_num : pkt_num_ h = Z.of_nat k;
  id_total : total_pkt h = n;
  id_size : msg_size_ h = Z.of_nat (length d);
  id_this : this_msg_size h = Z.of_nat (length (chunk k d))
}.
(** The header that was filled in for a message. *)
Record is_head `{Transport} (ty : PktType) (rt rs q n : Z) (d : list Z) (h : pkthdr_t) : Prop := {
  ih_type : pkt_type_ h = ty;
  ih_req_type : req_type_ h = rt;
  ih_dest : dest_session_num_ h = rs;
  ih_req : req_num_ h = q;
  ih_num : pkt_num_ h = 0;
  ih_total : total_pkt h = n;
  ih_size : msg_size_ h = Z.of_nat (length d);
  ih_this : this_msg_size h = kMaxDataPerPkt
}.

Section data.
Context `{TTr : Transport} `{!TransportOk}.
Implicit Types (d : list Z) (h : pkthdr_t).

Lemma chunk_length k d : length (chunk k d) = (Z.to_nat kMaxDataPerPkt `min` (length d - k * Z.to_nat kMaxDataPerPkt))%nat.
Proof. unfold chunk. by rewrite length_take, length_drop. Qed.
Lemma npkts_bounds d : 0 < Z.of_nat (length d) → Z.of_nat (length d) mod kMaxDataPerPkt ≠ 0 →
  (npkts d - 1) * kMaxDataPerPkt < Z.of_nat (length d) < npkts d * kMaxDataPerPkt ∧ 1 ≤ npkts d ∧ (npkts d = 1 ↔ Z.of_nat (length d) ≤ kMaxDataPerPkt).
Proof.
  intros Hp Hm. pose proof kmax_pos as Hk. unfold npkts, data_size_to_num_pkts. set (L := Z.of_nat (length d)) in *. set (M := kMaxDataPerPkt) in *.
  pose proof (Z.div_mod L M ltac:(lia)). pose proof (Z.mod_pos_bound L M Hk). destruct (Z.leb_spec L M).
  - assert (L ≠ M) by (intros E; rewrite E, Z_mod_same_full in Hm; done). split_and!; lia.
  - replace (L + M - 1) with ((L / M + 1) * M + (L mod M - 1)) by lia. rewrite Z.div_add_l, (Z.div_small (L mod M - 1)) by lia.
    assert (1 ≤ L / M) by (apply Z.div_le_lower_bound; lia). split_and!; nia.
Qed.
Lemma last_mod d : 0 < Z.of_nat (length d) → Z.of_nat (length d) mod kMaxDataPerPkt ≠ 0 →
  Z.of_nat (length d) mod kMaxDataPerPkt = Z.of_nat (length d) - (npkts d - 1) * kMaxDataPerPkt.
Proof.
  intros Hp Hm. destruct (npkts_bounds d Hp Hm) as (Hb & H1 & _). symmetry. apply (Z.mod_unique_pos _ _ (npkts d - 1)); lia.
Qed.
Lemma nth_hdr_data ty rt rs q d h k n :
  is_head ty rt rs q (Z.of_nat n) d h → Z.of_nat n = npkts d → Z.of_nat n < 2 ^ 16 → 0 < Z.of_nat (length d) → Z.of_nat (length d) mod kMaxDataPerPkt ≠ 0 →
  (k < n)%nat → is_data_pkt ty rt rs q (Z.of_nat n) d k (nth_hdr h n k).
Proof.
  intros [H1 H2 H3 H4 H5 H6 H7 H8] Hn Hw Hp Hm Hk. pose proof kmax_pos. pose proof kmax_width. destruct (npkts_bounds d Hp Hm) as (Hb & _). rewrite <- Hn in Hb.
  pose proof (last_mod d Hp Hm) as Hl. rewrite <- Hn in Hl. unfold nth_hdr.
  assert (Hch : Z.of_nat (length (chunk k d)) = if bool_decide (S k = n) then Z.of_nat (length d) mod kMaxDataPerPkt else kMaxDataPerPkt).
  { rewrite chunk_length. case_bool_decide as E; nia. }
  split; case_bool_decide; case_bool_decide; cbn; try done; rewrite ?Hch, ?bool_decide_eq_true_2, ?bool_decide_eq_false_2 by done; try lia;
    unfold bits; rewrite ?H7; try (rewrite (Z.mod_small (Z.of_nat k)) by lia; lia); rewrite (Z.mod_small (_ mod _)); lia.
Qed.
Lemma take_chunk k d : take (k * Z.to_nat kMaxDataPerPkt) d ++ chunk k d = take (S k * Z.to_nat kMaxDataPerPkt) d.
Proof. unfold chunk. rewrite take_take_drop. f_equal. lia. Qed.
End data.

(** ** A packet at the end of the request

    A packet is a new iovec, or makes the last one longer. *)
Definition appended (w : list iovec) (body size : Z) (w' : list iovec) : Prop :=
  w' = w ++ [mk_iovec body size] ∨ ∃ w0 b n, 0 ≤ n ∧ w = w0 ++ [mk_iovec b n] ∧ b + n = body ∧ w' = w0 ++ [mk_iovec b (n + size)].
Lemma appended_data w body size w' m d1 d2 :
  appended w body size w' → 0 ≤ size → data m w = Some d1 → load m body (Z.to_nat size) = Some d2 → data m w' = Some (d1 ++ d2).
Proof.
  intros [->|(w0 & b & n & Hn & -> & Hb & ->)] Hs Hd Hl.
  - apply data_app. exists d1, d2. rewrite data_one. done.
  - apply data_app in Hd as (e1 & e2 & H1 & H2 & ->). rewrite data_one in H2. apply data_app. exists e1, (e2 ++ d2). rewrite data_one. cbn in *.
    split_and!; [done| |by rewrite app_assoc]. replace (Z.to_nat (n + size)) with (Z.to_nat n + Z.to_nat size)%nat by lia. apply load_app; [done|].
    by replace (b + Z.of_nat (Z.to_nat n)) with body by lia.
Qed.
Lemma appended_covers w body size w' a : appended w body size w' → covers w' a → covers w a ∨ body ≤ a < body + size.
Proof.
  intros [->|(w0 & b & n & Hn & -> & Hb & ->)] Hc; apply covers_app in Hc as [Hc|[Hc|?%covers_nil]%covers_cons]; cbn in *; rewrite ?covers_app, ?covers_cons; cbn; try tauto.
  destruct (decide (a < b + n)); [left; right; left; lia|right; lia].
Qed.

Section server.
Context `{TTr : Transport} `{!TransportOk} (asserts : bool) (p : sslot_ptr).
Implicit Types (r : Rpc) (x : Session) (sl : SSlot) (i : server_info) (l : list wire_pkt) (h : pkthdr_t).

Lemma wp_set_req_type x sl i r rt (Q : ReqFunc → Rpc → Prop) :
  slot_valid r p x → si_req_type i = kInvalidReqType →
  Q (req_func_arr_ r rt) (st_at p x sl (ServerInfo (set_si_req_func_type (req_func_type_ (req_func_arr_ r rt)) (set_si_req_type rt i))) r) →
  wp (set_req_type asserts p rt) Q (st_at p x sl (ServerInfo i) r).
Proof.
  intros Hv Hi HQ. unfold set_req_type. do 2 wstep. wstep. apply wq_at_get_si; [done|]. wstep. apply wq_assert_d; [intros _; by rewrite Hi|].
  wstep. apply wq_at_upd_si; [done|]. by wstep.
Qed.
Lemma wp_small_req rt rs q d x sl i r h body f Q :
  slot_valid r p x → is_data_pkt kReq rt rs q 1 d 0 h → u64 (cur_req_num_ sl + kSessionReqWindow) = q → si_req_type i = kInvalidReqType →
  req_func_arr_ r rt = mk_reqfunc f kForeground → dyn_ok (iov (dyn_resp_msgbuf_ sl)) →
  (∀ v, dyn_ok v → view v = [mk_iovec body (Z.of_nat (length d))] → iov_begin v = 0 →
     Q tt (st_at p x (set_dyn_resp (set_iov v (dyn_resp_msgbuf_ sl)) (set_cur_req_num q sl)) (ServerInfo (mk_si rt kForeground 1 (si_sav_num_req_pkts i)))
            (set_events (events r ++ [Invoke f p]) r))) →
  wp (process_small_req_st asserts p h body) Q (st_at p x sl (ServerInfo i) r).
Proof.
  intros Hv [H1 H2 H3 H4 H5 H6 H7 H8] Hq Hi Hf Hd HQ. unfold process_small_req_st. wstep. apply wq_at_get_sslot; [done|]. wstep.
  apply wq_assert_d; [intros _; cbn; rewrite Hq, H4; by apply Z.eqb_eq|]. wstep. apply wq_at_upd_sslot; [done|done|]. wstep. apply wq_at_upd_si; [done|].
  wstep. apply wp_set_req_type; [done|done|]. rewrite H2, Hf. cbn [is_background req_func_type_]. wstep. apply wq_at_reset_dyn; [done|].
  destruct (dyn_empty_ok _ Hd) as [Hd0 Hv0]. destruct (dyn_push_ok _ body (msg_size_ h) Hd0) as (v & Hp & Hd1 & Hview & Hb & _); [rewrite H7; lia|done|].
  wstep. eapply wq_at_dyn_push; [done|exact Hp|]. unfold emit. wstep. cbn [req_func_ events st_at st_slot st_session set_session_vec]. rewrite st_at_events, H4.
  apply (HQ v); [done| |done]. rewrite Hview, Hv0, H7. done.
Qed.

Lemma wp_enqueue_cr T x sl inf r l h Q :
  slot_valid r p x → tx_inv r p.1 T l → 0 ≤ remote_session_num_ x < 16 → 0 ≤ req_num_ h < 2 ^ 32 → 0 ≤ pkt_num_ h < 2 ^ 16 →
  (∀ bt wr hs hd w, is_ctrl_pkt kExplCR p.1 (remote_session_num_ x) (req_num_ h) (pkt_num_ h) w →
     (∀ a, (∀ j, 0 ≤ j < ctrl_count → a ≠ ctrl_addr r j) → hs !! a = hdrs r !! a) →
     tx_inv (st_ct bt wr hs hd r) p.1 T (l ++ [w]) → Q tt (st_at p x sl inf (st_ct bt wr hs hd r))) →
  wp (enqueue_cr_st asserts p h) Q (st_at p x sl inf r).
Proof.
  intros Hv HI Hrs Hq Hnum HQ. unfold enqueue_cr_st. wstep. apply wp_next_ctrl. rewrite st_at_head. do 2 wstep.
  cbn [ctrl_msgbufs_hdr ctrl_msgbuf_head_ st_at st_slot st_session set_session_vec set_ctrl_msgbuf_head].
  wstep. apply wq_at_get_session; [done|]. destruct (ti_hdrs _ _ _ _ HI _ (ti_head _ _ _ _ HI)) as (hc & Hhc & Hpc).
  wstep. eapply wq_get_hdr; [exact Hhc|]. wstep. apply wq_put_hdr; [by eexists|]. cbn [remote_session_num_ with_slot set_sslot_arr].
  set (hn := fill_hdr _ _ _ _ _ _ _ _ _). set (r0 := st_at p x sl inf r).
  change (wp (enqueue_tx_burst asserts p.1 (CtrlSer (Z.to_nat (ctrl_msgbuf_head_ r0))) 0) Q (st_ctrl (ctrl_addr r0 (ctrl_msgbuf_head_ r0)) hn r0)).
  apply (wp_send_ctrl asserts _ p.1 T l hn); [by apply tx_inv_at|done|done|]. intros bt wr HI'.
  apply (HQ bt wr (<[ctrl_addr r (ctrl_msgbuf_head_ r) := hn]> (hdrs r)) (next_head r) (mk_wire p.1 hn [])).
  - split; cbn; try done; unfold bits; rewrite ?Z.mod_small; try done; cbn; lia.
  - intros a Ha. rewrite lookup_insert_ne; [done|]. intros E. apply (Ha (ctrl_msgbuf_head_ r)); [apply (ti_head _ _ _ _ HI)|done].
  - by apply (tx_inv_at p x sl inf).
Qed.

(** The vector of a request: from the start of its array, and empty before the first packet. *)
Definition req_vec (sl : SSlot) (w : list iovec) : Prop :=
  let v := iov (dyn_resp_msgbuf_ sl) in dyn_ok v ∧ iov_begin v = 0 ∧ view v = w ∧ 0 ≤ capacity v ∧ (w ≠ [] → capacity v = IOVECTOR_CAPACITY).
Lemma req_vec_end sl w : req_vec sl w → iov_end (iov (dyn_resp_msgbuf_ sl)) = Z.of_nat (length w).
Proof. intros ([Hv _] & Hb & <- & _ & _). pose proof (view_length _ Hv) as Hl. unfold view in *. cbn in *. lia. Qed.
Lemma wp_append_req x sl inf r body size w (Q : bool → Rpc → Prop) :
  slot_valid r p x → req_vec sl w → 0 ≤ size → (length w < 2300)%nat →
  (w = [] → body ≠ pre_req sl + capacity (iov (dyn_resp_msgbuf_ sl))) →
  (∀ v w', appended w body size w' → req_vec (set_dyn_resp (set_iov v (dyn_resp_msgbuf_ sl)) sl) w' → (length w' ≤ S (length w))%nat → w' ≠ [] →
     Q true (st_at p x (set_dyn_resp (set_iov v (dyn_resp_msgbuf_ sl)) sl) inf r)) →
  wp (append_req_pkt p body size) Q (st_at p x sl inf r).
Proof.
  intros Hv Hw Hs Hlen Hstray HQ. pose proof (req_vec_end sl w Hw) as Hend. destruct Hw as (Hd & Hb & Hview & Hc0 & Hcap).
  unfold append_req_pkt. wstep. apply wq_at_get_sslot; [done|]. unfold back_or_stray. cbn [dyn_resp_msgbuf_ set_info]. set (v := iov (dyn_resp_msgbuf_ sl)) in *.
  assert (Hpush : wp (n ← dyn_push_back p body size; mret (n =? size)) Q (st_at p x sl inf r)).
  { destruct (dyn_push_ok v body size Hd Hs) as (v' & Hp & Hd' & Hview' & Hb' & _ & Hc'); [unfold IOVECTOR_CAPACITY; lia|].
    wstep. eapply wq_at_dyn_push; [done|exact Hp|]. wstep. rewrite Z.eqb_refl. apply (HQ v' (w ++ [mk_iovec body size])).
    - by left.
    - unfold req_vec. cbn. rewrite Hb', Hview', Hview, Hc'. done.
    - rewrite length_app. cbn. lia.
    - by destruct w. }
  destruct w as [|y w0 _] using rev_ind.
  - change (Z.of_nat (length [])) with 0 in Hend. rewrite Hend. cbn [Z.eqb]. wstep. destruct Hd as [[_ _ _ Hnb _ _ _] _]. cbn in Hnb. eapply wq_lift_ok.
    { unfold do_assert, assert_o. rewrite Hb, Hend, Hnb, (proj2 (Z.leb_le _ _) Hc0). cbn. reflexivity. }
    cbn [stray_back iov_base iov_len set_info pre_req dyn_resp_msgbuf_]. fold v. rewrite Hb, Hend, Hnb. rewrite (proj2 (Z.eqb_neq _ _)); [exact Hpush|]. specialize (Hstray eq_refl). cbn. lia.
  - assert (Hcv : capacity v = IOVECTOR_CAPACITY) by (apply Hcap; by destruct w0). pose proof Hd as [Hok _].
    assert (Hid : set_capacity IOVECTOR_CAPACITY v = v) by (rewrite <- Hcv; by destruct v). rewrite Hid in Hok. rewrite length_app in Hend. cbn in Hend.
    rewrite (proj2 (Z.eqb_neq _ _)) by lia. wstep. eapply wq_lift_ok.
    { unfold iv_back. rewrite (do_assert_ok _ Hok). cbn [mbind outcome_bind]. apply arr_get_Ok. split; [lia|]. replace (iov_end v - 1) with (iov_begin v + (iov_end v - 1)) by lia.
      rewrite view_lookup by (done || lia). rewrite Hview, lookup_app_r by lia. replace (Z.to_nat _ - length w0)%nat with 0%nat by lia. reflexivity. }
    destruct y as [b n]. cbn [iov_base iov_len]. destruct (Z.eqb_spec (b + n) body) as [E|E]; [|exact Hpush].
    assert (Hn : 0 ≤ n). { destruct Hok as [_ _ _ _ _ _ Hl]. rewrite Hview in Hl. apply Forall_app in Hl as [_ Hl]. apply Forall_cons in Hl as [Hl _]; exact Hl. }
    destruct (dyn_grow_ok v w0 b size n Hd Hcv Hview Hs Hn) as (v' & Hg & Hd' & Hview' & Hb' & He' & Hc'). wstep. eapply wq_lift_ok; [exact Hg|].
    wstep. apply wq_at_upd_dyn; [done|]. wstep. apply (HQ v' (w0 ++ [mk_iovec b (n + size)])).
    + right. by exists w0, b, n.
    + unfold req_vec. cbn. rewrite Hb', Hview', Hc', Hcv. done.
    + rewrite !length_app. cbn. lia.
    + by destruct w0.
Qed.

(** The state of the slot when packet [k] of request [q] is next: nothing of it is
    there yet, or [k] packets as [w]. *)
Definition req_state (q : Z) (k : nat) (sl : SSlot) (i : server_info) (w : list iovec) : Prop :=
  si_req_type i = kInvalidReqType ∧
  if bool_decide (k = 0%nat) then w = [] ∧ dyn_ok (iov (dyn_resp_msgbuf_ sl)) ∧ 0 ≤ capacity (iov (dyn_resp_msgbuf_ sl))
  else cur_req_num_ sl = q ∧ si_num_rx i = Z.of_nat k ∧ req_vec sl w ∧ w ≠ [].
(** The slot with [w] as its request. *)
Definition with_req (q : Z) (sl sl' : SSlot) : Prop := ∃ v, sl' = set_dyn_resp (set_iov v (dyn_resp_msgbuf_ sl)) (set_cur_req_num q sl).
Lemma wp_large_req rt rs q n d k x sl i r T l h body f w Q :
  slot_valid r p x → tx_inv r p.1 T l → is_data_pkt kReq rt rs q (Z.of_nat n) d k h → (k < n)%nat → Z.of_nat n < 2300 →
  0 ≤ remote_session_num_ x < 16 → 0 ≤ q < 2 ^ 32 → req_state q k sl i w → (length w ≤ k)%nat →
  req_func_arr_ r rt = mk_reqfunc f kForeground → (k = 0%nat → body ≠ pre_req sl + capacity (iov (dyn_resp_msgbuf_ sl))) →
  (∀ sl' w', with_req q sl sl' → appended w body (Z.of_nat (length (chunk k d))) w' → req_vec sl' w' → (length w' ≤ S k)%nat → w' ≠ [] →
     ((S k < n)%nat → ∀ bt wr hs hd y, is_ctrl_pkt kExplCR p.1 (remote_session_num_ x) q (Z.of_nat k) y →
        (∀ a, (∀ j, 0 ≤ j < ctrl_count → a ≠ ctrl_addr r j) → hs !! a = hdrs r !! a) → tx_inv (st_ct bt wr hs hd r) p.1 T (l ++ [y]) →
        Q tt (st_at p x sl' (ServerInfo (set_si_num_rx (Z.of_nat (S k)) i)) (st_ct bt wr hs hd r))) ∧
     (S k = n → Q tt (st_at p x sl' (ServerInfo (mk_si rt kForeground (Z.of_nat n) (si_sav_num_req_pkts i))) (set_events (events r ++ [Invoke f p]) r)))) →
  wp (process_large_req_one_st asserts p h body) Q (st_at p x sl (ServerInfo i) r).
Proof.
  intros Hv HI [H1 H2 H3 H4 H5 H6 H7 H8] Hk Hn Hrs Hq [Hi Hst] Hw Hf Hbody HQ.
  unfold process_large_req_one_st. rewrite H4, H5, H6.
  assert (Hstart : ∃ sl1, with_req q sl sl1 ∧ req_vec sl1 w ∧ (w = [] → body ≠ pre_req sl1 + capacity (iov (dyn_resp_msgbuf_ sl1))) ∧
    ∀ K : M Rpc unit, wp K Q (st_at p x sl1 (ServerInfo (set_si_num_rx (Z.of_nat (S k)) i)) r) →
    wp ((if Z.of_nat k =? 0 then reset_dyn_iov p ;; upd_sslot p (set_cur_req_num q) ;; upd_si p (set_si_num_rx 1)
         else upd_si p (λ i, set_si_num_rx (u64 (si_num_rx i + 1)) i)) ;; K) Q (st_at p x sl (ServerInfo i) r)).
  { case_bool_decide as E.
    - subst k. destruct Hst as (-> & Hd & Hc). destruct (dyn_empty_ok _ Hd) as [Hd0 Hv0].
      exists (set_dyn_resp (set_iov (dyn_empty (iov (dyn_resp_msgbuf_ sl))) (dyn_resp_msgbuf_ sl)) (set_cur_req_num q sl)).
      split; [by eexists|]. split; [|split; [intros _; by apply Hbody|]].
      + unfold req_vec. cbn [dyn_resp_msgbuf_ set_dyn_resp iov set_iov]. split; [exact Hd0|]. split_and!; [done|done|done|done].
      + intros K HK. change (Z.of_nat 0 =? 0) with true. cbv iota. wstep. wstep. apply wq_at_reset_dyn; [done|]. wstep. apply wq_at_upd_sslot; [done|done|]. apply wq_at_upd_si; [done|]. exact HK.
    - destruct Hst as (Hcur & Hnum & Hvec & Hne). exists sl. split; [|split; [done|split; [done|]]].
      + exists (iov (dyn_resp_msgbuf_ sl)). rewrite <- Hcur. destruct sl as [? D]. by destruct D.
      + intros K HK. rewrite (proj2 (Z.eqb_neq _ _)) by lia. wstep. apply wq_at_upd_si; [done|]. rewrite Hnum, u64_small by lia.
        by replace (Z.of_nat k + 1) with (Z.of_nat (S k)) by lia. }
  destruct Hstart as (sl1 & Hsl1 & Hvec & Hstr & Hrun). apply Hrun. clear Hrun.
  assert (Hwr : ∀ v, with_req q sl (set_dyn_resp (set_iov v (dyn_resp_msgbuf_ sl1)) sl1)) by (intros v; destruct Hsl1 as [v1 ->]; by exists v).
  destruct (decide (S k = n)) as [E|E].
  - rewrite (proj2 (Z.eqb_eq _ _)) by lia. wstep. wstep. wstep. rewrite H8. eapply wp_append_req; [done|exact Hvec|lia|lia|exact Hstr|].
    intros v w' Happ Hvec' Hlen Hne. cbn [negb]. wstep. apply wq_at_get_si; [done|]. cbn [si_num_rx set_si_num_rx]. rewrite E, Z.eqb_refl. cbn [negb].
    wstep. apply wp_set_req_type; [done|done|]. rewrite H2, Hf. cbn [is_background req_func_type_]. unfold emit. wstep. rewrite st_at_events.
    destruct (HQ _ w' (Hwr v) Happ Hvec') as [_ HQ']; [lia|done|]. apply HQ'. done.
  - rewrite (proj2 (Z.eqb_neq _ _)) by lia. wstep. eapply wp_enqueue_cr; [done|exact HI|done|by rewrite H4|rewrite H5; lia|].
    rewrite H4, H5. intros bt wr hs hd y Hy Hfr HI'. wstep. rewrite H8. eapply wp_append_req; [done|exact Hvec|lia|lia|exact Hstr|].
    intros v w' Happ Hvec' Hlen Hne. cbn [negb]. wstep. apply wq_at_get_si; [done|]. cbn [si_num_rx set_si_num_rx]. rewrite (proj2 (Z.eqb_neq _ _)) by lia. cbn [negb].
    wstep. destruct (HQ _ w' (Hwr v) Happ Hvec') as [HQ' _]; [lia|done|]. apply (HQ' ltac:(lia) bt wr hs hd y Hy Hfr HI').
Qed.

(** ** The response *)
Lemma wp_enqueue_response rt q x sl i r l ptr hdr d pkts key Q :
  slot_valid r p x → is_connected x = true → tx_inv r p.1 None l → prepared r ptr hdr d pkts → hdrs_apart r hdr (length pkts) →
  si_req_type i = rt → 0 ≤ rt < 255 → 0 ≤ remote_session_num_ x < 16 → cur_req_num_ sl = q → 0 ≤ q < 2 ^ 32 → (asserts = true → tx_msgbuf_ sl = 0) →
  (∀ bt wr hs s h, is_head kResp rt (remote_session_num_ x) q (Z.of_nat (length pkts)) d h →
     let u := mk_umsg ptr hdr d pkts h in let r' := st_tx bt wr (set_msgbufs (<[ptr := s]> (msgbufs r)) (set_hdrs hs r)) in
     tx_inv r' p.1 (Some u) (l ++ [user_pkt p.1 u 0]) →
     Q tt (st_at p x (set_tx_msgbuf ptr sl) (ServerInfo (set_si_req_type kInvalidReqType (set_si_sav 1 i))) r')) →
  wp (enqueue_response asserts p ptr key hdr 0) Q (st_at p x sl (ServerInfo i) r).
Proof.
  intros Hv Hc HI Hp Hap Hi Hrt Hrs Hcur Hq Htx HQ. pose proof Hp as [(s & Hs & Hpk) _ (h0 & Hh0 & Ht0) _ Hpos _]. pose proof kmax_pos. pose proof kmax_width.
  assert (Hn : (0 < length pkts)%nat).
  { pose proof (po_count _ _ _ _ _ Hpk). pose proof (num_pkts_cover kMaxDataPerPkt (Z.of_nat (length d)) ltac:(done) ltac:(lia)). nia. }
  unfold enqueue_response. cbn [Z.eqb]. wstep. wstep. wstep. apply wq_at_upd_si; [done|]. wstep. apply wq_at_get_session; [done|].
  change (is_connected (with_slot _ _ x)) with (is_connected x). rewrite Hc. cbn [negb]. wstep. eapply wq_get_hdr; [exact Hh0|]. wstep. eapply wq_get_msgbuf; [exact Hs|].
  wstep. eapply wq_lift_ok; [by eapply prepared_sum|]. wstep. apply wq_at_get_si; [done|]. wstep. apply wq_at_get_sslot; [done|]. wstep. apply wq_put_hdr; [by eexists|].
  cbn [remote_session_num_ with_slot set_sslot_arr si_req_type si_sav_num_req_pkts set_si_sav cur_req_num_ set_info hdrs st_at st_slot st_session set_session_vec].
  rewrite Hi, Hcur. set (hn := fill_hdr _ _ _ _ _ _ _ _ _). set (i1 := set_si_sav 1 i). set (r0 := st_at p x sl (ServerInfo i1) r).
  assert (Hhead : is_head kResp rt (remote_session_num_ x) q (Z.of_nat (length pkts)) d hn).
  { split; cbn [fill_hdr hn pkt_type_ req_type_ dest_session_num_ req_num_ pkt_num_ total_pkt msg_size_ this_msg_size]; try done; unfold bits, kMsgSizeBits, kReqNumBits; try (rewrite Z.mod_small; lia). }
  destruct Hhead as [G1 G2 G3 G4 G5 G6 G7 G8] eqn:Ehd. clear Ehd. wstep.
  apply (wp_new_message r0 p.1 l ptr hdr d pkts hn); [by destruct Hp|by apply tx_inv_at|done|done|done|done|]. intros hs s2 Hfr HI2.
  set (r1 := set_msgbufs (<[ptr := s2]> (msgbufs r)) (set_hdrs hs r)). change (set_msgbufs _ (set_hdrs hs r0)) with (st_at p x sl (ServerInfo i1) r1) in *. apply tx_inv_at in HI2.
  wstep. apply wq_assert_d; [intros E; cbn; by rewrite (Htx E)|]. wstep. apply wq_at_upd_sslot; [done|done|]. wstep.
  apply wq_assert_d; [intros _; apply negb_true_iff, Z.eqb_neq; unfold kInvalidReqType; lia|]. wstep. apply wq_at_upd_si; [done|].
  unfold enqueue_pkt_tx_burst_st. wstep. apply wq_at_get_sslot; [done|]. cbn [tx_msgbuf_ set_info set_tx_msgbuf].
  apply (wp_send_user asserts _ p.1 (mk_umsg ptr hdr d pkts hn) l 0); [by apply tx_inv_at|done|]. intros bt wr HI3. rewrite st_at_tx in *. apply tx_inv_at in HI3.
  by apply (HQ bt wr hs s2 hn).
Qed.
(** A request for packet [k] of the response. *)
Lemma wp_process_rfr u k x sl i r l h Q :
  slot_valid r p x → is_client_ sl = false → tx_inv r p.1 (Some u) l → tx_msgbuf_ sl = u_ptr u → si_sav_num_req_pkts i = 1 →
  req_num_ h ≤ cur_req_num_ sl → pkt_num_ h = Z.of_nat k → (k < length (u_pkts u))%nat → Z.of_nat (length (u_pkts u)) < 2 ^ 16 → 0 ≤ si_num_rx i < 2 ^ 32 →
  (∀ bt wr, tx_inv (st_tx bt wr r) p.1 (Some u) (l ++ [user_pkt p.1 u k]) →
     Q tt (st_at p x sl (ServerInfo (set_si_num_rx (si_num_rx i + 1) i)) (st_tx bt wr r))) →
  wp (process_rfr_st asserts p h) Q (st_at p x sl (ServerInfo i) r).
Proof.
  intros Hv Hcl HI Htx Hsav Hreq Hnum Hk Hn Hrx HQ. unfold process_rfr_st. wstep. apply wq_at_get_sslot; [done|]. wstep.
  apply wq_assert_d; [intros _; cbn; by rewrite Hcl|]. wstep. apply wq_assert_d; [intros _; by apply Z.leb_le|]. wstep. apply wq_at_upd_si; [done|].
  rewrite u64_small by lia. wstep. apply wq_at_get_si; [done|]. unfold resp_ntoi. cbn [si_sav_num_req_pkts set_si_num_rx]. rewrite Hsav, Hnum.
  replace (u64 (Z.of_nat k - u64 (1 - 1))) with (Z.of_nat k) by (change (u64 (1 - 1)) with 0; rewrite u64_small; lia).
  unfold enqueue_pkt_tx_burst_st. wstep. apply wq_at_get_sslot; [done|]. cbn [tx_msgbuf_ set_info]. rewrite Htx.
  eapply wp_send_user; [by apply tx_inv_at|done|]. intros bt wr HI'. rewrite st_at_tx in *. apply tx_inv_at in HI'. by apply HQ.
Qed.
End server.

(** * The client's side of an RPC

    What the handlers of the client do with credit returns and with the packets of a
    response in order: credits, further packets, the buffer of the response, and the
    continuation. *)

(** ** The buffer of a large response

    The slot's buffer [D] with the first [k] packets of [d] copied to memory of its
    own. *)
Record resp_buf `{Transport} (k : nat) (d : list Z) (D : Serializer) (hp : heap) : Prop := {
  rb_vec : dyn_ok (iov D);
  rb_view : view (iov D) = [mk_iovec (new_buff D) (Z.of_nat (length d))];
  rb_end : iov_end (iov D) ≠ 0;
  rb_used : used_size D = Z.of_nat (length (take (k * Z.to_nat kMaxDataPerPkt) d));
  rb_data : load (bytes hp) (new_buff D) (length (take (k * Z.to_nat kMaxDataPerPkt) d)) = Some (take (k * Z.to_nat kMaxDataPerPkt) d);
  rb_map : ∀ a, new_buff D ≤ a < new_buff D + Z.of_nat (length d) → is_Some (bytes hp !! a)
}.

Section client.
Context `{TTr : Transport} `{!TransportOk} (asserts : bool) (malloc_ok : Z → bool) (junk : Z → Z) (p : sslot_ptr).
Implicit Types (r : Rpc) (x : Session) (sl : SSlot) (c : client_info) (l : list wire_pkt) (h : pkthdr_t) (d : list Z).

Lemma wp_bump_credits x sl inf r Q :
  slot_valid r p x → is_client x = true → 0 ≤ credits_ x < kSessionCredits →
  Q tt (st_at p (set_credits (credits_ x + 1) x) sl inf r) → wp (bump_credits asserts p.1) Q (st_at p x sl inf r).
Proof.
  intros Hv Hcl Hc HQ. unfold bump_credits. wstep. apply wq_at_get_session; [done|]. cbn [is_client credits_ with_slot set_sslot_arr]. unfold kSessionCredits in *.
  wstep. apply wq_assert_d; [done|]. wstep. apply wq_assert_d; [intros _; lia|]. rewrite u64_small by lia.
  change (set_credits (credits_ x + 1) (with_slot p.2 (set_info inf sl) x)) with (with_slot p.2 (set_info inf sl) (set_credits (credits_ x + 1) x)).
  by apply wq_at_put_session.
Qed.

(** A credit comes back: it is used at once when packets are waiting. *)
Lemma wp_expl_cr u x sl c r l h Q :
  let n := Z.of_nat (length (u_pkts u)) in
  slot_valid r p x → is_client x = true → tx_msgbuf_ sl = u_ptr u → tx_inv r p.1 (Some u) l → n < 2 ^ 32 →
  0 ≤ ci_num_tx c ≤ n → 0 ≤ credits_ x < kSessionCredits → req_num_ h ≤ cur_req_num_ sl →
  (∀ k bt wr, Z.of_nat k = Z.min (credits_ x + 1) (n - ci_num_tx c) →
     tx_inv (st_tx bt wr r) p.1 (Some u) (l ++ (user_pkt p.1 u <$> seq (Z.to_nat (ci_num_tx c)) k)) →
     Q tt (st_at p (set_credits (credits_ x + 1 - Z.of_nat k) x) sl (ClientInfo (set_ci_num_tx (ci_num_tx c + Z.of_nat k) (set_ci_progress (ev_loop_tsc_ r) c))) (st_tx bt wr r))) →
  wp (process_expl_cr_st asserts p h) Q (st_at p x sl (ClientInfo c) r).
Proof.
  intros n Hv Hcl Hm HI Hn Htx Hc Hreq HQ. destruct (has_msg_first r u (ti_msg _ _ _ _ HI)) as (s & Hs & Htp & _). unfold kSessionCredits in *.
  unfold process_expl_cr_st. wstep. apply wq_at_get_sslot; [done|]. wstep. apply wq_assert_d; [intros _; by apply Z.leb_le|].
  wstep. apply wp_bump_credits; [done|done|done|]. do 2 wstep. wstep. apply wq_at_upd_ci; [done|]. set (c1 := set_ci_progress _ c).
  unfold req_pkts_pending. wstep. wstep. apply wq_at_get_ci; [done|]. wstep. eapply wq_at_tx_msgbuf; [done|by rewrite Hm|]. wstep. rewrite Htp. fold n.
  change (ci_num_tx c1) with (ci_num_tx c). destruct (Z.ltb_spec (ci_num_tx c) n) as [Hlt|Hge].
  - eapply wp_kick_req; [done|done|exact HI|done|done|cbn; unfold kSessionCredits; lia|]. intros k bt wr Hk HI'. by apply (HQ k bt wr).
  - wstep. specialize (HQ 0%nat (tx_burst_arr_ r) (wire r)). replace (st_tx (tx_burst_arr_ r) (wire r) r) with r in HQ by by destruct r.
    cbn [seq fmap list_fmap Z.of_nat] in HQ. rewrite app_nil_r, Z.sub_0_r, Z.add_0_r in HQ.
    replace (set_ci_num_tx (ci_num_tx c) (set_ci_progress (ev_loop_tsc_ r) c)) with c1 in HQ by by destruct c. apply HQ; [lia|done].
Qed.

(** ** The end of an RPC that is alone in the list of active ones *)
Definition st_done (resp cf tag : Z) (r : Rpc) : Rpc :=
  set_events (events r ++ [Continue cf tag p]) (set_tail_prev (Some Root) (set_root_next (Some Tail) (set_resp_ptrs (<[resp := p]> (resp_ptrs r)) r))).
(** Up to the backlog. *)
Definition st_freed (resp : Z) (r : Rpc) : Rpc := set_tail_prev (Some Root) (set_root_next (Some Tail) (set_resp_ptrs (<[resp := p]> (resp_ptrs r)) r)).
Definition after_free (c : client_info) (x : Session) : M Rpc unit :=
  match enq_req_backlog_ x with
  | [] => mret tt
  | a :: _ =>
      assert_d asserts (bool_decide (length (sslot_free_vec_ x) = 1%nat)) ;;
      enqueue_request asserts (ea_session_num a) (ea_req_type a) (ea_req_msgbuf a) (ea_resp_msgbuf a) (ea_cont_func a) (ea_tag a) (ea_cont_etid a) 0 0 kInvalidBgETid ;;
      upd_session p.1 (λ x, set_backlog (tail (enq_req_backlog_ x)) x)
  end ;;
  emit (if ci_cont_etid c =? kInvalidBgETid then Continue (ci_cont_func c) (ci_tag c) p else SubmitBgResp (ci_cont_func c) (ci_tag c) (ci_cont_etid c)).
Lemma wq_complete_front F x sl c r Q :
  slot_valid r p x → ci_resp_msgbuf c ≠ 0 → ci_wheel_count c = 0 → ci_prev c = Some Root → ci_next c = Some Tail → Z.of_nat (length (sslot_free_vec_ x)) < kSessionReqWindow →
  (let x' := set_free_vec (index_ sl :: sslot_free_vec_ x) x in let c' := set_ci_num_rx 0 c in let sl' := set_tx_msgbuf 0 sl in
   wq F (after_free c' (with_slot p.2 (set_info (ClientInfo c') sl') x')) Q (st_at p x' sl' (ClientInfo c') (st_freed (ci_resp_msgbuf c) r))) →
  wq F (complete_response asserts p) Q (st_at p x sl (ClientInfo c) r).
Proof.
  intros Hv Hresp Hwh Hprev Hnext Hfree HQ. unfold complete_response. wstep. apply wq_at_upd_ci; [done|]. wstep. apply wq_at_get_ci; [done|].
  cbn [ci_resp_msgbuf ci_wheel_count ci_cont_etid set_ci_num_rx]. rewrite (proj2 (Z.eqb_neq _ _) Hresp). wstep. wstep.
  match goal with |- wq _ _ _ (set_resp_ptrs ?m (st_at _ _ _ _ ?r)) => change (set_resp_ptrs m (st_at p x sl (ClientInfo (set_ci_num_rx 0 c)) r)) with (st_at p x sl (ClientInfo (set_ci_num_rx 0 c)) (set_resp_ptrs m r)) end.
  wstep. apply wq_assert_d; [intros _; by apply Z.eqb_eq|]. wstep. apply wq_at_upd_sslot; [done|done|]. unfold delete_from_active_rpc_list.
  wstep. wstep. apply wq_at_get_ci; [done|]. cbn [ci_prev ci_next set_ci_num_rx]. rewrite Hprev, Hnext. cbn [set_next set_prev]. wstep. wstep.
  match goal with |- wq _ _ _ (set_root_next ?v (st_at p x ?s ?i ?r)) => change (set_root_next v (st_at p x s i r)) with (st_at p x s i (set_root_next v r)) end.
  wstep. apply wq_at_get_ci; [done|]. cbn [ci_prev ci_next set_ci_num_rx]. rewrite Hprev, Hnext. cbn [set_next set_prev]. wstep.
  match goal with |- wq _ _ _ (set_tail_prev ?v (st_at p x ?s ?i ?r)) => change (set_tail_prev v (st_at p x s i r)) with (st_at p x s i (set_tail_prev v r)) end.
  wstep. apply wq_at_get_sslot; [done|]. unfold push_free. wstep. wstep. apply wq_at_get_session; [done|]. cbn [sslot_free_vec_ with_slot set_sslot_arr].
  rewrite (proj2 (Z.ltb_lt _ _) Hfree).
  match goal with |- wq _ (put_session _ ?y) _ _ => change y with (with_slot p.2 (set_info (ClientInfo (set_ci_num_rx 0 c)) (set_tx_msgbuf 0 sl)) (set_free_vec (index_ sl :: sslot_free_vec_ x) x)) end.
  apply wq_at_put_session. wstep. apply wq_at_get_session; [done|]. exact HQ.
Qed.
Lemma wp_complete_response x sl c r Q :
  slot_valid r p x → ci_resp_msgbuf c ≠ 0 → ci_wheel_count c = 0 → ci_prev c = Some Root → ci_next c = Some Tail → ci_cont_etid c = kInvalidBgETid →
  Z.of_nat (length (sslot_free_vec_ x)) < kSessionReqWindow → enq_req_backlog_ x = [] →
  Q tt (st_at p (set_free_vec (index_ sl :: sslot_free_vec_ x) x) (set_tx_msgbuf 0 sl) (ClientInfo (set_ci_num_rx 0 c)) (st_done (ci_resp_msgbuf c) (ci_cont_func c) (ci_tag c) r)) →
  wp (complete_response asserts p) Q (st_at p x sl (ClientInfo c) r).
Proof.
  intros Hv Hresp Hwh Hprev Hnext Het Hfree Hback HQ. apply wq_complete_front; [done..|]. intros x' c' sl'. unfold after_free.
  change (enq_req_backlog_ (with_slot _ _ x')) with (enq_req_backlog_ x). rewrite Hback. do 2 wstep. change (ci_cont_etid c') with (ci_cont_etid c). rewrite Het. cbn [Z.eqb]. unfold emit. wstep. exact HQ.
Qed.

(** ** Copying a packet of a large response *)
Lemma wp_new_array n (Q : Z → Rpc → Prop) r :
  malloc_ok n = true → heap_ok (mem r) →
  (∀ hp, heap_ok hp → grows (mem r) hp → (∀ a, brk (mem r) ≤ a < brk (mem r) + n → is_Some (bytes hp !! a)) → Q (brk (mem r)) (set_mem hp r)) →
  wp (new_array malloc_ok junk n) Q r.
Proof.
  intros Hm [Hpos Hok] HQ. unfold new_array. wstep. apply wq_in_mem. unfold malloc. do 2 wstep. rewrite Hm. do 2 wstep. wstep. rewrite (proj2 (Z.eqb_neq _ _)) by lia. wstep.
  apply HQ; cbn [brk bytes].
  - split; cbn; [lia|]. intros a. rewrite map_fresh_lookup. destruct (in_range_spec (brk (mem r)) (Z.of_nat (Z.to_nat n)) a); [lia|]. intros Ha%Hok. lia.
  - split; cbn; [lia|]. intros a Ha. rewrite map_fresh_lookup. by destruct (in_range_spec (brk (mem r)) (Z.of_nat (Z.to_nat n)) a); [lia|].
  - intros a Ha. rewrite map_fresh_lookup. destruct (in_range_spec (brk (mem r)) (Z.of_nat (Z.to_nat n)) a); [by eexists|lia].
Qed.
Lemma wp_copy_first d x sl inf r h body Q :
  slot_valid r p x → dyn_ok (iov (dyn_resp_msgbuf_ sl)) → pkt_num_ h = 0 → msg_size_ h = Z.of_nat (length d) → this_msg_size h = Z.of_nat (length (chunk 0 d)) →
  malloc_ok (Z.of_nat (length d)) = true → heap_ok (mem r) → load (bytes (mem r)) body (length (chunk 0 d)) = Some (chunk 0 d) →
  (∀ D hp, resp_buf 1 d D hp → brk (mem r) ≤ new_buff D → heap_ok hp → grows (mem r) hp → Q tt (st_at p x (set_dyn_resp D sl) inf (set_mem hp r))) →
  wp (copy_resp_pkt malloc_ok junk p h body) Q (st_at p x sl inf r).
Proof.
  intros Hv Hd Hnum Hsz Hth Hmal Hok Hbody HQ. unfold copy_resp_pkt. rewrite Hnum, Hsz, Hth. cbn [Z.eqb]. wstep. wstep. apply wq_at_upd_sslot; [done|done|].
  apply wq_at_reset_dyn; [done|]. wstep. apply wq_at_get_sslot; [done|]. cbn [iov dyn_resp_msgbuf_ set_info set_dyn_resp set_iov ser_clear set_iov_begin set_iov_end iov_begin iov_end set_new_buff set_is_sick set_used_size].
  cbn [Z.eqb andb]. destruct (dyn_empty_ok _ Hd) as [Hd0 Hv0]. wstep. apply wp_new_array; [done|done|]. intros hp Hhp Hg Hmap.
  match type of Hg with grows (mem ?r1) hp => change (mem r1) with (mem r) in * end. rewrite st_at_mem. set (B := brk (mem r)) in *.
  wstep. apply wq_at_upd_sslot; [done|done|].
  destruct (dyn_push_ok _ body (Z.of_nat (length (chunk 0 d))) Hd0) as (v & Hp & Hd1 & Hview & Hb & He & Hcap); [lia|done|]. cbn in Hb, He.
  wstep. eapply wq_at_dyn_push; [done|exact Hp|]. wstep. apply wq_at_upd_sslot; [done|done|]. wstep. apply wq_at_get_sslot; [done|].
  cbn [iov dyn_resp_msgbuf_ set_info set_dyn_resp set_iov set_new_buff set_used_size]. rewrite Hv0 in Hview. pose proof Hd1 as [Hok1 Hlen1].
  assert (Hid : set_capacity IOVECTOR_CAPACITY v = v) by (rewrite <- Hcap; by destruct v). rewrite Hid in Hok1.
  wstep. eapply wq_lift_ok; [by eapply iv_front_ok|]. cbn [iov_base]. wstep. apply wq_in_mem. cbn [mem st_at st_slot st_session set_session_vec set_mem].
  assert (Hchunk : Z.of_nat (length (chunk 0 d)) ≤ Z.of_nat (length d)) by (rewrite chunk_length; lia).
  assert (Hlow : ∀ a, body ≤ a < body + Z.of_nat (length (chunk 0 d)) → a < B) by (intros a Ha; apply (proj2 Hok); by eapply load_mapped).
  apply (wp_memcpy _ _ _ (chunk 0 d)); [lia| | |intros a Ha; apply Hmap; lia|].
  { destruct (decide (length (chunk 0 d) = 0)%nat) as [E|E]; [left; lia|]. right. right. clear Hmap Hhp Hok. assert (body + Z.of_nat (length (chunk 0 d)) - 1 < B) by (apply Hlow; lia). lia. }
  { rewrite Nat2Z.id, <- Hbody. apply load_ext. intros a Ha. by apply (proj2 Hg), Hlow. }
  intros hp' Hst. rewrite st_at_mem. wstep. rewrite Hb. eapply wq_lift_ok; [apply arr_set_in_range; lia|]. apply wq_at_upd_dyn; [done|].
  change (Z.to_nat 0) with 0%nat. set (w := <[0%nat := _]> (iovs v)).
  match goal with |- Q tt (st_at p x ?s inf ?r') => set (D := dyn_resp_msgbuf_ s); change (Q tt (st_at p x (set_dyn_resp D sl) inf (set_mem hp' r))) end.
  assert (Hfirst : take (1 * Z.to_nat kMaxDataPerPkt) d = chunk 0 d) by (unfold chunk; by rewrite Nat.mul_1_l, drop_0).
  assert (HviewD : view (iov D) = [mk_iovec B (Z.of_nat (length d))]).
  { unfold view in *. cbn. rewrite Hb, He in Hview |- *. destruct (iovs v) as [|y ys]; [done|]. cbn in *. done. }
  apply HQ; cbn [D new_buff set_iov set_used_size set_new_buff dyn_resp_msgbuf_ set_dyn_resp].
  - split; try done.
    + destruct Hd1 as [[G1 G2 G3 G4 G5 G6 G7] G8]. split; [|cbn; unfold w; by rewrite length_insert]. split; cbn [D iov set_iov set_iovs iov_begin iov_end capacity nbases iovs set_capacity] in *; try done.
      * unfold w. by rewrite length_insert.
      * change (lens_ok (view (iov D))). rewrite HviewD. apply Forall_singleton. cbn. lia.
    + cbn. rewrite He. done.
    + by rewrite Hfirst.
    + rewrite Hfirst. exact (store_load _ _ _ _ Hst).
    + intros a Ha. destruct Hst as [Hs _]. rewrite (store_dom _ _ _ _ _ Hs). by apply Hmap.
  - lia.
  - by eapply store_heap_ok.
  - destruct Hst as [Hs Hbrk]. destruct Hg as [Hg1 Hg2]. split; [by rewrite Hbrk|]. intros a Ha. rewrite (store_frame _ _ _ _ _ Hs) by lia. by apply Hg2.
Qed.
Lemma wp_copy_next d k x sl inf r h body Q :
  let D0 := dyn_resp_msgbuf_ sl in
  slot_valid r p x → resp_buf k d D0 (mem r) → pkt_num_ h = Z.of_nat k → (0 < k)%nat → this_msg_size h = Z.of_nat (length (chunk k d)) → Z.of_nat (length d) < 2 ^ 32 →
  load (bytes (mem r)) body (length (chunk k d)) = Some (chunk k d) →
  (∀ a, body ≤ a < body + Z.of_nat (length (chunk k d)) → ¬ (new_buff D0 ≤ a < new_buff D0 + Z.of_nat (length d))) →
  (∀ D hp, resp_buf (S k) d D hp → new_buff D = new_buff D0 → heap_store (new_buff D0 + used_size D0) (chunk k d) (mem r) hp →
     used_size D0 + Z.of_nat (length (chunk k d)) ≤ Z.of_nat (length d) → 0 ≤ used_size D0 → Q tt (st_at p x (set_dyn_resp D sl) inf (set_mem hp r))) →
  wp (copy_resp_pkt malloc_ok junk p h body) Q (st_at p x sl inf r).
Proof.
  intros D0 Hv [Hd Hview Hend Hused Hdata Hmap] Hnum Hk Hth Hlen Hbody Hap HQ. pose proof (take_chunk k d) as Htc.
  assert (Hl : length (take (S k * Z.to_nat kMaxDataPerPkt) d) = (length (take (k * Z.to_nat kMaxDataPerPkt) d) + length (chunk k d))%nat) by (by rewrite <- Htc, length_app).
  assert (Hle : (length (take (S k * Z.to_nat kMaxDataPerPkt) d) ≤ length d)%nat) by (rewrite length_take; lia).
  unfold copy_resp_pkt. rewrite Hnum, Hth. rewrite (proj2 (Z.eqb_neq _ _)) by lia. wstep. wstep. wstep. apply wq_at_get_sslot; [done|].
  cbn [dyn_resp_msgbuf_ set_info]. fold D0. rewrite (proj2 (Z.eqb_neq _ _) Hend), andb_false_r. wstep. apply wq_in_mem. apply (wp_memcpy _ _ _ (chunk k d)); [lia| | | |].
  - destruct (decide (length (chunk k d) = 0)%nat) as [E|E]; [left; lia|]. right.
    destruct (intervals_apart body (Z.of_nat (length (chunk k d))) (new_buff D0 + used_size D0) (Z.of_nat (length (chunk k d)))); [lia|lia| |lia|lia].
    intros a Ha Hin. apply (Hap a Ha). lia.
  - by rewrite Nat2Z.id.
  - intros a Ha. apply Hmap. lia.
  - intros hp Hst. rewrite st_at_mem. apply wq_at_upd_sslot; [done|done|]. unfold bits. rewrite Z.mod_small by lia.
    change (Q tt (st_at p x (set_dyn_resp (set_used_size (used_size D0 + Z.of_nat (length (chunk k d))) D0) sl) inf (set_mem hp r))).
    apply HQ; cbn [new_buff set_used_size]; [|done|done|lia|lia]. split; cbn [iov new_buff set_used_size used_size]; try done.
    + lia.
    + rewrite Hl, <- Htc. pose proof (store_load _ _ _ _ Hst) as Hnew. destruct Hst as [Hs _]. apply load_app.
      * rewrite <- Hdata. apply (store_load_ne _ _ _ _ _ _ Hs). lia.
      * by rewrite <- Hused.
    + intros a Ha. destruct Hst as [Hs _]. rewrite (store_dom _ _ _ _ _ Hs). by apply Hmap.
Qed.
End client.
