(* ===== verification/RpcClientInv.v ===== *)
(** * One RPC: the packets of its two sides

    The request has [n] packets and the response [m].  The client sends [n] request
    packets and [m - 1] requests for response; the server answers each of them with one
    packet: a credit return, or a packet of the response. *)

From S2P Require Import Prelude IoVector IoVectorSpec IoVectorClass IoVectorOps Serializer SerializerSer SerializerPkts RpcTypes Rpc RpcState RpcTx RpcKick RpcHandlers.

Record call : Type := mk_call {
  k_client : sslot_ptr;
  k_server : sslot_ptr;
  k_q : Z;
  k_rt : Z;
  k_req : umsg;
  k_resp : list Z;
  k_rb : Z;
  k_cf : Z;
  k_tg : Z;
  k_func : Z
}.

Section call.
Context `{TTr : Transport} `{!TransportOk}.
Implicit Types (k : call) (j : nat) (w : wire_pkt) (l : list wire_pkt).

Definition req_pkts k : nat := length (u_pkts (k_req k)).
Definition resp_pkts k : nat := Z.to_nat (npkts (k_resp k)).
Definition all_pkts k : nat := req_pkts k + resp_pkts k - 1.

(** Lengths that fill their packets exactly are excluded: the code would send the last
    packet without its data. *)
Record call_ok k : Prop := {
  ko_client : Z.of_nat (k_client k).1 < 16 ∧ Z.of_nat (k_client k).2 = k_q k mod kSessionReqWindow;
  ko_server : Z.of_nat (k_server k).1 < 16 ∧ Z.of_nat (k_server k).2 = k_q k mod kSessionReqWindow;
  ko_q : 0 ≤ k_q k < 2 ^ 32;
  ko_rt : 0 ≤ k_rt k < 255;
  ko_head : is_head kReq (k_rt k) (Z.of_nat (k_server k).1) (k_q k) (Z.of_nat (req_pkts k)) (u_data (k_req k)) (u_head (k_req k));
  ko_req : 0 < Z.of_nat (length (u_data (k_req k))) ≤ kMaxMsgSize ∧ Z.of_nat (length (u_data (k_req k))) mod kMaxDataPerPkt ≠ 0;
  ko_resp : 0 < Z.of_nat (length (k_resp k)) ≤ kMaxMsgSize ∧ Z.of_nat (length (k_resp k)) mod kMaxDataPerPkt ≠ 0;
  ko_n : Z.of_nat (req_pkts k) = npkts (u_data (k_req k));
  ko_room : Z.of_nat (req_pkts k) < 2300 ∧ Z.of_nat (resp_pkts k) < 2300;
  ko_max : sizeof_ctrl_buffer ≤ kMaxMsgSize < 2 ^ 24;
  ko_rb : k_rb k ≠ 0
}.

(** Packet [j] of the client, and the packet that answers it. *)
Definition client_pkt k j w : Prop :=
  ((j < req_pkts k)%nat → w = user_pkt (k_client k).1 (k_req k) j) ∧
  ((req_pkts k ≤ j)%nat → is_ctrl_pkt kRFR (k_client k).1 (Z.of_nat (k_server k).1) (k_q k) (Z.of_nat (S j - req_pkts k)) w).
Definition server_pkt k j w : Prop :=
  ((S j < req_pkts k)%nat → is_ctrl_pkt kExplCR (k_server k).1 (Z.of_nat (k_client k).1) (k_q k) (Z.of_nat j) w) ∧
  ((req_pkts k ≤ S j)%nat → is_data_pkt kResp (k_rt k) (Z.of_nat (k_client k).1) (k_q k) (Z.of_nat (resp_pkts k)) (k_resp k) (S j - req_pkts k) (w_hdr w) ∧
     w_body w = chunk (S j - req_pkts k) (k_resp k)).
Definition sent (P : nat → wire_pkt → Prop) (n : nat) l : Prop := length l = n ∧ ∀ j w, l !! j = Some w → P j w.

Lemma sent_nil P : sent P 0 [].
Proof. split; [done|]. intros ? ? ?. done. Qed.
Lemma sent_app P n l n' l' : sent P n l → length l' = n' → (∀ j w, l' !! j = Some w → P (n + j)%nat w) → sent P (n + n') (l ++ l').
Proof.
  intros [Hl Ha] Hl' H'. split; [rewrite length_app; lia|]. intros j w Hj. apply lookup_app_Some in Hj as [?|[Hge Hj]]; [by apply Ha|].
  apply H' in Hj. by replace (n + (j - length l))%nat with j in Hj by lia.
Qed.
Lemma sent_snoc P n l w : sent P n l → P n w → sent P (S n) (l ++ [w]).
Proof.
  intros Hs Hw. replace (S n) with (n + 1)%nat by lia. apply sent_app; [done|done|]. intros [|j] w'; [|done]. cbn. intros [= <-]. by rewrite Nat.add_0_r.
Qed.

Section ok.
Context (k : call) (Hk : call_ok k).
Lemma resp_pkts_npkts : Z.of_nat (resp_pkts k) = npkts (k_resp k).
Proof. destruct (ko_resp k Hk) as [H1 H2]. destruct (npkts_bounds (k_resp k) ltac:(lia) H2) as (_ & ? & _). unfold resp_pkts. lia. Qed.
Lemma resp_pkts_pos : (0 < resp_pkts k)%nat.
Proof. destruct (ko_resp k Hk) as [H1 H2]. pose proof resp_pkts_npkts. destruct (npkts_bounds (k_resp k) ltac:(lia) H2) as (_ & ? & _). lia. Qed.
Lemma req_pkts_pos : (0 < req_pkts k)%nat.
Proof. destruct (ko_req k Hk) as [H1 H2]. pose proof (ko_n k Hk). destruct (npkts_bounds (u_data (k_req k)) ltac:(lia) H2) as (_ & ? & _). lia. Qed.
Lemma resp_small : Z.of_nat (length (k_resp k)) ≤ kMaxDataPerPkt ↔ resp_pkts k = 1%nat.
Proof. destruct (ko_resp k Hk) as [H1 H2]. pose proof resp_pkts_npkts. destruct (npkts_bounds (k_resp k) ltac:(lia) H2) as (_ & _ & Hs). rewrite <- Hs. lia. Qed.
Lemma req_small : Z.of_nat (length (u_data (k_req k))) ≤ kMaxDataPerPkt ↔ req_pkts k = 1%nat.
Proof. destruct (ko_req k Hk) as [H1 H2]. pose proof (ko_n k Hk). destruct (npkts_bounds (u_data (k_req k)) ltac:(lia) H2) as (_ & _ & Hs). rewrite <- Hs. lia. Qed.
(** The packets carry all of a message. *)
Lemma take_all d n : Z.of_nat n = npkts d → 0 < Z.of_nat (length d) → Z.of_nat (length d) mod kMaxDataPerPkt ≠ 0 → take (n * Z.to_nat kMaxDataPerPkt) d = d.
Proof. intros Hn Hp Hm. destruct (npkts_bounds d Hp Hm) as (? & _). pose proof kmax_pos. apply take_ge. nia. Qed.
Lemma resp_all : take (resp_pkts k * Z.to_nat kMaxDataPerPkt) (k_resp k) = k_resp k.
Proof. destruct (ko_resp k Hk) as [H1 H2]. apply take_all; [apply resp_pkts_npkts|lia|done]. Qed.
Lemma req_all : take (req_pkts k * Z.to_nat kMaxDataPerPkt) (u_data (k_req k)) = u_data (k_req k).
Proof. destruct (ko_req k Hk) as [H1 H2]. apply take_all; [apply (ko_n k Hk)|lia|done]. Qed.
Lemma chunk_le j d : Z.of_nat (length (chunk j d)) ≤ kMaxDataPerPkt.
Proof. rewrite chunk_length. pose proof kmax_pos. lia. Qed.

Lemma server_pkt_rx j w : server_pkt k j w →
  dest_session_num_ (w_hdr w) = Z.of_nat (k_client k).1 ∧ req_num_ (w_hdr w) = k_q k ∧ msg_size_ (w_hdr w) ≤ kMaxMsgSize ∧ Z.of_nat (length (w_body w)) ≤ kMaxDataPerPkt.
Proof.
  intros [H1 H2]. pose proof kmax_pos. pose proof (ko_max k Hk). destruct (decide (S j < req_pkts k)%nat) as [E|E].
  - destruct (H1 E) as [_ Hb _ _ ? ? ?]. rewrite Hb. cbn. split_and!; try done; lia.
  - destruct (H2 ltac:(lia)) as [[_ _ ? ? _ _ Hs _] Hb]. rewrite Hb, Hs. split_and!; [done|done|apply (ko_resp k Hk)|apply chunk_le].
Qed.
Lemma client_data j : (j < req_pkts k)%nat →
  is_data_pkt kReq (k_rt k) (Z.of_nat (k_server k).1) (k_q k) (Z.of_nat (req_pkts k)) (u_data (k_req k)) j (nth_hdr (u_head (k_req k)) (req_pkts k) j).
Proof.
  intros Hj. destruct (ko_req k Hk) as [H1 H2]. pose proof (ko_room k Hk). apply nth_hdr_data; [apply (ko_head k Hk)|apply (ko_n k Hk)|lia|lia|done|done].
Qed.
Lemma client_pkt_rx j w : client_pkt k j w →
  dest_session_num_ (w_hdr w) = Z.of_nat (k_server k).1 ∧ req_num_ (w_hdr w) = k_q k ∧ msg_size_ (w_hdr w) ≤ kMaxMsgSize ∧ Z.of_nat (length (w_body w)) ≤ kMaxDataPerPkt.
Proof.
  intros [H1 H2]. pose proof kmax_pos. pose proof (ko_max k Hk). destruct (decide (j < req_pkts k)%nat) as [E|E].
  - rewrite (H1 E). cbn [user_pkt w_hdr w_body]. destruct (client_data j E) as [_ _ ? ? _ _ Hs _]. fold (req_pkts k). rewrite Hs. split_and!; [done|done|apply (ko_req k Hk)|apply chunk_le].
  - destruct (H2 ltac:(lia)) as [_ Hb _ _ ? ? ?]. rewrite Hb. cbn. split_and!; try done; lia.
Qed.
End ok.
End call.

(** * The client during an RPC

    The state of the client after [rcv] packets of the server and [tx] packets of its
    own: credits, progress, the buffer of the response and the list of active RPCs.
    Every packet of the server takes the client to the next such state. *)

Section client_inv.
Context `{TTr : Transport} `{!TransportOk} (asserts : bool) (malloc_ok : Z → bool) (junk : Z → Z).
Context (k : call) (Hk : call_ok k) (w0 : list wire_pkt) (E0 : list event).
Implicit Types (r : Rpc) (x : Session) (sl : SSlot) (c : client_info) (l : list wire_pkt) (rcv tx : nat).
#[local] Abbreviation p := (k_client k).
#[local] Abbreviation u := (k_req k).
#[local] Abbreviation n := (req_pkts k).
#[local] Abbreviation m := (resp_pkts k).
#[local] Abbreviation N := (all_pkts k).

Definition in_buf (D : Serializer) (a : Z) : Prop := new_buff D ≤ a < new_buff D + Z.of_nat (length (k_resp k)).
(** Memory that arriving packets must leave alone. *)
Definition client_keeps rcv (D : Serializer) (a : Z) : Prop := covers (concat (u_pkts u)) a ∨ (n ≤ rcv)%nat ∧ in_buf D a.
(** How far the client may send after [rcv] packets. *)
Definition tx_limit rcv : nat := if bool_decide (rcv < n)%nat then n else N.
Definition flow rcv tx : Prop := (rcv ≤ tx ≤ tx_limit rcv)%nat ∧ (tx - rcv ≤ 32)%nat ∧ (tx = tx_limit rcv ∨ tx - rcv = 32)%nat.

Record client_at rcv tx l x sl c r : Prop := {
  ca_valid : slot_valid r p x;
  ca_client : is_client x = true;
  ca_conn : is_connected x = true;
  ca_remote : remote_session_num_ x = Z.of_nat (k_server k).1;
  ca_backlog : enq_req_backlog_ x = [];
  ca_free : Z.of_nat (length (sslot_free_vec_ x)) < kSessionReqWindow;
  ca_credits : credits_ x = kSessionCredits - Z.of_nat (tx - rcv);
  ca_msg : tx_msgbuf_ sl = u_ptr u;
  ca_cur : cur_req_num_ sl = k_q k;
  ca_ci : ∃ tsc, c = mk_ci (k_rb k) (k_cf k) (k_tg k) (Z.of_nat tx) (Z.of_nat (S rcv - n)) tsc kInvalidBgETid (Some Root) (Some Tail) 0;
  ca_stall : stallq_ r = [];
  ca_events : events r = E0;
  ca_sent : sent (client_pkt k) tx l;
  ca_tx : tx_inv r p.1 (Some u) (w0 ++ l);
  ca_flow : flow rcv tx;
  ca_run : (rcv < N)%nat;
  ca_buf : if bool_decide (rcv < n)%nat then dyn_ok (iov (dyn_resp_msgbuf_ sl)) else resp_buf (S rcv - n) (k_resp k) (dyn_resp_msgbuf_ sl) (mem r);
  ca_ring : ring_ok r (client_keeps rcv (dyn_resp_msgbuf_ sl));
  ca_apart : (n ≤ rcv)%nat → ∀ a, covers (concat (u_pkts u)) a → ¬ in_buf (dyn_resp_msgbuf_ sl) a
}.
(** The RPC is over: the slot is free, all credits are back, and the buffer of the slot
    has the response. *)
Record client_end l x sl c r : Prop := {
  ce_valid : slot_valid r p x;
  ce_credits : credits_ x = kSessionCredits;
  ce_free : ∃ f, sslot_free_vec_ x = index_ sl :: f;
  ce_msg : tx_msgbuf_ sl = 0;
  ce_root : root_next r = Some Tail;
  ce_tail : tail_prev r = Some Root;
  ce_resp : resp_ptrs r !! k_rb k = Some p;
  ce_data : data (bytes (mem r)) (view (iov (dyn_resp_msgbuf_ sl))) = Some (k_resp k);
  ce_stall : stallq_ r = [];
  ce_events : events r = E0 ++ [Continue (k_cf k) (k_tg k) p];
  ce_sent : sent (client_pkt k) N l;
  ce_tx : tx_inv r p.1 (Some u) (w0 ++ l)
}.
Definition client_inv rcv tx l r : Prop :=
  ∃ x sl c r0, r = st_at p x sl (ClientInfo c) r0 ∧
    (client_at rcv tx l x sl c r0 ∨ rcv = N ∧ tx = N ∧ client_end l x sl c r0).

Lemma all_pkts_ge : (n ≤ N)%nat ∧ N = (n + m - 1)%nat ∧ (0 < n)%nat ∧ (0 < m)%nat.
Proof. pose proof (req_pkts_pos k Hk). pose proof (resp_pkts_pos k Hk). unfold all_pkts. lia. Qed.

Lemma user_run tx j : (tx + j ≤ n)%nat → ∀ i w, (user_pkt p.1 u <$> seq tx j) !! i = Some w → client_pkt k (tx + i) w.
Proof.
  intros Hle i w Hi. apply list_lookup_fmap_Some in Hi as (y & -> & [-> Hlt]%lookup_seq). split; [done|]. lia.
Qed.
Lemma client_tx_inv rcv D r l b w h :
  tx_inv r p.1 (Some u) l → ring_ok r (client_keeps rcv D) → rx_ring_ r !! Z.to_nat (rx_ring_head_ r) = Some b → heap_store b (w_body w) (mem r) h →
  Z.of_nat (length (w_body w)) ≤ kMaxDataPerPkt → tx_inv (st_rx h r) p.1 (Some u) l.
Proof. intros HI HR Hb Hst Hlen. eapply tx_inv_rx; [done|exact HR| |done|done|done]. intros ? a [= <-] Ha. by left. Qed.

(** A credit return. *)
Lemma client_rx_cr rcv tx l x sl c r w :
  client_at rcv tx l x sl c r → (S rcv < n)%nat → server_pkt k rcv w →
  wp (process_pkt asserts malloc_ok junk (w_hdr w) (w_body w)) (λ _ r', ∃ tx' l', (tx ≤ tx')%nat ∧ client_inv (S rcv) tx' (l ++ l') r') (st_at p x sl (ClientInfo c) r).
Proof.
  intros [Hv Hcl Hconn Hrem Hback Hfree Hcred Hmsg Hcur Hci Hst Hev Hsent HI Hflow Hrun Hbuf HR Hap] Hlt Hw.
  destruct (server_pkt_rx k Hk rcv w Hw) as (Hdest & Hreq & Hsize & Hlen). destruct (ko_client k Hk) as [_ Hslot]. pose proof (ko_room k Hk) as [Hroom _].
  eapply wp_process_pkt; [exact HR|done|done|done|by rewrite Hreq|done|done|]. intros b h Hb Hstore HR'.
  pose proof (client_tx_inv _ _ _ _ _ _ _ HI HR Hb Hstore Hlen) as HI'. destruct (proj1 Hw Hlt) as [_ _ Hty _ _ _ _]. unfold dispatch. rewrite Hty.
  unfold flow, tx_limit in Hflow. rewrite bool_decide_eq_true_2 in Hflow by lia. destruct Hflow as (Hf1 & Hf2 & Hf3).
  destruct Hci as [tsc ->]. unfold kSessionCredits in Hcred.
  eapply (wp_expl_cr asserts p u); [done|done|done|exact HI'|fold n; lia|fold n; cbn [ci_num_tx]; lia|unfold kSessionCredits; lia|lia|]. fold n. cbn [ci_num_tx]. intros j bt wr Hj HI2.
  exists (tx + j)%nat, (user_pkt p.1 u <$> seq tx j). split; [lia|]. eexists _, _, _, _. split; [done|]. left. rewrite Nat2Z.id, <- app_assoc in HI2.
  rewrite bool_decide_eq_true_2 in Hbuf by lia. pose proof all_pkts_ge.
  split; try done.
  - cbn [credits_ set_credits]. unfold kSessionCredits. lia.
  - eexists. unfold set_ci_num_tx, set_ci_progress. cbn. f_equal; lia.
  - apply sent_app; [done|by rewrite length_fmap, length_seq|]. apply user_run. lia.
  - unfold flow, tx_limit. rewrite bool_decide_eq_true_2 by lia. lia.
  - lia.
  - by rewrite bool_decide_eq_true_2 by lia.
  - eapply ring_ok_ext; [exact HR'|done..|]. intros a [?|[? _]]; [by left|lia].
  - lia.
Qed.

(** The data of a packet of a large response goes to the buffer, away from the request
    and from the receive ring. *)
Lemma wp_client_copy rcv x sl inf r l w b Q :
  let D0 := dyn_resp_msgbuf_ sl in
  malloc_ok (Z.of_nat (length (k_resp k))) = true → slot_valid r p x → (n ≤ S rcv)%nat → server_pkt k rcv w →
  (if bool_decide (rcv < n)%nat then dyn_ok (iov D0) else resp_buf (S rcv - n) (k_resp k) D0 (mem r)) → ring_ok r (client_keeps rcv D0) →
  ((n ≤ rcv)%nat → ∀ a, covers (concat (u_pkts u)) a → ¬ in_buf D0 a) → tx_inv r p.1 (Some u) l →
  load (bytes (mem r)) b (length (w_body w)) = Some (w_body w) → (∀ a, b ≤ a < b + Z.of_nat (length (w_body w)) → ¬ client_keeps rcv D0 a) →
  (∀ D hp, resp_buf (S (S rcv) - n) (k_resp k) D hp → ring_ok (set_mem hp r) (client_keeps (S rcv) D) → (∀ a, covers (concat (u_pkts u)) a → ¬ in_buf D a) →
     tx_inv (set_mem hp r) p.1 (Some u) l → Q tt (st_at p x (set_dyn_resp D sl) inf (set_mem hp r))) →
  wp (copy_resp_pkt malloc_ok junk p (w_hdr w) b) Q (st_at p x sl inf r).
Proof.
  intros D0 Hmal Hv Hge Hw Hbuf HR Hap HI Hload Hfree HQ. destruct (proj2 Hw Hge) as [[_ _ _ _ Hnum _ Hsize Hthis] Hbody]. rewrite Hbody in *. destruct (ko_resp k Hk) as [Hr1 _].
  pose proof (ko_max k Hk) as Hmax. pose proof HR as [Hheap Hhd Hmap].
  assert (Hreq : ∀ a, covers (concat (u_pkts u)) a → 0 < a < brk (mem r)).
  { intros a (w' & Hin & Ha)%covers_concat. apply list_elem_of_lookup_1 in Hin as [i Hi]. apply (proj2 Hheap). destruct (ti_msg _ _ _ _ HI) as [Hm _]. eapply data_mapped; [by apply (me_data _ _ _ _ _ _ Hm i)|done]. }
  case_bool_decide as Hlt.
  - replace (S rcv - n)%nat with 0%nat in * by lia. eapply wp_copy_first; [done|exact Hbuf|done|done|done|done|done|done|]. intros D hp HD Hnb Hhp Hg.
    replace (S (S rcv) - n)%nat with 1%nat in HQ by lia. apply HQ; [done| | |].
    + split; [done|done|]. intros i y Hy a Ha. destruct (Hmap i y Hy a Ha) as [Hmd Hav]. assert (Hlow : a < brk (mem r)) by by apply (proj2 Hheap).
      split; [cbn; by rewrite (proj2 Hg)|]. intros [Hc|[_ Hc]]; [apply Hav; by left|]. unfold in_buf in Hc. lia.
    + intros a Ha%Hreq. unfold in_buf. lia.
    + apply (tx_inv_same r); [|done]. split; try done. intros u' a [= <-] Ha. apply (proj2 Hg). by apply Hreq.
  - assert (Hcov := Hap ltac:(lia)). eapply wp_copy_next; [done|exact Hbuf|done|lia|done|lia|done| |].
    { intros a Ha Hin. apply (Hfree a Ha). right. split; [lia|done]. }
    intros D hp HD Hnb Hst Hu Hu0. replace (S (S rcv - n)) with (S (S rcv) - n)%nat in HD by lia.
    assert (Hout : ∀ a, ¬ in_buf D0 a → bytes hp !! a = bytes (mem r) !! a) by (intros a Ha; eapply store_outside; [exact Hst|]; unfold in_buf, D0 in *; lia).
    apply HQ; [done| | |].
    + eapply ring_ok_ext; [eapply ring_ok_store; [exact HR|exact Hst]|done..|]. intros a [?|[_ Hc]]; [by left|]. right. split; [lia|]. unfold in_buf in *. by rewrite Hnb in *.
    + intros a Ha Hin. apply (Hcov a Ha). unfold in_buf in *. by rewrite Hnb in *.
    + apply (tx_inv_same r); [|done]. split; try done. intros u' a [= <-] Ha. apply Hout. by apply Hcov.
Qed.

(** Requests for response, when there are more packets. *)
Lemma wp_client_rfr tx x sl c r l w (K : M Rpc unit) Q :
  slot_valid r p x → tx_msgbuf_ sl = u_ptr u → tx_inv r p.1 (Some u) l → remote_session_num_ x = Z.of_nat (k_server k).1 → ci_num_tx c = Z.of_nat tx →
  (n ≤ tx ≤ N)%nat → 0 < credits_ x ≤ kSessionCredits → req_num_ (w_hdr w) = k_q k → total_pkt (w_hdr w) = Z.of_nat m →
  (∀ j bt wr hs hd l', Z.of_nat j = Z.min (credits_ x) (Z.of_nat (N - tx)) → length l' = j → (∀ i y, l' !! i = Some y → client_pkt k (tx + i) y) →
     tx_inv (st_ct bt wr hs hd r) p.1 (Some u) (l ++ l') →
     wp K Q (st_at p (set_credits (credits_ x - Z.of_nat j) x) sl (ClientInfo (set_ci_num_tx (Z.of_nat (tx + j)) c)) (st_ct bt wr hs hd r))) →
  wp ((if ci_num_tx c =? wire_pkts (Z.of_nat n) (total_pkt (w_hdr w)) then mret tt else kick_rfr_st asserts p (Some (w_hdr w))) ;; K) Q (st_at p x sl (ClientInfo c) r).
Proof.
  intros Hv Hm HI Hrem Hctx Htx Hc Hreq Htot HQ. pose proof (ko_room k Hk). pose proof (ko_q k Hk). destruct (ko_server k Hk) as [? _]. pose proof all_pkts_ge as (_ & HN & Hn0 & Hm0).
  rewrite Htot. unfold wire_pkts. rewrite u64_small by lia. wstep. destruct (Z.eqb_spec (ci_num_tx c) (Z.of_nat n + Z.of_nat m - 1)) as [E|E].
  - wstep. specialize (HQ 0%nat (tx_burst_arr_ r) (wire r) (hdrs r) (ctrl_msgbuf_head_ r) []). rewrite Nat.add_0_r, <- Hctx, app_nil_r, Z.sub_0_r in HQ.
    replace (st_ct _ _ _ _ r) with r in HQ by by destruct r. replace (set_credits (credits_ x) x) with x in HQ by by destruct x.
    replace (set_ci_num_tx (ci_num_tx c) c) with c in HQ by by destruct c. apply HQ; [lia|done|by intros ? ? ?|done].
  - eapply (wp_kick_rfr asserts p u); [done|done|done|lia|lia|fold n; lia|lia|fold n; lia|done|]. fold n. rewrite Htot, Hctx, Hreq, Hrem.
    intros j bt wr hs hd ws Hj Hlen Hws HI2. rewrite <- Nat2Z.inj_add. apply (HQ j bt wr hs hd ws); [lia|done| |done]. intros i y Hi. split; [lia|]. intros _.
    specialize (Hws i y Hi). by replace (Z.of_nat (S (tx + i) - n)) with (Z.of_nat tx - Z.of_nat n + 1 + Z.of_nat i) by lia.
Qed.

(** The first steps of every response packet: a credit and the count. *)
Lemma client_flow_resp rcv tx : flow rcv tx → (n ≤ S rcv)%nat → (rcv < N)%nat → (n ≤ tx ≤ N ∧ rcv < tx)%nat ∧ (S rcv = N → tx = N) ∧
  ∀ j, Z.of_nat j = Z.min (kSessionCredits - Z.of_nat (tx - rcv) + 1) (Z.of_nat (N - tx)) → flow (S rcv) (tx + j) ∧ (S rcv = N → j = 0%nat).
Proof.
  unfold flow, tx_limit, kSessionCredits. intros Hf Hge Hlt. pose proof all_pkts_ge. rewrite (bool_decide_eq_false_2 (S rcv < n)%nat) by lia. case_bool_decide; split_and!; lia.
Qed.
Lemma wp_client_resp rcv tx l x sl c r w b Q :
  client_at rcv tx l x sl c r → (n ≤ S rcv)%nat → server_pkt k rcv w → stallq_ r = [] →
  (∀ tsc,
     let c' := mk_ci (k_rb k) (k_cf k) (k_tg k) (Z.of_nat tx) (Z.of_nat (S (S rcv) - n)) tsc kInvalidBgETid (Some Root) (Some Tail) 0 in
     let s' := st_at p (set_credits (credits_ x + 1) x) sl (ClientInfo c') r in
     (m = 1%nat → wp (reset_dyn_iov p ;; dyn_push_back p b (Z.of_nat (length (w_body w))) ;; complete_response asserts p) Q s') ∧
     ((1 < m)%nat → wp ((if ci_num_tx c' =? wire_pkts (Z.of_nat n) (total_pkt (w_hdr w)) then mret tt else kick_rfr_st asserts p (Some (w_hdr w))) ;;
        copy_resp_pkt malloc_ok junk p (w_hdr w) b ;; c ← get_ci p; if ci_num_rx c =? Z.of_nat m then complete_response asserts p else mret tt) Q s')) →
  wp (process_resp_one_st asserts malloc_ok junk p (w_hdr w) b) Q (st_at p x sl (ClientInfo c) r).
Proof.
  intros Hat Hge Hw Hst HQ. pose proof Hat as [Hv Hcl _ _ _ _ Hcred Hmsg Hcur [tsc ->] _ _ _ HI Hflow Hrun _ _ _].
  destruct (client_flow_resp _ _ Hflow Hge Hrun) as ((Htx & Hlt) & _). destruct (proj2 Hw Hge) as [[_ _ _ Hreq _ Htot Hsize Hthis] Hbody].
  pose proof all_pkts_ge. pose proof (ko_q k Hk). pose proof (ko_room k Hk). unfold flow, kSessionCredits in *.
  destruct (has_msg_first r u (ti_msg _ _ _ _ HI)) as (s & Hs & _ & v & h0 & Hat0 & Hh0 & Ht0). fold n in Ht0.
  unfold process_resp_one_st. wstep. apply wq_at_get_sslot; [done|]. wstep. apply wq_assert_d; [intros _; cbn; apply Z.leb_le; lia|]. wstep.
  apply wp_bump_credits; [done|done|unfold kSessionCredits; lia|]. do 2 wstep. wstep. apply wq_at_upd_ci; [done|]. cbv beta. cbn [ci_num_rx]. rewrite u64_small by lia.
  replace (Z.of_nat (S rcv - n) + 1) with (Z.of_nat (S (S rcv) - n)) by lia. destruct (HQ (ev_loop_tsc_ r)) as [HQ1 HQ2].
  pose proof (resp_small k Hk) as Hsm. destruct (Z.leb_spec (msg_size_ (w_hdr w)) kMaxDataPerPkt) as [Hle|Hgt]; rewrite Hsize in *.
  - rewrite Hthis, <- Hbody. apply HQ1. by apply Hsm.
  - wstep. apply wq_at_get_ci; [done|]. wstep. eapply wq_at_tx_msgbuf; [done|by rewrite Hmsg|]. wstep. eapply wq_get_n_hdr; [exact Hat0|exact Hh0|lia|exact Hat0|exact Hh0|].
    rewrite Ht0, Htot in *. apply HQ2. pose proof (resp_pkts_pos k Hk). destruct (decide (m = 1%nat)) as [E|E]; [apply Hsm in E; lia|lia].
Qed.

(** The arrival of a packet's data. *)
Lemma resp_buf_ext j d D hp hp' :
  resp_buf j d D hp → (∀ a, new_buff D ≤ a < new_buff D + Z.of_nat (length d) → bytes hp' !! a = bytes hp !! a) → resp_buf j d D hp'.
Proof.
  intros [H1 H2 H3 H4 H5 H6] Hext. split; try done.
  - rewrite <- H5. apply load_ext. intros a Ha. apply Hext. rewrite length_take in Ha. lia.
  - intros a Ha. rewrite Hext by done. by apply H6.
Qed.
Lemma client_at_rx rcv tx l x sl c r b w h :
  client_at rcv tx l x sl c r → rx_ring_ r !! Z.to_nat (rx_ring_head_ r) = Some b → heap_store b (w_body w) (mem r) h → Z.of_nat (length (w_body w)) ≤ kMaxDataPerPkt →
  client_at rcv tx l x sl c (st_rx h r).
Proof.
  intros [Hv Hcl Hconn Hrem Hback Hfree Hcred Hmsg Hcur Hci Hst Hev Hsent HI Hflow Hrun Hbuf HR Hap] Hb Hstore Hlen. split; try done.
  - by eapply client_tx_inv.
  - case_bool_decide as E; [done|]. eapply resp_buf_ext; [exact Hbuf|]. intros a Ha. eapply rx_outside; [exact HR|exact Hb|exact Hstore|done|]. right. split; [lia|exact Ha].
  - by eapply ring_ok_rx.
Qed.

(** A response of one packet. *)
Lemma client_resp_small rcv tx l x sl c r w b :
  client_at rcv tx l x sl c r → (n ≤ S rcv)%nat → m = 1%nat → server_pkt k rcv w →
  load (bytes (mem r)) b (length (w_body w)) = Some (w_body w) →
  wp (process_resp_one_st asserts malloc_ok junk p (w_hdr w) b) (λ _ r', client_inv (S rcv) tx l r') (st_at p x sl (ClientInfo c) r).
Proof.
  intros Hat Hge Hm Hw Hload. eapply wp_client_resp; [exact Hat|done|done|apply Hat|]. intros tsc c' s'. split; [intros _|lia].
  destruct Hat as [Hv Hcl Hconn Hrem Hback Hfree Hcred Hmsg Hcur Hci Hst Hev Hsent HI Hflow Hrun Hbuf HR Hap]. pose proof all_pkts_ge.
  destruct (client_flow_resp _ _ Hflow Hge Hrun) as ((Htx & Hlt) & Hend & _). rewrite bool_decide_eq_true_2 in Hbuf by lia.
  destruct (dyn_empty_ok _ Hbuf) as [Hd0 Hv0]. destruct (dyn_push_ok _ b (Z.of_nat (length (w_body w))) Hd0) as (v & Hp & Hd1 & Hview & Hb & _); [lia|done|].
  unfold s'. wstep. apply wq_at_reset_dyn; [done|]. wstep. eapply wq_at_dyn_push; [done|exact Hp|].
  apply wp_complete_response; cbn [ci_resp_msgbuf ci_wheel_count ci_prev ci_next ci_cont_etid sslot_free_vec_ enq_req_backlog_ set_credits]; try done; [apply (ko_rb k Hk)|].
  eexists _, _, _, _. split; [done|]. right. specialize (Hend ltac:(lia)). split_and!; [lia|done|]. destruct (proj2 Hw Hge) as [_ Hbody]. replace (S rcv - n)%nat with 0%nat in Hbody by lia.
  split; try done.
  - cbn [credits_ set_free_vec set_credits]. unfold kSessionCredits in *. lia.
  - by eexists.
  - cbn. by rewrite lookup_insert_eq.
  - cbn [dyn_resp_msgbuf_ set_tx_msgbuf set_dyn_resp iov set_iov]. rewrite Hview, Hv0. change ([] ++ ?y) with y. rewrite data_one. cbn [iov_base iov_len]. rewrite Nat2Z.id. etrans; [exact Hload|].
    f_equal. rewrite Hbody. pose proof (resp_all k Hk) as Hall. rewrite Hm, Nat.mul_1_l in Hall. unfold chunk. by rewrite Nat.mul_0_l, drop_0.
  - cbn. by rewrite Hev.
  - by rewrite <- Hend.
  - by apply (tx_inv_same r).
Qed.

(** A packet of a larger one. *)
Lemma client_resp_large rcv tx l x sl c r w b :
  malloc_ok (Z.of_nat (length (k_resp k))) = true →
  client_at rcv tx l x sl c r → (n ≤ S rcv)%nat → (1 < m)%nat → server_pkt k rcv w →
  load (bytes (mem r)) b (length (w_body w)) = Some (w_body w) →
  (∀ a, b ≤ a < b + Z.of_nat (length (w_body w)) → ¬ client_keeps rcv (dyn_resp_msgbuf_ sl) a) →
  wp (process_resp_one_st asserts malloc_ok junk p (w_hdr w) b) (λ _ r', ∃ tx' l', (tx ≤ tx')%nat ∧ client_inv (S rcv) tx' (l ++ l') r') (st_at p x sl (ClientInfo c) r).
Proof.
  intros Hmal Hat Hge Hm Hw Hload Hfr. eapply wp_client_resp; [exact Hat|done|done|apply Hat|]. intros tsc c' s'. split; [lia|intros _].
  destruct Hat as [Hv Hcl Hconn Hrem Hback Hfree Hcred Hmsg Hcur Hci Hst Hev Hsent HI Hflow Hrun Hbuf HR Hap]. pose proof all_pkts_ge as (_ & HN & Hn0 & _).
  destruct (client_flow_resp _ _ Hflow Hge Hrun) as ((Htx & Hlt) & Hend & Hfl). destruct (proj2 Hw Hge) as [[_ _ _ Hreq _ Htot _ _] _].
  assert (Hcr : 0 < credits_ x + 1 ≤ kSessionCredits) by (unfold flow, kSessionCredits in *; lia).
  eapply (wp_client_rfr tx); [done|done|exact HI|done|done|done|exact Hcr|done|done|]. cbn [credits_ set_credits].
  intros j bt wr hs hd l' Hj Hlen Hl' HI2. rewrite Hcred in Hj. destruct (Hfl j Hj) as [Hfl' Hj0]. set (r2 := st_ct bt wr hs hd r) in *. rewrite <- app_assoc in HI2.
  wstep. eapply (wp_client_copy rcv); [done|done|done|done|exact Hbuf|by eapply ring_ok_ext|exact Hap|exact HI2|done|done|]. intros D hp HD HR2 Hap2 HI3. wstep. apply wq_at_get_ci; [done|].
  cbn [ci_num_rx set_ci_num_tx c']. destruct (Z.eqb_spec (Z.of_nat (S (S rcv) - n)) (Z.of_nat m)) as [E|E].
  - assert (HE : S rcv = N) by lia. specialize (Hj0 HE). subst j. specialize (Hend HE). destruct l' as [|? ?]; [|done]. rewrite app_nil_r in HI3.
    apply wp_complete_response; cbn [ci_resp_msgbuf ci_wheel_count ci_prev ci_next ci_cont_etid sslot_free_vec_ enq_req_backlog_ set_credits set_ci_num_tx c']; try done; [apply (ko_rb k Hk)|].
    exists tx, []. rewrite app_nil_r. split; [done|]. eexists _, _, _, _. split; [done|]. right. split_and!; [done|done|]. split; try done.
    + cbn [credits_ set_free_vec set_credits]. unfold kSessionCredits in *. lia.
    + by eexists.
    + cbn. by rewrite lookup_insert_eq.
    + cbn [dyn_resp_msgbuf_ set_tx_msgbuf set_dyn_resp]. rewrite (rb_view _ _ _ _ HD), data_one. cbn [iov_base iov_len]. rewrite Nat2Z.id. pose proof (rb_data _ _ _ _ HD) as Hd.
      replace (S (S rcv) - n)%nat with m in Hd by lia. by rewrite (resp_all k Hk) in Hd.
    + cbn. by rewrite Hev.
    + by rewrite <- Hend.
    + by apply (tx_inv_same (set_mem hp r2)).
  - wstep. exists (tx + j)%nat, l'. split; [lia|]. eexists _, _, _, _. split; [done|]. left. split; try done.
    + cbn [credits_ set_credits]. unfold kSessionCredits in *. lia.
    + by eexists.
    + by apply sent_app.
    + lia.
    + by rewrite bool_decide_eq_false_2 by lia.
Qed.

(** Every packet of the server leads to the next state. *)
Lemma client_rx rcv tx l r w :
  malloc_ok (Z.of_nat (length (k_resp k))) = true → client_inv rcv tx l r → (rcv < N)%nat → server_pkt k rcv w →
  wp (process_pkt asserts malloc_ok junk (w_hdr w) (w_body w)) (λ _ r', ∃ tx' l', (tx ≤ tx')%nat ∧ client_inv (S rcv) tx' (l ++ l') r') r.
Proof.
  intros Hmal (x & sl & c & r0 & -> & [Hat|(? & _)]) Hlt Hw; [|lia]. destruct (decide (S rcv < n)%nat) as [E|E]; [by apply client_rx_cr|].
  destruct (server_pkt_rx k Hk rcv w Hw) as (Hdest & Hreq & Hsize & Hlen). destruct (ko_client k Hk) as [_ Hslot]. pose proof Hat as [Hv _ Hconn _ _ _ _ _ _ _ _ _ _ _ _ _ _ HR _].
  eapply wp_process_pkt; [exact HR|done|done|done|by rewrite Hreq|done|done|]. intros b h Hb Hstore HR'. pose proof (client_at_rx _ _ _ _ _ _ _ _ _ _ Hat Hb Hstore Hlen) as Hat'.
  destruct (proj2 Hw ltac:(lia)) as [[Hty _ _ _ _ _ _ _] _]. unfold dispatch. rewrite Hty. pose proof (store_load _ _ _ _ Hstore) as Hload. pose proof all_pkts_ge.
  destruct (decide (m = 1%nat)).
  - eapply wq_mono; [eapply client_resp_small; [exact Hat'|lia|done|done|done]|]. intros ? r' HI. exists tx, []. by rewrite app_nil_r.
  - eapply client_resp_large; [done|exact Hat'|lia|lia|done|done|]. intros a Ha. destruct HR as [_ _ Hmap]. apply (Hmap _ _ Hb a). lia.
Qed.
(** Sending the batch. *)
Lemma client_drain rcv tx l r Q :
  client_inv rcv tx l r → (∀ r', wire r' = w0 ++ l → tx_burst_arr_ r' = [] → client_inv rcv tx l r' → Q tt r') → wp (drain_tx_batch asserts) Q r.
Proof.
  intros (x & sl & c & r0 & -> & Hat) HQ.
  assert (HI : tx_inv r0 p.1 (Some u) (w0 ++ l)) by (destruct Hat as [Hat|(_ & _ & Hat)]; apply Hat).
  eapply wp_drain; [apply (ti_out _ p.1 (Some u)), tx_inv_at, HI|]. apply HQ; [done|done|]. eexists x, sl, c, (st_tx [] (w0 ++ l) r0). split; [done|].
  apply tx_inv_sent in HI. destruct Hat as [[]|(? & ? & [])]; [left|right; split_and!; [done|done|]]; split; try done; by eapply ring_ok_ext.
Qed.
(** The clock of the event loop. *)
Lemma client_tsc rcv tx l r tsc : client_inv rcv tx l r → client_inv rcv tx l (set_ev_loop_tsc tsc r).
Proof.
  intros (x & sl & c & r0 & -> & Hat). eexists x, sl, c, (set_ev_loop_tsc tsc r0). split; [done|].
  destruct Hat as [[]|(? & ? & [])]; [left|right; split_and!; [done|done|]]; split; try done; solve [by eapply ring_ok_ext|by apply (tx_inv_same r0)].
Qed.
Lemma client_facts rcv tx l r : client_inv rcv tx l r →
  sent (client_pkt k) tx l ∧ stallq_ r = [] ∧ out r (w0 ++ l) ∧ (rcv ≤ tx ≤ tx_limit rcv)%nat ∧ (rcv ≤ N)%nat ∧ (tx = rcv → rcv = N).
Proof.
  intros (x & sl & c & r0 & -> & Hat). pose proof all_pkts_ge. destruct Hat as [[]|(-> & -> & [])].
  - destruct ca_flow0 as (? & ? & ?). split_and!; try done; try lia; [apply (ti_out _ p.1 (Some u)); by apply tx_inv_at|]. unfold tx_limit in *. case_bool_decide; lia.
  - split_and!; try done; try lia; [apply (ti_out _ p.1 (Some u)); by apply tx_inv_at|]. unfold tx_limit. rewrite bool_decide_eq_false_2 by lia. lia.
Qed.
End client_inv.
