(* ===== verification/RpcServerInv.v ===== *)
(** * The server during an RPC

    The state of the server after [rcv] packets of the client, before and after the
    response: the part of the request that has arrived, held in the receive ring, the
    call of the handler, and the packets sent.  Every packet of the client and the
    response lead to the next such state. *)

From S2P Require Import Prelude IoVector IoVectorSpec IoVectorClass IoVectorOps Serializer SerializerSer SerializerPkts RpcTypes Rpc RpcState RpcTx RpcKick RpcHandlers RpcClientInv.

(** A message waits while other memory and the control headers change. *)
Lemma prepared_ext `{Transport} r r' ptr hdr d pkts :
  prepared r ptr hdr d pkts → msgbufs r' = msgbufs r → (0 < length pkts)%nat →
  (∀ j, (j < length pkts)%nat → hdrs r' !! hdr_at hdr (Z.of_nat j) = hdrs r !! hdr_at hdr (Z.of_nat j)) →
  (∀ a, covers (concat pkts) a → bytes (mem r') !! a = bytes (mem r) !! a) → prepared r' ptr hdr d pkts.
Proof.
  intros [(s & Hs & [P1 P2 P3 P4 P5 P6 P7]) H2 H3 H4 H5 H6] Hb Hpos Hh Hm. split; [|intros j Hj; rewrite Hh by done; by apply H2| |done..].
  - exists s. rewrite Hb. split; [done|]. split; try done. intros j q Hq. destruct (P3 j q Hq) as [Hd Hne]. split; [|done]. rewrite <- Hd. apply data_ext.
    intros a Ha. apply Hm, covers_concat. exists q. split; [by eapply list_elem_of_lookup_2|done].
  - specialize (Hh 0%nat Hpos). unfold hdr_at in Hh. rewrite Z.add_0_r in Hh. by rewrite Hh.
Qed.

Section server_inv.
Context `{TTr : Transport} `{!TransportOk} (asserts : bool) (malloc_ok : Z → bool) (junk : Z → Z).
Context (k : call) (Hk : call_ok k) (w0 : list wire_pkt) (E0 : list event) (ptr hdr : Z) (pkts : list (list iovec)).
Implicit Types (r : Rpc) (x : Session) (sl : SSlot) (i : server_info) (l : list wire_pkt) (rcv : nat) (w : list iovec).
#[local] Abbreviation p := (k_server k).
#[local] Abbreviation u := (k_req k).
#[local] Abbreviation n := (req_pkts k).
#[local] Abbreviation m := (resp_pkts k).
#[local] Abbreviation N := (all_pkts k).

Definition server_keeps (a : Z) : Prop := covers (concat pkts) a.
(** The entries of the ring are apart, and the next [j] of them hold nothing of [w]. *)
Definition ring_len r : Z := Z.of_nat (length (rx_ring_ r)).
Definition ring_apart r : Prop := ∀ a (i j : nat) bi bj, rx_ring_ r !! i = Some bi → rx_ring_ r !! j = Some bj → bi ≤ a < bi + kMaxDataPerPkt → bj ≤ a < bj + kMaxDataPerPkt → i = j.
Definition ring_unused r w (j : nat) : Prop :=
  ∀ e a b, 0 ≤ e < Z.of_nat j → rx_ring_ r !! Z.to_nat ((rx_ring_head_ r + e) mod ring_len r) = Some b → covers w a → ¬ (b ≤ a < b + kMaxDataPerPkt).

Record server_rest x sl r : Prop := {
  sv_valid : slot_valid r p x;
  sv_conn : is_connected x = true;
  sv_remote : remote_session_num_ x = Z.of_nat (k_client k).1;
  sv_side : is_client_ sl = false;
  sv_stall : stallq_ r = [];
  sv_func : req_func_arr_ r (k_rt k) = mk_reqfunc (k_func k) kForeground;
  sv_ring : ring_ok r server_keeps
}.
(** Packets of the request have arrived. *)
Record server_req rcv l x sl i r : Prop := {
  sq_rest : server_rest x sl r;
  sq_more : (rcv < n)%nat;
  sq_sent : sent (server_pkt k) rcv l;
  sq_tx : tx_inv r p.1 None (w0 ++ l);
  sq_resp : prepared r ptr hdr (k_resp k) pkts;
  sq_apart : hdrs_apart r hdr (length pkts);
  sq_free : asserts = true → tx_msgbuf_ sl = 0;
  sq_events : events r = E0;
  sq_ring : ring_apart r ∧ Z.of_nat n ≤ ring_len r;
  sq_data : ∃ w, req_state (k_q k) rcv sl i w ∧ (length w ≤ rcv)%nat ∧ data (bytes (mem r)) w = Some (take (rcv * Z.to_nat kMaxDataPerPkt) (u_data u)) ∧ ring_unused r w (n - rcv);
  sq_first : rcv = 0%nat → u64 (cur_req_num_ sl + kSessionReqWindow) = k_q k ∧ ∀ j b, rx_ring_ r !! j = Some b → b ≠ pre_req sl + capacity (iov (dyn_resp_msgbuf_ sl))
}.
(** The handler has been called and has not responded. *)
Record server_call l x sl i r : Prop := {
  sc_rest : server_rest x sl r;
  sc_sent : sent (server_pkt k) (n - 1) l;
  sc_tx : tx_inv r p.1 None (w0 ++ l);
  sc_resp : prepared r ptr hdr (k_resp k) pkts;
  sc_apart : hdrs_apart r hdr (length pkts);
  sc_free : asserts = true → tx_msgbuf_ sl = 0;
  sc_cur : cur_req_num_ sl = k_q k;
  sc_type : si_req_type i = k_rt k;
  sc_num : si_num_rx i = Z.of_nat n;
  sc_events : events r = E0 ++ [Invoke (k_func k) p];
  sc_data : data (bytes (mem r)) (view (iov (dyn_resp_msgbuf_ sl))) = Some (u_data u)
}.
(** It has responded. *)
Record server_resp rcv l x sl i r : Prop := {
  sp_rest : server_rest x sl r;
  sp_range : (n ≤ rcv)%nat;
  sp_sent : sent (server_pkt k) rcv l;
  sp_tx : ∃ h, is_head kResp (k_rt k) (Z.of_nat (k_client k).1) (k_q k) (Z.of_nat m) (k_resp k) h ∧ tx_inv r p.1 (Some (mk_umsg ptr hdr (k_resp k) pkts h)) (w0 ++ l);
  sp_msg : tx_msgbuf_ sl = ptr;
  sp_cur : cur_req_num_ sl = k_q k;
  sp_sav : si_sav_num_req_pkts i = 1;
  sp_num : si_num_rx i = Z.of_nat rcv;
  sp_events : events r = E0 ++ [Invoke (k_func k) p]
}.
Definition server_inv rcv (responded : bool) l r : Prop :=
  ∃ x sl i r0, r = st_at p x sl (ServerInfo i) r0 ∧
    (responded = false ∧ server_req rcv l x sl i r0 ∨ responded = false ∧ rcv = n ∧ server_call l x sl i r0 ∨ responded = true ∧ server_resp rcv l x sl i r0).


Lemma ring_head_next r avoid e : ring_ok r avoid → (next_rx r + e) mod ring_len r = (rx_ring_head_ r + (e + 1)) mod ring_len r.
Proof.
  intros [_ Hhd _]. unfold next_rx, ring_len in *. cbv zeta. destruct (Z.eqb_spec (rx_ring_head_ r + 1) (Z.of_nat (length (rx_ring_ r)))) as [E|E].
  - rewrite Z.add_0_l. rewrite <- (Z.mod_add e 1) by lia. f_equal. lia.
  - f_equal. lia.
Qed.
Lemma ring_unused_rx r avoid w w' j b size h :
  ring_ok r avoid → ring_apart r → Z.of_nat (S j) ≤ ring_len r → ring_unused r w (S j) → rx_ring_ r !! Z.to_nat (rx_ring_head_ r) = Some b →
  appended w b size w' → size ≤ kMaxDataPerPkt → ring_unused (st_rx h r) w' j.
Proof.
  intros HR Hap Hlen Hun Hb Happ Hsize e a y He Hy Hc Hin. change (rx_ring_ r !! Z.to_nat ((next_rx r + e) mod ring_len r) = Some y) in Hy. rewrite (ring_head_next _ _ _ HR) in Hy.
  destruct (appended_covers _ _ _ _ _ Happ Hc) as [Hw|Hbin]; [by apply (Hun (e + 1) a y); [lia|..]|].
  pose proof (Hap a _ _ _ _ Hb Hy ltac:(lia) Hin) as E. destruct HR as [_ Hhd _]. unfold ring_len in *. set (L := Z.of_nat (length (rx_ring_ r))) in *.
  pose proof (Z.mod_pos_bound (rx_ring_head_ r + (e + 1)) L ltac:(lia)). assert (E' : rx_ring_head_ r = (rx_ring_head_ r + (e + 1)) mod L) by lia.
  destruct (decide (rx_ring_head_ r + (e + 1) < L)); [rewrite Z.mod_small in E'; lia|]. rewrite <- (Z.mod_add _ (-1)), Z.mod_small in E'; lia.
Qed.
(** The request stays in the ring while the next packet arrives. *)
Lemma req_data_rx r avoid w j b bs h d :
  ring_ok r avoid → ring_unused r w (S j) → rx_ring_ r !! Z.to_nat (rx_ring_head_ r) = Some b → heap_store b bs (mem r) h → Z.of_nat (length bs) ≤ kMaxDataPerPkt →
  data (bytes (mem r)) w = Some d → data (bytes h) w = Some d.
Proof.
  intros [_ Hhd _] Hun Hb Hst Hlen <-. apply data_ext. intros a Ha. eapply store_outside; [exact Hst|]. intros Hin. apply (Hun 0 a b); [lia| |done|lia].
  unfold ring_len. rewrite Z.add_0_r, Z.mod_small by lia. done.
Qed.
Lemma resp_len r : prepared r ptr hdr (k_resp k) pkts → length pkts = m.
Proof. intros [(s & _ & [Hc _ _ _ _ _ _]) _ _ _ _ _]. unfold resp_pkts, npkts. rewrite <- Hc. lia. Qed.

(** What an arriving packet leaves of the state. *)
Lemma server_rest_rx x sl r b bs h :
  server_rest x sl r → rx_ring_ r !! Z.to_nat (rx_ring_head_ r) = Some b → heap_store b bs (mem r) h → server_rest x sl (st_rx h r).
Proof. intros [] Hb Hst. split; try done. by eapply ring_ok_rx. Qed.
Lemma server_prepared_rx r b bs h :
  prepared r ptr hdr (k_resp k) pkts → ring_ok r server_keeps → rx_ring_ r !! Z.to_nat (rx_ring_head_ r) = Some b → heap_store b bs (mem r) h →
  Z.of_nat (length bs) ≤ kMaxDataPerPkt → prepared (st_rx h r) ptr hdr (k_resp k) pkts.
Proof.
  intros Hp HR Hb Hst Hlen. eapply prepared_ext; [exact Hp|done| |done|]. { rewrite (resp_len r Hp). apply (resp_pkts_pos k Hk). }
  intros a Ha. by eapply rx_outside.
Qed.

(** A request of one packet. *)
Lemma server_rx_small l x sl i r b h :
  server_req 0 l x sl i r → n = 1%nat → rx_ring_ r !! Z.to_nat (rx_ring_head_ r) = Some b →
  heap_store b (chunk 0 (u_data u)) (mem r) h →
  wp (process_small_req_st asserts p (nth_hdr (u_head u) n 0) b) (λ _ r', server_inv 1 false l r') (st_at p x sl (ServerInfo i) (st_rx h r)).
Proof.
  intros [Hrest Hmore Hsent HI Hresp Hap Hfree Hev Hring (w & [Hi Hst] & _) Hfirst] Hn Hb Hstore. pose proof (chunk_le 0 (u_data u)) as Hc. destruct Hst as (_ & Hd & _).
  pose proof (client_data k Hk 0 ltac:(lia)) as Hdat. replace (Z.of_nat n) with 1 in Hdat by lia.
  assert (Hall : chunk 0 (u_data u) = u_data u). { pose proof (req_all k Hk) as Hall. rewrite Hn, Nat.mul_1_l in Hall. unfold chunk. by rewrite Nat.mul_0_l, drop_0. }
  eapply (wp_small_req asserts p); [apply Hrest|exact Hdat|by apply Hfirst|done|apply Hrest|done|]. intros v Hv Hview _. eexists _, _, _, _. split; [done|]. right. left.
  split_and!; [done|by rewrite Hn|]. split; try done.
  - destruct (server_rest_rx _ _ _ _ _ _ Hrest Hb Hstore). split; try done. by eapply ring_ok_ext.
  - by rewrite Hn.
  - apply (tx_inv_same (st_rx h r)); [by split|]. eapply tx_inv_rx; [done|apply Hrest|done|done|done|done].
  - eapply prepared_ext; [eapply server_prepared_rx; [done|apply Hrest|done|done|done]|done| |done|done]. rewrite (resp_len r Hresp). apply (resp_pkts_pos k Hk).
  - cbn. by rewrite Hn.
  - cbn. by rewrite Hev.
  - cbn [dyn_resp_msgbuf_ set_dyn_resp iov set_iov]. rewrite Hview, data_one. cbn [iov_base iov_len]. rewrite Nat2Z.id. rewrite Hall in Hstore. exact (store_load _ _ _ _ Hstore).
Qed.
(** A packet of a larger one. *)
Lemma server_rx_large rcv l x sl i r b h :
  server_req rcv l x sl i r → (1 < n)%nat → rx_ring_ r !! Z.to_nat (rx_ring_head_ r) = Some b →
  heap_store b (chunk rcv (u_data u)) (mem r) h →
  wp (process_large_req_one_st asserts p (nth_hdr (u_head u) n rcv) b) (λ _ r', ∃ l', server_inv (S rcv) false (l ++ l') r') (st_at p x sl (ServerInfo i) (st_rx h r)).
Proof.
  intros [Hrest Hmore Hsent HI Hresp Hap Hfree Hev [Hra Hrl] (w & Hst & Hlen & Hdata & Hun) Hfirst] Hn Hb Hstore. pose proof (chunk_le rcv (u_data u)) as Hc.
  pose proof Hrest as [Hv Hconn Hrem Hside Hstall Hf HR]. pose proof (ko_room k Hk). destruct (ko_client k Hk) as [? _]. pose proof (ko_q k Hk).
  pose proof (server_prepared_rx _ _ _ _ Hresp HR Hb Hstore Hc) as Hresp'. assert (HI' : tx_inv (st_rx h r) p.1 None (w0 ++ l)) by by eapply tx_inv_rx.
  destruct (server_rest_rx _ _ _ _ _ _ Hrest Hb Hstore) as [_ _ _ _ _ _ HR']. assert (Hpos : (0 < length pkts)%nat) by (rewrite (resp_len r Hresp); apply (resp_pkts_pos k Hk)).
  eapply (wp_large_req asserts p); [done|exact HI'|by apply (client_data k Hk)|done|lia|lia|done|exact Hst|done|exact Hf| |].
  { intros E. by eapply (proj2 (Hfirst E)). }
  intros sl' w' Hwr Happ Hvec Hlen' Hne. replace (n - rcv)%nat with (S (n - S rcv)) in Hun by lia.
  assert (Hd' : data (bytes h) w' = Some (take (S rcv * Z.to_nat kMaxDataPerPkt) (u_data u))).
  { rewrite <- take_chunk. eapply appended_data; [exact Happ|lia|eapply req_data_rx; [exact HR|exact Hun|done|done|done|done]|]. rewrite Nat2Z.id. exact (store_load _ _ _ _ Hstore). }
  assert (Hun' : ring_unused (st_rx h r) w' (n - S rcv)) by (eapply ring_unused_rx; [exact HR|done|lia|exact Hun|done|exact Happ|done]).
  assert (Hsl : cur_req_num_ sl' = k_q k ∧ is_client_ sl' = false ∧ tx_msgbuf_ sl' = tx_msgbuf_ sl) by (destruct Hwr as [v ->]; done). destruct Hsl as (Hcur & Hside' & Htx'). split.
  - intros Hmr bt wr hs hd y Hy Hfr HI2. exists [y]. eexists _, _, _, _. split; [done|]. left. split; [done|]. split; try done.
    + split; try done. by eapply ring_ok_ext.
    + apply sent_snoc; [done|]. split; [|lia]. intros _. by rewrite <- Hrem.
    + by rewrite app_assoc.
    + eapply prepared_ext; [exact Hresp'|done|done| |done]. intros j Hj. apply Hfr. intros j' Hj'. by apply Hap.
    + by rewrite Htx'.
    + exists w'. split_and!; try done. destruct Hst as [Hi _]. split; [done|]. rewrite bool_decide_eq_false_2 by lia. done.
  - intros E. exists []. rewrite app_nil_r. eexists _, _, _, _. split; [done|]. right. left. split_and!; [done|done|]. split; try done.
    + split; try done. by eapply ring_ok_ext.
    + by replace (n - 1)%nat with rcv by lia.
    + by apply (tx_inv_same (st_rx h r)).
    + by eapply prepared_ext.
    + by rewrite Htx'.
    + cbn. by rewrite Hev.
    + destruct Hvec as (_ & _ & -> & _). rewrite E, (req_all k Hk) in Hd'. exact Hd'.
Qed.

(** The packets of the response. *)
Lemma resp_user_pkt h j jj : is_head kResp (k_rt k) (Z.of_nat (k_client k).1) (k_q k) (Z.of_nat m) (k_resp k) h → length pkts = m → (n ≤ S jj)%nat → j = (S jj - n)%nat → (j < m)%nat →
  server_pkt k jj (user_pkt p.1 (mk_umsg ptr hdr (k_resp k) pkts h) j).
Proof.
  intros Hh Hl Hge -> Hj. split; [lia|]. intros _. cbn [user_pkt w_hdr w_body u_head u_pkts u_data]. split; [|done]. rewrite Hl. destruct (ko_resp k Hk). pose proof (ko_room k Hk).
  apply nth_hdr_data; [done|by apply resp_pkts_npkts|lia|lia|done|done].
Qed.
Lemma server_respond l r key :
  0 < Z.of_nat n → server_inv n false l r →
  wp (enqueue_response asserts p ptr key hdr 0) (λ _ r', ∃ l', server_inv n true (l ++ l') r') r.
Proof.
  intros Hn (x & sl & i & r0 & -> & [[_ Hq]|[(_ & _ & Hc)|[? _]]]); [destruct Hq; lia| |done].
  destruct Hc as [[Hv Hconn Hrem Hside Hstall Hf HR] Hsent HI Hresp Hap Hfree Hcur Hty Hnum Hev Hdata]. pose proof (resp_len _ Hresp) as Hlen. pose proof (resp_pkts_pos k Hk).
  destruct (ko_client k Hk) as [? _]. eapply (wp_enqueue_response asserts p (k_rt k) (k_q k)); [done|done|exact HI|exact Hresp|done|done|apply (ko_rt k Hk)|lia|done|apply (ko_q k Hk)|done|].
  intros bt wr hs s h Hh uu r' HI'. eexists [_], _, _, _, _. split; [done|]. right. right. split; [done|]. rewrite Hrem, Hlen in Hh. split; try done.
  - split; try done. by eapply ring_ok_ext.
  - replace n with (S (n - 1)) at 1 by lia. apply sent_snoc; [done|]. apply (resp_user_pkt h 0); [exact Hh|done|lia|lia|lia].
  - exists h. split; [done|]. by rewrite app_assoc.
Qed.
Lemma server_rx_rfr rcv l x sl i r (w : wire_pkt) b h :
  server_resp rcv l x sl i r → (rcv < N)%nat → client_pkt k rcv w → rx_ring_ r !! Z.to_nat (rx_ring_head_ r) = Some b →
  heap_store b (w_body w) (mem r) h →
  wp (process_rfr_st asserts p (w_hdr w)) (λ _ r', ∃ l', server_inv (S rcv) true (l ++ l') r') (st_at p x sl (ServerInfo i) (st_rx h r)).
Proof.
  intros [Hrest Hge Hsent (hd & Hh & HI) Hmsg Hcur Hsav Hnum Hev] Hlt Hw Hb Hstore. destruct (client_pkt_rx k Hk rcv w Hw) as (_ & Hreq & _ & Hc). pose proof (ko_room k Hk).
  destruct (proj2 Hw Hge) as [_ _ _ Hpn _ _ _]. pose proof (proj1 (ti_msg _ _ _ _ HI)) as Hm. pose proof (me_total _ _ _ _ _ _ Hm) as Hlen. cbn in Hlen. rewrite (ih_total _ _ _ _ _ _ _ Hh) in Hlen.
  pose proof Hrest as [Hv Hconn Hrem Hside Hstall Hf HR]. unfold all_pkts in Hlt. pose proof (req_pkts_pos k Hk). pose proof (resp_pkts_pos k Hk).
  eapply (wp_process_rfr asserts p (mk_umsg ptr hdr (k_resp k) pkts hd) (S rcv - n)); [done|done| |done|done|lia|done|cbn; lia|cbn; lia|lia|].
  { eapply tx_inv_rx; [exact HI|exact HR| |done|done|done]. by intros ? a [= <-] Ha. }
  intros bt wr HI'. eexists [_], _, _, _, _. split; [done|]. right. right. split; [done|]. split; try done.
  - destruct (server_rest_rx _ _ _ _ _ _ Hrest Hb Hstore). split; try done. by eapply ring_ok_ext.
  - lia.
  - apply sent_snoc; [done|]. apply resp_user_pkt; [done|lia|lia|done|lia].
  - exists hd. split; [done|]. by rewrite app_assoc.
  - cbn [si_num_rx set_si_num_rx]. lia.
Qed.

(** Every packet of the client leads to the next state; requests for response come
    after the response. *)
Lemma server_rx rcv rs l r (w : wire_pkt) :
  server_inv rcv rs l r → (rcv < N)%nat → ((n ≤ rcv)%nat → rs = true) → client_pkt k rcv w →
  wp (process_pkt asserts malloc_ok junk (w_hdr w) (w_body w)) (λ _ r', ∃ l', server_inv (S rcv) rs (l ++ l') r') r.
Proof.
  intros (x & sl & i & r0 & -> & HS) Hlt Hrs Hw. destruct (client_pkt_rx k Hk rcv w Hw) as (Hdest & Hreq & Hsize & Hlen). destruct (ko_server k Hk) as [_ Hslot].
  assert (Hrest : server_rest x sl r0). { destruct HS as [[_ HS]|[(_ & _ & HS)|[_ HS]]]; apply HS. } pose proof Hrest as [Hv Hconn _ _ _ _ HR].
  eapply wp_process_pkt; [exact HR|done|done|done|by rewrite Hreq|done|done|]. intros b h Hb Hst _. unfold dispatch. pose proof (req_pkts_pos k Hk).
  destruct HS as [[-> HS]|[(-> & -> & _)|[-> HS]]]; [|by specialize (Hrs (Nat.le_refl _))|].
  - pose proof (sq_more _ _ _ _ _ _ HS) as Hmore. rewrite (proj1 Hw Hmore) in *. cbn [w_hdr w_body user_pkt] in *. fold n. destruct (client_data k Hk rcv Hmore) as [-> _ _ _ _ _ -> _].
    pose proof (req_small k Hk) as Hsm. destruct (Z.leb_spec (Z.of_nat (length (u_data u))) kMaxDataPerPkt) as [Hle|Hgt].
    + apply Hsm in Hle. assert (rcv = 0%nat) by lia. subst rcv. eapply wq_mono; [by eapply server_rx_small|]. intros ? r' HI. exists []. by rewrite app_nil_r.
    + eapply server_rx_large; [done| |done|done]. destruct (decide (n = 1%nat)) as [E|E]; [apply Hsm in E; lia|lia].
  - pose proof (sp_range _ _ _ _ _ _ HS). destruct (proj2 Hw ltac:(lia)) as [_ _ -> _ _ _ _]. by eapply server_rx_rfr.
Qed.
Lemma server_drain rcv rs l r Q :
  server_inv rcv rs l r → (∀ r', wire r' = w0 ++ l → tx_burst_arr_ r' = [] → server_inv rcv rs l r' → Q tt r') → wp (drain_tx_batch asserts) Q r.
Proof.
  intros (x & sl & i & r0 & -> & HS) HQ.
  assert (HI : ∃ T, tx_inv r0 p.1 T (w0 ++ l)). { destruct HS as [[_ []]|[(_ & _ & [])|[_ [? ? ? (h & _ & ?) _ _ _ _ _]]]]; by eexists. } destruct HI as [T HI].
  eapply wp_drain; [apply (ti_out _ p.1 T), tx_inv_at, HI|]. apply HQ; [done|done|]. eexists x, sl, i, (st_tx [] (w0 ++ l) r0). split; [done|]. clear HI HQ T.
  assert (Hsr : server_rest x sl r0 → server_rest x sl (st_tx [] (w0 ++ l) r0)) by (intros []; split; try done; by eapply ring_ok_ext).
  assert (Hpr : prepared r0 ptr hdr (k_resp k) pkts → prepared (st_tx [] (w0 ++ l) r0) ptr hdr (k_resp k) pkts).
  { intros Hp. eapply prepared_ext; [done|done| |done|done]. rewrite (resp_len r0 Hp). apply (resp_pkts_pos k Hk). }
  destruct HS as [[-> HS]|[(-> & -> & HS)|[-> HS]]]; [left|right; left|right; right].
  - destruct HS. split; [done|]. split; try done; [by apply Hsr|by apply tx_inv_sent|by apply Hpr].
  - destruct HS. split_and!; [done|done|]. split; try done; [by apply Hsr|by apply tx_inv_sent|by apply Hpr].
  - destruct HS as [? ? ? (h & ? & ?) ? ? ? ? ?]. split; [done|]. split; try done; [by apply Hsr|]. exists h. split; [done|by apply tx_inv_sent].
Qed.
(** The clock of the event loop. *)
Lemma server_tsc rcv rs l r tsc : server_inv rcv rs l r → server_inv rcv rs l (set_ev_loop_tsc tsc r).
Proof.
  intros (x & sl & i & r0 & -> & HS). eexists x, sl, i, (set_ev_loop_tsc tsc r0). split; [done|].
  assert (Hsr : server_rest x sl r0 → server_rest x sl (set_ev_loop_tsc tsc r0)) by (intros []; split; try done; by eapply ring_ok_ext).
  assert (Hpr : prepared r0 ptr hdr (k_resp k) pkts → prepared (set_ev_loop_tsc tsc r0) ptr hdr (k_resp k) pkts) by (intros []; by split).
  assert (Htx : ∀ T, tx_inv r0 p.1 T (w0 ++ l) → tx_inv (set_ev_loop_tsc tsc r0) p.1 T (w0 ++ l)) by (intros T; by apply tx_inv_same).
  destruct HS as [[-> HS]|[(-> & -> & HS)|[-> HS]]]; [left|right; left|right; right].
  - destruct HS. split; [done|]. split; try done; [by apply Hsr|by apply Htx|by apply Hpr].
  - destruct HS. split_and!; [done|done|]. split; try done; [by apply Hsr|by apply Htx|by apply Hpr].
  - destruct HS as [? ? ? (h & ? & ?) ? ? ? ? ?]. split; [done|]. split; try done; [by apply Hsr|]. exists h. split; [done|by apply Htx].
Qed.
(** The packets the server has sent. *)
Definition answers rcv (rs : bool) : nat := if rs then rcv else Nat.min rcv (n - 1).
Lemma server_facts rcv rs l r : server_inv rcv rs l r →
  sent (server_pkt k) (answers rcv rs) l ∧ stallq_ r = [] ∧ out r (w0 ++ l) ∧ (rs = true → n ≤ rcv)%nat ∧
  (rs = false → rcv ≤ n)%nat ∧ events r = E0 ++ (if bool_decide (n ≤ rcv)%nat then [Invoke (k_func k) p] else []).
Proof.
  intros (x & sl & i & r0 & -> & HS). pose proof (req_pkts_pos k Hk). unfold answers. destruct HS as [[-> HS]|[(-> & -> & HS)|[-> HS]]].
  - destruct HS as [[]]. rewrite bool_decide_eq_false_2 by lia. rewrite app_nil_r, Nat.min_l by lia. split_and!; try done; [apply (ti_out _ p.1 None); by apply tx_inv_at|lia].
  - destruct HS as [[]]. rewrite bool_decide_eq_true_2 by lia. rewrite Nat.min_r by lia. split_and!; try done. apply (ti_out _ p.1 None); by apply tx_inv_at.
  - destruct HS as [[] ? ? (h & _ & ?) ? ? ? ? ?]. rewrite bool_decide_eq_true_2 by lia. split_and!; try done. eapply (ti_out _ p.1). by apply tx_inv_at.
Qed.
End server_inv.

(** * The start of an RPC

    [enqueue_request] on an idle session: the request gets a slot and headers, joins the
    list of active RPCs, and as many of its packets as there are credits go out. *)

Section enqueue.
Context `{TTr : Transport} `{!TransportOk} (asserts : bool).
Context (k : call) (Hk : call_ok k) (w0 : list wire_pkt) (E0 : list event) (key : Z).
Implicit Types (r : Rpc) (x : Session) (sl : SSlot) (c : client_info).
#[local] Abbreviation p := (k_client k).
#[local] Abbreviation u := (k_req k).
#[local] Abbreviation n := (req_pkts k).

(** An idle session whose next free slot is the one of the call, and the message. *)
Record client_ready x sl c r : Prop := {
  cr_valid : slot_valid r p x;
  cr_client : is_client x = true;
  cr_conn : is_connected x = true;
  cr_remote : remote_session_num_ x = Z.of_nat (k_server k).1;
  cr_backlog : enq_req_backlog_ x = [];
  cr_free : ∃ f, sslot_free_vec_ x = Z.of_nat p.2 :: f ∧ Z.of_nat (length f) < kSessionReqWindow;
  cr_credits : credits_ x = kSessionCredits;
  cr_msg : asserts = true → tx_msgbuf_ sl = 0;
  cr_cur : u64 (cur_req_num_ sl + kSessionReqWindow) = k_q k;
  cr_wheel : ci_wheel_count c = 0;
  cr_active : tail_prev r = Some Root;
  cr_stall : stallq_ r = [];
  cr_events : events r = E0;
  cr_tx : tx_inv r p.1 None w0;
  cr_req : prepared r (u_ptr u) (u_hdr u) (u_data u) (u_pkts u);
  cr_head : ∃ h, hdrs r !! u_hdr u = Some h ∧
    u_head u = fill_hdr (k_rt k) (Z.of_nat (length (u_data u))) (Z.of_nat (k_server k).1) kReq 0 (k_q k) key kMaxDataPerPkt h;
  cr_apart : hdrs_apart r (u_hdr u) n;
  cr_buf : dyn_ok (iov (dyn_resp_msgbuf_ sl));
  cr_ring : ring_ok r (covers (concat (u_pkts u)))
}.

Lemma wp_add_first F x sl c r Q :
  slot_valid r p x → tail_prev r = Some Root →
  Q tt (st_at p x sl (ClientInfo (set_ci_next (Some Tail) (set_ci_prev (Some Root) c))) (set_tail_prev (Some (Slot p)) (set_root_next (Some (Slot p)) r))) →
  wq F (add_to_active_rpc_list p) Q (st_at p x sl (ClientInfo c) r).
Proof.
  intros Hv Ht HQ. unfold add_to_active_rpc_list. do 2 wstep. change (tail_prev (st_at p x sl (ClientInfo c) r)) with (tail_prev r). rewrite Ht. cbn [set_next set_prev].
  do 2 wstep. change (set_root_next ?v (st_at p x sl ?i r)) with (st_at p x sl i (set_root_next v r)). wstep. apply wq_at_upd_ci; [done|]. wstep. apply wq_at_upd_ci; [done|]. wstep. exact HQ.
Qed.
Lemma client_start x sl c r :
  client_ready x sl c r →
  wp (enqueue_request asserts (Z.of_nat p.1) (k_rt k) (u_ptr u) (k_rb k) (k_cf k) (k_tg k) key (u_hdr u) 0 kInvalidBgETid)
    (λ _ r', ∃ tx l, client_inv k w0 E0 0 tx l r') (st_at p x sl (ClientInfo c) r).
Proof.
  intros [Hv Hcl Hconn Hrem Hback (f & Hfv & Hf) Hcred Hmsg Hcur Hwh Hact Hst Hev HI Hreq (h & Hh & Hhd) Hap Hbuf HR].
  pose proof Hreq as [(s & Hs & Hpk) _ (h0 & Hh0 & Ht0) _ _ _]. rewrite Hh in Hh0. injection Hh0 as <-. fold n in Ht0. pose proof (req_pkts_pos k Hk). pose proof (ko_room k Hk).
  unfold enqueue_request. rewrite !Nat2Z.id. wstep. apply wq_at_get_session; [done|]. wstep. apply wq_assert_d; [done|]. cbn [sslot_free_vec_ with_slot set_sslot_arr]. rewrite Hfv.
  rewrite bool_decide_eq_false_2 by done. unfold pop_free. wstep. wstep. apply wq_at_get_session; [done|]. cbn [sslot_free_vec_ with_slot set_sslot_arr]. rewrite Hfv. wstep.
  change (set_free_vec f (with_slot p.2 (set_info (ClientInfo c) sl) x)) with (with_slot p.2 (set_info (ClientInfo c) sl) (set_free_vec f x)).
  apply wq_at_put_session. wstep. rewrite Nat2Z.id. replace (p.1, p.2) with p by by destruct p. set (x1 := set_free_vec f x).
  wstep. apply wq_at_get_sslot; [done|]. wstep. apply wq_assert_d; [intros E; cbn; by rewrite (Hmsg E)|]. wstep. apply wq_at_upd_sslot; [done|done|].
  cbv beta. cbn [cur_req_num_ set_tx_msgbuf]. rewrite Hcur. cbn [Z.eqb]. do 2 wstep. do 2 wstep. wstep. apply wq_at_upd_ci; [done|]. wstep. apply wp_add_first; [done|done|].
  change (ev_loop_tsc_ (st_at p x1 ?s ?i r)) with (ev_loop_tsc_ r). set (c1 := set_ci_next _ _). set (sl1 := set_cur_req_num _ _). set (r1 := set_tail_prev _ _).
  assert (HI1 : tx_inv r1 p.1 None w0) by by apply (tx_inv_same r).
  wstep. eapply wq_get_hdr; [exact Hh|]. wstep. eapply wq_get_msgbuf; [exact Hs|]. wstep. eapply wq_lift_ok; [by eapply prepared_sum|]. wstep. apply wq_at_get_sslot; [done|].
  wstep. apply wq_put_hdr; [by eexists|]. cbn [remote_session_num_ with_slot set_sslot_arr cur_req_num_ set_info sl1 set_cur_req_num]. rewrite Hrem, <- Hhd. wstep.
  assert (Hreq1 : prepared (st_at p x1 sl1 (ClientInfo c1) r1) (u_ptr u) (u_hdr u) (u_data u) (u_pkts u)) by (destruct Hreq; by split).
  pose proof (ko_head k Hk) as [_ _ _ _ _ G6 G7 G8].
  set (r0 := st_at p x1 sl1 (ClientInfo c1) r1) in *.
  apply (wp_new_message r0 p.1 w0 (u_ptr u) (u_hdr u) (u_data u) (u_pkts u) (u_head u)); [done|by apply tx_inv_at|done|done|done|done|]. intros hs s2 Hfr HI2.
  set (r2 := set_msgbufs (<[u_ptr u := s2]> (msgbufs r)) (set_hdrs hs r1)).
  change (set_msgbufs _ (set_hdrs hs r0)) with (st_at p x1 sl1 (ClientInfo c1) r2) in *. apply tx_inv_at in HI2.
  replace (mk_umsg _ _ _ _ _) with u in HI2 by by destruct u. wstep. apply wq_at_get_session; [done|]. cbn [credits_ with_slot set_sslot_arr x1 set_free_vec]. rewrite Hcred. cbn [Z.ltb].
  eapply (wp_kick_req asserts p u); [done|done|exact HI2|fold n; lia|fold n; cbn; lia|cbn; rewrite Hcred; done|]. fold n. cbn [credits_ x1 set_free_vec ci_num_tx c1 set_ci_next set_ci_prev set_ci_request]. rewrite Hcred.
  intros j bt wr Hj HI3. exists j, (user_pkt p.1 u <$> seq 0 j). eexists _, _, _, _. split; [done|]. left. pose proof (all_pkts_ge k Hk). unfold kSessionCredits in Hj.
  assert (Hlim : (j ≤ n)%nat) by lia. split; try done.
  - cbn [credits_ set_credits]. unfold kSessionCredits. lia.
  - eexists. unfold set_ci_num_tx, c1. cbn. rewrite Hwh. f_equal; lia.
  - split; [by rewrite length_fmap, length_seq|]. by apply (user_run k 0).
  - unfold flow, tx_limit. rewrite bool_decide_eq_true_2 by lia. lia.
  - lia.
  - by rewrite bool_decide_eq_true_2 by lia.
  - eapply ring_ok_ext; [exact HR|done..|]. intros a [?|[? _]]; [done|lia].
  - lia.
Qed.
End enqueue.
