(* ===== verification/RpcSystem.v ===== *)
(** * A client and a server

    Two endpoints joined by channels that keep the order of packets, as a reliable
    connection does.  A label is a step of one of them: the end of an iteration of its
    event loop, the arrival of the next packet, or the response of the application.  An
    iteration of [run_event_loop_do_one_st] is a number of arrivals and one such end, and
    the application may respond at any time after the call of its handler. *)

From S2P Require Import Prelude IoVector IoVectorSpec IoVectorClass IoVectorOps Serializer SerializerSer SerializerPkts RpcTypes Rpc RpcState RpcTx RpcKick RpcHandlers RpcClientInv RpcServerInv.

(** [to_sv] and [to_cl] count the packets that have been delivered, [handled] the calls
    the server's application has dealt with. *)
Record sys : Type := mk_sys { cl : Rpc; sv : Rpc; to_sv : nat; to_cl : nat; handled : nat }.
Inductive label : Type := ClientTurn (tsc : Z) | ServerTurn (tsc : Z) | ClientRx | ServerRx | Respond.
(** What the application responds with: the message, its key and its headers. *)
Record reply : Type := mk_reply { rp_msg : Z; rp_key : Z; rp_hdr : Z }.

Section system.
Context `{TTr : Transport} (asserts : bool) (malloc_ok : Z → bool) (junk : Z → Z) (answer : Z → reply).
Implicit Types (s : sys) (r : Rpc).

Definition turn (tsc : Z) : M Rpc unit :=
  process_credit_stall_queue_st asserts ;; drain_tx_batch asserts ;; modify (set_ev_loop_tsc tsc).
Definition exec (m : M Rpc unit) (r : Rpc) : outcome Rpc := match m r with Ok (_, r) => Ok r | Fault e => Fault e end.
Definition sys_step (l : label) (s : sys) : outcome sys :=
  match l with
  | ClientTurn tsc => r ← exec (turn tsc) (cl s); Ok (mk_sys r (sv s) (to_sv s) (to_cl s) (handled s))
  | ServerTurn tsc => r ← exec (turn tsc) (sv s); Ok (mk_sys (cl s) r (to_sv s) (to_cl s) (handled s))
  | ClientRx =>
      match wire (sv s) !! to_cl s with
      | None => Ok s
      | Some w => r ← exec (process_pkt asserts malloc_ok junk (w_hdr w) (w_body w)) (cl s); Ok (mk_sys r (sv s) (to_sv s) (S (to_cl s)) (handled s))
      end
  | ServerRx =>
      match wire (cl s) !! to_sv s with
      | None => Ok s
      | Some w => r ← exec (process_pkt asserts malloc_ok junk (w_hdr w) (w_body w)) (sv s); Ok (mk_sys (cl s) r (S (to_sv s)) (to_cl s) (handled s))
      end
  | Respond =>
      match events (sv s) !! handled s with
      | Some (Invoke f p) =>
          let a := answer f in
          r ← exec (enqueue_response asserts p (rp_msg a) (rp_key a) (rp_hdr a) 0) (sv s); Ok (mk_sys (cl s) r (to_sv s) (to_cl s) (S (handled s)))
      | Some _ => Ok (mk_sys (cl s) (sv s) (to_sv s) (to_cl s) (S (handled s)))
      | None => Ok s
      end
  end.
Fixpoint run (ls : list label) (s : sys) : outcome sys :=
  match ls with [] => Ok s | l :: ls => s ← sys_step l s; run ls s end.

(** An iteration of the event loop, and the clock of the next one. *)
Lemma event_loop_turn tsc tsc' pkts r :
  (run_event_loop_do_one_st asserts malloc_ok junk tsc pkts ;; modify (set_ev_loop_tsc tsc')) r =
  (modify (set_ev_loop_tsc tsc) ;; process_comps_st asserts malloc_ok junk pkts ;; turn tsc') r.
Proof.
  unfold run_event_loop_do_one_st, turn, drain_tx_batch, gets, get, mbind, M_bind. cbn. destruct (process_comps_st _ _ _ _ _) as [[[] r1]|]; [|done].
  destruct (process_credit_stall_queue_st asserts r1) as [[[] r2]|]; [|done]. done.
Qed.
Lemma exec_wp (m : M Rpc unit) (P : Rpc → Prop) r : wp m (λ _ r', P r') r → ∃ r', m r = Ok (tt, r') ∧ exec m r = Ok r' ∧ P r'.
Proof. intros (a & r' & E & HP)%wp_iff. destruct a. exists r'. unfold exec. by rewrite E. Qed.
Lemma run_app ls1 ls2 s s1 : run ls1 s = Ok s1 → run (ls1 ++ ls2) s = run ls2 s1.
Proof.
  revert s. induction ls1 as [|l ls1 IH]; intros s; cbn [run app]; [by intros [= ->]|]. unfold mbind, outcome_bind. destruct (sys_step l s); [|done]. apply IH.
Qed.
End system.

(** * Runs of the two endpoints

    The joint invariant of client and server, that every step keeps it and makes no count
    smaller, and that as long as the RPC is not over some kind of step makes progress. *)

(** The counts of a system: packets on the wire and packets enqueued on each side, packets
    delivered, and calls handled. *)
Record obs : Type := mk_obs { o_wc : nat; o_tc : nat; o_ws : nat; o_ts : nat; o_sv : nat; o_cl : nat; o_h : nat }.
Definition observe (s : sys) : obs :=
  mk_obs (length (wire (cl s))) (length (wire (cl s)) + length (tx_burst_arr_ (cl s))) (length (wire (sv s))) (length (wire (sv s)) + length (tx_burst_arr_ (sv s)))
    (to_sv s) (to_cl s) (handled s).
Definition obs_le (a b : obs) : Prop :=
  (o_wc a ≤ o_wc b ∧ o_tc a ≤ o_tc b ∧ o_ws a ≤ o_ws b ∧ o_ts a ≤ o_ts b ∧ o_sv a ≤ o_sv b ∧ o_cl a ≤ o_cl b ∧ o_h a ≤ o_h b)%nat.
Definition total (a : obs) : nat := o_wc a + o_tc a + o_ws a + o_ts a + o_sv a + o_cl a + o_h a.
#[global] Instance obs_le_preorder : PreOrder obs_le.
Proof. split; [intros []|intros [] [] []]; unfold obs_le; cbn; lia. Qed.
Lemma obs_le_total a b : obs_le a b → (total a ≤ total b)%nat.
Proof. destruct a, b. unfold obs_le, total. cbn. lia. Qed.
Lemma obs_le_eq a b : obs_le a b → (total b ≤ total a)%nat → a = b.
Proof. destruct a, b. unfold obs_le, total. cbn. intros. f_equal; lia. Qed.

Inductive kind : Type := KClientTurn | KServerTurn | KClientRx | KServerRx | KRespond.
#[global] Instance kind_eq_dec : EqDecision kind.
Proof. solve_decision. Defined.
Definition kind_of (l : label) : kind :=
  match l with ClientTurn _ => KClientTurn | ServerTurn _ => KServerTurn | ClientRx => KClientRx | ServerRx => KServerRx | Respond => KRespond end.

Lemma out_prefix `{Transport} r l : out r l → wire r `prefix_of` l ∧ length l = (length (wire r) + length (tx_burst_arr_ r))%nat.
Proof. intros (ws & Hf & ->). split; [by eexists|]. by rewrite length_app, (Forall2_length _ _ _ Hf). Qed.
Lemma wire_at `{Transport} r w0 l i w : out r (w0 ++ l) → wire r !! (length w0 + i)%nat = Some w → l !! i = Some w.
Proof.
  intros [Hp _]%out_prefix Hw. eapply prefix_lookup_Some in Hw; [|exact Hp]. rewrite lookup_app_r in Hw by lia. by replace (length w0 + i - length w0)%nat with i in Hw by lia.
Qed.

Section inv.
Context `{TTr : Transport} `{!TransportOk} (asserts : bool) (malloc_ok : Z → bool) (junk : Z → Z) (answer : Z → reply).
Context (k : call) (Hk : call_ok k) (wc0 ws0 : list wire_pkt) (Ec Es : list event) (ptr key hdr : Z) (pkts : list (list iovec)).
Context (Hmal : malloc_ok (Z.of_nat (length (k_resp k))) = true) (Hans : answer (k_func k) = mk_reply ptr key hdr).
Implicit Types (s : sys) (rcv tx srv : nat) (rs : bool) (lc ls : list wire_pkt).
#[local] Abbreviation n := (req_pkts k).
#[local] Abbreviation N := (all_pkts k).
#[local] Abbreviation step := (sys_step asserts malloc_ok junk answer).

Record sys_inv rcv tx srv rs lc ls s : Prop := {
  si_cl : client_inv k wc0 Ec rcv tx lc (cl s);
  si_sv : server_inv asserts k ws0 Es ptr hdr pkts srv rs ls (sv s);
  si_to_sv : to_sv s = (length wc0 + srv)%nat;
  si_to_cl : to_cl s = (length ws0 + rcv)%nat;
  si_handled : handled s = (length Es + if rs then 1 else 0)%nat;
  si_srv : (srv ≤ length (wire (cl s)) - length wc0)%nat;
  si_rcv : (rcv ≤ length (wire (sv s)) - length ws0)%nat
}.
Definition inv s : Prop := ∃ rcv tx srv rs lc ls, sys_inv rcv tx srv rs lc ls s.

(** How far the counts are apart. *)
Lemma sys_facts rcv tx srv rs lc ls s : sys_inv rcv tx srv rs lc ls s →
  let o := observe s in
  (o_tc o = length wc0 + tx ∧ o_ts o = length ws0 + answers k srv rs ∧ o_wc o ≤ o_tc o ∧ o_ws o ≤ o_ts o ∧ srv ≤ tx ∧ rcv ≤ answers k srv rs ∧ tx ≤ N ∧ rcv ≤ N)%nat ∧
  ((n < tx)%nat → rs = true) ∧ (tx = rcv → rcv = N).
Proof.
  intros [Hc Hs Hsv Hcl Hh Hsrv Hrcv]. destruct (client_facts k Hk wc0 Ec _ _ _ _ Hc) as ([Hlc _] & _ & Ho & Hf & HN & Hend).
  destruct (server_facts asserts k Hk ws0 Es ptr hdr pkts _ _ _ _ Hs) as ([Hls _] & _ & Ho' & H1 & H2 & _).
  apply out_prefix in Ho as [Hp Hl], Ho' as [Hp' Hl']. rewrite length_app in Hl, Hl'. apply prefix_length in Hp, Hp'. rewrite length_app in Hp, Hp'.
  pose proof (all_pkts_ge k Hk). unfold tx_limit in Hf. cbn [observe o_tc o_ts o_wc o_ws]. unfold answers in *. split_and!; try lia; try done; [case_bool_decide; lia|].
  intros Htx. destruct rs; [done|]. case_bool_decide; [lia|]. lia.
Qed.

(** The end of an iteration sends what is enqueued. *)
Lemma wp_turn tsc r l (P : Rpc → Prop) :
  stallq_ r = [] → (∀ Q, (∀ r', wire r' = l → tx_burst_arr_ r' = [] → P r' → Q tt r') → wp (drain_tx_batch asserts) Q r) → (∀ r', P r' → P (set_ev_loop_tsc tsc r')) →
  wp (turn asserts tsc) (λ _ r', wire r' = l ∧ tx_burst_arr_ r' = [] ∧ P r') r.
Proof.
  intros Hst Hd Ht. unfold turn, process_credit_stall_queue_st. wstep. do 2 wstep. rewrite Hst. cbn [stall_queue_loop]. do 3 wstep. replace (set_stallq [] r) with r by (rewrite <- Hst; by destruct r).
  wstep. apply Hd. intros r' Hw Hb HP. wstep. split_and!; [done|done|by apply Ht].
Qed.
(** A step of one side in the joint state. *)
Lemma extends_wire r r' : extends r r' → (length (wire r) ≤ length (wire r'))%nat.
Proof. intros [Hp _]. by apply prefix_length. Qed.

Lemma step_ClientTurn tsc rcv tx srv rs lc ls s : sys_inv rcv tx srv rs lc ls s →
  ∃ s', step (ClientTurn tsc) s = Ok s' ∧ sys_inv rcv tx srv rs lc ls s' ∧ obs_le (observe s) (observe s') ∧ o_wc (observe s') = o_tc (observe s).
Proof.
  intros Hinv. pose proof Hinv as [Hc Hs Hsv Hcl Hh Hsrv Hrcv]. destruct (sys_facts _ _ _ _ _ _ _ Hinv) as ((Htc & Hts & Hwc & _) & _).
  destruct (client_facts k Hk wc0 Ec _ _ _ _ Hc) as ([Hlc _] & Hst & _).
  destruct (exec_wp (turn asserts tsc) _ (cl s) (wp_turn tsc (cl s) (wc0 ++ lc) (client_inv k wc0 Ec rcv tx lc) Hst (λ Q, client_drain asserts k wc0 Ec rcv tx lc (cl s) Q Hc) (λ r', client_tsc k wc0 Ec rcv tx lc r' tsc))) as (r' & _ & E & Hw & Hb & Hc').
  assert (Hlen : length (wire r') = (length wc0 + tx)%nat) by (by rewrite Hw, length_app, Hlc).
  eexists. cbn [sys_step]. rewrite E. split; [done|]. cbn [observe o_wc o_tc o_ws o_ts] in *. split_and!; [split; cbn; try done; lia| |cbn; lia].
  unfold obs_le. cbn. rewrite Hb. cbn. lia.
Qed.
Lemma step_ServerTurn tsc rcv tx srv rs lc ls s : sys_inv rcv tx srv rs lc ls s →
  ∃ s', step (ServerTurn tsc) s = Ok s' ∧ sys_inv rcv tx srv rs lc ls s' ∧ obs_le (observe s) (observe s') ∧ o_ws (observe s') = o_ts (observe s).
Proof.
  intros Hinv. pose proof Hinv as [Hc Hs Hsv Hcl Hh Hsrv Hrcv]. destruct (sys_facts _ _ _ _ _ _ _ Hinv) as ((Htc & Hts & Hwc & Hws & _) & _).
  destruct (server_facts asserts k Hk ws0 Es ptr hdr pkts _ _ _ _ Hs) as ([Hls _] & Hst & _).
  destruct (exec_wp (turn asserts tsc) _ (sv s) (wp_turn tsc (sv s) (ws0 ++ ls) (server_inv asserts k ws0 Es ptr hdr pkts srv rs ls) Hst
    (λ Q, server_drain asserts k Hk ws0 Es ptr hdr pkts srv rs ls (sv s) Q Hs) (λ r', server_tsc asserts k ws0 Es ptr hdr pkts srv rs ls r' tsc))) as (r' & _ & E & Hw & Hb & Hc').
  assert (Hlen : length (wire r') = (length ws0 + answers k srv rs)%nat) by (by rewrite Hw, length_app, Hls).
  eexists. cbn [sys_step]. rewrite E. split; [done|]. cbn [observe o_wc o_tc o_ws o_ts] in *. split_and!; [split; cbn; try done; lia| |cbn; lia].
  unfold obs_le. cbn. rewrite Hb. cbn. lia.
Qed.
(** The next packet of the client, if there is one. *)
Lemma step_ServerRx rcv tx srv rs lc ls s : sys_inv rcv tx srv rs lc ls s →
  ∃ s' srv' ls', step ServerRx s = Ok s' ∧ sys_inv rcv tx srv' rs lc ls' s' ∧ obs_le (observe s) (observe s') ∧
    ((o_sv (observe s) < o_wc (observe s))%nat → o_sv (observe s') = S (o_sv (observe s))).
Proof.
  intros Hinv. pose proof Hinv as [Hc Hs Hsv Hcl Hh Hsrv Hrcv]. cbn [sys_step]. destruct (wire (cl s) !! to_sv s) as [w|] eqn:Ew.
  2:{ exists s, srv, ls. split_and!; [done|done|done|]. cbn. apply lookup_ge_None in Ew. lia. }
  destruct (sys_facts _ _ _ _ _ _ _ Hinv) as ((Htc & Hts & Hwc & Hws & Hle & Hra & HtN & HrN) & Hrs & _).
  destruct (client_facts k Hk wc0 Ec _ _ _ _ Hc) as ([Hlc Hpk] & _ & Ho & _). pose proof (lookup_lt_Some _ _ _ Ew) as Hlt. rewrite Hsv in Ew.
  pose proof (wire_at _ _ _ _ _ Ho Ew) as Hl. pose proof (lookup_lt_Some _ _ _ Hl) as Hlt2. rewrite Hlc in Hlt2.
  destruct (exec_wp _ _ _ (server_rx asserts malloc_ok junk k Hk ws0 Es ptr hdr pkts srv rs ls (sv s) w Hs ltac:(lia) (λ Hge, Hrs ltac:(lia)) (Hpk _ _ Hl))) as (r' & Er & E & l' & Hs').
  rewrite E. eexists _, (S srv), (ls ++ l'). split; [done|]. pose proof (extends_wire _ _ (keeps_process_pkt asserts malloc_ok junk _ _ _ _ _ Er)) as Hmono.
  assert (Hinv' : sys_inv rcv tx (S srv) rs lc (ls ++ l') (mk_sys (cl s) r' (S (to_sv s)) (to_cl s) (handled s))) by (split; cbn; try done; lia).
  destruct (sys_facts _ _ _ _ _ _ _ Hinv') as ((_ & Hts' & _) & _). split_and!; [done| |done]. assert (answers k srv rs ≤ answers k (S srv) rs)%nat by (unfold answers; destruct rs; lia).
  cbn [observe o_ts] in *. unfold obs_le. cbn [observe o_wc o_tc o_ws o_ts o_sv o_cl o_h cl sv to_sv to_cl handled] in *. lia.
Qed.
Lemma step_ClientRx rcv tx srv rs lc ls s : sys_inv rcv tx srv rs lc ls s →
  ∃ s' rcv' tx' lc', step ClientRx s = Ok s' ∧ sys_inv rcv' tx' srv rs lc' ls s' ∧ obs_le (observe s) (observe s') ∧
    ((o_cl (observe s) < o_ws (observe s))%nat → o_cl (observe s') = S (o_cl (observe s))).
Proof.
  intros Hinv. pose proof Hinv as [Hc Hs Hsv Hcl Hh Hsrv Hrcv]. cbn [sys_step]. destruct (wire (sv s) !! to_cl s) as [w|] eqn:Ew.
  2:{ exists s, rcv, tx, lc. split_and!; [done|done|done|]. cbn. apply lookup_ge_None in Ew. lia. }
  destruct (sys_facts _ _ _ _ _ _ _ Hinv) as ((Htc & Hts & Hwc & Hws & Hle & Hra & HtN & HrN) & Hrs & _).
  destruct (server_facts asserts k Hk ws0 Es ptr hdr pkts _ _ _ _ Hs) as ([Hls Hpk] & _ & Ho & _). pose proof (lookup_lt_Some _ _ _ Ew) as Hlt. rewrite Hcl in Ew.
  pose proof (wire_at _ _ _ _ _ Ho Ew) as Hl. pose proof (lookup_lt_Some _ _ _ Hl) as Hlt2. rewrite Hls in Hlt2.
  assert (rcv < N)%nat by (unfold answers in Hlt2; destruct rs; lia).
  destruct (exec_wp _ _ _ (client_rx asserts malloc_ok junk k Hk wc0 Ec rcv tx lc (cl s) w Hmal Hc ltac:(done) (Hpk _ _ Hl))) as (r' & Er & E & tx' & l' & Htx & Hc').
  rewrite E. eexists _, (S rcv), tx', (lc ++ l'). split; [done|]. pose proof (extends_wire _ _ (keeps_process_pkt asserts malloc_ok junk _ _ _ _ _ Er)) as Hmono.
  assert (Hinv' : sys_inv (S rcv) tx' srv rs (lc ++ l') ls (mk_sys r' (sv s) (to_sv s) (S (to_cl s)) (handled s))) by (split; cbn; try done; lia).
  destruct (sys_facts _ _ _ _ _ _ _ Hinv') as ((Htc' & _) & _). split_and!; [done| |done].
  unfold obs_le. cbn [observe o_wc o_tc o_ws o_ts o_sv o_cl o_h cl sv to_sv to_cl handled] in *. lia.
Qed.
(** The response, once the handler has been called. *)
Lemma step_Respond rcv tx srv rs lc ls s : sys_inv rcv tx srv rs lc ls s →
  ∃ s' rs' ls', step Respond s = Ok s' ∧ sys_inv rcv tx srv rs' lc ls' s' ∧ obs_le (observe s) (observe s') ∧
    ((n ≤ srv)%nat → rs = false → o_h (observe s') = S (o_h (observe s))).
Proof.
  intros Hinv. pose proof Hinv as [Hc Hs Hsv Hcl Hh Hsrv Hrcv]. destruct (server_facts asserts k Hk ws0 Es ptr hdr pkts _ _ _ _ Hs) as ([Hls Hpk] & _ & Ho & H1 & H2 & Hev).
  pose proof (req_pkts_pos k Hk). cbn [sys_step]. rewrite Hev, Hh. destruct (decide (rs = false ∧ n ≤ srv)%nat) as [[-> Hge]|Hno].
  - assert (srv = n) by (specialize (H2 eq_refl); lia). subst srv. rewrite bool_decide_eq_true_2 by lia. rewrite Nat.add_0_r, lookup_app_r, Nat.sub_diag by lia. cbn [lookup list_lookup]. rewrite Hans. cbn [rp_msg rp_key rp_hdr].
    destruct (exec_wp _ _ _ (server_respond asserts k Hk ws0 Es ptr hdr pkts ls (sv s) key ltac:(lia) Hs)) as (r' & Er & E & l' & Hs').
    rewrite E. eexists _, true, (ls ++ l'). split; [done|]. pose proof (extends_wire _ _ (keeps_enqueue_response asserts _ _ _ _ _ _ _ _ Er)) as Hmono.
    assert (Hinv' : sys_inv rcv tx n true lc (ls ++ l') (mk_sys (cl s) r' (to_sv s) (to_cl s) (S (length Es)))) by (split; cbn; try done; lia).
    destruct (sys_facts _ _ _ _ _ _ _ Hinv') as ((_ & Hts' & _) & _). destruct (sys_facts _ _ _ _ _ _ _ Hinv) as ((_ & Hts & _) & _). split_and!; [done| |cbn; lia].
    unfold answers in *. unfold obs_le. cbn [observe o_wc o_tc o_ws o_ts o_sv o_cl o_h cl sv to_sv to_cl handled] in *. lia.
  - exists s, rs, ls. rewrite (proj2 (lookup_ge_None _ _)).
    + split_and!; [done|done|done|]. intros. exfalso. naive_solver.
    + rewrite length_app. destruct rs; [case_bool_decide; cbn; lia|]. rewrite bool_decide_eq_false_2 by (intros ?; apply Hno; done). cbn. lia.
Qed.

(** ** Runs *)
#[local] Abbreviation sys_run := (run asserts malloc_ok junk answer).
Lemma step_inv l s : inv s → ∃ s', step l s = Ok s' ∧ inv s' ∧ obs_le (observe s) (observe s').
Proof.
  intros (rcv & tx & srv & rs & lc & ls & Hinv). destruct l as [tsc|tsc| | |].
  - destruct (step_ClientTurn tsc _ _ _ _ _ _ _ Hinv) as (s' & E & Hi & Ho & _). exists s'. split_and!; [done|by do 6 eexists|done].
  - destruct (step_ServerTurn tsc _ _ _ _ _ _ _ Hinv) as (s' & E & Hi & Ho & _). exists s'. split_and!; [done|by do 6 eexists|done].
  - destruct (step_ClientRx _ _ _ _ _ _ _ Hinv) as (s' & ? & ? & ? & E & Hi & Ho & _). exists s'. split_and!; [done|by do 6 eexists|done].
  - destruct (step_ServerRx _ _ _ _ _ _ _ Hinv) as (s' & ? & ? & E & Hi & Ho & _). exists s'. split_and!; [done|by do 6 eexists|done].
  - destruct (step_Respond _ _ _ _ _ _ _ Hinv) as (s' & ? & ? & E & Hi & Ho & _). exists s'. split_and!; [done|by do 6 eexists|done].
Qed.
Lemma run_inv (ls : list label) s : inv s → ∃ s', sys_run ls s = Ok s' ∧ inv s' ∧ obs_le (observe s) (observe s').
Proof.
  revert s. induction ls as [|l ls IH]; intros s Hi; [by exists s|]. destruct (step_inv l s Hi) as (s1 & E & Hi1 & Ho1). destruct (IH s1 Hi1) as (s2 & E2 & Hi2 & Ho2).
  exists s2. cbn [run]. unfold mbind, outcome_bind. rewrite E. split_and!; [done|done|]. by etrans.
Qed.

(** The RPC is over when the client has every packet of the server.  Before, some kind of
    step makes a count larger. *)
Definition finished s : Prop := to_cl s = (length ws0 + N)%nat.
Definition next_kind (o : obs) : kind :=
  if bool_decide (o_wc o < o_tc o)%nat then KClientTurn
  else if bool_decide (o_sv o < o_wc o)%nat then KServerRx
  else if bool_decide (length wc0 + n ≤ o_sv o ∧ o_h o = length Es)%nat then KRespond
  else if bool_decide (o_ws o < o_ts o)%nat then KServerTurn
  else KClientRx.
Lemma step_progress l s : inv s → ¬ finished s → kind_of l = next_kind (observe s) →
  ∃ s', step l s = Ok s' ∧ inv s' ∧ obs_le (observe s) (observe s') ∧ (total (observe s) < total (observe s'))%nat.
Proof.
  intros (rcv & tx & srv & rs & lc & ls & Hinv) Hnf Hkind. destruct (sys_facts _ _ _ _ _ _ _ Hinv) as ((Htc & Hts & Hwc & Hws & Hle & Hra & HtN & HrN) & Hrs & Hend).
  pose proof Hinv as [_ Hs Hsv Hcl Hh _ Hrcv]. destruct (server_facts asserts k Hk ws0 Es ptr hdr pkts _ _ _ _ Hs) as (_ & _ & _ & H1 & H2 & _). unfold finished in Hnf.
  assert (Hgrow : ∀ s', obs_le (observe s) (observe s') → observe s ≠ observe s' → (total (observe s) < total (observe s'))%nat).
  { intros s' Ho Hne. destruct (decide (total (observe s') ≤ total (observe s))%nat) as [Ht|Ht]; [by destruct Hne; apply obs_le_eq|lia]. }
  unfold next_kind in Hkind. case_bool_decide as C1; [|case_bool_decide as C2; [|case_bool_decide as C3; [|case_bool_decide as C4]]]; destruct l as [tsc|tsc| | |]; try done.
  - destruct (step_ClientTurn tsc _ _ _ _ _ _ _ Hinv) as (s' & E & Hi & Ho & Hw). exists s'. split_and!; [done|by do 6 eexists|done|]. apply Hgrow; [done|]. intros Eo. rewrite Eo in *. lia.
  - destruct (step_ServerRx _ _ _ _ _ _ _ Hinv) as (s' & ? & ? & E & Hi & Ho & Hw). exists s'. split_and!; [done|by do 6 eexists|done|]. apply Hgrow; [done|]. specialize (Hw C2). intros Eo. rewrite Eo in *. lia.
  - destruct (step_Respond _ _ _ _ _ _ _ Hinv) as (s' & ? & ? & E & Hi & Ho & Hw). exists s'. split_and!; [done|by do 6 eexists|done|]. apply Hgrow; [done|]. cbn [observe o_sv o_h] in C3.
    assert (Hrf : rs = false) by (destruct rs; [lia|done]). specialize (Hw ltac:(lia) Hrf). intros Eo. rewrite Eo in *. lia.
  - destruct (step_ServerTurn tsc _ _ _ _ _ _ _ Hinv) as (s' & E & Hi & Ho & Hw). exists s'. split_and!; [done|by do 6 eexists|done|]. apply Hgrow; [done|]. intros Eo. rewrite Eo in *. lia.
  - destruct (step_ClientRx _ _ _ _ _ _ _ Hinv) as (s' & ? & ? & ? & E & Hi & Ho & Hw). exists s'. split_and!; [done|by do 6 eexists|done|]. apply Hgrow; [done|].
    assert (Hlt : (o_cl (observe s) < o_ws (observe s))%nat).
    { cbn [observe o_sv o_h o_cl] in *. unfold answers in *. destruct rs; [|rewrite Nat.min_l in * by lia]; lia. }
    specialize (Hw Hlt). intros Eo. rewrite Eo in *. lia.
Qed.
(** A round has a step of each kind, in any order and with any others. *)
Definition fair (round : list label) : Prop := ∀ κ, ∃ l, l ∈ round ∧ kind_of l = κ.
Lemma round_progress (ls : list label) s : inv s → ¬ finished s → (∃ l, l ∈ ls ∧ kind_of l = next_kind (observe s)) →
  ∃ s', sys_run ls s = Ok s' ∧ inv s' ∧ (total (observe s) < total (observe s'))%nat.
Proof.
  revert s. induction ls as [|l ls IH]; intros s Hi Hnf (l0 & Hin & Hk0); [by apply elem_of_nil in Hin|].
  assert (Hstep : ∃ s1, step l s = Ok s1 ∧ inv s1 ∧ obs_le (observe s) (observe s1) ∧ ((total (observe s) < total (observe s1))%nat ∨ observe s1 = observe s ∧ l0 ∈ ls)).
  { destruct (decide (kind_of l = next_kind (observe s))) as [Hkl|Hkl]; [destruct (step_progress l s Hi Hnf Hkl) as (s1 & ? & ? & ? & ?); by exists s1; auto|].
    destruct (step_inv l s Hi) as (s1 & E & Hi1 & Ho1). exists s1. split_and!; try done. destruct (decide (total (observe s1) ≤ total (observe s))%nat) as [Ht|Ht]; [|left; lia].
    right. split; [symmetry; by apply obs_le_eq|]. apply elem_of_cons in Hin as [->|Hin]; [by rewrite Hk0 in Hkl|done]. }
  destruct Hstep as (s1 & E & Hi1 & Ho1 & Hcase). cbn [run]. unfold mbind, outcome_bind. rewrite E. destruct Hcase as [Hlt|[Heq Hin']].
  - destruct (run_inv ls s1 Hi1) as (s2 & E2 & Hi2 & Ho2). exists s2. split_and!; [done|done|]. apply obs_le_total in Ho2. lia.
  - destruct (IH s1 Hi1) as (s2 & E2 & Hi2 & Hlt); [|by exists l0; rewrite Heq|rewrite Heq in Hlt; by exists s2].
    unfold finished in *. replace (to_cl s1) with (to_cl s); [done|]. by injection Heq as _ _ _ _ _ -> _.
Qed.
Lemma total_bound s : inv s → (total (observe s) ≤ 3 * length wc0 + 3 * length ws0 + length Es + 6 * N + 1)%nat.
Proof.
  intros (rcv & tx & srv & rs & lc & ls & Hinv). destruct (sys_facts _ _ _ _ _ _ _ Hinv) as ((Htc & Hts & Hwc & Hws & Hle & Hra & HtN & HrN) & _). pose proof Hinv as [_ _ Hsv Hcl Hh _ _].
  unfold total. cbn [observe o_wc o_tc o_ws o_ts o_sv o_cl o_h] in *. unfold answers in *. destruct rs; lia.
Qed.
Lemma rounds_finish rounds s : inv s → Forall fair rounds → (3 * length wc0 + 3 * length ws0 + length Es + 6 * N + 1 < total (observe s) + length rounds)%nat →
  ∃ s', sys_run (concat rounds) s = Ok s' ∧ inv s' ∧ finished s'.
Proof.
  revert s. induction rounds as [|rd rounds IH]; intros s Hi Hf Hlen; [pose proof (total_bound s Hi); cbn [length] in Hlen; lia|]. apply Forall_cons in Hf as [Hf1 Hf].
  assert (Hstay : ∀ (ls : list label) s0, inv s0 → finished s0 → ∃ s', sys_run ls s0 = Ok s' ∧ inv s' ∧ finished s').
  { intros ls s0 Hi0 Hf0. destruct (run_inv ls s0 Hi0) as (s' & E & Hi' & Ho). exists s'. split_and!; [done|done|]. destruct Ho as (_ & _ & _ & _ & _ & Ho & _). cbn in Ho. unfold finished in *.
    destruct Hi' as (rcv & tx & srv & rs & lc & lss & Hinv). destruct (sys_facts _ _ _ _ _ _ _ Hinv) as ((_ & _ & _ & _ & _ & _ & _ & HrN) & _). rewrite (si_to_cl _ _ _ _ _ _ _ Hinv) in *. lia. }
  destruct (decide (to_cl s = length ws0 + N)%nat) as [Hfin|Hnf]; [by apply Hstay|]. destruct (Hf1 (next_kind (observe s))) as (l & Hin & Hkl).
  destruct (round_progress rd s Hi Hnf) as (s1 & E1 & Hi1 & Hlt); [by exists l|]. cbn [concat]. rewrite (run_app _ _ _ _ _ _ _ _ E1). apply IH; [done|done|]. cbn [length] in Hlen. lia.
Qed.
End inv.
