(* ===== verification/RpcExample.v ===== *)
(** * New endpoints and sessions

    The constructors establish what the datapath needs of the control buffers, the slots
    and the session. *)

From S2P Require Import Prelude IoVector IoVectorSpec IoVectorClass IoVectorOps Serializer SerializerSer SerializerPkts RpcTypes Rpc RpcState RpcTx RpcKick SmTypes RpcHandlers RpcClientInv RpcServerInv RpcSystem.

Section new.
Context `{TTr : Transport} `{!TransportOk}.
Implicit Types (r : Rpc).

Lemma iv_zero_ok e : 0 ≤ e ≤ IOVECTOR_CAPACITY → iov_ok (mk_iovector IOVECTOR_CAPACITY e e 0 (iovs zero_iovector)).
Proof.
  intros He. unfold IOVECTOR_CAPACITY in *. split; cbn [iov_begin iov_end capacity nbases iovs zero_iovector]; rewrite ?length_replicate; try lia.
  unfold view. cbn [iov_begin iov_end]. rewrite Z.sub_diag. constructor.
Qed.
Lemma dyn_ok_zero : dyn_ok zero_iovector.
Proof. split; [apply (iv_zero_ok 0); unfold IOVECTOR_CAPACITY; lia|]. cbn [iovs zero_iovector]. apply length_replicate. Qed.

Lemma ctrl_serializer_ok a : ∃ s, ctrl_serializer a = Ok s ∧ iv_at (iov s) 0 = Ok (mk_iovec a sizeof_pkthdr_t).
Proof.
  pose proof sizeof_pos. unfold ctrl_serializer. set (v := set_iov_end 1 (set_iov_begin 1 _)). set (x := mk_iovec a sizeof_pkthdr_t).
  assert (Hv : iov_ok v) by (apply (iv_zero_ok 1); unfold IOVECTOR_CAPACITY; lia). set (v' := mk_iovector IOVECTOR_CAPACITY 0 1 0 (<[0%nat := x]> (iovs zero_iovector))).
  assert (Hv' : iov_ok v').
  { unfold IOVECTOR_CAPACITY in *. split; cbn [iov_begin iov_end capacity nbases iovs v']; rewrite ?length_insert; cbn [iovs zero_iovector]; rewrite ?length_replicate; try lia.
    apply Forall_singleton. cbn. lia. }
  assert (Hp : push_front x v = Ok (sizeof_pkthdr_t, v')).
  { unfold push_front. rewrite (do_assert_ok v Hv). cbn [mbind outcome_bind]. change (iov_begin v) with 1. cbn [Z.ltb Z.compare Z.sub Z.add Z.opp Z.pos_sub].
    change (iovs v) with (iovs zero_iovector). rewrite arr_set_in_range; [done|]. cbn [iovs zero_iovector]. rewrite length_replicate. lia. }
  rewrite Hp. eexists. split; [done|]. apply (iv_at_ok v'); [done|lia|]. done.
Qed.
Lemma ctrl_serializers_ok n a : ∃ l, ctrl_serializers n a = Ok l ∧
  ∀ i, (i < n)%nat → ∃ s, l !! i = Some s ∧ iv_at (iov s) 0 = Ok (mk_iovec (hdr_at a (Z.of_nat i)) sizeof_pkthdr_t).
Proof.
  revert a. induction n as [|n IH]; intros a; [exists []; split; [done|lia]|]. destruct (ctrl_serializer_ok a) as (s & Es & Hs). destruct (IH (a + sizeof_pkthdr_t)) as (l & El & Hl).
  exists (s :: l). cbn [ctrl_serializers]. rewrite Es. cbn [mbind outcome_bind]. rewrite El. split; [done|]. intros [|i] Hi.
  - exists s. split; [done|]. rewrite Hs. unfold hdr_at. cbn. by rewrite Z.add_0_r.
  - destruct (Hl i ltac:(lia)) as (s' & Hs' & Hat). exists s'. split; [done|]. rewrite Hat. unfold hdr_at. do 2 f_equal. lia.
Qed.
Lemma ctrl_headers_ok n a key fresh i : (i < n)%nat → ∃ h, ctrl_headers n a key fresh !! hdr_at a (Z.of_nat i) = Some h ∧ total_pkt h = total_pkt fresh.
Proof.
  pose proof sizeof_pos. revert a i. induction n as [|n IH]; intros a i Hi; [lia|]. cbn [ctrl_headers]. unfold hdr_at in *. destruct i as [|i].
  - eexists. rewrite Z.add_0_r, lookup_insert_eq. done.
  - rewrite lookup_insert_ne by nia. destruct (IH (a + sizeof_pkthdr_t) i ltac:(lia)) as (h & Hh & Ht). exists h. split; [|done]. rewrite <- Hh. f_equal. lia.
Qed.

(** An endpoint with nothing to send, whose control buffers point to their headers. *)
Lemma tx_inv_idle r route :
  tx_burst_arr_ r = [] → 0 ≤ ctrl_msgbuf_head_ r < ctrl_count →
  (∀ i, 0 ≤ i < ctrl_count → ∃ s v, ctrl_serialization r !! Z.to_nat i = Some s ∧ iv_at (iov s) 0 = Ok v ∧ iov_base v = ctrl_addr r i) →
  (∀ i, 0 ≤ i < ctrl_count → ∃ h, hdrs r !! ctrl_addr r i = Some h ∧ 0 ≤ total_pkt h) → tx_inv r route None (wire r).
Proof.
  intros Hb Hh Hs Hhd. pose proof postlist_pos. split; rewrite ?Hb; try done; [|by intros ? ? ?%elem_of_nil]. exists []. rewrite Hb. split; [constructor|]. by rewrite app_nil_r.
Qed.
(** What the constructor makes, also when headers and messages of the user, sessions and
    memory are added. *)
Lemma new_Rpc_tx ring funcs rto hdr key fresh m : 0 ≤ total_pkt fresh →
  ∃ r, new_Rpc ring funcs rto hdr key fresh m = Ok r ∧
    ∀ xs mb hs route, (∀ i, 0 ≤ i < ctrl_count → hs !! hdr_at hdr i = hdrs r !! hdr_at hdr i) →
      tx_inv (set_session_vec xs (set_msgbufs mb (set_hdrs hs r))) route None [].
Proof.
  intros Hf. unfold new_Rpc. destruct (ctrl_serializers_ok (2 * kUnsigBatch) hdr) as (l & El & Hl). rewrite El. eexists. split; [done|]. intros xs mb hs route Hhs.
  pose proof ctrl_count_pos. unfold ctrl_count in *. match goal with |- tx_inv ?r _ _ _ => apply (tx_inv_idle r) end; try done.
  - intros i Hi. unfold ctrl_count in Hi. destruct (Hl (Z.to_nat i) ltac:(lia)) as (s & Hs & Hat). exists s, (mk_iovec (hdr_at hdr i) sizeof_pkthdr_t). split_and!; [done| |done]. by rewrite Z2Nat.id in Hat by lia.
  - intros i Hi. unfold ctrl_count in Hi. destruct (ctrl_headers_ok (2 * kUnsigBatch) hdr key fresh (Z.to_nat i) ltac:(lia)) as (h & Hh & Ht). rewrite Z2Nat.id in Hh by lia. exists h. split; [|lia].
    etrans; [|exact Hh]. exact (Hhs i Hi).
Qed.
End new.

(** * A small instance

    A transport with packets of 8 bytes, a client with a request of 11 bytes and a server
    with a response of 9, both made by the constructors and connected to each other. *)

#[local] Instance tiny : Transport := {| kMaxDataPerPkt := 8; kPostlist := 2; kUnsigBatch := 2; kNumSge := 16; sizeof_pkthdr_t := 4 |}.
#[local] Instance tiny_ok : TransportOk.
Proof. split; cbn; lia. Qed.

(** Memory up to 300, with a message at 100 and the receive ring at 200. *)
Definition ex_mem : heap := mk_heap (map_fresh (λ a, a mod 256) ∅ 1 299) 300.
Definition ex_ring : list Z := (λ i, 200 + 8 * Z.of_nat i) <$> seq 0 4.
Definition ex_data (len : nat) : list Z := (λ i, (100 + Z.of_nat i) mod 256) <$> seq 0 len.
Definition ex_pkts (len : nat) : list (list iovec) := [[mk_iovec 100 8]; [mk_iovec 108 (Z.of_nat len - 8)]].
Definition ex_ser (len : nat) : Serializer :=
  mk_ser (mk_iovector IOVECTOR_CAPACITY 2 4 0 (replicate 2 (mk_iovec 0 0) ++ concat (ex_pkts len) ++ replicate 2296 (mk_iovec 0 0)))
    2 zero_iovector ([0; 1; 2] ++ replicate 1997 0) false false 0 0.
Definition ex_hdr (total : Z) : pkthdr_t := mk_pkthdr 0 0 0 kReq 0 0 0 0 total 0.
Definition ex_cl : SessionEndpoint := mk_ep kInfiniBand "a" 31850 0 0 5.
Definition ex_sv : SessionEndpoint := mk_ep kInfiniBand "b" 31850 0 0 6.
Definition ex_func (rt : Z) : ReqFunc := mk_reqfunc 7 kForeground.

(** A new endpoint with a session to the other one, and its message. *)
Definition ex_none : Rpc := mk_rpc [] [] [] 0 [] 0 0 None None 0 [] 0 ex_func 0 ex_mem ∅ ∅ ∅ [] [].
Definition ex_new : Rpc := match new_Rpc ex_ring ex_func 1000 2000 9 (ex_hdr 0) ex_mem with Ok r => r | Fault _ => ex_none end.
Definition ex_endpoint (client : bool) (len : nat) : Rpc :=
  set_session_vec [Some (new_Session client kConnected 0 0 0 ex_cl ex_sv)]
    (set_msgbufs {[ 50 := ex_ser len ]} (set_hdrs (<[1000 := ex_hdr 2]> (<[1004 := ex_hdr 2]> (hdrs ex_new))) ex_new)).
Definition ex_head : pkthdr_t := fill_hdr 3 11 0 kReq 0 32 9 8 (ex_hdr 2).
Definition ex_call : call := mk_call (0%nat, 0%nat) (0%nat, 0%nat) 32 3 (mk_umsg 50 1000 (ex_data 11) (ex_pkts 11) ex_head) (ex_data 9) 60 70 80 7.
Definition ex_answer (f : Z) : reply := mk_reply 50 9 1000.

Lemma ex_new_eq : ∃ l, ex_new = mk_rpc [] [] ex_ring 0 [] 0 1000 (Some Tail) (Some Root) 2000 l 0 ex_func 0 ex_mem (ctrl_headers 4 2000 9 (ex_hdr 0)) ∅ ∅ [] [].
Proof. destruct (ctrl_serializers_ok (2 * 2) 2000) as (l & El & _). exists l. unfold ex_new, new_Rpc. cbn [kUnsigBatch tiny]. rewrite El. done. Qed.
Lemma ex_tx client len : tx_inv (ex_endpoint client len) 0 None [].
Proof.
  destruct (new_Rpc_tx ex_ring ex_func 1000 2000 9 (ex_hdr 0) ex_mem ltac:(done)) as (r & E & Htx). assert (Er : ex_new = r) by (unfold ex_new; by rewrite E).
  unfold ex_endpoint. rewrite Er. apply Htx. intros i Hi. unfold hdr_at. cbn [sizeof_pkthdr_t tiny]. rewrite !lookup_insert_ne by lia. done.
Qed.
Lemma ex_ser_ok len : (8 ≤ len)%nat → ser_ok (ex_ser len) ∧ view (iov (ex_ser len)) = concat (ex_pkts len).
Proof.
  intros Hlen. assert (Hv : view (iov (ex_ser len)) = concat (ex_pkts len)) by done. split; [|done]. split; [|done|done]. unfold IOVECTOR_CAPACITY.
  split; cbn [iov ex_ser iov_begin iov_end capacity nbases iovs]; unfold IOVECTOR_CAPACITY; try lia; [|change (lens_ok (view (iov (ex_ser len)))); rewrite Hv].
  - rewrite !length_app, !length_replicate. cbn. lia.
  - repeat constructor; cbn; lia.
Qed.
Lemma ex_prepared client len : len = 11%nat ∨ len = 9%nat → prepared (ex_endpoint client len) 50 1000 (ex_data len) (ex_pkts len).
Proof.
  intros Hlen. destruct ex_new_eq as [l El]. assert (Hlen8 : (8 ≤ len)%nat) by lia. destruct (ex_ser_ok len Hlen8) as [Hok Hview].
  unfold ex_endpoint. rewrite El. split; cbn [msgbufs hdrs mem set_session_vec set_msgbufs set_hdrs kMaxDataPerPkt tiny].
  - exists (ex_ser len). split; [apply lookup_singleton_eq|]. split; [by destruct Hlen as [->| ->]|reflexivity| |exact Hok|exact Hview| |reflexivity].
    + intros [|[|k]] q; cbn [ex_pkts lookup list_lookup]; [intros [= <-]|intros [= <-]|done]; destruct Hlen as [->| ->]; (split; [by vm_compute|discriminate]).
    + intros [|[|[|k]]] Hk; cbn in Hk; [reflexivity|reflexivity|reflexivity|lia].
  - intros [|[|k]] Hk; cbn in Hk; [eexists; apply lookup_insert_eq| |lia]. unfold hdr_at. cbn. rewrite lookup_insert_ne by done. eexists. apply lookup_insert_eq.
  - exists (ex_hdr 2). split; [apply lookup_insert_eq|done].
  - intros [|[|k]] q; cbn [ex_pkts lookup list_lookup]; [intros [= <-]; done|intros [= <-]; done|done].
  - unfold ex_data. rewrite length_fmap, length_seq. lia.
  - unfold ex_data. rewrite length_fmap, length_seq. by destruct Hlen as [->| ->].
Qed.
Lemma ex_covers len a : (len ≤ 50)%nat → covers (concat (ex_pkts len)) a → 100 ≤ a < 158.
Proof. intros Hlen [Hc|[Hc|[]%covers_nil]%covers_cons]%covers_cons; cbn in Hc; lia. Qed.
Lemma ex_ring_ok client len : (len ≤ 50)%nat → ring_ok (ex_endpoint client len) (covers (concat (ex_pkts len))).
Proof.
  intros Hlen. destruct ex_new_eq as [l El]. unfold ex_endpoint. rewrite El. split; cbn [mem rx_ring_ rx_ring_head_ set_session_vec set_msgbufs set_hdrs].
  - split; [done|]. intros a. unfold ex_mem. cbn [bytes brk]. rewrite map_fresh_lookup. destruct (in_range_spec 1 (Z.of_nat 299) a); [lia|]. intros [? Ha]. by rewrite lookup_empty in Ha.
  - cbn. lia.
  - intros j b Hb a Ha. unfold ex_ring in Hb. apply list_lookup_fmap_Some in Hb as (i & -> & [-> Hi]%lookup_seq). cbn in Ha. split; [|intros Hc%ex_covers; lia].
    unfold ex_mem. cbn [bytes]. rewrite map_fresh_lookup. destruct (in_range_spec 1 (Z.of_nat 299) a); [by eexists|lia].
Qed.
Lemma ex_apart client len : hdrs_apart (ex_endpoint client len) 1000 2.
Proof. destruct ex_new_eq as [l El]. unfold ex_endpoint. rewrite El. intros k i Hk Hi. unfold hdr_at, ctrl_addr, hdr_at. cbn. cbn in Hi. lia. Qed.
Lemma ex_slot client len : at_slot (ex_endpoint client len) (0%nat, 0%nat) (new_Session client kConnected 0 0 0 ex_cl ex_sv) (new_sslot client 0).
Proof. done. Qed.

Lemma ex_slot_valid client len c : slot_valid (ex_endpoint client len) (0%nat, 0%nat) (new_Session c kConnected 0 0 0 ex_cl ex_sv).
Proof. split; [cbn; lia|]. cbn [sslot_arr_ new_Session]. rewrite length_fmap, length_seq. vm_compute. lia. Qed.
Lemma ex_no_null client len : hdrs (ex_endpoint client len) !! 0 = None.
Proof. destruct ex_new_eq as [l El]. unfold ex_endpoint. rewrite El. cbn [hdrs set_session_vec set_msgbufs set_hdrs]. by vm_compute. Qed.

Lemma ex_call_ok : call_ok ex_call.
Proof. split; vm_compute; repeat split; done. Qed.

Lemma ex_fields client len (r := ex_endpoint client len) :
  tail_prev r = Some Root ∧ stallq_ r = [] ∧ events r = [] ∧ wire r = [] ∧ tx_burst_arr_ r = [] ∧ length (session_vec_ r) = 1%nat ∧ rx_ring_ r = ex_ring ∧ req_func_arr_ r = ex_func.
Proof. destruct ex_new_eq as [l El]. unfold r, ex_endpoint. rewrite El. split_and!; reflexivity. Qed.

(** Both sides are ready for the call. *)
Lemma ex_client_ready asserts : client_ready asserts ex_call [] [] 9 (new_Session true kConnected 0 0 0 ex_cl ex_sv) (new_sslot true 0) (mk_ci 0 0 0 0 0 0 0 None None 0) (ex_endpoint true 11).
Proof.
  pose proof (ex_tx true 11) as Htx. pose proof (ex_prepared true 11 ltac:(by left)) as Hp. pose proof (ex_ring_ok true 11 ltac:(lia)) as HR. pose proof (ex_apart true 11) as Hap.
  destruct (ex_fields true 11) as (Hf1 & Hf2 & Hf3 & _).
  split; try first [exact Hf1|exact Hf2|exact Hf3|exact Htx|exact Hp|exact HR|exact Hap|reflexivity|apply dyn_ok_zero].
  - apply ex_slot_valid.
  - eexists. split; [reflexivity|]. done.
  - exists (ex_hdr 2). split; [|done]. apply lookup_insert_eq.
Qed.
Lemma ex_server_ready asserts : server_req asserts ex_call [] [] 50 1000 (ex_pkts 9) 0 [] (new_Session false kConnected 0 0 0 ex_cl ex_sv) (new_sslot false 0) (mk_si kInvalidReqType kForeground 0 0) (ex_endpoint false 9).
Proof.
  pose proof (ex_tx false 9) as Htx. pose proof (ex_prepared false 9 ltac:(by right)) as Hp. pose proof (ex_ring_ok false 9 ltac:(lia)) as HR. pose proof (ex_apart false 9) as Hap.
  destruct (ex_fields false 9) as (_ & Hf1 & Hf2 & _ & _ & Hf3 & Hf4 & Hf5).
  assert (Hring : ∀ (j : nat) b, ex_ring !! j = Some b → b = 200 + 8 * Z.of_nat j). { intros j b Hb. apply list_lookup_fmap_Some in Hb as (i & -> & [-> _]%lookup_seq). done. }
  split; try first [exact Hf2|exact Htx|exact Hp|exact Hap|reflexivity|apply sent_nil].
  - split; try first [exact Hf1|exact HR|reflexivity|apply ex_slot_valid].
  - cbn. lia.
  - split; [|unfold ring_len; rewrite Hf4; cbn; lia]. intros a i j bi bj Hi Hj Hai Haj. rewrite Hf4 in Hi, Hj. apply Hring in Hi, Hj. cbn in Hai, Haj. lia.
  - exists []. split_and!; [|cbn; lia|done|]; [split; [done|]; split_and!; [done|apply dyn_ok_zero|cbn; lia]|]. intros e a b _ _ []%covers_nil.
  - intros _. split; [done|]. intros j b Hb. rewrite Hf4 in Hb. apply Hring in Hb. cbn. lia.
Qed.
