(* ===== verification/RpcTheorems.v ===== *)
(** * An RPC from start to end

    [enqueue_request] on an idle session, then any sequence of steps of the client, the
    server and the server's application.  No step faults, the handler is called once with
    the bytes of the request, the continuation once with the bytes of the response; and
    every schedule in which all parties keep taking steps gets there. *)

From S2P Require Import Prelude IoVector IoVectorSpec IoVectorClass IoVectorOps Serializer SerializerSer SerializerPkts SmTypes RpcTypes Rpc RpcState RpcTx RpcKick RpcHandlers RpcClientInv RpcServerInv RpcSystem RpcExample.

(** What the user code sees: the bytes in the buffer of a slot, and the credits of a
    session. *)
Definition slot_at (r : Rpc) (p : sslot_ptr) : option SSlot := x ← mjoin (session_vec_ r !! p.1); sslot_arr_ x !! p.2.
Definition slot_data (r : Rpc) (p : sslot_ptr) : option (list Z) := sl ← slot_at r p; data (bytes (mem r)) (view (iov (dyn_resp_msgbuf_ sl))).
Definition credits_of (r : Rpc) (s : nat) : option Z := x ← mjoin (session_vec_ r !! s); Some (credits_ x).
Definition enqueued (r : Rpc) : nat := length (wire r) + length (tx_burst_arr_ r).

Lemma slot_at_st p x sl inf r : slot_valid r p x → slot_at (st_at p x sl inf r) p = Some (set_info inf sl).
Proof. intros [H1 H2]. unfold slot_at. cbn. rewrite list_lookup_insert_eq by done. cbn. by rewrite list_lookup_insert_eq. Qed.
Lemma slot_data_st p x sl inf r : slot_valid r p x → slot_data (st_at p x sl inf r) p = data (bytes (mem r)) (view (iov (dyn_resp_msgbuf_ sl))).
Proof. intros Hv. unfold slot_data. by rewrite slot_at_st. Qed.
Lemma credits_of_st p x sl inf r : slot_valid r p x → credits_of (st_at p x sl inf r) p.1 = Some (credits_ x).
Proof. intros [H1 H2]. unfold credits_of. cbn. by rewrite list_lookup_insert_eq. Qed.

Section rpc.
Context `{TTr : Transport} `{!TransportOk} (asserts : bool) (malloc_ok : Z → bool) (junk : Z → Z) (answer : Z → reply) (k : call) (key : Z).
Context (C0 S0 : Rpc).
#[local] Abbreviation reply := (answer (k_func k)).

(** The call is well formed, the client's session is idle, the server's slot waits for the
    request, the response is serialized, and nothing is left to send. *)
Record rpc_ready (pkts : list (list iovec)) : Prop := {
  rr_call : call_ok k;
  rr_client : ∃ x sl c r, C0 = st_at (k_client k) x sl (ClientInfo c) r ∧ client_ready asserts k (wire C0) (events C0) key x sl c r;
  rr_server : ∃ x sl i r, S0 = st_at (k_server k) x sl (ServerInfo i) r ∧ server_req asserts k (wire S0) (events S0) (rp_msg reply) (rp_hdr reply) pkts 0 [] x sl i r;
  rr_sent : tx_burst_arr_ C0 = [] ∧ tx_burst_arr_ S0 = [];
  rr_malloc : malloc_ok (Z.of_nat (length (k_resp k))) = true
}.
Definition request : M Rpc unit :=
  enqueue_request asserts (Z.of_nat (k_client k).1) (k_rt k) (u_ptr (k_req k)) (k_rb k) (k_cf k) (k_tg k) key (u_hdr (k_req k)) 0 kInvalidBgETid.
Definition start (c : Rpc) : sys := mk_sys c S0 (length (wire C0)) (length (wire S0)) (length (events S0)).
Definition called : event := Invoke (k_func k) (k_server k).
Definition continued : event := Continue (k_cf k) (k_tg k) (k_client k).

(** Credits and packets in flight add up; a call has the request, a continuation the
    response. *)
Record rpc_ok (s : sys) : Prop := {
  ro_credits : ∃ cr, credits_of (cl s) (k_client k).1 = Some cr ∧ 0 ≤ cr ∧
    cr + (Z.of_nat (enqueued (cl s)) - Z.of_nat (length (wire C0))) - (Z.of_nat (to_cl s) - Z.of_nat (length (wire S0))) = kSessionCredits;
  ro_server : events (sv s) = events S0 ∨ events (sv s) = events S0 ++ [called];
  ro_request : events (sv s) = events S0 ++ [called] → handled s = length (events S0) → slot_data (sv s) (k_server k) = Some (u_data (k_req k));
  ro_client : events (cl s) = events C0 ∨
    events (cl s) = events C0 ++ [continued] ∧ slot_data (cl s) (k_client k) = Some (k_resp k) ∧ resp_ptrs (cl s) !! k_rb k = Some (k_client k) ∧
    events (sv s) = events S0 ++ [called] ∧ handled s = S (length (events S0))
}.

Section ready.
Context (pkts : list (list iovec)) (Hr : rpc_ready pkts).
#[local] Abbreviation joint := (inv asserts k (wire C0) (wire S0) (events C0) (events S0) (rp_msg reply) (rp_hdr reply) pkts).

Lemma start_inv : ∃ c, request C0 = Ok (tt, c) ∧ joint (start c) ∧
  (3 * length (wire C0) + 3 * length (wire S0) + length (events S0) ≤ total (observe (start c)))%nat.
Proof.
  destruct Hr as [Hk (x & sl & c & r & HC & Hc) (x' & sl' & i & r' & HS & Hs) [Hb1 Hb2] Hm]. pose proof (client_start asserts k Hk _ _ _ _ _ _ _ Hc) as Hw. rewrite <- HC in Hw.
  apply wp_iff in Hw as ([] & c1 & E & tx & l & Hinv). exists c1. split; [exact E|].
  assert (Hsi : sys_inv asserts k (wire C0) (wire S0) (events C0) (events S0) (rp_msg reply) (rp_hdr reply) pkts 0 tx 0 false l [] (start c1)).
  { split; cbn; try done; try lia. exists x', sl', i, r'. split; [done|]. by left. }
  split; [by do 6 eexists|]. pose proof (extends_wire _ _ (keeps_enqueue_request asserts _ _ _ _ _ _ _ _ _ _ _ _ _ E)).
  destruct (sys_facts asserts k Hk _ _ _ _ _ _ _ _ _ _ _ _ _ _ Hsi) as ((Htc & Hts & _) & _). unfold total. cbn [start observe o_wc o_tc o_ws o_ts o_sv o_cl o_h cl sv to_sv to_cl handled] in *. lia.
Qed.
Lemma joint_ok s : joint s → rpc_ok s.
Proof.
  intros (rcv & tx & srv & rs & lc & ls & Hinv). pose proof (rr_call _ Hr) as Hk. destruct (sys_facts asserts k Hk _ _ _ _ _ _ _ _ _ _ _ _ _ _ Hinv) as ((Htc & Hts & Hwc & Hws & Hle & Hra & HtN & HrN) & Hrs & Hend).
  destruct Hinv as [Hc Hs Hsv Hcl Hh _ _]. destruct (server_facts asserts k Hk _ _ _ _ _ _ _ _ _ Hs) as (_ & _ & _ & H1 & H2 & Hev). cbn [observe o_tc] in Htc. fold (enqueued (cl s)) in Htc.
  pose proof (all_pkts_ge k Hk). split.
  - destruct Hc as (x & sl & c & r0 & Er & Hat). exists (credits_ x). destruct Hat as [Hat|(-> & -> & He)].
    + destruct (ca_flow _ _ _ _ _ _ _ _ _ _ Hat) as (? & ? & _). rewrite (ca_credits _ _ _ _ _ _ _ _ _ _ Hat). unfold kSessionCredits.
      split_and!; [rewrite Er, credits_of_st by apply Hat; by rewrite (ca_credits _ _ _ _ _ _ _ _ _ _ Hat)|lia|lia].
    + rewrite (ce_credits _ _ _ _ _ _ _ _ He). unfold kSessionCredits. split_and!; [rewrite Er, credits_of_st by apply He; by rewrite (ce_credits _ _ _ _ _ _ _ _ He)|lia|lia].
  - rewrite Hev. case_bool_decide; [by right|left; apply app_nil_r].
  - intros Hcall Hhd. destruct Hs as (x & sl & i & r0 & Er & HS). rewrite Er, slot_data_st.
    + destruct HS as [[-> HS]|[(-> & -> & HS)|[-> HS]]]; [|apply HS|lia]. rewrite Hcall in Hev. rewrite bool_decide_eq_false_2 in Hev by (destruct HS; lia). by apply app_inv_head in Hev.
    + destruct HS as [[_ [[]]]|[(_ & _ & [[]])|[_ [[]]]]]; done.
  - destruct Hc as (x & sl & c & r0 & Er & [Hat|(-> & -> & He)]).
    + left. rewrite Er. apply (ca_events _ _ _ _ _ _ _ _ _ _ Hat).
    + right. rewrite Er, slot_data_st by apply He. assert (rs = true) by (destruct rs; [done|unfold answers in Hra; lia]). subst rs. rewrite bool_decide_eq_true_2 in Hev by lia. split_and!; try apply He; [done|lia].
Qed.
End ready.

(** A ready RPC runs. *)
Lemma ready_runs pkts : rpc_ready pkts → ∃ c, request C0 = Ok (tt, c) ∧ ∀ ls, ∃ s, run asserts malloc_ok junk answer ls (start c) = Ok s ∧ rpc_ok s.
Proof.
  intros Hr. destruct (start_inv pkts Hr) as (c & E & Hi & _). exists c. split; [done|]. intros ls.
  destruct (run_inv asserts malloc_ok junk answer k (rr_call _ Hr) _ _ _ _ (rp_msg reply) (rp_key reply) (rp_hdr reply) pkts (rr_malloc _ Hr) ltac:(by destruct reply) ls _ Hi) as (s & Es & Hs & _).
  exists s. split; [done|]. by eapply joint_ok.
Qed.

(** C12: one RPC on an idle session: the client's slot is free and all its credits are
    there, the server's slot waits for this request, both messages have been serialized
    into prepared buffers, no other RPC is active at the client, the handler runs in the
    foreground, and the server can allocate for the response.  The channels lose nothing
    and keep the order, as the reliable connections of the transport do.  Request and
    response have 1 to [kMaxMsgSize] bytes, less than 2300 packets each, and lengths that
    are not multiples of [kMaxDataPerPkt]; both endpoints have unused receive-ring entries
    for the packets, and session numbers below 16; in a build with assertions the server's
    slot has not sent a response before.  Then, whatever the interleaving of the arrival
    of packets, the event loops of both sides and the application's response, no step
    faults or fails an assertion; credits and packets in flight always add up to
    [kSessionCredits]; the handler is called at most once and finds the request's bytes,
    and the continuation at most once, after the response, with the response's bytes. *)
Theorem rpc_runs_safely pkts :
  rpc_ready pkts → ∃ c, request C0 = Ok (tt, c) ∧ ∀ ls, ∃ s, run asserts malloc_ok junk answer ls (start c) = Ok s ∧ rpc_ok s.
Proof. apply ready_runs. Qed.
(** C13: one RPC on an idle session, under the same conditions: a free slot with all
    credits, both messages prepared, no other RPC active at the client, a foreground handler and
    memory for the response, channels that lose nothing and keep the order, and messages
    of 1 to [kMaxMsgSize] bytes in less than 2300 packets whose lengths are not multiples
    of [kMaxDataPerPkt]; receive-ring entries for the packets, and session numbers below 16;
    in a build with assertions, a slot of the server that has not sent a response before.
    Let N be the packets of the request and the response together,
    less one.  In a schedule of rounds, each with at least one step of every kind in any
    order, 6 N + 2 rounds or more complete the RPC: the handler has been called, the continuation
    has the response's bytes, and all credits are back. *)
Theorem rpc_completes pkts rounds :
  rpc_ready pkts → Forall fair rounds → (6 * all_pkts k + 1 < length rounds)%nat →
  ∃ c s, request C0 = Ok (tt, c) ∧ run asserts malloc_ok junk answer (concat rounds) (start c) = Ok s ∧
    events (sv s) = events S0 ++ [called] ∧ events (cl s) = events C0 ++ [continued] ∧ slot_data (cl s) (k_client k) = Some (k_resp k) ∧
    credits_of (cl s) (k_client k).1 = Some kSessionCredits.
Proof.
  intros Hr Hf Hlen. destruct (start_inv pkts Hr) as (c & E & Hi & Hge).
  destruct (rounds_finish asserts malloc_ok junk answer k (rr_call _ Hr) _ _ _ _ (rp_msg reply) (rp_key reply) (rp_hdr reply) pkts (rr_malloc _ Hr) ltac:(by destruct reply) rounds _ Hi Hf ltac:(lia)) as (s & Es & Hs & Hfin).
  exists c, s. pose proof (joint_ok pkts Hr s Hs) as [(cr & Hcr & Hcr0 & Hsum) _ _ Hcl]. pose proof (rr_call _ Hr) as Hk. pose proof (all_pkts_ge k Hk) as (? & _ & ? & _).
  destruct Hs as (rcv & tx & srv & rs & lc & ls & Hinv). destruct (sys_facts asserts k Hk _ _ _ _ _ _ _ _ _ _ _ _ _ _ Hinv) as ((Htc & _ & _ & _ & _ & _ & HtN & _) & _).
  destruct Hinv as [Hc _ _ Hto _ _ _]. unfold finished in Hfin. assert (rcv = all_pkts k) by lia. subst rcv. destruct (client_facts k Hk _ _ _ _ _ _ Hc) as (_ & _ & _ & Hf1 & _).
  cbn [observe o_tc] in Htc. unfold enqueued in Hsum. assert (Hend : events (cl s) = events C0 ++ [continued]).
  { destruct Hc as (x & sl & ci & r0 & Er & [Hat|(_ & _ & He)]); [destruct Hat; lia|]. rewrite Er. apply (ce_events _ _ _ _ _ _ _ _ He). }
  destruct Hcl as [Hcl|(_ & Hd & _ & Hsv & _)]; [rewrite Hcl in Hend; apply (f_equal length) in Hend; rewrite length_app in Hend; cbn in Hend; lia|].
  split_and!; try done. rewrite Hcr. f_equal. lia.
Qed.
End rpc.

(** ** The small instance *)
#[local] Existing Instances tiny tiny_ok.
Lemma ex_ready asserts : rpc_ready asserts (λ _, true) ex_answer ex_call 9 (ex_endpoint true 11) (ex_endpoint false 9) (ex_pkts 9).
Proof.
  destruct (ex_fields true 11) as (_ & _ & Hec & Hwc & Hbc & _). destruct (ex_fields false 9) as (_ & _ & Hes & Hws & Hbs & _).
  split; [exact ex_call_ok| | |by split|reflexivity].
  - do 4 eexists. split; [symmetry; apply (st_at_self _ _ _ _ _ (ex_slot true 11)); reflexivity|]. rewrite Hwc, Hec. apply ex_client_ready.
  - do 4 eexists. split; [symmetry; apply (st_at_self _ _ _ _ _ (ex_slot false 9)); reflexivity|]. rewrite Hws, Hes. apply ex_server_ready.
Qed.
Definition ex_round : list label := [ClientTurn 0; ServerRx; Respond; ServerTurn 0; ClientRx].
Lemma ex_round_fair : fair ex_round.
Proof. intros κ. unfold ex_round. destruct κ; [exists (ClientTurn 0)|exists (ServerTurn 0)|exists ClientRx|exists ServerRx|exists Respond]; (split; [|done]); rewrite !elem_of_cons; auto 10. Qed.

Lemma rpc_runs_safely_witness :
  ∃ c, request true ex_call 9 (ex_endpoint true 11) = Ok (tt, c) ∧
    ∀ ls, ∃ s, run true (λ _, true) (λ _, 0) ex_answer ls (start (ex_endpoint true 11) (ex_endpoint false 9) c) = Ok s ∧
      rpc_ok ex_call (ex_endpoint true 11) (ex_endpoint false 9) s.
Proof. apply (rpc_runs_safely true (λ _, true) (λ _, 0) ex_answer ex_call 9 (ex_endpoint true 11) (ex_endpoint false 9) (ex_pkts 9)). apply ex_ready. Defined.
Lemma rpc_completes_witness :
  ∃ c s, request true ex_call 9 (ex_endpoint true 11) = Ok (tt, c) ∧
    run true (λ _, true) (λ _, 0) ex_answer (concat (replicate 20 ex_round)) (start (ex_endpoint true 11) (ex_endpoint false 9) c) = Ok s ∧
    events (sv s) = events (ex_endpoint false 9) ++ [called ex_call] ∧ events (cl s) = events (ex_endpoint true 11) ++ [continued ex_call] ∧
    slot_data (cl s) (0%nat, 0%nat) = Some (ex_data 9) ∧ credits_of (cl s) 0 = Some kSessionCredits.
Proof.
  apply (rpc_completes true (λ _, true) (λ _, 0) ex_answer ex_call 9 (ex_endpoint true 11) (ex_endpoint false 9) (ex_pkts 9) (replicate 20 ex_round)).
  - apply ex_ready.
  - apply Forall_replicate, ex_round_fair.
  - vm_compute. lia.
Defined.
