(* ===== verification/RpcFindings.v ===== *)
(** * Where the datapath does not do what it means to

    A message that fills its packets, a second response on a slot, a request from the
    backlog, and a retransmission after a credit return. *)

From S2P Require Import Prelude IoVector IoVectorSpec IoVectorClass IoVectorOps Serializer SerializerSer SerializerPkts SmTypes RpcTypes Rpc RpcState RpcTx RpcKick RpcHandlers RpcClientInv RpcServerInv RpcExample.

Lemma wq_assert_fails b r (F : fault → Prop) (Q : unit → Rpc → Prop) : b = false → F AssertFailed → wq F (assert_d true b) Q r.
Proof. by intros ->. Qed.

Section findings.
Context `{TTr : Transport} `{!TransportOk} (asserts : bool).
Implicit Types (r : Rpc) (p : sslot_ptr) (x : Session) (sl : SSlot) (c : client_info) (i : server_info) (d : list Z).

(** When the length of a message is a multiple of [kMaxDataPerPkt], the size in its last
    header is 0, and the transport sends that packet without its [kMaxDataPerPkt] bytes. *)
Theorem full_last_packet_sent_empty r route ptr hdr d pkts s h :
  msgbufs r !! ptr = Some s → packets_of (bytes (mem r)) kMaxDataPerPkt d pkts s → (∀ k, (k < length pkts)%nat → is_Some (hdrs r !! hdr_at hdr (Z.of_nat k))) →
  hdrs r !! hdr = Some h → total_pkt h = Z.of_nat (length pkts) → msg_size_ h = Z.of_nat (length d) →
  d ≠ [] → Z.of_nat (length d) mod kMaxDataPerPkt = 0 →
  let last := (length pkts - 1)%nat in
  Z.of_nat (length (chunk last d)) = kMaxDataPerPkt ∧
  ∃ r' w, add_headers ptr hdr r = Ok (tt, r') ∧ tx_packet asserts (mk_item route (UserSer ptr) (Z.of_nat last)) r' = Ok (w, r') ∧ w_body w = [].
Proof.
  intros Hs Hpk Hhd Hh Htot Hms Hne Hmod last. pose proof kmax_pos as Hmax. pose proof (po_count _ _ _ _ _ Hpk) as Hcnt. assert (Hd : (0 < length d)%nat) by (destruct d; cbn; [done|lia]).
  assert (Hlen : Z.of_nat (length d) = Z.of_nat (length pkts) * kMaxDataPerPkt).
  { rewrite Hcnt. unfold data_size_to_num_pkts. assert (Hm0 : kMaxDataPerPkt ≠ 0) by (clear -Hmax; lia). pose proof (Z.div_mod (Z.of_nat (length d)) kMaxDataPerPkt Hm0) as Hdm. rewrite Hmod in Hdm. set (q := Z.of_nat (length d) / kMaxDataPerPkt) in *.
    destruct (Z.leb_spec (Z.of_nat (length d)) kMaxDataPerPkt); [assert (Hq : q = 1) by (assert (0 < q) by nia; assert (q < 2) by nia; lia); rewrite Hq in Hdm; lia|].
    replace (Z.of_nat (length d) + kMaxDataPerPkt - 1) with (q * kMaxDataPerPkt + (kMaxDataPerPkt - 1)) by lia. rewrite Z.div_add_l, Z.div_small by lia. lia. }
  assert (Hn : (0 < length pkts)%nat) by nia. split; [rewrite chunk_length; unfold last; nia|].
  cut (wp (add_headers ptr hdr) (λ _ r', ∃ w, tx_packet asserts (mk_item route (UserSer ptr) (Z.of_nat last)) r' = Ok (w, r') ∧ w_body w = []) r).
  { intros (u & r' & E & w & Hw)%wp_iff. destruct u. by exists r', w. }
  eapply wp_add_headers_raw; [done|exact Hpk|done|done|exact Hh|done|]. intros hs s' _ Hk _ Hat. destruct (lookup_lt_is_Some_2 pkts 0 Hn) as [p0 Hp0].
  destruct (lookup_lt_is_Some_2 pkts last ltac:(unfold last; lia)) as [pl Hpl]. destruct (Hat 0%nat p0 Hp0) as [Ha0 _]. destruct (Hat last pl Hpl) as [Hal _].
  assert (Hz : this_msg_size (nth_hdr h (length pkts) last) = 0).
  { unfold nth_hdr. rewrite (bool_decide_eq_true_2 (S last = _)) by (unfold last; lia). unfold set_this_msg_size. cbn. by case_bool_decide; cbn; rewrite Hms, Hmod. }
  eexists (mk_wire route (nth_hdr h (length pkts) last) []). split; [|done]. apply tx_packet_ok.
  exists s', (mk_iovec (hdr_at hdr 0) sizeof_pkthdr_t), (nth_hdr h (length pkts) 0), (mk_iovec (hdr_at hdr (Z.of_nat last)) sizeof_pkthdr_t).
  cbn [ser_of tx_buffer pkt_idx_ tx_route w_hdr w_route w_body msgbufs set_msgbufs hdrs set_hdrs iov_base]. rewrite lookup_insert_eq, Hz.
  split_and!; [done|done|by apply (Hk 0%nat)| |done|apply Hk; unfold last; lia|done|done].
  replace (total_pkt _) with (total_pkt h) by (unfold nth_hdr; cbn; by case_bool_decide). unfold last. lia.
Qed.

(** The response to a request stays in [tx_msgbuf_] of the server's slot, and the next
    response on that slot fails the assertion that it is null. *)
Theorem second_response_asserts r p x sl i ptr hdr d pkts key :
  slot_valid r p x → is_connected x = true → tx_msgbuf_ sl ≠ 0 →
  prepared r ptr hdr d pkts →
  enqueue_response true p ptr key hdr 0 (st_at p x sl (ServerInfo i) r) = Fault AssertFailed.
Proof.
  intros Hv Hc Htx Hp. apply wq_fault. pose proof Hp as [(s & Hs & Hpk) Hhd (h0 & Hh0 & Ht0) _ Hpos _]. pose proof kmax_pos.
  assert (Hn : (0 < length pkts)%nat). { pose proof (po_count _ _ _ _ _ Hpk). pose proof (num_pkts_cover kMaxDataPerPkt (Z.of_nat (length d)) ltac:(done) ltac:(lia)). nia. }
  unfold enqueue_response. cbn [Z.eqb]. wstep. wstep. wstep. apply wq_at_upd_si; [done|]. wstep. apply wq_at_get_session; [done|].
  change (is_connected (with_slot _ _ x)) with (is_connected x). rewrite Hc. cbn [negb]. wstep. eapply wq_get_hdr; [exact Hh0|]. wstep. eapply wq_get_msgbuf; [exact Hs|].
  wstep. eapply wq_lift_ok; [by eapply prepared_sum|]. wstep. apply wq_at_get_si; [done|]. wstep. apply wq_at_get_sslot; [done|]. wstep. apply wq_put_hdr; [by eexists|].
  set (hn := fill_hdr _ _ _ _ _ _ _ _ _). wstep. eapply (wq_weaken (λ _, False)) with (P := λ _ _, True).
  { eapply (wp_add_headers_raw _ ptr hdr d pkts s hn (λ _ _, True)); [exact Hs|exact Hpk| |done|apply lookup_insert_eq|done|done].
    intros k Hk. cbn [hdrs set_hdrs]. destruct (decide (hdr_at hdr (Z.of_nat k) = hdr)) as [->|E]; [by rewrite lookup_insert_eq|]. rewrite lookup_insert_ne by done. by apply Hhd. }
  2:{ done. }
  intros ? r' _. wstep. apply wq_assert_fails; [|done]. by apply Z.eqb_neq.
Qed.

(** A request that waited in the backlog is enqueued without a header: completing the
    response that makes room for it dereferences a null pointer. *)
Theorem backlog_request_faults r p x sl c a b :
  slot_valid r p x → ci_resp_msgbuf c ≠ 0 → ci_wheel_count c = 0 → ci_prev c = Some Root → ci_next c = Some Tail →
  is_connected x = true → sslot_free_vec_ x = [] → index_ sl = Z.of_nat p.2 → enq_req_backlog_ x = a :: b → ea_session_num a = Z.of_nat p.1 → hdrs r !! 0 = None →
  complete_response asserts p (st_at p x sl (ClientInfo c) r) = Fault UndefinedBehaviour.
Proof.
  intros Hv Hresp Hwh Hprev Hnext Hconn Hfree Hidx Hback Hsn Hnull. apply wq_fault. apply wq_complete_front; [done..|by rewrite Hfree|]. intros x' c' sl'. unfold after_free.
  change (enq_req_backlog_ (with_slot _ _ x')) with (enq_req_backlog_ x). change (sslot_free_vec_ (with_slot _ _ x')) with (index_ sl :: sslot_free_vec_ x). rewrite Hback, Hfree.
  do 2 wstep. apply wq_assert_d; [done|]. wstep. unfold enqueue_request. rewrite Hsn, Nat2Z.id. wstep. apply wq_at_get_session; [done|]. wstep. apply wq_assert_d; [done|].
  change (sslot_free_vec_ (with_slot _ _ x')) with (index_ sl :: sslot_free_vec_ x). rewrite bool_decide_eq_false_2 by done. unfold pop_free. wstep. wstep. apply wq_at_get_session; [done|].
  change (sslot_free_vec_ (with_slot _ _ x')) with (index_ sl :: sslot_free_vec_ x). rewrite Hfree, Hidx. wstep.
  match goal with |- wq _ (put_session _ ?y) _ _ => change y with (with_slot p.2 (set_info (ClientInfo c') sl') (set_free_vec [] x')) end.
  apply wq_at_put_session. wstep. rewrite Nat2Z.id. replace (p.1, p.2) with p by by destruct p. wstep. apply wq_at_get_sslot; [done|]. wstep. apply wq_assert_d; [done|].
  wstep. apply wq_at_upd_sslot; [done|done|]. cbn [Z.eqb]. do 2 wstep. do 2 wstep. wstep. apply wq_at_upd_ci; [done|]. wstep.
  unfold add_to_active_rpc_list. do 2 wstep. change (tail_prev (st_at p ?y ?s ?j ?r')) with (tail_prev r'). cbn [tail_prev st_freed set_tail_prev set_next set_prev].
  do 2 wstep. change (set_root_next ?v (st_at p ?y ?s ?j ?r')) with (st_at p y s j (set_root_next v r')). wstep. apply wq_at_upd_ci; [done|]. wstep. apply wq_at_upd_ci; [done|]. wstep. wstep.
  unfold get_hdr. repeat (progress wstep). match goal with |- context [hdrs ?s !! 0] => change (hdrs s) with (hdrs r) end. rewrite Hnull. by wstep.
Qed.

(** A credit return gives its credit back without counting in [num_rx_].  A client that
    has had one and then retransmits adds the credits of all packets that are not counted:
    more than [kSessionCredits], which fails the assertion. *)
Theorem retransmission_after_credit_return_asserts k w0 E0 rcv tx l x sl c r :
  client_at k w0 E0 rcv tx l x sl c r → (0 < rcv < req_pkts k)%nat → u_ptr (k_req k) ≠ 0 → Z.of_nat tx < 2 ^ 32 →
  pkt_loss_retransmit_st true (k_client k) (st_at (k_client k) x sl (ClientInfo c) r) = Fault AssertFailed.
Proof.
  intros [Hv _ _ _ _ _ Hcred Hmsg _ [tsc ->] _ _ _ _ Hflow _ _ _ _] Hrcv Hptr Htx. apply wq_fault. destruct Hflow as (Hf & Hf2 & _). unfold kSessionCredits in Hcred.
  unfold pkt_loss_retransmit_st. wstep. apply wq_at_get_sslot; [done|]. wstep. apply wq_assert_d; [intros _; cbn; rewrite Hmsg; by apply negb_true_iff, Z.eqb_neq|].
  wstep. apply wq_at_get_ci; [done|]. wstep. apply wq_at_get_session; [done|]. cbn [ci_num_tx ci_num_rx credits_ with_slot set_sslot_arr].
  replace (S rcv - req_pkts k)%nat with 0%nat by lia. rewrite Z.sub_0_r, (u64_small (Z.of_nat tx)), u64_small by lia. wstep. apply wq_assert_fails; [|done]. unfold kSessionCredits. lia.
Qed.

(** The client after the credit return for its first packet. *)
Lemma after_first_cr malloc_ok (junk : Z → Z) k (Hk : call_ok k) w0 E0 key x sl c r w :
  client_ready asserts k w0 E0 key x sl c r → malloc_ok (Z.of_nat (length (k_resp k))) = true → (1 < req_pkts k)%nat → server_pkt k 0 w →
  ∃ tx l x sl c r, client_at k w0 E0 1 tx l x sl c r.
Proof.
  intros Hr Hmal Hn Hpkt. pose proof (client_start asserts k Hk w0 E0 key _ _ _ _ Hr) as Hw. apply wp_iff in Hw as (? & r1 & _ & tx & l & Hinv). pose proof (all_pkts_ge k Hk).
  pose proof (client_rx asserts malloc_ok junk k Hk w0 E0 0 tx l r1 w Hmal Hinv ltac:(lia) Hpkt) as Hrx.
  apply wp_iff in Hrx as (? & r2 & _ & tx' & l' & _ & (x' & sl' & c' & r0 & _ & [Hat|(E & _)])); [by exists tx', (l ++ l'), x', sl', c', r0|lia].
Qed.
End findings.

(** ** Witnesses: the small instance *)
#[local] Existing Instances tiny tiny_ok.

(** One packet of 8 bytes. *)
Definition ex_full : Rpc :=
  mk_rpc [] [] [] 0 [] 0 0 None None 0 [] 0 ex_func 0 ex_mem {[ 1000 := mk_pkthdr 0 8 0 kReq 0 0 0 0 1 8 ]}
    {[ 50 := mk_ser (mk_iovector IOVECTOR_CAPACITY 2 3 0 (replicate 2 (mk_iovec 0 0) ++ [mk_iovec 100 8] ++ replicate 2297 (mk_iovec 0 0))) 1 zero_iovector ([0; 1] ++ replicate 1998 0) false false 0 0 ]} ∅ [] [].
Lemma ex_full_pkts : ∃ s, msgbufs ex_full !! 50 = Some s ∧ packets_of (bytes (mem ex_full)) kMaxDataPerPkt (ex_data 8) [[mk_iovec 100 8]] s.
Proof.
  eexists. split; [apply lookup_singleton_eq|]. match goal with |- packets_of _ _ _ _ ?s0 => set (s := s0) end. assert (Hv : view (iov s) = [mk_iovec 100 8]) by reflexivity.
  split; [reflexivity|reflexivity| | |exact Hv| |discriminate].
  - intros [|j] q; [|done]. cbn [lookup list_lookup]. intros [= <-]. split; [by vm_compute|discriminate].
  - split; [|reflexivity|reflexivity]. split; cbn [s iov iov_begin iov_end capacity nbases iovs]; unfold IOVECTOR_CAPACITY; try lia; [rewrite !length_app, !length_replicate; cbn; lia|].
    change (lens_ok (view (iov s))). rewrite Hv. apply Forall_singleton. cbn. lia.
  - intros [|[|j]] Hj; cbn in Hj; [reflexivity|reflexivity|lia].
Qed.
Lemma full_last_packet_sent_empty_witness :
  Z.of_nat (length (chunk 0 (ex_data 8))) = kMaxDataPerPkt ∧
  ∃ r' w, add_headers 50 1000 ex_full = Ok (tt, r') ∧ tx_packet true (mk_item 0 (UserSer 50) 0) r' = Ok (w, r') ∧ w_body w = [].
Proof.
  destruct ex_full_pkts as (s & Hs & Hpk).
  apply (full_last_packet_sent_empty true ex_full 0 50 1000 (ex_data 8) [[mk_iovec 100 8]] s (mk_pkthdr 0 8 0 kReq 0 0 0 0 1 8)); try done.
  intros [|j] Hj; [|cbn in Hj; lia]. eexists. apply lookup_singleton_eq.
Defined.
Lemma second_response_asserts_witness :
  enqueue_response true (0%nat, 0%nat) 50 9 1000 0
    (st_at (0%nat, 0%nat) (new_Session false kConnected 0 0 0 ex_cl ex_sv) (set_tx_msgbuf 50 (new_sslot false 0)) (ServerInfo (mk_si 3 kForeground 1 1)) (ex_endpoint false 9)) = Fault AssertFailed.
Proof.
  apply (second_response_asserts (ex_endpoint false 9) (0%nat, 0%nat) (new_Session false kConnected 0 0 0 ex_cl ex_sv) (set_tx_msgbuf 50 (new_sslot false 0)) (mk_si 3 kForeground 1 1) 50 1000 (ex_data 9) (ex_pkts 9) 9).
  - apply ex_slot_valid.
  - reflexivity.
  - discriminate.
  - apply ex_prepared. by right.
Defined.
Lemma backlog_request_faults_witness :
  complete_response true (0%nat, 0%nat)
    (st_at (0%nat, 0%nat) (set_free_vec [] (set_backlog [mk_args 0 3 50 60 70 80 8] (new_Session true kConnected 0 0 0 ex_cl ex_sv))) (new_sslot true 0)
       (ClientInfo (mk_ci 60 70 80 1 1 0 kInvalidBgETid (Some Root) (Some Tail) 0)) (ex_endpoint true 11)) = Fault UndefinedBehaviour.
Proof.
  apply (backlog_request_faults true (ex_endpoint true 11) (0%nat, 0%nat) (set_free_vec [] (set_backlog [mk_args 0 3 50 60 70 80 8] (new_Session true kConnected 0 0 0 ex_cl ex_sv))) (new_sslot true 0)
    (mk_ci 60 70 80 1 1 0 kInvalidBgETid (Some Root) (Some Tail) 0) (mk_args 0 3 50 60 70 80 8) []); [apply ex_slot_valid|discriminate|reflexivity..|apply ex_no_null].
Defined.

Lemma ex_after_cr : ∃ tx l x sl c r, client_at ex_call [] [] 1 tx l x sl c r.
Proof.
  apply (after_first_cr true (λ _, true) (λ _, 0) ex_call ex_call_ok [] [] 9 _ _ _ _ (mk_wire 0 (mk_pkthdr 3 24 0 kExplCR 0 32 11 0 0 0) []) (ex_client_ready true)); [reflexivity|vm_compute; lia|].
  split; [intros _; by split|cbn; lia].
Qed.
Lemma retransmission_after_credit_return_asserts_witness :
  ∃ x sl c r, pkt_loss_retransmit_st true (0%nat, 0%nat) (st_at (0%nat, 0%nat) x sl (ClientInfo c) r) = Fault AssertFailed.
Proof.
  destruct ex_after_cr as (tx & l & x & sl & c & r & Hat). exists x, sl, c, r.
  apply (retransmission_after_credit_return_asserts ex_call [] [] 1 tx l x sl c r); [exact Hat|vm_compute; lia|discriminate|].
  destruct (ca_flow _ _ _ _ _ _ _ _ _ _ Hat) as ((_ & Hf) & _). vm_compute in Hf. lia.
Defined.
