(* ===== verification/RpcConnect.v ===== *)
(** * An RPC over a session that a handshake has created

    What session management promises is what the datapath starts from: when a handshake
    has connected a session, an RPC over it runs safely. *)

From S2P Require Import Prelude IoVector IoVectorSpec IoVectorClass IoVectorOps Serializer SerializerSer SerializerPkts SmTypes RpcTypes Rpc RpcState RpcTx RpcKick RpcHandlers RpcClientInv RpcServerInv RpcSystem RpcExample RpcTheorems Sm SmInv SmStep SmTheorems.

Section connect.
Context `{TTr : Transport} `{!TransportOk} (asserts : bool) (malloc_ok : Z → bool) (junk : Z → Z) (answer : Z → reply) (key : Z) (pkts : list (list iovec)).
Implicit Types (k : call) (n m : nat) (x y : Session) (r : Rpc).
#[local] Abbreviation reply k := (answer (k_func k)).

(** The first call on the first slot of session [n] of the client and [m] of the server. *)
Record first_call k n m : Prop := {
  fc_client : k_client k = (n, 0%nat);
  fc_server : k_server k = (m, 0%nat);
  fc_num : k_q k = kSessionReqWindow;
  fc_ok : call_ok k;
  fc_malloc : malloc_ok (Z.of_nat (length (k_resp k))) = true
}.
(** Nothing is under way, the message of the user is prepared, and the receive ring is
    apart from it. *)
Record client_prepared k r : Prop := {
  cp_active : tail_prev r = Some Root;
  cp_stall : stallq_ r = [];
  cp_sent : tx_burst_arr_ r = [];
  cp_tx : tx_inv r (k_client k).1 None (wire r);
  cp_req : prepared r (u_ptr (k_req k)) (u_hdr (k_req k)) (u_data (k_req k)) (u_pkts (k_req k));
  cp_head : ∃ h, hdrs r !! u_hdr (k_req k) = Some h ∧
    u_head (k_req k) = fill_hdr (k_rt k) (Z.of_nat (length (u_data (k_req k)))) (Z.of_nat (k_server k).1) kReq 0 (k_q k) key kMaxDataPerPkt h;
  cp_apart : hdrs_apart r (u_hdr (k_req k)) (req_pkts k);
  cp_ring : ring_ok r (covers (concat (u_pkts (k_req k))))
}.
Record server_prepared k r : Prop := {
  sp_stall : stallq_ r = [];
  sp_func : req_func_arr_ r (k_rt k) = mk_reqfunc (k_func k) kForeground;
  sp_sent_all : tx_burst_arr_ r = [];
  sp_tx0 : tx_inv r (k_server k).1 None (wire r);
  sp_resp0 : prepared r (rp_msg (reply k)) (rp_hdr (reply k)) (k_resp k) pkts;
  sp_apart0 : hdrs_apart r (rp_hdr (reply k)) (length pkts);
  sp_ring0 : ring_ok r (server_keeps pkts);
  sp_entries : ring_apart r ∧ Z.of_nat (req_pkts k) ≤ ring_len r;
  sp_null : ∀ j b, rx_ring_ r !! j = Some b → b ≠ 0
}.

Lemma new_slot_at client st a b t c d : sslot_arr_ (new_Session client st a b t c d) !! 0%nat = Some (new_sslot client 0).
Proof. done. Qed.
Lemma paired_ready A B t n m x y k C S : paired A B t n m x y → session_vec_ C !! n = Some (Some x) → session_vec_ S !! m = Some (Some y) →
  first_call k n m → client_prepared k C → server_prepared k S → rpc_ready asserts malloc_ok answer k key C S pkts.
Proof.
  intros [(ρ & _ & Hx) (ρ' & _ & Hy)] HC HS [Hkc Hks Hq Hok Hm] HcP HsP. destruct HcP, HsP. destruct (k_client k) as [n' i'] eqn:Ekc. destruct (k_server k) as [m' j'] eqn:Eks. injection Hkc as -> ->. injection Hks as -> ->. cbn [fst] in *.
  assert (HaC : at_slot C (n, 0%nat) x (new_sslot true 0)) by (split; [exact HC|by rewrite Hx]). assert (HaS : at_slot S (m, 0%nat) y (new_sslot false 0)) by (split; [exact HS|by rewrite Hy]).
  assert (Hvc : slot_valid C (k_client k) x). { rewrite Ekc. split; [by eapply lookup_lt_Some|]. cbn. by eapply lookup_lt_Some, HaC. }
  assert (Hvs : slot_valid S (k_server k) y). { rewrite Eks. split; [by eapply lookup_lt_Some|]. cbn. by eapply lookup_lt_Some, HaS. }
  split; [exact Hok| | |done|exact Hm].
  - exists x, (new_sslot true 0), (mk_ci 0 0 0 0 0 0 0 None None 0), C. split; [rewrite Ekc; symmetry; by apply st_at_self|].
    split; rewrite ?Ekc, ?Eks; cbn [fst snd]; try done; rewrite ?Hx; try done.
    + rewrite <- Ekc, <- Hx. exact Hvc.
    + eexists. split; [reflexivity|]. done.
  - exists y, (new_sslot false 0), (mk_si kInvalidReqType kForeground 0 0), S. split; [rewrite Eks; symmetry; by apply st_at_self|].
    split; rewrite ?Ekc, ?Eks; cbn [fst snd]; try done; rewrite ?Hy; try done.
    + split; rewrite ?Ekc, ?Eks; cbn [fst snd]; try done. rewrite <- Eks, <- Hy. exact Hvs.
    + apply all_pkts_ge in Hok. lia.
    + by rewrite app_nil_r.
    + exists []. split_and!; [|cbn; lia|done|intros e a b _ _ []%covers_nil]. split; [done|]. split_and!; [done|apply dyn_ok_zero|cbn; lia].
Qed.

End connect.

(** ** The small instance *)
#[local] Existing Instances tiny tiny_ok.
Definition ex_steps : list sm_label := [Create 0; ToServer 0; ToClient 0].
Definition ex_connected : net := mk_net
  (mk_sm (ex_endpoint true 11) 32 ∅ [] [mk_SmPkt kConnectReq kNoError 0 (EA exA 0) (ES exA exB)] [(0, kEvConnected, kNoError)])
  (mk_sm (ex_endpoint false 9) 0 {[0 := 0]} [] [mk_SmPkt kConnectResp kNoError 0 (EA exA 0) (SB exA exB 0 6)] []).
Lemma ex_steps_run : net_run true exA exB ex_steps (sm_start exA exB (set_session_vec [] (ex_endpoint true 11)) (set_session_vec [] (ex_endpoint false 9))) = Ok ex_connected.
Proof. reflexivity. Qed.
Lemma ex_client_prepared : client_prepared 9 ex_call (ex_endpoint true 11).
Proof.
  destruct (ex_fields true 11) as (H1 & H2 & _ & Hw & H3 & _). split; [exact H1|exact H2|exact H3|rewrite Hw; apply ex_tx|apply ex_prepared; by left| |apply ex_apart|apply ex_ring_ok; lia].
  exists (ex_hdr 2). split; [apply lookup_insert_eq|done].
Qed.
Lemma ex_server_prepared : server_prepared ex_answer (ex_pkts 9) ex_call (ex_endpoint false 9).
Proof.
  destruct (ex_server_ready true) as [[_ _ _ _ H1 H2 H3] _ _ H4 H5 H6 _ _ H7 _ H8]. destruct (ex_fields false 9) as (_ & _ & _ & Hw & Hb & _).
  split; [exact H1|exact H2|exact Hb|by rewrite Hw|exact H5|exact H6|exact H3|exact H7|]. intros j b Hj. destruct (H8 eq_refl) as [_ H9]. exact (H9 j b Hj).
Qed.
